(* ===== verification/_CoqProject ===== *)
-Q . S2P
Prelude.v
PyStr.v
PyFloat.v
Sha256.v
Sha512.v
Blake2b.v
PyJson.v
PyJsonLoads.v
PyJsonPretty.v
PyRepr.v
PyDyn.v
PyEqual.v
Merkle.v
Signing.v
KeyDerivation.v
Shamir.v
Jcs.v
CaveatSet.v
AipSigning.v
SigCache.v
Manifest.v
Lifecycle.v
Recovery.v
PyTime.v
PyTimestamp.v
PyIso.v
PyHour.v
Bridge.v
Spool.v
SpoolFlow.v
KidResolver.v
ManifestVerify.v
ManifestVerifySpec.v
ManifestFlow.v
PyFnmatch.v
Policy.v
FederationEval.v
MultiOrg.v
Attenuation.v
ChainWalk.v
CrossOrg.v
MarkerStack.v
Ledger.v
PinnedKv.v
MarkerKv.v
SequenceLedger.v
CaveatExport.v
FederationFrame.v
PolicyKv.v
PolicyWatch.v
PolicyReplication.v
AttestationKv.v
AttestationReplication.v
RouteKv.v
UnrevokeExport.v
DnsAnchor.v
FtdVerify.v
FederatedResolve.v
OrgKeys.v
AuditDiff.v
AuditStream.v
AuditTriangle.v
Subjects.v
SchemaKv.v
EntrySigning.v
SchemaReplication.v
