(* ===== verification/Prelude.v ===== *)
(** * Wakir runtime: a verification library

    The repository is a runtime for personas (long-running agents) with an
    audit trail.  Its parts, as far as they are modelled here:

    - the audit trail ([src/wat/]): frames are projected onto leaves and
      appended to the spool of their hour; the events of a sealed hour are
      hashed into a Merkle tree, written as a manifest and signed; a verifier
      checks manifests and their anchor files;
    - identity ([src/wirelang/identity/], [src/wirelang/canonical/]): canonical
      JSON, signed AIP documents, key identifiers, a cache of verifications,
      canonical caveat sets, key derivation, cold-storage shares; federation
      trust documents, their DNS anchors, and the resolution of agents and of
      organisation keys through them;
    - federation ([src/wirelang/federation/]): routes between organisations and
      their attestations, delegation chains, attenuation of capabilities,
      revocation markers, and what crosses the boundary of an organisation
      (exports under sequence numbers, frames);
    - the schema registry, its signed entries and its capability policies
      ([src/wirelang/schemas/]);
    - the persona engine ([src/wirelang/persona_engine/]): lifecycle, recovery,
      and the audit of what two implementations of a bridge do;
    - the grammar of message subjects ([src/wirelang/nats/]).

    Markers, policies, schemas, attestations and sequence numbers live in key-value
    buckets that several processes write.  Each of these stores is modelled on
    one bucket ([Ledger]) with the pure component in front of it: [MarkerKv] on
    [MarkerStack], [PolicyKv] on [Policy], [AttestationKv] on [MultiOrg], [RouteKv] on
    [FederationEval]; [SchemaKv] holds its own registry.

    ** Files

    The language and its standard library.  [Prelude] (this file): the error
    monad, state-passing computations, dictionaries as association lists,
    Python's stable [sorted], and the tactics ([run_ok], [propify], [divlia]).
    [PyStr]: text as lists of code points, UTF-8, hexadecimal text, [strip],
    the reading of decimals.  [PyFloat]: binary64 and [repr].  [PyJson],
    [PyJsonLoads], [PyJsonPretty]: [json.dumps] and [json.loads], with the
    round trips.  [PyDyn]: operations on parsed values.  [PyTime], [PyIso]:
    aware and naive times, [isoformat], [strftime], [fromisoformat].
    [PyTimestamp]: [timestamp] and [fromtimestamp] in binary64.  [PyHour]: hour
    labels, [strptime].  [PyEqual]: [==] of parsed values.  [PyRepr]: [str] and
    [repr] of parsed values, Unicode digits.  [PyFnmatch]: shell patterns.  [Sha256], [Sha512],
    [Blake2b]: hashes as classes, with the standard algorithms as instances.

    The program; a definition carries the name of the function it translates.
    - [Merkle]: [wat/merkle/aggregator.py].
    - [Signing]: [wat/identity/manifest_signing.py].
    - [Manifest]: [wat/cmd/aggregator_cli.py]; it calls [Merkle] and [Signing].
    - [Bridge]: [wat/ingestion/wirelang_bridge.py]; [Spool]:
      [wat/ingestion/spool_writer.py] and [wat/ingestion/cli.py]; [SpoolFlow]
      follows frames through the spool into [Manifest]'s build.
    - [ManifestVerify]: [wat/verify/manifest_v2.py]; it calls [Merkle],
      [Signing] and [KidResolver].  [ManifestVerifySpec] reads its acceptance
      declaratively; [ManifestFlow] holds its theorems, among them the flow
      from [build_command] to an accepted file.
    - [KidResolver]: [wirelang/identity/kid_resolver.py] and the audit trail's
      bridge [wat/identity/anchor_kid.py].
    - [Jcs]: [wirelang/identity/_jcs_pure.py]; [CaveatSet]:
      [wirelang/canonical/caveat_set.py]; [AipSigning]:
      [wirelang/identity/aip_signing.py]; [SigCache]:
      [wirelang/identity/aip_signature_verification_cache.py], in front of
      [AipSigning].
    - [KeyDerivation]: [wirelang/identity/key_derivation.py]; [Shamir]:
      [wirelang/identity/shamir_split.py] and [recovery_drill.py].
    - [DnsAnchor]: [wirelang/identity/dns_anchor.py]; [FtdVerify]:
      [ftd_verifier.py], on the anchors; [FederatedResolve]:
      [federation_resolver.py], on the verified documents; [OrgKeys]:
      [federation_resolver_canonical.py].
    - [Lifecycle], [Recovery]: [lifecycle_state_machine.py] and
      [recovery_workflow.py] of [wirelang/persona_engine/]; the recovery
      drives the lifecycle machine.
    - [FederationEval]: [wirelang/federation/n2_evaluator.py]; [ChainWalk]:
      [n3_chain_walker.py], on its route registry; [CrossOrg]:
      [cross_org_attenuation_verifier.py], on the walker's verdict;
      [MultiOrg]: [multi_org_substrate.py]; [MarkerStack]:
      [marker_composition.py]; [Attenuation]:
      [capability_attenuation_chain_verifier.py], on [Policy] and [MultiOrg].
    - Buckets of the federation.  [Ledger]: [sequence_number_ledger_kv.py], with
      the bucket that the others share; [MarkerKv]: [marker_stack_kv.py];
      [AttestationKv], [AttestationReplication]:
      [multi_org_attestation_nats_kv_backend.py] and
      [multi_org_attestation_live_tail_replicator.py]; [RouteKv]:
      [route_registry_nats_kv_backend.py].
    - What crosses the boundary.  [SequenceLedger], [CaveatExport]:
      [caveat_override_export.py]; [UnrevokeExport]:
      [unrevoke_audit_marker_cross_org_export.py]; [FederationFrame]:
      [federation_frame.py].
    - [Policy]: [wirelang/schemas/registered_by_capability.py]; [PolicyKv],
      [PolicyWatch]: [capability_policy_nats_kv_backend.py], the backend and the
      consumers of its updates; [PolicyReplication]:
      [capability_policy_replication.py].
    - [SchemaKv]: [registry_nats_kv_backend.py] of [wirelang/schemas/];
      [EntrySigning]: [entry_signing.py], on the codec of [SchemaKv] and the
      checks of [Signing]; [SchemaReplication]: [replication.py].
    - [AuditDiff], [AuditStream], [AuditTriangle]: [bridge_audit_diff_engine.py];
      [bridge_audit_writer.py], [bridge_audit_stream_hash.py] and
      [bridge_audit_replay.py]; [bridge_audit_triangle.py].
    - [Subjects]: [wirelang/nats/subject_mapping.py].
    - [PinnedKv] is no part of the program: it is the argument that the stores
      share, that checked writes which name a revision keep what they check,
      however they interleave.

    ** How state and effects are modelled

    A method that changes an object is a function from the object's record to
    the new record and its result.  Exceptions are the [Err] side of [result],
    one constructor per [raise] statement (texts of messages are left out, the
    data in them is kept).  Text files are a map from paths to texts; the
    binary files beside a manifest a second map.  Clock readings, answers of a
    peer, sockets and supervisors are arguments, in the order of the calls.
    Interleaving is explicit where the code awaits or tests before it writes:
    the ledger's export is a plan and a commit, an append to the spool a test
    and a write, the put of a marker a listing, gets, a plan and a create, a
    pinned write of a policy or an attestation a plan and an update, an edit of a
    schema a read and a pinned write; the theorems
    are over sequences of such steps.  A consumer of a bucket is a fold over its
    updates.  A replicator is the target and the counters, moved by each update;
    nothing else writes the target meanwhile, and examples show what happens when
    something does.  The caches of trust documents are states, with the answers
    of the clock as arguments.

    ** What is assumed

    Third-party code is a class with the documented behaviour as laws: Ed25519
    ([Signing]), [rfc8785] ([Merkle], [Signing], [CaveatSet]), the reader of
    PEM keys ([Manifest]), [jsonschema] and the receipt verifier
    ([ManifestVerify]), the NATS bucket ([Ledger]), its listing of keys
    ([MarkerKv]), its unconditional writes and its revisions, which grow across the
    bucket ([PolicyKv]), the time zone of the host ([PolicyKv]), the tables of the
    Unicode database ([FederatedResolve]), the container supervisor
    and state store, which may answer or raise ([Recovery]), the peer's policy resolver ([Attenuation]), SLIP-39
    ([Shamir]), the points of secp256k1 ([KeyDerivation]).
    Each class with laws has an instance, which the witnesses use; [Jcs] shows
    that the runtime's own canonicaliser satisfies the laws asked of
    [rfc8785].  No property of a hash is assumed: where collision resistance
    matters the conclusion is the property or a collision among the messages
    that the computation at hand hashes, which the statement lists
    ([collision_in]).

    ** The theorems

    - Merkle tree: the tree is built and is a tower of levels, every leaf has a
      proof that verifies, an accepted proof is about an event of the batch,
      the root binds the events.
    - Spool: an hour's file holds exactly the accepted leaves, a sealed hour is
      final, the late window is kept, what a late write after a seal loses; a
      sealed hour is built into a manifest of its leaves, or fails as a whole
      because of one frame without a capability.
    - Manifests: the exact validation errors, independence of the spool's
      order, the listed events and their proofs, signatures and their wire
      form; the file of a signed build passes the verifier, except that of an
      empty hour or an empty label, which is refused; what each mode of the
      verifier accepts; what an accepted root binds.
    - Identity: canonical bytes determine the value up to member order, the
      caveat hash stands for the set of caveats, the cache is transparent and
      bounded, a key identifier resolves exactly when its entry is unique, in
      its window and well formed.
    - Keys: which inputs derive a key, that a derived key determines its seed
      and path, that shares recover the secret and what the drill does not see.
    - Federation: exact acceptance conditions of the chain walk, the
      cross-organisation detectors, the attenuation chain and the marker
      stack; order independence of the marker stack; the ledger never
      acknowledges a number twice under any interleaving.
    - Markers and exports: the acknowledged events of a token are numbered without
      a gap under any interleaving and are what is read back; every export is
      delivered once to a receiver that is not ahead of the sender; identifiers
      bind what they stand for, signing bytes the header, the kind and the data of
      a frame; the narrative of an unrevocation does not leave the organisation.
    - Policies: the gate's decision on every registry, that adding a policy
      never withdraws a grant; a revocation in the bucket is final under any
      interleaving of pinned writers; a consumer of the updates has the registry
      of the bucket, and a lost revocation is reported to one that selects the
      kinds of loss; a replica has the policies
      of its source and keeps its revocations.
    - Attestations: the check of a write accepts exactly the extensions of the live
      attestation; under any interleaving of pinned writers an attestation is only
      extended; a consumer has the registry of the bucket; a replica has the
      attestations of its source, only extends its own, and counts every update
      once.
    - Schemas: whatever is written, the bucket and its replicas hold entries whose
      identifier and digest are those of their document; no acknowledged edit is
      lost under any interleaving; a signed entry reads back and verifies; a
      consumer has the registry of the bucket, a replica the documents of its
      source under the keys its filter lets through.
    - Routes: a consumer of the bucket ends with a registry on which the evaluator
      accepts exactly the open routes of the bucket.
    - Trust documents and resolution: what is accepted, under which error anything
      else is refused, that one name has one document, that a cached answer is
      served in time; a resolved agent is vouched for by such a document; the keys
      of the organisations do not depend on the order of their registration.
    - Audit: every difference is located, the log reads back, the verdict of the
      triangle.  Subjects: a filter that passes stays in its domain.
    - Lifecycle and recovery: transitions, audit log and its replay, liveness,
      the outcome of a recovery with the exceptions it does not catch, its time
      budget, its bounded retries.

    ** Fuel and bounds

    Loops whose recursion is not structural carry fuel computed from their
    input: the tree's loop (number of leaves), the JSON reader ([json_fuel],
    twice the length of the text), the UTF-8 decoder (length), the pattern
    translation.  Each has a lemma or a theorem that this fuel is enough.
    Integers are unbounded, as in Python.  Times are microseconds; additions
    that leave the years 1 to 9999 raise as in the code.

    ** Not modelled

    Command-line parsing and printing; the limits of the interpreter (recursion
    depth, digits of integers, memory); exceptions of transports other than the
    ones the code tells apart; [isinstance] checks that the types of the model
    decide.  [strftime] and [fromisoformat] behave as in CPython 3.11 on glibc.
    Event loops, HTTP and gRPC clients, the dnspython resolver, the switch to
    external binaries, calls of language models, dashboards, command lines and the
    repository's tooling are left out: they are effects around the modelled
    functions, and what they compute beside these effects is formatting.  The
    fallback Ed25519 in pure Python, X.509 and JWT stand behind the classes of the
    third-party code.  Persona documents and
    AIP transport rest on a JSON Schema library and on HTTP. *)

From stdpp Require Export prelude sorting gmap.
From Stdlib Require Import ZArith Lia.
From Stdlib Require Export ZifyNat.

#[global] Set Default Goal Selector "!".

(** ** The error monad: a Python call returns a value or raises *)

Inductive result (E A : Type) : Type :=
| Ok (a : A)
| Err (e : E).
Arguments Ok {E A} a.
Arguments Err {E A} e.

#[export] Instance result_ret {E} : MRet (result E) := λ A a, Ok a.
#[export] Instance result_bind {E} : MBind (result E) :=
  λ A B f x, match x with Ok a => f a | Err e => Err e end.

#[export] Instance result_eq_dec {E A} `{EqDecision E, EqDecision A} :
  EqDecision (result E A).
Proof. solve_decision. Defined.

(** [if c: raise e] *)
Definition raise_if {E} (c : bool) (e : E) : result E unit :=
  if c then Err e else Ok ().

(** [try: x except: raise f(exc)] *)
Definition map_err {E F A} (f : E → F) (x : result E A) : result F A :=
  match x with Ok a => Ok a | Err e => Err (f e) end.

Definition is_ok {E A} (x : result E A) : bool :=
  match x with Ok _ => true | Err _ => false end.

Definition ok_or {E A} (d : A) (x : result E A) : A :=
  match x with Ok a => a | Err _ => d end.

Definition of_option {E A} (e : E) (o : option A) : result E A :=
  match o with Some a => Ok a | None => Err e end.

Section result_lemmas.
Context {E A B : Type}.
Implicit Types (x : result E A) (f : A → result E B).

Lemma bind_ok_iff x f b :
  (x ≫= f) = Ok b ↔ ∃ a, x = Ok a ∧ f a = Ok b.
Proof. destruct x; naive_solver. Qed.

Lemma bind_err_iff x f e :
  (x ≫= f) = Err e ↔ x = Err e ∨ ∃ a, x = Ok a ∧ f a = Err e.
Proof. destruct x; naive_solver. Qed.

Lemma bind_Ok a f : (Ok a ≫= f) = f a.
Proof. done. Qed.

Lemma raise_if_ok (c : bool) (e : E) u : raise_if c e = Ok u ↔ c = false.
Proof. destruct c, u; naive_solver. Qed.

Lemma raise_if_err (c : bool) (e e' : E) :
  raise_if c e = Err e' ↔ c = true ∧ e = e'.
Proof. destruct c; naive_solver. Qed.

Lemma of_option_ok (e : E) (o : option A) a :
  of_option e o = Ok a ↔ o = Some a.
Proof. destruct o; naive_solver. Qed.

Lemma map_err_ok {F} (g : E → F) x a : map_err g x = Ok a ↔ x = Ok a.
Proof. destruct x; naive_solver. Qed.
End result_lemmas.

Lemma Ok_inj {E A} (a b : A) : Ok (E:=E) a = Ok b → a = b.
Proof. congruence. Qed.

Lemma raise_if_true {E} (e : E) : raise_if true e = Err e.
Proof. done. Qed.
Lemma raise_if_false {E} (e : E) : raise_if false e = Ok ().
Proof. done. Qed.

(** Walk through a successful monadic computation in a hypothesis. *)
Ltac run_ok :=
  repeat match goal with
  | H : (_ ≫= _) = Ok _ |- _ =>
      apply bind_ok_iff in H; destruct H as (? & ? & H)
  | H : raise_if _ _ = Ok _ |- _ => apply raise_if_ok in H
  | H : of_option _ _ = Ok _ |- _ => apply of_option_ok in H
  | H : map_err _ _ = Ok _ |- _ => apply map_err_ok in H
  | H : Ok _ = Ok _ |- _ => injection H; clear H; intros; subst
  | H : mret _ = Ok _ |- _ => injection H; clear H; intros; subst
  | H : Err _ = Ok _ |- _ => discriminate H
  | u : unit |- _ => destruct u
  end.

(** ** State and errors: a method that mutates its object and may raise *)

Definition stm (S E A : Type) : Type := S → S * result E A.

#[export] Instance stm_ret {S E} : MRet (stm S E) := λ A a s, (s, Ok a).
#[export] Instance stm_bind {S E} : MBind (stm S E) := λ A B f m s,
  match m s with
  | (s', Ok a) => f a s'
  | (s', Err e) => (s', Err e)
  end.

Definition get {S E} : stm S E S := λ s, (s, Ok s).
Definition modify {S E} (f : S → S) : stm S E () := λ s, (f s, Ok ()).
Definition throw {S E A} (e : E) : stm S E A := λ s, (s, Err e).
Definition lift {S E A} (x : result E A) : stm S E A := λ s, (s, x).

(** [try: m except exc: h(exc)] *)
Definition catch {S E F A} (m : stm S E A) (h : E → stm S F A) : stm S F A :=
  λ s, match m s with
       | (s', Ok a) => (s', Ok a)
       | (s', Err e) => h e s'
       end.

Section stm_lemmas.
Context {S E A B : Type}.
Implicit Types (m : stm S E A) (f : A → stm S E B).

Lemma stm_bind_ok m f s s' b :
  (m ≫= f) s = (s', Ok b) ↔ ∃ s1 a, m s = (s1, Ok a) ∧ f a s1 = (s', Ok b).
Proof.
  unfold mbind, stm_bind. destruct (m s) as [s1 [a|e]]; naive_solver.
Qed.

Lemma stm_bind_err m f s s' e :
  (m ≫= f) s = (s', Err e) ↔
  m s = (s', Err e) ∨ ∃ s1 a, m s = (s1, Ok a) ∧ f a s1 = (s', Err e).
Proof.
  unfold mbind, stm_bind. destruct (m s) as [s1 [a|e']]; naive_solver.
Qed.

Lemma stm_bind_eq m f s s1 a : m s = (s1, Ok a) → (m ≫= f) s = f a s1.
Proof. unfold mbind, stm_bind. by intros ->. Qed.
End stm_lemmas.

(** What a computation preserves however it ends. *)
Definition preserves {S E A} (P : S → Prop) (m : stm S E A) : Prop := ∀ s, P s → P (m s).1.

Section preserves.
Context {S E F A B : Type} (P : S → Prop).

Lemma preserves_lift (x : result E A) : preserves P (lift x).
Proof. by intros s. Qed.
Lemma preserves_ret (a : A) : preserves P (mret (M:=stm S E) a).
Proof. by intros s. Qed.
Lemma preserves_throw (e : E) : preserves P (throw (A:=A) e).
Proof. by intros s. Qed.
Lemma preserves_get : preserves P (get (E:=E)).
Proof. by intros s. Qed.
Lemma preserves_modify (f : S → S) : (∀ s, P s → P (f s)) → preserves P (modify (E:=E) f).
Proof. intros Hf s. apply Hf. Qed.

Lemma preserves_bind (m : stm S E A) (f : A → stm S E B) :
  preserves P m → (∀ a, preserves P (f a)) → preserves P (m ≫= f).
Proof.
  intros Hm Hf s Hs. specialize (Hm s Hs). unfold mbind, stm_bind.
  destruct (m s) as [s' [a|e]]; [by apply Hf|done].
Qed.

Lemma preserves_catch (m : stm S E A) (h : E → stm S F A) :
  preserves P m → (∀ e, preserves P (h e)) → preserves P (catch m h).
Proof.
  intros Hm Hh s Hs. specialize (Hm s Hs). unfold catch.
  destruct (m s) as [s' [a|e]]; [done|by apply Hh].
Qed.

(** The argument of the continuation is the result of the call. *)
Lemma preserves_lift_bind (x : result E A) (f : A → stm S E B) :
  (∀ a, x = Ok a → preserves P (f a)) → preserves P (lift x ≫= f).
Proof.
  intros Hf s Hs. unfold mbind, stm_bind, lift. destruct x as [a|e]; [by apply (Hf a)|done].
Qed.
End preserves.

Create HintDb preserves.
#[export] Hint Resolve preserves_lift preserves_ret preserves_throw preserves_get preserves_modify
  preserves_bind preserves_catch : preserves.

(** Walk through a successful stateful computation in a hypothesis. *)
Ltac run_st :=
  repeat match goal with
  | H : (_ ≫= _) _ = (_, Ok _) |- _ =>
      apply stm_bind_ok in H; destruct H as (? & ? & ? & H)
  | H : get _ = _ |- _ => injection H; clear H; intros; subst
  | H : modify _ _ = _ |- _ => injection H; clear H; intros; subst
  | H : throw _ _ = _ |- _ => discriminate H
  | H : lift ?x _ = (_, Ok _) |- _ =>
      let E := fresh "E" in injection H; clear H; intros E ?; subst
  | H : mret _ _ = (_, Ok _) |- _ => injection H; clear H; intros; subst
  | u : unit |- _ => destruct u
  end.

(** Turn boolean tests into propositions, in hypotheses and goal. *)
Create Rewrite HintDb pybool.
#[export] Hint Rewrite andb_true_iff andb_false_iff orb_true_iff orb_false_iff
  negb_true_iff negb_false_iff bool_decide_eq_true bool_decide_eq_false
  Z.ltb_lt Z.ltb_ge Z.leb_le Z.leb_gt Z.eqb_eq Z.eqb_neq
  Nat.ltb_lt Nat.ltb_ge Nat.leb_le Nat.leb_gt Nat.eqb_eq Nat.eqb_neq
  forallb_forall Is_true_true : pybool.
Ltac propify := autorewrite with pybool in *.

(** [lia] with division and remainder by constants. *)
Ltac divlia := zify; Z.to_euclidean_division_equations; lia.

(** ** Integers *)

(** [i ^ 1] flips the parity. *)
Lemma lxor_1_even (k : nat) : Z.lxor (Z.of_nat (2 * k)) 1 = Z.of_nat (S (2 * k)).
Proof. destruct k; [done|]. rewrite Nat2Z.inj_succ, Nat2Z.inj_mul. done. Qed.

Lemma lxor_1_odd (k : nat) : Z.lxor (Z.of_nat (S (2 * k))) 1 = Z.of_nat (2 * k).
Proof.
  rewrite <- lxor_1_even, Z.lxor_assoc, Z.lxor_nilpotent. apply Z.lxor_0_r.
Qed.

(** ** Lists *)

Lemma Forall_mp {A} (P Q R : A → Prop) l :
  Forall P l → Forall Q l → (∀ x, P x → Q x → R x) → Forall R l.
Proof. rewrite !Forall_forall. eauto. Qed.

Lemma Forall_iff_on {A} (P Q : A → Prop) l :
  Forall (λ x, P x ↔ Q x) l → Forall P l ↔ Forall Q l.
Proof. intros H. split; intros Hl; apply (Forall_mp _ _ _ _ H Hl); tauto. Qed.

(** A map that is injective on a domain is injective on its lists. *)
Lemma fmap_inj_on {A B} (P : A → Prop) (f : A → B) l1 l2 :
  (∀ x y, P x → P y → f x = f y → x = y) →
  Forall P l1 → Forall P l2 → f <$> l1 = f <$> l2 → l1 = l2.
Proof.
  intros Hf Hl1. revert l2. induction Hl1 as [|x l1 Hx Hl1 IH]; intros [|y l2] Hl2 E;
    try done.
  apply Forall_cons in Hl2 as [Hy Hl2]. rewrite !fmap_cons in E. injection E as Exy El.
  f_equal; [by apply Hf|by apply IH].
Qed.

Lemma Forall2_right_elem {A B} (R : A → B → Prop) l k y :
  Forall2 R l k → y ∈ k → ∃ x, R x y ∧ x ∈ l.
Proof.
  intros Hlk [j Hj]%list_elem_of_lookup. destruct (Forall2_lookup_r _ _ _ _ _ Hlk Hj) as (x & Hx & Hr).
  exists x. split; [done|]. by eapply list_elem_of_lookup_2.
Qed.

(** [mapM] in the error monad: a comprehension whose body may raise. *)
Section mapM.
Context {E A B : Type} (f : A → result E B).

Lemma mapM_cons x l :
  mapM f (x :: l) = (y ← f x; k ← mapM f l; Ok (y :: k)).
Proof. done. Qed.

Lemma mapM_ok l k : mapM f l = Ok k ↔ Forall2 (λ x y, f x = Ok y) l k.
Proof.
  revert k. induction l as [|x l IH]; intros k.
  - split; [by intros [= <-]|]. by inversion 1.
  - rewrite mapM_cons. split.
    + intros H. apply bind_ok_iff in H as (y & Hy & H).
      apply bind_ok_iff in H as (k' & Hk & [= <-]).
      constructor; [done|]. by apply IH.
    + inversion 1 as [|? y ? k' Hy Hk]; subst. rewrite Hy. cbn.
      by apply IH in Hk as ->.
Qed.

Lemma mapM_err l e :
  mapM f l = Err e ↔
  ∃ pre x post, l = pre ++ x :: post ∧ f x = Err e ∧
    Forall (λ y, is_ok (f y) = true) pre.
Proof.
  induction l as [|x l IH].
  - split; [done|]. by intros ([] & ? & ? & ? & _).
  - rewrite mapM_cons. destruct (f x) as [y|e'] eqn:Ex; cbn; split.
    + intros H. apply bind_err_iff in H as [H|(? & _ & [=])].
      apply IH in H as (pre & z & post & -> & ? & ?).
      exists (x :: pre), z, post. split_and!; [done..|].
      constructor; [by rewrite Ex|done].
    + intros ([|x' pre] & z & post & [= <- ->] & Hz & Hpre); [congruence|].
      apply Forall_cons in Hpre as [_ Hpre]. apply bind_err_iff. left.
      apply IH. by exists pre, z, post.
    + intros [= ->]. by exists [], x, l.
    + intros ([|x' pre] & z & post & [= <- ->] & Hz & Hpre); [congruence|].
      apply Forall_cons in Hpre as [Hx _]. by rewrite Ex in Hx.
Qed.
Lemma mapM_perm l l' k :
  mapM f l = Ok k → l ≡ₚ l' → ∃ k', mapM f l' = Ok k' ∧ k ≡ₚ k'.
Proof.
  intros Hk%mapM_ok Hp. destruct (Permutation_Forall2 Hp Hk) as (k' & Hk' & Hf).
  exists k'. by rewrite mapM_ok.
Qed.
End mapM.

(** ** Python's [dict]: insertion-ordered, one entry per key *)

Section dict.
Context {K V : Type} `{EqDecision K}.
Implicit Types (d : list (K * V)) (k : K) (v : V).

(** [d.get(k)] *)
Fixpoint dict_get d k : option V :=
  match d with
  | [] => None
  | (k', v) :: d' => if decide (k' = k) then Some v else dict_get d' k
  end.

(** [d[k] = v]: in place for a present key, at the end for a new one. *)
Fixpoint dict_set d k v : list (K * V) :=
  match d with
  | [] => [(k, v)]
  | (k', v') :: d' =>
      if decide (k' = k) then (k, v) :: d' else (k', v') :: dict_set d' k v
  end.

(** [d.pop(k, None)] on the remaining entries *)
Definition dict_pop d k : list (K * V) := filter (λ kv, kv.1 ≠ k) d.

Lemma dict_get_set d k k' v :
  dict_get (dict_set d k v) k' = if decide (k = k') then Some v else dict_get d k'.
Proof.
  induction d as [|[k0 v0] d IH]; simpl; [by repeat case_decide|].
  destruct (decide (k0 = k)) as [->|]; simpl; [by repeat case_decide|].
  rewrite IH. repeat case_decide; congruence.
Qed.

Lemma dict_get_pop d k k' :
  dict_get (dict_pop d k) k' = if decide (k = k') then None else dict_get d k'.
Proof.
  unfold dict_pop. induction d as [|[k0 v0] d IH]; [by case_decide|].
  rewrite filter_cons. simpl. destruct (decide (k0 ≠ k)); simpl;
    rewrite IH; repeat case_decide; congruence || naive_solver.
Qed.

Lemma dict_get_None d k : dict_get d k = None ↔ k ∉ d.*1.
Proof.
  induction d as [|[k0 v0] d IH]; csimpl; [by split; [intros _; set_solver|]|].
  rewrite not_elem_of_cons. case_decide; naive_solver.
Qed.

Lemma dict_get_Some_elem d k v : dict_get d k = Some v → (k, v) ∈ d.
Proof.
  induction d as [|[k0 v0] d IH]; simpl; [done|].
  case_decide; [intros [= ->]; subst; left|right; auto].
Qed.

Lemma dict_get_NoDup d k v : NoDup d.*1 → (k, v) ∈ d → dict_get d k = Some v.
Proof.
  induction d as [|[k0 v0] d IH]; csimpl; [by intros _ ?%elem_of_nil|].
  intros [Hk Hd]%NoDup_cons [[= -> ->]|Hin]%elem_of_cons; [by rewrite decide_True|].
  rewrite decide_False; [by apply IH|]. intros ->.
  apply Hk, list_elem_of_fmap. by exists (k, v).
Qed.

Lemma dict_set_new d k v : k ∉ d.*1 → dict_set d k v = d ++ [(k, v)].
Proof.
  induction d as [|[k0 v0] d IH]; csimpl; [done|].
  intros [? ?]%not_elem_of_cons. rewrite decide_False by done. by rewrite IH.
Qed.

Lemma dict_pop_absent d k : k ∉ d.*1 → dict_pop d k = d.
Proof.
  unfold dict_pop. induction d as [|[k0 v0] d IH]; csimpl; [done|].
  intros [? ?]%not_elem_of_cons. rewrite filter_cons, decide_True by done.
  by rewrite IH.
Qed.
Lemma dict_pop_keys d k : k ∉ (dict_pop d k).*1.
Proof.
  unfold dict_pop. intros (kv & -> & Hin)%list_elem_of_fmap.
  by apply list_elem_of_filter in Hin as [? _].
Qed.

Lemma dict_pop_pop d k : dict_pop (dict_pop d k) k = dict_pop d k.
Proof. apply dict_pop_absent, dict_pop_keys. Qed.

Lemma dict_pop_set d k v : dict_pop (dict_set d k v) k = dict_pop d k.
Proof.
  unfold dict_pop. induction d as [|[k0 v0] d IH]; simpl; rewrite ?filter_cons; simpl.
  - by rewrite decide_False by auto.
  - destruct (decide (k0 = k)) as [->|]; rewrite filter_cons; simpl.
    + by rewrite !decide_False by auto.
    + by rewrite !decide_True, IH by done.
Qed.
Lemma dict_get_perm d1 d2 k :
  NoDup d1.*1 → d1 ≡ₚ d2 → dict_get d1 k = dict_get d2 k.
Proof.
  intros Hnd Hp. destruct (dict_get d1 k) as [v|] eqn:E; symmetry.
  - apply dict_get_NoDup; [by rewrite <- Hp|].
    rewrite <- Hp. by apply dict_get_Some_elem.
  - apply dict_get_None. rewrite <- Hp. by apply dict_get_None.
Qed.
End dict.

(** ** Ordered sequences and Python's [sorted] *)

(** A decidable total preorder, as the key order of a [sorted] call. *)
Class KeyOrder {A} (leb : A → A → bool) : Prop := {
  leb_trans : ∀ x y z, leb x y = true → leb y z = true → leb x z = true;
  leb_total : ∀ x y, leb x y = true ∨ leb y x = true;
}.

Class AntisymKeyOrder {A} (leb : A → A → bool) : Prop := {
  antisym_total :: KeyOrder leb;
  leb_antisym : ∀ x y, leb x y = true → leb y x = true → x = y;
}.

Lemma leb_refl {A} (leb : A → A → bool) `{!KeyOrder leb} x : leb x x = true.
Proof. by destruct (leb_total x x). Qed.

#[export] Instance Z_leb_antisym : AntisymKeyOrder Z.leb.
Proof. split; [split|]; intros *; rewrite ?Z.leb_le; lia. Qed.

(** Sorting by a key, and by a pair of keys. *)
Lemma key_order_on {A B} (leb : B → B → bool) `{!KeyOrder leb} (f : A → B) :
  KeyOrder (λ x y, leb (f x) (f y)).
Proof.
  split; [intros x y z; apply (leb_trans (leb:=leb))|].
  intros x y. apply (leb_total (leb:=leb)).
Qed.

Definition pair_leb {A B} `{EqDecision A} (leA : A → A → bool) (leB : B → B → bool)
    (x y : A * B) : bool :=
  if decide (x.1 = y.1) then leB x.2 y.2 else leA x.1 y.1.

#[export] Instance pair_leb_antisym {A B} `{EqDecision A} leA leB
    `{!AntisymKeyOrder leA, !AntisymKeyOrder leB} :
  AntisymKeyOrder (@pair_leb A B _ leA leB).
Proof.
  unfold pair_leb. split; [split|].
  - intros [a b] [c d] [e f]; simpl. repeat case_decide; subst; try done.
    + apply (leb_trans (leb:=leB)).
    + intros Hac Hca. by destruct (leb_antisym (leb:=leA) _ _ Hac Hca).
    + apply (leb_trans (leb:=leA)).
  - intros [a b] [c d]; simpl. repeat case_decide; subst; try done;
      [apply (leb_total (leb:=leB))|apply (leb_total (leb:=leA))].
  - intros [a b] [c d]; simpl. repeat case_decide; subst; try done.
    + intros. f_equal. by apply (leb_antisym (leb:=leB)).
    + intros Hac Hca. by destruct (leb_antisym (leb:=leA) _ _ Hac Hca).
Qed.

Section sorting.
Context {A : Type} (leb : A → A → bool).

(** [sorted] is stable: an element goes in front of the equal elements that
    follow it in the input. *)
Fixpoint insert_sorted (x : A) (l : list A) : list A :=
  match l with
  | [] => [x]
  | y :: l' => if leb x y then x :: l else y :: insert_sorted x l'
  end.

Fixpoint py_sorted (l : list A) : list A :=
  match l with
  | [] => []
  | x :: l' => insert_sorted x (py_sorted l')
  end.

Lemma insert_sorted_perm x l : insert_sorted x l ≡ₚ x :: l.
Proof.
  induction l as [|y l IH]; simpl; [done|].
  destruct (leb x y); [done|]. rewrite IH. apply Permutation_swap.
Qed.

Lemma py_sorted_perm l : py_sorted l ≡ₚ l.
Proof.
  induction l as [|x l IH]; simpl; [done|].
  by rewrite insert_sorted_perm, IH.
Qed.

Lemma length_py_sorted l : length (py_sorted l) = length l.
Proof. apply Permutation_length, py_sorted_perm. Qed.

Lemma elem_of_py_sorted x l : x ∈ py_sorted l ↔ x ∈ l.
Proof. by rewrite py_sorted_perm. Qed.

Let R x y := leb x y = true.

Context `{!KeyOrder leb}.

Lemma insert_sorted_sorted x l :
  StronglySorted R l → StronglySorted R (insert_sorted x l).
Proof.
  induction 1 as [|y l Hs IH Hall]; simpl; [by repeat constructor|].
  destruct (leb x y) eqn:E.
  - constructor; [by constructor|]. constructor; [done|].
    eapply Forall_impl; [apply Hall|]. intros z Hz. by eapply leb_trans.
  - constructor; [done|]. rewrite insert_sorted_perm. constructor; [|done].
    unfold R. destruct (leb_total x y); congruence.
Qed.

Lemma py_sorted_sorted l : StronglySorted R (py_sorted l).
Proof. induction l; simpl; eauto using insert_sorted_sorted, SSorted_nil. Qed.

(** Already sorted input is returned as it is. *)
Lemma py_sorted_id l : StronglySorted R l → py_sorted l = l.
Proof.
  induction 1 as [|x l Hs IH Hall]; simpl; [done|]. rewrite IH.
  destruct l as [|y l]; simpl; [done|].
  by rewrite (Forall_inv Hall : leb x y = true).
Qed.

Lemma insert_sorted_min x l :
  Forall (λ y, leb x y = true) l → insert_sorted x l = x :: l.
Proof. by destruct 1 as [|y l Hy _]; simpl; [|rewrite Hy]. Qed.

(** Sorting and filtering commute. *)
Lemma insert_sorted_filter (P : A → Prop) `{∀ x, Decision (P x)} x l :
  StronglySorted R l →
  filter P (insert_sorted x l) =
  if decide (P x) then insert_sorted x (filter P l) else filter P l.
Proof.
  induction 1 as [|y l Hs IH Hall]; cbn [insert_sorted].
  { rewrite filter_cons. by destruct (decide (P x)). }
  destruct (leb x y) eqn:E.
  - rewrite filter_cons. destruct (decide (P x)); [|done].
    rewrite insert_sorted_min; [done|]. apply Forall_forall.
    intros z [_ [->|Hz]%elem_of_cons]%list_elem_of_filter; [done|].
    rewrite Forall_forall in Hall. by eapply leb_trans, Hall.
  - rewrite filter_cons, IH, filter_cons.
    destruct (decide (P y)), (decide (P x)); try done. cbn [insert_sorted].
    by rewrite E.
Qed.

Lemma py_sorted_filter (P : A → Prop) `{∀ x, Decision (P x)} l :
  filter P (py_sorted l) = py_sorted (filter P l).
Proof.
  induction l as [|x l IH]; cbn [py_sorted]; [done|].
  rewrite insert_sorted_filter, filter_cons, IH by apply py_sorted_sorted.
  by destruct (decide (P x)).
Qed.

(** Stability: equal-key elements keep their input order. *)
Definition same_key (k x : A) : bool := leb k x && leb x k.

Lemma insert_sorted_stable k x l :
  StronglySorted R l →
  filter (λ y, same_key k y = true) (insert_sorted x l) =
  filter (λ y, same_key k y = true) (x :: l).
Proof.
  induction 1 as [|y l Hs IH Hall]; [done|]. cbn [insert_sorted].
  destruct (leb x y) eqn:E; [done|].
  rewrite filter_cons, IH, !filter_cons.
  destruct (decide (same_key k y = true)) as [Hy|Hy]; [|done].
  assert (¬ same_key k x = true) as Hx.
  { unfold same_key in *. rewrite !andb_true_iff in *. intros [_ Hxk].
    rewrite (leb_trans _ _ _ Hxk (proj1 Hy)) in E. done. }
  by destruct (decide (same_key k x = true)).
Qed.

Lemma py_sorted_stable k l :
  filter (λ y, same_key k y = true) (py_sorted l) =
  filter (λ y, same_key k y = true) l.
Proof.
  induction l as [|x l IH]; cbn [py_sorted]; [done|].
  rewrite insert_sorted_stable by apply py_sorted_sorted.
  by rewrite !filter_cons, IH.
Qed.
End sorting.

(** Sorting commutes with a function that keeps the order. *)
Lemma py_sorted_fmap {A B} (leA : A → A → bool) (leB : B → B → bool) (f : A → B) l :
  (∀ x y, leB (f x) (f y) = leA x y) →
  f <$> py_sorted leA l = py_sorted leB (f <$> l).
Proof.
  intros Hf. induction l as [|x l IH]; csimpl; [done|].
  rewrite <- IH. generalize (py_sorted leA l). clear IH l. intros l.
  induction l as [|y l IH]; csimpl; [done|]. rewrite Hf.
  destruct (leA x y); csimpl; [done|]. by rewrite IH.
Qed.

(** Orders that agree on the elements sort alike. *)
Lemma py_sorted_ext {A} (leA leB : A → A → bool) l :
  (∀ x y, x ∈ l → y ∈ l → leA x y = leB x y) → py_sorted leA l = py_sorted leB l.
Proof.
  induction l as [|x l IH]; intros Hl; [done|]. cbn [py_sorted].
  rewrite IH by (intros; apply Hl; by right).
  assert (∀ k, (∀ y, y ∈ k → y ∈ l) → insert_sorted leA x k = insert_sorted leB x k) as Hi.
  { induction k as [|y k IHk]; intros Hk; [done|]. cbn [insert_sorted].
    rewrite (Hl x y) by first [by left|right; apply Hk; by left].
    destruct (leB x y); [done|]. f_equal. apply IHk. intros z Hz. apply Hk. by right. }
  apply Hi. intros y. by rewrite elem_of_py_sorted.
Qed.

(** Sorting identifies permuted inputs whose keys are pairwise distinct. *)
Lemma sorted_perm_unique {A} (R : A → A → Prop) l1 l2 :
  (∀ x y, x ∈ l1 → y ∈ l1 → R x y → R y x → x = y) →
  StronglySorted R l1 → StronglySorted R l2 → l1 ≡ₚ l2 → l1 = l2.
Proof.
  intros Hanti Hs1. revert l2 Hanti.
  induction Hs1 as [|x l1 Hs1 IH Hx]; intros l2 Hanti Hs2 Hp.
  { by apply Permutation_nil_l in Hp. }
  destruct Hs2 as [|y l2 Hs2 Hy].
  { exfalso. by eapply Permutation_nil_cons; symmetry. }
  rewrite Forall_forall in Hx, Hy.
  assert (x = y) as <-.
  { assert (x ∈ y :: l2) as Hxin by (rewrite <- Hp; left).
    assert (y ∈ x :: l1) as Hyin by (rewrite Hp; left).
    apply elem_of_cons in Hxin as [->|Hxin]; [done|].
    apply elem_of_cons in Hyin as [->|Hyin]; [done|].
    apply Hanti; [left|by right|by apply Hx|by apply Hy]. }
  f_equal. apply IH; [|done|].
  - intros a b Ha Hb. apply Hanti; by right.
  - by apply Permutation_cons_inv in Hp.
Qed.

(** ** Step relations: reachability *)

Section steps.
Context {S : Type} (step : S → S → Prop).

Lemma rtc_invariant (I : S → Prop) s t :
  (∀ a b, step a b → I a → I b) → rtc step s t → I s → I t.
Proof. induction 2; eauto. Qed.
End steps.

(** ** Collisions among given inputs *)

(** The value of a call that returned. *)
Definition ok_list {E A} (x : result E A) : list A :=
  match x with Ok a => [a] | Err _ => [] end.

(** Two different members of [l] have the same image: for a hash [f], a collision
    among the messages [l] that some code hashes.  As [l] is finite and given,
    a short image alone does not make it true. *)
Definition collision_in {A B} (f : A → B) (l : list A) : Prop :=
  ∃ x y, x ∈ l ∧ y ∈ l ∧ x ≠ y ∧ f x = f y.

Section collisions.
Context {A B : Type} (f : A → B).

Lemma collision_in_mono l l' : l ⊆ l' → collision_in f l → collision_in f l'.
Proof. intros Hl (x & y & Hx & Hy & ?). exists x, y. auto. Qed.

#[export] Instance collision_in_proper : Proper ((≡ₚ) ==> iff) (collision_in f).
Proof. intros l l' Hl. unfold collision_in. by setoid_rewrite Hl. Qed.

#[export] Instance collision_in_dec `{EqDecision A, EqDecision B} l : Decision (collision_in f l).
Proof.
  refine (cast_if (decide (Exists (λ x, Exists (λ y, x ≠ y ∧ f x = f y) l) l)));
    abstract (unfold collision_in; setoid_rewrite Exists_exists in e || setoid_rewrite Exists_exists in n;
      setoid_rewrite Exists_exists in e || setoid_rewrite Exists_exists in n; naive_solver).
Defined.

Lemma eq_or_collision `{EqDecision A} l x y :
  x ∈ l → y ∈ l → f x = f y → x = y ∨ collision_in f l.
Proof. intros Hx Hy E. destruct (decide (x = y)); [by left|]. right. by exists x, y. Qed.

Lemma eq_or_pair_collision `{EqDecision A} x y : f x = f y → x = y ∨ collision_in f [x; y].
Proof. apply eq_or_collision; set_solver. Qed.
End collisions.

Lemma elem_of_ok_list {E A} (x : result E A) a : a ∈ ok_list x ↔ x = Ok a.
Proof. destruct x; cbn; rewrite ?list_elem_of_singleton, ?elem_of_nil; naive_solver. Qed.
