(* ===== verification/PyStr.v ===== *)
(** * Python text and bytes

    What the modelled sources use of Python's [str] and [bytes]: a [str] is the
    list of its code points, a [bytes] the list of its bytes.  Literals are
    written [u "..."].  The file holds the code-point order of [sorted], the
    prefix tests, the decimal [repr] of an [int], UTF-8 encoding, [bytes.hex]
    and the meaning of an anchored [^...$] regular expression under
    [re.match]. *)

From S2P Require Import Prelude.
From Stdlib Require Import ZArith Lia DecimalZ.
From stdpp Require Export strings.
From Stdlib Require Ascii String Decimal.

From Stdlib Require Import Strings.Byte.

Open Scope Z_scope.

Notation str := (list Z).
Notation bytes := (list Byte.byte).

#[export] Instance byte_eq_decision : EqDecision Byte.byte := Byte.byte_eq_dec.

(** A source literal (ASCII). *)
Definition u (s : String.string) : str :=
  (λ a, Z.of_nat (Ascii.nat_of_ascii a)) <$> String.list_ascii_of_string s.
Arguments u s%_string : simpl never.

(** A literal written with single quotes for double ones. *)
Definition uq (s : String.string) : str := (λ c, if c =? 39 then 34 else c) <$> u s.
Arguments uq s%_string : simpl never.

(** Evaluate the literals of the goal, or of a hypothesis. *)
Ltac ulit :=
  repeat match goal with |- context [u ?s] =>
    let v := eval vm_compute in (u s) in change (u s) with v end.
Tactic Notation "ulit" "in" hyp(H) :=
  repeat match type of H with context [u ?s] =>
    let v := eval vm_compute in (u s) in change (u s) with v in H end.

(** ** Code-point order *)

Fixpoint str_leb (a b : str) : bool :=
  match a, b with
  | [], _ => true
  | _ :: _, [] => false
  | x :: a', y :: b' => (x <? y) || ((x =? y) && str_leb a' b')
  end.

Definition str_eqb (a b : str) : bool := bool_decide (a = b).
Definition str_ltb (a b : str) : bool := str_leb a b && negb (str_eqb a b).

#[export] Instance str_leb_antisym : AntisymKeyOrder str_leb.
Proof.
  split; [split|].
  - induction x as [|x a IH]; intros [|y b] [|z c]; simpl; try done.
    rewrite !orb_true_iff, !andb_true_iff, !Z.ltb_lt, !Z.eqb_eq.
    intros [?|[-> ?]] [?|[-> ?]]; eauto with lia.
  - induction x as [|x a IH]; intros [|y b]; simpl; eauto.
    rewrite !orb_true_iff, !andb_true_iff, !Z.ltb_lt, !Z.eqb_eq.
    destruct (IH b); destruct (Z.lt_trichotomy x y) as [?|[?|?]]; eauto.
  - induction x as [|x a IH]; intros [|y b]; simpl; try done.
    rewrite !orb_true_iff, !andb_true_iff, !Z.ltb_lt, !Z.eqb_eq.
    intros [?|[-> ?]] [?|[? ?]]; try lia. f_equal. by apply IH.
Qed.

(** ** Prefixes and suffixes *)

Definition startswith (s p : str) : bool := bool_decide (take (length p) s = p).
Definition endswith (s p : str) : bool :=
  bool_decide (drop (length s - length p) s = p).

Lemma startswith_spec s p : startswith s p = true ↔ ∃ r, s = p ++ r.
Proof.
  unfold startswith. rewrite bool_decide_eq_true. split.
  - intros H. exists (drop (length p) s). by rewrite <- H at 1; rewrite take_drop.
  - intros [r ->]. apply take_app_length.
Qed.

Lemma startswith_app p r : startswith (p ++ r) p = true.
Proof. apply startswith_spec. eauto. Qed.

Definition str_empty (s : str) : bool :=
  match s with [] => true | _ => false end.

(** [s.split(c)] for a one-character separator: never empty. *)
Fixpoint split_on (c : Z) (s : str) : list str :=
  match s with
  | [] => [[]]
  | x :: s' =>
      if x =? c then [] :: split_on c s'
      else match split_on c s' with
           | [] => [[x]]
           | w :: ws => (x :: w) :: ws
           end
  end.

Lemma split_on_nil c s : c ∉ s → split_on c s = [s].
Proof.
  induction s as [|x s IH]; simpl; [done|]. intros [Hx Hs]%not_elem_of_cons.
  rewrite IH by done. destruct (Z.eqb_spec x c); [congruence|done].
Qed.

Lemma split_on_app c a b :
  c ∉ a → split_on c (a ++ c :: b) = a :: split_on c b.
Proof.
  induction a as [|x a IH]; simpl.
  - intros _. by rewrite Z.eqb_refl.
  - intros [Hx Ha]%not_elem_of_cons. rewrite IH by done.
    destruct (Z.eqb_spec x c); [congruence|done].
Qed.

(** [sep.join(xs)] *)
Fixpoint join (sep : str) (xs : list str) : str :=
  match xs with
  | [] => []
  | [x] => x
  | x :: xs' => x ++ sep ++ join sep xs'
  end.

Lemma split_on_nonnil c s : split_on c s ≠ [].
Proof. induction s as [|x s IH]; simpl; [done|]. by repeat case_match. Qed.

Lemma join_split c s : join [c] (split_on c s) = s.
Proof.
  induction s as [|x s IH]; [done|]. cbn [split_on].
  destruct (Z.eqb_spec x c) as [->|].
  - destruct (split_on c s) as [|w ws] eqn:E; [by apply split_on_nonnil in E|].
    change (join [c] ([] :: w :: ws)) with (c :: join [c] (w :: ws)). by rewrite IH.
  - destruct (split_on c s) as [|w ws] eqn:E; [by apply split_on_nonnil in E|].
    destruct ws; simpl in *; by rewrite <- IH.
Qed.

(** ** Character classes and anchored regular expressions *)

Definition in_range (lo hi c : Z) : bool := (lo <=? c) && (c <=? hi).
Definition is_digit : Z → bool := in_range 48 57.
Definition is_lower : Z → bool := in_range 97 122.
Definition is_upper : Z → bool := in_range 65 90.
Definition is_alnum (c : Z) : bool := is_digit c || is_lower c || is_upper c.
Definition one_of (cs : str) (c : Z) : bool := bool_decide (c ∈ cs).

(** The longest prefix in a class, and the rest. *)
Fixpoint span (p : Z → bool) (s : str) : str * str :=
  match s with
  | [] => ([], [])
  | c :: s' => if p c then let '(a, r) := span p s' in (c :: a, r) else ([], s)
  end.

Lemma span_app p a r :
  forallb p a = true → (∀ c t, r = c :: t → p c = false) → span p (a ++ r) = (a, r).
Proof.
  induction a as [|x a IH]; simpl; intros Ha Hr.
  - destruct r as [|c t]; [done|]. simpl. by rewrite (Hr c t).
  - apply andb_true_iff in Ha as [-> Ha]. by rewrite IH.
Qed.

Lemma span_spec p s a r :
  span p s = (a, r) → s = a ++ r ∧ forallb p a = true.
Proof.
  revert a r. induction s as [|c s IH]; simpl; intros a r; [by intros [= <- <-]|].
  destruct (p c) eqn:Ep; [|by intros [= <- <-]].
  destruct (span p s) as [a' r'] eqn:Es. intros [= <- <-].
  destruct (IH a' r') as [-> ?]; [done|]. simpl. by rewrite Ep.
Qed.

(** [re.compile(r"^R$").match(s)]: without [re.MULTILINE], [$] matches at the
    end of [s] and also before a single newline that ends [s]. *)
Definition re_dollar (full : str → bool) (s : str) : bool :=
  full s ||
  match reverse s with
  | c :: r => (c =? 10) && full (reverse r)
  | [] => false
  end.

Lemma re_dollar_spec full s :
  re_dollar full s = true ↔
  full s = true ∨ ∃ s', s = s' ++ [10] ∧ full s' = true.
Proof.
  unfold re_dollar. rewrite orb_true_iff.
  destruct (reverse s) as [|c r] eqn:E.
  - apply (f_equal reverse) in E. rewrite reverse_involutive in E. subst.
    split; [naive_solver|]. intros [?|(s' & H & _)]; [by left|].
    by destruct s'.
  - apply (f_equal reverse) in E.
    rewrite reverse_involutive, reverse_cons in E. subst.
    rewrite andb_true_iff, Z.eqb_eq. split.
    + intros [?|[-> ?]]; eauto.
    + intros [?|(s' & H & ?)]; [by left|].
      apply app_inj_2 in H as [-> [= ->]]; [|done]. by right.
Qed.

Lemma re_dollar_full full s : full s = true → re_dollar full s = true.
Proof. intros H. apply re_dollar_spec. by left. Qed.

(** ** Decimal [repr] of an [int] *)

Fixpoint uint_codes (d : Decimal.uint) : str :=
  match d with
  | Decimal.Nil => []
  | Decimal.D0 d => 48 :: uint_codes d
  | Decimal.D1 d => 49 :: uint_codes d
  | Decimal.D2 d => 50 :: uint_codes d
  | Decimal.D3 d => 51 :: uint_codes d
  | Decimal.D4 d => 52 :: uint_codes d
  | Decimal.D5 d => 53 :: uint_codes d
  | Decimal.D6 d => 54 :: uint_codes d
  | Decimal.D7 d => 55 :: uint_codes d
  | Decimal.D8 d => 56 :: uint_codes d
  | Decimal.D9 d => 57 :: uint_codes d
  end.

Definition int_repr (z : Z) : str :=
  match Z.to_int z with
  | Decimal.Pos d => uint_codes d
  | Decimal.Neg d => 45 :: uint_codes d
  end.

Lemma uint_codes_digits d : Forall (λ c, 48 ≤ c ≤ 57) (uint_codes d).
Proof. induction d; simpl; constructor; (lia || done). Qed.

Lemma uint_codes_inj d1 d2 : uint_codes d1 = uint_codes d2 → d1 = d2.
Proof.
  revert d2. induction d1; intros []; simpl; intros [=]; f_equal; eauto.
Qed.

Lemma int_repr_inj z1 z2 : int_repr z1 = int_repr z2 → z1 = z2.
Proof.
  unfold int_repr. intros H.
  assert (Z.to_int z1 = Z.to_int z2) as Heq.
  { destruct (Z.to_int z1) as [d1|d1], (Z.to_int z2) as [d2|d2].
    - f_equal. by apply uint_codes_inj.
    - pose proof (uint_codes_digits d1) as Hd. rewrite H in Hd.
      apply Forall_inv in Hd. lia.
    - pose proof (uint_codes_digits d2) as Hd. rewrite <- H in Hd.
      apply Forall_inv in Hd. lia.
    - injection H as H. f_equal. by apply uint_codes_inj. }
  by rewrite <- (DecimalZ.of_to z1), Heq, DecimalZ.of_to.
Qed.

(** The number a string of digits denotes. *)
Definition digits_val (d : str) : Z := foldl (λ a c, 10 * a + (c - 48)) 0 d.

Lemma digits_val_uint d : digits_val (uint_codes d) = Z.of_uint d.
Proof.
  unfold digits_val, Z.of_uint.
  assert (∀ d acc, foldl (λ a c, 10 * a + (c - 48)) (Zpos acc) (uint_codes d) =
                   Zpos (Pos.of_uint_acc d acc)) as Hpos.
  { clear d. induction d; intros acc; cbn [uint_codes foldl Pos.of_uint_acc];
      [done|..]; rewrite <- IHd; f_equal; lia. }
  induction d; simpl; [done|apply IHd|..]; apply Hpos.
Qed.

Lemma to_uint_no_zero p d : Pos.to_uint p ≠ Decimal.D0 d.
Proof.
  intros H. pose proof (DecimalPos.Unsigned.to_of (Pos.to_uint p)) as E.
  rewrite DecimalPos.Unsigned.of_to in E. cbn in E.
  unfold Decimal.unorm in E. destruct (Decimal.nzhead (Pos.to_uint p)) eqn:Ez;
    rewrite H in E; try discriminate E.
  - injection E as ->. pose proof (DecimalPos.Unsigned.of_to p) as Hp.
    by rewrite H in Hp.
  - by apply DecimalFacts.nzhead_nonzero in Ez.
Qed.

Lemma digits_val_cons c s :
  digits_val (c :: s) = (c - 48) * 10 ^ Z.of_nat (length s) + digits_val s.
Proof.
  assert (∀ s a, foldl (λ a c, 10 * a + (c - 48)) a s =
                 a * 10 ^ Z.of_nat (length s) + digits_val s) as Hf.
  { clear. unfold digits_val. induction s as [|x s IH]; intros a; cbn [foldl length]; [lia|].
    rewrite (IH (10 * a + (x - 48))), (IH (10 * 0 + (x - 48))).
    rewrite Nat2Z.inj_succ, Z.pow_succ_r by lia. lia. }
  unfold digits_val at 1. cbn [foldl]. rewrite Hf. lia.
Qed.

Lemma digits_val_bound s :
  Forall (λ c, 48 ≤ c ≤ 57) s → 0 ≤ digits_val s < 10 ^ Z.of_nat (length s).
Proof.
  induction 1 as [|c s Hc _ IH]; [done|]. rewrite digits_val_cons. cbn [length].
  rewrite Nat2Z.inj_succ, Z.pow_succ_r by lia. nia.
Qed.

(** A numeral has no leading zero, so its length bounds the number below. *)
Lemma int_repr_bound n :
  0 < n → 10 ^ (Z.of_nat (length (int_repr n)) - 1) ≤ n < 10 ^ Z.of_nat (length (int_repr n)).
Proof.
  intros Hn. destruct n as [|p|p]; [lia| |lia]. unfold int_repr. cbn [Z.to_int].
  pose proof (uint_codes_digits (Pos.to_uint p)) as Hd.
  assert (digits_val (uint_codes (Pos.to_uint p)) = Zpos p) as E.
  { rewrite digits_val_uint. unfold Z.of_uint. by rewrite DecimalPos.Unsigned.of_to. }
  split; [|rewrite <- E at 1; by apply digits_val_bound].
  pose proof (to_uint_no_zero p) as Hz. pose proof (DecimalPos.Unsigned.to_uint_nonnil p) as Hnil.
  destruct (uint_codes (Pos.to_uint p)) as [|c s] eqn:Es.
  { destruct (Pos.to_uint p); try done. }
  assert (c ≠ 48) as Hc by (intros ->; destruct (Pos.to_uint p); simplify_eq/=; naive_solver).
  rewrite <- E, digits_val_cons. apply Forall_cons in Hd as [Hc' Hs].
  pose proof (digits_val_bound s Hs). cbn [length]. rewrite Nat2Z.inj_succ.
  replace (Z.succ (Z.of_nat (length s)) - 1) with (Z.of_nat (length s)) by lia. nia.
Qed.

(** Every character of a decimal numeral is a digit or the leading sign. *)
Definition is_numchar (c : Z) : Prop := c = 45 ∨ 48 ≤ c ≤ 57.

Lemma int_repr_numchars z : Forall is_numchar (int_repr z).
Proof.
  unfold int_repr, is_numchar. destruct (Z.to_int z) as [d|d].
  - eapply Forall_impl; [apply uint_codes_digits|]. simpl; lia.
  - constructor; [by left|].
    eapply Forall_impl; [apply uint_codes_digits|]. simpl; lia.
Qed.

(** ** Bytes *)

Definition byte_of_Z (z : Z) : Byte.byte :=
  match Byte.of_N (Z.to_N (z `mod` 256)) with Some b => b | None => Byte.x00 end.
Definition Z_of_byte (b : Byte.byte) : Z := Z.of_N (Byte.to_N b).

Lemma Z_of_byte_of_Z z : 0 ≤ z < 256 → Z_of_byte (byte_of_Z z) = z.
Proof.
  intros Hz. unfold Z_of_byte, byte_of_Z. rewrite Z.mod_small by done.
  destruct (Byte.of_N (Z.to_N z)) as [b|] eqn:E.
  - apply Byte.to_of_N in E. rewrite E. lia.
  - apply Byte.of_N_None_iff in E. lia.
Qed.

Lemma Z_of_byte_range b : 0 ≤ Z_of_byte b < 256.
Proof. unfold Z_of_byte. pose proof (Byte.to_N_bounded b). lia. Qed.

Lemma byte_of_Z_inj z1 z2 :
  0 ≤ z1 < 256 → 0 ≤ z2 < 256 → byte_of_Z z1 = byte_of_Z z2 → z1 = z2.
Proof.
  intros H1 H2 H%(f_equal Z_of_byte). by rewrite !Z_of_byte_of_Z in H.
Qed.

Lemma byte_of_Z_of_byte b : byte_of_Z (Z_of_byte b) = b.
Proof.
  unfold byte_of_Z. rewrite Z.mod_small by apply Z_of_byte_range.
  unfold Z_of_byte. by rewrite N2Z.id, Byte.of_to_N.
Qed.

Lemma map_byte_of_Z_inj l1 l2 :
  Forall (λ z, 0 ≤ z < 256) l1 → Forall (λ z, 0 ≤ z < 256) l2 →
  byte_of_Z <$> l1 = byte_of_Z <$> l2 → l1 = l2.
Proof.
  intros H1. revert l2. induction H1 as [|z1 l1 Hz1 _ IH]; intros [|z2 l2] H2;
    simpl; intros [=]; [done|]. inversion H2; subst.
  f_equal; [by apply byte_of_Z_inj|by apply IH].
Qed.

(** [c.encode("utf-8")] for one code point; a lone surrogate has no encoding
    ([UnicodeEncodeError]). *)
Definition utf8_char (c : Z) : option (list Z) :=
  if (c <? 0) || (0x10FFFF <? c) then None
  else if c <? 0x80 then Some [c]
  else if c <? 0x800 then Some [0xC0 + c / 64; 0x80 + c `mod` 64]
  else if in_range 0xD800 0xDFFF c then None
  else if c <? 0x10000 then
    Some [0xE0 + c / 4096; 0x80 + (c / 64) `mod` 64; 0x80 + c `mod` 64]
  else
    Some [0xF0 + c / 262144; 0x80 + (c / 4096) `mod` 64;
          0x80 + (c / 64) `mod` 64; 0x80 + c `mod` 64].

Fixpoint utf8_units (s : str) : option (list Z) :=
  match s with
  | [] => Some []
  | c :: s' => a ← utf8_char c; r ← utf8_units s'; Some (a ++ r)
  end.

Definition utf8_encode (s : str) : option bytes :=
  fmap (M:=option) (fmap (M:=list) byte_of_Z) (utf8_units s).

Lemma utf8_char_prefix c1 c2 b1 b2 r1 r2 :
  utf8_char c1 = Some b1 → utf8_char c2 = Some b2 →
  b1 ++ r1 = b2 ++ r2 → c1 = c2 ∧ r1 = r2.
Proof.
  unfold utf8_char. intros H1 H2 Heq.
  repeat case_match; simplify_eq/=; propify; simplify_eq;
    try (split; [|done]); first [divlia | exfalso; divlia].
Qed.

Lemma utf8_char_range c b : utf8_char c = Some b → Forall (λ z, 0 ≤ z < 256) b.
Proof.
  unfold utf8_char. intros H. repeat case_match; simplify_eq/=; propify;
    repeat constructor; divlia.
Qed.

Lemma utf8_units_range s b : utf8_units s = Some b → Forall (λ z, 0 ≤ z < 256) b.
Proof.
  revert b. induction s as [|c s IH]; simpl; intros b H; simplify_option_eq;
    [constructor|]. apply Forall_app. eauto using utf8_char_range.
Qed.

Lemma utf8_char_nonnil c b : utf8_char c = Some b → b ≠ [].
Proof. unfold utf8_char. intros H. by repeat case_match; simplify_eq/=. Qed.

Lemma utf8_units_inj s1 s2 b :
  utf8_units s1 = Some b → utf8_units s2 = Some b → s1 = s2.
Proof.
  revert s2 b. induction s1 as [|c1 s1 IH]; intros [|c2 s2] b H1 H2;
    simpl in *; simplify_option_eq.
  - done.
  - match goal with H : utf8_char c2 = Some ?x |- _ =>
      apply utf8_char_nonnil in H; by destruct x end.
  - match goal with H : utf8_char c1 = Some ?x |- _ =>
      apply utf8_char_nonnil in H; by destruct x end.
  - match goal with H : _ ++ _ = _ ++ _ |- _ =>
      eapply utf8_char_prefix in H as [-> ->]; [|done..] end.
    f_equal. eauto.
Qed.

Lemma utf8_encode_inj s1 s2 b :
  utf8_encode s1 = Some b → utf8_encode s2 = Some b → s1 = s2.
Proof.
  unfold utf8_encode. intros (b1 & H1 & ->)%fmap_Some (b2 & H2 & Heq)%fmap_Some.
  apply map_byte_of_Z_inj in Heq as ->; eauto using utf8_units_range, utf8_units_inj.
Qed.

Lemma utf8_units_length s b :
  utf8_units s = Some b → (length s ≤ length b)%nat.
Proof.
  revert b. induction s as [|c s IH]; simpl; intros b H; simplify_option_eq; [lia|].
  rewrite length_app. specialize (IH _ eq_refl).
  rename select (utf8_char c = Some _) into Hc. apply utf8_char_nonnil in Hc.
  match type of Hc with ?x ≠ [] => destruct x; [done|] end. simpl. lia.
Qed.

Lemma utf8_encode_length s b :
  utf8_encode s = Some b → (length s ≤ length b)%nat.
Proof.
  unfold utf8_encode. intros (b1 & H & ->)%fmap_Some.
  rewrite length_fmap. by apply utf8_units_length.
Qed.

Lemma utf8_encode_units s b : utf8_encode s = Some b → utf8_units s = Some (Z_of_byte <$> b).
Proof.
  unfold utf8_encode. intros (l & Hl & ->)%fmap_Some. rewrite Hl. f_equal.
  apply utf8_units_range in Hl as Hr. rewrite <- list_fmap_compose.
  rewrite <- (list_fmap_id l) at 1. apply Forall_fmap_ext_1.
  eapply Forall_impl; [exact Hr|]. intros z Hz. cbn. by rewrite Z_of_byte_of_Z.
Qed.

(** The strings that UTF-8 can encode: no surrogate code points. *)
Definition encodable_char (c : Z) : bool :=
  (0 <=? c) && (c <=? 0x10FFFF) && negb (in_range 0xD800 0xDFFF c).
Definition encodable (s : str) : bool := forallb encodable_char s.

Lemma utf8_char_encodable c : encodable_char c = true ↔ is_Some (utf8_char c).
Proof.
  unfold utf8_char, encodable_char, in_range.
  repeat case_match; propify; split; try (intros [? ?]; done); eauto; try lia.
Qed.

Lemma utf8_encode_encodable s : encodable s = true ↔ is_Some (utf8_encode s).
Proof.
  unfold utf8_encode. rewrite fmap_is_Some.
  induction s as [|c s IH]; simpl; [split; eauto|].
  rewrite andb_true_iff, utf8_char_encodable, IH. split.
  - intros [[a ->] [r ->]]. simpl. eauto.
  - intros [b H]. simplify_option_eq. eauto.
Qed.

(** [bytes.hex()] *)
Definition hex_digit (n : Z) : Z := if n <? 10 then 48 + n else 87 + n.
Definition hex_byte (b : Byte.byte) : str :=
  [hex_digit (Z_of_byte b / 16); hex_digit (Z_of_byte b `mod` 16)].
Definition hex (b : bytes) : str := b ≫= hex_byte.

Lemma length_hex b : length (hex b) = (2 * length b)%nat.
Proof. unfold hex. induction b as [|x b IH]; csimpl; [done|]. rewrite IH. lia. Qed.

Lemma hex_digit_inj a b :
  0 ≤ a < 16 → 0 ≤ b < 16 → hex_digit a = hex_digit b → a = b.
Proof. unfold hex_digit. intros. repeat case_match; propify; lia. Qed.

Lemma hex_inj b1 b2 : hex b1 = hex b2 → b1 = b2.
Proof.
  unfold hex. revert b2. induction b1 as [|x b1 IH]; intros [|y b2]; csimpl;
    intros H; simplify_eq/=; [done|].
  f_equal; [|by apply IH].
  pose proof (Z_of_byte_range x). pose proof (Z_of_byte_range y).
  rewrite <- (byte_of_Z_of_byte x), <- (byte_of_Z_of_byte y).
  repeat match goal with H : hex_digit _ = hex_digit _ |- _ =>
    apply hex_digit_inj in H; [|divlia..] end.
  f_equal. divlia.
Qed.

(** [bytes.fromhex(s)]: pairs of hexadecimal digits, ASCII white space between
    the pairs skipped; [None] is [ValueError]. *)
Definition hex_val (c : Z) : option Z :=
  if is_digit c then Some (c - 48)
  else if in_range 97 102 c then Some (c - 87)
  else if in_range 65 70 c then Some (c - 55)
  else None.

Lemma hex_val_digit n : 0 ≤ n < 16 → hex_val (hex_digit n) = Some n.
Proof.
  intros H. unfold hex_val, hex_digit, is_digit, in_range.
  repeat case_match; propify; try lia; f_equal; lia.
Qed.

Definition is_ascii_space (c : Z) : bool := one_of [32; 9; 10; 11; 12; 13] c.

Fixpoint bytes_fromhex (s : str) : option bytes :=
  match s with
  | [] => Some []
  | a :: s' =>
      if is_ascii_space a then bytes_fromhex s'
      else match s' with
           | [] => None
           | b :: s'' =>
               x ← hex_val a; y ← hex_val b; r ← bytes_fromhex s'';
               Some (byte_of_Z (x * 16 + y) :: r)
           end
  end.

Lemma bytes_fromhex_app b r : bytes_fromhex (hex b ++ r) = (x ← bytes_fromhex r; Some (b ++ x)).
Proof.
  unfold hex. induction b as [|x b IH]; csimpl; [by destruct (bytes_fromhex r)|].
  pose proof (Z_of_byte_range x).
  assert (is_ascii_space (hex_digit (Z_of_byte x / 16)) = false) as ->.
  { unfold is_ascii_space, one_of, hex_digit. apply bool_decide_eq_false.
    case_match; propify; set_solver by divlia. }
  rewrite !hex_val_digit by divlia. cbn. rewrite IH.
  destruct (bytes_fromhex r) as [y|]; [|done]. cbn.
  do 2 f_equal. rewrite <- (byte_of_Z_of_byte x) at 3. f_equal. divlia.
Qed.

Lemma bytes_fromhex_hex b : bytes_fromhex (hex b) = Some b.
Proof. rewrite <- (app_nil_r (hex b)), bytes_fromhex_app. cbn. by rewrite app_nil_r. Qed.

(** Lower-case hexadecimal text is the text of some bytes. *)
Definition is_lower_hex (c : Z) : bool := is_digit c || in_range 97 102 c.

Lemma hex_digit_lower n : 0 ≤ n < 16 → is_lower_hex (hex_digit n) = true.
Proof.
  intros. unfold is_lower_hex, is_digit, in_range, hex_digit. apply orb_true_iff.
  rewrite !andb_true_iff, !Z.leb_le. destruct (Z.ltb_spec n 10); lia.
Qed.

Lemma lower_hex_digit c : is_lower_hex c = true → ∃ n, 0 ≤ n < 16 ∧ c = hex_digit n.
Proof.
  unfold is_lower_hex, is_digit, in_range, hex_digit.
  rewrite orb_true_iff, !andb_true_iff, !Z.leb_le. intros [Hc|Hc].
  - exists (c - 48). split; [lia|]. destruct (Z.ltb_spec (c - 48) 10); lia.
  - exists (c - 87). split; [lia|]. destruct (Z.ltb_spec (c - 87) 10); lia.
Qed.

Lemma hex_lower b : forallb is_lower_hex (hex b) = true.
Proof.
  unfold hex. induction b as [|x b IH]; csimpl; [done|]. pose proof (Z_of_byte_range x).
  rewrite !hex_digit_lower by divlia. done.
Qed.

Lemma lower_hex_bytes n s :
  length s = (2 * n)%nat → forallb is_lower_hex s = true → ∃ b, s = hex b ∧ length b = n.
Proof.
  revert s. induction n as [|n IH]; intros s Hl Hs.
  { exists []. by destruct s. }
  destruct s as [|x [|y s]]; try (cbn in Hl; lia). cbn [forallb] in Hs.
  rewrite !andb_true_iff in Hs. destruct Hs as (Hx & Hy & Hs).
  apply lower_hex_digit in Hx as (a & Ha & ->), Hy as (c & Hc & ->).
  destruct (IH s) as (b & -> & <-); [cbn in Hl; lia|done|].
  exists (byte_of_Z (a * 16 + c) :: b). split; [|done].
  unfold hex. csimpl. unfold hex_byte. rewrite Z_of_byte_of_Z by lia.
  replace ((a * 16 + c) / 16) with a by divlia.
  by replace ((a * 16 + c) `mod` 16) with c by divlia.
Qed.

(** [s.strip()]: white space of the Unicode database. *)
Definition is_space (c : Z) : bool :=
  in_range 9 13 c || in_range 28 32 c || in_range 0x2000 0x200A c ||
  one_of [0x85; 0xA0; 0x1680; 0x2028; 0x2029; 0x202F; 0x205F; 0x3000] c.

Fixpoint lstrip (s : str) : str :=
  match s with
  | c :: s' => if is_space c then lstrip s' else s
  | [] => []
  end.

Definition strip (s : str) : str := reverse (lstrip (reverse (lstrip s))).

(** [b.decode("utf-8")]: read a lead byte, and accept the code point when its
    encoding is exactly the bytes that were read; [None] is
    [UnicodeDecodeError]. *)
Definition utf8_step (l : list Z) : option (Z * list Z) :=
  match l with
  | [] => None
  | b0 :: t =>
      let cont i := nth i t 0 - 0x80 in
      let '(n, c) :=
        if b0 <? 0x80 then (1%nat, b0)
        else if b0 <? 0xE0 then (2%nat, (b0 - 0xC0) * 64 + cont 0%nat)
        else if b0 <? 0xF0 then
          (3%nat, ((b0 - 0xE0) * 64 + cont 0%nat) * 64 + cont 1%nat)
        else (4%nat, (((b0 - 0xF0) * 64 + cont 0%nat) * 64 + cont 1%nat) * 64
                     + cont 2%nat) in
      if bool_decide (utf8_char c = Some (take n l))
      then Some (c, drop n l) else None
  end.

Fixpoint utf8_decode_units (fuel : nat) (l : list Z) : option str :=
  match l, fuel with
  | [], _ => Some []
  | _, O => None
  | _, S f => '(c, r) ← utf8_step l; s ← utf8_decode_units f r; Some (c :: s)
  end.

Definition utf8_decode (b : bytes) : option str :=
  utf8_decode_units (length b) (Z_of_byte <$> b).

Lemma utf8_step_char c b r :
  utf8_char c = Some b → utf8_step (b ++ r) = Some (c, r).
Proof.
  intros H. pose proof H as H'. unfold utf8_char in H'.
  repeat case_match; simplify_eq/=; propify;
    unfold utf8_step; cbn [app nth];
    repeat match goal with |- context [?a <? ?b] =>
      (rewrite (proj2 (Z.ltb_lt a b)) by divlia) ||
      (rewrite (proj2 (Z.ltb_ge a b)) by divlia) end;
    match goal with |- context [utf8_char ?x] =>
      replace x with c by divlia end;
    by rewrite H, bool_decide_true.
Qed.

Lemma utf8_decode_encode s b : utf8_encode s = Some b → utf8_decode b = Some s.
Proof.
  unfold utf8_encode, utf8_decode. intros (l & Hl & ->)%fmap_Some.
  assert (Z_of_byte <$> (byte_of_Z <$> l) = l) as ->.
  { apply utf8_units_range in Hl. clear s.
    induction Hl as [|z l Hz _ IH]; csimpl; [done|].
    by rewrite IH, Z_of_byte_of_Z. }
  rewrite length_fmap.
  enough (∀ f s l, utf8_units s = Some l → (length l ≤ f)%nat →
            utf8_decode_units f l = Some s) by auto.
  clear. intros f.
  induction f as [|f IH]; intros [|c s] l Hl Hf.
  1, 3: by simplify_option_eq.
  all: cbn [utf8_units] in Hl; apply bind_Some in Hl as (b & Hc & Hl);
    apply bind_Some in Hl as (r & Hr & [= <-]);
    pose proof (utf8_char_nonnil _ _ Hc); destruct b as [|x b]; [done|].
  - simpl in Hf. lia.
  - pose proof (utf8_step_char c _ r Hc) as Hs. cbn [utf8_decode_units app] in *.
    rewrite Hs. cbn. erewrite IH; [done|done|].
    simpl in Hf. rewrite length_app in Hf. lia.
Qed.
