(* ===== verification/PyFloat.v ===== *)
(** * Python's [float]

    A [float] is an IEEE 754 binary64 datum of the Standard Library's
    [SpecFloat]; no operation of it is an axiom.  The file holds what [json]
    and the canonicaliser use of it: the correctly rounded value of a decimal
    literal, and [float.__repr__], the shortest decimal text that reads back
    as the same float. *)

From S2P Require Import Prelude PyStr.
From Stdlib Require Import ZArith Lia SpecFloat.

Open Scope Z_scope.

Notation float := spec_float.

#[export] Instance float_eq_dec : EqDecision float.
Proof. solve_decision. Defined.

Definition prec : Z := 53.
Definition emax : Z := 1024.

(** [num / den], rounded to nearest even. *)
Definition float_of_ratio (s : bool) (num den : Z) : float :=
  match num, den with
  | Zpos n, Zpos d =>
      let '(q, e, l) := SFdiv_core_binary prec emax (Zpos n) 0 (Zpos d) 0 in
      binary_round_aux prec emax s q e l
  | _, _ => S754_zero s
  end.

(** The number of decimal digits of a positive integer. *)
Definition ndigits (z : Z) : Z := Z.of_nat (length (int_repr z)).

(** [float("...")] of the literal [(-1)^s * m * 10^e].  The two cut-offs lie
    beyond the range of the format. *)
Definition float_of_decimal (s : bool) (m e : Z) : float :=
  if m =? 0 then S754_zero s
  else if 400 <? ndigits m + e then S754_infinity s
  else if ndigits m + e <? -400 then S754_zero s
  else if 0 <=? e then float_of_ratio s (m * 10 ^ e) 1
  else float_of_ratio s m (10 ^ (- e)).

Definition is_zero (f : float) : bool :=
  match f with S754_zero _ => true | _ => false end.

(** ** [repr] *)

(** The decimal exponent: [10 ^ (k - 1) <= num / den < 10 ^ k]. *)
Definition decimal_point (num den : Z) : Z :=
  let below k := if 0 <=? k then num <? den * 10 ^ k
                 else num * 10 ^ (- k) <? den in
  let k0 := (Z.log2 num - Z.log2 den - 1) * 30103 / 100000 - 1 in
  let fix go fuel k :=
    match fuel with
    | O => k
    | S fuel' => if below k then k else go fuel' (k + 1)
    end in
  go 6%nat k0.

(** The decimal [d * 10 ^ (k - n)] as a float. *)
Definition candidate (k n d : Z) : float := float_of_decimal false d (k - n).

(** The [n]-digit decimal nearest to [num / den] that reads back as [f]. *)
Definition digits_at (f : float) (num den k n : Z) : option Z :=
  let '(sn, sd) := if 0 <=? n - k then (num * 10 ^ (n - k), den)
                   else (num, den * 10 ^ (k - n)) in
  let lo := sn / sd in
  let ok d := (0 <? d) && bool_decide (candidate k n d = f) in
  let rem2 := 2 * (sn - lo * sd) in
  let near_lo := (rem2 <? sd) || ((rem2 =? sd) && Z.even lo) in
  let '(first, second) := if near_lo then (lo, lo + 1) else (lo + 1, lo) in
  if ok first then Some first else if ok second then Some second else None.

Fixpoint shortest (fuel : nat) (f : float) (num den k n : Z) : Z * Z :=
  match fuel with
  | O => (0, n)
  | S fuel' =>
      match digits_at f num den k n with
      | Some d => (d, n)
      | None => shortest fuel' f num den k (n + 1)
      end
  end.

Fixpoint strip_zeros (s : str) : str :=
  match s with
  | 48 :: s' => strip_zeros s'
  | _ => s
  end.

(** Lay out the digits with the decimal point after the first [k]. *)
Definition layout (digits : str) (k : Z) : str :=
  let n := Z.of_nat (length digits) in
  if (k <=? -4) || (16 <? k) then
    take 1 digits ++
    (if n =? 1 then [] else u "." ++ drop 1 digits) ++
    u "e" ++ (if k - 1 <? 0 then u "-" else u "+") ++
    (let x := int_repr (Z.abs (k - 1)) in
     if Nat.ltb (length x) 2 then u "0" ++ x else x)
  else if k <=? 0 then
    u "0." ++ replicate (Z.to_nat (- k)) 48 ++ digits
  else if n <=? k then
    digits ++ replicate (Z.to_nat (k - n)) 48 ++ u ".0"
  else
    take (Z.to_nat k) digits ++ u "." ++ drop (Z.to_nat k) digits.

Definition float_repr (f : float) : str :=
  match f with
  | S754_zero s => (if s then u "-" else []) ++ u "0.0"
  | S754_infinity s => (if s then u "-" else []) ++ u "inf"
  | S754_nan => u "nan"
  | S754_finite s m e =>
      let '(num, den) := if 0 <=? e then (Zpos m * 2 ^ e, 1)
                         else (Zpos m, 2 ^ (- e)) in
      let k := decimal_point num den in
      let '(d, n) := shortest 17 (S754_finite false m e) num den k 1 in
      (* a candidate of [10 ^ n] is one place longer *)
      let k' := k + ndigits d - n in
      let digits := reverse (strip_zeros (reverse (int_repr d))) in
      (if s then u "-" else []) ++ layout digits k'
  end.

(** The texts of [repr] on the corners of the format. *)
Example repr_tenth : float_repr (float_of_decimal false 1 (-1)) = u "0.1".
Proof. vm_compute. reflexivity. Qed.
Example repr_large : float_repr (float_of_decimal true 1 22) = u "-1e+22".
Proof. vm_compute. reflexivity. Qed.
Example repr_denormal : float_repr (float_of_decimal false 49406 (-328)) = u "5e-324".
Proof. vm_compute. reflexivity. Qed.
Example repr_fraction :
  float_repr (float_of_ratio false 1 3) = u "0.3333333333333333".
Proof. vm_compute. reflexivity. Qed.
