(* ===== verification/Sha256.v ===== *)
(** * The SHA-256 interface

    Every component that hashes is stated against the class [Sha256]: a digest
    function whose output is 32 bytes long, which is all the proofs use of
    [hashlib.sha256].  The instance [fips_sha256] is the algorithm of FIPS
    180-4, so that the development computes real digests; it is checked on the
    published test vectors. *)

From S2P Require Import Prelude PyStr.
From Stdlib Require Import ZArith Lia.
From Stdlib Require Import Strings.Byte.

Open Scope Z_scope.

Class Sha256 := {
  sha256 : bytes → bytes;
  sha256_length : ∀ m, length (sha256 m) = 32%nat;
}.

Module Fips.
Definition M32 : Z := 2 ^ 32.
Definition add32 (a b : Z) : Z := (a + b) `mod` M32.
Definition rotr (n x : Z) : Z :=
  Z.lor (Z.shiftr x n) (Z.shiftl x (32 - n) `mod` M32).
Definition ch x y z : Z := Z.lxor (Z.land x y) (Z.land (M32 - 1 - x) z).
Definition maj x y z : Z :=
  Z.lxor (Z.lxor (Z.land x y) (Z.land x z)) (Z.land y z).
Definition bsig0 x : Z := Z.lxor (Z.lxor (rotr 2 x) (rotr 13 x)) (rotr 22 x).
Definition bsig1 x : Z := Z.lxor (Z.lxor (rotr 6 x) (rotr 11 x)) (rotr 25 x).
Definition ssig0 x : Z :=
  Z.lxor (Z.lxor (rotr 7 x) (rotr 18 x)) (Z.shiftr x 3).
Definition ssig1 x : Z :=
  Z.lxor (Z.lxor (rotr 17 x) (rotr 19 x)) (Z.shiftr x 10).

(** The round constants of section 4.2.2 and the initial state of section
    5.3.3 are the first 32 bits of the fractional parts of the cube roots of
    the first 64 primes, and of the square roots of the first 8. *)
Definition is_prime (n : Z) : bool :=
  forallb (λ d, negb (n `mod` Z.of_nat d =? 0)) (seq 2 (Z.to_nat (Z.sqrt n) - 1)).

Definition primes : list Z := filter (λ n, is_prime n = true) (Z.of_nat <$> seq 2 310).

(** The greatest [r] below [lo + 2 ^ bits] with [r ^ 3 <= n], bit by bit. *)
Fixpoint cube_root (bits : nat) (lo n : Z) : Z :=
  match bits with
  | O => lo
  | S k =>
      let mid := lo + 2 ^ Z.of_nat k in
      cube_root k (if mid * mid * mid <=? n then mid else lo) n
  end.

Definition K : list Z := Eval vm_compute in
  (λ p, cube_root 40 0 (p * 2 ^ 96) `mod` M32) <$> primes.

Record state := State { a : Z; b : Z; c : Z; d : Z; e : Z; f : Z; g : Z; h : Z }.

Definition H0 : state := Eval vm_compute in
  let r i := Z.sqrt (nth i primes 0 * 2 ^ 64) `mod` M32 in
  State (r 0%nat) (r 1%nat) (r 2%nat) (r 3%nat)
        (r 4%nat) (r 5%nat) (r 6%nat) (r 7%nat).

Definition round (s : state) (kw : Z * Z) : state :=
  let t1 := (s.(h) + bsig1 s.(e) + ch s.(e) s.(f) s.(g) + kw.1 + kw.2) `mod` M32 in
  let t2 := (bsig0 s.(a) + maj s.(a) s.(b) s.(c)) `mod` M32 in
  State (add32 t1 t2) s.(a) s.(b) s.(c) (add32 s.(d) t1) s.(e) s.(f) s.(g).

(** The message schedule, most recent word first. *)
Fixpoint schedule (n : nat) (w : list Z) : list Z :=
  match n with
  | O => w
  | S n' =>
      schedule n'
        ((ssig1 (nth 1 w 0) + nth 6 w 0 + ssig0 (nth 14 w 0) + nth 15 w 0)
           `mod` M32 :: w)
  end.

Fixpoint words (n : nat) (m : bytes) : list Z :=
  match n, m with
  | S n', w0 :: w1 :: w2 :: w3 :: m' =>
      ((Z_of_byte w0 * 256 + Z_of_byte w1) * 256 + Z_of_byte w2) * 256
        + Z_of_byte w3 :: words n' m'
  | _, _ => []
  end.

Definition compress (s : state) (block : bytes) : state :=
  let w := reverse (schedule 48 (reverse (words 16 block))) in
  let t := foldl round s (zip K w) in
  State (add32 s.(a) t.(a)) (add32 s.(b) t.(b)) (add32 s.(c) t.(c))
        (add32 s.(d) t.(d)) (add32 s.(e) t.(e)) (add32 s.(f) t.(f))
        (add32 s.(g) t.(g)) (add32 s.(h) t.(h)).

Definition be (n : nat) (x : Z) : bytes :=
  (λ i, byte_of_Z (Z.shiftr x (8 * Z.of_nat i))) <$> reverse (seq 0 n).

Definition pad (m : bytes) : bytes :=
  let l := Z.of_nat (length m) in
  m ++ [Byte.x80] ++ replicate (Z.to_nat ((55 - l) `mod` 64)) Byte.x00
    ++ be 8 (8 * l).

Fixpoint blocks (n : nat) (s : state) (m : bytes) : state :=
  match n with
  | O => s
  | S n' => blocks n' (compress s (take 64 m)) (drop 64 m)
  end.

Definition digest (m : bytes) : bytes :=
  let p := pad m in
  let s := blocks (length p / 64) H0 p in
  be 4 s.(a) ++ be 4 s.(b) ++ be 4 s.(c) ++ be 4 s.(d) ++
  be 4 s.(e) ++ be 4 s.(f) ++ be 4 s.(g) ++ be 4 s.(h).

Lemma digest_length m : length (digest m) = 32%nat.
Proof. unfold digest. by rewrite !length_app. Qed.

(** FIPS 180-4 vectors: the empty message, "abc" and a two-block message. *)
Example digest_empty :
  hex (digest []) =
  u "e3b0c44298fc1c149afbf4c8996fb92427ae41e4649b934ca495991b7852b855".
Proof. vm_compute. reflexivity. Qed.

Example digest_abc :
  hex (digest (byte_of_Z <$> u "abc")) =
  u "ba7816bf8f01cfea414140de5dae2223b00361a396177a9cb410ff61f20015ad".
Proof. vm_compute. reflexivity. Qed.

Example digest_two_blocks :
  hex (digest (byte_of_Z <$>
    u "abcdbcdecdefdefgefghfghighijhijkijkljklmklmnlmnomnopnopq")) =
  u "248d6a61d20638b8e5c026930c3e6039a33ce45964ff2167f6ecedd419db06c1".
Proof. vm_compute. reflexivity. Qed.
End Fips.

Definition fips_sha256 : Sha256 :=
  {| sha256 := Fips.digest; sha256_length := Fips.digest_length |}.

(** A cheap 32-byte hash, for the concrete instances of theorems that hold of
    every hash function. *)
Definition checksum (m : bytes) : bytes :=
  Fips.be 2 (foldl (λ a b, (a * 31 + Z_of_byte b + 1) `mod` 65521) 7 m)
  ++ replicate 30 Byte.x00.

Definition checksum_sha256 : Sha256 :=
  {| sha256 := checksum; sha256_length _ := eq_refl |}.
