(* ===== verification/Sha512.v ===== *)
(** * HMAC-SHA512

    [hmac.new(key, data, hashlib.sha512).digest()] as a class: the proofs use
    only that the digest has 64 bytes.  The instance [rfc2104_hmac] is HMAC on
    the SHA-512 of FIPS 180-4, checked on a published vector of each. *)

From S2P Require Import Prelude PyStr Sha256.
From Stdlib Require Import ZArith Lia.
From Stdlib Require Import Strings.Byte.

Open Scope Z_scope.

Class HmacSha512 := {
  hmac_sha512 : bytes → bytes → bytes;
  hmac_sha512_length : ∀ key data, length (hmac_sha512 key data) = 64%nat;
}.

(** The first half of the code of a key and a message. *)
Definition hmac_half `{HmacSha512} (input : bytes * bytes) : bytes :=
  take 32 (hmac_sha512 input.1 input.2).

Module Fips512.
Definition M64 : Z := 2 ^ 64.
Definition add64 (a b : Z) : Z := (a + b) `mod` M64.
Definition rotr (n x : Z) : Z := Z.lor (Z.shiftr x n) (Z.shiftl x (64 - n) `mod` M64).
Definition xor3 (a b c : Z) : Z := Z.lxor (Z.lxor a b) c.
Definition Sigma0 x : Z := xor3 (rotr 28 x) (rotr 34 x) (rotr 39 x).
Definition Sigma1 x : Z := xor3 (rotr 14 x) (rotr 18 x) (rotr 41 x).
Definition sigma0 x : Z := xor3 (rotr 1 x) (rotr 8 x) (Z.shiftr x 7).
Definition sigma1 x : Z := xor3 (rotr 19 x) (rotr 61 x) (Z.shiftr x 6).

Definition primes80 : list Z := take 80 (filter (λ n, Fips.is_prime n = true) (Z.of_nat <$> seq 2 410)).

(** Fractional parts of cube roots and of square roots, as in SHA-256, with 64
    bits. *)
Definition K : list Z := Eval vm_compute in
  (λ p, Fips.cube_root 72 0 (p * 2 ^ 192) `mod` M64) <$> primes80.
Definition H0 : list Z := Eval vm_compute in
  (λ p, Z.sqrt (p * 2 ^ 128) `mod` M64) <$> take 8 primes80.

(** The eight working variables as a list, [a] first. *)
Definition round (s : list Z) (kw : Z * Z) : list Z :=
  match s with
  | [a; b; c; d; e; f; g; h] =>
      let choice := Z.lxor (Z.land e f) (Z.land (M64 - 1 - e) g) in
      let t1 := (h + Sigma1 e + choice + kw.1 + kw.2) `mod` M64 in
      let majority := xor3 (Z.land a b) (Z.land a c) (Z.land b c) in
      [add64 t1 (Sigma0 a + majority); a; b; c; add64 d t1; e; f; g]
  | _ => s
  end.

(** The message schedule, most recent word first. *)
Fixpoint expand (n : nat) (w : list Z) : list Z :=
  match n with
  | O => w
  | S n' =>
      expand n' ((sigma1 (nth 1 w 0) + nth 6 w 0 + sigma0 (nth 14 w 0) + nth 15 w 0) `mod` M64 :: w)
  end.

Fixpoint words (n : nat) (m : bytes) : list Z :=
  match n with
  | O => []
  | S n' => foldl (λ x b, 256 * x + Z_of_byte b) 0 (take 8 m) :: words n' (drop 8 m)
  end.

Definition compress (s : list Z) (block : bytes) : list Z :=
  let w := reverse (expand 64 (reverse (words 16 block))) in
  zip_with add64 s (foldl round s (zip K w)).

Fixpoint blocks (n : nat) (s : list Z) (m : bytes) : list Z :=
  match n with
  | O => s
  | S n' => blocks n' (compress s (take 128 m)) (drop 128 m)
  end.

Definition padded (m : bytes) : bytes :=
  let l := Z.of_nat (length m) in
  m ++ [Byte.x80] ++ replicate (Z.to_nat ((111 - l) `mod` 128)) Byte.x00 ++ Fips.be 16 (8 * l).

Definition digest (m : bytes) : bytes :=
  let p := padded m in
  let s := blocks (length p / 128) H0 p in
  mjoin ((λ i, Fips.be 8 (nth i s 0)) <$> seq 0 8).

Lemma sha512_digest_length m : length (digest m) = 64%nat.
Proof. reflexivity. Qed.

Example sha512_abc :
  hex (digest (byte_of_Z <$> u "abc")) =
  u "ddaf35a193617abacc417349ae20413112e6fa4e89a97ea20a9eeee64b55d39a2192992a274fc1a836ba3c23a3feebbd454d4423643ce80e2a9ac94fa54ca49f".
Proof. vm_compute. reflexivity. Qed.

(** ** HMAC, with blocks of 128 bytes *)

Definition block_key (key : bytes) : bytes :=
  let key := if Nat.ltb 128 (length key) then digest key else key in
  key ++ replicate (128 - length key) Byte.x00.

Definition xor_pad (x : Z) (key : bytes) : bytes :=
  (λ b, byte_of_Z (Z.lxor x (Z_of_byte b))) <$> key.

Definition hmac (key data : bytes) : bytes :=
  let key := block_key key in
  digest (xor_pad 0x5c key ++ digest (xor_pad 0x36 key ++ data)).

(** RFC 4231, test case 2. *)
Example hmac_rfc4231 :
  hex (hmac (byte_of_Z <$> u "Jefe") (byte_of_Z <$> u "what do ya want for nothing?")) =
  u "164b7a7bfcf819e2e395fbe73b56e0a387bd64222e831fd610270cd7ea2505549758bf75c05a994a6d034f65f8f0e6fdcaeab1a34d4a6b4b636e070a38bce737".
Proof. vm_compute. reflexivity. Qed.
End Fips512.

Definition rfc2104_hmac : HmacSha512 :=
  {| hmac_sha512 := Fips512.hmac; hmac_sha512_length _ _ := Fips512.sha512_digest_length _ |}.
