(* ===== verification/Blake2b.v ===== *)
(** * The BLAKE2b interface

    [hashlib.blake2b(m, digest_size=32)] as a class: all that the proofs use is
    the length of the digest.  The instances [rfc7693_blake2b] and
    [rfc7693_keyed] are the algorithm of RFC 7693 without and with a key and a
    personalisation, checked on test vectors. *)

From S2P Require Import Prelude PyStr.
From Stdlib Require Import ZArith Lia.
From Stdlib Require Import Strings.Byte.

Open Scope Z_scope.

Class Blake2b := {
  blake2b : bytes → bytes;
  blake2b_length : ∀ m, length (blake2b m) = 32%nat;
}.

(** [hashlib.blake2b(m, digest_size=32, key=key, person=person)] for a key of at
    most 64 bytes. *)
Class KeyedBlake2b := {
  keyed_blake2b : bytes → bytes → bytes → bytes;
  keyed_blake2b_length : ∀ key person m, length (keyed_blake2b key person m) = 32%nat;
}.

Module Rfc7693.
Definition M64 : Z := 2 ^ 64.
Definition rotr (n x : Z) : Z := Z.lor (Z.shiftr x n) (Z.shiftl x (64 - n) `mod` M64).

(** The fractional parts of the square roots of the first eight primes. *)
Definition IV : list Z := Eval vm_compute in
  (λ p, Z.sqrt (p * 2 ^ 128) `mod` M64) <$> [2; 3; 5; 7; 11; 13; 17; 19].

(** The message permutations of the ten rounds, one hexadecimal digit an entry. *)
Definition SIGMA : list (list nat) := Eval vm_compute in
  (λ row, (λ c, Z.to_nat (default 0 (hex_val c))) <$> u row) <$>
    ["0123456789abcdef"; "ea489fd61c02b753"; "b8c052fdae367194"; "7931dcbe265a40f8";
     "905724afe1bc683d"; "2c6a0b834d75fe19"; "c51fed4a0763928b"; "db7ec13950f4862a";
     "6fe9b308c2d714a5"; "a2847615fb9e3cd0"]%string.

Definition ix (v : list Z) (i : nat) : Z := nth i v 0.

Definition G (v : list Z) (a b c d : nat) (x y : Z) : list Z :=
  let va := (ix v a + ix v b + x) `mod` M64 in
  let vd := rotr 32 (Z.lxor (ix v d) va) in
  let vc := (ix v c + vd) `mod` M64 in
  let vb := rotr 24 (Z.lxor (ix v b) vc) in
  let va := (va + vb + y) `mod` M64 in
  let vd := rotr 16 (Z.lxor vd va) in
  let vc := (vc + vd) `mod` M64 in
  let vb := rotr 63 (Z.lxor vb vc) in
  <[a := va]> (<[b := vb]> (<[c := vc]> (<[d := vd]> v))).

Definition round (m v : list Z) (row : list nat) : list Z :=
  let w i := ix m (nth i row 0%nat) in
  let v := G v 0 4 8 12 (w 0%nat) (w 1%nat) in
  let v := G v 1 5 9 13 (w 2%nat) (w 3%nat) in
  let v := G v 2 6 10 14 (w 4%nat) (w 5%nat) in
  let v := G v 3 7 11 15 (w 6%nat) (w 7%nat) in
  let v := G v 0 5 10 15 (w 8%nat) (w 9%nat) in
  let v := G v 1 6 11 12 (w 10%nat) (w 11%nat) in
  let v := G v 2 7 8 13 (w 12%nat) (w 13%nat) in
  G v 3 4 9 14 (w 14%nat) (w 15%nat).

Definition compress (h m : list Z) (t : Z) (final : bool) : list Z :=
  let v := h ++ IV in
  let v := <[12%nat := Z.lxor (ix v 12) (t `mod` M64)]> v in
  let v := <[13%nat := Z.lxor (ix v 13) (t / M64)]> v in
  let v := if final then <[14%nat := Z.lxor (ix v 14) (M64 - 1)]> v else v in
  let v := foldl (round m) v (SIGMA ++ take 2 SIGMA) in
  (λ i, Z.lxor (ix h i) (Z.lxor (ix v i) (ix v (i + 8)))) <$> seq 0 8.

(** Little-endian words of a block, padded with zeros. *)
Definition word (b : bytes) (i : nat) : Z :=
  foldr (λ x acc, Z_of_byte x + 256 * acc) 0 (take 8 (drop (8 * i) b)).
Definition words (b : bytes) : list Z := word b <$> seq 0 16.

Fixpoint absorb (fuel : nat) (h : list Z) (t : Z) (m : bytes) : list Z :=
  match fuel with
  | O => h
  | S fuel =>
      if (length m <=? 128)%nat then compress h (words m) (t + Z.of_nat (length m)) true
      else absorb fuel (compress h (words (take 128 m)) (t + 128) false) (t + 128)
             (drop 128 m)
  end.

Definition le (n : nat) (x : Z) : bytes :=
  (λ i, byte_of_Z (Z.shiftr x (8 * Z.of_nat i) `mod` 256)) <$> seq 0 n.

Definition digest (size : nat) (m : bytes) : bytes :=
  let h := <[0%nat := Z.lxor (ix IV 0) (Z.lxor 0x01010000 (Z.of_nat size))]> IV in
  let h := absorb (S (length m / 128)) h 0 m in
  take size (seq 0 8 ≫= λ i, le 8 (ix h i)).

(** With a key of at most 64 bytes, padded to a block in front of the message,
    and a personalisation of 16 bytes. *)
Definition keyed (size : nat) (key person m : bytes) : bytes :=
  let h := <[0%nat := Z.lxor (ix IV 0)
                (0x01010000 + Z.shiftl (Z.of_nat (length key)) 8 + Z.of_nat size)]> IV in
  let h := <[6%nat := Z.lxor (ix IV 6) (word person 0)]> h in
  let h := <[7%nat := Z.lxor (ix IV 7) (word person 1)]> h in
  let data := match key with
              | [] => m
              | _ => key ++ replicate (128 - length key) Byte.x00 ++ m
              end in
  let h := absorb (S (length data / 128)) h 0 data in
  take size (seq 0 8 ≫= λ i, le 8 (ix h i)).

Lemma blake2b_digest_length m : length (digest 32 m) = 32%nat.
Proof. done. Qed.

Lemma keyed_digest_length key person m : length (keyed 32 key person m) = 32%nat.
Proof. done. Qed.

Definition person0 : bytes := byte_of_Z <$> u "wakir-coee1" ++ replicate 5 0.

Example keyed_vectors :
  hex (keyed 32 (byte_of_Z <$> u "route-1") person0 (byte_of_Z <$> u "abc")) =
    u "d7a359dc411a88ca660e7da9d48e5307f3f2ff02f28ce89f336e73ac9abb803a" ∧
  hex (keyed 32 (byte_of_Z <$> u "k") person0 []) =
    u "1658342d8865fa1d9ffb5e3860fa8f616845513e807a89fd875af00b9c356dd2" ∧
  hex (keyed 32 (replicate 64 (byte_of_Z 107)) person0 (byte_of_Z ∘ Z.of_nat <$> seq 0 200)) =
    u "ff32704851a70c7a830befdeed36acf87d42e135081f8b69990fe2f1e06f4838" ∧
  hex (keyed 32 [] person0 (byte_of_Z <$> u "abc")) =
    u "c04c38f6d200b2be7389ecb562b975960c6196d23cad7aec13441e7252777249".
Proof. vm_compute. done. Qed.

Example blake2b_abc :
  hex (digest 32 (byte_of_Z <$> u "abc")) =
  u "bddd813c634239723171ef3fee98579b94964e3bb1cb3e427262c8c068d52319".
Proof. vm_compute. reflexivity. Qed.
End Rfc7693.

Definition rfc7693_blake2b : Blake2b :=
  {| blake2b := Rfc7693.digest 32; blake2b_length := Rfc7693.blake2b_digest_length |}.

(** A cheap 32-byte hash, for concrete instances of theorems that hold of every
    hash function. *)
Definition checksum (m : bytes) : bytes :=
  Rfc7693.le 2 (foldl (λ a b, (a * 31 + Z_of_byte b + 1) `mod` 65521) 7 m)
  ++ replicate 30 Byte.x00.

Definition checksum_blake2b : Blake2b :=
  {| blake2b := checksum; blake2b_length _ := eq_refl |}.

Definition rfc7693_keyed : KeyedBlake2b :=
  {| keyed_blake2b := Rfc7693.keyed 32; keyed_blake2b_length := Rfc7693.keyed_digest_length |}.
