(* ===== verification/PyJson.v ===== *)
(** * The standard library's [json.dumps]

    A JSON value and its compact text, [separators=(",", ":")], with the two
    string quotations of the [json] module ([ensure_ascii] on and off) and
    [sort_keys].  The main result is that the text is prefix-free: it
    determines the value, which every digest of the runtime relies on. *)

From S2P Require Import Prelude PyStr PyFloat.
From Stdlib Require Import ZArith Lia DecimalPos DecimalZ SpecFloat.
From Stdlib Require Decimal.

Open Scope Z_scope.

Inductive json : Type :=
| JNull
| JBool (b : bool)
| JInt (z : Z)
| JFloat (f : float)
| JStr (s : str)
| JList (l : list json)
| JObj (d : list (str * json)).

Section json_ind.
Variable P : json → Prop.
Hypothesis HNull : P JNull.
Hypothesis HBool : ∀ b, P (JBool b).
Hypothesis HInt : ∀ z, P (JInt z).
Hypothesis HFloat : ∀ f, P (JFloat f).
Hypothesis HStr : ∀ s, P (JStr s).
Hypothesis HList : ∀ l, Forall P l → P (JList l).
Hypothesis HObj : ∀ d, Forall (λ kv, P kv.2) d → P (JObj d).

Fixpoint json_ind' (j : json) : P j :=
  match j with
  | JNull => HNull
  | JBool b => HBool b
  | JInt z => HInt z
  | JFloat f => HFloat f
  | JStr s => HStr s
  | JList l =>
      HList l ((fix go l := match l return Forall P l with
                            | [] => Forall_nil_2 _
                            | x :: l' => Forall_cons_2 _ _ _ (json_ind' x) (go l')
                            end) l)
  | JObj d =>
      HObj d ((fix go d := match d return Forall (λ kv, P kv.2) d with
                           | [] => Forall_nil_2 _
                           | kv :: d' =>
                               Forall_cons_2 _ kv d' (json_ind' kv.2) (go d')
                           end) d)
  end.
End json_ind.

(** ** String quotation *)

Definition backslash : Z := 92.
Definition dquote : Z := 34.

(** [f"\\u{cp:04x}"] *)
Definition u_escape (c : Z) : str :=
  backslash :: 117 ::
    (hex_digit <$> [(c / 4096) `mod` 16; (c / 256) `mod` 16; (c / 16) `mod` 16;
                    c `mod` 16]).

(** The escape of one character with [ensure_ascii=False]. *)
Definition escape_char (c : Z) : str :=
  if c =? 34 then [backslash; 34]
  else if c =? 92 then [backslash; 92]
  else if c =? 8 then [backslash; 98]
  else if c =? 12 then [backslash; 102]
  else if c =? 10 then [backslash; 110]
  else if c =? 13 then [backslash; 114]
  else if c =? 9 then [backslash; 116]
  else if in_range 0 31 c then u_escape c
  else [c].

(** ... and with [ensure_ascii=True]: every character outside printable ASCII
    becomes one or two [\uXXXX] escapes. *)
Definition escape_char_ascii (c : Z) : str :=
  if in_range 0 126 c then escape_char c
  else if c <? 0x10000 then u_escape c
  else u_escape (0xD800 + (c - 0x10000) / 1024) ++
       u_escape (0xDC00 + (c - 0x10000) `mod` 1024).

Definition quote (ensure_ascii : bool) (s : str) : str :=
  dquote :: (s ≫= (if ensure_ascii then escape_char_ascii else escape_char))
         ++ [dquote].

(** ** Printing *)

(** The names of the non-finite floats differ from [repr]'s. *)
Definition float_json (f : float) : str :=
  match f with
  | S754_nan => u "NaN"
  | S754_infinity false => u "Infinity"
  | S754_infinity true => u "-Infinity"
  | _ => float_repr f
  end.

Section print.
Variable q : str → str.

Fixpoint json_print (j : json) : str :=
  match j with
  | JNull => u "null"
  | JBool true => u "true"
  | JBool false => u "false"
  | JInt z => int_repr z
  | JFloat f => float_json f
  | JStr s => q s
  | JList l => u "[" ++ join (u ",") (List.map json_print l) ++ u "]"
  | JObj d =>
      u "{" ++ join (u ",")
        (List.map (λ kv, q kv.1 ++ u ":" ++ json_print kv.2) d) ++ u "}"
  end.
End print.

Definition key_leb (x y : str * json) : bool := str_leb x.1 y.1.

(** [sort_keys=True]: every object's members in code-point order of keys. *)
Fixpoint json_sort (j : json) : json :=
  match j with
  | JList l => JList (List.map json_sort l)
  | JObj d =>
      JObj (py_sorted key_leb (List.map (λ kv, (kv.1, json_sort kv.2)) d))
  | _ => j
  end.

Definition json_dumps (ensure_ascii sort_keys : bool) (j : json) : str :=
  json_print (quote ensure_ascii) (if sort_keys then json_sort j else j).

(** [json.dumps(j, indent=2)]: [depth] is the current indentation. *)
Definition newline (depth : nat) : str := 10 :: replicate (2 * depth) 32.

Fixpoint json_pretty (q : str → str) (depth : nat) (j : json) : str :=
  match j with
  | JList ((_ :: _) as l) =>
      u "[" ++ newline (S depth) ++
      join (u "," ++ newline (S depth)) (List.map (json_pretty q (S depth)) l) ++
      newline depth ++ u "]"
  | JObj ((_ :: _) as d) =>
      u "{" ++ newline (S depth) ++
      join (u "," ++ newline (S depth))
        (List.map (λ kv, q kv.1 ++ u ": " ++ json_pretty q (S depth) kv.2) d) ++
      newline depth ++ u "}"
  | _ => json_print q j
  end.

Example pretty_text :
  json_pretty (quote false) 0 (JObj [(u "a", JList [JInt 1; JInt 2]); (u "b", JList [])]) =
  uq "{" ++ newline 1 ++ uq "'a': [" ++ newline 2 ++ u "1," ++ newline 2 ++ u "2" ++ newline 1 ++
  u "]," ++ newline 1 ++ uq "'b': []" ++ newline 0 ++ u "}".
Proof. vm_compute. reflexivity. Qed.

(** ** The text determines the value *)

(** What may follow a numeral. *)
Definition stops (r : str) : Prop :=
  match r with [] => True | c :: _ => ¬ is_numchar c end.

Lemma numeral_prefix a b r1 r2 :
  Forall is_numchar a → Forall is_numchar b → stops r1 → stops r2 →
  a ++ r1 = b ++ r2 → a = b ∧ r1 = r2.
Proof.
  intros Ha. revert b. induction Ha as [|x a Hx _ IH]; intros b Hb Hr1 Hr2 H.
  - destruct Hb as [|y b Hy _]; [done|]. simpl in H. by subst.
  - destruct Hb as [|y b Hy Hb]; simpl in H; [by subst|].
    injection H as -> H. by destruct (IH b) as [-> ->].
Qed.

Lemma uint_codes_nonnil d : d ≠ Decimal.Nil → uint_codes d ≠ [].
Proof. by destruct d. Qed.

Lemma int_repr_cons z : ∃ c s, int_repr z = c :: s ∧ is_numchar c.
Proof.
  pose proof (int_repr_numchars z) as H.
  destruct (int_repr z) as [|c s] eqn:E; [|apply Forall_inv in H; eauto].
  exfalso. revert E. unfold int_repr. destruct z as [|p|p]; simpl; [done|..].
  - apply uint_codes_nonnil, DecimalPos.Unsigned.to_uint_nonnil.
  - done.
Qed.

(** A printer is prefix-free at [x] when its text, followed by anything that
    cannot extend a numeral, determines [x] and the rest among the values in
    its domain. *)
Definition prefix_at {A} (ok : A → Prop) (f : A → str) (x : A) : Prop :=
  ∀ y r1 r2, ok x → ok y → stops r1 → stops r2 →
  f x ++ r1 = f y ++ r2 → x = y ∧ r1 = r2.

Lemma join_cons_tail sep x xs :
  join sep (x :: xs) = x ++ concat (List.map (app sep) xs).
Proof.
  revert x. induction xs as [|y xs IH]; intros x; [by rewrite app_nil_r|].
  change (join sep (x :: y :: xs)) with (x ++ sep ++ join sep (y :: xs)).
  rewrite IH. cbn [List.map concat]. by rewrite !app_assoc.
Qed.

Section sequences.
Context {A : Type} (ok : A → Prop) (f : A → str) (close : Z).
Hypothesis close_stops : ¬ is_numchar close.
Hypothesis close_comma : close ≠ 44.

Let tail (l : list A) : str := concat (List.map (app [44]) (List.map f l)).

Lemma stops_tail l r : stops (tail l ++ close :: r).
Proof.
  destruct l as [|x l]; simpl; [done|]. unfold is_numchar. lia.
Qed.

Lemma tail_prefix l1 :
  Forall (prefix_at ok f) l1 → Forall ok l1 → ∀ l2 r1 r2, Forall ok l2 →
  tail l1 ++ close :: r1 = tail l2 ++ close :: r2 → l1 = l2 ∧ r1 = r2.
Proof.
  induction 1 as [|x l1 Hx _ IH]; intros Hok1 [|y l2] r1 r2 Hok2; cbn;
    intros H.
  - by simplify_eq.
  - simplify_eq/=.
  - simplify_eq/=.
  - injection H as H. rewrite <- !app_assoc in H.
    apply Forall_cons in Hok1 as [??], Hok2 as [??].
    apply Hx in H as [-> H]; [|done..|apply stops_tail|apply stops_tail].
    by apply IH in H as [-> ->].
Qed.

Lemma join_prefix l1 l2 r1 r2 :
  (∀ x, ok x → ∃ c s, f x = c :: s ∧ c ≠ close) →
  Forall (prefix_at ok f) l1 → Forall ok l1 → Forall ok l2 →
  join (u ",") (List.map f l1) ++ close :: r1 =
  join (u ",") (List.map f l2) ++ close :: r2 → l1 = l2 ∧ r1 = r2.
Proof.
  intros Hf Hl1 Hok1 Hok2 H. change (u ",") with [44] in H.
  destruct Hl1 as [|x l1 Hx Hl1], Hok2 as [|y l2 Hy Hok2]; cbn [List.map] in H;
    rewrite ?join_cons_tail in H.
  - by simplify_eq/=.
  - destruct (Hf y Hy) as (c & s & E & ?). rewrite E in H. simplify_eq/=.
  - apply Forall_cons in Hok1 as [Hox ?].
    destruct (Hf x Hox) as (c & s & E & ?). rewrite E in H. simplify_eq/=.
  - rewrite <- !app_assoc in H. apply Forall_cons in Hok1 as [??].
    apply Hx in H as [-> H]; [|done..|apply stops_tail|apply stops_tail].
    by apply tail_prefix in H as [-> ->].
Qed.
End sequences.

Section ok_strings.
Variable okstr : str → Prop.

(** Every string of the value, keys included, is in the domain of [q]. *)
Fixpoint ok_strings (j : json) : Prop :=
  match j with
  | JStr s => okstr s
  | JFloat _ => False
  | JList l => foldr and True (List.map ok_strings l)
  | JObj d => foldr and True (List.map (λ kv, okstr kv.1 ∧ ok_strings kv.2) d)
  | _ => True
  end.

Lemma ok_strings_list l : ok_strings (JList l) ↔ Forall ok_strings l.
Proof. simpl. induction l; simpl; rewrite ?Forall_cons; naive_solver. Qed.

Definition ok_member (kv : str * json) : Prop := okstr kv.1 ∧ ok_strings kv.2.

Lemma ok_strings_obj d : ok_strings (JObj d) ↔ Forall ok_member d.
Proof.
  simpl. induction d as [|kv d IH]; simpl; [by split|].
  by rewrite Forall_cons, <- IH.
Qed.
End ok_strings.

Section print_inj.
Variable q : str → str.
Hypothesis q_head : ∀ s, ∃ s', q s = dquote :: s'.
Variable okstr : str → Prop.
Hypothesis q_prefix : ∀ s1 s2 r1 r2, okstr s1 → okstr s2 →
  q s1 ++ r1 = q s2 ++ r2 → s1 = s2 ∧ r1 = r2.

(** The first character tells the constructor. *)
Definition head_of (j : json) (c : Z) : Prop :=
  match j with
  | JNull => c = 110
  | JBool b => c = if b then 116 else 102
  | JInt _ => is_numchar c
  | JFloat _ => False
  | JStr _ => c = dquote
  | JList _ => c = 91
  | JObj _ => c = 123
  end.

Lemma json_print_head j :
  ok_strings okstr j → ∃ c s, json_print q j = c :: s ∧ head_of j c.
Proof.
  destruct j as [|[]| | | | |]; cbn [json_print]; ulit; simpl; intros Hok;
    try done; try (by eexists _, _).
  - apply int_repr_cons.
  - destruct (q_head s) as [s' ->]. eauto.
Qed.

Lemma json_print_head_ne j z :
  ¬ is_numchar z → z ∉ [110; 116; 102; 34; 91; 123] → ok_strings okstr j →
  ∃ c s, json_print q j = c :: s ∧ c ≠ z.
Proof.
  intros Hn Hz Hok. destruct (json_print_head j Hok) as (c & s & E & Hh).
  exists c, s. split; [done|]. intros ->.
  destruct j as [|[]| | | | |]; simpl in Hh; subst; try done; set_solver.
Qed.

Local Notation prefix_json := (prefix_at (ok_strings okstr) (json_print q)).

Lemma member_prefix kv :
  prefix_json kv.2 →
  prefix_at (ok_member okstr) (λ kv, q kv.1 ++ u ":" ++ json_print q kv.2) kv.
Proof.
  intros IH [k2 v2] r1 r2 [Hk1 Hv1] [Hk2 Hv2] Hr1 Hr2. destruct kv as [k1 v1].
  cbn -[app u] in *. rewrite <- !app_assoc. intros H.
  apply q_prefix in H as [-> H]; [|done..]. apply app_inv_head in H.
  by apply IH in H as [-> ->].
Qed.

Lemma json_print_prefix j : prefix_json j.
Proof.
  induction j as [|b|z|f|s|l IH|d IH] using json_ind'; intros j2 r1 r2 Ho1 Ho2 Hr1 Hr2 H.
  all: pose proof H as Hh.
  all: destruct (json_print_head j2 Ho2) as (c2 & t2 & E2 & Hc2).
  all: rewrite E2 in Hh.
  all: match goal with |- ?j1 = _ ∧ _ =>
         destruct (json_print_head j1 Ho1) as (c1 & t1 & E1 & Hc1) end.
  all: rewrite E1 in Hh; injection Hh as -> _; clear E1 E2 t1 t2.
  all: destruct j2 as [|b2|z2|f2|s2|l2|d2]; try destruct b; try destruct b2;
       simpl in Hc1, Hc2; try done; try (unfold is_numchar, dquote in *; lia).
  - cbn in H. by simplify_eq.
  - cbn in H. by simplify_eq.
  - cbn in H. by simplify_eq.
  - cbn [json_print] in H.
    apply numeral_prefix in H as [E ->]; [|by apply int_repr_numchars..|done|done].
    by apply int_repr_inj in E as ->.
  - apply q_prefix in H as [-> ->]; done.
  - cbn [json_print] in H. rewrite <- !app_assoc in H. apply app_inv_head in H.
    rewrite ok_strings_list in Ho1, Ho2.
    eapply (join_prefix (ok_strings okstr) _ 93) in H as [-> ->];
      [done|..|exact IH|done|done].
    + unfold is_numchar; lia.
    + lia.
    + intros j. apply json_print_head_ne; [unfold is_numchar; lia|set_solver].
  - cbn [json_print] in H. rewrite <- !app_assoc in H. apply app_inv_head in H.
    rewrite ok_strings_obj in Ho1, Ho2.
    eapply (join_prefix (ok_member okstr) _ 125) in H as [-> ->];
      [done|..|exact Ho1|exact Ho2].
    + unfold is_numchar; lia.
    + lia.
    + intros [k v] _. destruct (q_head k) as [s' E]. simpl. rewrite E.
      eexists _, _. by split.
    + eapply Forall_impl; [exact IH|]. apply member_prefix.
Qed.

Lemma json_print_inj j1 j2 :
  (ok_strings okstr) j1 → (ok_strings okstr) j2 → json_print q j1 = json_print q j2 → j1 = j2.
Proof.
  intros H1 H2 H. eapply (json_print_prefix j1 j2 [] []); [done..|].
  by rewrite !app_nil_r.
Qed.
End print_inj.

(** ** Quotation is prefix-free *)

Section quote.
Context (esc : Z → str) (okc : Z → Prop).
Hypothesis esc_head : ∀ c, okc c → ∃ x t, esc c = x :: t ∧ x ≠ dquote.
Hypothesis esc_prefix : ∀ c1 c2 r1 r2, okc c1 → okc c2 →
  esc c1 ++ r1 = esc c2 ++ r2 → c1 = c2 ∧ r1 = r2.

Lemma quote_body_prefix s1 s2 r1 r2 :
  Forall okc s1 → Forall okc s2 →
  (s1 ≫= esc) ++ dquote :: r1 = (s2 ≫= esc) ++ dquote :: r2 →
  s1 = s2 ∧ r1 = r2.
Proof.
  intros H1. revert s2. induction H1 as [|c1 s1 Hc1 _ IH]; intros s2 H2 H.
  - destruct H2 as [|c2 s2 Hc2 _]; csimpl in *; [by simplify_eq|].
    destruct (esc_head c2 Hc2) as (x & t & E & ?). rewrite E in H. by simplify_eq/=.
  - destruct H2 as [|c2 s2 Hc2 H2]; csimpl in *.
    { destruct (esc_head c1 Hc1) as (x & t & E & ?). rewrite E in H.
      by simplify_eq/=. }
    rewrite <- !app_assoc in H. apply esc_prefix in H as [-> H]; [|done..].
    by apply IH in H as [-> ->].
Qed.
End quote.

Lemma u_escape_prefix a b r1 r2 :
  0 ≤ a < 0x10000 → 0 ≤ b < 0x10000 →
  u_escape a ++ r1 = u_escape b ++ r2 → a = b ∧ r1 = r2.
Proof.
  unfold u_escape. csimpl. intros Ha Hb H. simplify_eq.
  repeat match goal with H : hex_digit _ = hex_digit _ |- _ =>
    apply hex_digit_inj in H; [|by apply Z.mod_pos_bound..] end.
  split; [|done]. divlia.
Qed.

Definition okchar (c : Z) : Prop := encodable_char c = true.

Lemma okchar_range c :
  okchar c ↔ 0 ≤ c ≤ 0x10FFFF ∧ ¬ 0xD800 ≤ c ≤ 0xDFFF.
Proof.
  unfold okchar, encodable_char, in_range. propify. lia.
Qed.

Lemma escape_char_head c : ∃ x t, escape_char c = x :: t ∧ x ≠ dquote.
Proof.
  unfold escape_char, u_escape, dquote, backslash, in_range.
  repeat case_match; propify; eexists _, _; (split; [done|lia]).
Qed.

Lemma escape_char_prefix c1 c2 r1 r2 :
  okchar c1 → okchar c2 →
  escape_char c1 ++ r1 = escape_char c2 ++ r2 → c1 = c2 ∧ r1 = r2.
Proof.
  rewrite !okchar_range. unfold escape_char, backslash, in_range. intros H1 H2 H.
  repeat case_match; propify; subst;
    first [by apply u_escape_prefix in H as [-> ->]; [|lia..]
          |unfold u_escape, backslash in H; simplify_eq/=; (done || lia)].
Qed.

Lemma escape_char_ascii_head c : ∃ x t, escape_char_ascii c = x :: t ∧ x ≠ dquote.
Proof.
  unfold escape_char_ascii, u_escape. repeat case_match; [apply escape_char_head|..];
    csimpl; eexists _, _; by split.
Qed.

(** Below 127 an escape is not one of the [\uXXXX] escapes of 127 and above. *)
Lemma escape_char_u_escape c1 x r1 r2 :
  okchar c1 → c1 < 127 → 127 ≤ x < 0x10000 →
  escape_char c1 ++ r1 = u_escape x ++ r2 → False.
Proof.
  rewrite okchar_range. unfold escape_char, backslash, in_range. intros H1 Hlt Hx H.
  repeat case_match; propify; subst;
    first [apply u_escape_prefix in H as [-> _]; lia
          |unfold u_escape, backslash in H; simplify_eq/=; (done || lia)].
Qed.

Lemma escape_char_ascii_prefix c1 c2 r1 r2 :
  okchar c1 → okchar c2 →
  escape_char_ascii c1 ++ r1 = escape_char_ascii c2 ++ r2 → c1 = c2 ∧ r1 = r2.
Proof.
  intros H1 H2. pose proof H1 as R1. pose proof H2 as R2.
  rewrite okchar_range in R1, R2. unfold escape_char_ascii, in_range. intros H.
  repeat case_match; propify; rewrite <- ?app_assoc in H.
  - by apply escape_char_prefix in H.
  - exfalso. eapply escape_char_u_escape in H; [done|done|lia..].
  - exfalso. eapply escape_char_u_escape in H; [done|done|lia|divlia].
  - exfalso. symmetry in H. eapply escape_char_u_escape in H; [done|done|lia..].
  - apply u_escape_prefix in H; [done|lia..].
  - apply u_escape_prefix in H as [-> _]; [|lia|divlia]. exfalso. divlia.
  - exfalso. symmetry in H. eapply escape_char_u_escape in H; [done|done|lia|divlia].
  - apply u_escape_prefix in H as [<- _]; [|divlia|lia]. exfalso. divlia.
  - apply u_escape_prefix in H as [E1 H]; [|divlia..].
    apply u_escape_prefix in H as [E2 ->]; [|divlia..].
    split; [|done]. divlia.
Qed.

Definition okstr (s : str) : Prop := encodable s = true.

Lemma okstr_Forall s : okstr s ↔ Forall okchar s.
Proof.
  unfold okstr, encodable, okchar.
  induction s as [|c s IH]; simpl; [done|].
  by rewrite andb_true_iff, Forall_cons, IH.
Qed.

Lemma quote_head ea s : ∃ s', quote ea s = dquote :: s'.
Proof. unfold quote. eauto. Qed.

Lemma quote_prefix ea s1 s2 r1 r2 :
  okstr s1 → okstr s2 →
  quote ea s1 ++ r1 = quote ea s2 ++ r2 → s1 = s2 ∧ r1 = r2.
Proof.
  rewrite !okstr_Forall. intros H1 H2 H. unfold quote in H.
  injection H as H. rewrite <- !app_assoc in H.
  eapply (quote_body_prefix _ okchar) in H; [done|..|done|done].
  - intros c _. destruct ea; [apply escape_char_ascii_head|apply escape_char_head].
  - destruct ea; [apply escape_char_ascii_prefix|apply escape_char_prefix].
Qed.

Lemma encodable_app s t : encodable (s ++ t) = encodable s && encodable t.
Proof. apply forallb_app. Qed.

(** What can be encoded behind quotes can be encoded. *)
Lemma encodable_quote s : encodable (quote false s) = true → okstr s.
Proof.
  intros He. unfold quote in He.
  change (dquote :: ?x) with ([dquote] ++ x) in He.
  rewrite !encodable_app in He. apply andb_true_iff in He as [_ He].
  apply andb_true_iff in He as [He _]. apply okstr_Forall.
  induction s as [|c s IH]; csimpl in *; [constructor|].
  rewrite encodable_app, andb_true_iff in He. destruct He as [He Hr].
  constructor; [|auto]. apply okchar_range. unfold escape_char in He.
  unfold encodable, encodable_char, in_range in He. simpl in He.
  repeat case_match; simpl in He; propify; lia.
Qed.

Definition json_ok : json → Prop := ok_strings okstr.

(** Values with encodable strings that print alike are equal, up to the order
    of object members when [sort_keys] is on. *)
Lemma json_dumps_inj ea j1 j2 :
  json_ok j1 → json_ok j2 →
  json_dumps ea false j1 = json_dumps ea false j2 → j1 = j2.
Proof.
  unfold json_dumps. apply json_print_inj; [apply quote_head|apply quote_prefix].
Qed.

Lemma ok_strings_sort P j : ok_strings P j → ok_strings P (json_sort j).
Proof.
  induction j as [| | | | |l IH|d IH] using json_ind'; try done.
  - cbn [json_sort]. rewrite !ok_strings_list, List.Forall_map. intros H.
    apply (Forall_mp _ _ _ _ IH H). auto.
  - cbn [json_sort]. rewrite !ok_strings_obj, py_sorted_perm, List.Forall_map.
    intros H. apply (Forall_mp _ _ _ _ IH H).
    intros [k v] Hv [??]. split; simpl in *; auto.
Qed.

Lemma json_sort_ok j : json_ok j → json_ok (json_sort j).
Proof. apply ok_strings_sort. Qed.

Lemma json_ok_unsort j : json_ok (json_sort j) → json_ok j.
Proof.
  unfold json_ok. induction j as [| | | | |l IH|d IH] using json_ind'; try done.
  - cbn [json_sort]. rewrite !ok_strings_list, List.Forall_map. intros H.
    apply (Forall_mp _ _ _ _ IH H). auto.
  - cbn [json_sort]. rewrite !ok_strings_obj, py_sorted_perm, List.Forall_map.
    intros H. apply (Forall_mp _ _ _ _ IH H). intros [k v] Hv [??]. split; simpl in *; auto.
Qed.

Lemma json_dumps_sorted_inj ea j1 j2 :
  json_ok j1 → json_ok j2 →
  json_dumps ea true j1 = json_dumps ea true j2 → json_sort j1 = json_sort j2.
Proof.
  unfold json_dumps. intros ??.
  apply (json_print_inj _ (quote_head ea) okstr (quote_prefix ea));
    by apply json_sort_ok.
Qed.

(** What is printed without ASCII escapes can be encoded only if its texts can. *)
Lemma encodable_join s l : encodable (join s l) = true → Forall (λ x, encodable x = true) l.
Proof.
  induction l as [|x [|y l] IH]; [constructor|by repeat constructor|].
  change (join s (x :: y :: l)) with (x ++ s ++ join s (y :: l)).
  rewrite !encodable_app, !andb_true_iff. intros (Hx & _ & Hl). constructor; auto.
Qed.

Definition float_free : json → Prop := ok_strings (λ _, True).

Lemma print_encodable j : float_free j → encodable (json_print (quote false) j) = true → json_ok j.
Proof.
  unfold float_free. induction j as [| | | |s|l IH|d IH] using json_ind'; try done; cbn [json_print].
  - intros _. apply encodable_quote.
  - rewrite ok_strings_list, Forall_forall. intros Hf.
    rewrite !encodable_app, !andb_true_iff. intros (_ & Hl & _). apply ok_strings_list.
    apply Forall_forall. intros j Hj. rewrite Forall_forall in IH. apply IH; [done|by apply Hf|].
    apply encodable_join in Hl. rewrite Forall_forall in Hl. apply Hl. by apply (list_elem_of_fmap_2 (json_print (quote false))).
  - rewrite ok_strings_obj, Forall_forall. intros Hf.
    rewrite !encodable_app, !andb_true_iff. intros (_ & Hd & _). apply ok_strings_obj.
    apply Forall_forall. intros [k v] Hkv. rewrite Forall_forall in IH.
    assert (encodable (quote false k ++ u ":" ++ json_print (quote false) v) = true) as He.
    { apply encodable_join in Hd. rewrite Forall_forall in Hd. apply Hd.
      by apply (list_elem_of_fmap_2 (λ kv : str * json, quote false kv.1 ++ u ":" ++ json_print (quote false) kv.2) d (k, v)). }
    rewrite !encodable_app, !andb_true_iff in He. destruct He as (Hk & _ & Hv).
    split; [by apply encodable_quote|]. apply (IH (k, v)); [done|by apply (Hf (k, v))|done].
Qed.

(** The bytes of a sorted text determine the value up to the order of members. *)
Lemma dumps_bytes_inj j1 j2 b :
  float_free j1 → float_free j2 →
  utf8_encode (json_dumps false true j1) = Some b → utf8_encode (json_dumps false true j2) = Some b →
  json_sort j1 = json_sort j2.
Proof.
  intros F1 F2 E1 E2. pose proof (utf8_encode_inj _ _ _ E1 E2) as E. unfold json_dumps in *.
  apply (json_print_inj _ (quote_head false) okstr (quote_prefix false)); [..|exact E];
    (apply print_encodable; [by apply ok_strings_sort|apply utf8_encode_encodable; eauto]).
Qed.

#[export] Instance key_leb_total : KeyOrder key_leb.
Proof.
  split.
  - intros x y z. apply (leb_trans (leb:=str_leb)).
  - intros x y. apply (leb_total (leb:=str_leb)).
Qed.

(** Sorting the members is idempotent. *)
Lemma json_sort_idem j : json_sort (json_sort j) = json_sort j.
Proof.
  induction j as [| | | | |l IH|d IH] using json_ind'; try done; cbn [json_sort];
    f_equal.
  - rewrite List.map_map. by apply List.map_ext_Forall.
  - change (List.map ?f ?l) with (f <$> l).
    rewrite (py_sorted_fmap key_leb key_leb) by done.
    rewrite <- list_fmap_compose. rewrite (Forall_fmap_ext_1 _ (λ kv, (kv.1, json_sort kv.2))).
    + apply py_sorted_id, py_sorted_sorted, _.
    + eapply Forall_impl; [exact IH|]. intros [k v] E. simpl in *. by rewrite E.
Qed.

(** ** With [ensure_ascii] the text is ASCII, whatever the strings *)

Definition ascii (s : str) : Prop := Forall (λ c, 0 ≤ c < 128) s.

Lemma ascii_lit s : forallb (in_range 0 127) s = true → ascii s.
Proof.
  intros Hs. apply Forall_forall. intros c Hc. rewrite forallb_forall in Hs.
  apply list_elem_of_In, Hs in Hc. unfold in_range in Hc. propify. lia.
Qed.

Lemma ascii_u_escape c : ascii (u_escape c).
Proof.
  assert (∀ n, 0 ≤ n < 16 → 0 ≤ hex_digit n < 128) as Hd.
  { intros n Hn. unfold hex_digit. case_match; propify; lia. }
  unfold u_escape, backslash. csimpl. repeat (constructor; [first [lia|apply Hd; divlia]|]).
  constructor.
Qed.

Lemma ascii_escape c : ascii (escape_char_ascii c).
Proof.
  unfold escape_char_ascii, escape_char, backslash, in_range.
  repeat case_match; propify; try apply ascii_u_escape;
    try (apply Forall_app; split; apply ascii_u_escape);
    repeat apply Forall_cons_2; try apply Forall_nil_2; lia.
Qed.

Lemma ascii_quote s : ascii (quote true s).
Proof.
  unfold quote. constructor; [unfold dquote; lia|]. apply Forall_app. split.
  - apply Forall_bind. apply Forall_forall. intros c _. apply ascii_escape.
  - by apply ascii_lit.
Qed.

Lemma ascii_int_repr z : ascii (int_repr z).
Proof. eapply Forall_impl; [apply int_repr_numchars|]. unfold is_numchar. simpl. lia. Qed.

Lemma ascii_join l : Forall ascii l → ascii (join (u ",") l).
Proof.
  intros Hl. destruct Hl as [|x l Hx Hl]; [constructor|]. rewrite join_cons_tail.
  apply Forall_app. split; [done|]. apply Forall_concat, Forall_map.
  eapply Forall_impl; [exact Hl|]. intros y Hy. apply Forall_app.
  split; [by apply ascii_lit|done].
Qed.

Lemma print_ascii okstr j : ok_strings okstr j → ascii (json_print (quote true) j).
Proof.
  induction j as [|[]|z|f|s|l IH|d IH] using json_ind'; intros Hj;
    try (by apply ascii_lit).
  - apply ascii_int_repr.
  - apply ascii_quote.
  - apply ok_strings_list in Hj. cbn [json_print].
    repeat (apply Forall_app; split; try by apply ascii_lit).
    apply ascii_join, Forall_map. by eapply Forall_mp; [exact IH|exact Hj|]; simpl; auto.
  - apply ok_strings_obj in Hj. cbn [json_print].
    repeat (apply Forall_app; split; try by apply ascii_lit).
    apply ascii_join, Forall_map. eapply Forall_mp; [exact IH|exact Hj|].
    intros [k v] Hv [_ Ho]. repeat (apply Forall_app; split; try by apply ascii_lit).
    + apply ascii_quote.
    + by apply Hv.
Qed.

Lemma ascii_encodable s : ascii s → is_Some (utf8_encode s).
Proof.
  intros Hs. apply utf8_encode_encodable, okstr_Forall.
  eapply Forall_impl; [exact Hs|]. intros c Hc. simpl in Hc. apply okchar_range. lia.
Qed.
