(* ===== verification/PyJsonLoads.v ===== *)
(** * The standard library's [json.loads]

    An executable reader of JSON text, following the accelerated scanner of
    CPython's [json] module: surrogate escapes are joined, a repeated member
    name keeps the last value, [NaN] and [Infinity] are read, control
    characters are refused inside strings, and text after the value is an
    error.  [None] stands for [JSONDecodeError].  The limits of the
    interpreter (recursion depth, digits of an integer) are not modelled.

    The reader runs on fuel; [parse_value_fuel] shows the fuel that
    [json_loads] supplies is never exhausted.  [json_loads_dumps] is the round
    trip with [json.dumps]. *)

From S2P Require Import Prelude PyStr PyFloat PyJson.
From Stdlib Require Import ZArith Lia SpecFloat.

Open Scope Z_scope.

(** ** Characters and scanning *)

Definition is_json_ws (c : Z) : bool := one_of [32; 9; 10; 13] c.

Fixpoint skip_ws (s : str) : str :=
  match s with
  | c :: s' => if is_json_ws c then skip_ws s' else s
  | [] => []
  end.

(** The text after an expected character. *)
Definition eat (c : Z) (s : str) : option str :=
  match s with
  | x :: s' => if x =? c then Some s' else None
  | [] => None
  end.

Fixpoint take_digits (s : str) : str * str :=
  match s with
  | c :: s' =>
      if is_digit c then let '(d, r) := take_digits s' in (c :: d, r) else ([], s)
  | [] => ([], [])
  end.


Definition hex4 (a b c d : Z) : option Z :=
  a' ← hex_val a; b' ← hex_val b; c' ← hex_val c; d' ← hex_val d;
  Some (((a' * 16 + b') * 16 + c') * 16 + d').

Definition simple_escape (c : Z) : option Z :=
  if c =? 34 then Some 34
  else if c =? 92 then Some 92
  else if c =? 47 then Some 47
  else if c =? 98 then Some 8
  else if c =? 102 then Some 12
  else if c =? 110 then Some 10
  else if c =? 114 then Some 13
  else if c =? 116 then Some 9
  else None.

Definition is_high (c : Z) : bool := in_range 0xD800 0xDBFF c.
Definition is_low (c : Z) : bool := in_range 0xDC00 0xDFFF c.

(** Prepend characters to the rest of a string being read. *)
Definition put (cs : str) (x : option (str * str)) : option (str * str) :=
  '(s, r) ← x; Some (cs ++ s, r).

(** The low surrogate escape that may follow a high one. *)
Definition low_escape (s : str) : option Z :=
  match s with
  | x :: y :: a :: b :: c :: d :: _ =>
      if (x =? 92) && (y =? 117) then
        v ← hex4 a b c d; if is_low v then Some v else None
      else None
  | _ => None
  end.

(** The escape after a backslash: the characters read and the number of
    characters of the text they take. *)
Definition parse_escape (s : str) : option (Z * nat) :=
  match s with
  | [] => None
  | e :: s' =>
      if e =? 117 then
        match s' with
        | a :: b :: c :: d :: s'' =>
            v ← hex4 a b c d;
            match (if is_high v then low_escape s'' else None) with
            | Some w => Some (0x10000 + (v - 0xD800) * 1024 + (w - 0xDC00), 11%nat)
            | None => Some (v, 5%nat)
            end
        | _ => None
        end
      else v ← simple_escape e; Some (v, 1%nat)
  end.

(** A string after its opening quote: the text and what follows it.  [skip]
    counts characters of an escape that is already decoded. *)
Fixpoint parse_string (skip : nat) (s : str) : option (str * str) :=
  match skip, s with
  | _, [] => None
  | S skip', _ :: s' => parse_string skip' s'
  | O, c :: s' =>
      if c =? 34 then Some ([], s')
      else if c =? 92 then
        '(v, n) ← parse_escape s'; put [v] (parse_string n s')
      else if c <? 32 then None
      else put [c] (parse_string 0 s')
  end.

(** A number: sign, integer part, optional fraction, optional exponent. *)
Definition parse_sign (s : str) : bool * str :=
  match eat 45 s with Some s' => (true, s') | None => (false, s) end.

Definition parse_int_part (s : str) : option (str * str) :=
  match eat 48 s with
  | Some s' => Some ([48], s')
  | None => match take_digits s with ([], _) => None | x => Some x end
  end.

Definition parse_frac (s : str) : str * str :=
  match eat 46 s with
  | Some s' => match take_digits s' with ([], _) => ([], s) | x => x end
  | None => ([], s)
  end.

Definition parse_exp (s : str) : option Z * str :=
  match s with
  | c :: s' =>
      if one_of [101; 69] c then
        let '(neg, s1) := parse_sign s' in
        let s2 := from_option id s1 (if neg then None else eat 43 s1) in
        match take_digits s2 with
        | ([], _) => (None, s)
        | (d, r) => (Some (if neg then - digits_val d else digits_val d), r)
        end
      else (None, s)
  | [] => (None, s)
  end.

Definition parse_number (s : str) : option (json * str) :=
  let '(neg, s1) := parse_sign s in
  '(d, s2) ← parse_int_part s1;
  let '(fr, s3) := parse_frac s2 in
  let '(ex, s4) := parse_exp s3 in
  Some
    (match fr, ex with
     | [], None => JInt (if neg then - digits_val d else digits_val d)
     | _, _ =>
         JFloat (float_of_decimal neg (digits_val (d ++ fr))
                   (from_option id 0 ex - Z.of_nat (length fr)))
     end, s4).

(** ** Values *)

Definition strip_prefix (p s : str) : option str :=
  if startswith s p then Some (drop (length p) s) else None.

Definition constants : list (str * json) :=
  [(u "null", JNull); (u "true", JBool true); (u "false", JBool false);
   (u "NaN", JFloat S754_nan); (u "Infinity", JFloat (S754_infinity false));
   (u "-Infinity", JFloat (S754_infinity true))].

Fixpoint parse_constant (cs : list (str * json)) (s : str) : option (json * str) :=
  match cs with
  | [] => None
  | (p, j) :: cs' =>
      match strip_prefix p s with
      | Some r => Some (j, r)
      | None => parse_constant cs' s
      end
  end.

Definition parse_scalar (s : str) : option (json * str) :=
  match parse_constant constants s with
  | Some x => Some x
  | None => parse_number s
  end.

(** [parse_value] reads at a value's first character; [parse_items] and
    [parse_members] after a bracket or comma with the white space skipped. *)
Fixpoint parse_value (fuel : nat) (s : str) : option (json * str) :=
  match fuel with
  | O => None
  | S f =>
      match s with
      | [] => None
      | c :: s' =>
          if c =? 34 then
            '(t, r) ← parse_string 0 s'; Some (JStr t, r)
          else if c =? 91 then
            match eat 93 (skip_ws s') with
            | Some r => Some (JList [], r)
            | None => '(l, r) ← parse_items f (skip_ws s'); Some (JList l, r)
            end
          else if c =? 123 then
            match eat 125 (skip_ws s') with
            | Some r => Some (JObj [], r)
            | None =>
                '(d, r) ← parse_members f [] (skip_ws s'); Some (JObj d, r)
            end
          else parse_scalar s
      end
  end
with parse_items (fuel : nat) (s : str) : option (list json * str) :=
  match fuel with
  | O => None
  | S f =>
      '(j, r) ← parse_value f s;
      match eat 44 (skip_ws r) with
      | Some r' => '(l, r'') ← parse_items f (skip_ws r'); Some (j :: l, r'')
      | None => r' ← eat 93 (skip_ws r); Some ([j], r')
      end
  end
with parse_members (fuel : nat) (acc : list (str * json)) (s : str)
    : option (list (str * json) * str) :=
  match fuel with
  | O => None
  | S f =>
      s' ← eat 34 s;
      '(k, r) ← parse_string 0 s';
      r1 ← eat 58 (skip_ws r);
      '(j, r2) ← parse_value f (skip_ws r1);
      let acc' := dict_set acc k j in
      match eat 44 (skip_ws r2) with
      | Some r3 => parse_members f acc' (skip_ws r3)
      | None => r3 ← eat 125 (skip_ws r2); Some (acc', r3)
      end
  end.

Definition json_fuel (s : str) : nat := 2 * length s + 2.

(** [json.loads(s)] *)
Definition json_loads (s : str) : option json :=
  '(j, r) ← parse_value (json_fuel s) (skip_ws s);
  match skip_ws r with [] => Some j | _ => None end.

Example loads_value :
  json_loads (u " {'k': [1, -20, 1.5e3, 'a\u00e9'], 'z': null, 'k': true} "
              ≫= λ c, [if c =? 39 then 34 else c]) =
  Some (JObj [(u "k", JBool true); (u "z", JNull)]).
Proof. vm_compute. reflexivity. Qed.

Example loads_trailing : json_loads (u "1 2") = None.
Proof. vm_compute. reflexivity. Qed.
Example loads_leading_zero : json_loads (u "01") = None.
Proof. vm_compute. reflexivity. Qed.
Example loads_pair :
  json_loads ([34] ++ u "\ud83d\ude00\ud83d\u0041" ++ [34]) =
  Some (JStr [0x1F600; 0xD83D; 65]).
Proof. vm_compute. reflexivity. Qed.

(** ** The fuel is enough: the reader consumes text *)

Lemma skip_ws_length s : (length (skip_ws s) ≤ length s)%nat.
Proof.
  induction s as [|c s IH]; cbn [skip_ws]; [lia|].
  destruct (is_json_ws c); simpl; lia.
Qed.

Lemma eat_Some c s r : eat c s = Some r ↔ s = c :: r.
Proof.
  destruct s as [|x s]; simpl; [naive_solver|].
  destruct (Z.eqb_spec x c); naive_solver.
Qed.

Lemma eat_length c s r : eat c s = Some r → length s = S (length r).
Proof. by intros ->%eat_Some. Qed.

Lemma take_digits_length s d r :
  take_digits s = (d, r) → length s = (length d + length r)%nat.
Proof.
  revert d r. induction s as [|c s IH]; intros d r; simpl; [by intros [= <- <-]|].
  destruct (is_digit c); [|by intros [= <- <-]].
  destruct (take_digits s) as [d' r'].
  intros [= <- <-]. simpl. by rewrite (IH d' r').
Qed.

(** Account for the text consumed by each reading step. *)
Ltac consumed :=
  repeat match goal with
  | H : take_digits _ = _ |- _ => apply take_digits_length in H
  | H : eat _ _ = Some _ |- _ => apply eat_length in H
  end; simpl in *; try lia.

Lemma put_Some cs x t r :
  put cs x = Some (t, r) → ∃ t', x = Some (t', r).
Proof. destruct x as [[t' r']|]; cbn; [intros [= <- <-]; eauto|done]. Qed.

Lemma parse_string_length n s t r :
  parse_string n s = Some (t, r) → (length r < length s)%nat.
Proof.
  revert n t r. induction s as [|c s IH]; intros n t r; [by destruct n|].
  destruct n as [|n]; cbn [parse_string]; [|intros ?%IH; cbn; lia].
  repeat case_match; [intros [= _ <-]; cbn; lia|..|done|]; intros Hp.
  - apply bind_Some in Hp as ([v n] & _ & Hp).
    apply put_Some in Hp as [? ?%IH]. cbn; lia.
  - apply put_Some in Hp as [? ?%IH]. cbn; lia.
Qed.

Lemma parse_constant_length cs s j r :
  Forall (λ pj : str * json, pj.1 ≠ []) cs →
  parse_constant cs s = Some (j, r) → (length r < length s)%nat.
Proof.
  induction 1 as [|[p j'] cs Hp _ IH]; cbn [parse_constant]; [done|].
  unfold strip_prefix. destruct (startswith s p) eqn:E; [|done].
  intros [= _ <-]. apply startswith_spec in E as [t ->].
  rewrite drop_app_length. rewrite length_app. destruct p; [done|simpl; lia].
Qed.

Lemma parse_sign_length s b r : parse_sign s = (b, r) → (length r ≤ length s)%nat.
Proof. unfold parse_sign. case_match; intros [= <- <-]; consumed. Qed.

Lemma parse_int_part_length s d r :
  parse_int_part s = Some (d, r) → (length r < length s)%nat.
Proof. unfold parse_int_part. repeat case_match; intros; simplify_eq; consumed. Qed.

Lemma parse_frac_length s d r : parse_frac s = (d, r) → (length r ≤ length s)%nat.
Proof. unfold parse_frac. repeat case_match; intros; simplify_eq; consumed. Qed.

Lemma parse_exp_length s d r : parse_exp s = (d, r) → (length r ≤ length s)%nat.
Proof.
  unfold parse_exp. destruct s as [|c s]; [by intros [= <- <-]|].
  destruct (one_of _ c); [|by intros [= <- <-]].
  destruct (parse_sign s) as [neg s1] eqn:E1. apply parse_sign_length in E1.
  assert (length (from_option id s1 (if neg then None else eat 43 s1))
          ≤ length s1)%nat.
  { destruct neg; [done|]. destruct (eat 43 s1) eqn:E; simpl; consumed. }
  repeat case_match; intros; simplify_eq; consumed.
Qed.

Lemma parse_scalar_length s j r :
  parse_scalar s = Some (j, r) → (length r < length s)%nat.
Proof.
  unfold parse_scalar. destruct (parse_constant constants s) as [[j' r']|] eqn:E.
  { intros [= <- <-]. eapply parse_constant_length, E. by repeat constructor. }
  unfold parse_number. destruct (parse_sign s) as [neg s1] eqn:E1.
  intros H. apply bind_Some in H as ([d s2] & E2 & H).
  destruct (parse_frac s2) as [fr s3] eqn:E3.
  destruct (parse_exp s3) as [ex s4] eqn:E4. injection H as _ ->.
  apply parse_sign_length in E1. apply parse_int_part_length in E2.
  apply parse_frac_length in E3. apply parse_exp_length in E4. lia.
Qed.

(** Split a successful reading step of an [option] computation. *)
Ltac run_some :=
  repeat match goal with
  | H : (_ ≫= _) = Some _ |- _ =>
      let x := fresh "x" in apply bind_Some in H; destruct H as (x & ? & H);
      try (destruct x as [??])
  | H : (match eat ?c ?s with _ => _ end) = Some _ |- _ =>
      let E := fresh "E" in destruct (eat c s) eqn:E
  | H : (if ?b then _ else _) = Some _ |- _ => destruct b
  | H : Some _ = Some _ |- _ => injection H; clear H; intros; subst
  | H : None = Some _ |- _ => discriminate H
  end.

Definition consumes {A} (p : str → option (A * str)) : Prop :=
  ∀ s x r, p s = Some (x, r) → (length r < length s)%nat.

Ltac measure_ws :=
  repeat match goal with
  | H : context [skip_ws ?s] |- _ =>
      lazymatch goal with
      | _ : (length (skip_ws s) ≤ length s)%nat |- _ => fail
      | _ => pose proof (skip_ws_length s)
      end
  end.

Lemma parse_consumes f :
  consumes (parse_value f) ∧ consumes (parse_items f) ∧
  ∀ acc, consumes (parse_members f acc).
Proof.
  induction f as [|f (IHv & IHi & IHm)]; [done|].
  split_and!; [intros [|c s] x r H|intros s x r H|intros acc s x r H];
    cbn [parse_value parse_items parse_members] in H; [done|..];
    run_some; measure_ws;
    repeat match goal with
    | H : parse_string _ _ = Some _ |- _ => apply parse_string_length in H
    | H : parse_value _ _ = Some _ |- _ => apply IHv in H
    | H : parse_items _ _ = Some _ |- _ => apply IHi in H
    | H : parse_members _ _ _ = Some _ |- _ => apply IHm in H
    | H : parse_scalar _ = Some _ |- _ => apply parse_scalar_length in H
    end; consumed.
Qed.

Definition value_fuel (s : str) : nat := 2 * length s + 1.

(** More fuel than [value_fuel] makes no difference. *)
Lemma parse_fuel n m :
  (∀ s, value_fuel s ≤ n → value_fuel s ≤ m → parse_value n s = parse_value m s)%nat ∧
  (∀ s, value_fuel s < n → value_fuel s < m → parse_items n s = parse_items m s)%nat ∧
  (∀ acc s, value_fuel s < n → value_fuel s < m →
     parse_members n acc s = parse_members m acc s)%nat.
Proof.
  unfold value_fuel. revert m.
  induction n as [|n IH]; intros m; [split_and!; intros; lia|].
  destruct m as [|m]; [split_and!; intros; lia|].
  destruct (IH m) as (IHv & IHi & IHm).
  split_and!; [intros [|c s] Hn Hm|intros s Hn Hm|intros acc s Hn Hm];
    cbn [parse_value parse_items parse_members]; [done|..]; simpl in Hn, Hm.
  - pose proof (skip_ws_length s). by rewrite IHi, IHm by lia.
  - rewrite IHv by lia. destruct (parse_value m s) as [[j r]|] eqn:E; [|done]. cbn.
    destruct (parse_consumes m) as (Hc & _). apply Hc in E.
    pose proof (skip_ws_length r).
    destruct (eat 44 (skip_ws r)) as [r'|] eqn:Er; [|done].
    apply eat_length in Er. pose proof (skip_ws_length r'). by rewrite IHi by lia.
  - destruct (eat 34 s) as [s'|] eqn:Es; [|done]. apply eat_length in Es. cbn.
    destruct (parse_string 0 s') as [[k r]|] eqn:Ek; [|done]. cbn.
    apply parse_string_length in Ek. pose proof (skip_ws_length r).
    destruct (eat 58 (skip_ws r)) as [r1|] eqn:Er; [|done]. apply eat_length in Er.
    cbn. pose proof (skip_ws_length r1). rewrite IHv by lia.
    destruct (parse_value m (skip_ws r1)) as [[j r2]|] eqn:E; [|done]. cbn.
    destruct (parse_consumes m) as (Hc & _). apply Hc in E.
    pose proof (skip_ws_length r2).
    destruct (eat 44 (skip_ws r2)) as [r3|] eqn:E3; [|done].
    apply eat_length in E3. pose proof (skip_ws_length r3). by rewrite IHm by lia.
Qed.

Lemma parse_value_fuel n s :
  (json_fuel s ≤ n)%nat →
  parse_value n (skip_ws s) = parse_value (json_fuel s) (skip_ws s).
Proof.
  intros. pose proof (skip_ws_length s). unfold json_fuel in *.
  apply (parse_fuel n _); unfold value_fuel; lia.
Qed.

(** ** Round trip *)

(** The values [json.dumps] can print and [json.loads] reads back: encodable
    text, distinct member names, no floats. *)
Fixpoint json_wf (j : json) : Prop :=
  match j with
  | JStr s => okstr s
  | JFloat _ => False
  | JList l => foldr and True (List.map json_wf l)
  | JObj d => NoDup d.*1 ∧
      foldr and True (List.map (λ kv, okstr kv.1 ∧ json_wf kv.2) d)
  | _ => True
  end.

Lemma json_wf_list l : json_wf (JList l) ↔ Forall json_wf l.
Proof. simpl. induction l; simpl; rewrite ?Forall_cons; naive_solver. Qed.

Lemma json_wf_obj d :
  json_wf (JObj d) ↔
  NoDup d.*1 ∧ Forall (λ kv : str * json, okstr kv.1 ∧ json_wf kv.2) d.
Proof.
  simpl. apply and_iff_compat_l.
  induction d as [|kv d IH]; simpl; [by split|]. by rewrite Forall_cons, <- IH.
Qed.

Lemma json_wf_ok j : json_wf j → json_ok j.
Proof.
  unfold json_ok. induction j as [| | | | |l IH|d IH] using json_ind'; try done.
  - rewrite ok_strings_list, json_wf_list. intros H. by apply (Forall_mp _ _ _ _ IH H); auto.
  - rewrite ok_strings_obj, json_wf_obj. intros [_ H].
    apply (Forall_mp _ _ _ _ IH H). intros [k v] ? [??]. split; auto.
Qed.

(** What follows a value inside a text. *)
Definition ends (r : str) : Prop :=
  match r with [] => True | c :: _ => c = 44 ∨ c = 93 ∨ c = 125 ∨ c = 10 end.

(** *** Strings *)

Lemma hex4_u_escape v :
  0 ≤ v < 65536 →
  hex4 (hex_digit ((v / 4096) `mod` 16)) (hex_digit ((v / 256) `mod` 16))
       (hex_digit ((v / 16) `mod` 16)) (hex_digit (v `mod` 16)) = Some v.
Proof.
  intros H. unfold hex4. rewrite !hex_val_digit by divlia. cbn. f_equal. divlia.
Qed.

(** The four digits of an escape. *)
Definition hex_digits4 (v : Z) : str :=
  [hex_digit ((v / 4096) `mod` 16); hex_digit ((v / 256) `mod` 16);
   hex_digit ((v / 16) `mod` 16); hex_digit (v `mod` 16)].

Lemma u_escape_eq v : u_escape v = 92 :: 117 :: hex_digits4 v.
Proof. done. Qed.

Lemma parse_escape_u v s :
  0 ≤ v < 65536 →
  parse_escape (117 :: hex_digits4 v ++ s) =
  match (if is_high v then low_escape s else None) with
  | Some w => Some (0x10000 + (v - 0xD800) * 1024 + (w - 0xDC00), 11%nat)
  | None => Some (v, 5%nat)
  end.
Proof.
  intros Hv.
  change (parse_escape (117 :: hex_digits4 v ++ s)) with
    (v ← hex4 (hex_digit ((v / 4096) `mod` 16)) (hex_digit ((v / 256) `mod` 16))
           (hex_digit ((v / 16) `mod` 16)) (hex_digit (v `mod` 16));
     match (if is_high v then low_escape s else None) with
     | Some w => Some (0x10000 + (v - 0xD800) * 1024 + (w - 0xDC00), 11%nat)
     | None => Some (v, 5%nat)
     end).
  by rewrite hex4_u_escape by done.
Qed.

Lemma low_escape_u v s :
  0 ≤ v < 65536 →
  low_escape (92 :: 117 :: hex_digits4 v ++ s) =
  if is_low v then Some v else None.
Proof.
  intros Hv.
  change (low_escape (92 :: 117 :: hex_digits4 v ++ s)) with
    (v ← hex4 (hex_digit ((v / 4096) `mod` 16)) (hex_digit ((v / 256) `mod` 16))
           (hex_digit ((v / 16) `mod` 16)) (hex_digit (v `mod` 16));
     if is_low v then Some v else None).
  by rewrite hex4_u_escape by done.
Qed.

Lemma parse_string_backslash s v n :
  parse_escape s = Some (v, n) →
  parse_string 0 (92 :: s) = put [v] (parse_string n s).
Proof.
  intros H. change (parse_string 0 (92 :: s)) with
    ('(v, n) ← parse_escape s; put [v] (parse_string n s)). by rewrite H.
Qed.

Lemma parse_string_skip l s : parse_string (length l) (l ++ s) = parse_string 0 s.
Proof. by induction l. Qed.

Lemma parse_u_escape v r :
  0 ≤ v < 65536 → is_high v = false →
  parse_string 0 (u_escape v ++ r) = put [v] (parse_string 0 r).
Proof.
  intros Hv Hh. rewrite u_escape_eq, <- !app_comm_cons.
  erewrite parse_string_backslash by (by rewrite parse_escape_u, Hh).
  apply (f_equal (put _)), (parse_string_skip (117 :: hex_digits4 v)).
Qed.

Lemma parse_pair v r :
  0x10000 ≤ v ≤ 0x10FFFF →
  parse_string 0 (u_escape (0xD800 + (v - 0x10000) / 1024) ++
    u_escape (0xDC00 + (v - 0x10000) `mod` 1024) ++ r) =
  put [v] (parse_string 0 r).
Proof.
  intros Hv. set (h := 0xD800 + _). set (l := 0xDC00 + _).
  assert (is_high h = true ∧ is_low l = true) as [Hh Hl].
  { unfold is_high, is_low, in_range, h, l. propify. divlia. }
  assert (0 ≤ h < 65536 ∧ 0 ≤ l < 65536) as [??] by (unfold h, l; divlia).
  rewrite !u_escape_eq, <- !app_comm_cons.
  erewrite parse_string_backslash
    by (by rewrite parse_escape_u, Hh, low_escape_u, Hl).
  etransitivity;
    [apply (f_equal (put _)),
       (parse_string_skip (117 :: hex_digits4 h ++ 92 :: 117 :: hex_digits4 l))|].
  do 2 f_equal. unfold h, l. divlia.
Qed.

Lemma parse_escape_char c r :
  0 ≤ c → parse_string 0 (escape_char c ++ r) = put [c] (parse_string 0 r).
Proof.
  intros Hc. unfold escape_char.
  repeat match goal with |- context [if ?a =? ?b then _ else _] =>
    destruct (Z.eqb_spec a b) as [->|]; [done|] end.
  unfold in_range. rewrite (proj2 (Z.leb_le 0 c)) by done. destruct (Z.leb_spec c 31).
  - apply parse_u_escape; [lia|]. unfold is_high, in_range. propify. lia.
  - cbn -[put]. rewrite !(proj2 (Z.eqb_neq _ _)), (proj2 (Z.ltb_ge _ _)) by lia.
    done.
Qed.

Lemma parse_escape_char_ascii c r :
  okchar c → parse_string 0 (escape_char_ascii c ++ r) = put [c] (parse_string 0 r).
Proof.
  intros Hc. pose proof (proj1 (okchar_range c) Hc). unfold escape_char_ascii, in_range.
  repeat case_match; propify.
  - apply parse_escape_char. lia.
  - apply parse_u_escape; [lia|]. unfold is_high, in_range. propify. lia.
  - rewrite <- app_assoc. apply parse_pair. lia.
Qed.

Lemma parse_quote ea s r :
  okstr s → parse_string 0 (drop 1 (quote ea s) ++ r) = Some (s, r).
Proof.
  rewrite okstr_Forall. intros Hs. unfold quote. cbn [drop]. rewrite drop_0, <- app_assoc.
  change ([dquote] ++ r) with (dquote :: r).
  induction Hs as [|c s Hc Hs IH]; [done|]. csimpl. rewrite <- app_assoc.
  assert (∀ t, parse_string 0 ((if ea then escape_char_ascii else escape_char) c ++ t)
          = put [c] (parse_string 0 t)) as ->.
  { intros t. destruct ea; [by apply parse_escape_char_ascii|].
    apply parse_escape_char. by pose proof (proj1 (okchar_range c) Hc); lia. }
  by rewrite IH.
Qed.

(** *** Numbers *)

Lemma take_digits_app d r :
  Forall (λ c, 48 ≤ c ≤ 57) d → ends r → take_digits (d ++ r) = (d, r).
Proof.
  intros Hd Hr. induction Hd as [|c d Hc Hd IH]; simpl.
  - destruct r as [|c r]; [done|]. simpl. unfold is_digit, in_range.
    case_match; [|done]. simpl in Hr. propify. lia.
  - rewrite IH. unfold is_digit, in_range. case_match; [done|]. propify. lia.
Qed.

Lemma parse_int_part_uint p r :
  ends r →
  parse_int_part (uint_codes (Pos.to_uint p) ++ r) = Some (uint_codes (Pos.to_uint p), r).
Proof.
  intros Hr. unfold parse_int_part.
  pose proof (uint_codes_digits (Pos.to_uint p)) as Hd.
  rewrite take_digits_app by done.
  pose proof (to_uint_no_zero p). pose proof (DecimalPos.Unsigned.to_uint_nonnil p).
  destruct (Pos.to_uint p); try done; congruence.
Qed.

Lemma ends_no_suffix r :
  ends r → parse_frac r = ([], r) ∧ parse_exp r = (None, r).
Proof.
  destruct r as [|c r]; [done|]. unfold parse_frac. simpl.
  by intros [->|[->|[->| ->]]].
Qed.

Lemma parse_number_int z r :
  ends r → parse_number (int_repr z ++ r) = Some (JInt z, r).
Proof.
  intros Hr. destruct (ends_no_suffix r Hr) as [Hf He]. unfold parse_number.
  destruct z as [|p|p].
  - cbn -[parse_frac parse_exp]. by rewrite Hf, He.
  - change (int_repr (Zpos p)) with (uint_codes (Pos.to_uint p)).
    assert (parse_sign (uint_codes (Pos.to_uint p) ++ r) =
            (false, uint_codes (Pos.to_uint p) ++ r)) as ->.
    { pose proof (DecimalPos.Unsigned.to_uint_nonnil p).
      by destruct (Pos.to_uint p). }
    rewrite parse_int_part_uint by done. cbn [mbind option_bind].
    rewrite Hf, He, digits_val_uint.
    do 3 f_equal. apply (DecimalZ.of_to (Zpos p)).
  - change (int_repr (Zneg p)) with (45 :: uint_codes (Pos.to_uint p)).
    change (parse_sign ((45 :: uint_codes (Pos.to_uint p)) ++ r)) with
      (true, uint_codes (Pos.to_uint p) ++ r). cbv beta iota.
    rewrite parse_int_part_uint by done. cbn [mbind option_bind].
    rewrite Hf, He, digits_val_uint.
    do 3 f_equal. apply (DecimalZ.of_to (Zneg p)).
Qed.

Lemma int_no_constant z r : parse_constant constants (int_repr z ++ r) = None.
Proof.
  destruct (int_repr_cons z) as (c & s & E & Hc).
  pose proof (int_repr_numchars z) as Hn. rewrite E in *.
  apply Forall_cons in Hn as [_ Hn]. unfold constants. ulit.
  assert (∀ p, (hd 0 p < 45 ∨ 57 < hd 0 p) → p ≠ [] →
            strip_prefix p ((c :: s) ++ r) = None) as Hsp.
  { intros [|x p] Hx Hp; [done|]. unfold strip_prefix.
    destruct (startswith _ _) eqn:Es; [|done].
    apply startswith_spec in Es as [t [= -> _]].
    unfold is_numchar in Hc. simpl in Hx. lia. }
  cbn [parse_constant]. rewrite !Hsp by (done || (simpl; lia)).
  unfold strip_prefix. destruct (startswith _ _) eqn:Es; [|done].
  apply startswith_spec in Es as [t Et]. injection Et as -> Et.
  destruct Hn as [|c' s' Hc' _].
  - (* a numeral has a digit *)
    unfold int_repr in E. destruct (Z.to_int z) as [d|d] eqn:Ez.
    + pose proof (uint_codes_digits d) as Hd. rewrite E in Hd.
      apply Forall_inv in Hd. lia.
    + injection E as E. destruct d; try done. destruct z; try done.
      simpl in Ez. injection Ez as Ez.
      by pose proof (DecimalPos.Unsigned.to_uint_nonnil p).
  - injection Et as -> _. unfold is_numchar in Hc'. lia.
Qed.

(** *** Values *)

Section roundtrip.
Variable ea : bool.
Local Notation print := (json_print (quote ea)).
Local Notation need j := (2 * length (print j))%nat.

(** The reader returns [j] at the text of [j], with the fuel [need]. *)
Definition reads (j : json) : Prop :=
  ∀ f r, json_wf j → ends r → (need j ≤ f)%nat →
  parse_value f (print j ++ r) = Some (j, r).

Lemma print_head_cases j :
  json_wf j → ∃ c s, print j = c :: s ∧ is_json_ws c = false ∧ c ≠ 93 ∧ c ≠ 125.
Proof.
  intros Hj. destruct (json_print_head _ (quote_head ea) okstr j) as (c & s & E & H).
  { by apply json_wf_ok. }
  exists c, s. split; [done|].
  cut (c = 110 ∨ c = 116 ∨ c = 102 ∨ is_numchar c ∨ c = 34 ∨ c = 91 ∨ c = 123).
  { unfold is_numchar. intros Hc. split; [|lia].
    unfold is_json_ws, one_of. apply bool_decide_eq_false. set_solver by lia. }
  unfold dquote in H. destruct j as [|[]| | | | |]; simpl in H; naive_solver.
Qed.

Lemma skip_ws_print j r : json_wf j → skip_ws (print j ++ r) = print j ++ r.
Proof.
  intros (c & s & -> & Hc & _)%print_head_cases. cbn [skip_ws app]. by rewrite Hc.
Qed.

Lemma skip_ws_quote s r : skip_ws (quote ea s ++ r) = quote ea s ++ r.
Proof. done. Qed.

Lemma quote_cons s : quote ea s = 34 :: drop 1 (quote ea s).
Proof. done. Qed.

Lemma eat_print_93 j r : json_wf j → eat 93 (print j ++ r) = None.
Proof.
  intros (c & s & -> & _ & Hc & _)%print_head_cases. cbn [eat app].
  by apply Z.eqb_neq in Hc as ->.
Qed.

Lemma skip_ws_stop c r : is_json_ws c = false → skip_ws (c :: r) = c :: r.
Proof. intros H. cbn [skip_ws]. by rewrite H. Qed.

Lemma eat_same c r : eat c (c :: r) = Some r.
Proof. cbn. by rewrite Z.eqb_refl. Qed.

Lemma singleton_app (c : Z) (r : str) : [c] ++ r = c :: r.
Proof. done. Qed.

Lemma join_cons2 sep x y l : join sep (x :: y :: l) = x ++ sep ++ join sep (y :: l).
Proof. done. Qed.

Lemma join_head sep x l : ∃ t, join sep (x :: l) = x ++ t.
Proof. rewrite join_cons_tail. eauto. Qed.

Lemma reads_items l f r :
  l ≠ [] → Forall reads l → Forall json_wf l →
  (2 * length (join (u ",") (List.map print l)) + 1 ≤ f)%nat →
  parse_items f (join (u ",") (List.map print l) ++ 93 :: r) = Some (l, r).
Proof.
  intros Hne Hl. revert f Hne. induction Hl as [|j l Hj Hl IH]; [done|].
  intros f _ [Hwj Hwl]%Forall_cons Hf. destruct f as [|f]; [lia|].
  cbn [parse_items]. destruct l as [|j' l].
  { cbn [List.map join] in *. rewrite Hj; [done|done|simpl; tauto|lia]. }
  cbn [List.map] in *. rewrite join_cons2 in *. rewrite !length_app in Hf.
  rewrite <- !app_assoc. rewrite Hj; [|done|simpl; tauto|lia].
  cbn [mbind option_bind]. change (u ",") with [44] in *.
  rewrite singleton_app, (skip_ws_stop 44), eat_same by done.
  apply Forall_inv in Hwl as Hwj'. destruct (join_head [44] (print j') (List.map print l)) as [t Et].
  rewrite Et, <- app_assoc, skip_ws_print, app_assoc, <- Et by done.
  rewrite IH; [done..|]. cbn [length] in Hf. lia.
Qed.

Lemma reads_member k j f acc r :
  okstr k → json_wf j → reads j → ends r → (need j ≤ f)%nat →
  k ∉ acc.*1 →
  parse_members (S f) acc ((quote ea k ++ u ":" ++ print j) ++ r) =
  match eat 44 (skip_ws r) with
  | Some r3 => parse_members f (acc ++ [(k, j)]) (skip_ws r3)
  | None => r3 ← eat 125 (skip_ws r); Some (acc ++ [(k, j)], r3)
  end.
Proof.
  intros Hk Hwj Hj Hr Hf Hacc. rewrite <- !app_assoc. cbn [parse_members].
  rewrite (quote_cons k) at 1. cbn [app]. rewrite eat_same.
  cbn [mbind option_bind]. rewrite parse_quote by done. cbn [mbind option_bind].
  change (u ":") with [58]. rewrite ?singleton_app, (skip_ws_stop 58), eat_same by done.
  cbn [mbind option_bind]. rewrite skip_ws_print, Hj by done.
  cbn [mbind option_bind]. by rewrite dict_set_new.
Qed.

Definition print_member (kv : str * json) : str :=
  quote ea kv.1 ++ u ":" ++ print kv.2.

Lemma skip_ws_members sep kv l r :
  skip_ws (join sep (print_member kv :: l) ++ r) =
  join sep (print_member kv :: l) ++ r.
Proof. by rewrite join_cons_tail. Qed.

Lemma reads_members d f acc r :
  d ≠ [] → Forall (λ kv, reads kv.2) d →
  Forall (λ kv : str * json, okstr kv.1 ∧ json_wf kv.2) d →
  NoDup (acc ++ d).*1 →
  (2 * length (join (u ",") (List.map print_member d)) + 1 ≤ f)%nat →
  parse_members f acc (join (u ",") (List.map print_member d) ++ 125 :: r)
  = Some (acc ++ d, r).
Proof.
  intros Hne Hd. revert f acc Hne. induction Hd as [|[k j] d Hj Hd IH]; [done|].
  intros f acc _ [[Hk Hwj] Hwd]%Forall_cons Hnd Hf. destruct f as [|f]; [lia|].
  assert (k ∉ acc.*1) as Hacc.
  { rewrite fmap_app in Hnd. apply NoDup_app in Hnd as (_ & Hnd & _).
    intros Hin. apply (Hnd _ Hin). left. }
  simpl in Hk, Hwj, Hj. destruct d as [|kv' d].
  { cbn [List.map join] in *. unfold print_member in *. cbn [fst snd] in *.
    rewrite !length_app in Hf. rewrite reads_member; [done..|simpl; tauto|lia|done]. }
  cbn [List.map] in *. rewrite join_cons2 in *.
  unfold print_member in Hf at 1. cbn [fst snd] in Hf.
  rewrite !length_app in Hf. unfold print_member at 1. cbn [fst snd].
  rewrite <- app_assoc, reads_member; [|done..|simpl; tauto|lia|done].
  rewrite <- app_assoc. change (u ",") with [44] in *.
  rewrite singleton_app, (skip_ws_stop 44), eat_same by done.
  rewrite skip_ws_members.
  rewrite IH; [by rewrite <- app_assoc|done..|by rewrite <- app_assoc|].
  cbn [length] in Hf. lia.
Qed.

Lemma reads_value j : reads j.
Proof.
  induction j as [|[]|z|x|s|l IH|d IH] using json_ind';
    intros f r Hwf Hr Hf; (destruct f as [|f];
      [destruct (print_head_cases _ Hwf) as (c & t & E & _); rewrite E in Hf;
       simpl in Hf; lia|]).
  1-3: done.
  - pose proof (int_no_constant z r) as Hc. pose proof (parse_number_int z r Hr) as Hp.
    cbn [json_print] in *. destruct (int_repr_cons z) as (c & s & E & Hn).
    rewrite E in *. cbn [parse_value app]. unfold is_numchar in Hn.
    rewrite !(proj2 (Z.eqb_neq _ _)) by lia.
    unfold parse_scalar. cbn [app] in Hc, Hp. by rewrite Hc, Hp.
  - done.
  - cbn [json_print]. rewrite quote_cons at 1. cbn [app parse_value].
    change (34 =? 34) with true. cbv iota. by rewrite parse_quote.
  - apply json_wf_list in Hwf. cbn [json_print] in *. rewrite !length_app in Hf.
    change (u "[") with [91] in *. change (u "]") with [93] in *.
    rewrite <- !app_assoc, !singleton_app. cbn [parse_value].
    change (91 =? 34) with false. change (91 =? 91) with true. cbv iota.
    destruct l as [|j l]; [done|]. cbn [List.map] in *.
    destruct (join_head (u ",") (print j) (List.map print l)) as [t Et].
    apply Forall_inv in Hwf as Hwj.
    rewrite Et, <- app_assoc, skip_ws_print, eat_print_93, app_assoc, <- Et by done.
    change (print j :: List.map print l) with (List.map print (j :: l)).
    rewrite reads_items; [done..|]. cbn [length List.map] in *. lia.
  - apply json_wf_obj in Hwf as [Hnd Hwf]. cbn [json_print] in *.
    rewrite !length_app in Hf.
    change (u "{") with [123] in *. change (u "}") with [125] in *.
    rewrite <- !app_assoc, !singleton_app. cbn [parse_value].
    change (123 =? 34) with false. change (123 =? 91) with false.
    change (123 =? 123) with true. cbv iota.
    fold print_member in *. destruct d as [|kv d]; [done|].
    change (List.map _ (kv :: d)) with (List.map print_member (kv :: d)) in *.
    cbn [List.map] in *. rewrite skip_ws_members.
    assert (∀ x, eat 125 (join (u ",") (print_member kv :: List.map print_member d) ++ x)
            = None) as -> by (intros; by rewrite join_cons_tail).
    change (print_member kv :: List.map print_member d)
      with (List.map print_member (kv :: d)).
    rewrite reads_members; [done..|]. cbn [length List.map] in *. lia.
Qed.
End roundtrip.

(** [json.loads] reads back what [json.dumps] printed. *)
Lemma json_loads_print ea j :
  json_wf j → json_loads (json_print (quote ea) j) = Some j.
Proof.
  intros Hj. unfold json_loads.
  pose proof (skip_ws_print ea j [] Hj) as Hs. rewrite !app_nil_r in Hs.
  pose proof (reads_value ea j (json_fuel (json_print (quote ea) j)) []) as Hv.
  rewrite app_nil_r in Hv.
  by rewrite Hs, Hv by (done || (unfold json_fuel; lia)).
Qed.

Lemma json_sort_wf j : json_wf j → json_wf (json_sort j).
Proof.
  induction j as [| | | | |l IH|d IH] using json_ind'; try done.
  - cbn [json_sort]. rewrite !json_wf_list, List.Forall_map. intros H.
    apply (Forall_mp _ _ _ _ IH H). auto.
  - cbn [json_sort]. rewrite !json_wf_obj, py_sorted_perm, List.Forall_map.
    intros [Hnd H]. split.
    + by rewrite <- (list_fmap_compose _ fst).
    + apply (Forall_mp _ _ _ _ IH H). intros [k v] Hv [??]. split; simpl in *; auto.
Qed.

Lemma json_loads_dumps ea sort_keys j :
  json_wf j →
  json_loads (json_dumps ea sort_keys j) =
  Some (if sort_keys then json_sort j else j).
Proof.
  intros Hj. unfold json_dumps. apply json_loads_print.
  destruct sort_keys; [by apply json_sort_wf|done].
Qed.

(** ** Values without floats, as a [dict] of Python holds them: distinct member
    names, any texts.  If their text can be encoded, it reads back. *)

Fixpoint json_plain (j : json) : Prop :=
  match j with
  | JFloat _ => False
  | JList l => foldr and True (List.map json_plain l)
  | JObj d => NoDup d.*1 ∧ foldr and True (List.map (λ kv, json_plain kv.2) d)
  | _ => True
  end.

Lemma json_plain_list l : json_plain (JList l) ↔ Forall json_plain l.
Proof. simpl. induction l; simpl; rewrite ?Forall_cons; naive_solver. Qed.

Lemma json_plain_obj d :
  json_plain (JObj d) ↔ NoDup d.*1 ∧ Forall (λ kv : str * json, json_plain kv.2) d.
Proof.
  simpl. apply and_iff_compat_l.
  induction d as [|kv d IH]; simpl; [by split|]. by rewrite Forall_cons, <- IH.
Qed.

Lemma json_wf_plain j : json_wf j ↔ json_plain j ∧ json_ok j.
Proof.
  unfold json_ok. induction j as [| | | | |l IH|d IH] using json_ind'; try (by simpl; naive_solver).
  - rewrite json_wf_list, json_plain_list, ok_strings_list, <- Forall_and. by apply Forall_iff_on.
  - rewrite json_wf_obj, json_plain_obj, ok_strings_obj.
    transitivity (NoDup d.*1 ∧ (Forall (λ kv : str * json, json_plain kv.2) d ∧ Forall (ok_member okstr) d)); [|tauto].
    rewrite <- Forall_and. apply and_iff_compat_l, Forall_iff_on. eapply Forall_impl; [exact IH|].
    intros [k v] Hv. unfold ok_member. cbn [fst snd] in *. rewrite Hv. tauto.
Qed.

Lemma json_plain_sort j : json_plain j → json_plain (json_sort j).
Proof.
  induction j as [| | | | |l IH|d IH] using json_ind'; try done.
  - cbn [json_sort]. rewrite !json_plain_list, List.Forall_map. intros H. apply (Forall_mp _ _ _ _ IH H). auto.
  - cbn [json_sort]. rewrite !json_plain_obj, py_sorted_perm, List.Forall_map. intros [Hnd H]. split.
    + by rewrite <- (list_fmap_compose _ fst).
    + apply (Forall_mp _ _ _ _ IH H). intros [k v] Hv Hp. simpl in *; auto.
Qed.

Lemma json_plain_float_free j : json_plain j → float_free j.
Proof.
  unfold float_free. induction j as [| | | | |l IH|d IH] using json_ind'; try done.
  - rewrite json_plain_list, ok_strings_list. intros H. apply (Forall_mp _ _ _ _ IH H). auto.
  - rewrite json_plain_obj, ok_strings_obj. intros [_ H]. apply (Forall_mp _ _ _ _ IH H).
    intros [k v] Hv Hp. split; simpl in *; auto.
Qed.

(** A text that can be encoded is of a value that reads back. *)
Lemma json_plain_encodable j b :
  json_plain j → utf8_encode (json_dumps false true j) = Some b → json_wf j.
Proof.
  intros Hp Hb. apply json_wf_plain. split; [done|]. apply json_ok_unsort.
  apply print_encodable; [by apply json_plain_float_free, json_plain_sort|].
  apply utf8_encode_encodable. by exists b.
Qed.

(** A property of characters that the punctuation, the numerals and the quoted
    texts have is one of the whole text. *)
Section characters.
Context (P : Z → Prop) (q : str → str).
Hypothesis Hascii : ∀ c, 32 ≤ c < 127 → P c.
Hypothesis Hquote : ∀ s, okstr s → Forall P (q s).

Lemma chars_lit s : forallb (in_range 32 126) s = true → Forall P s.
Proof.
  intros Hs. apply Forall_forall. intros c Hc. rewrite forallb_forall in Hs.
  apply list_elem_of_In, Hs in Hc. unfold in_range in Hc. propify. apply Hascii. lia.
Qed.

Lemma chars_join l : Forall (Forall P) l → Forall P (join (u ",") l).
Proof.
  induction 1 as [|x l Hx Hl IH]; [constructor|]. destruct l as [|y l]; [done|].
  rewrite join_cons2. repeat (apply Forall_app; split); [done|by apply chars_lit|done].
Qed.

Lemma print_chars j : json_wf j → Forall P (json_print q j).
Proof.
  induction j as [|[]|z|f|s|l IH|d IH] using json_ind'; intros Hj; try done;
    try (by apply chars_lit); cbn [json_print].
  - eapply Forall_impl; [apply int_repr_numchars|]. unfold is_numchar. intros c Hc. simpl in Hc. apply Hascii. lia.
  - by apply Hquote.
  - apply json_wf_list in Hj. repeat (apply Forall_app; split; try by apply chars_lit).
    apply chars_join, Forall_map. by apply (Forall_mp _ _ _ _ IH Hj); auto.
  - apply json_wf_obj in Hj as [_ Hj]. repeat (apply Forall_app; split; try by apply chars_lit).
    apply chars_join, Forall_map. apply (Forall_mp _ _ _ _ IH Hj). intros [k v] Hv [Hk Hw].
    cbn [fst snd] in *. repeat (apply Forall_app; split); [by apply Hquote|by apply chars_lit|auto].
Qed.
End characters.
