(* ===== verification/PyJsonPretty.v ===== *)
(** * Indented JSON text reads back

    [json.loads] of [json.dumps(j, indent=2)], with and without the newline the
    runtime appends, and of the same text read from a file in text mode. *)

From S2P Require Import Prelude PyStr PyFloat PyJson PyJsonLoads.
From Stdlib Require Import ZArith Lia.

Open Scope Z_scope.

Section pretty.
Variable ea : bool.
Local Notation p := (json_pretty (quote ea)).
Local Notation print := (json_print (quote ea)).

Definition reads_pretty (j : json) : Prop :=
  ∀ d f r, json_wf j → ends r → (2 * length (p d j) ≤ f)%nat →
  parse_value f (p d j ++ r) = Some (j, r).

(** The indented text starts like the compact one. *)
Lemma pretty_head d j :
  json_wf j → ∃ c s, p d j = c :: s ∧ is_json_ws c = false ∧ c ≠ 93 ∧ c ≠ 125.
Proof.
  intros Hj. destruct (print_head_cases ea j Hj) as (c & s & E & Hc).
  assert (∃ t, p d j = c :: t) as [t Et]; [|eauto].
  destruct j as [| | | | |[|x l]|[|kv l]]; cbn [json_pretty] in *; eauto;
    cbn [json_print] in E; injection E as <- _; eauto.
Qed.

Lemma skip_ws_newline d s : skip_ws (newline d ++ s) = skip_ws s.
Proof.
  unfold newline. cbn [app skip_ws]. change (is_json_ws 10) with true. cbv iota.
  induction (2 * d)%nat as [|n IH]; cbn [replicate app skip_ws]; [done|].
  by change (is_json_ws 32) with true.
Qed.

Lemma skip_ws_pretty d j r : json_wf j → skip_ws (p d j ++ r) = p d j ++ r.
Proof.
  intros (c & s & -> & Hc & _)%(pretty_head d). cbn [skip_ws app]. by rewrite Hc.
Qed.

Lemma ends_newline d c s : ends (newline d ++ c :: s).
Proof. unfold newline. cbn. tauto. Qed.

Definition sep (d : nat) : str := u "," ++ newline d.

Lemma sep_cons d s : sep d ++ s = 44 :: newline d ++ s.
Proof. unfold sep. by rewrite <- app_assoc. Qed.

Lemma length_sep d : (2 ≤ length (sep d))%nat.
Proof. unfold sep. change (u ",") with [44]. cbn. lia. Qed.

Lemma pretty_items l d f r :
  l ≠ [] → Forall reads_pretty l → Forall json_wf l →
  (2 * length (join (sep d) (List.map (p d) l)) + 1 ≤ f)%nat → ∀ d',
  parse_items f (join (sep d) (List.map (p d) l) ++ newline d' ++ 93 :: r) = Some (l, r).
Proof.
  intros Hne Hl. revert f Hne. induction Hl as [|j l Hj Hl IH]; [done|].
  intros f _ [Hwj Hwl]%Forall_cons Hf d'. destruct f as [|f]; [lia|].
  cbn [parse_items]. destruct l as [|j' l].
  { cbn [List.map join] in *. rewrite Hj; [|done|apply ends_newline|lia].
    cbn [mbind option_bind]. rewrite skip_ws_newline, skip_ws_stop by done.
    done. }
  cbn [List.map] in *. rewrite join_cons2 in *. rewrite !length_app in Hf.
  rewrite <- !app_assoc, sep_cons. rewrite Hj; [|done|simpl; tauto|lia].
  cbn [mbind option_bind]. rewrite (skip_ws_stop 44), eat_same by done.
  rewrite skip_ws_newline.
  apply Forall_inv in Hwl as Hwj'. destruct (join_head (sep d) (p d j') (List.map (p d) l)) as [t Et].
  rewrite Et, <- app_assoc, skip_ws_pretty, app_assoc, <- Et by done.
  rewrite IH; [done..|]. pose proof (length_sep d). lia.
Qed.

Definition pretty_member (d : nat) (kv : str * json) : str :=
  quote ea kv.1 ++ u ": " ++ p d kv.2.

Lemma reads_pretty_member k j d f acc r :
  okstr k → json_wf j → reads_pretty j → ends r → (2 * length (p d j) ≤ f)%nat →
  k ∉ acc.*1 →
  parse_members (S f) acc (pretty_member d (k, j) ++ r) =
  match eat 44 (skip_ws r) with
  | Some r3 => parse_members f (acc ++ [(k, j)]) (skip_ws r3)
  | None => r3 ← eat 125 (skip_ws r); Some (acc ++ [(k, j)], r3)
  end.
Proof.
  intros Hk Hwj Hj Hr Hf Hacc. unfold pretty_member. cbn [fst snd].
  rewrite <- !app_assoc. cbn [parse_members].
  rewrite (quote_cons ea k) at 1. cbn [app]. rewrite eat_same.
  cbn [mbind option_bind]. rewrite parse_quote by done. cbn [mbind option_bind].
  change (u ": ") with [58; 32]. cbn [app]. rewrite (skip_ws_stop 58), eat_same by done.
  cbn [mbind option_bind skip_ws]. change (is_json_ws 32) with true. cbv iota.
  rewrite skip_ws_pretty, Hj by done.
  cbn [mbind option_bind]. by rewrite dict_set_new.
Qed.

Lemma skip_ws_pretty_members s d kv l r :
  skip_ws (join s (pretty_member d kv :: l) ++ r) = join s (pretty_member d kv :: l) ++ r.
Proof. by rewrite join_cons_tail. Qed.

Lemma pretty_members l d f acc r :
  l ≠ [] → Forall (λ kv, reads_pretty kv.2) l →
  Forall (λ kv : str * json, okstr kv.1 ∧ json_wf kv.2) l →
  NoDup (acc ++ l).*1 →
  (2 * length (join (sep d) (List.map (pretty_member d) l)) + 1 ≤ f)%nat → ∀ d',
  parse_members f acc (join (sep d) (List.map (pretty_member d) l) ++ newline d' ++ 125 :: r)
  = Some (acc ++ l, r).
Proof.
  intros Hne Hd. revert f acc Hne. induction Hd as [|[k j] l Hj Hd IH]; [done|].
  intros f acc _ [[Hk Hwj] Hwd]%Forall_cons Hnd Hf d'. destruct f as [|f]; [lia|].
  assert (k ∉ acc.*1) as Hacc.
  { rewrite fmap_app in Hnd. apply NoDup_app in Hnd as (_ & Hnd & _).
    intros Hin. apply (Hnd _ Hin). left. }
  simpl in Hk, Hwj, Hj. destruct l as [|kv' l].
  { cbn [List.map join] in *.
    assert (length (p d j) < length (pretty_member d (k, j)))%nat.
    { unfold pretty_member. rewrite !length_app. cbn. lia. }
    rewrite reads_pretty_member; [|done..|apply ends_newline|lia|done].
    rewrite skip_ws_newline, skip_ws_stop by done. done. }
  cbn [List.map] in *. rewrite join_cons2 in *. rewrite !length_app in Hf.
  assert (length (p d j) < length (pretty_member d (k, j)))%nat.
  { unfold pretty_member. rewrite !length_app. cbn. lia. }
  rewrite <- !app_assoc, sep_cons, reads_pretty_member; [|done..|simpl; tauto|lia|done].
  rewrite (skip_ws_stop 44), eat_same by done. rewrite skip_ws_newline, skip_ws_pretty_members.
  rewrite IH; [by rewrite <- app_assoc|done..|by rewrite <- app_assoc|].
  pose proof (length_sep d). lia.
Qed.

Lemma reads_pretty_value j : reads_pretty j.
Proof.
  induction j as [|b|z|x|s|l IH|l IH] using json_ind'; intros d f r Hwf Hr Hf;
    try (by apply reads_value).
  - destruct l as [|j l]; [by apply reads_value|]. apply json_wf_list in Hwf.
    cbn [json_pretty] in *. fold (sep (S d)) in *.
    rewrite !length_app in Hf. change (u "[") with [91] in *. change (u "]") with [93] in *.
    destruct f as [|f]; [cbn in Hf; lia|].
    rewrite <- !app_assoc, !singleton_app. cbn [parse_value].
    change (91 =? 34) with false. change (91 =? 91) with true. cbv iota.
    rewrite skip_ws_newline. cbn [List.map] in *.
    destruct (join_head (sep (S d)) (p (S d) j) (List.map (p (S d)) l)) as [t Et].
    apply Forall_inv in Hwf as Hwj.
    assert (∀ x, eat 93 (join (sep (S d)) (p (S d) j :: List.map (p (S d)) l) ++ x) = None) as He.
    { intros x. rewrite Et. destruct (pretty_head (S d) j Hwj) as (c & s & -> & _ & Hc & _).
      cbn [eat app]. by apply Z.eqb_neq in Hc as ->. }
    rewrite Et, <- app_assoc, skip_ws_pretty, app_assoc, <- Et, He by done.
    change (p (S d) j :: List.map (p (S d)) l) with (List.map (p (S d)) (j :: l)).
    rewrite pretty_items; [done..|]. cbn [length List.map] in *. lia.
  - destruct l as [|kv l]; [by apply reads_value|]. apply json_wf_obj in Hwf as [Hnd Hwf].
    cbn [json_pretty] in *. fold (sep (S d)) in *. fold (pretty_member (S d)) in *.
    rewrite !length_app in Hf. change (u "{") with [123] in *. change (u "}") with [125] in *.
    destruct f as [|f]; [cbn in Hf; lia|].
    rewrite <- !app_assoc, !singleton_app. cbn [parse_value].
    change (123 =? 34) with false. change (123 =? 91) with false.
    change (123 =? 123) with true. cbv iota. rewrite skip_ws_newline.
    change (List.map _ (kv :: l)) with (List.map (pretty_member (S d)) (kv :: l)) in *.
    cbn [List.map] in *. rewrite skip_ws_pretty_members.
    assert (∀ x, eat 125 (join (sep (S d)) (pretty_member (S d) kv ::
      List.map (pretty_member (S d)) l) ++ x) = None) as ->
      by (intros; by rewrite join_cons_tail).
    change (pretty_member (S d) kv :: List.map (pretty_member (S d)) l)
      with (List.map (pretty_member (S d)) (kv :: l)).
    rewrite pretty_members; [done..|]. cbn [length List.map] in *. lia.
Qed.

(** The text and the newline behind it. *)
Lemma json_loads_pretty j :
  json_wf j → json_loads (p 0 j ++ [10]) = Some j.
Proof.
  intros Hj. unfold json_loads. rewrite skip_ws_pretty by done.
  rewrite reads_pretty_value; [done|done|cbn; tauto|].
  unfold json_fuel. rewrite length_app. lia.
Qed.
End pretty.

(** ** Text that can be encoded *)

(** Distinct keys and no floats: the part of [json_wf] that does not depend on
    the texts. *)
Fixpoint json_shape (j : json) : Prop :=
  match j with
  | JFloat _ => False
  | JList l => foldr and True (List.map json_shape l)
  | JObj d => NoDup d.*1 ∧ foldr and True (List.map (λ kv, json_shape kv.2) d)
  | _ => True
  end.

Lemma foldr_and_Forall {A} (P : A → Prop) l : foldr and True (List.map P l) ↔ Forall P l.
Proof. induction l; simpl; rewrite ?Forall_cons; naive_solver. Qed.

(** A value whose indented text can be written to a UTF-8 file reads back. *)
Lemma encodable_pretty d j :
  json_shape j → encodable (json_pretty (quote false) d j) = true → json_wf j.
Proof.
  revert d. induction j as [|[]|z|f|s|l IH|l IH] using json_ind'; intros d Hj He; try done.
  - by apply encodable_quote.
  - apply foldr_and_Forall in Hj. apply json_wf_list.
    destruct l as [|j l]; [constructor|]. cbn [json_pretty] in He.
    rewrite !encodable_app, !andb_true_iff in He. destruct He as (_ & _ & He & _).
    apply encodable_join, List.Forall_map in He.
    apply (Forall_mp _ _ _ _ (Forall_mp _ _ _ _ IH Hj (λ _ p q, conj p q)) He).
    intros x [Hx Hs] Hex. eauto.
  - destruct Hj as [Hnd Hj%foldr_and_Forall]. apply json_wf_obj. split; [done|].
    destruct l as [|kv l]; [constructor|]. cbn [json_pretty] in He.
    rewrite !encodable_app, !andb_true_iff in He. destruct He as (_ & _ & He & _).
    apply encodable_join, List.Forall_map in He.
    apply (Forall_mp _ _ _ _ (Forall_mp _ _ _ _ IH Hj (λ _ p q, conj p q)) He).
    intros [k v] [Hx Hs] Hex. cbn [fst snd] in *.
    rewrite !encodable_app, !andb_true_iff in Hex. destruct Hex as (Hk & _ & Hv).
    split; [by apply encodable_quote|eauto].
Qed.

(** ** No carriage return is printed *)

Definition no_cr (s : str) : Prop := Forall (λ c, c ≠ 13) s.

Lemma no_cr_app a b : no_cr a → no_cr b → no_cr (a ++ b).
Proof. intros. by apply Forall_app. Qed.

Lemma no_cr_lit s : bool_decide (13 ∉ s) = true → no_cr s.
Proof. intros Hs%bool_decide_eq_true. apply Forall_forall. intros c Hc ->. done. Qed.

Lemma no_cr_newline d : no_cr (newline d).
Proof. constructor; [done|]. by apply Forall_replicate. Qed.

Lemma no_cr_join s l : no_cr s → Forall no_cr l → no_cr (join s l).
Proof.
  intros Hs Hl. induction Hl as [|x l Hx Hl IH]; [constructor|].
  destruct l as [|y l]; [done|]. rewrite join_cons2. auto using no_cr_app.
Qed.

Lemma no_cr_hex n : 0 ≤ n < 16 → hex_digit n ≠ 13.
Proof. intros. unfold hex_digit. destruct (Z.ltb_spec n 10); lia. Qed.

Lemma no_cr_escape c : no_cr (escape_char c).
Proof.
  unfold escape_char. repeat case_match; try (by apply no_cr_lit); propify.
  - unfold u_escape. repeat constructor; try done; apply no_cr_hex; divlia.
  - constructor; [lia|constructor].
Qed.

Lemma no_cr_quote s : no_cr (quote false s).
Proof.
  unfold quote. constructor; [done|]. apply no_cr_app; [|by apply no_cr_lit].
  induction s as [|c s IH]; csimpl; [constructor|]. apply no_cr_app; [apply no_cr_escape|done].
Qed.

Lemma no_cr_pretty d j : json_wf j → no_cr (json_pretty (quote false) d j).
Proof.
  revert d. induction j as [|[]|z|f|s|l IH|l IH] using json_ind'; intros d Hj;
    try (by apply no_cr_lit); [..|].
  - eapply Forall_impl; [apply int_repr_numchars|]. unfold is_numchar. simpl. lia.
  - apply no_cr_quote.
  - destruct l as [|j l]; [by apply no_cr_lit|]. apply json_wf_list in Hj.
    cbn [json_pretty]. repeat apply no_cr_app;
      first [by apply no_cr_lit|apply no_cr_newline|apply no_cr_join].
    + apply no_cr_app; [by apply no_cr_lit|apply no_cr_newline].
    + apply List.Forall_map. apply (Forall_mp _ _ _ _ IH Hj). auto.
  - destruct l as [|kv l]; [by apply no_cr_lit|]. apply json_wf_obj in Hj as [_ Hj].
    cbn [json_pretty]. repeat apply no_cr_app;
      first [by apply no_cr_lit|apply no_cr_newline|apply no_cr_join].
    + apply no_cr_app; [by apply no_cr_lit|apply no_cr_newline].
    + apply List.Forall_map. apply (Forall_mp _ _ _ _ IH Hj). intros [k v] Hv [Hk Hw].
      cbn [fst snd] in *. apply no_cr_app; [apply no_cr_quote|].
      apply no_cr_app; [by apply no_cr_lit|auto].
Qed.
