(* ===== verification/PyDyn.v ===== *)
(** * Operations on parsed JSON values

    What Python does with a value that came out of [json.load]: subscripts,
    membership, iteration, length, truth and [==].  A failing operation raises
    one of the standard library's exceptions; none of the code modelled here
    tells them apart, so they are one value, [Uncaught]. *)

From S2P Require Import Prelude PyStr PyFloat PyJson PyRepr.
From Stdlib Require Import ZArith Lia SpecFloat.

Open Scope Z_scope.

(** [KeyError], [TypeError], [AttributeError], [IndexError], ... *)
Inductive exn : Type := Uncaught.

Notation dict := (list (str * json)).

(** ** Equality *)

(** A finite float that is this integer. *)
Definition float_is (f : float) (z : Z) : bool :=
  match f with
  | S754_zero _ => z =? 0
  | S754_finite s m e =>
      let m := if s then Z.neg m else Z.pos m in
      if 0 <=? e then m * 2 ^ e =? z else m =? z * 2 ^ (- e)
  | _ => false
  end.

Definition int_of_bool (b : bool) : Z := if b then 1 else 0.

(** Numbers of all three kinds compare by value. *)
Definition scalar_eq (a b : json) : bool :=
  match a, b with
  | JNull, JNull => true
  | JStr s, JStr t => str_eqb s t
  | (JBool _ | JInt _ | JFloat _), (JBool _ | JInt _ | JFloat _) =>
      match a, b with
      | JFloat f, JFloat g => SFeqb f g
      | JFloat f, JInt z | JInt z, JFloat f => float_is f z
      | JFloat f, JBool c | JBool c, JFloat f => float_is f (int_of_bool c)
      | JInt y, JInt z => y =? z
      | JInt y, JBool c | JBool c, JInt y => y =? int_of_bool c
      | JBool b, JBool c => Bool.eqb b c
      | _, _ => false
      end
  | _, _ => false
  end.

(** Inside containers, objects are first compared by identity: the parser has
    one NaN. *)
Definition both_nan (a b : json) : bool :=
  match a, b with JFloat S754_nan, JFloat S754_nan => true | _, _ => false end.

Fixpoint py_eq (a b : json) : bool :=
  match a, b with
  | JList l, JList k =>
      (fix go l k :=
         match l, k with
         | [], [] => true
         | x :: l, y :: k => (both_nan x y || py_eq x y) && go l k
         | _, _ => false
         end) l k
  | JObj d, JObj e =>
      Nat.eqb (length d) (length e) &&
      forallb (λ kv, match dict_get e kv.1 with
                     | Some v => both_nan kv.2 v || py_eq kv.2 v
                     | None => false
                     end) d
  | _, _ => scalar_eq a b
  end.

Definition item_eq (a b : json) : bool := both_nan a b || py_eq a b.

(** ** Access *)

(** [j[k]] for a text [k]. *)
Definition getitem (j : json) (k : str) : result exn json :=
  match j with JObj d => of_option Uncaught (dict_get d k) | _ => Err Uncaught end.

(** [j[i]] for an index from 0. *)
Definition getindex (j : json) (i : nat) : result exn json :=
  match j with
  | JList l => of_option Uncaught (l !! i)
  | JStr s => c ← of_option Uncaught (s !! i); Ok (JStr [c])
  | _ => Err Uncaught
  end.

(** [j.get(k)] and [j.get(k, default)] *)
Definition get_or (j : json) (k : str) (default_ : json) : result exn json :=
  match j with JObj d => Ok (default default_ (dict_get d k)) | _ => Err Uncaught end.
Definition get (j : json) (k : str) : result exn json := get_or j k JNull.

Definition py_len (j : json) : result exn nat :=
  match j with
  | JList l => Ok (length l)
  | JStr s => Ok (length s)
  | JObj d => Ok (length d)
  | _ => Err Uncaught
  end.

(** [for x in j] *)
Definition py_iter (j : json) : result exn (list json) :=
  match j with
  | JList l => Ok l
  | JStr s => Ok ((λ c, JStr [c]) <$> s)
  | JObj d => Ok ((λ kv, JStr kv.1) <$> d)
  | _ => Err Uncaught
  end.

(** [k in s] for two texts *)
Fixpoint substring (k s : str) : bool :=
  startswith s k || match s with [] => false | _ :: s' => substring k s' end.

(** [k in j] for a text [k] *)
Definition py_in (k : str) (j : json) : result exn bool :=
  match j with
  | JObj d => Ok (match dict_get d k with Some _ => true | None => false end)
  | JList l => Ok (existsb (λ x, py_eq x (JStr k)) l)
  | JStr s => Ok (substring k s)
  | _ => Err Uncaught
  end.

Definition truthy (j : json) : bool :=
  match j with
  | JNull => false
  | JBool b => b
  | JInt z => negb (z =? 0)
  | JFloat f => negb (is_zero f)
  | JStr s => negb (str_empty s)
  | JList l => match l with [] => false | _ => true end
  | JObj d => match d with [] => false | _ => true end
  end.

(** A key of a set or dictionary. *)
Definition hashable (j : json) : bool :=
  match j with JList _ | JObj _ => false | _ => true end.

Definition is_int (j : json) : option Z :=
  match j with
  | JInt z => Some z
  | JBool b => Some (int_of_bool b)      (* [bool] is a subclass of [int] *)
  | _ => None
  end.

(** ** [int] *)

(** The integer of a finite float, towards zero. *)
Definition float_trunc (f : float) : option Z :=
  match f with
  | S754_zero _ => Some 0
  | S754_finite s m e =>
      let z := if 0 <=? e then Z.pos m * 2 ^ e else Z.pos m / 2 ^ (- e) in
      Some (if s then - z else z)
  | _ => None
  end.

(** [int(x)] *)
Definition py_int (j : json) : option Z :=
  match j with
  | JInt z => Some z
  | JBool b => Some (int_of_bool b)
  | JFloat f => float_trunc f
  | JStr s => int_of_text s
  | _ => None
  end.

(** ** Facts *)

Lemma py_eq_str s j : py_eq (JStr s) j = true ↔ j = JStr s.
Proof.
  destruct j; cbn; try (by split). unfold str_eqb. rewrite bool_decide_eq_true. naive_solver.
Qed.

Lemma py_eq_str_r s j : py_eq j (JStr s) = true ↔ j = JStr s.
Proof.
  destruct j; cbn; try (by split). unfold str_eqb. rewrite bool_decide_eq_true. naive_solver.
Qed.

(** Lists of texts, and lists of such lists, are equal only to themselves. *)
Lemma py_eq_list (P : json → Prop) l j :
  (∀ x y, P x → item_eq x y = true ↔ y = x) → Forall P l →
  py_eq (JList l) j = true ↔ j = JList l.
Proof.
  intros HP Hl. destruct j as [| | | | |k|]; try (by split).
  assert (py_eq (JList l) (JList k) = true ↔ k = l) as ->; [|naive_solver].
  revert k. induction Hl as [|x l Hx _ IH]; intros [|y k]; try (by split).
  change (item_eq x y && py_eq (JList l) (JList k) = true ↔ y :: k = x :: l).
  rewrite andb_true_iff, HP, IH by done. naive_solver.
Qed.

Lemma item_eq_str s j : item_eq (JStr s) j = true ↔ j = JStr s.
Proof. unfold item_eq. by rewrite <- py_eq_str. Qed.

Lemma item_eq_texts (l : list str) j :
  item_eq (JList (JStr <$> l)) j = true ↔ j = JList (JStr <$> l).
Proof.
  change (py_eq (JList (JStr <$> l)) j = true ↔ j = JList (JStr <$> l)).
  apply (py_eq_list (λ x, ∃ s, x = JStr s)).
  - intros x y [s ->]. apply item_eq_str.
  - apply Forall_fmap, Forall_true. eauto.
Qed.

Lemma py_eq_int z j : py_eq (JInt z) j = true ↔
  j = JInt z ∨ (∃ b, j = JBool b ∧ int_of_bool b = z) ∨ (∃ f, j = JFloat f ∧ float_is f z = true).
Proof.
  destruct j; cbn; try (split; [done|by intros [?|[(? & ? & _)|(? & ? & _)]]]).
  - rewrite Z.eqb_eq. naive_solver.
  - rewrite Z.eqb_eq. naive_solver.
  - naive_solver.
Qed.
