(* ===== verification/PyEqual.v ===== *)
(** * Equality of parsed JSON values

    [py_norm] is a normal form of the values [json_wf] describes: Booleans as
    the integers they equal, members in the order of their keys.  Two such
    values are equal in Python exactly when their normal forms are the same, so
    [==] is an equivalence on them and sorting the members changes nothing. *)

From S2P Require Import Prelude PyStr PyJson PyJsonLoads PyDyn.
From Stdlib Require Import ZArith Lia.

Open Scope Z_scope.

Fixpoint py_norm (j : json) : json :=
  match j with
  | JBool b => JInt (int_of_bool b)
  | JList l => JList (List.map py_norm l)
  | JObj d => JObj (py_sorted key_leb (List.map (λ kv, (kv.1, py_norm kv.2)) d))
  | _ => j
  end.

Section members.
Implicit Types d : list (str * json).

Lemma map_values_keys (f : json → json) d : (List.map (λ kv, (kv.1, f kv.2)) d).*1 = d.*1.
Proof. by rewrite <- (list_fmap_compose _ fst). Qed.

Lemma elem_map_values (f : json → json) d k v :
  (k, v) ∈ List.map (λ kv, (kv.1, f kv.2)) d ↔ ∃ w, (k, w) ∈ d ∧ v = f w.
Proof.
  rewrite list_elem_of_fmap. split.
  - intros ([k' w] & [= -> ->] & Hin). eauto.
  - intros (w & Hin & ->). by exists (k, w).
Qed.

(** Objects with distinct keys are sorted alike exactly when they have the same
    members. *)
Lemma sort_same_members d e :
  NoDup d.*1 → NoDup e.*1 → py_sorted key_leb d = py_sorted key_leb e ↔ d ≡ₚ e.
Proof.
  intros Hd He. split.
  - intros E. by rewrite <- (py_sorted_perm key_leb d), E, py_sorted_perm.
  - intros Hp. apply (sorted_perm_unique (λ x y, key_leb x y = true)).
    + intros [k v] [k' w]. rewrite !elem_of_py_sorted. intros Hx Hy H1 H2.
      assert (k = k') as <- by (by apply (leb_antisym (leb:=str_leb))).
      apply (dict_get_NoDup _ _ _ Hd) in Hx, Hy. congruence.
    + apply py_sorted_sorted, _.
    + apply py_sorted_sorted, _.
    + by rewrite !py_sorted_perm.
Qed.

Lemma same_members d e :
  NoDup d.*1 → NoDup e.*1 →
  d ≡ₚ e ↔ length d = length e ∧ ∀ k v, (k, v) ∈ d → (k, v) ∈ e.
Proof.
  intros Hd He. split.
  - intros Hp. split; [by apply Permutation_length|]. intros k v. by rewrite Hp.
  - intros [Hl Hin]. apply submseteq_length_Permutation; [|lia].
    apply NoDup_submseteq; [by apply (NoDup_fmap_1 fst)|]. intros [k v]. apply Hin.
Qed.
Lemma dict_get_sorted_by (leb : str * json → str * json → bool) (f : json → json) d k :
  NoDup d.*1 →
  dict_get (py_sorted leb ((λ kv, (kv.1, f kv.2)) <$> d)) k = f <$> dict_get d k.
Proof.
  intros Hd. rewrite (dict_get_perm _ ((λ kv, (kv.1, f kv.2)) <$> d)).
  - clear Hd. induction d as [|[k0 v0] d IH]; csimpl; [done|]. by case_decide.
  - by rewrite py_sorted_perm, <- list_fmap_compose.
  - apply py_sorted_perm.
Qed.

Lemma dict_get_sorted d k :
  NoDup d.*1 →
  dict_get (py_sorted key_leb ((λ kv, (kv.1, json_sort kv.2)) <$> d)) k =
  json_sort <$> dict_get d k.
Proof. apply dict_get_sorted_by. Qed.

Lemma sorted_objects d e k :
  NoDup d.*1 → NoDup e.*1 → json_sort (JObj d) = json_sort (JObj e) →
  json_sort <$> dict_get d k = json_sort <$> dict_get e k.
Proof.
  intros Hd He [= E]. rewrite <- (dict_get_sorted d), <- (dict_get_sorted e) by done.
  apply (f_equal (λ l, dict_get l k)) in E. exact E.
Qed.
Lemma sorted_objects_field d e k v w :
  NoDup d.*1 → NoDup e.*1 → dict_get d k = Some v → dict_get e k = Some w →
  json_sort (JObj d) = json_sort (JObj e) → json_sort v = json_sort w.
Proof. intros Hd He Ev Ew E%(sorted_objects _ _ k); [|done..]. rewrite Ev, Ew in E. by injection E. Qed.
End members.

Lemma JStr_inj s t : json_sort (JStr s) = json_sort (JStr t) → s = t.
Proof. by intros [= ->]. Qed.

(** Equal objects have equal members. *)
Ltac member k E1 F :=
  match type of E1 with
  | json_sort (JObj ?d) = json_sort (JObj ?e) =>
      pose proof (sorted_objects_field d e (u k) _ _
        ltac:(apply (bool_decide_unpack _); by vm_compute)
        ltac:(apply (bool_decide_unpack _); by vm_compute) eq_refl eq_refl E1) as F
  end.

Section equality.

Lemma not_nan a b : json_wf a → both_nan a b = false.
Proof. by destruct a. Qed.

(** Member by member. *)
Lemma py_eq_obj d e :
  json_wf (JObj d) →
  py_eq (JObj d) (JObj e) = true ↔
  length d = length e ∧ ∀ k v, (k, v) ∈ d → ∃ w, dict_get e k = Some w ∧ py_eq v w = true.
Proof.
  intros [_ Hd]%json_wf_obj. rewrite Forall_forall in Hd. cbn [py_eq].
  rewrite andb_true_iff, Nat.eqb_eq, forallb_forall. apply and_iff_compat_l. split.
  - intros Hall k v Hin. pose proof (proj2 (Hd _ Hin)) as Hv. cbn [snd] in Hv.
    apply list_elem_of_In, Hall in Hin. cbn [fst snd] in Hin.
    destruct (dict_get e k) as [w|]; [|done]. rewrite not_nan in Hin by done. eauto.
  - intros Hall [k v] Hin%list_elem_of_In. cbn [fst snd].
    destruct (Hall _ _ Hin) as (w & -> & ->). apply orb_true_r.
Qed.

Lemma py_eq_items l k :
  json_wf (JList l) →
  py_eq (JList l) (JList k) = true ↔ Forall2 (λ x y, py_eq x y = true) l k.
Proof.
  rewrite json_wf_list. intros Hl. revert k. induction Hl as [|x l Hx _ IH]; intros [|y k].
  - by split.
  - by split; [|intros ?%Forall2_nil_cons_inv].
  - by split; [|intros ?%Forall2_cons_nil_inv].
  - change (((both_nan x y || py_eq x y) && py_eq (JList l) (JList k)) = true ↔
            Forall2 (λ x y, py_eq x y = true) (x :: l) (y :: k)).
    by rewrite not_nan, orb_false_l, andb_true_iff, IH, Forall2_cons.
Qed.

Lemma py_eq_norm a b :
  json_wf a → json_wf b → py_eq a b = true ↔ py_norm a = py_norm b.
Proof.
  revert b. induction a as [|x|x|x|x|l IH|d IH] using json_ind'; intros b Ha Hb.
  - by destruct b.
  - destruct b as [|y|y| | | |]; cbn; try done; try by split.
    + destruct x, y; cbn; by split.
    + rewrite Z.eqb_eq. split; [by intros ->|]. intros [= ->]. done.
  - destruct b as [|y|y| | | |]; cbn; try done; try by split.
    + rewrite Z.eqb_eq. split; [by intros ->|]. by intros [= ->].
    + rewrite Z.eqb_eq. split; [by intros ->|]. by intros [= ->].
  - done.
  - rewrite py_eq_str. destruct b; cbn; naive_solver.
  - destruct b as [| | | | |k|]; try done. rewrite py_eq_items by done.
    apply json_wf_list in Ha, Hb. cbn [py_norm].
    assert (Forall2 (λ x y, py_eq x y = true) l k ↔ List.map py_norm l = List.map py_norm k) as ->;
      [|split; [by intros ->|by intros [=]]].
    revert k Hb. induction IH as [|x l Hx _ IHl]; intros k Hb.
    + split; [by intros ->%Forall2_nil_inv_l|]. by destruct k.
    + apply Forall_cons in Ha as [Hwx Ha]. destruct k as [|y k]; [by split; [intros ?%Forall2_cons_nil_inv|]|].
      apply Forall_cons in Hb as [Hy Hb]. rewrite Forall2_cons, Hx, IHl by done. cbn.
      split; [by intros [-> ->]|]. by intros [= -> ->].
  - destruct b as [| | | | | |e]; try done. rewrite py_eq_obj by done.
    apply json_wf_obj in Ha as [Hnd Ha], Hb as [Hne Hb]. cbn [py_norm].
    rewrite Forall_forall in IH, Ha, Hb.
    assert (∀ k v w, (k, v) ∈ d → dict_get e k = Some w →
              py_eq v w = true ↔ py_norm v = py_norm w) as Hvw.
    { intros k v w Hin Hw%dict_get_Some_elem. apply (IH (k, v)); [done|by apply (Ha (k, v))|by apply (Hb (k, w))]. }
    transitivity (py_sorted key_leb (List.map (λ kv, (kv.1, py_norm kv.2)) d) =
                  py_sorted key_leb (List.map (λ kv, (kv.1, py_norm kv.2)) e));
      [|split; [by intros ->|by intros [=]]].
    rewrite sort_same_members, same_members, !length_map by (by rewrite map_values_keys).
    apply and_iff_compat_l. split.
    + intros Hall k v' (v & Hin & ->)%elem_map_values. apply elem_map_values.
      destruct (Hall _ _ Hin) as (w & Hw & E). exists w.
      split; [by apply dict_get_Some_elem|]. by eapply Hvw.
    + intros Hall k v Hin. destruct (proj1 (elem_map_values py_norm e k (py_norm v))) as (w & Hw & E).
      { apply Hall, elem_map_values. eauto. }
      apply (dict_get_NoDup _ _ _ Hne) in Hw. exists w. split; [done|]. by eapply Hvw.
Qed.

Lemma item_eq_norm a b :
  json_wf a → json_wf b → item_eq a b = true ↔ py_norm a = py_norm b.
Proof. intros Ha Hb. unfold item_eq. rewrite not_nan by done. by apply py_eq_norm. Qed.

Lemma py_norm_sort j : json_wf j → py_norm (json_sort j) = py_norm j.
Proof.
  induction j as [| | | | |l IH|d IH] using json_ind'; try done; cbn [json_sort py_norm].
  - rewrite json_wf_list. intros Hl. f_equal. rewrite List.map_map.
    apply List.map_ext_Forall. apply (Forall_mp _ _ _ _ IH Hl). auto.
  - rewrite json_wf_obj. intros [Hnd Hd]. f_equal.
    apply sort_same_members; [by rewrite map_values_keys, py_sorted_perm, map_values_keys|by rewrite map_values_keys|].
    rewrite py_sorted_perm, List.map_map.
    erewrite List.map_ext_Forall; [done|]. apply (Forall_mp _ _ _ _ IH Hd).
    intros [k v] Hv [_ Hw]. cbn in *. by rewrite Hv.
Qed.
End equality.
