(* ===== verification/Merkle.v ===== *)
(** * The hourly Merkle tree ([wat/merkle/aggregator.py])

    [Module Aggregator] translates the file function by function: the leaf
    hash over the canonicalised four-field tuple, the inner hash, the
    Bitcoin-pattern tree with its level list, the inclusion proof and its
    verification.  Exceptions are the constructors of [merkle_error].

    The theorems relate the loops to the inductive relation [tower] (the
    levels of a tree, one [level_up] above the other): the build terminates
    and yields a tower, every leaf's proof verifies, a proof that verifies is
    about a leaf of the tree, and the root binds the leaves.  Soundness and
    binding are reductions: the conclusion holds or two of the messages hashed
    for the tree and along the proof collide ([collision_in]), so no assumption
    on the hash is made. *)

From S2P Require Import Prelude PyStr Sha256 PyJson.
From Stdlib Require Import ZArith Lia.

Open Scope Z_scope.

(** [rfc8785.dumps], when the package is importable ([_HAS_RFC8785]).  The
    source relies on it only for objects of strings, where it is documented to
    produce RFC 8785 text, which for ASCII member names is the sorted compact
    text of the standard library. *)
Class Rfc8785 := { rfc8785_dumps : option (json → option bytes) }.

Definition string_object (j : json) : Prop :=
  ∃ d, j = JObj d ∧
    Forall (λ kv : str * json, Forall (λ c, 0 ≤ c < 128) kv.1 ∧ ∃ s, kv.2 = JStr s) d.

Class Rfc8785Conforms `{Rfc8785} : Prop :=
  rfc8785_conforms f j :
    rfc8785_dumps = Some f → string_object j →
    f j = utf8_encode (json_dumps false true j).

Inductive merkle_error : Type :=
| EncodeError               (* UnicodeEncodeError of str.encode *)
| InnerInputLength          (* ValueError: inner inputs must be 32 bytes *)
| NoLeaves                  (* ValueError: zero leaves *)
| LeafLength (idx len : nat) (* ValueError: leaf idx is len bytes *)
| LeafIndexRange            (* IndexError: leaf_index out of range *)
| ListIndex                 (* IndexError of a list subscript *)
| OutOfFuel.                (* the model's bound on the while loop *)

#[export] Instance merkle_error_eq_dec : EqDecision merkle_error.
Proof. solve_decision. Defined.

Module Aggregator.
Section aggregator.
Context `{Sha256, Rfc8785}.

Definition DIR_LEFT : str := u "L".
Definition DIR_RIGHT : str := u "R".

Definition _canonicalise (obj : json) : result merkle_error bytes :=
  of_option EncodeError
    match rfc8785_dumps with
    | Some dumps => dumps obj
    | None => utf8_encode (json_dumps false true obj)
    end.

Definition tuple_obj (event_id time payload_hash capability_token_hash : str)
    : json :=
  JObj [(u "event_id", JStr event_id);
        (u "time", JStr time);
        (u "payload_hash", JStr payload_hash);
        (u "capability_token_hash", JStr capability_token_hash)].

Definition compute_leaf_hash
    (event_id time payload_hash capability_token_hash : str)
    : result merkle_error bytes :=
  canonical ← _canonicalise
    (tuple_obj event_id time payload_hash capability_token_hash);
  Ok (sha256 canonical).

Definition compute_inner_hash (left right : bytes) : result merkle_error bytes :=
  raise_if (negb (Nat.eqb (length left) 32) || negb (Nat.eqb (length right) 32))
    InnerInputLength;;
  Ok (sha256 (left ++ right)).

(** The length check of the leaves, in order. *)
Fixpoint check_leaves (idx : nat) (leaves : list bytes)
    : result merkle_error unit :=
  match leaves with
  | [] => Ok ()
  | leaf :: leaves' =>
      raise_if (negb (Nat.eqb (length leaf) 32)) (LeafLength idx (length leaf));;
      check_leaves (S idx) leaves'
  end.

(** [current + [current[-1]]] on an odd level. *)
Definition pad_level (current : list bytes) : list bytes :=
  if Nat.odd (length current) then
    match last current with
    | Some x => current ++ [x]
    | None => current
    end
  else current.

(** [for i in range(0, len(current), 2)]: hash the pairs. *)
Fixpoint hash_pairs (current : list bytes) : result merkle_error (list bytes) :=
  match current with
  | [] => Ok []
  | [_] => Err ListIndex
  | l :: r :: rest =>
      h ← compute_inner_hash l r;
      nxt ← hash_pairs rest;
      Ok (h :: nxt)
  end.

(** [levels[-1] = current] *)
Definition set_last (levels : list (list bytes)) (current : list bytes)
    : list (list bytes) :=
  match levels with [] => [] | _ => removelast levels ++ [current] end.

(** [while len(current) > 1] *)
Fixpoint build_loop (fuel : nat) (levels : list (list bytes))
    (current : list bytes)
    : result merkle_error (list bytes * list (list bytes)) :=
  if Nat.ltb 1 (length current) then
    match fuel with
    | O => Err OutOfFuel
    | S fuel' =>
        let current := pad_level current in
        nxt ← hash_pairs current;
        build_loop fuel' (set_last levels current ++ [nxt]) nxt
    end
  else Ok (current, levels).

Definition build_merkle_tree (leaves : list bytes)
    : result merkle_error (bytes * list (list bytes)) :=
  raise_if (Nat.eqb (length leaves) 0) NoLeaves;;
  check_leaves 0 leaves;;
  '(current, levels) ← build_loop (length leaves) [leaves] leaves;
  root ← of_option ListIndex (head current);
  Ok (root, levels).

(** [for level in levels[:-1]] of [merkle_proof]. *)
Fixpoint proof_loop (levels : list (list bytes)) (idx : Z)
    : result merkle_error (list (bytes * str)) :=
  match levels with
  | [] => Ok []
  | level :: levels' =>
      let sibling_idx :=
        if Z.lxor idx 1 <? Z.of_nat (length level) then Z.lxor idx 1 else idx in
      sibling ← of_option ListIndex (level !! Z.to_nat sibling_idx);
      let direction := if sibling_idx <? idx then DIR_LEFT else DIR_RIGHT in
      rest ← proof_loop levels' (idx / 2);
      Ok ((sibling, direction) :: rest)
  end.

Definition merkle_proof (leaves : list bytes) (leaf_index : Z)
    : result merkle_error (list (bytes * str)) :=
  raise_if ((leaf_index <? 0) || (Z.of_nat (length leaves) <=? leaf_index))
    LeafIndexRange;;
  '(_, levels) ← build_merkle_tree leaves;
  proof_loop (removelast levels) leaf_index.

(** [for sibling, direction in proof]: [None] is an early [return False]. *)
Fixpoint verify_loop (current : bytes) (proof : list (bytes * str))
    : result merkle_error (option bytes) :=
  match proof with
  | [] => Ok (Some current)
  | (sibling, direction) :: proof' =>
      if negb (Nat.eqb (length sibling) 32) then Ok None
      else if str_eqb direction DIR_LEFT then
        current ← compute_inner_hash sibling current;
        verify_loop current proof'
      else if str_eqb direction DIR_RIGHT then
        current ← compute_inner_hash current sibling;
        verify_loop current proof'
      else Ok None
  end.

Definition verify_merkle_proof (leaf_hash : bytes) (proof : list (bytes * str))
    (root : bytes) : result merkle_error bool :=
  if negb (Nat.eqb (length leaf_hash) 32) || negb (Nat.eqb (length root) 32)
  then Ok false
  else
    current ← verify_loop leaf_hash proof;
    Ok match current with
       | Some current => bool_decide (current = root)
       | None => false
       end.

Definition leaf_hash (canonical_bytes : bytes) : bytes := sha256 canonical_bytes.

Definition root_hash (leaves : list bytes) : result merkle_error bytes :=
  '(root, _levels) ← build_merkle_tree leaves;
  Ok root.
End aggregator.
End Aggregator.

(** ** The specification: towers of levels *)

Section spec.
Context `{Sha256}.

Definition node (a b : bytes) : bytes := sha256 (a ++ b).

Fixpoint pair_nodes (l : list bytes) : list bytes :=
  match l with
  | a :: b :: l' => node a b :: pair_nodes l'
  | _ => []
  end.

Definition level_up (l : list bytes) : list bytes :=
  pair_nodes (Aggregator.pad_level l).

(** [tower cur levels root]: building from the level [cur] records [levels]
    (each but the last padded to even length) and ends in [root]. *)
Inductive tower : list bytes → list (list bytes) → bytes → Prop :=
| tower_root r : tower [r] [[r]] r
| tower_level cur levels r :
    (1 < length cur)%nat → tower (level_up cur) levels r →
    tower cur (Aggregator.pad_level cur :: levels) r.

(** Following a proof upwards from a hash. *)
Definition climb_step (cur : bytes) (step : bytes * str) : bytes :=
  if str_eqb step.2 Aggregator.DIR_LEFT then node step.1 cur else node cur step.1.
Definition climb (cur : bytes) (proof : list (bytes * str)) : bytes :=
  foldl climb_step cur proof.

Definition is_hash (h : bytes) : Prop := length h = 32%nat.

(** The messages hashed on a level, in a tree and along a proof. *)
Fixpoint pair_messages (l : list bytes) : list bytes :=
  match l with
  | a :: b :: l' => (a ++ b) :: pair_messages l'
  | _ => []
  end.
Definition level_messages (levels : list (list bytes)) : list bytes :=
  levels ≫= pair_messages.
Definition step_message (cur : bytes) (step : bytes * str) : bytes :=
  if str_eqb step.2 Aggregator.DIR_LEFT then step.1 ++ cur else cur ++ step.1.
Fixpoint proof_messages (cur : bytes) (proof : list (bytes * str)) : list bytes :=
  match proof with
  | [] => []
  | step :: proof => step_message cur step :: proof_messages (climb_step cur step) proof
  end.

(** The hash of one of the 64-byte messages [ms]. *)
Definition inner_of (ms : list bytes) (h : bytes) : Prop :=
  ∃ m, m ∈ ms ∧ length m = 64%nat ∧ h = sha256 m.
End spec.

(** ** Levels *)

Section levels.
Context `{Sha256, Rfc8785}.
Import Aggregator.

Lemma node_hash a b : is_hash (node a b).
Proof. apply sha256_length. Qed.

Lemma compute_inner_hash_ok a b :
  is_hash a → is_hash b → compute_inner_hash a b = Ok (node a b).
Proof. unfold is_hash, compute_inner_hash. by intros -> ->. Qed.

Lemma pad_level_even l : Nat.Even (length (pad_level l)).
Proof.
  unfold pad_level. destruct (Nat.odd (length l)) eqn:E.
  - apply Nat.odd_spec in E. destruct (last l) eqn:El.
    + rewrite length_app. simpl. destruct E as [k E]. exists (S k). lia.
    + apply last_None in El. subst. destruct E as [k E]. simpl in E. lia.
  - apply Nat.even_spec. by rewrite <- Nat.negb_odd, E.
Qed.

Lemma pad_level_prefix l : l `prefix_of` pad_level l.
Proof.
  unfold pad_level. repeat case_match; try done. by eexists.
Qed.

Lemma elem_of_pad_level x l : x ∈ pad_level l ↔ x ∈ l.
Proof.
  unfold pad_level. repeat case_match; try done.
  rewrite elem_of_app, list_elem_of_singleton. split; [|by left].
  intros [?| ->]; [done|]. by apply last_Some_elem_of.
Qed.

Lemma pad_level_hashes l : Forall is_hash l → Forall is_hash (pad_level l).
Proof.
  rewrite !Forall_forall. intros Hl x. rewrite elem_of_pad_level. auto.
Qed.

Lemma length_pad_level l :
  length (pad_level l) = (2 * ((length l + 1) / 2))%nat.
Proof.
  unfold pad_level. destruct (Nat.odd (length l)) eqn:E.
  - apply Nat.odd_spec in E as [k E]. destruct (last l) eqn:El.
    + rewrite length_app, E. cbn [length]. divlia.
    + apply last_None in El. subst. simpl in E. lia.
  - assert (Nat.Even (length l)) as [k Hk].
    { apply Nat.even_spec. by rewrite <- Nat.negb_odd, E. }
    rewrite Hk. divlia.
Qed.

Lemma list_two_ind {A} (P : list A → Prop) :
  P [] → (∀ x, P [x]) → (∀ x y l, P l → P (x :: y :: l)) → ∀ l, P l.
Proof.
  intros H0' H1' H2. enough (∀ l, P l ∧ ∀ x, P (x :: l)) as Hl by apply Hl.
  induction l as [|x l [IH1 IH2]]; split; auto.
Qed.

Lemma length_pair_nodes l : length (pair_nodes l) = (length l / 2)%nat.
Proof.
  induction l as [| |x y l IH] using list_two_ind; try done.
  cbn [pair_nodes length]. rewrite IH. divlia.
Qed.

Lemma length_level_up l : length (level_up l) = ((length l + 1) / 2)%nat.
Proof.
  unfold level_up. rewrite length_pair_nodes, length_pad_level. divlia.
Qed.

Lemma pair_nodes_inner l :
  Forall is_hash l → ∀ h, h ∈ pair_nodes l →
  ∃ a b, a ∈ l ∧ b ∈ l ∧ a ++ b ∈ pair_messages l ∧ h = node a b.
Proof.
  induction l as [| |x y l IH] using list_two_ind; intros Hl h; try by intros ?%elem_of_nil.
  cbn [pair_nodes pair_messages]. rewrite !Forall_cons in Hl. destruct Hl as (Hx & Hy & Hl).
  intros [->|Hh]%elem_of_cons.
  - exists x, y. split_and!; [by left|by right; left|by left|done].
  - destruct (IH Hl _ Hh) as (a & b & Ha & Hb & Hm & ->). exists a, b.
    split_and!; [by do 2 right|by do 2 right|by right|done].
Qed.

Lemma level_up_elem l h :
  Forall is_hash l → h ∈ level_up l →
  ∃ a b, a ∈ l ∧ b ∈ l ∧ a ++ b ∈ pair_messages (pad_level l) ∧ h = node a b.
Proof.
  intros Hl Hh. apply pair_nodes_inner in Hh as (a & b & Ha & Hb & Hm & ->);
    [|by apply pad_level_hashes].
  rewrite elem_of_pad_level in Ha, Hb. eauto 6.
Qed.

Lemma level_up_hashes l : Forall is_hash l → Forall is_hash (level_up l).
Proof.
  intros Hl. apply Forall_forall. intros h Hh.
  apply level_up_elem in Hh as (a & b & _ & _ & _ & ->); [apply node_hash|done].
Qed.

Lemma hash_pairs_ok l :
  Forall is_hash l → Nat.Even (length l) → hash_pairs l = Ok (pair_nodes l).
Proof.
  induction l as [|x|x y l IH] using list_two_ind; intros Hl He; [done|..].
  - destruct He as [k He]. simpl in He. lia.
  - rewrite !Forall_cons in Hl. destruct Hl as (Hx & Hy & Hl). cbn [hash_pairs].
    rewrite compute_inner_hash_ok by done. simpl. rewrite IH; [done..|].
    destruct He as [k He]. simpl in He. exists (k - 1)%nat. lia.
Qed.

Lemma pair_nodes_lookup l k a b :
  l !! (2 * k)%nat = Some a → l !! S (2 * k) = Some b →
  pair_nodes l !! k = Some (node a b).
Proof.
  revert k. induction l as [|x|x y l IH] using list_two_ind; intros k Ha Hb.
  - done.
  - destruct k; simplify_eq/=.
  - destruct k as [|k]; [by simplify_eq/=|]. cbn [pair_nodes].
    replace (2 * S k)%nat with (S (S (2 * k))) in Ha, Hb by lia.
    simpl in Ha, Hb. simpl. apply IH; simpl; done.
Qed.

(** ** The build loop produces a tower *)

Lemma set_last_app (pre : list (list bytes)) x y :
  set_last (pre ++ [x]) y = pre ++ [y].
Proof.
  unfold set_last. rewrite removelast_last. by destruct pre.
Qed.

Lemma build_loop_tower fuel pre cur :
  Forall is_hash cur → (0 < length cur ≤ fuel)%nat →
  ∃ r levels, tower cur levels r ∧
    build_loop fuel (pre ++ [cur]) cur = Ok ([r], pre ++ levels).
Proof.
  revert pre cur. induction fuel as [|fuel IH]; intros pre cur Hcur Hlen; [lia|].
  cbn [build_loop]. destruct (Nat.ltb_spec 1 (length cur)) as [Hgt|Hle].
  - rewrite hash_pairs_ok by eauto using pad_level_hashes, pad_level_even.
    cbn [mbind result_bind]. rewrite set_last_app. fold (level_up cur).
    destruct (IH (pre ++ [pad_level cur]) (level_up cur)) as (r & levels & Ht & E).
    + by apply level_up_hashes.
    + rewrite length_level_up. divlia.
    + exists r, (pad_level cur :: levels). split; [by constructor|].
      rewrite E. by rewrite <- app_assoc.
  - destruct cur as [|r [|]]; simpl in *; try lia.
    exists r, [[r]]. split; [constructor|done].
Qed.

Lemma check_leaves_ok idx leaves :
  check_leaves idx leaves = Ok () ↔ Forall is_hash leaves.
Proof.
  revert idx. induction leaves as [|l leaves IH]; intros idx; simpl; [done|].
  rewrite bind_ok_iff, Forall_cons. unfold is_hash at 1.
  setoid_rewrite raise_if_ok. setoid_rewrite negb_false_iff.
  setoid_rewrite Nat.eqb_eq. rewrite <- (IH (S idx)). split; [naive_solver|].
  intros [??]. by exists ().
Qed.

Lemma build_tower leaves :
  leaves ≠ [] → Forall is_hash leaves →
  ∃ r levels, build_merkle_tree leaves = Ok (r, levels) ∧ tower leaves levels r.
Proof.
  intros Hne Hl. unfold build_merkle_tree.
  destruct leaves as [|l0 ls] eqn:El; [done|]. rewrite <- El in *.
  assert (0 < length leaves)%nat by (subst; simpl; lia).
  destruct (build_loop_tower (length leaves) [] leaves) as (r & levels & Ht & E);
    [done|lia|]. simpl in E.
  exists r, levels. rewrite (proj2 (check_leaves_ok 0 leaves) Hl), E.
  rewrite (proj2 (Nat.eqb_neq _ _)) by lia. done.
Qed.

Lemma build_ok_inv leaves r levels :
  build_merkle_tree leaves = Ok (r, levels) →
  leaves ≠ [] ∧ Forall is_hash leaves ∧ tower leaves levels r.
Proof.
  intros Hb. pose proof Hb as Hb'. unfold build_merkle_tree in Hb'.
  apply bind_ok_iff in Hb' as ([] & Hn%raise_if_ok & Hb').
  apply bind_ok_iff in Hb' as ([] & Hc%check_leaves_ok & _).
  assert (leaves ≠ []) as Hne by (by destruct leaves).
  destruct (build_tower leaves Hne Hc) as (r' & levels' & E & Ht).
  rewrite Hb in E. by simplify_eq.
Qed.

Lemma tower_functional cur l1 r1 l2 r2 :
  tower cur l1 r1 → tower cur l2 r2 → l1 = l2 ∧ r1 = r2.
Proof.
  intros Ht. revert l2 r2. induction Ht as [r|cur l r Hgt Ht IH]; intros l2 r2 H2.
  - inversion H2; simplify_eq/=; [done|lia].
  - inversion H2; simplify_eq/=; [lia|].
    edestruct IH as [-> ->]; done.
Qed.

Lemma tower_root_hash cur levels r :
  tower cur levels r → Forall is_hash cur → is_hash r.
Proof.
  induction 1 as [r|cur l r Hgt Ht IH]; intros Hh; [by apply Forall_inv in Hh|].
  by apply IH, level_up_hashes.
Qed.
End levels.

(** ** Proofs climb the tower *)

Section proofs.
Context `{Sha256, Rfc8785}.
Import Aggregator.

Definition proof_hashes (p : list (bytes * str)) : Prop :=
  Forall (λ step, is_hash step.1 ∧ (step.2 = DIR_LEFT ∨ step.2 = DIR_RIGHT)) p.

Lemma climb_step_hash cur s : is_hash (climb_step cur s).
Proof. unfold climb_step. case_match; apply node_hash. Qed.

(** [verify_loop] on hashes never raises: it climbs, or rejects a malformed
    step. *)
Lemma verify_loop_spec cur p :
  is_hash cur →
  (proof_hashes p ∧ verify_loop cur p = Ok (Some (climb cur p))) ∨
  (¬ proof_hashes p ∧ verify_loop cur p = Ok None).
Proof.
  revert cur. induction p as [|[s d] p IH]; intros cur Hcur.
  { left. split; [constructor|done]. }
  unfold proof_hashes in *. cbn [verify_loop]. rewrite Forall_cons. simpl.
  destruct (Nat.eqb_spec (length s) 32) as [Hs|Hs]; simpl; [|naive_solver].
  unfold str_eqb, climb_step. simpl.
  destruct (bool_decide_reflect (d = DIR_LEFT)) as [->|HL];
    [|destruct (bool_decide_reflect (d = DIR_RIGHT)) as [->|HR]].
  3: { right. split; [naive_solver|done]. }
  all: rewrite compute_inner_hash_ok by done; cbn [mbind result_bind].
  all: edestruct IH as [[Hp E]|[Hp E]]; [apply node_hash|..]; rewrite E.
  1,3: left; split; [split; [split|]; auto|].
  1,2: unfold climb_step; unfold str_eqb; simpl; by repeat case_bool_decide.
  all: right; split; [naive_solver|done].
Qed.

Lemma verify_spec l p r :
  verify_merkle_proof l p r =
  Ok (bool_decide (is_hash l ∧ is_hash r ∧ proof_hashes p ∧ climb l p = r)).
Proof.
  unfold verify_merkle_proof.
  destruct (Nat.eqb_spec (length l) 32) as [Hl|Hl]; simpl;
    [|by rewrite bool_decide_false by naive_solver].
  destruct (Nat.eqb_spec (length r) 32) as [Hr|Hr]; simpl;
    [|by rewrite bool_decide_false by naive_solver].
  destruct (verify_loop_spec l p Hl) as [[Hp ->]|[Hp ->]]; simpl; f_equal.
  - apply bool_decide_ext. naive_solver.
  - by rewrite bool_decide_false by naive_solver.
Qed.

(** One level of [proof_loop]: the step it emits leads to the parent. *)
Lemma proof_step level idx x :
  Forall is_hash level → Nat.Even (length level) → level !! idx = Some x →
  ∃ sibling_idx sibling,
    (if Z.lxor (Z.of_nat idx) 1 <? Z.of_nat (length level)
     then Z.lxor (Z.of_nat idx) 1 else Z.of_nat idx) = Z.of_nat sibling_idx ∧
    level !! sibling_idx = Some sibling ∧ is_hash sibling ∧
    pair_nodes level !! (idx / 2)%nat =
      Some (climb_step x (sibling,
        if Z.of_nat sibling_idx <? Z.of_nat idx then DIR_LEFT else DIR_RIGHT)).
Proof.
  intros Hh [n Hn] Hx. pose proof (lookup_lt_Some _ _ _ Hx) as Hlt.
  destruct (Nat.Even_or_Odd idx) as [[k ->]|[k ->]].
  - rewrite lxor_1_even.
    destruct (lookup_lt_is_Some_2 level (S (2 * k))) as [s Hs]; [lia|].
    exists (S (2 * k)), s. rewrite (proj2 (Z.ltb_lt _ _)) by lia.
    rewrite (proj2 (Z.ltb_ge _ _)) by lia.
    split_and!; [done|done|by eapply Forall_lookup_1|].
    replace (2 * k / 2)%nat with k by divlia.
    by apply pair_nodes_lookup.
  - replace (2 * k + 1)%nat with (S (2 * k)) in * by lia. rewrite lxor_1_odd.
    destruct (lookup_lt_is_Some_2 level (2 * k)) as [s Hs]; [lia|].
    exists (2 * k)%nat, s.
    rewrite (proj2 (Z.ltb_lt _ (Z.of_nat (length level)))) by lia.
    rewrite (proj2 (Z.ltb_lt _ _)) by lia.
    split_and!; [done|done|by eapply Forall_lookup_1|].
    replace (S (2 * k) / 2)%nat with k by divlia.
    by apply pair_nodes_lookup.
Qed.

Lemma tower_nonnil cur levels r : tower cur levels r → levels ≠ [].
Proof. by destruct 1. Qed.

Lemma proof_loop_complete cur levels r idx x :
  tower cur levels r → Forall is_hash cur → cur !! idx = Some x →
  ∃ p, proof_loop (removelast levels) (Z.of_nat idx) = Ok p ∧
       length p = (length levels - 1)%nat ∧ proof_hashes p ∧ climb x p = r.
Proof.
  intros Ht. revert idx x. induction Ht as [r|cur levels r Hgt Ht IH];
    intros idx x Hh Hx.
  - exists []. apply list_lookup_singleton_Some in Hx as [-> ->].
    repeat split. constructor.
  - pose proof (tower_nonnil _ _ _ Ht) as Hne.
    replace (removelast (pad_level cur :: levels))
      with (pad_level cur :: removelast levels) by (by destruct levels).
    cbn [proof_loop].
    destruct (proof_step (pad_level cur) idx x) as (si & s & -> & Hs & Hhs & Hup);
      [by apply pad_level_hashes|apply pad_level_even|
       by eapply prefix_lookup_Some, pad_level_prefix|].
    rewrite Nat2Z.id, Hs. cbn [of_option mbind result_bind].
    destruct (IH (idx / 2)%nat _ (level_up_hashes _ Hh) Hup) as (p & Ep & Hl & Hp & Hc).
    replace (Z.of_nat idx / 2) with (Z.of_nat (idx / 2)) by divlia.
    rewrite Ep. eexists. split; [done|]. split_and!; simpl.
    + destruct levels; [done|]. simpl in *. lia.
    + constructor; [|done]. split; [done|]. simpl. case_match; auto.
    + done.
Qed.
End proofs.

(** ** Soundness: what a verifying proof is about *)

Section soundness.
Context `{Sha256, Rfc8785}.
Import Aggregator.

Lemma node_inj ms a b c d :
  a ++ b ∈ ms → c ++ d ∈ ms → is_hash a → is_hash c → node a b = node c d →
  (a = c ∧ b = d) ∨ collision_in sha256 ms.
Proof.
  intros H1 H2 Ha Hc E. apply (eq_or_collision sha256 ms) in E as [E|?]; [left|by right|done..].
  apply app_inj_1 in E; [done|congruence].
Qed.

Lemma level_messages_cons l levels : level_messages (l :: levels) = pair_messages l ++ level_messages levels.
Proof. done. Qed.

Lemma climb_sound cur levels r p x :
  tower cur levels r → Forall is_hash cur → is_hash x → proof_hashes p →
  length p = (length levels - 1)%nat → climb x p = r →
  x ∈ cur ∨ collision_in sha256 (level_messages levels ++ proof_messages x p).
Proof.
  intros Ht. revert p x. induction Ht as [r|cur levels r Hgt Ht IH];
    intros p x Hh Hx Hp Hlen Hc.
  { destruct p; simpl in *; [|lia]. left. rewrite <- Hc. by apply list_elem_of_singleton. }
  destruct p as [|s p]; simpl in Hlen.
  { by apply tower_nonnil in Ht as Hne; destruct levels. }
  apply Forall_cons in Hp as [[Hs _] Hp]. rewrite level_messages_cons. cbn [proof_messages].
  destruct (IH p (climb_step x s)) as [Hin|Hcol].
  - by apply level_up_hashes.
  - apply climb_step_hash.
  - done.
  - destruct levels; simpl in *; lia.
  - done.
  - apply level_up_elem in Hin as (a & b & Ha & Hb & Hm & E); [|done].
    rewrite Forall_forall in Hh. set (ms := (_ ++ _) ++ _).
    assert (a ++ b ∈ ms ∧ step_message x s ∈ ms) as [H1 H2] by (unfold ms; set_solver).
    unfold climb_step in E. unfold step_message in H2. case_match.
    + destruct (node_inj ms _ _ _ _ H2 H1 Hs (Hh a Ha) E) as [[_ ->]|?]; auto.
    + destruct (node_inj ms _ _ _ _ H2 H1 Hx (Hh a Ha) E) as [[-> _]|?]; auto.
  - right. revert Hcol. apply collision_in_mono. set_solver.
Qed.

Lemma climb_app x p q : climb x (p ++ q) = climb (climb x p) q.
Proof. apply foldl_app. Qed.

Lemma proof_messages_app x p q :
  proof_messages x (p ++ q) = proof_messages x p ++ proof_messages (climb x p) q.
Proof. revert x. induction p as [|s p IH]; intros x; [done|]. cbn. by rewrite IH. Qed.

Lemma climb_inner x p :
  is_hash x → proof_hashes p → p ≠ [] → inner_of (proof_messages x p) (climb x p).
Proof.
  intros Hx Hp Hne. destruct p as [|s p _] using rev_ind; [done|].
  apply Forall_app in Hp as [Hp [[Hs _] _]%Forall_cons].
  rewrite climb_app, proof_messages_app. cbn. set (y := climb x p).
  assert (is_hash y) as Hy.
  { unfold y. destruct p as [|s' p _] using rev_ind; [done|].
    rewrite climb_app. apply climb_step_hash. }
  exists (step_message y s). split; [set_solver|]. unfold step_message, climb_step, node, is_hash in *.
  case_match; rewrite length_app; split; [lia|done|lia|done].
Qed.

Lemma tower_iter n cur levels r :
  tower cur levels r → Forall is_hash cur → (n < length levels)%nat →
  tower (Nat.iter n level_up cur) (drop n levels) r ∧ Forall is_hash (Nat.iter n level_up cur).
Proof.
  intros Ht. revert n. induction Ht as [r|cur levels r Hgt Ht IH];
    intros [|n] Hh Hn; simpl in Hn; try lia.
  - split; [constructor|done].
  - split; [by constructor|done].
  - rewrite Nat.iter_succ_r. apply IH; [by apply level_up_hashes|lia].
Qed.

Lemma level_messages_drop n levels : level_messages (drop n levels) ⊆ level_messages levels.
Proof.
  rewrite <- (take_drop n levels) at 2. unfold level_messages. rewrite bind_app. set_solver.
Qed.

Lemma pair_message_length l m : Forall is_hash l → m ∈ pair_messages l → length m = 64%nat.
Proof.
  induction l as [| |x y l IH] using list_two_ind; intros Hl; try by intros ?%elem_of_nil.
  rewrite !Forall_cons in Hl. destruct Hl as (Hx & Hy & Hl). cbn [pair_messages].
  intros [->|Hm]%elem_of_cons; [|by apply IH]. rewrite length_app. unfold is_hash in *. lia.
Qed.

(** What stands on a level above the leaves is the hash of a message of the tree. *)
Lemma upper_inner n cur levels r x :
  tower cur levels r → Forall is_hash cur → (S n < length levels)%nat →
  x ∈ Nat.iter (S n) level_up cur → inner_of (level_messages levels) x.
Proof.
  intros Ht Hh Hn Hin. destruct (tower_iter n _ _ _ Ht Hh) as [Ht' Hh']; [lia|].
  cbn in Hin. apply level_up_elem in Hin as (a & b & Ha & Hb & Hm & ->); [|done].
  exists (a ++ b). split_and!; [|by eapply pair_message_length, Hm; apply pad_level_hashes|done].
  apply (level_messages_drop n). assert (1 < length (drop n levels))%nat by (rewrite length_drop; lia).
  inversion Ht' as [? Hc E|? ls ? _ _ Hc E].
  { exfalso. rewrite <- E in *. simpl in *. lia. }
  rewrite level_messages_cons. set_solver.
Qed.

(** A proof of any length: what climbs to the root is a leaf or an inner
    node, unless a leaf is itself an inner hash. *)
Lemma climb_sound_any cur levels r p x :
  tower cur levels r → Forall is_hash cur → is_hash x → proof_hashes p → climb x p = r →
  let ms := level_messages levels ++ proof_messages x p in
  x ∈ cur ∨ inner_of ms x ∨ (∃ y, y ∈ cur ∧ inner_of ms y) ∨ collision_in sha256 ms.
Proof.
  intros Ht Hh Hx Hp Hc ms.
  assert (∀ h ms', ms' ⊆ ms → inner_of ms' h → inner_of ms h) as Hmono.
  { intros h ms' Hs (m & Hm & ?). exists m. auto. }
  assert (0 < length levels)%nat as Hpos.
  { apply tower_nonnil in Ht. destruct levels; [done|simpl; lia]. }
  destruct (Nat.lt_trichotomy (length p) (length levels - 1)) as [Hlt|[Heq|Hgt]].
  - set (n := (length levels - 1 - length p)%nat).
    destruct (tower_iter n _ _ _ Ht Hh) as (Ht' & Hh'); [lia|].
    destruct (climb_sound _ _ _ p x Ht' Hh') as [Hin|Hcol]; [done..|rewrite length_drop; lia|done| |].
    + right; left. apply (Hmono x (level_messages levels)); [unfold ms; set_solver|].
      apply (upper_inner (n - 1) cur levels r); [done|done|lia|]. by replace (S (n - 1)) with n by lia.
    + right; right; right. revert Hcol. apply collision_in_mono.
      pose proof (level_messages_drop n levels). unfold ms. set_solver.
  - destruct (climb_sound _ _ _ p x Ht Hh) as [?|?]; auto.
  - set (k := (length p - (length levels - 1))%nat).
    assert (proof_messages x p = proof_messages x (take k p) ++ proof_messages (climb x (take k p)) (drop k p)) as Em
      by (by rewrite <- proof_messages_app, take_drop).
    rewrite <- (take_drop k p) in Hp, Hc. apply Forall_app in Hp as [Hp1 Hp2].
    rewrite climb_app in Hc.
    assert (inner_of (proof_messages x (take k p)) (climb x (take k p))) as Hin.
    { apply climb_inner; [done..|]. intros E.
      apply (f_equal length) in E. rewrite length_take in E. simpl in E. lia. }
    destruct (climb_sound _ _ _ (drop k p) (climb x (take k p)) Ht Hh) as [?|Hcol].
    + destruct Hin as (m & _ & _ & ->). apply sha256_length.
    + done.
    + rewrite length_drop. lia.
    + done.
    + right; right; left. exists (climb x (take k p)). split; [done|].
      eapply Hmono, Hin. unfold ms. rewrite Em. set_solver.
    + right; right; right. revert Hcol. apply collision_in_mono. unfold ms. rewrite Em. set_solver.
Qed.

(** *** Binding *)

Lemma pair_nodes_inj l1 l2 :
  Forall is_hash l1 → Forall is_hash l2 → length l1 = length l2 →
  Nat.Even (length l1) → pair_nodes l1 = pair_nodes l2 →
  l1 = l2 ∨ collision_in sha256 (pair_messages l1 ++ pair_messages l2).
Proof.
  revert l2. induction l1 as [|x|x y l1 IH] using list_two_ind;
    intros l2 H1 H2 Hl He E.
  - destruct l2; [by left|done].
  - destruct He as [k He]. simpl in He. lia.
  - destruct l2 as [|x' [|y' l2]]; simpl in Hl; try lia. injection Hl as Hl.
    cbn [pair_nodes] in E. cbn [pair_messages].
    rewrite !Forall_cons in H1, H2.
    destruct H1 as (Hx & Hy & H1), H2 as (Hx' & Hy' & H2).
    injection E as En E. set (ms := _ ++ _).
    destruct (node_inj ms x y x' y') as [[-> ->]|?]; [unfold ms; set_solver..|done|done|done| |by right].
    destruct (IH l2) as [->|Hcol]; auto.
    + destruct He as [k He]. simpl in He. exists (k - 1)%nat. lia.
    + right. revert Hcol. apply collision_in_mono. unfold ms. set_solver.
Qed.

Lemma pad_level_inj l1 l2 :
  length l1 = length l2 → pad_level l1 = pad_level l2 → l1 = l2.
Proof.
  intros Hl E. destruct (pad_level_prefix l1) as [k1 E1].
  destruct (pad_level_prefix l2) as [k2 E2].
  rewrite E1, E2 in E. by apply app_inj_1 in E as [-> _].
Qed.

Lemma tower_binding l1 levels1 l2 levels2 r :
  tower l1 levels1 r → tower l2 levels2 r → length l1 = length l2 →
  Forall is_hash l1 → Forall is_hash l2 →
  l1 = l2 ∨ collision_in sha256 (level_messages levels1 ++ level_messages levels2).
Proof.
  intros Ht. revert l2 levels2. induction Ht as [r|l1 levels r Hgt Ht IH];
    intros l2 levels2 H2 Hl Hh1 Hh2.
  - inversion H2; simplify_eq/=; [by left|lia].
  - inversion H2 as [|? levels' ? Hgt2 Ht2]; subst; [simpl in *; lia|].
    rewrite !level_messages_cons. destruct (IH _ _ Ht2) as [E|Hcol].
    + by rewrite !length_level_up, Hl.
    + by apply level_up_hashes.
    + by apply level_up_hashes.
    + destruct (pair_nodes_inj (pad_level l1) (pad_level l2)) as [E'|Hcol];
        auto using pad_level_hashes, pad_level_even.
      * by rewrite !length_pad_level, Hl.
      * left. by apply pad_level_inj.
      * right. revert Hcol. apply collision_in_mono. set_solver.
    + right. revert Hcol. apply collision_in_mono. set_solver.
Qed.
End soundness.

(** ** The leaf hash of an event *)

(** The four fields of the B1 tuple. *)
Record b1_event := B1 {
  event_id : str;
  time : str;
  payload_hash : str;
  capability_token_hash : str;
}.

#[export] Instance b1_event_eq_dec : EqDecision b1_event.
Proof. solve_decision. Defined.

Definition b1_json (e : b1_event) : json :=
  Aggregator.tuple_obj e.(event_id) e.(time) e.(payload_hash)
    e.(capability_token_hash).

Section leaf.
Context `{Sha256, Rfc8785, !Rfc8785Conforms}.
Import Aggregator.

Definition event_leaf (e : b1_event) : result merkle_error bytes :=
  compute_leaf_hash e.(event_id) e.(time) e.(payload_hash)
    e.(capability_token_hash).

(** The text that is hashed for an event, and the messages hashed for a list of
    events and for the tree over a list of leaves. *)
Definition event_message (e : b1_event) : result merkle_error bytes := _canonicalise (b1_json e).
Definition event_messages (events : list b1_event) : list bytes :=
  events ≫= λ e, ok_list (event_message e).
Definition tree_messages (leaves : list bytes) : list bytes :=
  match build_merkle_tree leaves with
  | Ok (_, levels) => level_messages levels
  | Err _ => []
  end.

Lemma elem_of_event_messages events m :
  m ∈ event_messages events ↔ ∃ e, e ∈ events ∧ event_message e = Ok m.
Proof.
  unfold event_messages. rewrite list_elem_of_bind. setoid_rewrite elem_of_ok_list. naive_solver.
Qed.

Lemma tuple_string_object a b c d : string_object (tuple_obj a b c d).
Proof.
  eexists. split; [done|]. rewrite !Forall_cons, Forall_nil. cbn [fst snd].
  assert (∀ s : str, forallb (in_range 0 127) s = true →
            Forall (λ c, 0 ≤ c < 128) s) as Hlit.
  { intros s. induction s as [|x s IH]; simpl; [constructor|].
    unfold in_range. propify. intros [??]. constructor; [lia|auto]. }
  split_and!; eauto; by apply Hlit; vm_compute.
Qed.

Lemma canonicalise_tuple a b c d :
  _canonicalise (tuple_obj a b c d) =
  of_option EncodeError (utf8_encode (json_dumps false true (tuple_obj a b c d))).
Proof.
  unfold _canonicalise. destruct rfc8785_dumps as [f|] eqn:E; [|done].
  by rewrite (rfc8785_conforms f _ E (tuple_string_object a b c d)).
Qed.

Definition sorted_tuple (a b c d : str) : json :=
  JObj [(u "capability_token_hash", JStr d); (u "event_id", JStr a);
        (u "payload_hash", JStr c); (u "time", JStr b)].

Lemma json_sort_tuple a b c d : json_sort (tuple_obj a b c d) = sorted_tuple a b c d.
Proof. reflexivity. Qed.

Definition member_text (k : str) (v : str) : str :=
  quote false k ++ u ":" ++ quote false v.

Lemma tuple_text a b c d :
  json_dumps false true (tuple_obj a b c d) =
  u "{" ++ member_text (u "capability_token_hash") d ++ u "," ++
    member_text (u "event_id") a ++ u "," ++
    member_text (u "payload_hash") c ++ u "," ++ member_text (u "time") b ++ u "}".
Proof.
  unfold json_dumps. rewrite json_sort_tuple. unfold member_text.
  cbn [sorted_tuple json_print List.map join fst snd]. by rewrite <- !app_assoc.
Qed.

Lemma length_member_text k v : (length k + 5 ≤ length (member_text k v))%nat.
Proof.
  assert (∀ s, length s + 2 ≤ length (quote false s))%nat as Hq.
  { intros s. unfold quote. cbn [length]. rewrite length_app. simpl.
    enough (length s ≤ length (s ≫= escape_char))%nat by lia.
    induction s as [|x s IH]; csimpl; [lia|]. rewrite length_app.
    destruct (escape_char_head x) as (y & t & -> & _). simpl. lia. }
  unfold member_text. rewrite !length_app.
  pose proof (Hq k). pose proof (Hq v). change (length (u ":")) with 1%nat. lia.
Qed.

Lemma event_leaf_ok e h :
  event_leaf e = Ok h →
  ∃ m, h = sha256 m ∧ event_message e = Ok m ∧
       utf8_encode (json_dumps false true (b1_json e)) = Some m ∧
       json_ok (b1_json e) ∧ (64 < length m)%nat.
Proof.
  unfold event_leaf, compute_leaf_hash, event_message, b1_json.
  rewrite canonicalise_tuple. intros E.
  apply bind_ok_iff in E as (m & Em & [= <-]).
  exists m. split; [done|]. split; [done|]. apply of_option_ok in Em. split; [done|].
  assert (encodable (json_dumps false true (b1_json e)) = true) as Henc
    by (apply utf8_encode_encodable; eauto).
  unfold b1_json in Henc, Em. rewrite tuple_text in Henc, Em. split.
  - unfold member_text in Henc. rewrite !encodable_app, !andb_true_iff in Henc.
    destruct_and! Henc. apply ok_strings_obj. unfold ok_member.
    repeat apply Forall_cons_2; try apply Forall_nil_2; cbn [fst snd ok_strings];
      (split; [by vm_compute|by apply encodable_quote]).
  - apply utf8_encode_length in Em. eapply Nat.lt_le_trans; [|exact Em].
    rewrite !length_app.
    pose proof (length_member_text (u "capability_token_hash") e.(capability_token_hash)).
    pose proof (length_member_text (u "event_id") e.(event_id)).
    pose proof (length_member_text (u "payload_hash") e.(payload_hash)).
    pose proof (length_member_text (u "time") e.(time)).
    repeat match goal with H : context [length (u ?x)] |- _ =>
      let n := eval vm_compute in (length (u x)) in
      change (length (u x)) with n in H end.
    change (length (u "{")) with 1%nat. lia.
Qed.

(** A leaf hash is not an inner node hash: the texts differ in length. *)
Lemma event_leaf_not_inner ms events e h :
  event_leaf e = Ok h → inner_of ms h → e ∈ events → event_messages events ⊆ ms →
  collision_in sha256 ms.
Proof.
  intros He (m' & Hm' & Hl & E) Hin Hsub. apply event_leaf_ok in He as (m & -> & Em & _ & _ & Hm).
  apply (eq_or_collision sha256 ms) in E as [->|?]; [lia|done| |done].
  apply Hsub, elem_of_event_messages. by exists e.
Qed.

Lemma event_leaf_inj events e1 e2 h :
  event_leaf e1 = Ok h → event_leaf e2 = Ok h → e1 ∈ events → e2 ∈ events →
  e1 = e2 ∨ collision_in sha256 (event_messages events).
Proof.
  intros He1 He2 Hin1 Hin2.
  apply event_leaf_ok in He1 as (m1 & -> & M1 & E1 & Ho1 & _).
  apply event_leaf_ok in He2 as (m2 & Eq & M2 & E2 & Ho2 & _).
  apply (eq_or_collision sha256 (event_messages events)) in Eq as [->|?];
    [left|by right|apply elem_of_event_messages; eauto..].
  pose proof (utf8_encode_inj _ _ _ E1 E2) as Ej.
  apply json_dumps_sorted_inj in Ej; [|done..].
  unfold b1_json in Ej. rewrite !json_sort_tuple in Ej.
  destruct e1, e2. unfold sorted_tuple in Ej. by simplify_eq/=.
Qed.

Lemma event_leaf_hash e h : event_leaf e = Ok h → is_hash h.
Proof.
  unfold event_leaf, compute_leaf_hash. intros (m & _ & [= <-])%bind_ok_iff.
  apply sha256_length.
Qed.
End leaf.

(** ** The depth of a tower *)

Lemma log2_up_half n : (1 < n)%nat → Nat.log2_up n = S (Nat.log2_up ((n + 1) / 2)).
Proof.
  intros Hn. apply Nat.log2_up_unique; [lia|].
  destruct (Nat.eq_dec ((n + 1) / 2) 1) as [E|E].
  { rewrite E. change (Nat.log2_up 1) with 0%nat. simpl. divlia. }
  pose proof (Nat.log2_up_spec ((n + 1) / 2)) as Hs.
  assert (1 < (n + 1) / 2)%nat as H1 by divlia. specialize (Hs H1).
  assert (0 < Nat.log2_up ((n + 1) / 2))%nat as Hpos by by apply Nat.log2_up_pos.
  set (k := Nat.log2_up ((n + 1) / 2)) in *. destruct k as [|k]; [lia|].
  cbn [Nat.pred] in *. rewrite !(Nat.pow_succ_r' 2) in *.
  generalize dependent (2 ^ k)%nat. intros P Hs. clear Hpos k. divlia.
Qed.

Section depth.
Context `{Sha256}.

Lemma tower_depth cur levels r :
  tower cur levels r → length levels = S (Nat.log2_up (length cur)).
Proof.
  induction 1 as [r|cur levels r Hgt Ht IH]; [done|].
  cbn [length]. rewrite IH, length_level_up.
  by rewrite (log2_up_half (length cur)).
Qed.

(** Padding an odd level by hand changes nothing above it. *)
Lemma tower_repeat_last cur x levels r :
  Nat.odd (length cur) = true → (1 < length cur)%nat → last cur = Some x →
  tower cur levels r → tower (cur ++ [x]) levels r.
Proof.
  intros Ho Hgt Hx Ht.
  assert (Aggregator.pad_level cur = cur ++ [x]) as Ep.
  { unfold Aggregator.pad_level. by rewrite Ho, Hx. }
  assert (Aggregator.pad_level (cur ++ [x]) = cur ++ [x]) as Ep2.
  { unfold Aggregator.pad_level. rewrite length_app. simpl.
    by rewrite Nat.add_1_r, Nat.odd_succ, <- Nat.negb_odd, Ho. }
  inversion Ht as [|? ls ? _ Ht']; simplify_eq/=; [lia|].
  replace (Aggregator.pad_level cur) with (Aggregator.pad_level (cur ++ [x])) by congruence.
  assert (level_up (cur ++ [x]) = level_up cur) as Eu by (unfold level_up; congruence).
  apply (tower_level (cur ++ [x])); [rewrite length_app; simpl; lia|].
  by rewrite Eu.
Qed.
End depth.

(** ** The properties of the aggregator *)

Section properties.
Context `{Sha256, Rfc8785}.
Import Aggregator.

(** C2: [build_merkle_tree] terminates (the loop bound is never reached) and
    its outcome is exactly: the tower of levels over the leaves with its
    32-byte root and [1 + ceil(log2 n)] levels; or the error for zero
    leaves; or the error naming the first leaf that is not 32 bytes. *)
Theorem build_merkle_tree_spec leaves :
  match build_merkle_tree leaves with
  | Ok (root, levels) =>
      leaves ≠ [] ∧ Forall is_hash leaves ∧ tower leaves levels root ∧
      is_hash root ∧ length levels = S (Nat.log2_up (length leaves))
  | Err NoLeaves => leaves = []
  | Err (LeafLength idx len) =>
      ∃ leaf, leaves !! idx = Some leaf ∧ length leaf = len ∧ len ≠ 32%nat ∧
        Forall is_hash (take idx leaves)
  | Err _ => False
  end.
Proof.
  destruct (build_merkle_tree leaves) as [[r levels]|e] eqn:E.
  - apply build_ok_inv in E as (Hne & Hh & Ht).
    split_and!; eauto using tower_root_hash, tower_depth.
  - destruct leaves as [|l0 ls] eqn:El; [by injection E as <-|].
    rewrite <- El in *. assert (leaves ≠ []) as Hne by by subst.
    assert (∀ k ls e, check_leaves k ls = Err e → ∃ i leaf,
      e = LeafLength (k + i) (length leaf) ∧ ls !! i = Some leaf ∧
      length leaf ≠ 32%nat ∧ Forall is_hash (take i ls)) as Hchk.
    { clear. intros k ls. revert k. induction ls as [|l ls IH]; intros k e; simpl; [done|].
      intros [[Hl <-]%raise_if_err|([] & Hl%raise_if_ok & He)]%bind_err_iff; propify.
      - exists 0%nat, l. rewrite Nat.add_0_r. repeat split; [done|constructor].
      - apply IH in He as (i & leaf & -> & Hi & Hne & Ht). exists (S i), leaf.
        rewrite Nat.add_succ_r. split_and!; [done..|]. by constructor. }
    destruct (check_leaves 0 leaves) as [[]|e'] eqn:Ec.
    + apply check_leaves_ok in Ec.
      destruct (build_tower leaves Hne Ec) as (r & lv & E' & _). congruence.
    + unfold build_merkle_tree in E. rewrite Ec in E.
      rewrite (proj2 (Nat.eqb_neq _ _)) in E by (by destruct leaves).
      injection E as <-. apply Hchk in Ec as (i & leaf & -> & Hi & Hl & Ht). eauto.
Qed.

Lemma proof_complete leaves root levels idx leaf :
  build_merkle_tree leaves = Ok (root, levels) →
  leaves !! idx = Some leaf →
  ∃ p, merkle_proof leaves (Z.of_nat idx) = Ok p ∧
    length p = Nat.log2_up (length leaves) ∧
    verify_merkle_proof leaf p root = Ok true.
Proof.
  intros Hb Hi. pose proof (lookup_lt_Some _ _ _ Hi).
  apply build_ok_inv in Hb as Hinv. destruct Hinv as (Hne & Hh & Ht).
  destruct (proof_loop_complete _ _ _ idx leaf Ht Hh Hi) as (p & Ep & Hl & Hp & Hc).
  exists p. split_and!.
  - unfold merkle_proof. rewrite Hb.
    rewrite (proj2 (Z.ltb_ge _ _)), (proj2 (Z.leb_gt _ _)) by lia. done.
  - rewrite Hl, (tower_depth _ _ _ Ht). lia.
  - rewrite verify_spec, bool_decide_true; [done|].
    split_and!; [by eapply Forall_lookup_1|by eapply tower_root_hash|done..].
Qed.

(** Completeness of inclusion proofs: for every leaf of a tree that was
    built, [merkle_proof] returns a proof of [ceil(log2 n)] steps that
    [verify_merkle_proof] accepts against the tree's root. *)
Theorem merkle_proof_complete leaves root levels idx leaf :
  build_merkle_tree leaves = Ok (root, levels) →
  leaves !! idx = Some leaf →
  ∃ p, merkle_proof leaves (Z.of_nat idx) = Ok p ∧
    length p = Nat.log2_up (length leaves) ∧
    verify_merkle_proof leaf p root = Ok true.
Proof. apply proof_complete. Qed.

(** [verify_merkle_proof] never raises, and accepts exactly when the leaf,
    the root and every sibling are 32 bytes, every direction is "L" or "R",
    and hashing upwards from the leaf gives the root. *)
Theorem verify_merkle_proof_iff leaf p root :
  verify_merkle_proof leaf p root =
  Ok (bool_decide (is_hash leaf ∧ is_hash root ∧ proof_hashes p ∧
                   climb leaf p = root)).
Proof. apply verify_spec. Qed.

(** Soundness at the tree's own depth: a hash with an accepted proof of
    as many steps as the tree has levels above the leaves is one of the
    leaves, or two of the messages hashed for the tree and along the proof
    collide. *)
Theorem merkle_proof_sound leaves root levels x p :
  build_merkle_tree leaves = Ok (root, levels) →
  length p = Nat.log2_up (length leaves) →
  verify_merkle_proof x p root = Ok true →
  x ∈ leaves ∨ collision_in sha256 (level_messages levels ++ proof_messages x p).
Proof.
  intros (Hne & Hh & Ht)%build_ok_inv Hl.
  rewrite verify_spec. intros [= (Hx & _ & Hp & Hc)%bool_decide_eq_true].
  eapply climb_sound; eauto. rewrite (tower_depth _ _ _ Ht). lia.
Qed.

(** The Bitcoin padding convention is not injective: repeating the last
    leaf of a tree with an odd number (at least three) of leaves gives the
    same root, so a root alone does not determine the number of leaves. *)
Theorem root_hash_repeat_last leaves leaf root :
  Nat.odd (length leaves) = true → (1 < length leaves)%nat →
  last leaves = Some leaf → root_hash leaves = Ok root →
  root_hash (leaves ++ [leaf]) = Ok root.
Proof.
  intros Ho Hgt Hx Hr. unfold root_hash in *.
  apply bind_ok_iff in Hr as ([r levels] & Hb & [= ->]).
  apply build_ok_inv in Hb as (Hne & Hh & Ht).
  destruct (build_tower (leaves ++ [leaf])) as (r' & levels' & -> & Ht').
  - by destruct leaves.
  - apply Forall_app. split; [done|]. constructor; [|constructor].
    rewrite Forall_forall in Hh. by apply Hh, last_Some_elem_of.
  - eapply tower_repeat_last in Ht; [|done..].
    destruct (tower_functional _ _ _ _ _ Ht Ht') as [_ ->]. done.
Qed.
End properties.

Section event_properties.
Context `{HS : Sha256, HR : Rfc8785, HC : !Rfc8785Conforms}.
Import Aggregator.

(** The leaf hashes of a list of events, in order. *)
Definition event_leaves (events : list b1_event) (leaves : list bytes) : Prop :=
  Forall2 (λ e l, event_leaf e = Ok l) events leaves.

Lemma event_leaves_hashes events leaves :
  event_leaves events leaves → Forall is_hash leaves.
Proof. induction 1; constructor; eauto using event_leaf_hash. Qed.

(** C1: Inclusion proofs are about events: when the root is the root over the
    leaf hashes of [events], an accepted proof, of whatever length, for the
    leaf hash of an event shows that the event is one of [events], or two of
    the messages that are hashed for the event, for [events], for their tree and
    along the proof collide.  Inner nodes cannot pose as leaves because a leaf
    hashes more than 64 bytes of text. *)
Theorem event_inclusion_sound events leaves root e leaf p :
  event_leaves events leaves → root_hash leaves = Ok root →
  event_leaf e = Ok leaf → verify_merkle_proof leaf p root = Ok true →
  e ∈ events ∨
  collision_in sha256 (event_messages (e :: events) ++ tree_messages leaves ++ proof_messages leaf p).
Proof.
  intros Hev Hr He. rewrite verify_spec.
  intros [= (Hx & _ & Hp & Hc)%bool_decide_eq_true].
  unfold root_hash in Hr. apply bind_ok_iff in Hr as ([r levels] & Hb & [= ->]).
  apply build_ok_inv in Hb as Hinv. destruct Hinv as (Hne & Hh & Ht).
  assert (tree_messages leaves = level_messages levels) as -> by (unfold tree_messages; by rewrite Hb).
  set (ms := _ ++ _).
  assert (∀ h, inner_of (level_messages levels ++ proof_messages leaf p) h → inner_of ms h) as Hmono.
  { intros h (m & Hm & ?). exists m. split; [unfold ms; set_solver|done]. }
  assert (event_messages (e :: events) ⊆ ms) as Hsub by (unfold ms; set_solver).
  destruct (climb_sound_any _ _ _ _ _ Ht Hh Hx Hp Hc) as [Hin|[Hi|[(y & Hy & Hi)|Hcol]]].
  - apply list_elem_of_lookup in Hin as [i Hi].
    destruct (Forall2_lookup_r _ _ _ _ _ Hev Hi) as (e' & He' & Hl').
    apply list_elem_of_lookup_2 in He'.
    destruct (event_leaf_inj (e :: events) e e' leaf) as [->|Hcol]; [done|done|by left|by right|by left|].
    right. by eapply collision_in_mono.
  - right. eapply (event_leaf_not_inner ms (e :: events)); [done|by apply Hmono|by left|done].
  - right. apply list_elem_of_lookup in Hy as [i Hy].
    destruct (Forall2_lookup_r _ _ _ _ _ Hev Hy) as (e' & He' & Hl').
    apply list_elem_of_lookup_2 in He'.
    eapply (event_leaf_not_inner ms (e :: events)); [done|by apply Hmono|by right|done].
  - right. revert Hcol. apply collision_in_mono. unfold ms. set_solver.
Qed.

Lemma event_messages_sub es es' : es ⊆ es' → event_messages es ⊆ event_messages es'.
Proof. intros Hs m. rewrite !elem_of_event_messages. naive_solver. Qed.

(** The shared part of the binding theorems. *)
Lemma root_binds events1 leaves1 events2 leaves2 root :
  event_leaves events1 leaves1 → event_leaves events2 leaves2 →
  root_hash leaves1 = Ok root → root_hash leaves2 = Ok root →
  length events1 = length events2 →
  events1 = events2 ∨ collision_in sha256
    (event_messages (events1 ++ events2) ++ tree_messages leaves1 ++ tree_messages leaves2).
Proof.
  intros Hev1 Hev2 Hr1 Hr2 Hlen. unfold root_hash in *.
  apply bind_ok_iff in Hr1 as ([r1 lv1] & Hb1 & [= ->]).
  apply bind_ok_iff in Hr2 as ([r2 lv2] & Hb2 & [= ->]).
  unfold tree_messages. rewrite Hb1, Hb2.
  apply build_ok_inv in Hb1 as (_ & Hh1 & Ht1), Hb2 as (_ & Hh2 & Ht2).
  destruct (tower_binding _ _ _ _ _ Ht1 Ht2) as [<-|Hcol]; [|done|done| |].
  { by rewrite <- (Forall2_length _ _ _ Hev1), <- (Forall2_length _ _ _ Hev2). }
  2: { right. revert Hcol. apply collision_in_mono. set_solver. }
  enough (events1 = events2 ∨ collision_in sha256 (event_messages (events1 ++ events2))) as [?|Hcol].
  { by left. }
  { right. revert Hcol. apply collision_in_mono. set_solver. }
  clear -Hev1 Hev2 HC. revert events2 Hev2.
  induction Hev1 as [|e1 l events1 leaves He1 _ IH]; intros events2 Hev2.
  - inversion Hev2. by left.
  - inversion Hev2 as [|e2 ? events2' ? He2 Hev2']; subst.
    destruct (event_leaf_inj ((e1 :: events1) ++ e2 :: events2') e1 e2 l) as [->|?];
      [done|done|set_solver|set_solver| |by right].
    destruct (IH events2') as [->|Hcol]; [done|by left|right].
    revert Hcol. apply collision_in_mono, event_messages_sub. set_solver.
Qed.

(** The root together with the number of events binds the events and
    their order, unless two of the messages hashed for them collide. *)
Theorem root_binds_events events1 leaves1 events2 leaves2 root :
  event_leaves events1 leaves1 → event_leaves events2 leaves2 →
  root_hash leaves1 = Ok root → root_hash leaves2 = Ok root →
  length events1 = length events2 →
  events1 = events2 ∨ collision_in sha256
    (event_messages (events1 ++ events2) ++ tree_messages leaves1 ++ tree_messages leaves2).
Proof. apply root_binds. Qed.
End event_properties.

(** ** The properties at concrete inputs *)

(** [rfc8785.dumps] as its documentation describes it on objects of strings. *)
Definition std_rfc8785 : Rfc8785 :=
  {| rfc8785_dumps := Some (λ j, utf8_encode (json_dumps false true j)) |}.

Lemma std_rfc8785_conforms : @Rfc8785Conforms std_rfc8785.
Proof. intros f j [= <-] _. done. Qed.

Lemma std_rfc8785_canonical j :
  utf8_encode (json_dumps false true (json_sort j)) =
  utf8_encode (json_dumps false true j).
Proof. unfold json_dumps. by rewrite json_sort_idem. Qed.

Module Example.
#[local] Existing Instance checksum_sha256.
#[local] Existing Instance std_rfc8785.
#[local] Existing Instance std_rfc8785_conforms.
Import Aggregator.

Definition ev (i : Z) : b1_event :=
  B1 (u "evt-" ++ int_repr i) (u "2026-05-06T17:00:00Z")
     (replicate 64 97) (replicate 64 48).

Definition events : list b1_event := [ev 1; ev 2; ev 3].
Definition leaf (i : Z) : bytes :=
  match event_leaf (ev i) with Ok l => l | Err _ => [] end.
Definition leaves : list bytes := [leaf 1; leaf 2; leaf 3].
Definition root : bytes :=
  match root_hash leaves with Ok r => r | Err _ => [] end.
Definition levels : list (list bytes) :=
  match build_merkle_tree leaves with Ok (_, l) => l | Err _ => [] end.
Definition proof2 : list (bytes * str) :=
  match merkle_proof leaves 1 with Ok p => p | Err _ => [] end.

End Example.

Section witnesses.
#[local] Existing Instance checksum_sha256.
#[local] Existing Instance std_rfc8785.
#[local] Existing Instance std_rfc8785_conforms.
Import Aggregator.

Lemma merkle_proof_complete_witness :
  ∃ p, merkle_proof Example.leaves (Z.of_nat 1) = Ok p ∧ length p = 2%nat ∧
       verify_merkle_proof (Example.leaf 2) p Example.root = Ok true.
Proof.
  apply (merkle_proof_complete Example.leaves Example.root Example.levels 1);
    [vm_compute; reflexivity|reflexivity].
Defined.

Lemma merkle_proof_sound_witness :
  Example.leaf 2 ∈ Example.leaves ∨
  collision_in sha256 (level_messages Example.levels ++ proof_messages (Example.leaf 2) Example.proof2).
Proof.
  apply (merkle_proof_sound Example.leaves Example.root Example.levels _
           Example.proof2); vm_compute; reflexivity.
Defined.

Lemma root_hash_repeat_last_witness :
  root_hash (Example.leaves ++ [Example.leaf 3]) = Ok Example.root.
Proof.
  apply (root_hash_repeat_last Example.leaves (Example.leaf 3) Example.root);
    [reflexivity|simpl; lia|reflexivity|vm_compute; reflexivity].
Defined.

Lemma event_inclusion_sound_witness :
  Example.ev 2 ∈ Example.events ∨
  collision_in sha256 (event_messages (Example.ev 2 :: Example.events) ++
    tree_messages Example.leaves ++ proof_messages (Example.leaf 2) Example.proof2).
Proof.
  apply (event_inclusion_sound Example.events Example.leaves Example.root
           (Example.ev 2) (Example.leaf 2) Example.proof2).
  - repeat constructor; vm_compute; reflexivity.
  - vm_compute; reflexivity.
  - vm_compute; reflexivity.
  - vm_compute; reflexivity.
Defined.

(** The messages hashed there are pairwise different in their digests. *)
Example inclusion_without_collision :
  bool_decide (collision_in sha256 (event_messages (Example.ev 2 :: Example.events) ++
    tree_messages Example.leaves ++ proof_messages (Example.leaf 2) Example.proof2)) = false.
Proof. vm_compute. reflexivity. Qed.

Lemma root_binds_events_witness :
  Example.events = Example.events ∨ collision_in sha256
    (event_messages (Example.events ++ Example.events) ++
     tree_messages Example.leaves ++ tree_messages Example.leaves).
Proof.
  apply (root_binds_events Example.events Example.leaves Example.events
           Example.leaves Example.root).
  1,2: repeat constructor; vm_compute; reflexivity.
  1,2: vm_compute; reflexivity.
  reflexivity.
Defined.
End witnesses.
