(* ===== verification/Signing.v ===== *)
(** * Manifest signatures ([wat/identity/manifest_signing.py])

    The shape checks, signing, verification and the wire envelope of an hourly
    manifest, function by function.  Ed25519 ([cryptography]) and [rfc8785]
    are third-party code: parameters, with their documented laws as classes.

    The theorems: which inputs are signable and what signing returns; a
    signature verifies under the signer's key in every mode; in strict mode
    only an Ed25519-valid signature over the canonical body is accepted; and
    the envelope, written and read back, still verifies. *)

From S2P Require Import Prelude PyStr Sha256 PyJson PyJsonLoads PyEqual Merkle.
From Stdlib Require Import ZArith Lia.

Open Scope Z_scope.

(** ** Third-party interfaces *)

(** [Ed25519PrivateKey.from_private_bytes], [.sign], [.public_key] and
    [Ed25519PublicKey.verify]. *)
Class Ed25519 := {
  ed_public : bytes → bytes;
  ed_sign : bytes → bytes → bytes;
  ed_verify : bytes → bytes → bytes → bool;
}.

Class Ed25519Laws `{Ed25519} : Prop := {
  ed_public_length seed : length seed = 32%nat → length (ed_public seed) = 32%nat;
  ed_sign_length seed m : length seed = 32%nat → length (ed_sign seed m) = 64%nat;
  ed_verify_sign seed m :
    length seed = 32%nat → ed_verify (ed_public seed) (ed_sign seed m) m = true;
}.

(** RFC 8785 text does not depend on the order of object members, here for
    values without floats. *)
Class Rfc8785Canonical `{Rfc8785} : Prop :=
  rfc8785_sort f j : rfc8785_dumps = Some f → json_wf j → f (json_sort j) = f j.

Notation dict := (list (str * json)).

(** ** Errors *)

(** [WatManifestSignatureError], one constructor per raise; the last three are
    exceptions of other types that pass through. *)
Inductive sig_error : Type :=
| BlockNotMapping
| BlockMissing (field : str)
| UnsupportedAlg
| BadKid
| SignatureNotString
| SignatureLength (n : nat)
| SignatureNotHex
| SignatureBytes (n : nat)
| VersionMissing
| VersionNotSignable
| SeedLength (n : nat)
| Unsigned
| PublicKeyMissing
| PublicKeyLength (n : nat)
| EnvelopeDecode
| EnvelopeNotObject
| UnhashableVersion     (* TypeError of the set membership test *)
| CanonicalisationError (* raised by rfc8785.dumps or by str.encode *)
| Rfc8785Missing.       (* ImportError of the module *)

#[export] Instance sig_error_eq_dec : EqDecision sig_error.
Proof. solve_decision. Defined.

Inductive VerifyMode : Type := PERMISSIVE | STRICT.

Module ManifestSigning.
Section signing.
Context `{Sha256, Rfc8785, Ed25519}.

Definition SIGNATURE_ALG : str := u "Ed25519".
Definition SIGNATURE_FIELD : str := u "signature".
Definition _SIGNATURE_HEX_LEN : nat := 128.
Definition _ED25519_KEY_LEN : nat := 32.

Definition _SIGNABLE_VERSIONS : list str :=
  [u "wat-manifest/1.0"; u "wat-manifest/2.0";
   u "wakir-wat-manifest/v1"; u "wakir-wat-manifest/v2"].

(** The membership loop over the required fields, then the field values. *)
Definition check_required (block : dict) : result sig_error () :=
  foldr (λ required rest,
           match dict_get block required with
           | None => Err (BlockMissing required)
           | Some _ => rest
           end) (Ok ()) [u "alg"; u "kid"; u "signature"].

Definition check_alg (alg : option json) : result sig_error () :=
  raise_if (match alg with
            | Some (JStr s) => negb (str_eqb s SIGNATURE_ALG)
            | _ => true
            end) UnsupportedAlg.

Definition check_kid (kid : option json) : result sig_error () :=
  match kid with
  | Some (JStr s) => raise_if (str_empty s) BadKid
  | _ => Err BadKid
  end.

Definition check_signature (sig : option json) : result sig_error () :=
  match sig with
  | Some (JStr sig_hex) =>
      raise_if (negb (Nat.eqb (length sig_hex) _SIGNATURE_HEX_LEN))
        (SignatureLength (length sig_hex));;
      sig_bytes ← of_option SignatureNotHex (bytes_fromhex sig_hex);
      raise_if (negb (Nat.eqb (length sig_bytes) 64))
        (SignatureBytes (length sig_bytes))
  | _ => Err SignatureNotString
  end.

Definition _validate_signature_block_shape (block : json) : result sig_error () :=
  match block with
  | JObj block =>
      check_required block;;
      check_alg (dict_get block (u "alg"));;
      check_kid (dict_get block (u "kid"));;
      check_signature (dict_get block (u "signature"))
  | _ => Err BlockNotMapping
  end.

Definition _validate_manifest_shape (manifest : dict) : result sig_error () :=
  match dict_get manifest (u "version") with
  | None => Err VersionMissing
  | Some (JStr version) =>
      raise_if (negb (bool_decide (version ∈ _SIGNABLE_VERSIONS))) VersionNotSignable
  | Some (JList _ | JObj _) => Err UnhashableVersion
  | Some _ => Err VersionNotSignable
  end.

(** The frozen dataclass; its constructor runs the two shape checks. *)
Record SignedWatManifest := MkSigned { manifest : dict; signature : json }.

Definition new_signed (m : dict) (s : json) : result sig_error SignedWatManifest :=
  _validate_manifest_shape m;;
  _validate_signature_block_shape s;;
  Ok (MkSigned m s).

Definition _canonical_signing_payload (manifest : dict) : result sig_error bytes :=
  let body := dict_pop manifest SIGNATURE_FIELD in
  dumps ← of_option Rfc8785Missing rfc8785_dumps;
  canonical ← of_option CanonicalisationError (dumps (JObj body));
  Ok (sha256 canonical).

Definition signature_block_of (kid : str) (raw_sig : bytes) : json :=
  JObj [(u "alg", JStr SIGNATURE_ALG); (u "kid", JStr kid);
        (u "signature", JStr (hex raw_sig))].

Definition sign_manifest (manifest : dict) (ed25519_priv_key : bytes) (kid : str)
    : result sig_error SignedWatManifest :=
  raise_if (negb (Nat.eqb (length ed25519_priv_key) _ED25519_KEY_LEN))
    (SeedLength (length ed25519_priv_key));;
  raise_if (str_empty kid) BadKid;;
  _validate_manifest_shape manifest;;
  let unsigned_body := dict_pop manifest SIGNATURE_FIELD in
  digest ← _canonical_signing_payload unsigned_body;
  let raw_sig := ed_sign ed25519_priv_key digest in
  new_signed unsigned_body (signature_block_of kid raw_sig).

(** The argument of [verify_manifest_signature]: a signed manifest or a
    mapping.  [JNull] stands for a [None] signature block. *)
Inductive signed_arg : Type :=
| Signed (s : SignedWatManifest)
| Plain (m : dict).

Definition split_signed (signed : signed_arg) (signature_block : json)
    : dict * json :=
  match signed with
  | Signed s => (manifest s, signature s)
  | Plain m =>
      match dict_get m SIGNATURE_FIELD, signature_block with
      | Some block, JNull => (dict_pop m SIGNATURE_FIELD, block)
      | _, _ => (m, signature_block)
      end
  end.

Definition verify_manifest_signature (signed : signed_arg)
    (ed25519_pub_key : option bytes) (mode : VerifyMode) (signature_block : json)
    : result sig_error bool :=
  let '(manifest, block) := split_signed signed signature_block in
  _validate_manifest_shape manifest;;
  match block with
  | JNull => match mode with PERMISSIVE => Ok true | STRICT => Err Unsigned end
  | _ =>
      _validate_signature_block_shape block;;
      pub ← of_option PublicKeyMissing ed25519_pub_key;
      raise_if (negb (Nat.eqb (length pub) _ED25519_KEY_LEN))
        (PublicKeyLength (length pub));;
      digest ← _canonical_signing_payload manifest;
      sig_hex ← match block with
                | JObj b =>
                    match dict_get b (u "signature") with
                    | Some (JStr s) => Ok s
                    | _ => Err SignatureNotString
                    end
                | _ => Err BlockNotMapping
                end;
      sig_bytes ← of_option SignatureNotHex (bytes_fromhex sig_hex);
      Ok (ed_verify pub sig_bytes digest)
  end.

Definition envelope_with_signature (signed : SignedWatManifest)
    : result sig_error bytes :=
  let payload := dict_set (manifest signed) SIGNATURE_FIELD (signature signed) in
  of_option CanonicalisationError
    (utf8_encode (json_dumps false true (JObj payload))).

Definition envelope_to_signed_manifest (blob : bytes) : result sig_error signed_arg :=
  text ← of_option EnvelopeDecode (utf8_decode blob);
  payload ← of_option EnvelopeDecode (json_loads text);
  match payload with
  | JObj payload =>
      match dict_get payload SIGNATURE_FIELD with
      | None => _validate_manifest_shape payload;; Ok (Plain payload)
      | Some signature_block =>
          let payload := dict_pop payload SIGNATURE_FIELD in
          _validate_manifest_shape payload;;
          _validate_signature_block_shape signature_block;;
          s ← new_signed payload signature_block;
          Ok (Signed s)
      end
  | _ => Err EnvelopeNotObject
  end.
End signing.
End ManifestSigning.

Import ManifestSigning.

(** ** Specification of the shapes *)

Definition signable (m : dict) : Prop :=
  ∃ v, dict_get m (u "version") = Some (JStr v) ∧ v ∈ _SIGNABLE_VERSIONS.

(** A well-formed signature block with its key identifier and raw bytes. *)
Definition block_ok (block : json) (kid : str) (raw : bytes) : Prop :=
  ∃ b s, block = JObj b ∧
    dict_get b (u "alg") = Some (JStr SIGNATURE_ALG) ∧
    dict_get b (u "kid") = Some (JStr kid) ∧ kid ≠ [] ∧
    dict_get b (u "signature") = Some (JStr s) ∧
    length s = 128%nat ∧ bytes_fromhex s = Some raw ∧ length raw = 64%nat.

Section shapes.

Lemma str_empty_false s : str_empty s = false ↔ s ≠ [].
Proof. by destruct s. Qed.

Lemma manifest_shape_ok m x : _validate_manifest_shape m = Ok x ↔ signable m.
Proof.
  unfold _validate_manifest_shape, signable. destruct x.
  destruct (dict_get m (u "version")) as [[]|]; try naive_solver.
  rewrite raise_if_ok, negb_false_iff, bool_decide_eq_true. naive_solver.
Qed.

Lemma check_signature_ok sig x :
  check_signature sig = Ok x ↔
  ∃ s raw, sig = Some (JStr s) ∧ length s = 128%nat ∧
    bytes_fromhex s = Some raw ∧ length raw = 64%nat.
Proof.
  unfold check_signature. split.
  - intros Hs. destruct sig as [[]|]; try done. run_ok. propify. eauto 8.
  - intros (s & raw & -> & Hl & Hr & Hraw). cbn -[Nat.eqb].
    rewrite Hl, Hr. cbn -[Nat.eqb]. rewrite Hraw. by destruct x.
Qed.

Lemma block_shape_ok block x :
  _validate_signature_block_shape block = Ok x ↔ ∃ kid raw, block_ok block kid raw.
Proof.
  unfold block_ok. split.
  - unfold _validate_signature_block_shape. destruct block as [| | | | | |b]; try done.
    intros H. run_ok. apply check_signature_ok in H as (s & raw & Hs & ?).
    rename select (check_kid _ = _) into Hk. rename select (check_alg _ = _) into Ha.
    unfold check_kid in Hk. unfold check_alg in Ha. run_ok.
    destruct (dict_get b (u "kid")) as [[]|] eqn:Ek; try done. run_ok.
    destruct (dict_get b (u "alg")) as [[]|] eqn:Ea; try done.
    apply negb_false_iff, bool_decide_eq_true in Ha as ->.
    apply str_empty_false in Hk. destruct H as (?&?&?).
    by exists s0, raw, b, s.
  - intros (kid & raw & b & s & -> & Ha & Hk & Hne & Hs & Hl & Hr & Hraw).
    assert (check_signature (dict_get b (u "signature")) = Ok x) as Hc.
    { apply check_signature_ok. by exists s, raw. }
    cbn -[check_signature]. rewrite Hc, Ha, Hk, Hs. cbn.
    by destruct kid, x.
Qed.

Lemma hex_block kid raw :
  kid ≠ [] → length raw = 64%nat → block_ok (signature_block_of kid raw) kid raw.
Proof.
  intros Hk Hr. eexists _, (hex raw). split_and!; try done.
  - by rewrite length_hex, Hr.
  - apply bytes_fromhex_hex.
Qed.

Lemma block_ok_fun block k1 r1 k2 r2 :
  block_ok block k1 r1 → block_ok block k2 r2 → k1 = k2 ∧ r1 = r2.
Proof.
  intros (b & s & -> & _ & Hk & _ & Hs & _ & Hr & _)
         (b' & s' & [= <-] & _ & Hk' & _ & Hs' & _ & Hr' & _). by simplify_eq.
Qed.

Lemma signable_pop m : signable (dict_pop m SIGNATURE_FIELD) ↔ signable m.
Proof. unfold signable. by rewrite dict_get_pop. Qed.

Lemma signable_set m v : signable (dict_set m SIGNATURE_FIELD v) ↔ signable m.
Proof. unfold signable. by rewrite dict_get_set. Qed.
End shapes.

(** ** Signing and verification *)

Section properties.
Context `{Sha256, Rfc8785, Ed25519}.

(** The digest that is signed: the canonical body without a signature. *)
Definition signing_digest (m : dict) (d : bytes) : Prop :=
  ∃ dumps c, rfc8785_dumps = Some dumps ∧
    dumps (JObj (dict_pop m SIGNATURE_FIELD)) = Some c ∧ d = sha256 c.

Lemma payload_ok m d : _canonical_signing_payload m = Ok d ↔ signing_digest m d.
Proof.
  unfold _canonical_signing_payload, signing_digest. split.
  - intros Hd. run_ok. eauto.
  - intros (dumps & c & Hd & Hc & ->). rewrite Hd. cbn. by rewrite Hc.
Qed.

Lemma signing_digest_pop m d :
  signing_digest (dict_pop m SIGNATURE_FIELD) d ↔ signing_digest m d.
Proof. unfold signing_digest. by rewrite dict_pop_pop. Qed.

Lemma signing_digest_set m v d :
  signing_digest (dict_set m SIGNATURE_FIELD v) d ↔ signing_digest m d.
Proof. unfold signing_digest. by rewrite dict_pop_set. Qed.

(** A block carrying an Ed25519-valid signature of the manifest. *)
Definition signature_valid (m : dict) (block : json) (pub : option bytes) : Prop :=
  ∃ pk kid raw d, pub = Some pk ∧ length pk = 32%nat ∧ block_ok block kid raw ∧
    signing_digest m d ∧ ed_verify pk raw d = true.

Lemma verify_accepts signed pub mode blk :
  verify_manifest_signature signed pub mode blk = Ok true ↔
  let '(m, block) := split_signed signed blk in
  signable m ∧
  (block = JNull ∧ mode = PERMISSIVE ∨ signature_valid m block pub).
Proof.
  unfold verify_manifest_signature. destruct (split_signed signed blk) as [m block].
  split.
  - intros Hv. run_ok. rename select (_validate_manifest_shape m = _) into Hm.
    apply manifest_shape_ok in Hm. split; [done|].
    destruct block as [| | | | | |b]; [left; by destruct mode|try done..].
    right. run_ok. rename select (_validate_signature_block_shape _ = _) into Hb.
    apply block_shape_ok in Hb as (kid & raw & Hb). pose proof Hb as Hb'.
    destruct Hb as (b' & s & [= <-] & Ha & Hk & Hne & Hs & Hl & Hr & Hraw).
    rewrite Hs in *. run_ok.
    rename select (_canonical_signing_payload m = _) into Hd.
    apply payload_ok in Hd.
    rename select (negb _ = false) into Hpk. apply negb_false_iff, Nat.eqb_eq in Hpk.
    simplify_eq. eexists _, kid, raw, _. naive_solver.
  - intros [Hm Hc]. apply (manifest_shape_ok _ ()) in Hm as ->. cbn [mbind result_bind].
    destruct Hc as [[-> ->]|(pk & kid & raw & d & -> & Hpk & Hb & Hd & Hv)]; [done|].
    pose proof Hb as (b & s & -> & _ & _ & _ & Hs & _ & Hr & _).
    assert (_validate_signature_block_shape (JObj b) = Ok ()) as ->
      by (apply block_shape_ok; eauto).
    apply payload_ok in Hd. cbn -[Nat.eqb]. unfold _ED25519_KEY_LEN.
    rewrite Hpk, Hd, Hs. cbn. rewrite Hr. cbn. by rewrite Hv.
Qed.

Context `{!Ed25519Laws}.

Lemma sign_ok m seed kid s :
  sign_manifest m seed kid = Ok s ↔
  length seed = 32%nat ∧ kid ≠ [] ∧ signable m ∧
  ∃ d, signing_digest m d ∧
    s = MkSigned (dict_pop m SIGNATURE_FIELD)
          (signature_block_of kid (ed_sign seed d)).
Proof.
  unfold sign_manifest, new_signed. split.
  - intros Hs. run_ok. propify.
    rename select (str_empty kid = false) into Hk. apply str_empty_false in Hk.
    rename select (_validate_manifest_shape m = _) into Hm.
    apply manifest_shape_ok in Hm.
    rename select (_canonical_signing_payload _ = _) into Hd.
    rewrite payload_ok, signing_digest_pop in Hd. split_and!; [done..|]. by eexists.
  - intros (Hl & Hk & Hm & d & Hd & ->). rewrite Hl.
    apply str_empty_false in Hk as Hk'. rewrite Hk'. cbn -[_validate_manifest_shape
      _validate_signature_block_shape signature_block_of _canonical_signing_payload].
    apply (manifest_shape_ok _ ()) in Hm as Hm'. rewrite Hm'. cbn [mbind result_bind].
    rewrite <- signing_digest_pop, <- payload_ok in Hd. rewrite Hd. cbn [mbind result_bind].
    rewrite <- signable_pop, <- (manifest_shape_ok _ ()) in Hm. rewrite Hm. cbn [mbind result_bind].
    assert (_validate_signature_block_shape (signature_block_of kid (ed_sign seed d))
            = Ok ()) as ->; [|done].
    apply block_shape_ok. exists kid, (ed_sign seed d).
    apply hex_block; [done|]. by apply ed_sign_length.
Qed.

Lemma sign_verifies m seed kid s mode :
  sign_manifest m seed kid = Ok s →
  let pub := Some (ed_public seed) in
  let inside := dict_set (manifest s) SIGNATURE_FIELD (signature s) in
  verify_manifest_signature (Signed s) pub mode JNull = Ok true ∧
  verify_manifest_signature (Plain inside) pub mode JNull = Ok true ∧
  verify_manifest_signature (Plain (manifest s)) pub mode (signature s) = Ok true.
Proof.
  intros (Hl & Hk & Hm & d & Hd & ->)%sign_ok. cbv zeta.
  cbn [manifest signature].
  assert (signature_valid (dict_pop m SIGNATURE_FIELD)
            (signature_block_of kid (ed_sign seed d)) (Some (ed_public seed))) as Hv.
  { eexists _, kid, _, d. split_and!; [done|by apply ed_public_length|..].
    - apply hex_block; [done|]. by apply ed_sign_length.
    - by apply signing_digest_pop.
    - by apply ed_verify_sign. }
  assert (signable (dict_pop m SIGNATURE_FIELD)) by by apply signable_pop.
  rewrite !verify_accepts. cbn [split_signed manifest signature].
  rewrite dict_get_set, dict_get_pop, !decide_True, dict_pop_set, dict_pop_pop by done.
  cbn [signature_block_of]. auto.
Qed.

(** [sign_manifest] succeeds exactly on a 32-byte seed, a non-empty
    key identifier and a manifest of a signable version that [rfc8785] can
    canonicalise; it returns the manifest without any previous signature and
    a block signing the digest of its canonical text. *)
Theorem sign_manifest_spec m seed kid s :
  sign_manifest m seed kid = Ok s ↔
  length seed = 32%nat ∧ kid ≠ [] ∧ signable m ∧
  ∃ d, signing_digest m d ∧
    s = MkSigned (dict_pop m SIGNATURE_FIELD)
          (signature_block_of kid (ed_sign seed d)).
Proof. apply sign_ok. Qed.

(** C3: What [sign_manifest] returned verifies under the signer's public
    key in both modes, whether it is passed as a signed manifest, as a mapping
    with the block inside, or as a mapping with the block beside it. *)
Theorem sign_manifest_verifies m seed kid s mode :
  sign_manifest m seed kid = Ok s →
  let pub := Some (ed_public seed) in
  let inside := dict_set (manifest s) SIGNATURE_FIELD (signature s) in
  verify_manifest_signature (Signed s) pub mode JNull = Ok true ∧
  verify_manifest_signature (Plain inside) pub mode JNull = Ok true ∧
  verify_manifest_signature (Plain (manifest s)) pub mode (signature s) = Ok true.
Proof. apply sign_verifies. Qed.

(** C4: In strict mode a manifest is accepted exactly when its version is
    signable and its block is well formed and carries, for a 32-byte public
    key that was supplied, an Ed25519-valid signature of the digest of the
    canonical body.  An unsigned manifest is never accepted. *)
Theorem verify_strict_iff signed pub blk :
  verify_manifest_signature signed pub STRICT blk = Ok true ↔
  let '(m, block) := split_signed signed blk in
  signable m ∧ signature_valid m block pub.
Proof.
  rewrite verify_accepts. destruct (split_signed signed blk) as [m block].
  naive_solver.
Qed.

(** *** The envelope *)

Lemma sorted_members d :
  json_sort (JObj d) =
  JObj (py_sorted key_leb ((λ kv, (kv.1, json_sort kv.2)) <$> d)).
Proof. done. Qed.

Lemma dict_pop_sorted d k :
  dict_pop (py_sorted key_leb ((λ kv, (kv.1, json_sort kv.2)) <$> d)) k =
  py_sorted key_leb ((λ kv, (kv.1, json_sort kv.2)) <$> dict_pop d k).
Proof.
  unfold dict_pop. rewrite (py_sorted_filter key_leb). f_equal.
  induction d as [|[k0 v0] d IH]; csimpl; [done|].
  rewrite !filter_cons. simpl. destruct (decide (k0 ≠ k)); csimpl; [|done].
  by rewrite IH.
Qed.

Lemma json_sort_block kid raw :
  json_sort (signature_block_of kid raw) = signature_block_of kid raw.
Proof. unfold signature_block_of, SIGNATURE_ALG. ulit. reflexivity. Qed.

Lemma json_wf_pop m : json_wf (JObj m) → json_wf (JObj (dict_pop m SIGNATURE_FIELD)).
Proof.
  rewrite !json_wf_obj. intros [Hnd Hm]. unfold dict_pop. split.
  - revert Hnd. induction m as [|[k v] m IH]; csimpl; [done|].
    intros [Hk Hnd]%NoDup_cons. apply Forall_cons in Hm as [_ Hm].
    rewrite filter_cons. case_decide; [|by apply IH]. csimpl.
    constructor; [|by apply IH].
    intros (kv & -> & [_ Hin]%list_elem_of_filter)%list_elem_of_fmap.
    apply Hk, list_elem_of_fmap. eauto.
  - rewrite Forall_forall in *.
    intros kv [_ Hin]%list_elem_of_filter. by apply Hm.
Qed.

Lemma okstr_hex b : okstr (hex b).
Proof.
  apply okstr_Forall, Forall_forall. intros c Hc. unfold hex in Hc.
  apply list_elem_of_bind in Hc as (x & Hc & _). pose proof (Z_of_byte_range x).
  assert (∀ n, 0 ≤ n < 16 → 48 ≤ hex_digit n ≤ 102) as Hd.
  { intros n Hn. unfold hex_digit. destruct (Z.ltb_spec n 10); lia. }
  apply okchar_range. unfold hex_byte in Hc.
  apply elem_of_cons in Hc as [->|Hc]; [|apply list_elem_of_singleton in Hc as ->];
    match goal with |- context [hex_digit ?n] => specialize (Hd n) end;
    destruct Hd; (lia || divlia).
Qed.

Lemma block_wf kid raw : okstr kid → json_wf (signature_block_of kid raw).
Proof.
  intros Hk. apply json_wf_obj. split.
  - apply (bool_decide_unpack _). by vm_compute.
  - pose proof (okstr_hex raw). repeat constructor; done.
Qed.

Lemma body_with_block_wf m block :
  json_wf (JObj m) → json_wf block →
  json_wf (JObj (dict_pop m SIGNATURE_FIELD ++ [(SIGNATURE_FIELD, block)])).
Proof.
  intros Hm Hb. apply json_wf_pop, json_wf_obj in Hm as [Hnd Hall].
  apply json_wf_obj. rewrite fmap_app, Forall_app. split; [|split; [done|]].
  - apply NoDup_app. split_and!; [done| |apply NoDup_singleton].
    intros x Hx ->%list_elem_of_singleton. by apply dict_pop_keys in Hx.
  - by repeat constructor.
Qed.

Lemma signable_sorted d m :
  NoDup d.*1 → json_sort (JObj d) = JObj m → signable d → signable m.
Proof.
  intros Hnd [= <-] (v & Hv & Hin). exists v. split; [|done].
  by rewrite dict_get_sorted, Hv.
Qed.

Context `{!Rfc8785Canonical}.

Lemma signing_digest_sorted d m x :
  json_wf (JObj d) → SIGNATURE_FIELD ∉ d.*1 → json_sort (JObj d) = JObj m →
  signing_digest d x → signing_digest m x.
Proof.
  intros Hwf Hd [= <-] (dumps & c & Hdumps & Hc & ->). exists dumps, c.
  rewrite dict_pop_sorted. rewrite dict_pop_absent in * by done.
  split_and!; [done| |done].
  change (dumps (json_sort (JObj d)) = Some c). by rewrite rfc8785_sort.
Qed.

(** A signed manifest that is written to its wire envelope and read
    back is a signed manifest again, with the same signature block and the
    same members up to their order, and it still verifies in strict mode. *)
Theorem envelope_roundtrip m seed kid s blob :
  json_wf (JObj m) → okstr kid →
  sign_manifest m seed kid = Ok s → envelope_with_signature s = Ok blob →
  ∃ s', envelope_to_signed_manifest blob = Ok (Signed s') ∧
    signature s' = signature s ∧
    json_sort (JObj (manifest s)) = JObj (manifest s') ∧
    verify_manifest_signature (Signed s') (Some (ed_public seed)) STRICT JNull
      = Ok true.
Proof.
  intros Hwf Hkid (Hl & Hk & Hm & d & Hd & ->)%sign_ok Hb.
  unfold envelope_with_signature in Hb. cbn [manifest signature] in *.
  set (block := signature_block_of kid (ed_sign seed d)) in *.
  pose proof (dict_pop_keys m SIGNATURE_FIELD) as Hnew.
  assert (json_wf (JObj (dict_pop m SIGNATURE_FIELD ++ [(SIGNATURE_FIELD, block)])))
    as Hwf' by (by apply body_with_block_wf, block_wf).
  apply json_wf_pop in Hwf. set (body := dict_pop m SIGNATURE_FIELD) in *.
  rewrite dict_set_new in Hb by done.
  apply of_option_ok, utf8_decode_encode in Hb.
  unfold envelope_to_signed_manifest, new_signed. rewrite Hb. cbn [mbind result_bind of_option].
  rewrite json_loads_dumps by done. cbn [mbind result_bind of_option].
  pose proof (proj1 (json_wf_obj _) Hwf) as [Hnd _]. apply json_wf_obj in Hwf' as [Hnd' _].
  rewrite sorted_members, dict_get_sorted, dict_pop_sorted by done.
  assert (dict_get (body ++ [(SIGNATURE_FIELD, block)]) SIGNATURE_FIELD = Some block)
    as -> by (rewrite <- dict_set_new, dict_get_set, decide_True by done; done).
  assert (dict_pop (body ++ [(SIGNATURE_FIELD, block)]) SIGNATURE_FIELD = body) as ->
    by (rewrite <- dict_set_new, dict_pop_set, dict_pop_absent by done; done).
  cbn [fmap option_fmap option_map]. rewrite (json_sort_block _ _ : json_sort block = block).
  set (body' := py_sorted key_leb _).
  assert (json_sort (JObj body) = JObj body') as Hsort by done.
  assert (signable body') as Hm' by (by eapply signable_sorted, signable_pop).
  assert (block_ok block kid (ed_sign seed d)) as Hok
    by (by apply hex_block; [|apply ed_sign_length]).
  rewrite (proj2 (manifest_shape_ok _ ()) Hm').
  rewrite (proj2 (block_shape_ok block ())) by eauto.
  exists (MkSigned body' block). split_and!; [done..|].
  apply verify_strict_iff. split; [done|].
  exists (ed_public seed), kid, (ed_sign seed d), d.
  split_and!; [done|by apply ed_public_length|done| |by apply ed_verify_sign].
  eapply signing_digest_sorted; [exact Hwf|exact Hnew|done|by apply signing_digest_pop].
Qed.
End properties.

(** ** Concrete instances *)

(** A signature scheme with the documented interface (and no secrecy): the
    public key is the seed, a signature is the key followed by the digest. *)
Definition plain_ed25519 : Ed25519 := {|
  ed_public seed := seed;
  ed_sign seed m := seed ++ checksum m;
  ed_verify pub sig m := bool_decide (sig = pub ++ checksum m);
|}.

Lemma plain_ed25519_laws : @Ed25519Laws plain_ed25519.
Proof.
  split; intros; cbn -[checksum length].
  - done.
  - rewrite length_app. change (length (checksum m)) with 32%nat. lia.
  - by apply bool_decide_eq_true.
Qed.

Lemma std_canonical : @Rfc8785Canonical std_rfc8785.
Proof. intros f j [= <-] _. apply std_rfc8785_canonical. Qed.

Module Example.
#[local] Existing Instance checksum_sha256.
#[local] Existing Instance std_rfc8785.
#[local] Existing Instance plain_ed25519.

Definition seed : bytes := replicate 32 Byte.x2a.
Definition manifest1 : dict :=
  [(u "version", JStr (u "wakir-wat-manifest/v1")); (u "event_count", JInt 3)].
Definition signed1 : SignedWatManifest :=
  match sign_manifest manifest1 seed (u "wat-1") with
  | Ok s => s
  | Err _ => MkSigned [] JNull
  end.
Definition blob1 : bytes :=
  match envelope_with_signature signed1 with Ok b => b | Err _ => [] end.

End Example.

Section witnesses.
#[local] Existing Instance checksum_sha256.
#[local] Existing Instance std_rfc8785.
#[local] Existing Instance std_canonical.
#[local] Existing Instance plain_ed25519.
#[local] Existing Instance plain_ed25519_laws.
Import Example.

Lemma sign_manifest_spec_witness :
  sign_manifest manifest1 seed (u "wat-1") = Ok signed1 ↔
  length seed = 32%nat ∧ u "wat-1" ≠ [] ∧ signable manifest1 ∧
  ∃ d, signing_digest manifest1 d ∧
    signed1 = MkSigned (dict_pop manifest1 SIGNATURE_FIELD)
                (signature_block_of (u "wat-1") (ed_sign seed d)).
Proof. apply (sign_manifest_spec manifest1 seed (u "wat-1") signed1). Defined.

Lemma sign_manifest_verifies_witness :
  verify_manifest_signature (Signed signed1) (Some (ed_public seed)) STRICT JNull
    = Ok true.
Proof.
  destruct (sign_manifest_verifies manifest1 seed (u "wat-1") signed1 STRICT)
    as [Hv _]; [vm_compute; reflexivity|exact Hv].
Defined.

Lemma envelope_roundtrip_witness :
  ∃ s', envelope_to_signed_manifest blob1 = Ok (Signed s') ∧
    signature s' = signature signed1 ∧
    json_sort (JObj (manifest signed1)) = JObj (manifest s') ∧
    verify_manifest_signature (Signed s') (Some (ed_public seed)) STRICT JNull
      = Ok true.
Proof.
  apply (envelope_roundtrip manifest1 seed (u "wat-1") signed1 blob1).
  - split; [apply (bool_decide_unpack _); vm_compute; done|].
    vm_compute. done.
  - vm_compute. reflexivity.
  - vm_compute. reflexivity.
  - vm_compute. reflexivity.
Defined.
End witnesses.
