(* ===== verification/KeyDerivation.v ===== *)
(** * Key derivation ([wirelang/identity/key_derivation.py])

    Hierarchical keys from one persona seed: BIP-32 on secp256k1 and SLIP-0010
    on Ed25519, both on HMAC-SHA512, hardened paths only.  The points of
    secp256k1 and the public keys of Ed25519 come from the third-party package
    [cryptography] and are parameters.

    The theorems: which arguments are accepted; a derived Ed25519 key
    determines the seed and the path, or two inputs of HMAC-SHA512 agree on half of
    its output; a derived secp256k1 key is a scalar of the group.  The
    derivation is checked on the first test vectors of both documents. *)

From S2P Require Import Prelude PyStr Sha256 Sha512 PyJson Merkle Signing.
From Stdlib Require Import ZArith Lia.
From Stdlib Require Import Strings.Byte.

Open Scope Z_scope.

(** ** Integers and bytes *)

(** [int.from_bytes(b, "big")] *)
Definition from_be (b : bytes) : Z := foldl (λ a x, 256 * a + Z_of_byte x) 0 b.

(** [x.to_bytes(n, "big")] of a number in range, and [struct.pack(">I", x)]. *)
Definition to_be (n : nat) (x : Z) : bytes := Fips.be n x.

Inductive key_error : Type :=
| SeedLength          (* ValueError, as all the others *)
| InvalidMaster
| IndexRange
| NotHardened
| InvalidChild
| InvalidChildZero
| PersonaRange
| SpawnRange
| PrivateKeyLength
| NotAScalar.         (* of the package *)

(** [ec.derive_private_key(x, SECP256K1()).public_key()], compressed or not;
    [None] is the ValueError for a number that is no private key. *)
Class Secp256k1 := { secp_public : Z → bool → option bytes }.

Module KeyDerivation.
Section derivation.
Context `{HmacSha512}.

Definition WAKIR_COIN_TYPE : Z := 0x57414B49.
Definition HARDENED_OFFSET : Z := 0x80000000.
Definition SECP256K1_N : Z :=
  0xFFFFFFFFFFFFFFFFFFFFFFFFFFFFFFFEBAAEDCE6AF48A03BBFD25E8CD0364141.

Record _ExtendedKey : Type := MkKey { private_key : bytes; chain_code : bytes }.

Definition _hmac_sha512 (key data : bytes) : bytes := hmac_sha512 key data.

Definition text (s : String.string) : bytes := byte_of_Z <$> u s.

Definition seed_length_ok (seed : bytes) : bool :=
  Nat.leb 16 (length seed) && Nat.leb (length seed) 64.

(** ** secp256k1 *)

Definition _secp256k1_master_from_seed (seed : bytes) : result key_error _ExtendedKey :=
  raise_if (negb (seed_length_ok seed)) SeedLength;;
  let i := _hmac_sha512 (text "Bitcoin seed") seed in
  let il := take 32 i in
  let ir := drop 32 i in
  let il_int := from_be il in
  raise_if ((il_int =? 0) || (SECP256K1_N <=? il_int)) InvalidMaster;;
  Ok (MkKey il ir).

Definition _secp256k1_pubkey_compressed `{Secp256k1} (priv32 : bytes) : result key_error bytes :=
  of_option NotAScalar (secp_public (from_be priv32) true).

Definition _ckd_priv_secp256k1 `{Secp256k1} (parent : _ExtendedKey) (index : Z)
    : result key_error _ExtendedKey :=
  raise_if ((index <? 0) || (2 ^ 32 <=? index)) IndexRange;;
  data ←
    (if HARDENED_OFFSET <=? index
     then Ok (Byte.x00 :: private_key parent ++ to_be 4 index)
     else
       point ← _secp256k1_pubkey_compressed (private_key parent);
       Ok (point ++ to_be 4 index));
  let i := _hmac_sha512 (chain_code parent) data in
  let il := take 32 i in
  let ir := drop 32 i in
  let il_int := from_be il in
  raise_if (SECP256K1_N <=? il_int) InvalidChild;;
  let parent_int := from_be (private_key parent) in
  let child_int := (il_int + parent_int) `mod` SECP256K1_N in
  raise_if (child_int =? 0) InvalidChildZero;;
  Ok (MkKey (to_be 32 child_int) ir).

Definition derive_persona_master_secp256k1 (seed : bytes) : result key_error bytes :=
  master ← _secp256k1_master_from_seed seed; Ok (private_key master).

(** The loop over a path; every index is hardened. *)
Fixpoint derive_path (ckd : _ExtendedKey → Z → result key_error _ExtendedKey)
    (node : _ExtendedKey) (path : list Z) : result key_error _ExtendedKey :=
  match path with
  | [] => Ok node
  | i :: path' => node' ← ckd node (i + HARDENED_OFFSET); derive_path ckd node' path'
  end.

Definition in_offset (i : Z) : bool := (0 <=? i) && (i <? HARDENED_OFFSET).

Definition derive_sub_key_secp256k1 `{Secp256k1} (seed : bytes) (persona_idx spawn_counter : Z)
    : result key_error bytes :=
  raise_if (negb (in_offset persona_idx)) PersonaRange;;
  raise_if (negb (in_offset spawn_counter)) SpawnRange;;
  node ← _secp256k1_master_from_seed seed;
  node ← derive_path _ckd_priv_secp256k1 node [44; WAKIR_COIN_TYPE; persona_idx; spawn_counter];
  Ok (private_key node).

(** ** Ed25519 *)

Definition _ed25519_master_from_seed (seed : bytes) : result key_error _ExtendedKey :=
  raise_if (negb (seed_length_ok seed)) SeedLength;;
  let i := _hmac_sha512 (text "ed25519 seed") seed in
  Ok (MkKey (take 32 i) (drop 32 i)).

Definition _ckd_priv_ed25519 (parent : _ExtendedKey) (index : Z)
    : result key_error _ExtendedKey :=
  raise_if ((index <? HARDENED_OFFSET) || (2 ^ 32 <=? index)) NotHardened;;
  let data := Byte.x00 :: private_key parent ++ to_be 4 index in
  let i := _hmac_sha512 (chain_code parent) data in
  Ok (MkKey (take 32 i) (drop 32 i)).

Definition derive_persona_master_ed25519 (seed : bytes) : result key_error bytes :=
  master ← _ed25519_master_from_seed seed; Ok (private_key master).

Definition derive_sub_key_ed25519 (seed : bytes) (persona_idx spawn_counter : Z)
    : result key_error bytes :=
  raise_if (negb (in_offset persona_idx)) PersonaRange;;
  raise_if (negb (in_offset spawn_counter)) SpawnRange;;
  node ← _ed25519_master_from_seed seed;
  node ← derive_path _ckd_priv_ed25519 node [44; WAKIR_COIN_TYPE; persona_idx; spawn_counter];
  Ok (private_key node).

(** ** Public keys *)

Definition secp256k1_public_from_private `{Secp256k1} (priv32 : bytes) (compressed : bool)
    : result key_error bytes :=
  raise_if (negb (Nat.eqb (length priv32) 32)) PrivateKeyLength;;
  of_option NotAScalar (secp_public (from_be priv32) compressed).

Definition ed25519_public_from_private `{Ed25519} (priv32 : bytes) : result key_error bytes :=
  raise_if (negb (Nat.eqb (length priv32) 32)) PrivateKeyLength;;
  Ok (ed_public priv32).
End derivation.
End KeyDerivation.
Import KeyDerivation.

(** ** Lemmas *)

Lemma Z_of_byte_mod z : Z_of_byte (byte_of_Z z) = z `mod` 256.
Proof.
  assert (byte_of_Z z = byte_of_Z (z `mod` 256)) as ->
    by (unfold byte_of_Z; by rewrite Z.mod_mod).
  apply Z_of_byte_of_Z, Z.mod_pos_bound. lia.
Qed.

Lemma from_be_app a b : from_be (a ++ b) = from_be a * 256 ^ Z.of_nat (length b) + from_be b.
Proof.
  induction b as [|x b IH] using rev_ind; [rewrite app_nil_r; cbn; lia|].
  rewrite app_assoc. unfold from_be in *. rewrite !foldl_snoc, IH, length_app. cbn [length].
  rewrite Nat2Z.inj_add, Z.pow_add_r by lia. change (Z.of_nat 1) with 1. rewrite Z.pow_1_r. lia.
Qed.

Lemma length_to_be n x : length (to_be n x) = n.
Proof. unfold to_be, Fips.be. by rewrite length_fmap, length_reverse, length_seq. Qed.

Lemma to_be_S n x : to_be (S n) x = byte_of_Z (Z.shiftr x (8 * Z.of_nat n)) :: to_be n x.
Proof. unfold to_be, Fips.be. by rewrite seq_S, reverse_app. Qed.

Lemma from_to_be n x : from_be (to_be n x) = x `mod` 256 ^ Z.of_nat n.
Proof.
  induction n as [|n IH]; [cbn; by rewrite Z.mod_1_r|].
  rewrite to_be_S. change (?b :: ?l) with ([b] ++ l).
  rewrite from_be_app, IH, length_to_be. cbn [from_be foldl]. rewrite Z_of_byte_mod.
  rewrite Z.shiftr_div_pow2 by lia.
  replace (2 ^ (8 * Z.of_nat n)) with (256 ^ Z.of_nat n) by (rewrite Z.pow_mul_r by lia; done).
  replace (256 ^ Z.of_nat (S n)) with (256 ^ Z.of_nat n * 256)
    by (rewrite Nat2Z.inj_succ, Z.pow_succ_r by lia; lia).
  rewrite Z.rem_mul_r by lia. lia.
Qed.

Lemma to_be_inj n x y :
  0 ≤ x < 256 ^ Z.of_nat n → 0 ≤ y < 256 ^ Z.of_nat n → to_be n x = to_be n y → x = y.
Proof.
  intros Hx Hy E%(f_equal from_be). rewrite !from_to_be in E. by rewrite !Z.mod_small in E.
Qed.

Lemma from_be_bound b : 0 ≤ from_be b < 256 ^ Z.of_nat (length b).
Proof.
  induction b as [|x b IH] using rev_ind; [cbn; lia|].
  rewrite from_be_app, length_app. cbn [from_be foldl length].
  pose proof (Z_of_byte_range x). rewrite Nat2Z.inj_add, Z.pow_add_r by lia.
  change (Z.of_nat 1) with 1. rewrite Z.pow_1_r. fold (from_be b) in *. lia.
Qed.

Section properties.
Context `{HmacSha512}.

(** A node as the derivation produces it. *)
Definition node_ok (n : _ExtendedKey) : Prop :=
  length (private_key n) = 32%nat ∧ length (chain_code n) = 32%nat.

Lemma halves_ok key data : node_ok (MkKey (take 32 (hmac_sha512 key data)) (drop 32 (hmac_sha512 key data))).
Proof.
  unfold node_ok. cbn [private_key chain_code].
  by rewrite length_take, length_drop, hmac_sha512_length.
Qed.

Lemma ed_master_ok seed :
  _ed25519_master_from_seed seed =
  if seed_length_ok seed
  then Ok (MkKey (take 32 (hmac_sha512 (text "ed25519 seed") seed))
                 (drop 32 (hmac_sha512 (text "ed25519 seed") seed)))
  else Err SeedLength.
Proof. unfold _ed25519_master_from_seed. by destruct (seed_length_ok seed). Qed.

(** A hardened index of the path is always accepted on Ed25519. *)
Lemma ckd_ed_hardened n i :
  in_offset i = true →
  _ckd_priv_ed25519 n (i + HARDENED_OFFSET) =
  let code := hmac_sha512 (chain_code n)
    (Byte.x00 :: private_key n ++ to_be 4 (i + HARDENED_OFFSET)) in
  Ok (MkKey (take 32 code) (drop 32 code)).
Proof.
  unfold in_offset, _ckd_priv_ed25519, HARDENED_OFFSET. propify. intros [Hi Hlt].
  rewrite (proj2 (Z.ltb_ge _ _)), (proj2 (Z.leb_gt _ _)) by lia. done.
Qed.

Lemma ed_path_total n path :
  node_ok n → Forall (λ i, in_offset i = true) path →
  ∃ m, derive_path _ckd_priv_ed25519 n path = Ok m ∧ node_ok m.
Proof.
  intros Hn Hp. revert n Hn. induction Hp as [|i path Hi _ IH]; intros n Hn; [by exists n|].
  cbn [derive_path]. rewrite ckd_ed_hardened by done. cbn [mbind result_bind].
  apply IH, halves_ok.
Qed.

(** The inputs of HMAC-SHA512 along a path, and for a key. *)
Fixpoint path_messages (n : _ExtendedKey) (path : list Z) : list (bytes * bytes) :=
  match path with
  | [] => []
  | i :: path =>
      let input := (chain_code n, Byte.x00 :: private_key n ++ to_be 4 (i + HARDENED_OFFSET)) in
      let code := hmac_sha512 input.1 input.2 in
      input :: path_messages (MkKey (take 32 code) (drop 32 code)) path
  end.
Definition key_messages (seed : bytes) (p c : Z) : list (bytes * bytes) :=
  let code := hmac_sha512 (text "ed25519 seed") seed in
  (text "ed25519 seed", seed) :: path_messages (MkKey (take 32 code) (drop 32 code)) [44; WAKIR_COIN_TYPE; p; c].

(** Two equal keys at the end of two paths of the same length. *)
Lemma ed_path_inj path1 path2 n1 n2 m1 m2 :
  length path1 = length path2 → node_ok n1 → node_ok n2 →
  Forall (λ i, in_offset i = true) path1 → Forall (λ i, in_offset i = true) path2 →
  derive_path _ckd_priv_ed25519 n1 path1 = Ok m1 →
  derive_path _ckd_priv_ed25519 n2 path2 = Ok m2 → private_key m1 = private_key m2 →
  (path1 = path2 ∧ private_key n1 = private_key n2) ∨
  collision_in hmac_half (path_messages n1 path1 ++ path_messages n2 path2).
Proof.
  revert path2 n1 n2. induction path1 as [|i1 path1 IH]; intros [|i2 path2] n1 n2; try done.
  { intros _ _ _ _ _ [= ->] [= ->] E. by left. }
  intros [= Hl] [Hp1 Hc1] [Hp2 Hc2] [Hi1 Hf1]%Forall_cons [Hi2 Hf2]%Forall_cons.
  cbn [derive_path]. rewrite !ckd_ed_hardened by done. cbn [mbind result_bind].
  intros H1 H2 E.
  cbn [path_messages]. cbn zeta. cbn [fst snd].
  destruct (IH _ _ _ Hl (halves_ok _ _) (halves_ok _ _) Hf1 Hf2 H1 H2 E) as [[-> Ek]|Hcol];
    [|right; revert Hcol; apply collision_in_mono; set_solver].
  cbn [private_key] in Ek. set (ms := _ ++ _).
  destruct (eq_or_collision hmac_half ms (chain_code n1, Byte.x00 :: private_key n1 ++ to_be 4 (i1 + HARDENED_OFFSET))
    (chain_code n2, Byte.x00 :: private_key n2 ++ to_be 4 (i2 + HARDENED_OFFSET))) as [Ed|?];
    [unfold ms; set_solver..|exact Ek| |by right].
  left. injection Ed as _ Ed. apply app_inj_1 in Ed as [Ep Ei]; [|by rewrite Hp1].
  split; [|done]. f_equal. unfold in_offset, HARDENED_OFFSET in *. propify.
  apply to_be_inj in Ei; change (256 ^ Z.of_nat 4) with 4294967296; lia.
Qed.

Lemma path_offsets p c :
  in_offset p = true → in_offset c = true →
  Forall (λ i, in_offset i = true) [44; WAKIR_COIN_TYPE; p; c].
Proof. intros. by repeat constructor. Qed.

Lemma sub_key_ed25519_inv seed p c k :
  derive_sub_key_ed25519 seed p c = Ok k →
  in_offset p = true ∧ in_offset c = true ∧ seed_length_ok seed = true ∧
  ∃ m, derive_path _ckd_priv_ed25519
    (MkKey (take 32 (hmac_sha512 (text "ed25519 seed") seed))
           (drop 32 (hmac_sha512 (text "ed25519 seed") seed)))
    [44; WAKIR_COIN_TYPE; p; c] = Ok m ∧ k = private_key m.
Proof.
  unfold derive_sub_key_ed25519. rewrite ed_master_ok. intros Hk. run_ok.
  rename select (negb (in_offset p) = false) into Hp. apply negb_false_iff in Hp.
  rename select (negb (in_offset c) = false) into Hc. apply negb_false_iff in Hc.
  destruct (seed_length_ok seed) eqn:Hs; [|done]. run_ok. eauto 10.
Qed.

(** The derivation of an Ed25519 key succeeds exactly for indices below 2^31 and
    seeds of 16 to 64 bytes, reports the first of these that fails, and gives
    32 bytes. *)
Theorem derive_ed25519_total seed p c :
  match derive_sub_key_ed25519 seed p c with
  | Ok k => length k = 32%nat ∧ 0 ≤ p < 2 ^ 31 ∧ 0 ≤ c < 2 ^ 31 ∧ (16 ≤ length seed ≤ 64)%nat
  | Err e =>
      e = (if in_offset p then if in_offset c then SeedLength else SpawnRange else PersonaRange) ∧
      ¬ (0 ≤ p < 2 ^ 31 ∧ 0 ≤ c < 2 ^ 31 ∧ (16 ≤ length seed ≤ 64)%nat)
  end.
Proof.
  assert (∀ i, in_offset i = true ↔ 0 ≤ i < 2 ^ 31) as Hoff
    by (intros i; unfold in_offset, HARDENED_OFFSET; propify; lia).
  assert (∀ i, in_offset i = false ↔ ¬ (0 ≤ i < 2 ^ 31)) as Hoff'
    by (intros i; rewrite <- Hoff; by destruct (in_offset i)).
  assert (seed_length_ok seed = true ↔ (16 ≤ length seed ≤ 64)%nat) as Hseed
    by (unfold seed_length_ok; rewrite andb_true_iff, !Nat.leb_le; lia).
  unfold derive_sub_key_ed25519.
  destruct (in_offset p) eqn:Ep; cbn [negb raise_if mbind result_bind];
    [|apply Hoff' in Ep; split; [done|tauto]].
  destruct (in_offset c) eqn:Ec; cbn [negb raise_if mbind result_bind];
    [|apply Hoff' in Ec; split; [done|tauto]].
  rewrite ed_master_ok. destruct (seed_length_ok seed) eqn:Es; cbn [mbind result_bind].
  - destruct (ed_path_total _ [44; WAKIR_COIN_TYPE; p; c]
      (halves_ok (text "ed25519 seed") seed) (path_offsets p c Ep Ec)) as (m & -> & Hm & _).
    cbn [mbind result_bind]. apply Hoff in Ep, Ec. by pose proof (proj1 Hseed eq_refl).
  - split; [done|]. by intros (_ & _ & Hs%Hseed).
Qed.

(** Ed25519 keys do not clash: two derivations give the same key only for the
    same seed, persona and spawn counter, or two of the inputs of HMAC-SHA512 in the
    two derivations have the same first half of the output. *)
Theorem derive_ed25519_binds seed1 p1 c1 seed2 p2 c2 k :
  derive_sub_key_ed25519 seed1 p1 c1 = Ok k → derive_sub_key_ed25519 seed2 p2 c2 = Ok k →
  (seed1 = seed2 ∧ p1 = p2 ∧ c1 = c2) ∨
  collision_in hmac_half (key_messages seed1 p1 c1 ++ key_messages seed2 p2 c2).
Proof.
  intros (Hp1 & Hc1 & _ & m1 & H1 & E1)%sub_key_ed25519_inv
    (Hp2 & Hc2 & _ & m2 & H2 & E2)%sub_key_ed25519_inv. subst k.
  destruct (ed_path_inj [44; WAKIR_COIN_TYPE; p1; c1] [44; WAKIR_COIN_TYPE; p2; c2] _ _ m1 m2 eq_refl
    (halves_ok _ _) (halves_ok _ _)
    (path_offsets _ _ Hp1 Hc1) (path_offsets _ _ Hp2 Hc2) H1 H2 E2) as [[Ep Ek]|Hcol];
    [|right; revert Hcol; apply collision_in_mono; unfold key_messages; set_solver].
  cbn [private_key] in Ek. set (ms := _ ++ _).
  destruct (eq_or_collision hmac_half ms (text "ed25519 seed", seed1) (text "ed25519 seed", seed2)) as [[= ->]|?];
    [unfold ms, key_messages; set_solver..|exact Ek| |by right].
  left. by injection Ep as -> ->.
Qed.

(** *** secp256k1 *)

Definition is_scalar (k : bytes) : Prop := length k = 32%nat ∧ 0 < from_be k < SECP256K1_N.

Lemma secp_master_scalar seed m : _secp256k1_master_from_seed seed = Ok m → is_scalar (private_key m).
Proof.
  unfold _secp256k1_master_from_seed. intros Hm. run_ok.
  rename select (_ || _ = false) into Hr. propify. cbn [private_key]. split.
  - by rewrite length_take, hmac_sha512_length.
  - pose proof (from_be_bound (take 32 (_hmac_sha512 (text "Bitcoin seed") seed))). lia.
Qed.

Context `{Secp256k1}.

Lemma ckd_secp_scalar n i m :
  _ckd_priv_secp256k1 n i = Ok m →
  is_scalar (private_key m) ∧
  ∃ data, from_be (private_key m) =
    (from_be (take 32 (hmac_sha512 (chain_code n) data)) + from_be (private_key n)) `mod` SECP256K1_N.
Proof.
  unfold _ckd_priv_secp256k1. intros Hm. run_ok. cbn [private_key].
  rename select ((_ =? 0) = false) into Hz. propify. apply Z.eqb_neq in Hz.
  rename select bytes into data.
  unfold is_scalar. rewrite length_to_be, from_to_be, Z.mod_small.
  2:{ assert (SECP256K1_N < 256 ^ Z.of_nat 32) by done.
      pose proof (Z.mod_pos_bound (from_be (take 32 (hmac_sha512 (chain_code n) data)) +
        from_be (private_key n)) SECP256K1_N eq_refl). unfold _hmac_sha512. lia. }
  split; [|by exists data]. split; [done|].
  pose proof (Z.mod_pos_bound (from_be (take 32 (hmac_sha512 (chain_code n) data)) +
    from_be (private_key n)) SECP256K1_N eq_refl). unfold _hmac_sha512 in *. lia.
Qed.

Lemma secp_path_scalar n path m :
  is_scalar (private_key n) → derive_path _ckd_priv_secp256k1 n path = Ok m →
  is_scalar (private_key m).
Proof.
  revert n. induction path as [|i path IH]; intros n Hn; cbn [derive_path]; intros Hm.
  - by injection Hm as <-.
  - run_ok. rename select (_ckd_priv_secp256k1 _ _ = _) into Hc.
    apply ckd_secp_scalar in Hc as [Hc _]. by eapply IH.
Qed.

(** C16: Every derived secp256k1 key is 32 bytes and a private key of the group: its
    number is between 1 and the order. *)
Theorem derive_secp256k1_scalar seed p c k :
  derive_sub_key_secp256k1 seed p c = Ok k → length k = 32%nat ∧ 0 < from_be k < SECP256K1_N.
Proof.
  unfold derive_sub_key_secp256k1. intros Hk. run_ok.
  rename select (derive_path _ _ _ = _) into Hp. eapply secp_path_scalar; [|exact Hp].
  by eapply secp_master_scalar.
Qed.
End properties.

(** ** The properties at concrete inputs *)

Module KeyExample.
#[local] Existing Instance rfc2104_hmac.

(** The test vectors use hardened paths, so the points are never asked for. *)
Definition no_points : Secp256k1 := {| secp_public _ _ := None |}.
#[local] Existing Instance no_points.

(** The seed [000102030405060708090a0b0c0d0e0f] of test vector 1. *)
Definition seed : bytes := byte_of_Z <$> seqZ 0 16.

Definition hexes (r : result key_error _ExtendedKey) : option (str * str) :=
  match r with Ok n => Some (hex (private_key n), hex (chain_code n)) | Err _ => None end.

Example slip10_master : hexes (_ed25519_master_from_seed seed) = Some
  (u "2b4be7f19ee27bbf30c667b642d5f4aa69fd169872f8fc3059c08ebae2eb19e7",
   u "90046a93de5380a72b5e45010748567d5ea02bbf6522f979e05c0d8d8ca9fffb").
Proof. vm_compute. reflexivity. Qed.

Example slip10_child :
  hexes (n ← _ed25519_master_from_seed seed; derive_path _ckd_priv_ed25519 n [0]) = Some
  (u "68e0fe46dfb67e368c75379acec591dad19df3cde26e63b93a8e704f1dade7a3",
   u "8b59aa11380b624e81507a27fedda59fea6d0b779a778918a2fd3590e16e9c69").
Proof. vm_compute. reflexivity. Qed.

Example bip32_master : hexes (_secp256k1_master_from_seed seed) = Some
  (u "e8f32e723decf4051aefac8e2c93c9c5b214313817cdb01a1494b917c8436b35",
   u "873dff81c02f525623fd1fe5167eac3a55a049de3d314bb42ee227ffed37d508").
Proof. vm_compute. reflexivity. Qed.

Example bip32_child :
  hexes (n ← _secp256k1_master_from_seed seed; derive_path _ckd_priv_secp256k1 n [0]) = Some
  (u "edb2e14f9ee77d26dd93b4ecede8d16ed408ce149b6cd80b0715a2d911a0afea",
   u "47fdacbd0f1097043b78c63c20c34ef4ed9a111d980047ad16282c7ae6236141").
Proof. vm_compute. reflexivity. Qed.

Definition key37 : bytes := ok_or [] (derive_sub_key_ed25519 seed 3 7).
Definition secp37 : bytes := ok_or [] (derive_sub_key_secp256k1 seed 3 7).

Lemma derive_ed25519_binds_witness :
  derive_sub_key_ed25519 seed 3 7 = Ok key37 ∧
  ((seed = seed ∧ 3 = 3 ∧ 7 = 7) ∨
   collision_in hmac_half (key_messages seed 3 7 ++ key_messages seed 3 7)).
Proof.
  split; [vm_compute; reflexivity|].
  apply (derive_ed25519_binds seed 3 7 seed 3 7 key37); vm_compute; reflexivity.
Defined.

Lemma derive_secp256k1_scalar_witness :
  length secp37 = 32%nat ∧ 0 < from_be secp37 < SECP256K1_N.
Proof. apply (derive_secp256k1_scalar seed 3 7). vm_compute. reflexivity. Defined.
End KeyExample.
