(* ===== verification/Shamir.v ===== *)
(** * Cold-storage shares ([wirelang/identity/shamir_split.py],
      [wirelang/identity/recovery_drill.py])

    Splitting a master secret into SLIP-39 shares, combining them, and the
    quarterly drill that simulates the loss of each share.  SLIP-39 itself is
    the third-party package [shamir_mnemonic], a class whose laws are its
    documented behaviour: exactly a threshold of the mnemonics of one split
    recovers the secret.

    The theorems: a split with a spare share passes the drill, and what a
    passed drill says about the shares that were given to it. *)

From S2P Require Import Prelude PyStr.
From Stdlib Require Import ZArith Lia.

Open Scope Z_scope.

(** ** The package *)

(** The randomness of the generation is an argument.  [None] is the package's
    ValueError or MnemonicError. *)
Class Slip39 := {
  generate_mnemonics : Z * Z → bytes → bytes → bytes → option (list str);
  combine_mnemonics : list str → bytes → option bytes;
  mnemonic_index : str → option Z;     (* Share.from_mnemonic(m).index *)
  mnemonic_value : str → option bytes; (* Share.from_mnemonic(m).value *)
}.

Class Slip39Laws `{Slip39} : Prop := {
  slip39_count t n m pw rnd ms :
    generate_mnemonics (t, n) m pw rnd = Some ms → Z.of_nat (length ms) = n;
  slip39_decodes t n m pw rnd ms :
    generate_mnemonics (t, n) m pw rnd = Some ms →
    Forall (λ x, is_Some (mnemonic_index x)) ms;
  slip39_recovers t n m pw rnd ms ks :
    generate_mnemonics (t, n) m pw rnd = Some ms → sublist ks ms →
    Z.of_nat (length ks) = t → combine_mnemonics ks pw = Some m;
}.

Inductive share_error : Type :=
| MasterLength (n : nat)
| SharesRange
| ThresholdRange
| GenerateFailed           (* raised by the package *)
| DecodeFailed             (* raised by the package *)
| NoShares
| TooFewShares (threshold : Z) (got : nat)
| CombineFailed.

Module ShamirSplit.
Section split.
Context `{Slip39}.

Definition PHASE_1A_THRESHOLD : Z := 2.
Definition PHASE_1A_TOTAL_SHARES : Z := 3.

Record ShamirShare : Type := {
  share_index : Z;
  share_mnemonic : str;
  threshold : Z;
  total_shares : Z;
  member_index : Z;
}.

Definition share_data (s : ShamirShare) : result share_error bytes :=
  of_option DecodeFailed (mnemonic_value (share_mnemonic s)).

Fixpoint number_shares (threshold_t shares_n idx : Z) (mnemonics : list str)
    : result share_error (list ShamirShare) :=
  match mnemonics with
  | [] => Ok []
  | mnemonic :: rest =>
      decoded ← of_option DecodeFailed (mnemonic_index mnemonic);
      shares ← number_shares threshold_t shares_n (idx + 1) rest;
      Ok ({| share_index := idx; share_mnemonic := mnemonic; threshold := threshold_t;
             total_shares := shares_n; member_index := decoded |} :: shares)
  end.

Definition split_master_secret (master : bytes) (shares_n threshold_t : Z) (passphrase rnd : bytes)
    : result share_error (list ShamirShare) :=
  raise_if (bool_decide (length master ∉ [16%nat; 32%nat])) (MasterLength (length master));;
  raise_if ((shares_n <? 1) || (16 <? shares_n)) SharesRange;;
  raise_if ((threshold_t <? 1) || (shares_n <? threshold_t)) ThresholdRange;;
  mnemonics ← of_option GenerateFailed (generate_mnemonics (threshold_t, shares_n) master passphrase rnd);
  number_shares threshold_t shares_n 0 mnemonics.

(** [MnemonicError] is raised again as ValueError. *)
Definition combine_shamir_shares (shares : list ShamirShare) (passphrase : bytes)
    : result share_error bytes :=
  match shares with
  | [] => Err NoShares
  | first :: _ =>
      raise_if (Z.of_nat (length shares) <? threshold first)
        (TooFewShares (threshold first) (length shares));;
      of_option CombineFailed (combine_mnemonics (share_mnemonic <$> shares) passphrase)
  end.
End split.
End ShamirSplit.
Import ShamirSplit.

(** ** The drill *)

Inductive drill_error : Type :=
| EmptyShares
| BadThreshold
| ThresholdMismatch (index threshold expected : Z).

Module RecoveryDrill.
Section drill.
Context `{Slip39}.

Record RecoveryDrillResult : Type := {
  success : bool;
  attempts : nat;
  threshold_met : bool;
  lost_share_index : option Z;
  recovered_master : option bytes;
  per_round_outcomes : list (Z * bool);
}.

Fixpoint check_thresholds (threshold_ : Z) (shares : list ShamirShare) : result drill_error () :=
  match shares with
  | [] => Ok ()
  | s :: shares' =>
      raise_if (negb (threshold s =? threshold_))
        (ThresholdMismatch (share_index s) (threshold s) threshold_);;
      check_thresholds threshold_ shares'
  end.

(** The variables of the loop. *)
Record rounds : Type := {
  per_round : list (Z * bool);
  last_recovered : option bytes;
  first_failure_idx : option Z;
  overall_ok : bool;
}.

Definition first_of (a : option Z) (b : Z) : option Z :=
  match a with Some x => Some x | None => Some b end.

(** [remaining[:threshold]] *)
Definition recover_subset (shares : list ShamirShare) (threshold_ : Z) (lost : ShamirShare)
    : list ShamirShare :=
  take (Z.to_nat threshold_) (filter (λ s, share_index s ≠ share_index lost) shares).

(** One round; both exceptions of the combination are ValueErrors. *)
Definition drill_round (shares : list ShamirShare) (threshold_ : Z) (expected_master : option bytes)
    (passphrase : bytes) (st : rounds) (lost : ShamirShare) : rounds :=
  let failed :=
    {| per_round := per_round st ++ [(share_index lost, false)];
       last_recovered := last_recovered st;
       first_failure_idx := first_of (first_failure_idx st) (share_index lost);
       overall_ok := false |} in
  match combine_shamir_shares (recover_subset shares threshold_ lost) passphrase with
  | Err _ => failed
  | Ok recovered =>
      if match expected_master with None => true | Some m => bool_decide (recovered = m) end
      then {| per_round := per_round st ++ [(share_index lost, true)];
              last_recovered := Some recovered;
              first_failure_idx := first_failure_idx st;
              overall_ok := overall_ok st |}
      else failed
  end.

Definition simulate_recovery (shares : list ShamirShare) (threshold_ : Z)
    (expected_master : option bytes) (passphrase : bytes)
    : result drill_error RecoveryDrillResult :=
  raise_if (Nat.eqb (length shares) 0) EmptyShares;;
  raise_if (threshold_ <? 1) BadThreshold;;
  check_thresholds threshold_ shares;;
  if Z.of_nat (length shares) <=? threshold_ then
    Ok {| success := false; attempts := 0; threshold_met := false; lost_share_index := None;
          recovered_master := None; per_round_outcomes := [] |}
  else
    let st := foldl (drill_round shares threshold_ expected_master passphrase)
      {| per_round := []; last_recovered := None; first_failure_idx := None;
         overall_ok := true |} shares in
    Ok {| success := overall_ok st; attempts := length (per_round st); threshold_met := true;
          lost_share_index := first_failure_idx st; recovered_master := last_recovered st;
          per_round_outcomes := per_round st |}.
End drill.
End RecoveryDrill.
Import RecoveryDrill.

(** ** Specification *)

Section properties.
Context `{Slip39}.

(** What one round recovers, when it succeeds. *)
Definition round_recovers (shares : list ShamirShare) (t : Z) (expected : option bytes)
    (pw : bytes) (lost : ShamirShare) : option bytes :=
  match combine_shamir_shares (recover_subset shares t lost) pw with
  | Err _ => None
  | Ok m =>
      if match expected with None => true | Some m' => bool_decide (m = m') end then Some m else None
  end.

Definition passes (o : option bytes) : bool := match o with Some _ => true | None => false end.

(** The report of a drill whose rounds lost these shares with these outcomes. *)
Definition report (rs : list (Z * option bytes)) : RecoveryDrillResult :=
  {| success := forallb (λ r, passes r.2) rs;
     attempts := length rs;
     threshold_met := true;
     lost_share_index := fst <$> head (filter (λ r, passes r.2 = false) rs);
     recovered_master := last (omap snd rs);
     per_round_outcomes := (λ r, (r.1, passes r.2)) <$> rs |}.

Definition rounds_of (rs : list (Z * option bytes)) : rounds :=
  {| per_round := (λ r, (r.1, passes r.2)) <$> rs;
     last_recovered := last (omap snd rs);
     first_failure_idx := fst <$> head (filter (λ r, passes r.2 = false) rs);
     overall_ok := forallb (λ r, passes r.2) rs |}.

Definition outcomes (shares : list ShamirShare) (t : Z) (expected : option bytes) (pw : bytes)
    (losts : list ShamirShare) : list (Z * option bytes) :=
  (λ lost, (share_index lost, round_recovers shares t expected pw lost)) <$> losts.

Lemma drill_round_spec shares t e pw rs lost :
  drill_round shares t e pw (rounds_of rs) lost =
  rounds_of (rs ++ [(share_index lost, round_recovers shares t e pw lost)]).
Proof.
  assert (∀ rs r, rounds_of (rs ++ [r]) =
    {| per_round := per_round (rounds_of rs) ++ [(r.1, passes r.2)];
       last_recovered := match r.2 with Some m => Some m | None => last_recovered (rounds_of rs) end;
       first_failure_idx := if passes r.2 then first_failure_idx (rounds_of rs)
                            else first_of (first_failure_idx (rounds_of rs)) r.1;
       overall_ok := overall_ok (rounds_of rs) && passes r.2 |}) as ->.
  { clear. intros rs [i o]. unfold rounds_of. cbn [per_round last_recovered first_failure_idx overall_ok fst snd].
    f_equal.
    - by rewrite fmap_app.
    - rewrite omap_app. destruct o as [m|]; cbn [omap list_omap snd]; [apply last_snoc|].
      by rewrite app_nil_r.
    - rewrite filter_app. destruct o as [m|]; cbn [passes].
      + rewrite filter_cons_False by done. by rewrite app_nil_r.
      + rewrite filter_cons_True by done. by destruct (filter _ rs) as [|[j p] l].
    - rewrite forallb_app. cbn [forallb snd]. by rewrite andb_true_r. }
  unfold drill_round, round_recovers.
  destruct (combine_shamir_shares _ pw) as [m|];
    [destruct (match e with None => _ | _ => _ end)|]; cbn [passes fst snd];
    by rewrite ?andb_true_r, ?andb_false_r.
Qed.

Lemma drill_rounds shares t e pw losts rs :
  foldl (drill_round shares t e pw) (rounds_of rs) losts =
  rounds_of (rs ++ outcomes shares t e pw losts).
Proof.
  revert rs. induction losts as [|lost losts IH]; intros rs; [by rewrite app_nil_r|].
  cbn [foldl]. rewrite drill_round_spec, IH, <- app_assoc. done.
Qed.

Lemma check_thresholds_ok t shares :
  check_thresholds t shares = Ok () ↔ Forall (λ s, threshold s = t) shares.
Proof.
  induction shares as [|s shares IH]; cbn [check_thresholds]; [by split|].
  rewrite Forall_cons, <- IH. destruct (Z.eqb_spec (threshold s) t); cbn; naive_solver.
Qed.

(** A drill over enough shares, in closed form. *)
Lemma simulate_report shares t e pw :
  1 ≤ t < Z.of_nat (length shares) → Forall (λ s, threshold s = t) shares →
  simulate_recovery shares t e pw = Ok (report (outcomes shares t e pw shares)).
Proof.
  intros [Ht Hl] Hs. unfold simulate_recovery.
  rewrite (proj2 (Nat.eqb_neq _ _)) by lia. rewrite (proj2 (Z.ltb_ge _ _)) by lia.
  rewrite !raise_if_false, !bind_Ok, (proj2 (check_thresholds_ok t shares) Hs), bind_Ok.
  rewrite (proj2 (Z.leb_gt _ _)) by lia.
  change {| per_round := []; last_recovered := None; first_failure_idx := None; overall_ok := true |}
    with (rounds_of []).
  rewrite drill_rounds. cbn [app]. unfold report, rounds_of.
  cbn [per_round last_recovered first_failure_idx overall_ok]. by rewrite length_fmap.
Qed.

Lemma combine_ok shares pw m :
  combine_shamir_shares shares pw = Ok m →
  combine_mnemonics (share_mnemonic <$> shares) pw = Some m.
Proof. destruct shares; cbn [combine_shamir_shares]; [done|]. intros Hm. by run_ok. Qed.

(** *** Splitting *)

Lemma number_shares_ok t n idx ms shares :
  number_shares t n idx ms = Ok shares →
  share_mnemonic <$> shares = ms ∧ Forall (λ s, threshold s = t) shares ∧
  share_index <$> shares = seqZ idx (Z.of_nat (length ms)).
Proof.
  revert idx shares. induction ms as [|x ms IH]; intros idx shares; cbn [number_shares].
  { by intros [= <-]. }
  intros Hs. run_ok. rename select (number_shares _ _ _ _ = _) into Hn.
  apply IH in Hn as (Hm & Ht & Hi). csimpl.
  split_and!; [by rewrite Hm|by constructor|].
  rewrite Nat2Z.inj_succ, seqZ_cons by lia. f_equal. rewrite Hi. f_equal; lia.
Qed.

Lemma split_ok master n t pw rnd shares :
  split_master_secret master n t pw rnd = Ok shares →
  1 ≤ t ≤ n ∧ n ≤ 16 ∧ (length master = 16 ∨ length master = 32)%nat ∧
  ∃ ms, generate_mnemonics (t, n) master pw rnd = Some ms ∧ share_mnemonic <$> shares = ms ∧
    Forall (λ s, threshold s = t) shares ∧
    share_index <$> shares = seqZ 0 (Z.of_nat (length ms)).
Proof.
  unfold split_master_secret. intros Hs. run_ok. propify.
  rename select (number_shares _ _ _ _ = _) into Hn. apply number_shares_ok in Hn as (?&?&?).
  rename select (¬ (_ ∉ _)) into Hb. apply dec_stable in Hb. rewrite !elem_of_cons, elem_of_nil in Hb.
  split_and!; try lia. eauto.
Qed.

Lemma sublist_map {A B} (f : A → B) l k : sublist l k → sublist (f <$> l) (f <$> k).
Proof. induction 1; csimpl; by constructor. Qed.

Lemma sublist_Forall {A} (P : A → Prop) l k : sublist l k → Forall P k → Forall P l.
Proof. intros Hs Hk. rewrite Forall_forall in *. eauto using elem_of_sublist. Qed.

(** Removing one share by its index leaves all the others. *)
Lemma filter_one (shares : list ShamirShare) lost :
  NoDup (share_index <$> shares) → lost ∈ shares →
  length (filter (λ s, share_index s ≠ share_index lost) shares) = pred (length shares).
Proof.
  intros Hnd Hin. induction shares as [|s shares IH]; [by apply elem_of_nil in Hin|].
  rewrite fmap_cons in Hnd. apply NoDup_cons in Hnd as [Hni Hnd].
  apply elem_of_cons in Hin as [->|Hin].
  - rewrite filter_cons_False by naive_solver. cbn. f_equal.
    assert (Forall (λ x, share_index x ≠ share_index s) shares) as Hall.
    { apply Forall_forall. intros x Hx E. apply Hni. rewrite <- E. by apply list_elem_of_fmap_2. }
    clear -Hall. induction Hall as [|x l Hx _ IH]; [done|]. by rewrite filter_cons_True, IH.
  - rewrite filter_cons_True.
    + cbn [length]. rewrite IH by done. destruct shares; [by apply elem_of_nil in Hin|done].
    + intros E. apply Hni. rewrite E. by apply list_elem_of_fmap_2.
Qed.

Lemma recover_subset_sublist shares t lost : sublist (recover_subset shares t lost) shares.
Proof.
  unfold recover_subset. etrans; [apply sublist_take|]. by apply sublist_filter.
Qed.

Context `{!Slip39Laws}.

Lemma split_combines master n t pw rnd shares ks :
  split_master_secret master n t pw rnd = Ok shares → sublist ks shares →
  Z.of_nat (length ks) = t → combine_shamir_shares ks pw = Ok master.
Proof.
  intros (Ht & _ & _ & ms & Hg & Hm & Hs & _)%split_ok Hk Hl.
  assert (combine_mnemonics (share_mnemonic <$> ks) pw = Some master) as Hc.
  { eapply slip39_recovers; [exact Hg| |by rewrite length_fmap].
    rewrite <- Hm. by apply sublist_map. }
  assert (Forall (λ s, threshold s = t) ks) as Hks by by eapply sublist_Forall.
  destruct ks as [|k ks]; [cbn in Hl; lia|]. cbn [combine_shamir_shares].
  apply Forall_cons in Hks as [-> _]. rewrite (proj2 (Z.ltb_ge _ _)) by lia.
  by rewrite raise_if_false, bind_Ok, Hc.
Qed.

(** Any shares of a split, in their order and as many as the threshold, give
    the master secret back; fewer are refused. *)
Theorem split_roundtrip master n t pw rnd shares ks :
  split_master_secret master n t pw rnd = Ok shares → sublist ks shares → ks ≠ [] →
  (Z.of_nat (length ks) = t → combine_shamir_shares ks pw = Ok master) ∧
  (Z.of_nat (length ks) < t → combine_shamir_shares ks pw = Err (TooFewShares t (length ks))).
Proof.
  intros Hs Hk Hne. split; [by eapply split_combines|]. intros Hlt.
  apply split_ok in Hs as (_ & _ & _ & ms & _ & _ & Hs & _).
  assert (Forall (λ s, threshold s = t) ks) as Hks by by eapply sublist_Forall.
  destruct ks as [|k ks]; [done|]. cbn [combine_shamir_shares].
  apply Forall_cons in Hks as [-> _]. by rewrite (proj2 (Z.ltb_lt _ _)).
Qed.

(** The shares of a split with a spare pass the drill: every round recovers the
    master secret. *)
Theorem drill_after_split master n t pw rnd shares :
  split_master_secret master n t pw rnd = Ok shares → t < n →
  simulate_recovery shares t (Some master) pw =
  Ok {| success := true; attempts := length shares; threshold_met := true;
        lost_share_index := None; recovered_master := Some master;
        per_round_outcomes := (λ s, (share_index s, true)) <$> shares |}.
Proof.
  intros Hs Htn. pose proof Hs as (Ht & _ & _ & ms & Hg & Hm & Hths & Hidx)%split_ok.
  assert (Z.of_nat (length shares) = n) as Hlen.
  { rewrite <- (slip39_count _ _ _ _ _ _ Hg). by rewrite <- Hm, length_fmap. }
  rewrite simulate_report by (done || lia).
  assert (outcomes shares t (Some master) pw shares =
    (λ s, (share_index s, Some master)) <$> shares) as ->.
  { apply list_fmap_ext. intros i lost Hlost%list_elem_of_lookup_2. f_equal.
    unfold round_recovers. rewrite (split_combines _ _ _ _ _ _ _ Hs).
    - by rewrite bool_decide_eq_true_2.
    - apply recover_subset_sublist.
    - unfold recover_subset. rewrite length_take, filter_one; [lia| |done].
      rewrite Hidx. apply NoDup_seqZ. }
  f_equal. unfold report. rewrite length_fmap, <- list_fmap_compose.
  assert (∀ l : list ShamirShare, forallb (λ r : Z * option bytes, passes r.2)
    ((λ s, (share_index s, Some master)) <$> l) = true) as -> by (by induction l).
  assert (∀ l : list ShamirShare, filter (λ r : Z * option bytes, passes r.2 = false)
    ((λ s, (share_index s, Some master)) <$> l) = []) as -> by (by induction l).
  f_equal.
  assert (∀ l : list ShamirShare, l ≠ [] →
    last (omap snd ((λ s, (share_index s, Some master)) <$> l)) = Some master) as Hlast.
  { induction l as [|s [|s' l] IH]; [done|done|]. intros _. by apply IH. }
  apply Hlast. intros E. rewrite E in Hlen. cbn in Hlen. lia.
Qed.

(** Two lists of shares that agree outside their mnemonics. *)
Definition same_header (a b : ShamirShare) : Prop :=
  share_index a = share_index b ∧ threshold a = threshold b.

Lemma filter_first (first : list ShamirShare) (i : Z) :
  NoDup (share_index <$> first) →
  (length first ≤ S (length (filter (λ s, share_index s ≠ i) first)))%nat.
Proof.
  intros Hnd. destruct (decide (i ∈ share_index <$> first)) as [(lost & -> & Hin)%list_elem_of_fmap|Hni].
  - rewrite filter_one by done. lia.
  - assert (Forall (λ s, share_index s ≠ i) first) as Hall.
    { apply Forall_forall. intros s Hs <-. apply Hni. by apply list_elem_of_fmap_2. }
    assert (length (filter (λ s, share_index s ≠ i) first) = length first); [|lia].
    clear -Hall. induction Hall as [|s l Hs _ IH]; [done|]. by rewrite filter_cons_True; cbn; f_equal.
Qed.

Lemma recover_first t first rest lost :
  Z.of_nat (length first) = t + 1 → NoDup (share_index <$> first) →
  recover_subset (first ++ rest) t lost =
  take (Z.to_nat t) (filter (λ s, share_index s ≠ share_index lost) first).
Proof.
  intros Hl Hnd. unfold recover_subset. rewrite filter_app, take_app_le; [done|].
  pose proof (filter_first first (share_index lost) Hnd). lia.
Qed.

Lemma check_thresholds_same t l1 l2 :
  Forall2 same_header l1 l2 → check_thresholds t l1 = check_thresholds t l2.
Proof. induction 1 as [|a b l1 l2 [Hi Ht] _ IH]; [done|]. cbn [check_thresholds]. by rewrite Hi, Ht, IH. Qed.

(** The drill never reads the mnemonics behind the first [threshold + 1]
    shares: replacing them, by damaged ones for example, changes nothing in
    its report. *)
Theorem drill_ignores_spares t first rest1 rest2 expected pw :
  Z.of_nat (length first) = t + 1 → NoDup (share_index <$> first) →
  Forall2 same_header rest1 rest2 →
  simulate_recovery (first ++ rest1) t expected pw =
  simulate_recovery (first ++ rest2) t expected pw.
Proof.
  intros Hl Hnd Hr. assert (Forall2 same_header (first ++ rest1) (first ++ rest2)) as Hall.
  { apply Forall2_app; [|done]. by apply Forall_Forall2_diag, Forall_forall. }
  unfold simulate_recovery. rewrite (check_thresholds_same t _ _ Hall).
  rewrite (Forall2_length _ _ _ Hall).
  change {| per_round := []; last_recovered := None; first_failure_idx := None; overall_ok := true |}
    with (rounds_of []).
  rewrite !drill_rounds.
  assert (outcomes (first ++ rest1) t expected pw (first ++ rest1) =
          outcomes (first ++ rest2) t expected pw (first ++ rest2)) as ->; [|done].
  unfold outcomes. clear -Hl Hnd Hall.
  assert (∀ l1 l2, Forall2 same_header l1 l2 →
    (λ lost, (share_index lost, round_recovers (first ++ rest1) t expected pw lost)) <$> l1 =
    (λ lost, (share_index lost, round_recovers (first ++ rest2) t expected pw lost)) <$> l2) as Hgen;
    [|by apply Hgen].
  induction 1 as [|a b l1 l2 [Hi _] _ IH]; [done|]. csimpl. f_equal; [|done].
  unfold round_recovers. rewrite !recover_first by done. by rewrite Hi.
Qed.
End properties.

(** ** The properties at concrete inputs *)

(** Mnemonics that carry the secret in the open, with the package's count. *)
Definition plain_slip39 : Slip39 := {|
  generate_mnemonics tn m _ _ :=
    let '(t, n) := tn in
    if (1 <=? t) && (t <=? n)
    then Some ((λ i, i :: t :: (Z_of_byte <$> m)) <$> seqZ 0 n) else None;
  combine_mnemonics ks _ :=
    match ks with
    | (i :: t :: codes) :: _ =>
        if (Z.of_nat (length ks) =? t) && forallb (λ k, bool_decide (drop 1 k = t :: codes)) ks
        then Some (byte_of_Z <$> codes) else None
    | _ => None
    end;
  mnemonic_index k := head k;
  mnemonic_value k := Some (byte_of_Z <$> drop 2 k);
|}.

Lemma plain_slip39_laws : @Slip39Laws plain_slip39.
Proof.
  split; cbn [generate_mnemonics combine_mnemonics mnemonic_index plain_slip39].
  - intros t n m pw rnd ms. case_match eqn:E; [|done]. intros [= <-]. propify.
    rewrite length_fmap, length_seqZ. lia.
  - intros t n m pw rnd ms. case_match; [|done]. intros [= <-].
    apply Forall_fmap, Forall_forall. intros i _. by eexists.
  - intros t n m pw rnd ms ks. case_match eqn:E; [|done]. intros [= <-] Hs Hl. propify.
    assert (Forall (λ k, ∃ i, k = i :: t :: (Z_of_byte <$> m)) ks) as Hk.
    { eapply sublist_Forall; [exact Hs|]. apply Forall_fmap, Forall_forall. unfold compose. eauto. }
    destruct ks as [|k ks]; [cbn in Hl; lia|].
    pose proof Hk as [[i ->] _]%Forall_cons. rewrite (proj2 (Z.eqb_eq _ _) Hl).
    rewrite (proj2 (forallb_forall _ _)).
    + cbn [andb]. f_equal. rewrite <- list_fmap_compose. rewrite <- (list_fmap_id m) at 2.
      apply list_fmap_ext. intros j b _. apply byte_of_Z_of_byte.
    + intros x Hx%list_elem_of_In. rewrite Forall_forall in Hk. destruct (Hk x Hx) as [j ->].
      by apply bool_decide_eq_true.
Qed.

Module ShamirExample.
#[local] Existing Instance plain_slip39.
#[local] Existing Instance plain_slip39_laws.

Definition master : bytes := replicate 16 Byte.x2a.
Definition shares23 : list ShamirShare := ok_or [] (split_master_secret master 3 2 [] []).
Definition shares24 : list ShamirShare := ok_or [] (split_master_secret master 4 2 [] []).
Definition damaged (s : ShamirShare) : ShamirShare :=
  {| share_index := share_index s; share_mnemonic := []; threshold := threshold s;
     total_shares := total_shares s; member_index := member_index s |}.

(** All three shares of a 2-of-3 split do not combine, although they are more
    than enough. *)
Example too_many_fail : combine_shamir_shares shares23 [] = Err CombineFailed.
Proof. vm_compute. reflexivity. Qed.

Lemma split_roundtrip_witness :
  (2 = 2 → combine_shamir_shares (drop 1 shares23) [] = Ok master) ∧
  (2 < 2 → combine_shamir_shares (drop 1 shares23) [] = Err (TooFewShares 2 2)).
Proof.
  apply (split_roundtrip master 3 2 [] [] shares23 (drop 1 shares23)).
  - vm_compute. reflexivity.
  - apply sublist_drop.
  - vm_compute. discriminate.
Defined.

Lemma drill_after_split_witness :
  simulate_recovery shares23 2 (Some master) [] =
  Ok {| success := true; attempts := 3; threshold_met := true;
        lost_share_index := None; recovered_master := Some master;
        per_round_outcomes := (λ s, (share_index s, true)) <$> shares23 |}.
Proof.
  apply (drill_after_split master 3 2 [] [] shares23); [vm_compute; reflexivity|lia].
Defined.

(** A 2-of-4 split with a damaged last share passes the drill. *)
Lemma drill_ignores_spares_witness :
  simulate_recovery (take 3 shares24 ++ (damaged <$> drop 3 shares24)) 2 (Some master) [] =
  simulate_recovery (take 3 shares24 ++ drop 3 shares24) 2 (Some master) [].
Proof.
  apply (drill_ignores_spares 2 (take 3 shares24)).
  - vm_compute. reflexivity.
  - apply (bool_decide_unpack _). vm_compute. exact I.
  - apply Forall2_fmap_l, Forall_Forall2_diag, Forall_forall. intros s _. by split.
Defined.

Example damaged_passes :
  (r ← simulate_recovery (take 3 shares24 ++ (damaged <$> drop 3 shares24)) 2 (Some master) [];
   Ok (success r)) = Ok true.
Proof. vm_compute. reflexivity. Qed.
End ShamirExample.
