(* ===== verification/Jcs.v ===== *)
(** * Canonical JSON without the package ([wirelang/identity/_jcs_pure.py])

    The fallback canonicaliser, function by function.  Its members are sorted
    by UTF-16 code units, so it is related to the standard library's sorted
    text through [jcs_sort].  It satisfies the two interfaces that stand for
    the [rfc8785] package elsewhere in the development, and its text determines
    the value up to the order of object members. *)

From S2P Require Import Prelude PyStr PyFloat PyJson PyJsonLoads Merkle Signing.
From Stdlib Require Import ZArith Lia SpecFloat.

Open Scope Z_scope.

Inductive jcs_error : Type :=
| NotANumber      (* ValueError: NaN or an infinity *)
| JcsEncodeError. (* UnicodeEncodeError of the final encode *)

Module Jcs.

Definition _serialize_integer (value : Z) : str := int_repr value.

Definition _serialize_float (value : float) : result jcs_error str :=
  match value with
  | S754_nan | S754_infinity _ => Err NotANumber
  | S754_zero _ => Ok (u "0")
  | _ => Ok (float_repr value)
  end.

(** One turn of the loop over the characters. *)
Definition escape (ch : Z) : str :=
  if ch =? 34 then [backslash; 34]
  else if ch =? 92 then [backslash; 92]
  else if ch =? 8 then [backslash; 98]
  else if ch =? 12 then [backslash; 102]
  else if ch =? 10 then [backslash; 110]
  else if ch =? 13 then [backslash; 114]
  else if ch =? 9 then [backslash; 116]
  else if in_range 0 0x1f ch then u_escape ch
  else [ch].

Definition _serialize_string (value : str) : str := dquote :: (value ≫= escape) ++ [dquote].

Definition codeunits (cp : Z) : list Z :=
  if cp <=? 0xFFFF then [cp]
  else let cp := cp - 0x10000 in
       [0xD800 + Z.shiftr cp 10; 0xDC00 + Z.land cp 0x3FF].

Definition _utf16_codeunits (s : str) : list Z := s ≫= codeunits.

(** The sort key of [items.sort]; tuples of integers compare like texts. *)
Definition items_leb (k1 k2 : str) : bool :=
  str_leb (_utf16_codeunits k1) (_utf16_codeunits k2).

Definition member_leb {A} (x y : str * A) : bool := items_leb x.1 y.1.

(** The members are serialised and then sorted; only the sorted texts are
    joined, and all errors are the same. *)
Fixpoint _serialize (value : json) : result jcs_error str :=
  match value with
  | JNull => Ok (u "null")
  | JBool true => Ok (u "true")
  | JBool false => Ok (u "false")
  | JStr s => Ok (_serialize_string s)
  | JInt z => Ok (_serialize_integer z)
  | JFloat f => _serialize_float f
  | JList l =>
      texts ← mapM _serialize l;
      Ok (u "[" ++ join (u ",") texts ++ u "]")
  | JObj d =>
      items ← mapM (λ kv : str * json, t ← _serialize kv.2; Ok (kv.1, t)) d;
      Ok (u "{" ++
          join (u ",") ((λ kt : str * str, _serialize_string kt.1 ++ u ":" ++ kt.2)
                          <$> py_sorted member_leb items)
          ++ u "}")
  end.

Definition canonicalize (value : json) : result jcs_error bytes :=
  s ← _serialize value; of_option JcsEncodeError (utf8_encode s).

(** The canonicaliser in the place of the package. *)
Definition jcs_rfc8785 : Rfc8785 :=
  {| rfc8785_dumps := Some (λ j, match canonicalize j with Ok b => Some b | Err _ => None end) |}.
End Jcs.

Import Jcs.

(** ** The order of the members *)

Section order.

#[export] Instance items_order : KeyOrder items_leb.
Proof. exact (key_order_on str_leb _utf16_codeunits). Qed.

#[export] Instance member_order {A} : KeyOrder (@member_leb A).
Proof. exact (key_order_on items_leb fst). Qed.

Lemma codeunits_prefix c1 c2 r1 r2 :
  okchar c1 → okchar c2 → codeunits c1 ++ r1 = codeunits c2 ++ r2 → c1 = c2 ∧ r1 = r2.
Proof.
  rewrite !okchar_range. unfold codeunits. intros Ho1 Ho2 Heq.
  repeat case_match; propify; simplify_eq/=; try done;
    change 0x3FF with (Z.ones 10) in *; rewrite ?Z.land_ones, ?Z.shiftr_div_pow2 in * by lia;
    change (2 ^ 10) with 1024 in *; first [exfalso; divlia|split; [divlia|done]].
Qed.

Lemma codeunits_inj s1 s2 :
  okstr s1 → okstr s2 → _utf16_codeunits s1 = _utf16_codeunits s2 → s1 = s2.
Proof.
  rewrite !okstr_Forall. unfold _utf16_codeunits. intros Ho1. revert s2.
  assert (∀ c r, codeunits c ++ r ≠ []) as Hne.
  { intros c r. unfold codeunits. by destruct (c <=? 0xFFFF). }
  induction Ho1 as [|c1 s1 Hc1 _ IH]; intros [|c2 s2] Ho2 Heq; csimpl in *; [done|..].
  - symmetry in Heq. by apply Hne in Heq.
  - by apply Hne in Heq.
  - apply Forall_cons in Ho2 as [Hc2 Ho2].
    apply codeunits_prefix in Heq as [-> Heq]; [|done..]. f_equal. by apply IH.
Qed.

Lemma codeunits_ascii s : Forall (λ c, 0 ≤ c < 128) s → _utf16_codeunits s = s.
Proof.
  induction 1 as [|c s Hc _ IH]; [done|].
  assert (codeunits c = [c]) as Hu
    by (unfold codeunits; by rewrite (proj2 (Z.leb_le c 0xFFFF)) by lia).
  unfold _utf16_codeunits in *. csimpl. by rewrite Hu, IH.
Qed.
End order.

(** ** The value with its members in canonical order *)

Fixpoint jcs_sort (j : json) : json :=
  match j with
  | JList l => JList (List.map jcs_sort l)
  | JObj d => JObj (py_sorted member_leb (List.map (λ kv, (kv.1, jcs_sort kv.2)) d))
  | _ => j
  end.

Section sorted.

(** Sorting members with distinct keys forgets their order. *)
Lemma sort_members_perm (leb : str → str → bool) `{!KeyOrder leb} (d1 d2 : list (str * json)) :
  let le := λ x y : str * json, leb x.1 y.1 in
  (∀ k1 k2, k1 ∈ d1.*1 → k2 ∈ d1.*1 → leb k1 k2 = true → leb k2 k1 = true → k1 = k2) →
  NoDup d1.*1 → d1 ≡ₚ d2 → py_sorted le d1 = py_sorted le d2.
Proof.
  intros le Hanti Hnd Hp.
  assert (KeyOrder le) as Hle by exact (key_order_on leb fst).
  apply (sorted_perm_unique (λ x y, le x y = true)).
  - intros [k1 v1] [k2 v2]. rewrite !elem_of_py_sorted. intros Hx Hy Hxy Hyx.
    assert (k1 = k2) as ->.
    { apply Hanti; [by apply (list_elem_of_fmap_2 fst _ (k1, v1))
                   |by apply (list_elem_of_fmap_2 fst _ (k2, v2))|done|done]. }
    f_equal. pose proof (dict_get_NoDup d1 k2 v1 Hnd Hx) as E1.
    pose proof (dict_get_NoDup d1 k2 v2 Hnd Hy) as E2. congruence.
  - apply py_sorted_sorted, _.
  - apply py_sorted_sorted, _.
  - by rewrite !py_sorted_perm.
Qed.

Lemma jcs_sort_wf j : json_wf j → json_wf (jcs_sort j).
Proof.
  induction j as [| | | | |l IH|d IH] using json_ind'; intros Hj; try done; cbn [jcs_sort].
  - apply json_wf_list in Hj. apply json_wf_list, List.Forall_map.
    by apply (Forall_mp _ _ _ _ IH Hj); auto.
  - apply json_wf_obj in Hj as [Hnd Hj]. apply json_wf_obj. rewrite py_sorted_perm. split.
    + rewrite List.map_map. by rewrite (List.map_ext _ fst).
    + apply List.Forall_map. apply (Forall_mp _ _ _ _ IH Hj). intros [k v] Hv [Hk Hw]. by split; [|apply Hv].
Qed.

Lemma okstr_keys d k :
  Forall (λ kv : str * json, okstr kv.1 ∧ json_wf kv.2) d → k ∈ d.*1 → okstr k.
Proof.
  intros Hd [[k' v] [-> Hkv]]%list_elem_of_fmap. rewrite Forall_forall in Hd.
  by destruct (Hd _ Hkv).
Qed.

Lemma map_keys (f : json → json) (d : list (str * json)) :
  (List.map (λ kv, (kv.1, f kv.2)) d).*1 = d.*1.
Proof. change (?l.*1) with (List.map fst l). rewrite List.map_map. by apply List.map_ext. Qed.

Lemma perm_of_eq {A} (l k : list A) : l = k → l ≡ₚ k.
Proof. by intros ->. Qed.

Lemma map_sorted_perm (le : str * json → str * json → bool) (f g : json → json) d :
  Forall (λ kv, f (g kv.2) = f kv.2) d →
  List.map (λ kv, (kv.1, f kv.2)) (py_sorted le (List.map (λ kv, (kv.1, g kv.2)) d)) ≡ₚ
  List.map (λ kv, (kv.1, f kv.2)) d.
Proof.
  intros Hf. rewrite py_sorted_perm, List.map_map. cbn.
  apply perm_of_eq, List.map_ext_Forall.
  eapply Forall_impl; [exact Hf|]. intros [k v] E. cbn in *. by rewrite E.
Qed.

(** Sorting by code points and by code units are interchangeable. *)
Lemma jcs_sort_json_sort j : json_wf j → jcs_sort (json_sort j) = jcs_sort j.
Proof.
  induction j as [| | | | |l IH|d IH] using json_ind'; intros Hj; try done;
    cbn [jcs_sort json_sort]; f_equal.
  - rewrite List.map_map. apply List.map_ext_Forall. apply json_wf_list in Hj.
    by apply (Forall_mp _ _ _ _ IH Hj); auto.
  - apply json_wf_obj in Hj as [Hnd Hj].
    apply (sort_members_perm items_leb).
    + intros k1 k2. rewrite map_keys. rewrite py_sorted_perm, map_keys. intros H1 H2 Ha Hb.
      apply codeunits_inj; [by eapply okstr_keys..|].
      by apply (leb_antisym (leb:=str_leb)).
    + rewrite map_keys. by rewrite py_sorted_perm, map_keys.
    + apply map_sorted_perm. apply (Forall_mp _ _ _ _ IH Hj). intros [k v] Hv [_ Hw]. auto.
Qed.

Lemma json_sort_jcs_sort j : json_wf j → json_sort (jcs_sort j) = json_sort j.
Proof.
  induction j as [| | | | |l IH|d IH] using json_ind'; intros Hj; try done;
    cbn [jcs_sort json_sort]; f_equal.
  - rewrite List.map_map. apply List.map_ext_Forall. apply json_wf_list in Hj.
    by apply (Forall_mp _ _ _ _ IH Hj); auto.
  - apply json_wf_obj in Hj as [Hnd Hj].
    apply (sort_members_perm str_leb).
    + intros k1 k2 _ _. apply (leb_antisym (leb:=str_leb)).
    + rewrite map_keys. by rewrite py_sorted_perm, map_keys.
    + apply map_sorted_perm. apply (Forall_mp _ _ _ _ IH Hj). intros [k v] Hv [_ Hw]. auto.
Qed.
End sorted.

(** ** The canonical text *)

Section text.

Lemma serialize_string_quote s : _serialize_string s = quote false s.
Proof. done. Qed.

(** The text is the compact text of the sorted value. *)
Lemma serialize_ok j :
  json_wf j → _serialize j = Ok (json_print (quote false) (jcs_sort j)).
Proof.
  induction j as [|[]|z|f|s|l IH|d IH] using json_ind'; intros Hj; try done;
    cbn [_serialize jcs_sort json_print].
  - apply json_wf_list in Hj.
    assert (mapM _serialize l = Ok (json_print (quote false) <$> (jcs_sort <$> l))) as ->.
    { apply mapM_ok. rewrite <- list_fmap_compose. apply Forall2_fmap_r, Forall_Forall2_diag.
      apply (Forall_mp _ _ _ _ IH Hj). auto. }
    by rewrite bind_Ok.
  - apply json_wf_obj in Hj as [_ Hj].
    assert (mapM (λ kv : str * json, t ← _serialize kv.2; Ok (kv.1, t)) d =
      Ok ((λ kv, (kv.1, json_print (quote false) kv.2)) <$>
            ((λ kv, (kv.1, jcs_sort kv.2)) <$> d))) as ->.
    { apply mapM_ok. rewrite <- list_fmap_compose. apply Forall2_fmap_r, Forall_Forall2_diag.
      apply (Forall_mp _ _ _ _ IH Hj). intros [k v] Hv [_ Hw]. cbn in *. by rewrite Hv. }
    rewrite bind_Ok. do 3 f_equal.
    rewrite <- (py_sorted_fmap member_leb member_leb) by done.
    rewrite <- list_fmap_compose. done.
Qed.

Local Notation okchars := (Forall okchar).

Lemma okchars_ascii s : Forall (λ c, 0 ≤ c < 128) s → okchars s.
Proof. intros Hs. eapply Forall_impl; [exact Hs|]. intros c Hc. apply okchar_range. simpl in Hc. lia. Qed.

Lemma okchars_escape c : okchar c → okchars (escape c).
Proof.
  intros Hc. unfold escape. repeat case_match;
    try (apply okchars_ascii; repeat constructor; done); [|by constructor].
  apply okchars_ascii, ascii_u_escape.
Qed.

Lemma okchars_quote s : okchars s → okchars (quote false s).
Proof.
  intros Hs. rewrite <- serialize_string_quote. unfold _serialize_string.
  constructor; [by vm_compute|]. apply Forall_app. split; [|by repeat constructor].
  apply Forall_bind. eapply Forall_impl; [exact Hs|]. apply okchars_escape.
Qed.

Lemma okchars_join l : Forall okchars l → okchars (join (u ",") l).
Proof.
  induction 1 as [|x l Hx Hl IH]; [constructor|].
  destruct l as [|y l]; [done|]. rewrite join_cons2.
  apply Forall_app; split; [done|]. apply Forall_app; split; [|done].
  by apply okchars_ascii, ascii_lit.
Qed.

Lemma print_okchars j : json_wf j → okchars (json_print (quote false) j).
Proof.
  induction j as [|[]|z|f|s|l IH|d IH] using json_ind'; intros Hj; try done;
    try (by apply okchars_ascii, ascii_lit).
  - apply okchars_ascii, ascii_int_repr.
  - by apply okchars_quote, okstr_Forall.
  - apply json_wf_list in Hj. cbn [json_print].
    repeat (apply Forall_app; split; try by apply okchars_ascii, ascii_lit).
    apply okchars_join, Forall_map. by apply (Forall_mp _ _ _ _ IH Hj); auto.
  - apply json_wf_obj in Hj as [_ Hj]. cbn [json_print].
    repeat (apply Forall_app; split; try by apply okchars_ascii, ascii_lit).
    apply okchars_join, Forall_map. apply (Forall_mp _ _ _ _ IH Hj).
    intros [k v] Hv [Hk Hw]. cbn [fst snd] in *.
    apply Forall_app; split; [by apply okchars_quote, okstr_Forall|].
    apply Forall_app; split; [by apply okchars_ascii, ascii_lit|auto].
Qed.

Lemma canonicalize_wf j :
  json_wf j → ∃ b, canonicalize j = Ok b ∧
    utf8_encode (json_print (quote false) (jcs_sort j)) = Some b.
Proof.
  intros Hj. unfold canonicalize. rewrite serialize_ok, bind_Ok by done.
  destruct (utf8_encode (json_print (quote false) (jcs_sort j))) as [b|] eqn:E; [by eexists|].
  apply jcs_sort_wf, print_okchars, okstr_Forall, utf8_encode_encodable in Hj as [b Hb].
  congruence.
Qed.

Lemma canonicalize_sort j : json_wf j → canonicalize (json_sort j) = canonicalize j.
Proof.
  intros Hj. unfold canonicalize.
  by rewrite !serialize_ok, jcs_sort_json_sort by (done || by apply json_sort_wf).
Qed.

(** The canonical bytes can be read back: they decode to a text that
    [json.loads] reads as the value, with the members of its objects in
    canonical order. *)
Theorem canonicalize_reads_back j :
  json_wf j →
  ∃ b s, canonicalize j = Ok b ∧ utf8_decode b = Some s ∧ json_loads s = Some (jcs_sort j).
Proof.
  intros Hj. destruct (canonicalize_wf j Hj) as (b & Hb & He).
  exists b, (json_print (quote false) (jcs_sort j)). split_and!; [done|by apply utf8_decode_encode|].
  by apply json_loads_print, jcs_sort_wf.
Qed.

Lemma canonical_bytes_same j1 j2 :
  json_wf j1 → json_wf j2 →
  canonicalize j1 = canonicalize j2 ↔ json_sort j1 = json_sort j2.
Proof.
  intros Hj1 Hj2. destruct (canonicalize_wf j1 Hj1) as (b1 & Hb1 & He1).
  destruct (canonicalize_wf j2 Hj2) as (b2 & Hb2 & He2). rewrite Hb1, Hb2. split.
  - intros [= ->]. pose proof (utf8_encode_inj _ _ _ He1 He2) as Hp.
    apply (f_equal json_loads) in Hp.
    rewrite !json_loads_print in Hp by (by apply jcs_sort_wf). injection Hp as Hp.
    rewrite <- (json_sort_jcs_sort j1), <- (json_sort_jcs_sort j2) by done. by rewrite Hp.
  - intros Hs. rewrite <- (jcs_sort_json_sort j1), <- (jcs_sort_json_sort j2), Hs in * by done.
    congruence.
Qed.
(** Two values have the same canonical bytes exactly when they differ at most
    in the order of the members of their objects. *)
Theorem canonicalize_eq_iff j1 j2 :
  json_wf j1 → json_wf j2 →
  canonicalize j1 = canonicalize j2 ↔ json_sort j1 = json_sort j2.
Proof. apply canonical_bytes_same. Qed.
End text.

(** ** The interfaces of the package *)

Section interfaces.

Lemma string_members d :
  Forall (λ kv : str * json, Forall (λ c, 0 ≤ c < 128) kv.1 ∧ ∃ s, kv.2 = JStr s) d →
  mapM (λ kv : str * json, t ← _serialize kv.2; Ok (kv.1, t)) d =
  Ok ((λ kv, (kv.1, json_print (quote false) kv.2)) <$> d).
Proof.
  intros Hd. apply mapM_ok. apply Forall2_fmap_r, Forall_Forall2_diag.
  eapply Forall_impl; [exact Hd|]. intros [k v] [_ [s E]]. cbn in *. by subst v.
Qed.

(** On the objects the runtime hashes, texts under ASCII names, the fallback
    is what the aggregator relies on the package for: the compact text of
    [json.dumps] with sorted keys, or the same failure to encode. *)
Theorem jcs_conforms : @Rfc8785Conforms jcs_rfc8785.
Proof.
  intros f j Hf (d & -> & Hd). injection Hf as <-. unfold canonicalize. cbn [_serialize].
  rewrite (string_members d Hd), !bind_Ok.
  assert ((λ kt : str * str, _serialize_string kt.1 ++ u ":" ++ kt.2) <$>
      py_sorted member_leb ((λ kv, (kv.1, json_print (quote false) kv.2)) <$> d) =
    (λ kv, quote false kv.1 ++ u ":" ++ json_print (quote false) kv.2) <$>
      py_sorted key_leb ((λ kv, (kv.1, json_sort kv.2)) <$> d)) as ->.
  { rewrite <- (py_sorted_fmap member_leb member_leb) by done.
    rewrite <- list_fmap_compose.
    assert ((λ kv : str * json, (kv.1, json_sort kv.2)) <$> d = d) as ->.
    { rewrite <- (list_fmap_id d) at 2. apply Forall_fmap_ext_1.
      eapply Forall_impl; [exact Hd|]. intros [k v] [_ [s E]]. cbn in *. by subst v. }
    rewrite (py_sorted_ext member_leb key_leb); [done|].
    rewrite Forall_forall in Hd. intros [k1 v1] [k2 v2] [Hk1 _]%Hd [Hk2 _]%Hd.
    unfold member_leb, items_leb, key_leb. cbn in *. by rewrite !codeunits_ascii. }
  unfold json_dumps. cbn [json_sort json_print].
  by destruct (utf8_encode _).
Qed.

(** The canonical bytes do not depend on the order of object members, as the
    manifest signatures rely on. *)
Theorem jcs_canonical : @Rfc8785Canonical jcs_rfc8785.
Proof.
  intros f j Hf Hj. injection Hf as <-.
  by rewrite canonicalize_sort.
Qed.

(** On lists of texts as well. *)
Lemma canonicalize_texts l :
  canonicalize (JList (JStr <$> l)) =
  of_option JcsEncodeError (utf8_encode (json_dumps false true (JList (JStr <$> l)))).
Proof.
  unfold canonicalize. cbn [_serialize].
  assert (mapM _serialize (JStr <$> l) = Ok (quote false <$> l)) as ->.
  { apply mapM_ok, Forall2_fmap, Forall_Forall2_diag, Forall_true. done. }
  rewrite !bind_Ok. unfold json_dumps. cbn [json_sort json_print].
  change (List.map ?f ?k) with (f <$> k). by rewrite <- !list_fmap_compose.
Qed.
End interfaces.

(** ** Concrete values *)

Module JcsExample.

Definition doc : json :=
  JObj [(u "b", JList [JInt 2; JNull; JBool true]); (u "a", JStr [233; 10; 34])].
Definition doc' : json :=
  JObj [(u "a", JStr [233; 10; 34]); (u "b", JList [JInt 2; JNull; JBool true])].

Lemma doc_wf : json_wf doc ∧ json_wf doc'.
Proof.
  split; (split; [apply (bool_decide_unpack _); by vm_compute|]); cbn; repeat split;
    by vm_compute.
Qed.

Lemma canonicalize_reads_back_witness :
  ∃ b s, canonicalize doc = Ok b ∧ utf8_decode b = Some s ∧ json_loads s = Some (jcs_sort doc).
Proof. apply (canonicalize_reads_back doc). apply doc_wf. Defined.

Lemma canonicalize_eq_iff_witness :
  canonicalize doc = canonicalize doc' ↔ json_sort doc = json_sort doc'.
Proof. apply (canonicalize_eq_iff doc doc'); apply doc_wf. Defined.

(** U+FF61 comes before U+10000 by code points and behind it by code units. *)
Example utf16_order :
  jcs_sort (JObj [([0xFF61], JNull); ([0x10000], JNull)]) =
    JObj [([0x10000], JNull); ([0xFF61], JNull)] ∧
  json_sort (JObj [([0xFF61], JNull); ([0x10000], JNull)]) =
    JObj [([0xFF61], JNull); ([0x10000], JNull)].
Proof. by vm_compute. Qed.

(** The float branch prints [1.0], where ECMA-262 asks for [1]. *)
Example integral_float :
  canonicalize (JFloat (float_of_decimal false 1 0)) = Ok (byte_of_Z <$> u "1.0").
Proof. by vm_compute. Qed.
End JcsExample.
