(* ===== verification/CaveatSet.v ===== *)
(** * Canonical caveat sets ([wirelang/canonical/caveat_set.py])

    White-space normalisation, removal of duplicates, the sort by UTF-8 bytes
    and the hash over the JSON array.  The theorems: the canonical list is the
    strictly sorted list of the normalised caveats, sorting by bytes is sorting
    by code points, the function is idempotent, and the hash stands for the set
    of normalised caveats. *)

From S2P Require Import Prelude PyStr Sha256 PyJson PyJsonLoads Merkle Signing Jcs.
From Stdlib Require Import ZArith Lia.
Import Jcs.Jcs.

Open Scope Z_scope.

(** [UnicodeEncodeError], or what [rfc8785.dumps] raises. *)
Inductive caveat_error : Type := CaveatEncodeError | DumpsError.

Module CaveatSet.
Section caveats.
Context `{Sha256, Rfc8785}.

(** ** Step 1 *)

Definition ws_char (c : Z) : bool := bool_decide (c ∈ [32; 9; 13; 10]).

(** [_WS_RE.sub(" ", s)]: [inside] tells whether the last character belonged to
    a run. *)
Fixpoint _WS_RE_sub (inside : bool) (s : str) : str :=
  match s with
  | [] => []
  | c :: s' =>
      if ws_char c then if inside then _WS_RE_sub true s' else 32 :: _WS_RE_sub true s'
      else c :: _WS_RE_sub false s'
  end.

Definition _normalize_whitespace (caveat : str) : str := strip (_WS_RE_sub false caveat).

(** ** Steps 2 and 3 *)

Fixpoint dedup (seen : gset str) (normalised : list str) : list str :=
  match normalised with
  | [] => []
  | c :: rest => if decide (c ∈ seen) then dedup seen rest else c :: dedup ({[c]} ∪ seen) rest
  end.

Definition bytes_leb (a b : bytes) : bool := str_leb (Z_of_byte <$> a) (Z_of_byte <$> b).

Definition encode_key (s : str) : result caveat_error (bytes * str) :=
  b ← of_option CaveatEncodeError (utf8_encode s); Ok (b, s).

Definition _dedup_then_sort (normalised : list str) : result caveat_error (list str) :=
  keyed ← mapM encode_key (dedup ∅ normalised);
  Ok (py_sorted (λ x y, bytes_leb x.1 y.1) keyed).*2.

(** ** The composition *)

Definition canonicalize_caveat_set (caveats : list str) : result caveat_error (list str) :=
  _dedup_then_sort (_normalize_whitespace <$> caveats).

Definition texts (l : list str) : json := JList (JStr <$> l).

Definition _jcs_pure (value : json) : result caveat_error bytes :=
  map_err (λ _, CaveatEncodeError) (canonicalize value).

Definition _jcs_dumps (value : json) : result caveat_error bytes :=
  match rfc8785_dumps with
  | Some dumps => of_option DumpsError (dumps value)
  | None => _jcs_pure value
  end.

Definition canonical_caveat_set_bytes (caveats : list str) : result caveat_error bytes :=
  canonical_list ← canonicalize_caveat_set caveats; _jcs_dumps (texts canonical_list).

Definition canonical_caveat_set_hash (caveats : list str) : result caveat_error bytes :=
  b ← canonical_caveat_set_bytes caveats; Ok (sha256 b).

Definition _canonical_caveat_set_bytes_pure (caveats : list str) : result caveat_error bytes :=
  canonical_list ← canonicalize_caveat_set caveats; _jcs_pure (texts canonical_list).

Definition _canonical_caveat_set_hash_pure (caveats : list str) : result caveat_error bytes :=
  b ← _canonical_caveat_set_bytes_pure caveats; Ok (sha256 b).
End caveats.
End CaveatSet.

Import CaveatSet.

(** ** Byte order is code-point order *)

Section byte_order.

Lemma str_leb_app a b c : str_leb (a ++ b) (a ++ c) = str_leb b c.
Proof.
  induction a as [|x a IH]; [done|]. cbn [str_leb app].
  by rewrite (proj2 (Z.ltb_ge x x)), Z.eqb_refl, IH by lia.
Qed.

(** The encodings of different characters differ at one place, where the
    greater character has the greater byte. *)
Lemma utf8_char_lt c d b1 b2 r1 r2 :
  c < d → utf8_char c = Some b1 → utf8_char d = Some b2 →
  str_leb (b1 ++ r1) (b2 ++ r2) = true ∧ str_leb (b2 ++ r2) (b1 ++ r1) = false.
Proof.
  unfold utf8_char. intros Hlt Hc Hd.
  repeat case_match; simplify_eq/=; propify; cbn [str_leb];
    rewrite ?orb_true_iff, ?orb_false_iff, ?andb_true_iff, ?andb_false_iff,
      ?Z.ltb_lt, ?Z.ltb_ge, ?Z.eqb_eq, ?Z.eqb_neq; split; divlia.
Qed.

Lemma utf8_units_leb s t a b :
  utf8_units s = Some a → utf8_units t = Some b → str_leb a b = str_leb s t.
Proof.
  revert t a b. induction s as [|c s IH]; intros [|d t] a b Ha Hb; simpl in Ha, Hb;
    simplify_option_eq; try done.
  - rename select (utf8_char c = _) into Hc. apply utf8_char_nonnil in Hc.
    match goal with |- str_leb (?x ++ _) [] = _ => by destruct x end.
  - rename select (utf8_char c = _) into Hc. rename select (utf8_char d = _) into Hd.
    cbn [str_leb]. destruct (Z.lt_trichotomy c d) as [Hlt|[->|Hlt]].
    + match goal with |- str_leb (_ ++ ?r1) (_ ++ ?r2) = _ =>
        destruct (utf8_char_lt c d _ _ r1 r2 Hlt Hc Hd) as [-> _] end.
      by rewrite (proj2 (Z.ltb_lt c d)).
    + rewrite Hc in Hd. injection Hd as ->. rewrite str_leb_app, Z.ltb_irrefl, Z.eqb_refl.
      by apply IH.
    + match goal with |- str_leb (_ ++ ?r1) (_ ++ ?r2) = _ =>
        destruct (utf8_char_lt d c _ _ r2 r1 Hlt Hd Hc) as [_ ->] end.
      by rewrite (proj2 (Z.ltb_ge c d)), (proj2 (Z.eqb_neq c d)) by lia.
Qed.

Lemma bytes_leb_encode s t a b :
  utf8_encode s = Some a → utf8_encode t = Some b → bytes_leb a b = str_leb s t.
Proof.
  intros Ha%utf8_encode_units Hb%utf8_encode_units. by apply utf8_units_leb.
Qed.
End byte_order.

(** ** The canonical list *)

Section canonical.

Lemma elem_of_dedup x seen l : x ∈ dedup seen l ↔ x ∈ l ∧ x ∉ seen.
Proof.
  revert seen. induction l as [|c l IH]; intros seen; cbn [dedup].
  { rewrite elem_of_nil. naive_solver. }
  case_decide as Hc; rewrite ?elem_of_cons, IH; [naive_solver|].
  rewrite elem_of_union, elem_of_singleton. destruct (decide (x = c)); naive_solver.
Qed.

Lemma dedup_NoDup seen l : NoDup (dedup seen l).
Proof.
  revert seen. induction l as [|c l IH]; intros seen; cbn [dedup]; [constructor|].
  case_decide; [done|]. constructor; [|done].
  rewrite elem_of_dedup, elem_of_union, elem_of_singleton. naive_solver.
Qed.

Definition keyed (k : bytes * str) : Prop := utf8_encode k.2 = Some k.1.

Lemma encode_keys l ks :
  mapM encode_key l = Ok ks ↔ Forall okstr l ∧ ks.*2 = l ∧ Forall keyed ks.
Proof.
  rewrite mapM_ok. split.
  - induction 1 as [|s k l ks Hk _ (IH1 & IH2 & IH3)]; [done|].
    unfold encode_key in Hk. apply bind_ok_iff in Hk as (b & Hb%of_option_ok & <-%Ok_inj).
    csimpl. rewrite IH2. split_and!; [constructor; [|done]|done|by constructor].
    apply utf8_encode_encodable. eauto.
  - intros (_ & <- & Hk). induction Hk as [|[b s] ks Hk _ IH]; csimpl; constructor; [|done].
    change (utf8_encode s = Some b) in Hk. unfold encode_key. by rewrite Hk.
Qed.

Lemma encode_keys_total l : Forall okstr l → is_ok (mapM encode_key l) = true.
Proof.
  induction 1 as [|s l Hs _ IH]; [done|].
  apply utf8_encode_encodable in Hs as [b Hb].
  assert (encode_key s = Ok (b, s)) as Hk by (unfold encode_key; by rewrite Hb).
  rewrite mapM_cons, Hk, bind_Ok. by destruct (mapM encode_key l).
Qed.

Lemma sort_keyed ks :
  Forall keyed ks → (py_sorted (λ x y, bytes_leb x.1 y.1) ks).*2 = py_sorted str_leb ks.*2.
Proof.
  intros Hk. rewrite (py_sorted_ext _ (λ x y, str_leb x.2 y.2)).
  - by rewrite (py_sorted_fmap (λ x y : bytes * str, str_leb x.2 y.2) str_leb snd).
  - rewrite Forall_forall in Hk. intros x y Hx Hy. apply bytes_leb_encode; by apply Hk.
Qed.

(** The distinct caveats in code-point order. *)
Lemma dedup_then_sort_ok l out :
  _dedup_then_sort l = Ok out ↔ Forall okstr l ∧ out = py_sorted str_leb (dedup ∅ l).
Proof.
  assert (Forall okstr l ↔ Forall okstr (dedup ∅ l)) as ->.
  { rewrite !Forall_forall. setoid_rewrite elem_of_dedup.
    split; intros Hl x; [by intros [? _]; apply Hl|].
    intros Hx. apply Hl. split; [done|]. apply not_elem_of_empty. }
  unfold _dedup_then_sort. split.
  - intros (ks & (Hl & Eq & Hk)%encode_keys & <-%Ok_inj)%bind_ok_iff. split; [done|].
    by rewrite <- Eq, sort_keyed.
  - intros [Hl ->]. pose proof (encode_keys_total _ Hl) as Ht.
    destruct (mapM encode_key (dedup ∅ l)) as [ks|] eqn:E; [|done]. rewrite bind_Ok. f_equal.
    apply encode_keys in E as (_ & Eq & Hk). by rewrite <- Eq, sort_keyed.
Qed.

Definition strictly_sorted : list str → Prop := StronglySorted (λ a b, str_ltb a b = true).

Lemma strictly_sorted_iff l :
  strictly_sorted l ↔ StronglySorted (λ a b, str_leb a b = true) l ∧ NoDup l.
Proof.
  unfold strictly_sorted. induction l as [|x l IH].
  { split; [split; constructor|constructor]. }
  assert (∀ y, str_ltb x y = true ↔ str_leb x y = true ∧ x ≠ y) as Hxy.
  { intros y. unfold str_ltb, str_eqb. rewrite andb_true_iff, negb_true_iff, bool_decide_eq_false.
    done. }
  split.
  - intros Hs. inversion Hs as [|? ? Hl Hx]; subst. apply IH in Hl as [Hl Hnd].
    rewrite Forall_forall in Hx. split.
    + constructor; [done|]. apply Forall_forall. intros y Hy. by apply Hxy, Hx.
    + constructor; [|done]. intros Hin. by apply Hx, Hxy in Hin as [_ ?].
  - intros [Hs Hnd]. inversion Hs as [|? ? Hl Hx]; subst. apply NoDup_cons in Hnd as [Hin Hnd].
    constructor; [by apply IH|]. rewrite Forall_forall in *. intros y Hy. apply Hxy.
    split; [by apply Hx|]. by intros ->.
Qed.

Lemma sorted_dedup l : strictly_sorted (py_sorted str_leb (dedup ∅ l)).
Proof.
  apply strictly_sorted_iff. split; [apply py_sorted_sorted, _|].
  rewrite py_sorted_perm. apply dedup_NoDup.
Qed.

Lemma strictly_sorted_unique l1 l2 :
  strictly_sorted l1 → strictly_sorted l2 → (∀ x, x ∈ l1 ↔ x ∈ l2) → l1 = l2.
Proof.
  intros [Hs1 Hn1]%strictly_sorted_iff [Hs2 Hn2]%strictly_sorted_iff He.
  eapply sorted_perm_unique; [|exact Hs1|exact Hs2|by apply NoDup_Permutation].
  intros x y _ _. apply (leb_antisym (leb:=str_leb)).
Qed.

Lemma canonical_ok caveats out :
  canonicalize_caveat_set caveats = Ok out ↔
  Forall okstr (_normalize_whitespace <$> caveats) ∧ strictly_sorted out ∧
  (∀ x, x ∈ out ↔ x ∈ _normalize_whitespace <$> caveats).
Proof.
  unfold canonicalize_caveat_set. rewrite dedup_then_sort_ok.
  assert (∀ x l, x ∈ py_sorted str_leb (dedup ∅ l) ↔ x ∈ l) as Hin.
  { intros x l. rewrite elem_of_py_sorted, elem_of_dedup.
    split; [by intros [? _]|]. intros Hx. split; [done|]. apply not_elem_of_empty. }
  split.
  - intros [Ho ->]. split_and!; [done|apply sorted_dedup|]. intros x. apply Hin.
  - intros (Ho & Hs & He). split; [done|]. apply strictly_sorted_unique; [done|apply sorted_dedup|].
    intros x. by rewrite He, Hin.
Qed.

(** The canonical list of a caveat set is the strictly sorted list of its
    normalised caveats, in code-point order; there is one exactly when all of
    them can be encoded. *)
Theorem canonicalize_caveat_set_iff caveats out :
  canonicalize_caveat_set caveats = Ok out ↔
  Forall okstr (_normalize_whitespace <$> caveats) ∧ strictly_sorted out ∧
  (∀ x, x ∈ out ↔ x ∈ _normalize_whitespace <$> caveats).
Proof. apply canonical_ok. Qed.
End canonical.

(** ** Normalisation *)

Section normalised.

(** Only single spaces, and none at the start when [inside]. *)
Fixpoint tidy (inside : bool) (s : str) : Prop :=
  match s with
  | [] => True
  | c :: s' => if ws_char c then c = 32 ∧ inside = false ∧ tidy true s' else tidy false s'
  end.

Lemma sub_tidy inside s : tidy inside (_WS_RE_sub inside s).
Proof.
  revert inside. induction s as [|c s IH]; intros inside; [done|]. cbn [_WS_RE_sub].
  destruct (ws_char c) eqn:E; [destruct inside; [done|]|].
  - cbn [tidy]. by split_and!.
  - cbn [tidy]. by rewrite E.
Qed.

Lemma tidy_sub inside s : tidy inside s → _WS_RE_sub inside s = s.
Proof.
  revert inside. induction s as [|c s IH]; intros inside; [done|]. cbn [tidy _WS_RE_sub].
  destruct (ws_char c); [intros (-> & -> & Hs)|intros Hs]; f_equal; auto.
Qed.

Lemma tidy_weaken s : tidy true s → tidy false s.
Proof. destruct s as [|c s]; [done|]. cbn [tidy]. destruct (ws_char c); [|done]. by intros (_ & [=] & _). Qed.

Lemma tidy_drop inside a s : tidy inside (a ++ s) → tidy false s.
Proof.
  revert inside. induction a as [|c a IH]; intros inside; cbn [tidy app].
  - destruct inside; [apply tidy_weaken|done].
  - destruct (ws_char c); [intros (_ & _ & Hs)|intros Hs]; by eapply IH.
Qed.

Lemma tidy_take inside a s : tidy inside (a ++ s) → tidy inside a.
Proof.
  revert inside. induction a as [|c a IH]; intros inside; [done|]. cbn [tidy app].
  destruct (ws_char c); naive_solver.
Qed.

Lemma lstrip_suffix s : ∃ a, s = a ++ lstrip s.
Proof.
  induction s as [|c s [a IH]]; [by exists []|]. cbn [lstrip].
  destruct (is_space c); [|by exists []]. exists (c :: a). cbn. by f_equal.
Qed.

Lemma lstrip_idem s : lstrip (lstrip s) = lstrip s.
Proof.
  induction s as [|c s IH]; [done|]. cbn [lstrip]. destruct (is_space c) eqn:E; [done|].
  cbn [lstrip]. by rewrite E.
Qed.

(** The text between the white space. *)
Lemma strip_middle s : ∃ a b, s = a ++ strip s ++ b ∧ lstrip s = strip s ++ b.
Proof.
  destruct (lstrip_suffix s) as [a Ha], (lstrip_suffix (reverse (lstrip s))) as [b Hb].
  exists a, (reverse b). assert (lstrip s = strip s ++ reverse b) as E.
  { unfold strip. by rewrite <- reverse_app, <- Hb, reverse_involutive. }
  split; [|done]. by rewrite <- E.
Qed.

Lemma strip_idem s : strip (strip s) = strip s.
Proof.
  assert (lstrip (strip s) = strip s) as E.
  { destruct (strip_middle s) as (a & b & _ & Hl). pose proof (lstrip_idem s) as Hi.
    rewrite Hl in Hi. destruct (strip s) as [|c t]; [done|]. cbn [app lstrip] in Hi |- *.
    destruct (is_space c) eqn:Ec; [|done]. exfalso.
    destruct (lstrip_suffix (t ++ b)) as [a' Ha']. rewrite Hi in Ha'.
    apply (f_equal length) in Ha'. rewrite (length_app a') in Ha'.
    cbn [length] in Ha'. lia. }
  unfold strip at 1. rewrite E. unfold strip. by rewrite reverse_involutive, lstrip_idem.
Qed.

Lemma normalize_idem s :
  _normalize_whitespace (_normalize_whitespace s) = _normalize_whitespace s.
Proof.
  unfold _normalize_whitespace. rewrite (tidy_sub false (strip _)); [apply strip_idem|].
  destruct (strip_middle (_WS_RE_sub false s)) as (a & b & E & _).
  eapply tidy_take, tidy_drop. rewrite <- E. apply sub_tidy.
Qed.

(** A canonical list is its own canonical list. *)
Theorem canonicalize_idempotent caveats out :
  canonicalize_caveat_set caveats = Ok out → canonicalize_caveat_set out = Ok out.
Proof.
  intros (Ho & Hs & He)%canonical_ok.
  assert (_normalize_whitespace <$> out = out) as En.
  { rewrite <- (list_fmap_id out) at 2. apply list_fmap_ext. intros i x Hx.
    apply list_elem_of_lookup_2, He, list_elem_of_fmap in Hx as (c & -> & _).
    apply normalize_idem. }
  apply canonical_ok. rewrite En. split_and!; [|done|done].
  rewrite Forall_forall in *. intros x Hx. by apply Ho, He.
Qed.
End normalised.

(** ** The hash *)

(** What the runtime relies on for lists of texts. *)
Class Rfc8785Texts `{Rfc8785} : Prop :=
  rfc8785_texts f l :
    rfc8785_dumps = Some f →
    f (texts l) = utf8_encode (json_dumps false true (texts l)).

Section hash.
Context `{Sha256, Rfc8785, !Rfc8785Texts}.

Definition same_caveats (c1 c2 : list str) : Prop :=
  ∀ x, x ∈ _normalize_whitespace <$> c1 ↔ x ∈ _normalize_whitespace <$> c2.

Definition array_text (out : list str) : str := json_dumps false true (texts out).

Lemma pure_ok out b : _jcs_pure (texts out) = Ok b ↔ utf8_encode (array_text out) = Some b.
Proof.
  unfold _jcs_pure, texts. rewrite canonicalize_texts, map_err_ok, of_option_ok. done.
Qed.

Lemma dumps_ok out b : _jcs_dumps (texts out) = Ok b ↔ utf8_encode (array_text out) = Some b.
Proof.
  unfold _jcs_dumps. destruct rfc8785_dumps as [f|] eqn:E; [|apply pure_ok].
  by rewrite of_option_ok, (rfc8785_texts f out E).
Qed.

Lemma hash_ok caveats h :
  canonical_caveat_set_hash caveats = Ok h ↔
  ∃ out b, canonicalize_caveat_set caveats = Ok out ∧
    utf8_encode (array_text out) = Some b ∧ h = sha256 b.
Proof.
  unfold canonical_caveat_set_hash, canonical_caveat_set_bytes. split.
  - intros (b & (out & Ho & Hb%dumps_ok)%bind_ok_iff & <-%Ok_inj)%bind_ok_iff. by exists out, b.
  - intros (out & b & Ho & Hb & ->). apply dumps_ok in Hb.
    by rewrite Ho, bind_Ok, Hb, bind_Ok.
Qed.

Lemma array_text_inj out1 out2 :
  Forall okstr out1 → Forall okstr out2 → array_text out1 = array_text out2 → out1 = out2.
Proof.
  assert (∀ out, Forall okstr out → json_wf (texts out)) as Hwf.
  { intros out Ho. apply json_wf_list, Forall_fmap. done. }
  intros Ho1 Ho2 E. apply (f_equal json_loads) in E. unfold array_text in E.
  rewrite !json_loads_dumps in E by auto. injection E as E.
  assert (∀ out : list str, List.map json_sort (JStr <$> out) = JStr <$> out) as Hs.
  { intros out. change (List.map ?f ?l) with (f <$> l). by rewrite <- list_fmap_compose. }
  rewrite !Hs in E. apply (list_fmap_eq_inj JStr) in E; [done|]. by intros ?? [= ->].
Qed.

Lemma canonical_okstr caveats out :
  canonicalize_caveat_set caveats = Ok out → Forall okstr out.
Proof.
  intros (Ho & _ & He)%canonical_ok. rewrite Forall_forall in *. intros x Hx. by apply Ho, He.
Qed.

(** The hash stands for the set of normalised caveats: equal sets have
    equal hashes, and equal hashes come from equal sets or exhibit a SHA-256
    collision of the two texts that are hashed. *)
Theorem caveat_set_hash_binds c1 c2 h1 h2 :
  canonical_caveat_set_hash c1 = Ok h1 → canonical_caveat_set_hash c2 = Ok h2 →
  (same_caveats c1 c2 → h1 = h2) ∧
  (h1 = h2 → same_caveats c1 c2 ∨
     collision_in sha256 (ok_list (canonical_caveat_set_bytes c1) ++ ok_list (canonical_caveat_set_bytes c2))).
Proof.
  intros (b1 & Hm1 & <-%Ok_inj)%bind_ok_iff (b2 & Hm2 & <-%Ok_inj)%bind_ok_iff. rewrite Hm1, Hm2.
  apply bind_ok_iff in Hm1 as (o1 & Ho1 & Hb1%dumps_ok), Hm2 as (o2 & Ho2 & Hb2%dumps_ok).
  pose proof (canonical_okstr _ _ Ho1) as Hok1. pose proof (canonical_okstr _ _ Ho2) as Hok2.
  apply canonical_ok in Ho1 as (_ & Hs1 & He1), Ho2 as (_ & Hs2 & He2). split.
  - intros Hsame. assert (o1 = o2) as ->.
    { apply strictly_sorted_unique; [done..|]. intros x. by rewrite He1, He2. }
    congruence.
  - intros [->|?]%(eq_or_pair_collision sha256); [left|by right].
    assert (o1 = o2) as ->.
    { apply array_text_inj; [done..|]. by eapply utf8_encode_inj. }
    intros x. by rewrite <- He1, <- He2.
Qed.

(** Both lanes agree: the hash over the package's bytes and the one over the
    fallback's bytes exist for the same caveats and are equal. *)
Theorem lanes_agree caveats h :
  canonical_caveat_set_hash caveats = Ok h ↔ _canonical_caveat_set_hash_pure caveats = Ok h.
Proof.
  rewrite hash_ok. unfold _canonical_caveat_set_hash_pure, _canonical_caveat_set_bytes_pure.
  split.
  - intros (out & b & Ho & Hb & ->). apply pure_ok in Hb. by rewrite Ho, bind_Ok, Hb, bind_Ok.
  - intros (b & (out & Ho & Hb%pure_ok)%bind_ok_iff & <-%Ok_inj)%bind_ok_iff. by exists out, b.
Qed.
End hash.

(** ** Concrete sets *)

Module CaveatExample.
#[local] Existing Instance checksum_sha256.
#[local] Existing Instance std_rfc8785.

#[local] Instance std_texts : Rfc8785Texts.
Proof. intros f l [= <-]. done. Qed.

Definition set1 : list str := [u "resource(  1 )"; u "time_before(9)"; u " resource( 1 ) "].
Definition set2 : list str := [u "time_before(9)"; u "resource( 1 )"].

Definition hash1 : bytes := ok_or [] (canonical_caveat_set_hash set1).

Lemma canonicalize_idempotent_witness :
  canonicalize_caveat_set [u "resource( 1 )"; u "time_before(9)"] =
    Ok [u "resource( 1 )"; u "time_before(9)"].
Proof. apply (canonicalize_idempotent set1). vm_compute. reflexivity. Defined.

Lemma caveat_set_hash_binds_witness :
  (same_caveats set1 set2 → hash1 = hash1) ∧
  (hash1 = hash1 → same_caveats set1 set2 ∨
     collision_in sha256 (ok_list (canonical_caveat_set_bytes set1) ++ ok_list (canonical_caveat_set_bytes set2))).
Proof. apply (caveat_set_hash_binds set1 set2); vm_compute; reflexivity. Defined.

Lemma lanes_agree_witness :
  canonical_caveat_set_hash set1 = Ok hash1 ↔ _canonical_caveat_set_hash_pure set1 = Ok hash1.
Proof. apply (lanes_agree set1 hash1). Defined.

(** [strip] removes more than the four characters of the rule. *)
Example strips_no_break_space : _normalize_whitespace [0xA0; 97] = [97].
Proof. reflexivity. Qed.
End CaveatExample.
