(* ===== verification/AipSigning.v ===== *)
(** * Signatures of AIP documents ([wirelang/identity/aip_signing.py])

    Canonical payload, signing and verification.  The canonicaliser is the
    [rfc8785] package where it is installed and the runtime's own otherwise.
    A verified signature is characterised, and signing round-trips. *)

From S2P Require Import Prelude PyStr Sha256 PyJson PyJsonLoads PyDyn Merkle Signing Jcs.
From Stdlib Require Import ZArith Lia.
Import Jcs.Jcs.

Open Scope Z_scope.

(** One constructor per raise; the last two are exceptions that are no
    [ValueError] of the module. *)
Inductive aip_error : Type :=
| AipSeedLength (n : nat)
| AipBlockMissing
| AipUnsupportedAlg
| AipKeyLength (n : nat)
| AipSignatureNotHex
| AipSignatureLength (n : nat)
| AipSignatureType     (* TypeError of bytes.fromhex *)
| AipCanonicalisation. (* raised by the canonicaliser *)

Module AipSigning.
Section aip.
Context `{Sha256, Rfc8785, Ed25519}.

Definition _DEFAULT_KID : str := u "biscuit-root-1".

Definition _jcs_canonicalize (value : json) : result aip_error bytes :=
  match rfc8785_dumps with
  | Some dumps => of_option AipCanonicalisation (dumps value)
  | None => map_err (λ _, AipCanonicalisation) (canonicalize value)
  end.

Definition _canonical_signing_payload (aip_doc : dict) : result aip_error bytes :=
  canonical ← _jcs_canonicalize (JObj (dict_pop aip_doc (u "document_signature")));
  Ok (sha256 canonical).

Definition sign_aip_document (aip_doc : dict) (ed25519_priv_key : bytes) (kid : str)
    : result aip_error dict :=
  raise_if (negb (Nat.eqb (length ed25519_priv_key) 32)) (AipSeedLength (length ed25519_priv_key));;
  digest ← _canonical_signing_payload aip_doc;
  Ok [(u "alg", JStr (u "Ed25519")); (u "kid", JStr kid);
      (u "signature", JStr (hex (ed_sign ed25519_priv_key digest)))].

(** [bytes.fromhex(signature_block["signature"])] *)
Definition signature_bytes (signature : json) : result aip_error bytes :=
  match signature with
  | JStr s => of_option AipSignatureNotHex (bytes_fromhex s)
  | _ => Err AipSignatureType
  end.

Definition verify_aip_signature (aip_doc signature_block : dict) (ed25519_pub_key : bytes)
    : result aip_error bool :=
  match dict_get signature_block (u "alg"), dict_get signature_block (u "signature") with
  | Some alg, Some sig =>
      raise_if (negb (py_eq alg (JStr (u "Ed25519")))) AipUnsupportedAlg;;
      raise_if (negb (Nat.eqb (length ed25519_pub_key) 32)) (AipKeyLength (length ed25519_pub_key));;
      signature ← signature_bytes sig;
      raise_if (negb (Nat.eqb (length signature) 64)) (AipSignatureLength (length signature));;
      digest ← _canonical_signing_payload aip_doc;
      Ok (ed_verify ed25519_pub_key signature digest)
  | _, _ => Err AipBlockMissing
  end.
End aip.
End AipSigning.

Import AipSigning.

Section aip_properties.
Context `{Sha256, Rfc8785, Ed25519}.

(** The digest that is signed. *)
Definition aip_digest (m : dict) (d : bytes) : Prop :=
  _canonical_signing_payload m = Ok d.

Lemma verify_aip_ok m block pub b :
  verify_aip_signature m block pub = Ok b ↔
  ∃ s raw d, dict_get block (u "alg") = Some (JStr (u "Ed25519")) ∧ length pub = 32%nat ∧
    dict_get block (u "signature") = Some (JStr s) ∧ bytes_fromhex s = Some raw ∧
    length raw = 64%nat ∧ aip_digest m d ∧ ed_verify pub raw d = b.
Proof.
  unfold verify_aip_signature, aip_digest.
  destruct (dict_get block (u "alg")) as [alg|]; [|naive_solver].
  destruct (dict_get block (u "signature")) as [sig|]; [|naive_solver]. split.
  - intros Hv.
    apply bind_ok_iff in Hv as ([] & Ha%raise_if_ok%negb_false_iff%py_eq_str_r & Hv).
    apply bind_ok_iff in Hv as ([] & Hp%raise_if_ok%negb_false_iff%Nat.eqb_eq & Hv).
    apply bind_ok_iff in Hv as (raw & Hr & Hv).
    apply bind_ok_iff in Hv as ([] & Hl%raise_if_ok%negb_false_iff%Nat.eqb_eq & Hv).
    apply bind_ok_iff in Hv as (d & Hd & <-%Ok_inj).
    destruct sig; try done. apply of_option_ok in Hr. subst alg. eauto 12.
  - intros (s & raw & d & [= ->] & Hp & [= ->] & Hr & Hl & Hd & <-).
    rewrite (proj2 (py_eq_str_r _ _) eq_refl), Hp. cbn [negb Nat.eqb].
    rewrite !raise_if_false, !bind_Ok. cbn [signature_bytes]. rewrite Hr. cbn [of_option].
    by rewrite bind_Ok, Hl, raise_if_false, bind_Ok, Hd, bind_Ok.
Qed.

Context `{!Ed25519Laws}.

(** A document signed by [sign_aip_document] verifies under the public key of
    the seed, with the block inside the document as well as beside it. *)
Theorem sign_aip_verifies m seed kid block :
  sign_aip_document m seed kid = Ok block →
  verify_aip_signature m block (ed_public seed) = Ok true ∧
  verify_aip_signature (dict_set m (u "document_signature") (JObj block)) block (ed_public seed)
    = Ok true.
Proof.
  unfold sign_aip_document. intros Hs.
  apply bind_ok_iff in Hs as ([] & Hl%raise_if_ok%negb_false_iff%Nat.eqb_eq & Hs).
  apply bind_ok_iff in Hs as (d & Hd & <-%Ok_inj).
  assert (∀ m', aip_digest m' d → verify_aip_signature m'
    [(u "alg", JStr (u "Ed25519")); (u "kid", JStr kid);
     (u "signature", JStr (hex (ed_sign seed d)))] (ed_public seed) = Ok true) as Hv.
  { intros m' Hm'. apply verify_aip_ok. eexists _, _, d.
    split_and!; [reflexivity|by apply ed_public_length|reflexivity|apply bytes_fromhex_hex| |done|].
    - by apply ed_sign_length.
    - by apply ed_verify_sign. }
  split; apply Hv; [done|].
  unfold aip_digest, _canonical_signing_payload in *. by rewrite dict_pop_set.
Qed.
End aip_properties.

(** ** A concrete document *)

Module AipExample.
#[local] Existing Instance checksum_sha256.
#[local] Existing Instance plain_ed25519.
#[local] Existing Instance plain_ed25519_laws.

(** Without the package. *)
#[local] Instance no_rfc8785 : Rfc8785 := {| rfc8785_dumps := None |}.

Definition seed : bytes := replicate 32 Byte.x2a.
Definition doc : dict := [(u "id", JStr (u "aip:web:wakir.ch")); (u "n", JInt 3)].
Definition block : dict := ok_or [] (sign_aip_document doc seed _DEFAULT_KID).

Lemma sign_aip_verifies_witness :
  verify_aip_signature doc block (ed_public seed) = Ok true ∧
  verify_aip_signature (dict_set doc (u "document_signature") (JObj block)) block (ed_public seed)
    = Ok true.
Proof. apply (sign_aip_verifies doc seed _DEFAULT_KID block). vm_compute. reflexivity. Defined.
End AipExample.
