(* ===== verification/SigCache.v ===== *)
(** * The cache of signature verifications
      ([wirelang/identity/aip_signature_verification_cache.py])

    A bounded cache in insertion order with a time to live, in front of
    [verify_aip_signature].  The clock's readings are arguments, as binary64
    floats with the arithmetic of IEEE 754.  The theorems: the state's
    invariant, which makes the internal exceptions unreachable; transparency,
    for texts without the separator character; and the request that the cache
    answers and the verifier refuses. *)

From S2P Require Import Prelude PyStr PyFloat Sha256 PyJson PyDyn Merkle Signing Jcs AipSigning.
From Stdlib Require Import ZArith Lia SpecFloat.
Import AipSigning.AipSigning.

Open Scope Z_scope.

(** What a call raises. *)
Inductive cache_error : Type :=
| BadMaxEntries | BadTtl          (* ValueError of the constructor *)
| SlotMissing (field : str)       (* KeyError of the key *)
| SlotType                        (* AttributeError: no text *)
| SlotEncode                      (* UnicodeEncodeError *)
| CacheCanonicalisation           (* of the document *)
| OrderEmpty                      (* IndexError of pop(0) *)
| Verifier (e : aip_error).       (* raised by the verifier *)

Module SigCache.
Section cache.
Context `{Sha256, Rfc8785, Ed25519}.

Definition DEFAULT_MAX_ENTRIES : Z := 256.
Definition DEFAULT_TTL_SECONDS : float := float_of_decimal false 300 0.

Record _CacheEntry := MkEntry { outcome : bool; inserted_at : float }.

Record CacheStats := MkStats {
  hits : nat; misses : nat; evictions : nat; expired : nat; stats_size : nat }.

(** ** The key *)

Definition _jcs_body_digest_hex (aip_doc : dict) : result cache_error str :=
  canonical ← map_err (λ _, CacheCanonicalisation)
    (_jcs_canonicalize (JObj (dict_pop aip_doc (u "document_signature"))));
  Ok (hex (sha256 canonical)).

(** [b"\x00".join(parts)] *)
Fixpoint nul_join (parts : list bytes) : bytes :=
  match parts with
  | [] => []
  | [p] => p
  | p :: rest => p ++ Byte.x00 :: nul_join rest
  end.

Definition encode_slot (encode : str → option bytes) (slot : json) : result cache_error bytes :=
  match slot with
  | JStr s => of_option SlotEncode (encode s)
  | _ => Err SlotType
  end.

Definition ascii_encode (s : str) : option bytes :=
  if forallb (in_range 0 127) s then utf8_encode s else None.

Definition slot (block : dict) (field : str) : result cache_error json :=
  of_option (SlotMissing field) (dict_get block field).

(** The message whose digest is the key. *)
Definition key_message (aip_doc signature_block : dict) (pub_key : bytes)
    : result cache_error bytes :=
  alg ← slot signature_block (u "alg");
  kid ← slot signature_block (u "kid");
  sig_hex ← slot signature_block (u "signature");
  body_digest ← _jcs_body_digest_hex aip_doc;
  p1 ← of_option SlotEncode (ascii_encode body_digest);
  p2 ← encode_slot utf8_encode alg;
  p3 ← encode_slot utf8_encode kid;
  p4 ← encode_slot ascii_encode sig_hex;
  p5 ← of_option SlotEncode (ascii_encode (hex pub_key));
  Ok (nul_join [p1; p2; p3; p4; p5]).

Definition _build_cache_key (aip_doc signature_block : dict) (pub_key : bytes)
    : result cache_error str :=
  m ← key_message aip_doc signature_block pub_key; Ok (hex (sha256 m)).

(** ** The state *)

Record cache := MkCache {
  _max_entries : Z;
  _ttl_seconds : float;
  _entries : gmap str _CacheEntry;
  _order : list str;
  _hits : nat; _misses : nat; _evictions : nat; _expired : nat;
}.

(** [__init__] with an integer bound. *)
Definition new_cache (max_entries : Z) (ttl_seconds : float) : result cache_error cache :=
  raise_if (max_entries <=? 0) BadMaxEntries;;
  raise_if (SFleb ttl_seconds (S754_zero false)) BadTtl;;
  Ok (MkCache max_entries ttl_seconds ∅ [] 0 0 0 0).

Definition stats (c : cache) : CacheStats :=
  MkStats (_hits c) (_misses c) (_evictions c) (_expired c) (size (_entries c)).

Definition len (c : cache) : nat := size (_entries c).

(** [list.remove], whose [ValueError] is caught. *)
Fixpoint remove_first (key : str) (l : list str) : list str :=
  match l with
  | [] => []
  | k :: l' => if decide (k = key) then l' else k :: remove_first key l'
  end.

Definition _remove (key : str) (c : cache) : cache :=
  MkCache (_max_entries c) (_ttl_seconds c) (delete key (_entries c))
    (remove_first key (_order c)) (_hits c) (_misses c) (_evictions c) (_expired c).

Definition count_hit (c : cache) : cache :=
  MkCache (_max_entries c) (_ttl_seconds c) (_entries c) (_order c)
    (S (_hits c)) (_misses c) (_evictions c) (_expired c).
Definition count_miss (c : cache) : cache :=
  MkCache (_max_entries c) (_ttl_seconds c) (_entries c) (_order c)
    (_hits c) (S (_misses c)) (_evictions c) (_expired c).
Definition count_expired (c : cache) : cache :=
  MkCache (_max_entries c) (_ttl_seconds c) (_entries c) (_order c)
    (_hits c) (_misses c) (_evictions c) (S (_expired c)).

(** The full cache gives up its oldest entry. *)
Definition make_room (c : cache) : result cache_error cache :=
  if _max_entries c <=? Z.of_nat (size (_entries c)) then
    match _order c with
    | [] => Err OrderEmpty
    | oldest :: rest =>
        Ok (MkCache (_max_entries c) (_ttl_seconds c) (delete oldest (_entries c)) rest
              (_hits c) (_misses c) (S (_evictions c)) (_expired c))
    end
  else Ok c.

Definition append (key : str) (e : _CacheEntry) (c : cache) : cache :=
  MkCache (_max_entries c) (_ttl_seconds c) (<[key := e]> (_entries c)) (_order c ++ [key])
    (_hits c) (_misses c) (_evictions c) (_expired c).

Definition _insert (key : str) (e : _CacheEntry) (c : cache) : result cache_error cache :=
  c ← make_room c; Ok (append key e c).

(** The miss path, on the state it starts from. *)
Definition miss (now : float) (key : str) (aip_doc signature_block : dict) (pub_key : bytes)
    (c : cache) : cache * result cache_error bool :=
  match verify_aip_signature aip_doc signature_block pub_key with
  | Err e => (c, Err (Verifier e))
  | Ok outcome =>
      let c := count_miss c in
      match _insert key (MkEntry outcome now) c with
      | Ok c' => (c', Ok outcome)
      | Err e => (c, Err e)
      end
  end.

(** [now] is the reading of the clock. *)
Definition verify (now : float) (aip_doc signature_block : dict) (pub_key : bytes) (c : cache)
    : cache * result cache_error bool :=
  match _build_cache_key aip_doc signature_block pub_key with
  | Err e => (c, Err e)
  | Ok key =>
      match _entries c !! key with
      | Some entry =>
          let age := SFsub prec emax now (inserted_at entry) in
          if SFltb age (_ttl_seconds c) then (count_hit c, Ok (outcome entry))
          else miss now key aip_doc signature_block pub_key (count_expired (_remove key c))
      | None => miss now key aip_doc signature_block pub_key c
      end
  end.

Definition clear (c : cache) : cache :=
  MkCache (_max_entries c) (_ttl_seconds c) ∅ [] (_hits c) (_misses c) (_evictions c) (_expired c).

Definition is_expired (threshold : float) (c : cache) (key : str) : bool :=
  match _entries c !! key with
  | Some entry => SFleb (inserted_at entry) threshold
  | None => false
  end.

Definition evict_expired (now : float) (c : cache) : cache * nat :=
  let threshold := SFsub prec emax now (_ttl_seconds c) in
  let to_remove := List.filter (is_expired threshold c) (_order c) in
  (foldl (λ c key, count_expired (_remove key c)) c to_remove, length to_remove).

Definition cached_verify_aip_signature (now : float) (aip_doc signature_block : dict)
    (pub_key : bytes) (c : cache) : cache * result cache_error bool :=
  verify now aip_doc signature_block pub_key c.
End cache.
End SigCache.

Import SigCache.

(** ** Invariant *)

Section invariant.
Context `{Sha256, Rfc8785, Ed25519}.

(** Order and entries hold the same keys, each once, within the bound. *)
Record cache_inv (c : cache) : Prop := {
  inv_bound : 0 < _max_entries c;
  inv_nodup : NoDup (_order c);
  inv_keys k : k ∈ _order c ↔ is_Some (_entries c !! k);
  inv_size : Z.of_nat (size (_entries c)) ≤ _max_entries c;
}.

Lemma elem_of_remove_first k x l :
  NoDup l → x ∈ remove_first k l ↔ x ∈ l ∧ x ≠ k.
Proof.
  induction 1 as [|y l Hy Hl IH]; cbn [remove_first].
  { rewrite elem_of_nil. naive_solver. }
  case_decide as Hk.
  - subst y. rewrite elem_of_cons. split; [|naive_solver].
    intros Hx. split; [by right|]. by intros ->.
  - rewrite !elem_of_cons, IH. naive_solver.
Qed.

Lemma remove_first_nodup k l : NoDup l → NoDup (remove_first k l).
Proof.
  induction 1 as [|y l Hy Hl IH]; cbn [remove_first]; [constructor|].
  case_decide; [done|]. constructor; [|done]. rewrite elem_of_remove_first by done. naive_solver.
Qed.

Lemma inv_length c : cache_inv c → size (_entries c) = length (_order c).
Proof.
  intros Hc. rewrite <- size_dom.
  assert (dom (_entries c) = list_to_set (C:=gset str) (_order c)) as ->.
  { apply set_eq. intros k. by rewrite elem_of_dom, elem_of_list_to_set, (inv_keys c Hc). }
  by apply size_list_to_set, inv_nodup.
Qed.

Lemma inv_remove k c : cache_inv c → cache_inv (_remove k c).
Proof.
  intros [Hb Hn Hk Hs]. split; cbn [_remove _max_entries _order _entries].
  - done.
  - by apply remove_first_nodup.
  - intros x. rewrite elem_of_remove_first, Hk, lookup_delete_is_Some by done. naive_solver.
  - destruct (_entries c !! k) as [e|] eqn:E.
    + rewrite map_size_delete_Some by eauto. lia.
    + by rewrite delete_id.
Qed.

Lemma inv_count c :
  cache_inv c → cache_inv (count_hit c) ∧ cache_inv (count_miss c) ∧ cache_inv (count_expired c).
Proof. intros [Hb Hn Hk Hs]. by split_and!; split. Qed.

Lemma inv_make_room c :
  cache_inv c → ∃ c', make_room c = Ok c' ∧ cache_inv c' ∧
    Z.of_nat (size (_entries c')) < _max_entries c' ∧ _max_entries c' = _max_entries c ∧
    (∀ k e, _entries c' !! k = Some e → _entries c !! k = Some e).
Proof.
  intros Hc. pose proof (inv_length c Hc) as Hlen. destruct Hc as [Hb Hn Hk Hs].
  unfold make_room. destruct (Z.leb_spec (_max_entries c) (Z.of_nat (size (_entries c)))).
  2:{ exists c. split_and!; [done|by split|lia|done|done]. }
  destruct (_order c) as [|oldest rest] eqn:Eo; [cbn in Hlen; lia|].
  eexists. split; [done|]. apply NoDup_cons in Hn as [Hold Hn].
  assert (is_Some (_entries c !! oldest)) as [e He] by (apply Hk; left).
  assert (size (delete oldest (_entries c)) = pred (size (_entries c))) as Hsize
    by (rewrite map_size_delete_Some by eauto; lia).
  assert (Z.of_nat (size (delete oldest (_entries c))) < _max_entries c) as Hlt.
  { cbn in Hlen. rewrite Hsize. lia. }
  split_and!; cbn [_max_entries _order _entries]; [|done|done|].
  - split; cbn [_max_entries _order _entries]; [done|done| |lia].
    intros k. rewrite lookup_delete_is_Some, <- Hk, elem_of_cons. split; [|naive_solver].
    intros Hx. split; [by intros ->|by right].
  - intros k e'. rewrite lookup_delete_Some. by intros [_ ?].
Qed.

Lemma inv_insert key e c :
  cache_inv c → _entries c !! key = None →
  ∃ c', _insert key e c = Ok c' ∧ cache_inv c' ∧
    (∀ k e', _entries c' !! k = Some e' → _entries c !! k = Some e' ∨ k = key ∧ e' = e).
Proof.
  intros Hc Hkey. destruct (inv_make_room c Hc) as (c' & Hr & Hc' & Hlt & Hm & Hsub).
  assert (_entries c' !! key = None) as Hnew.
  { destruct (_entries c' !! key) as [e'|] eqn:E; [|done]. apply Hsub in E. congruence. }
  eexists. unfold _insert. rewrite Hr, bind_Ok. split; [done|]. split.
  - destruct Hc' as [Hb Hn Hk Hs]. split; cbn [append _max_entries _order _entries].
    + done.
    + apply NoDup_app. split_and!; [done| |apply NoDup_singleton].
      intros x Hx ->%list_elem_of_singleton. apply Hk in Hx. rewrite Hnew in Hx. by destruct Hx.
    + intros k. rewrite elem_of_app, list_elem_of_singleton, Hk, lookup_insert_is_Some'. naive_solver.
    + rewrite map_size_insert_None by done. lia.
  - intros k e'. cbn [append _entries]. rewrite lookup_insert_Some. naive_solver.
Qed.
End invariant.

(** ** The key determines the request *)

Section keys.
Context `{Sha256, Rfc8785, Ed25519}.

(** The texts of the block hold no separator. *)
Definition clean (block : dict) : Prop :=
  ∀ field s, field ∈ [u "alg"; u "kid"; u "signature"] →
    dict_get block field = Some (JStr s) → 0 ∉ s.

Lemma utf8_no_nul s b : utf8_encode s = Some b → 0 ∉ s → Byte.x00 ∉ b.
Proof.
  intros Hb Hs. apply utf8_encode_units in Hb.
  assert (∀ l, utf8_units s = Some l → 0 ∉ l) as Hu.
  { clear b Hb. induction s as [|c s IH]; intros l Hl; simpl in Hl; simplify_option_eq.
    { apply not_elem_of_nil. }
    apply not_elem_of_cons in Hs as [Hc Hs]. rewrite not_elem_of_app. split; [|by apply IH].
    rename select (utf8_char c = Some _) into Hu. unfold utf8_char in Hu.
    repeat case_match; simplify_eq/=; propify; rewrite !not_elem_of_cons;
      split_and?; try apply not_elem_of_nil; try divlia. }
  intros Hin. apply (Hu _ Hb). by apply (list_elem_of_fmap_2 Z_of_byte b Byte.x00).
Qed.

Lemma ascii_encode_utf8 s b : ascii_encode s = Some b → utf8_encode s = Some b.
Proof. unfold ascii_encode. by destruct (forallb _ s). Qed.

Lemma nul_app_inj a b r1 r2 :
  Byte.x00 ∉ a → Byte.x00 ∉ b → a ++ Byte.x00 :: r1 = b ++ Byte.x00 :: r2 → a = b ∧ r1 = r2.
Proof.
  revert b. induction a as [|x a IH]; intros [|y b] Ha Hb E; simplify_eq/=.
  - done.
  - by rewrite not_elem_of_cons in Hb; destruct Hb.
  - by rewrite not_elem_of_cons in Ha; destruct Ha.
  - apply not_elem_of_cons in Ha as [_ Ha], Hb as [_ Hb].
    by destruct (IH b Ha Hb) as [-> ->].
Qed.

Lemma hex_no_nul b : 0 ∉ hex b.
Proof.
  unfold hex. intros (x & Hx & _)%list_elem_of_bind. unfold hex_byte in Hx.
  rewrite !elem_of_cons, elem_of_nil in Hx. unfold hex_digit in Hx.
  pose proof (Z_of_byte_range x). destruct Hx as [Hx|[Hx|[]]]; case_match; propify; divlia.
Qed.

(** A key that was built, taken apart. *)
Lemma key_message_ok m block pub msg :
  key_message m block pub = Ok msg ↔
  ∃ alg kid sig c p2 p3 p4 p1 p5,
    dict_get block (u "alg") = Some (JStr alg) ∧ dict_get block (u "kid") = Some (JStr kid) ∧
    dict_get block (u "signature") = Some (JStr sig) ∧
    _jcs_canonicalize (JObj (dict_pop m (u "document_signature"))) = Ok c ∧
    ascii_encode (hex (sha256 c)) = Some p1 ∧ utf8_encode alg = Some p2 ∧
    utf8_encode kid = Some p3 ∧ ascii_encode sig = Some p4 ∧ ascii_encode (hex pub) = Some p5 ∧
    msg = nul_join [p1; p2; p3; p4; p5].
Proof.
  unfold key_message, slot. split.
  - intros Hk.
    apply bind_ok_iff in Hk as (alg & Ha%of_option_ok & Hk).
    apply bind_ok_iff in Hk as (kid & Hi%of_option_ok & Hk).
    apply bind_ok_iff in Hk as (sig & Hs%of_option_ok & Hk).
    apply bind_ok_iff in Hk as (dg & Hd & Hk). unfold _jcs_body_digest_hex in Hd.
    apply bind_ok_iff in Hd as (c & Hc%map_err_ok & <-%Ok_inj).
    apply bind_ok_iff in Hk as (p1 & Hp1%of_option_ok & Hk).
    apply bind_ok_iff in Hk as (p2 & Hp2 & Hk). apply bind_ok_iff in Hk as (p3 & Hp3 & Hk).
    apply bind_ok_iff in Hk as (p4 & Hp4 & Hk).
    apply bind_ok_iff in Hk as (p5 & Hp5%of_option_ok & <-%Ok_inj).
    destruct alg as [| | | |alg| |]; try done. destruct kid as [| | | |kid| |]; try done.
    destruct sig as [| | | |sig| |]; try done. apply of_option_ok in Hp2, Hp3, Hp4.
    exists alg, kid, sig, c, p2, p3, p4, p1, p5. by split_and!.
  - intros (alg & kid & sig & c & p2 & p3 & p4 & p1 & p5 & -> & -> & -> & Hc & Hp1 & Hp2 & Hp3 & Hp4 & Hp5 & ->).
    cbn [of_option]. rewrite !bind_Ok. unfold _jcs_body_digest_hex. rewrite Hc. cbn [map_err].
    rewrite !bind_Ok, Hp1. cbn [of_option encode_slot].
    by rewrite Hp2, Hp3, Hp4, Hp5, !bind_Ok.
Qed.

(** Requests with one message have the same outcome at the verifier. *)
Lemma message_outcome m1 b1 p1 m2 b2 p2 msg :
  clean b1 → clean b2 →
  key_message m1 b1 p1 = Ok msg → key_message m2 b2 p2 = Ok msg →
  verify_aip_signature m1 b1 p1 = verify_aip_signature m2 b2 p2.
Proof.
  intros Hcl1 Hcl2
    (alg1 & kid1 & sig1 & c1 & a2 & a3 & a4 & a1 & a5 & Ha1 & Hk1 & Hs1 & Hc1 & A1 & A2 & A3 & A4 & A5 & ->)%key_message_ok
    (alg2 & kid2 & sig2 & c2 & e2 & e3 & e4 & e1 & e5 & Ha2 & Hk2 & Hs2 & Hc2 & E1 & E2 & E3 & E4 & E5 & Hj)%key_message_ok.
  apply ascii_encode_utf8 in A1, A4, A5, E1, E4, E5.
  assert (∀ block f s, clean block → f ∈ [u "alg"; u "kid"; u "signature"] →
    dict_get block f = Some (JStr s) → 0 ∉ s) as Hcl by (intros block f s Hb; apply Hb).
  assert (0 ∉ alg1 ∧ 0 ∉ kid1 ∧ 0 ∉ sig1 ∧ 0 ∉ alg2 ∧ 0 ∉ kid2 ∧ 0 ∉ sig2)
    as (N1 & N2 & N3 & N4 & N5 & N6).
  { split_and!; (eapply Hcl; [| |eassumption]; [done|]; rewrite !elem_of_cons; tauto). }
  cbn [nul_join] in Hj.
  apply nul_app_inj in Hj as [-> Hj]; [|by eapply utf8_no_nul; [done|apply hex_no_nul]..].
  apply nul_app_inj in Hj as [-> Hj]; [|by eapply utf8_no_nul..].
  apply nul_app_inj in Hj as [-> Hj]; [|by eapply utf8_no_nul..].
  apply nul_app_inj in Hj as [-> ->]; [|by eapply utf8_no_nul..].
  pose proof (utf8_encode_inj _ _ _ A1 E1) as Hd%hex_inj.
  pose proof (utf8_encode_inj _ _ _ A2 E2) as ->.
  pose proof (utf8_encode_inj _ _ _ A4 E4) as ->.
  pose proof (utf8_encode_inj _ _ _ A5 E5) as ->%hex_inj.
  unfold verify_aip_signature, _canonical_signing_payload.
  by rewrite Ha1, Ha2, Hs1, Hs2, Hc1, Hc2, !bind_Ok, Hd.
Qed.

(** Requests with one key have the same outcome, unless the messages of their keys
    collide. *)
Lemma key_outcome ms m1 b1 p1 m2 b2 p2 key :
  clean b1 → clean b2 →
  _build_cache_key m1 b1 p1 = Ok key → _build_cache_key m2 b2 p2 = Ok key →
  ok_list (key_message m1 b1 p1) ++ ok_list (key_message m2 b2 p2) ⊆ ms →
  verify_aip_signature m1 b1 p1 = verify_aip_signature m2 b2 p2 ∨ collision_in sha256 ms.
Proof.
  intros Hb1 Hb2 (x & Hx & <-%Ok_inj)%bind_ok_iff (y & Hy & E%Ok_inj%hex_inj)%bind_ok_iff.
  rewrite Hx, Hy. cbn. intros Hms.
  apply (eq_or_collision sha256 ms) in E as [->|?]; [left|by right|set_solver..].
  by eapply message_outcome.
Qed.
End keys.

(** ** Sequences of calls *)

Section sequences.
Context `{Sha256, Rfc8785, Ed25519}.

Inductive op : Type :=
| OpVerify (now : float) (aip_doc signature_block : dict) (pub_key : bytes)
| OpClear
| OpEvictExpired (now : float).

Definition step (c : cache) (o : op) : cache :=
  match o with
  | OpVerify now m block pub => (verify now m block pub c).1
  | OpClear => clear c
  | OpEvictExpired now => (evict_expired now c).1
  end.

Definition run : list op → cache → cache := λ ops c, foldl step c ops.

Definition clean_op (o : op) : Prop :=
  match o with OpVerify _ _ block _ => clean block | _ => True end.

(** What the call answers without a cache. *)
Definition uncached (aip_doc signature_block : dict) (pub_key : bytes) : result cache_error bool :=
  _build_cache_key aip_doc signature_block pub_key;;
  map_err Verifier (verify_aip_signature aip_doc signature_block pub_key).

(** The messages hashed for the keys of the calls. *)
Definition op_messages (o : op) : list bytes :=
  match o with
  | OpVerify _ m block pub => ok_list (key_message m block pub)
  | _ => []
  end.
Definition key_messages (ops : list op) : list bytes := ops ≫= op_messages.

(** Every entry is the outcome of a request with its key, whose message is one of
    [ms]. *)
Definition sound (ms : list bytes) (c : cache) : Prop :=
  ∀ key e, _entries c !! key = Some e → ∃ m block pub, clean block ∧
    ok_list (key_message m block pub) ⊆ ms ∧
    _build_cache_key m block pub = Ok key ∧ verify_aip_signature m block pub = Ok (outcome e).

Definition good (ms : list bytes) (c : cache) : Prop := cache_inv c ∧ sound ms c.

Lemma good_mono ms ms' c : ms ⊆ ms' → good ms c → good ms' c.
Proof.
  intros Hms [Hi Hs]. split; [done|]. intros key e (m & block & pub & ? & Hm & ?)%Hs.
  exists m, block, pub. split_and!; [done|by etrans|naive_solver..].
Qed.

Lemma good_count_remove ms key c : good ms c → good ms (count_expired (_remove key c)).
Proof.
  intros [Hi Hs]. split; [by apply inv_count, inv_remove|].
  intros k e. cbn [count_expired _remove _entries]. rewrite lookup_delete_Some. intros [_ He].
  by apply Hs.
Qed.

Lemma miss_good ms now key m block pub c c' r :
  good ms c → clean block → ok_list (key_message m block pub) ⊆ ms →
  _build_cache_key m block pub = Ok key → _entries c !! key = None →
  miss now key m block pub c = (c', r) → good ms c' ∧ r = uncached m block pub.
Proof.
  intros [Hi Hs] Hb Hms Hk Hno Hm. unfold miss, uncached in *. rewrite Hk, bind_Ok.
  destruct (verify_aip_signature m block pub) as [ok|e] eqn:Ev; [|by simplify_eq].
  destruct (inv_insert key (MkEntry ok now) (count_miss c)) as (c2 & Hc2 & Hi2 & Hsub);
    [by apply inv_count|done|].
  rewrite Hc2 in Hm. injection Hm as <- <-. split; [|done]. split; [done|].
  intros k e He. apply Hsub in He as [He|[-> ->]]; [by apply Hs|].
  by exists m, block, pub.
Qed.

Lemma verify_good ms now m block pub c c' r :
  good ms c → clean block → ok_list (key_message m block pub) ⊆ ms →
  verify now m block pub c = (c', r) →
  good ms c' ∧ (r = uncached m block pub ∨ collision_in sha256 ms).
Proof.
  intros Hg Hb Hms. unfold verify.
  destruct (_build_cache_key m block pub) as [key|e] eqn:Ek.
  2:{ intros [= <- <-]. split; [done|]. left. unfold uncached. by rewrite Ek. }
  destruct (_entries c !! key) as [entry|] eqn:Ee.
  2:{ intros Hm. eapply miss_good in Hm as [? ?]; eauto. }
  destruct (SFltb _ _).
  - intros [= <- <-]. destruct Hg as [Hi Hs]. split; [by split; [apply inv_count|]|].
    destruct (Hs _ _ Ee) as (m2 & b2 & p2 & Hb2 & Hm2 & Hk2 & Hv2).
    destruct (key_outcome ms m block pub m2 b2 p2 key) as [Hq|?]; [done..|set_solver|left|by right].
    unfold uncached. by rewrite Ek, bind_Ok, Hq, Hv2.
  - intros Hm. eapply miss_good in Hm as [? ?]; eauto using good_count_remove.
    cbn [count_expired _remove _entries]. by rewrite lookup_delete_eq.
Qed.

Lemma evict_good ms now c : good ms c → good ms (evict_expired now c).1.
Proof.
  unfold evict_expired. cbn [fst]. generalize (List.filter (is_expired (SFsub prec emax now (_ttl_seconds c)) c) (_order c)).
  intros l. revert c. induction l as [|k l IH]; intros c Hg; [done|]. cbn [foldl].
  by apply IH, good_count_remove.
Qed.

Lemma step_good ms c o : good ms c → clean_op o → op_messages o ⊆ ms → good ms (step c o).
Proof.
  intros Hg Ho Hms. destruct o as [now m block pub| |now]; cbn [step].
  - destruct (verify now m block pub c) as [c' r] eqn:E. by eapply verify_good in E as [? _].
  - destruct Hg as [[Hb _ _ _] _]. split; [|intros k e; cbn; by rewrite lookup_empty].
    split; cbn [clear _max_entries _order _entries]; [done|constructor| |].
    + intros k. rewrite lookup_empty, elem_of_nil. split; [done|]. by intros [? ?].
    + rewrite map_size_empty. lia.
  - by apply evict_good.
Qed.

Lemma new_good mx ttl c : new_cache mx ttl = Ok c → good [] c.
Proof.
  unfold new_cache. intros ([] & Hm%raise_if_ok & Hc)%bind_ok_iff.
  apply bind_ok_iff in Hc as ([] & _ & <-%Ok_inj). apply Z.leb_gt in Hm. split.
  - split; cbn [_max_entries _order _entries]; [done|constructor| |].
    + intros k. rewrite lookup_empty, elem_of_nil. split; [done|]. by intros [? ?].
    + rewrite map_size_empty. lia.
  - intros k e. cbn. by rewrite lookup_empty.
Qed.

Lemma run_good ms ops c : good ms c → Forall clean_op ops → key_messages ops ⊆ ms → good ms (run ops c).
Proof.
  intros Hg Ho. revert c Hg. induction Ho as [|o ops Ho _ IH]; intros c Hg Hms; [done|].
  unfold key_messages in *. cbn [mbind list_bind] in Hms.
  cbn. apply IH; [|set_solver]. apply step_good; [done|done|set_solver].
Qed.

(** C13: The cache is transparent: after any sequence of calls on a new cache, for
    any clock, a call answers what the verifier answers, once the key can be
    built, or two of the messages that these calls hash for their keys collide;
    all texts are free of the separator. *)
Theorem cache_transparent mx ttl c0 ops now m block pub :
  new_cache mx ttl = Ok c0 → Forall clean_op ops → clean block →
  (verify now m block pub (run ops c0)).2 = uncached m block pub ∨
  collision_in sha256 (key_messages ops ++ ok_list (key_message m block pub)).
Proof.
  intros Hn Ho Hb. set (ms := _ ++ _).
  assert (good ms (run ops c0)) as Hg.
  { apply run_good; [|done|unfold ms; set_solver].
    apply (good_mono []); [set_solver|by eapply new_good]. }
  destruct (verify now m block pub (run ops c0)) as [c r] eqn:E.
  eapply verify_good in E as [_ ?]; [done|done|done|unfold ms; set_solver].
Qed.

Lemma build_key_err m block pub : _build_cache_key m block pub ≠ Err OrderEmpty.
Proof.
  unfold _build_cache_key, key_message, slot, _jcs_body_digest_hex, encode_slot, of_option, map_err.
  intros Hk. repeat case_match; try done;
    repeat (apply bind_err_iff in Hk as [Hk|(? & _ & Hk)]; repeat case_match; try done).
Qed.

(** Without the hypothesis on texts only the answers change. *)
Lemma miss_inv now key m block pub c c' r :
  cache_inv c → _entries c !! key = None → miss now key m block pub c = (c', r) →
  cache_inv c' ∧ r ≠ Err OrderEmpty.
Proof.
  intros Hi Hno Hm. unfold miss in Hm.
  destruct (verify_aip_signature m block pub) as [ok|e]; [|by simplify_eq].
  destruct (inv_insert key (MkEntry ok now) (count_miss c)) as (c2 & Hc2 & Hi2 & _);
    [by apply inv_count|done|]. rewrite Hc2 in Hm. by simplify_eq.
Qed.

Lemma verify_inv now m block pub c c' r :
  cache_inv c → verify now m block pub c = (c', r) → cache_inv c' ∧ r ≠ Err OrderEmpty.
Proof.
  intros Hi. unfold verify. destruct (_build_cache_key m block pub) as [key|e] eqn:Ek.
  2:{ intros [= <- <-]. split; [done|]. intros [= ->]. by apply build_key_err in Ek. }
  destruct (_entries c !! key) as [entry|] eqn:Ee.
  2:{ intros Hm. by eapply miss_inv in Hm. }
  destruct (SFltb _ _).
  - intros [= <- <-]. split; [by apply inv_count|done].
  - intros Hm. eapply miss_inv in Hm; [done| |].
    + by apply inv_count, inv_remove.
    + cbn [count_expired _remove _entries]. by rewrite lookup_delete_eq.
Qed.

Lemma step_inv c o : cache_inv c → cache_inv (step c o).
Proof.
  intros Hi. destruct o as [now m block pub| |now]; cbn [step].
  - destruct (verify now m block pub c) as [c' r] eqn:E. by eapply verify_inv in E as [? _].
  - destruct Hi as [Hb _ _ _]. split; cbn [clear _max_entries _order _entries];
      [done|constructor| |rewrite map_size_empty; lia].
    intros k. rewrite lookup_empty, elem_of_nil. split; [done|]. by intros [? ?].
  - unfold evict_expired. cbn [fst].
    generalize (List.filter (is_expired (SFsub prec emax now (_ttl_seconds c)) c) (_order c)).
    intros l. revert c Hi. induction l as [|k l IH]; intros c Hi; [done|]. cbn [foldl].
    apply IH. by apply inv_count, inv_remove.
Qed.

Lemma miss_max now key m block pub c :
  _max_entries (miss now key m block pub c).1 = _max_entries c.
Proof.
  unfold miss. destruct (verify_aip_signature m block pub); [|done].
  unfold _insert, make_room.
  destruct (_ <=? _); [|done]. by destruct (_order (count_miss c)).
Qed.

Lemma step_max c o : _max_entries (step c o) = _max_entries c.
Proof.
  destruct o as [now m block pub| |now]; cbn [step]; [|done|].
  - unfold verify. repeat case_match; rewrite ?miss_max; done.
  - unfold evict_expired. cbn [fst].
    generalize (List.filter (is_expired (SFsub prec emax now (_ttl_seconds c)) c) (_order c)).
    intros l. revert c. induction l as [|k l IH]; intros c; [done|]. cbn [foldl]. by rewrite IH.
Qed.

(** Whatever calls are made, also with texts that hold the separator: the
    cache keeps at most [max_entries] entries, its insertion order lists each
    key of the entries once and nothing else, and no call runs into the empty
    order. *)
Theorem cache_bounded mx ttl c0 ops now m block pub :
  new_cache mx ttl = Ok c0 →
  let c := run ops c0 in
  Z.of_nat (len c) ≤ mx ∧ NoDup (_order c) ∧
  (∀ k, k ∈ _order c ↔ is_Some (_entries c !! k)) ∧ length (_order c) = len c ∧
  (verify now m block pub c).2 ≠ Err OrderEmpty.
Proof.
  intros Hn. assert (_max_entries c0 = mx) as Hm.
  { unfold new_cache in Hn. apply bind_ok_iff in Hn as ([] & _ & Hn).
    by apply bind_ok_iff in Hn as ([] & _ & <-%Ok_inj). }
  apply new_good in Hn as [Hi _]. unfold run.
  revert c0 Hm Hi. induction ops as [|o ops IH]; intros c0 Hm Hi; cbn [foldl].
  2:{ apply IH; [by rewrite step_max|by apply step_inv]. }
  pose proof (inv_length c0 Hi) as Hlen. unfold len. rewrite <- Hm.
  split_and!; [by apply inv_size|by apply inv_nodup|by apply inv_keys|done|].
  destruct (verify now m block pub c0) as [c r] eqn:E. by eapply verify_inv in E as [_ ?].
Qed.
End sequences.

(** ** Concrete caches *)

Module CacheExample.
#[local] Existing Instance checksum_sha256.
#[local] Existing Instance plain_ed25519.
#[local] Existing Instance AipExample.no_rfc8785.
Import AipExample.

Definition time (z : Z) : float := float_of_decimal false z 0.
Definition c0 : cache := ok_or (MkCache 1 (time 0) ∅ [] 0 0 0 0) (new_cache 1 DEFAULT_TTL_SECONDS).
Definition other : dict := ok_or [] (sign_aip_document doc seed (u "biscuit-root-2")).
Definition ops : list op :=
  [OpVerify (time 10) doc block seed; OpVerify (time 20) doc other seed;
   OpVerify (time 30) doc other seed; OpEvictExpired (time 400); OpVerify (time 500) doc block seed].

Lemma clean_blocks : clean block ∧ clean other.
Proof.
  split; intros f s Hf Hs; rewrite !elem_of_cons, elem_of_nil in Hf;
    destruct Hf as [->|[->|[->|[]]]]; vm_compute in Hs; injection Hs as <-;
    apply (bool_decide_unpack _); by vm_compute.
Qed.

Lemma cache_transparent_witness :
  (verify (time 600) doc block seed (run ops c0)).2 = uncached doc block seed ∨
  collision_in sha256 (key_messages ops ++ ok_list (key_message doc block seed)).
Proof.
  apply (cache_transparent 1 DEFAULT_TTL_SECONDS c0 ops (time 600) doc block seed).
  - vm_compute. reflexivity.
  - repeat constructor; try apply clean_blocks.
  - apply clean_blocks.
Defined.

Lemma cache_bounded_witness :
  let c := run ops c0 in
  Z.of_nat (len c) ≤ 1 ∧ NoDup (_order c) ∧
  (∀ k, k ∈ _order c ↔ is_Some (_entries c !! k)) ∧ length (_order c) = len c ∧
  (verify (time 600) doc block seed c).2 ≠ Err OrderEmpty.
Proof.
  apply (cache_bounded 1 DEFAULT_TTL_SECONDS c0 ops (time 600) doc block seed).
  vm_compute. reflexivity.
Defined.

(** One eviction, one hit, one expiry; the last call is a miss again. *)
Example counters : stats (run ops c0) = MkStats 1 3 1 1 1.
Proof. vm_compute. reflexivity. Qed.

(** A separator inside the key identifier of a verified block lets a block with
    another algorithm through, which the verifier refuses. *)
Definition split_kid : dict := ok_or [] (sign_aip_document doc seed [97; 0; 98]).
Definition forged : dict :=
  dict_set (dict_set split_kid (u "alg") (JStr (u "Ed25519" ++ [0; 97]))) (u "kid") (JStr [98]).

Example separator_confusion :
  let c := (verify (time 10) doc split_kid seed c0).1 in
  (verify (time 20) doc forged seed c).2 = Ok true ∧
  uncached doc forged seed = Err (Verifier AipUnsupportedAlg).
Proof. by vm_compute. Qed.

(** The verifier does not need a key identifier, the cache does. *)
Example kid_required :
  let anonymous := dict_pop block (u "kid") in
  verify_aip_signature doc anonymous seed = Ok true ∧
  (verify (time 10) doc anonymous seed c0).2 = Err (SlotMissing (u "kid")).
Proof. by vm_compute. Qed.
End CacheExample.
