(* ===== verification/Manifest.v ===== *)
(** * The hourly build command ([wat/cmd/aggregator_cli.py])

    Reading the event spool, validation, the deterministic order, the manifest
    object, the signing configuration and [build_command], with the text files
    of the file system as explicit state.  [argparse] and [main]'s printing
    are not modelled; [_legacy_to_build_args] is.  A PEM key is read by the
    third-party [cryptography] package, a parameter.

    The theorems: validation accepts exactly the events the B1 field rules
    describe; the manifest does not depend on the order of the spool; every
    event of a manifest has an inclusion proof that verifies against the
    manifest's own root; a signed build verifies in strict mode; and a failing
    build writes no manifest. *)

From S2P Require Import Prelude PyStr Sha256 PyJson PyJsonLoads PyJsonPretty Merkle Signing.
From Stdlib Require Import ZArith Lia.
Import Aggregator.

Open Scope Z_scope.

(** [load_pem_private_key] as the command uses it. *)
Inductive pem_outcome : Type :=
| PemEncrypted                 (* TypeError *)
| PemMalformed                 (* ValueError *)
| PemOtherKey                  (* not an Ed25519 private key *)
| PemEd25519 (seed : bytes).   (* private_bytes_raw() *)

Class PemLoader := { load_pem_private_key : str → pem_outcome }.

Inductive manifest_error : Type :=
| InputNotFound
| InvalidJson (lineno : nat)
| NotAnObject (lineno : nat)
| MissingField (idx : nat) (field : str)
| NotAString (idx : nat) (field : str)
| NotHex64 (idx : nat) (field : str)
| KeyFileNotFound
| KeyNotHex
| KeyLength (n : nat)
| KeyPemEncrypted
| KeyPemMalformed
| KeyPemOther
| KeyKidTogether
| KidEmpty
| SigningFailed (e : sig_error)
| BadItem (field : str)        (* KeyError or TypeError of ev[field] *)
| MerkleRaised (e : merkle_error)
| SigningRaised (e : sig_error)
| WriteEncodeError.

(** The subclasses of [ValidationError], which [main] turns into exit code 2. *)
Definition is_validation_error (e : manifest_error) : bool :=
  match e with
  | BadItem _ | MerkleRaised _ | SigningRaised _ | WriteEncodeError => false
  | _ => true
  end.

(** The text files, by path. *)
Notation files := (gmap str str).

Module AggregatorCli.
Section cli.
Context `{Sha256, Rfc8785, Ed25519, PemLoader}.

Definition MANIFEST_VERSION : str := u "wakir-wat-manifest/v1".

Definition REQUIRED_FIELDS : list str :=
  [u "event_id"; u "time"; u "payload_hash"; u "capability_token_hash"].

(** ** Reading *)

(** Text mode: every line ending is read as a newline. *)
Fixpoint universal_newlines (s : str) : str :=
  match s with
  | [] => []
  | c :: s' =>
      if c =? 13 then
        match s' with
        | d :: s'' => if d =? 10 then 10 :: universal_newlines s''
                      else 10 :: universal_newlines s'
        | [] => [10]
        end
      else c :: universal_newlines s'
  end.

Fixpoint read_lines (lineno : nat) (lines : list str)
    : result manifest_error (list dict) :=
  match lines with
  | [] => Ok []
  | raw_line :: lines' =>
      let line := strip raw_line in
      if str_empty line then read_lines (S lineno) lines'
      else
        event ← of_option (InvalidJson lineno) (json_loads line);
        match event with
        | JObj event => events ← read_lines (S lineno) lines'; Ok (event :: events)
        | _ => Err (NotAnObject lineno)
        end
  end.

Definition _read_events (fs : files) (input_path : str)
    : result manifest_error (list dict) :=
  text ← of_option InputNotFound (fs !! input_path);
  read_lines 1 (split_on 10 (universal_newlines text)).

(** ** Validation *)

Definition HEX64_FIELDS : list str := [u "payload_hash"; u "capability_token_hash"].

Definition is_hex64 (s : str) : bool :=
  Nat.eqb (length s) 64 && forallb (λ c, is_digit c || in_range 97 102 c) s.
Definition _HEX64 (s : str) : bool := re_dollar is_hex64 s.

Fixpoint check_fields (idx : nat) (event : dict) (fields : list str)
    : result manifest_error () :=
  match fields with
  | [] => Ok ()
  | field :: fields' =>
      value ← of_option (MissingField idx field) (dict_get event field);
      match value with
      | JStr _ => check_fields idx event fields'
      | _ => Err (NotAString idx field)
      end
  end.

(** [ev[field]] where the value is used as text. *)
Definition item (ev : dict) (field : str) : result manifest_error str :=
  match dict_get ev field with
  | Some (JStr s) => Ok s
  | _ => Err (BadItem field)
  end.

Fixpoint check_hex (idx : nat) (event : dict) (fields : list str)
    : result manifest_error () :=
  match fields with
  | [] => Ok ()
  | field :: fields' =>
      s ← item event field;
      raise_if (negb (_HEX64 s)) (NotHex64 idx field);;
      check_hex idx event fields'
  end.

Fixpoint validate_from (idx : nat) (events : list dict)
    : result manifest_error (list dict) :=
  match events with
  | [] => Ok []
  | event :: events' =>
      check_fields idx event REQUIRED_FIELDS;;
      check_hex idx event HEX64_FIELDS;;
      validated ← validate_from (S idx) events';
      Ok (event :: validated)
  end.

Definition _validate_events (events : list dict) : result manifest_error (list dict) :=
  validate_from 0 events.

(** ** Order and manifest *)

(** Tuples of text compare component by component. *)
Definition sort_key_leb : str * str → str * str → bool := pair_leb str_leb str_leb.

Definition sort_key (ev : dict) : result manifest_error (str * str) :=
  t ← item ev (u "time"); i ← item ev (u "event_id"); Ok (t, i).

Definition decorate (ev : dict) : result manifest_error ((str * str) * dict) :=
  k ← sort_key ev; Ok (k, ev).

Definition decorated_leb (x y : (str * str) * dict) : bool := sort_key_leb x.1 y.1.

Definition _sorted_by_time_then_event_id (events : list dict)
    : result manifest_error (list dict) :=
  decorated ← mapM decorate events;
  Ok (py_sorted decorated_leb decorated).*2.

(** One turn of the leaf loop: the leaf and its manifest entry. *)
Definition leaf_entry (ev : dict) : result manifest_error (bytes * json) :=
  event_id ← item ev (u "event_id");
  time ← item ev (u "time");
  payload_hash ← item ev (u "payload_hash");
  capability_token_hash ← item ev (u "capability_token_hash");
  leaf ← map_err MerkleRaised
    (compute_leaf_hash event_id time payload_hash capability_token_hash);
  Ok (leaf, JObj [(u "event_id", JStr event_id); (u "time", JStr time);
                  (u "payload_hash", JStr payload_hash);
                  (u "capability_token_hash", JStr capability_token_hash);
                  (u "leaf_hash", JStr (hex leaf))]).

Definition opt_json (s : option str) : json :=
  match s with Some s => JStr s | None => JNull end.

Definition _build_manifest_object (hour_slot : str) (events : list dict)
    (build_time : str) (prev_hour_root : option str) : result manifest_error dict :=
  entries ← mapM leaf_entry events;
  '(root, levels) ← map_err MerkleRaised (build_merkle_tree entries.*1);
  Ok [(u "version", JStr MANIFEST_VERSION);
      (u "hour_slot", JStr hour_slot);
      (u "merkle_root", JStr (hex root));
      (u "event_count", JInt (Z.of_nat (length events)));
      (u "events", JList entries.*2);
      (u "leaves", JList entries.*2);
      (u "tree_levels", JList ((λ level, JList ((λ n, JStr (hex n)) <$> level)) <$> levels));
      (u "build_time", JStr build_time);
      (u "prev_hour_root", opt_json prev_hour_root)].

Definition _build_empty_manifest (hour_slot build_time : str)
    (prev_hour_root : option str) : dict :=
  [(u "version", JStr MANIFEST_VERSION);
   (u "hour_slot", JStr hour_slot);
   (u "merkle_root", JNull);
   (u "event_count", JInt 0);
   (u "events", JList []);
   (u "leaves", JList []);
   (u "tree_levels", JList []);
   (u "build_time", JStr build_time);
   (u "prev_hour_root", opt_json prev_hour_root)].

(** ** Signing configuration *)

Definition _load_sign_key_hex (stripped : str) : result manifest_error bytes :=
  seed ← of_option KeyNotHex (bytes_fromhex stripped);
  raise_if (negb (Nat.eqb (length seed) 32)) (KeyLength (length seed));;
  Ok seed.

Definition _load_sign_key_pem (raw_text : str) : result manifest_error bytes :=
  match load_pem_private_key raw_text with
  | PemEncrypted => Err KeyPemEncrypted
  | PemMalformed => Err KeyPemMalformed
  | PemOtherKey => Err KeyPemOther
  | PemEd25519 seed => Ok seed
  end.

Definition _load_sign_key (fs : files) (path : str) : result manifest_error bytes :=
  raw_text ← of_option KeyFileNotFound (fs !! path);
  let raw_text := universal_newlines raw_text in
  let stripped := strip raw_text in
  if startswith stripped (u "-----BEGIN") then _load_sign_key_pem raw_text
  else _load_sign_key_hex stripped.

Definition _resolve_signing_config (fs : files) (sign_key sign_kid : option str)
    : result manifest_error (option (bytes * str)) :=
  match sign_key, sign_kid with
  | None, None => Ok None
  | None, Some _ | Some _, None => Err KeyKidTogether
  | Some path, Some kid =>
      raise_if (str_empty kid) KidEmpty;;
      seed ← _load_sign_key fs path;
      Ok (Some (seed, kid))
  end.

(** The classes of exception that [sign_manifest] does not declare pass
    through the [except] clause. *)
Definition wrap_sign_error (e : sig_error) : manifest_error :=
  match e with
  | UnhashableVersion | CanonicalisationError | Rfc8785Missing => SigningRaised e
  | _ => SigningFailed e
  end.

Definition _sign_manifest_in_place (manifest : dict) (seed : bytes) (kid : str)
    : result manifest_error dict :=
  signed ← map_err wrap_sign_error (ManifestSigning.sign_manifest manifest seed kid);
  Ok (dict_set (ManifestSigning.manifest signed) ManifestSigning.SIGNATURE_FIELD
        (ManifestSigning.signature signed)).

(** ** The command *)

Definition manifest_text (manifest : dict) : str :=
  json_pretty (quote false) 0 (JObj manifest) ++ [10].

(** The file is truncated when it is opened, before its text is encoded. *)
Definition _write_manifest (fs : files) (manifest : dict) (output_path : str)
    : files * result manifest_error () :=
  let text := manifest_text manifest in
  if encodable text then (<[output_path := text]> fs, Ok ())
  else (<[output_path := []]> fs, Err WriteEncodeError).

(** The manifest of a non-empty batch. *)
Definition manifest_of_events (hour build_time : str) (prev_hour_root : option str)
    (raw_events : list dict) : result manifest_error dict :=
  validated ← _validate_events raw_events;
  sorted_events ← _sorted_by_time_then_event_id validated;
  _build_manifest_object hour sorted_events build_time prev_hour_root.

(** Everything before the write. *)
Definition build_manifest (fs : files) (build_time hour input_events : str)
    (prev_hour_root sign_key sign_kid : option str) : result manifest_error dict :=
  signing ← _resolve_signing_config fs sign_key sign_kid;
  raw_events ← _read_events fs input_events;
  manifest ←
    match raw_events with
    | [] => Ok (_build_empty_manifest hour build_time prev_hour_root)
    | _ => manifest_of_events hour build_time prev_hour_root raw_events
    end;
  match signing with
  | Some (seed, kid) => _sign_manifest_in_place manifest seed kid
  | None => Ok manifest
  end.

Definition build_command (fs : files) (build_time hour input_events output_manifest : str)
    (prev_hour_root sign_key sign_kid : option str)
    : files * result manifest_error dict :=
  match build_manifest fs build_time hour input_events prev_hour_root sign_key sign_kid with
  | Err e => (fs, Err e)
  | Ok manifest =>
      let '(fs', r) := _write_manifest fs manifest output_manifest in
      (fs', r;; Ok manifest)
  end.

(** ** Legacy command lines *)

Fixpoint rewrite_args (args : list str) : list str :=
  match args with
  | [] => []
  | token :: rest =>
      match rest with
      | [] => [token]
      | value :: rest' =>
          if str_eqb token (u "--input-file") then
            u "--input-events" :: value :: rewrite_args rest'
          else if str_eqb token (u "--output-receipt") then
            u "--output-manifest" :: value :: rewrite_args rest'
          else if str_eqb token (u "--hour") then
            u "--hour" :: value :: rewrite_args rest'
          else token :: rewrite_args rest
      end
  end.

Definition _legacy_to_build_args (argv : list str) : option (list str) :=
  match argv with
  | [] => None
  | a0 :: _ =>
      if str_eqb a0 (u "build") then None
      else if existsb (λ flag, bool_decide (flag ∈ argv))
                [u "--input-file"; u "--output-receipt"]
      then Some (u "build" :: rewrite_args argv)
      else None
  end.
End cli.
End AggregatorCli.
Import AggregatorCli.

(** ** Specification *)

(** The event dictionary carries the four B1 fields as text. *)
Definition b1_of (ev : dict) (e : b1_event) : Prop :=
  dict_get ev (u "event_id") = Some (JStr (event_id e)) ∧
  dict_get ev (u "time") = Some (JStr (time e)) ∧
  dict_get ev (u "payload_hash") = Some (JStr (payload_hash e)) ∧
  dict_get ev (u "capability_token_hash") = Some (JStr (capability_token_hash e)).

(** What [_HEX64] accepts: 64 lower-case hexadecimal digits, possibly with one
    newline behind them. *)
Definition hex64_text (s : str) : Prop :=
  ∃ h, is_hex64 h = true ∧ (s = h ∨ s = h ++ [10]).

Definition valid_event (ev : dict) : Prop :=
  ∃ e, b1_of ev e ∧ hex64_text (payload_hash e) ∧ hex64_text (capability_token_hash e).

Definition has_text (ev : dict) (field : str) : Prop :=
  ∃ s, dict_get ev field = Some (JStr s).

(** The error that names the first failed check of an event. *)
Inductive event_fault (idx : nat) (ev : dict) : manifest_error → Prop :=
| fault_missing pre field post :
    REQUIRED_FIELDS = pre ++ field :: post → Forall (has_text ev) pre →
    dict_get ev field = None → event_fault idx ev (MissingField idx field)
| fault_type pre field post j :
    REQUIRED_FIELDS = pre ++ field :: post → Forall (has_text ev) pre →
    dict_get ev field = Some j → (∀ s, j ≠ JStr s) →
    event_fault idx ev (NotAString idx field)
| fault_hex pre field post s :
    Forall (has_text ev) REQUIRED_FIELDS → HEX64_FIELDS = pre ++ field :: post →
    Forall (λ f, ∃ s, dict_get ev f = Some (JStr s) ∧ hex64_text s) pre →
    dict_get ev field = Some (JStr s) → ¬ hex64_text s →
    event_fault idx ev (NotHex64 idx field).

(** The manifest of a batch, given its leaves and tree. *)
Definition manifest_spec (hour build_time : str) (prev : option str)
    (events : list b1_event) (leaves : list bytes) (root : bytes)
    (levels : list (list bytes)) : dict :=
  let entry (el : b1_event * bytes) :=
    JObj [(u "event_id", JStr (event_id el.1)); (u "time", JStr (time el.1));
          (u "payload_hash", JStr (payload_hash el.1));
          (u "capability_token_hash", JStr (capability_token_hash el.1));
          (u "leaf_hash", JStr (hex el.2))] in
  let entries := JList (entry <$> zip events leaves) in
  [(u "version", JStr MANIFEST_VERSION); (u "hour_slot", JStr hour);
   (u "merkle_root", JStr (hex root));
   (u "event_count", JInt (Z.of_nat (length events)));
   (u "events", entries); (u "leaves", entries);
   (u "tree_levels", JList ((λ level, JList ((λ n, JStr (hex n)) <$> level)) <$> levels));
   (u "build_time", JStr build_time); (u "prev_hour_root", opt_json prev)].

Definition event_key (e : b1_event) : str * str := (time e, event_id e).

(** ** Validation *)

Section validation.

Lemma hex64_iff s : _HEX64 s = true ↔ hex64_text s.
Proof. unfold _HEX64, hex64_text. rewrite re_dollar_spec. naive_solver. Qed.

Lemma item_ok ev f s : item ev f = Ok s ↔ dict_get ev f = Some (JStr s).
Proof. unfold item. destruct (dict_get ev f) as [[]|]; naive_solver. Qed.

(** [check_fields] stops at the first field without text. *)
Lemma check_fields_spec idx ev pre fields :
  REQUIRED_FIELDS = pre ++ fields → Forall (has_text ev) pre →
  match check_fields idx ev fields with
  | Ok _ => Forall (has_text ev) REQUIRED_FIELDS
  | Err e => event_fault idx ev e
  end.
Proof.
  revert pre. induction fields as [|f fields IH]; intros pre E Hpre; cbn [check_fields].
  { rewrite E, app_nil_r. done. }
  destruct (dict_get ev f) as [j|] eqn:Ej; cbn [of_option mbind result_bind];
    [|by eapply fault_missing].
  assert (∀ s, j = JStr s → match check_fields idx ev fields with
            | Ok _ => Forall (has_text ev) REQUIRED_FIELDS
            | Err e => event_fault idx ev e end) as Hstr.
  { intros s ->. apply (IH (pre ++ [f])); [by rewrite <- app_assoc|].
    apply Forall_app; split; [done|]. repeat constructor. by exists s. }
  destruct j; try (eapply fault_type; done). by apply (Hstr s).
Qed.

Lemma check_hex_spec idx ev pre fields :
  Forall (has_text ev) REQUIRED_FIELDS → HEX64_FIELDS = pre ++ fields →
  Forall (λ f, ∃ s, dict_get ev f = Some (JStr s) ∧ hex64_text s) pre →
  match check_hex idx ev fields with
  | Ok _ => Forall (λ f, ∃ s, dict_get ev f = Some (JStr s) ∧ hex64_text s) HEX64_FIELDS
  | Err e => event_fault idx ev e
  end.
Proof.
  intros Hreq. revert pre.
  induction fields as [|f fields IH]; intros pre E Hpre; cbn [check_hex].
  { rewrite E, app_nil_r. done. }
  assert (has_text ev f) as [s Hs].
  { rewrite Forall_forall in Hreq. apply Hreq.
    assert (f ∈ HEX64_FIELDS) as Hf by (rewrite E; set_solver).
    unfold HEX64_FIELDS in Hf. unfold REQUIRED_FIELDS. set_solver. }
  apply item_ok in Hs as Hi. rewrite Hi. cbn [mbind result_bind].
  destruct (_HEX64 s) eqn:Eh; cbn [negb raise_if mbind result_bind].
  - apply (IH (pre ++ [f])); [by rewrite <- app_assoc|].
    apply Forall_app; split; [done|]. repeat constructor. exists s.
    by rewrite <- hex64_iff.
  - eapply fault_hex; try done. rewrite <- hex64_iff. congruence.
Qed.

Lemma valid_event_iff ev :
  valid_event ev ↔
  Forall (has_text ev) REQUIRED_FIELDS ∧
  Forall (λ f, ∃ s, dict_get ev f = Some (JStr s) ∧ hex64_text s) HEX64_FIELDS.
Proof.
  unfold valid_event, b1_of, has_text, REQUIRED_FIELDS, HEX64_FIELDS.
  rewrite !Forall_cons, !Forall_nil. split.
  - intros ([a b c d] & (?&?&?&?) & ?); simpl in *. split_and!; eauto; naive_solver.
  - intros [([a Ha]&[b Hb]&[c Hc]&[d Hd]&_) ((c'&Hc'&?)&(d'&Hd'&?)&_)].
    simplify_eq. by exists (B1 a b c d).
Qed.

Lemma event_check_spec idx ev :
  match (check_fields idx ev REQUIRED_FIELDS;; check_hex idx ev HEX64_FIELDS) with
  | Ok _ => valid_event ev
  | Err e => event_fault idx ev e
  end.
Proof.
  pose proof (check_fields_spec idx ev [] REQUIRED_FIELDS eq_refl (Forall_nil_2 _)) as Hf.
  destruct (check_fields idx ev REQUIRED_FIELDS) as [[]|e]; [|done].
  pose proof (check_hex_spec idx ev [] HEX64_FIELDS Hf eq_refl (Forall_nil_2 _)) as Hh.
  cbn [mbind result_bind].
  destruct (check_hex idx ev HEX64_FIELDS) as [[]|e]; [|done].
  by apply valid_event_iff.
Qed.

Lemma event_fault_invalid idx ev e : event_fault idx ev e → ¬ valid_event ev.
Proof.
  rewrite valid_event_iff. intros Hf [Hr Hh]. rewrite Forall_forall in Hr, Hh.
  destruct Hf as [pre f post E _ Hn|pre f post j E _ Hj Hs|pre f post s _ E _ Hs Hn].
  - destruct (Hr f) as [s Hs]; [rewrite E; set_solver|congruence].
  - destruct (Hr f) as [s Hs']; [rewrite E; set_solver|]. naive_solver.
  - destruct (Hh f) as (s' & Hs' & ?); [rewrite E; set_solver|]. naive_solver.
Qed.

Lemma validate_from_spec idx evs :
  match validate_from idx evs with
  | Ok out => out = evs ∧ Forall valid_event evs
  | Err e => ∃ pre ev post, evs = pre ++ ev :: post ∧ Forall valid_event pre ∧
      event_fault (idx + length pre) ev e
  end.
Proof.
  revert idx. induction evs as [|ev evs IH]; intros idx; cbn [validate_from]; [done|].
  pose proof (event_check_spec idx ev) as Hev.
  destruct (check_fields idx ev REQUIRED_FIELDS) as [[]|e]; cbn [mbind result_bind] in *.
  - destruct (check_hex idx ev HEX64_FIELDS) as [[]|e]; cbn [mbind result_bind].
    + specialize (IH (S idx)). destruct (validate_from (S idx) evs) as [out|e]; cbn.
      * destruct IH as [-> ?]. by repeat constructor.
      * destruct IH as (pre & ev' & post & -> & ? & Hf).
        exists (ev :: pre), ev', post. cbn. rewrite Nat.add_succ_r. by repeat constructor.
    + exists [], ev, evs. cbn. by rewrite Nat.add_0_r.
  - exists [], ev, evs. cbn. by rewrite Nat.add_0_r.
Qed.

(** [_validate_events] returns its input exactly when every event has the
    four B1 fields as text and hexadecimal digests; otherwise it raises the
    error of the first failed check of the first invalid event. *)
Theorem validate_events_spec evs :
  match _validate_events evs with
  | Ok out => out = evs ∧ Forall valid_event evs
  | Err e => ∃ pre ev post, evs = pre ++ ev :: post ∧ Forall valid_event pre ∧
      ¬ valid_event ev ∧ event_fault (length pre) ev e
  end.
Proof.
  pose proof (validate_from_spec 0 evs) as Hv. unfold _validate_events.
  destruct (validate_from 0 evs); [done|].
  destruct Hv as (pre & ev & post & ? & ? & Hf).
  exists pre, ev, post. split_and!; eauto using event_fault_invalid.
Qed.

Lemma validate_ok evs out :
  _validate_events evs = Ok out ↔ out = evs ∧ Forall valid_event evs.
Proof.
  pose proof (validate_from_spec 0 evs) as Hv. unfold _validate_events.
  destruct (validate_from 0 evs) as [out'|e]; [naive_solver|].
  destruct Hv as (pre & ev & post & -> & _ & Hf). split; [done|].
  intros [_ Hall]. apply Forall_app in Hall as [_ [Hv _]%Forall_cons].
  by apply event_fault_invalid in Hf.
Qed.
End validation.

(** ** The manifest object *)

Section manifest.
Context `{Sha256, Rfc8785, Ed25519, PemLoader}.

#[local] Instance decorated_order : KeyOrder decorated_leb.
Proof. apply (key_order_on sort_key_leb). Qed.

Lemma decorate_ok ev k ev' :
  decorate ev = Ok (k, ev') ↔ sort_key ev = Ok k ∧ ev' = ev.
Proof. unfold decorate. destruct (sort_key ev); cbn; naive_solver. Qed.

Lemma sort_key_b1 ev e : b1_of ev e → sort_key ev = Ok (event_key e).
Proof.
  intros (Hi & Ht & _). unfold sort_key.
  rewrite (proj2 (item_ok _ _ _) Ht), (proj2 (item_ok _ _ _) Hi). done.
Qed.

(** Sorting does not see the order of the batch when equal keys mean equal
    events. *)
Lemma sorted_events_perm evs1 evs2 out :
  (∀ a b, a ∈ evs1 → b ∈ evs1 → sort_key a = sort_key b → a = b) →
  evs1 ≡ₚ evs2 →
  _sorted_by_time_then_event_id evs1 = Ok out →
  _sorted_by_time_then_event_id evs2 = Ok out.
Proof.
  intros Hkeys Hp Hs. unfold _sorted_by_time_then_event_id in *. run_ok.
  rename select (mapM decorate evs1 = _) into Hd.
  pose proof Hd as Hf%mapM_ok. apply (mapM_perm decorate _ evs2) in Hd as (d2 & -> & Hd2);
    [|done]. cbn. do 2 f_equal. symmetry.
  apply (sorted_perm_unique (λ x y, decorated_leb x y = true)).
  - intros [k1 a] [k2 b] Ha Hb H1' H2'. rewrite py_sorted_perm in Ha, Hb.
    assert (k1 = k2) as -> by (by apply (leb_antisym (leb:=sort_key_leb))).
    f_equal. rewrite Forall2_lookup in Hf.
    apply list_elem_of_lookup in Ha as [i Hi], Hb as [j Hj].
    pose proof (Hf i) as Fi. pose proof (Hf j) as Fj. rewrite Hi in Fi. rewrite Hj in Fj.
    inversion Fi as [x1 ? Hx Ex|]; inversion Fj as [x2 ? Hy Ey|]; subst.
    apply decorate_ok in Hx as [Hx ->], Hy as [Hy ->].
    apply Hkeys; [by eapply list_elem_of_lookup_2..|congruence].
  - apply (py_sorted_sorted decorated_leb).
  - apply (py_sorted_sorted decorated_leb).
  - by rewrite !py_sorted_perm.
Qed.

Lemma sorted_events_ok evs out :
  _sorted_by_time_then_event_id evs = Ok out →
  out ≡ₚ evs ∧
  ∃ ks, Forall2 (λ ev k, sort_key ev = Ok k) out ks ∧
    StronglySorted (λ a b, sort_key_leb a b = true) ks.
Proof.
  intros Hs. unfold _sorted_by_time_then_event_id in Hs. run_ok.
  rename select (mapM decorate evs = _) into Hd. apply mapM_ok in Hd as Hf.
  match goal with |- context [py_sorted _ ?d] => rename d into dec end.
  assert (∀ kv, kv ∈ dec → sort_key kv.2 = Ok kv.1) as Hdec.
  { intros [k ev] Hin. apply list_elem_of_lookup in Hin as [i Hi].
    eapply Forall2_lookup_r in Hi as (ev' & _ & Hx); [|done].
    by apply decorate_ok in Hx as [? ->]. }
  split.
  - rewrite py_sorted_perm. clear -Hf. induction Hf as [|ev [k ev'] ? ? He _ IH]; csimpl; [done|].
    apply decorate_ok in He as [_ ->]. by rewrite IH.
  - exists (py_sorted decorated_leb dec).*1.
    pose proof (py_sorted_sorted decorated_leb dec) as Hsort.
    assert (∀ kv, kv ∈ py_sorted decorated_leb dec → sort_key kv.2 = Ok kv.1) as Hall.
    { intros kv. rewrite py_sorted_perm. apply Hdec. }
    revert Hsort Hall. generalize (py_sorted decorated_leb dec). clear.
    intros l Hs Hall. split.
    + induction l as [|kv l IH]; csimpl; constructor;
        [apply Hall; left|apply IH; [by inversion Hs|intros; apply Hall; by right]].
    + induction Hs as [|kv l Hs IH Hx]; csimpl; constructor.
      * apply IH. intros; apply Hall; by right.
      * rewrite Forall_fmap. done.
Qed.

Lemma leaf_entry_b1 ev e x :
  b1_of ev e → leaf_entry ev = Ok x →
  event_leaf e = Ok x.1 ∧
  x.2 = JObj [(u "event_id", JStr (event_id e)); (u "time", JStr (time e));
              (u "payload_hash", JStr (payload_hash e));
              (u "capability_token_hash", JStr (capability_token_hash e));
              (u "leaf_hash", JStr (hex x.1))].
Proof.
  intros (Hi & Ht & Hp & Hc) Hx. unfold leaf_entry in Hx.
  rewrite (proj2 (item_ok _ _ _) Hi), (proj2 (item_ok _ _ _) Ht),
    (proj2 (item_ok _ _ _) Hp), (proj2 (item_ok _ _ _) Hc) in Hx.
  cbn [mbind result_bind] in Hx. run_ok. by destruct e.
Qed.

Lemma leaf_entries_b1 evs es xs :
  Forall2 b1_of evs es → Forall2 (λ ev x, leaf_entry ev = Ok x) evs xs →
  Forall2 (λ e l, event_leaf e = Ok l) es xs.*1 ∧
  xs.*2 = (λ el : b1_event * bytes,
    JObj [(u "event_id", JStr (event_id el.1)); (u "time", JStr (time el.1));
          (u "payload_hash", JStr (payload_hash el.1));
          (u "capability_token_hash", JStr (capability_token_hash el.1));
          (u "leaf_hash", JStr (hex el.2))]) <$> zip es xs.*1.
Proof.
  intros Hb. revert xs. induction Hb as [|ev e evs es Hb _ IH]; intros xs Hx.
  - by inversion Hx; subst.
  - inversion Hx as [|? x ? xs' Hx1 Hx2]; subst. csimpl.
    destruct (IH _ Hx2) as [Hl ->].
    destruct (leaf_entry_b1 _ _ _ Hb Hx1) as [? ->]. split; [by constructor|done].
Qed.

Lemma valid_b1 evs :
  Forall valid_event evs → ∃ es, Forall2 b1_of evs es.
Proof.
  induction 1 as [|ev evs (e & He & _) _ [es IH]]; [by exists []|].
  exists (e :: es). by constructor.
Qed.

Lemma keys_of_b1 evs es ks :
  Forall2 b1_of evs es → Forall2 (λ ev k, sort_key ev = Ok k) evs ks →
  ks = event_key <$> es.
Proof.
  intros Hb. revert ks. induction Hb as [|ev e evs es Hb _ IH]; intros ks Hk;
    inversion Hk as [|? k ? ks' Hk1 Hk2]; subst; csimpl; [done|].
  apply sort_key_b1 in Hb. f_equal; [congruence|by apply IH].
Qed.

(** The manifest of a batch: the events in (time, event_id) order, with the
    leaves, the root and the levels of their Merkle tree. *)
Lemma manifest_ok hour bt prev raw m :
  manifest_of_events hour bt prev raw = Ok m →
  Forall valid_event raw ∧
  ∃ evs events leaves root levels,
    evs ≡ₚ raw ∧ Forall2 b1_of evs events ∧
    StronglySorted (λ a b, sort_key_leb a b = true) (event_key <$> events) ∧
    event_leaves events leaves ∧ build_merkle_tree leaves = Ok (root, levels) ∧
    m = manifest_spec hour bt prev events leaves root levels.
Proof.
  unfold manifest_of_events. intros Hm. run_ok.
  rename select (_validate_events raw = _) into Hv.
  apply validate_ok in Hv as [-> Hv]. split; [done|].
  rename select (_sorted_by_time_then_event_id raw = _) into Hs.
  apply sorted_events_ok in Hs as (Hp & ks & Hks & Hsort).
  match type of Hp with ?out ≡ₚ _ => rename out into evs end.
  assert (Forall valid_event evs) as Hve by (by rewrite Hp).
  apply valid_b1 in Hve as [es Hes]. unfold _build_manifest_object in Hm. run_ok.
  rename select (mapM leaf_entry evs = _) into He. apply mapM_ok in He.
  destruct (leaf_entries_b1 _ _ _ Hes He) as [Hl Hent].
  match goal with H : _ * _ |- _ => destruct H as [root levels] end. run_ok.
  rename select (build_merkle_tree _ = _) into Hb.
  eexists evs, es, _, root, levels. split_and!; [done|done| |exact Hl|exact Hb|].
  - by rewrite <- (keys_of_b1 _ _ _ Hes Hks).
  - unfold manifest_spec. rewrite Hent.
    by rewrite (Forall2_length _ _ _ Hes).
Qed.

(** C5: The manifest is self-verifying: it lists the events of the batch in
    (time, event_id) order, of each the four hashed members and the leaf hash and
    nothing else (see [audit_members_dropped]), its root is the root of their
    Merkle tree, and the inclusion proof of every listed event verifies against
    that root.  [manifest_spec] has every member of the manifest, the root of the
    hour before among them, null when there is none. *)
Theorem manifest_of_events_sound hour bt prev raw m :
  manifest_of_events hour bt prev raw = Ok m →
  ∃ evs events leaves root levels,
    evs ≡ₚ raw ∧ Forall2 b1_of evs events ∧
    StronglySorted (λ a b, sort_key_leb a b = true) (event_key <$> events) ∧
    event_leaves events leaves ∧
    m = manifest_spec hour bt prev events leaves root levels ∧
    ∀ i leaf, leaves !! i = Some leaf →
      ∃ p, merkle_proof leaves (Z.of_nat i) = Ok p ∧
           verify_merkle_proof leaf p root = Ok true.
Proof.
  intros (_ & evs & es & ls & r & lv & ? & ? & ? & ? & Hb & ->)%manifest_ok.
  exists evs, es, ls, r, lv. split_and!; [done..|]. intros i leaf Hi.
  destruct (proof_complete _ _ _ _ _ Hb Hi) as (p & ? & _ & ?). eauto.
Qed.

(** C6: The manifest does not depend on the order of the spool: permuting a batch
    in which two events with the same time and event_id are the same event
    gives the same manifest, member for member. *)
Theorem manifest_order_independent hour bt prev raw1 raw2 m :
  (∀ a b, a ∈ raw1 → b ∈ raw1 → sort_key a = sort_key b → a = b) →
  raw1 ≡ₚ raw2 →
  manifest_of_events hour bt prev raw1 = Ok m →
  manifest_of_events hour bt prev raw2 = Ok m.
Proof.
  intros Hk Hp Hm. unfold manifest_of_events in *. run_ok.
  rename select (_validate_events raw1 = _) into Hv.
  apply validate_ok in Hv as [-> Hv]. rewrite Hp in Hv.
  rewrite (proj2 (validate_ok raw2 raw2)) by done. cbn.
  rename select (_sorted_by_time_then_event_id raw1 = _) into Hs.
  by rewrite (sorted_events_perm _ _ _ Hk Hp Hs).
Qed.

(** ** The command *)

Lemma universal_newlines_id s : no_cr s → universal_newlines s = s.
Proof.
  induction 1 as [|c s Hc _ IH]; [done|]. cbn [universal_newlines].
  by rewrite (proj2 (Z.eqb_neq c 13)), IH.
Qed.

Lemma load_sign_key_validation fs path e :
  _load_sign_key fs path = Err e → is_validation_error e = true.
Proof.
  unfold _load_sign_key, _load_sign_key_pem, _load_sign_key_hex.
  destruct (fs !! path); cbn; [|by intros [= <-]].
  repeat case_match; try (by intros [= <-]).
  destruct (bytes_fromhex _); cbn; [|by intros [= <-]].
  destruct (Nat.eqb _ _); cbn; by intros [= <-].
Qed.

Lemma resolve_validation fs key kid e :
  _resolve_signing_config fs key kid = Err e → is_validation_error e = true.
Proof.
  unfold _resolve_signing_config.
  destruct key, kid; try (by intros [= <-]). destruct (str_empty _); cbn;
    [by intros [= <-]|].
  destruct (_load_sign_key fs _) eqn:E; cbn; [done|intros [= <-]].
  by eapply load_sign_key_validation.
Qed.

Lemma event_fault_validation idx ev e : event_fault idx ev e → is_validation_error e = true.
Proof. by destruct 1. Qed.

Lemma build_rejects fs bt hour input output prev key kid raw :
  _read_events fs input = Ok raw → ¬ Forall valid_event raw →
  ∃ e, build_command fs bt hour input output prev key kid = (fs, Err e) ∧
       is_validation_error e = true.
Proof.
  intros Hr Hinv. unfold build_command, build_manifest. rewrite Hr.
  destruct (_resolve_signing_config fs key kid) as [sg|e] eqn:E; cbn;
    [|apply resolve_validation in E; eauto].
  destruct raw as [|ev raw]; [by destruct Hinv|].
  unfold manifest_of_events.
  destruct (_validate_events (ev :: raw)) as [out|e] eqn:Ev; cbn.
  - by apply validate_ok in Ev as [_ ?].
  - exists e. split; [done|]. pose proof (validate_from_spec 0 (ev :: raw)) as Hs.
    unfold _validate_events in Ev. rewrite Ev in Hs.
    destruct Hs as (?&?&?&?&?&?). by eapply event_fault_validation.
Qed.

(** A spool with an invalid event is rejected as a whole: the command raises
    a [ValidationError] and no file changes. *)
Theorem build_command_rejects_invalid fs bt hour input output prev key kid raw :
  _read_events fs input = Ok raw → ¬ Forall valid_event raw →
  ∃ e, build_command fs bt hour input output prev key kid = (fs, Err e) ∧
       is_validation_error e = true.
Proof. apply build_rejects. Qed.

Context `{!Ed25519Laws}.

(** A signed build, taken apart. *)
Lemma build_signed_inv fs fs' bt hour input output prev key kid m :
  build_command fs bt hour input output prev (Some key) (Some kid) = (fs', Ok m) →
  fs' = <[output := manifest_text m]> fs ∧ encodable (manifest_text m) = true ∧
  ∃ seed raw m0 s, _load_sign_key fs key = Ok seed ∧ _read_events fs input = Ok raw ∧
    match raw with
    | [] => Ok (_build_empty_manifest hour bt prev)
    | _ => manifest_of_events hour bt prev raw
    end = Ok m0 ∧
    ManifestSigning.sign_manifest m0 seed kid = Ok s ∧
    m = dict_set (ManifestSigning.manifest s) ManifestSigning.SIGNATURE_FIELD
          (ManifestSigning.signature s).
Proof.
  unfold build_command. intros Hb.
  destruct (build_manifest _ _ _ _ _ _ _) as [m'|e] eqn:Em; [|done].
  unfold _write_manifest in Hb. destruct (encodable _) eqn:Ee; simplify_eq/=.
  split; [done|]. split; [done|].
  unfold build_manifest in Em. run_ok.
  rename select (_resolve_signing_config _ _ _ = _) into Hc.
  unfold _resolve_signing_config in Hc. run_ok.
  unfold _sign_manifest_in_place in Em. run_ok.
  eexists _, _, _, _. split_and!; try done.
Qed.

(** A signed build publishes a manifest that verifies: the output file holds
    the manifest's text, no other file changes, and the manifest, with its
    signature inside, passes strict verification under the public key of the
    key file. *)
Theorem build_command_signed fs fs' bt hour input output prev key kid m :
  build_command fs bt hour input output prev (Some key) (Some kid) = (fs', Ok m) →
  fs' !! output = Some (manifest_text m) ∧
  (∀ path, path ≠ output → fs' !! path = fs !! path) ∧
  ∃ seed, _load_sign_key fs key = Ok seed ∧
    ManifestSigning.verify_manifest_signature (ManifestSigning.Plain m)
      (Some (ed_public seed)) STRICT JNull = Ok true.
Proof.
  intros (-> & _ & seed & raw & m0 & s & Hkey & _ & _ & Hs & ->)%build_signed_inv.
  split; [by rewrite lookup_insert_eq|]. split; [intros; by rewrite lookup_insert_ne|].
  exists seed. split; [done|].
  by apply (sign_verifies _ _ _ _ STRICT) in Hs as (_ & Hv & _).
Qed.
End manifest.

(** ** A concrete build *)

Definition no_pem : PemLoader := {| load_pem_private_key _ := PemMalformed |}.

Module Example.
#[local] Existing Instance checksum_sha256.
#[local] Existing Instance std_rfc8785.
#[local] Existing Instance plain_ed25519.
#[local] Existing Instance no_pem.

Definition hash_text (c : Z) : str := replicate 64 c.

Definition ev (i t : str) : dict :=
  [(u "event_id", JStr i); (u "time", JStr t); (u "kind", JInt 1);
   (u "payload_hash", JStr (hash_text 97));
   (u "capability_token_hash", JStr (hash_text 48))].

Definition ev1 : dict := ev (u "evt-1") (u "2026-05-06T17:00:00Z").
Definition ev2 : dict := ev (u "evt-2") (u "2026-05-06T17:20:00Z").
Definition bad : dict := dict_set ev1 (u "payload_hash") (JStr (u "AB")).

Definition line (d : dict) : str := json_dumps false false (JObj d).

Definition fs : files :=
  {[ u "spool.jsonl" := line ev2 ++ [13; 10; 10] ++ line ev1 ++ [10];
     u "bad.jsonl" := line ev2 ++ [10] ++ line bad;
     u "key.hex" := u " " ++ hex (replicate 32 Byte.x2a) ++ [10] ]}.

Definition build_time : str := u "2026-05-06T18:00:05Z".
Definition hour : str := u "2026-05-06T17".

Definition manifest12 : dict :=
  ok_or [] (manifest_of_events hour build_time None [ev1; ev2]).

Definition run : files * result manifest_error dict :=
  build_command fs build_time hour (u "spool.jsonl") (u "out.json") None
    (Some (u "key.hex")) (Some (u "wat-1")).
Definition signed12 : dict := ok_or [] (snd run).

(** A digest with a newline behind it passes validation, although it is not of
    the documented form [^[0-9a-f]{64}$]. *)
Example validate_accepts_trailing_newline :
  let e := dict_set ev1 (u "payload_hash") (JStr (hash_text 97 ++ [10])) in
  _validate_events [e] = Ok [e].
Proof. vm_compute. reflexivity. Qed.

(** A line of the spool with its audit members. *)
Definition audited : dict :=
  ev1 ++ [(u "source", JStr (u "did:web:wakir.dev:treasury-agent"));
          (u "actorrole", JStr (u "treasury-operator")); (u "agentid", JStr (u "treasury-agent-001"));
          (u "schemaid", JStr (u "wakir.treasury.read")); (u "schemaversion", JStr (u "0.1.0"))].

(** The entry of the manifest has the four hashed members and the leaf only, so
    that the audit members the spool format writes through are not in it. *)
Example audit_members_dropped :
  let entries := dict_get (ok_or [] (manifest_of_events hour build_time None [audited])) (u "events") in
  entries = dict_get (ok_or [] (manifest_of_events hour build_time None [ev1])) (u "events") ∧
  match entries with
  | Some (JList [JObj entry]) => entry.*1 = REQUIRED_FIELDS ++ [u "leaf_hash"]
  | _ => False
  end.
Proof. split; by vm_compute. Qed.

(** A build without the root of the hour before writes the member, as null. *)
Example previous_root_written :
  dict_get (ok_or [] (manifest_of_events hour build_time None [ev1])) (u "prev_hour_root") = Some JNull ∧
  dict_get (_build_empty_manifest hour build_time None) (u "prev_hour_root") = Some JNull.
Proof. split; by vm_compute. Qed.
End Example.

Section witnesses.
#[local] Existing Instance checksum_sha256.
#[local] Existing Instance std_rfc8785.
#[local] Existing Instance plain_ed25519.
#[local] Existing Instance plain_ed25519_laws.
#[local] Existing Instance no_pem.
Import Example.

Lemma manifest_of_events_sound_witness :
  ∃ evs events leaves root levels,
    evs ≡ₚ [ev1; ev2] ∧ Forall2 b1_of evs events ∧
    StronglySorted (λ a b, sort_key_leb a b = true) (event_key <$> events) ∧
    event_leaves events leaves ∧
    manifest12 = manifest_spec hour build_time None events leaves root levels ∧
    ∀ i leaf, leaves !! i = Some leaf →
      ∃ p, merkle_proof leaves (Z.of_nat i) = Ok p ∧
           verify_merkle_proof leaf p root = Ok true.
Proof.
  apply (manifest_of_events_sound hour build_time None [ev1; ev2] manifest12).
  vm_compute. reflexivity.
Defined.

Lemma manifest_order_independent_witness :
  manifest_of_events hour build_time None [ev2; ev1] = Ok manifest12.
Proof.
  apply (manifest_order_independent hour build_time None [ev1; ev2] [ev2; ev1]).
  - intros a b Ha Hb Hk. apply elem_of_cons in Ha as [->|Ha%list_elem_of_singleton];
      apply elem_of_cons in Hb as [->|Hb%list_elem_of_singleton]; subst;
      first [reflexivity|vm_compute in Hk; discriminate Hk].
  - apply Permutation_swap.
  - vm_compute. reflexivity.
Defined.

Lemma build_command_rejects_invalid_witness :
  ∃ e, build_command fs build_time hour (u "bad.jsonl") (u "out.json") None None None
         = (fs, Err e) ∧ is_validation_error e = true.
Proof.
  apply (build_command_rejects_invalid fs build_time hour (u "bad.jsonl")
           (u "out.json") None None None [ev2; bad]).
  - vm_compute. reflexivity.
  - intros [_ [Hb _]%Forall_cons]%Forall_cons.
    destruct Hb as (e & (_ & _ & Hp & _) & Hs & _).
    assert (payload_hash e = u "AB") as E.
    { unfold bad in Hp. rewrite dict_get_set, decide_True in Hp by done. congruence. }
    rewrite E in Hs. apply hex64_iff in Hs. vm_compute in Hs. discriminate Hs.
Defined.

Lemma build_command_signed_witness :
  run.1 !! u "out.json" = Some (manifest_text signed12) ∧
  (∀ path, path ≠ u "out.json" → run.1 !! path = fs !! path) ∧
  ∃ seed, _load_sign_key fs (u "key.hex") = Ok seed ∧
    ManifestSigning.verify_manifest_signature (ManifestSigning.Plain signed12)
      (Some (ed_public seed)) STRICT JNull = Ok true.
Proof.
  apply (build_command_signed fs run.1 build_time hour (u "spool.jsonl")
           (u "out.json") None (u "key.hex") (u "wat-1") signed12).
  vm_compute. reflexivity.
Defined.
End witnesses.
