(* ===== verification/Lifecycle.v ===== *)
(** * The persona lifecycle ([wirelang/persona_engine/lifecycle_state_machine.py])

    The six-state machine with its audit log.  A machine is a record; a method
    is a state-passing computation; the value the injected clock returns
    during a call is that call's argument [now].

    The theorems: the exact effect of [transition_to] on every branch, the
    audit log as a faithful history (replaying it rebuilds the machine), and
    the safety and liveness of the transition graph. *)

From S2P Require Import Prelude PyStr.
From Stdlib Require Import ZArith Lia.

Open Scope Z_scope.

Module Lifecycle.

Definition STATES : list str :=
  [u "uninstantiated"; u "spawning"; u "running"; u "despawning";
   u "recovered"; u "migrated"].

Definition VALID_TRANSITIONS : list (str * str) :=
  [(u "uninstantiated", u "spawning");
   (u "spawning", u "running");
   (u "spawning", u "uninstantiated");
   (u "running", u "despawning");
   (u "despawning", u "uninstantiated");
   (u "uninstantiated", u "recovered");
   (u "recovered", u "running");
   (u "running", u "migrated");
   (u "migrated", u "uninstantiated")].

Inductive fsm_error : Type :=
| InvalidTransitionError (from_state to_state : str)
| UnknownStateError (state : str).

Record TransitionRecord := MkRecord {
  from_state : str;
  to_state : str;
  ts_utc : str;
  accepted : bool;
  reason : option str;
}.

(** The instance attributes; the clock is passed to the calls that read it. *)
Record machine := Machine {
  persona_id : str;
  org_id : str;
  state : str;
  history : list TransitionRecord;
}.

Definition known (s : str) : bool := bool_decide (s ∈ STATES).
Definition valid (e : str * str) : bool := bool_decide (e ∈ VALID_TRANSITIONS).

(** [LifecycleStateMachine.__init__] *)
Definition init (pid oid initial_state : str) : result fsm_error machine :=
  raise_if (negb (known initial_state)) (UnknownStateError initial_state);;
  Ok (Machine pid oid initial_state []).

Definition can_transition_to (m : machine) (to : str) : bool :=
  if negb (known to) then false else valid (state m, to).

(** [self._history.append(rec)] and [self._state = to_state] *)
Definition append (rec : TransitionRecord) (m : machine) : machine :=
  Machine (persona_id m) (org_id m) (state m) (history m ++ [rec]).
Definition set_state (to : str) (m : machine) : machine :=
  Machine (persona_id m) (org_id m) to (history m).

Definition transition_to (now to : str) : stm machine fsm_error TransitionRecord :=
  m ← get;
  if negb (known to) then
    modify (append (MkRecord (state m) to now false (Some (u "unknown_target_state"))));;
    throw (UnknownStateError to)
  else if negb (valid (state m, to)) then
    modify (append (MkRecord (state m) to now false (Some (u "not_in_valid_transitions"))));;
    throw (InvalidTransitionError (state m) to)
  else
    let rec := MkRecord (state m) to now true None in
    modify (append rec);;
    modify (set_state to);;
    mret rec.

(** The loop of [replay]. *)
Fixpoint replay_loop (m : machine) (records : list TransitionRecord)
    : result fsm_error machine :=
  match records with
  | [] => Ok m
  | rec :: records' =>
      if negb (accepted rec) then replay_loop (append rec m) records'
      else
        raise_if (negb (valid (from_state rec, to_state rec)))
          (InvalidTransitionError (from_state rec) (to_state rec));;
        raise_if (negb (str_eqb (from_state rec) (state m)))
          (InvalidTransitionError (state m) (to_state rec));;
        replay_loop (set_state (to_state rec) (append rec m)) records'
  end.

Definition replay (pid oid : str) (records : list TransitionRecord)
    : result fsm_error machine :=
  m ← init pid oid (u "uninstantiated");
  replay_loop m records.

(** The module-load check [_assert_spec_invariants]; [true] when nothing is
    raised. *)
Definition _assert_spec_invariants : bool :=
  forallb (λ e : str * str, known e.1 && known e.2) VALID_TRANSITIONS &&
  bool_decide (NoDup VALID_TRANSITIONS).

(** ** Specification *)

(** One call of [transition_to], whatever its outcome. *)
Definition step (m m' : machine) : Prop :=
  ∃ now to, (transition_to now to m).1 = m'.

Definition fresh (pid oid : str) : machine := Machine pid oid (u "uninstantiated") [].

(** The log as a specification: the state that a list of records leads to
    from [s], if its accepted records chain along valid edges. *)
Fixpoint trace (s : str) (records : list TransitionRecord) : option str :=
  match records with
  | [] => Some s
  | rec :: records' =>
      if accepted rec then
        if bool_decide (from_state rec = s ∧ (s, to_state rec) ∈ VALID_TRANSITIONS)
        then trace (to_state rec) records' else None
      else trace s records'
  end.

Section transitions.

(** The edges stay inside the six states, so the load-time check passes. *)
Lemma spec_invariants : _assert_spec_invariants = true.
Proof. vm_compute. reflexivity. Qed.

Lemma valid_known a b : (a, b) ∈ VALID_TRANSITIONS → a ∈ STATES ∧ b ∈ STATES.
Proof.
  intros Hin. pose proof spec_invariants as [Hk _]%andb_true_iff.
  rewrite forallb_forall in Hk. apply list_elem_of_In, Hk, andb_true_iff in Hin.
  unfold known in Hin. propify. naive_solver.
Qed.

(** [transition_to], branch by branch.  Every call appends exactly one
    record carrying the clock value; the state changes exactly when the edge
    is one of the nine, and the two refusals are told apart by their error. *)
Theorem transition_to_spec now to m :
  let log acc why m' :=
    m' = Machine (persona_id m) (org_id m) (if acc : bool then to else state m)
           (history m ++ [MkRecord (state m) to now acc why]) in
  match transition_to now to m with
  | (m', Ok rec) =>
      (state m, to) ∈ VALID_TRANSITIONS ∧ rec = MkRecord (state m) to now true None ∧
      log true None m'
  | (m', Err (UnknownStateError s)) =>
      s = to ∧ to ∉ STATES ∧ log false (Some (u "unknown_target_state")) m'
  | (m', Err (InvalidTransitionError a b)) =>
      a = state m ∧ b = to ∧ to ∈ STATES ∧ (state m, to) ∉ VALID_TRANSITIONS ∧
      log false (Some (u "not_in_valid_transitions")) m'
  end.
Proof.
  unfold transition_to, mbind, stm_bind. cbn. unfold known, valid.
  destruct (bool_decide (to ∈ STATES)) eqn:Ek; cbn.
  - destruct (bool_decide ((state m, to) ∈ VALID_TRANSITIONS)) eqn:Ev; cbn.
    + propify. done.
    + propify. done.
  - propify. done.
Qed.

Lemma transition_accepts now to m :
  (state m, to) ∈ VALID_TRANSITIONS →
  transition_to now to m =
  (set_state to (append (MkRecord (state m) to now true None) m),
   Ok (MkRecord (state m) to now true None)).
Proof.
  intros Hv. unfold transition_to, mbind, stm_bind. cbn. unfold known, valid.
  rewrite (bool_decide_true (to ∈ STATES)) by by eapply valid_known.
  by rewrite bool_decide_true.
Qed.

(** The machine after a call: the log grows by one record. *)
Lemma step_append m m' :
  step m m' →
  ∃ rec, persona_id m' = persona_id m ∧ org_id m' = org_id m ∧
    history m' = history m ++ [rec] ∧ from_state rec = state m ∧
    (accepted rec = true ∧ state m' = to_state rec ∧
       (state m, to_state rec) ∈ VALID_TRANSITIONS
     ∨ accepted rec = false ∧ state m' = state m).
Proof.
  intros (now & to & <-). unfold transition_to, mbind, stm_bind. cbn.
  unfold known, valid.
  destruct (bool_decide (to ∈ STATES)) eqn:Ek; cbn;
    [destruct (bool_decide ((state m, to) ∈ VALID_TRANSITIONS)) eqn:Ev; cbn|];
    propify; eexists; split_and!; eauto.
Qed.

Lemma trace_app s l1 l2 : trace s (l1 ++ l2) = (s' ← trace s l1; trace s' l2).
Proof.
  revert s. induction l1 as [|rec l1 IH]; intros s; csimpl; [done|].
  destruct (accepted rec); [|done]. by case_bool_decide.
Qed.

Lemma replay_loop_trace m records m' :
  replay_loop m records = Ok m' ↔
  ∃ s, trace (state m) records = Some s ∧
    m' = Machine (persona_id m) (org_id m) s (history m ++ records).
Proof.
  revert m. induction records as [|rec records IH]; intros m; cbn [replay_loop trace].
  { rewrite app_nil_r. destruct m. naive_solver. }
  destruct (accepted rec); cbn [negb].
  - unfold valid, str_eqb. destruct (bool_decide (from_state rec = state m)) eqn:E1;
      propify; [rewrite E1|].
    + destruct (bool_decide ((state m, to_state rec) ∈ VALID_TRANSITIONS)) eqn:E2;
        propify; cbn.
      * rewrite bool_decide_true, IH by done. cbn. by rewrite <- app_assoc.
      * rewrite bool_decide_false by (intros [_ ?]; done). naive_solver.
    + rewrite (bool_decide_false (from_state rec = state m ∧ _)) by (intros [? _]; done).
      case_bool_decide; cbn; naive_solver.
  - rewrite IH. cbn. by rewrite <- app_assoc.
Qed.

Lemma reachable_trace pid oid m :
  rtc step (fresh pid oid) m →
  persona_id m = pid ∧ org_id m = oid ∧
  trace (u "uninstantiated") (history m) = Some (state m).
Proof.
  intros Hr. eapply (rtc_invariant step (λ m, persona_id m = pid ∧ org_id m = oid ∧
    trace (u "uninstantiated") (history m) = Some (state m))); [|exact Hr|done].
  intros a b (rec & -> & -> & -> & Hf & Hs)%step_append (? & ? & Ht).
  split_and!; [done..|]. rewrite trace_app, Ht. cbn.
  destruct Hs as [(-> & -> & Hv)|(-> & ->)]; [|done].
  by rewrite bool_decide_true.
Qed.

(** C37: Replaying the audit log of any machine rebuilds it exactly: after
    any sequence of [transition_to] calls, accepted or rejected, [replay] of
    the history returns a machine equal to the original. *)
Theorem replay_history pid oid m :
  rtc step (fresh pid oid) m → replay pid oid (history m) = Ok m.
Proof.
  intros (<- & <- & Ht)%reachable_trace. unfold replay, init, known.
  rewrite bool_decide_true by (by apply (bool_decide_unpack _); vm_compute).
  apply replay_loop_trace. exists (state m). by destruct m.
Qed.

(** [replay] raises exactly on a log whose accepted records do not chain along
    valid edges from "uninstantiated"; otherwise the machine has the log as
    its history and the state the log leads to. *)
Theorem replay_spec pid oid records m :
  replay pid oid records = Ok m ↔
  ∃ s, trace (u "uninstantiated") records = Some s ∧ m = Machine pid oid s records.
Proof.
  unfold replay, init, known.
  rewrite bool_decide_true by (by apply (bool_decide_unpack _); vm_compute).
  apply replay_loop_trace.
Qed.
End transitions.

(** ** The graph *)

Section graph.

Definition edge (a b : str) : Prop := (a, b) ∈ VALID_TRANSITIONS.

#[local] Instance edge_dec a b : Decision (edge a b).
Proof. unfold edge. apply _. Defined.

Lemma path_edge s l a b :
  trace s l = Some a → edge a b → trace s (l ++ [MkRecord a b [] true None]) = Some b.
Proof. intros Ha Hb. rewrite trace_app, Ha. cbn. by rewrite bool_decide_true. Qed.

#[local] Ltac edge_via x := eapply (rtc_l _ _ (u x)); [by vm_compute; repeat constructor|].
#[local] Ltac edge_to := apply rtc_once; by vm_compute; repeat constructor.

Lemma to_root s : s ∈ STATES → rtc edge s (u "uninstantiated").
Proof.
  unfold STATES. rewrite !elem_of_cons, elem_of_nil. intros Hs. destruct_or! Hs; subst.
  - done.
  - edge_to.
  - edge_via "despawning". edge_to.
  - edge_to.
  - edge_via "running". edge_via "despawning". edge_to.
  - edge_to.
Qed.

Lemma from_root s : s ∈ STATES → rtc edge (u "uninstantiated") s.
Proof.
  unfold STATES. rewrite !elem_of_cons, elem_of_nil. intros Hs. destruct_or! Hs; subst.
  - done.
  - edge_to.
  - edge_via "spawning". edge_to.
  - edge_via "spawning". edge_via "running". edge_to.
  - edge_to.
  - edge_via "spawning". edge_via "running". edge_to.
Qed.

Lemma edge_step a b m :
  state m = a → edge a b → ∃ m', step m m' ∧ state m' = b.
Proof.
  intros <- Hb. pose proof (transition_accepts [] b m Hb) as E.
  eexists. split; [by exists [], b|]. by rewrite E.
Qed.

(** C38: No state is a trap: from a machine in any of the six states some sequence
    of [transition_to] calls brings it to any other. *)
Theorem lifecycle_live m t :
  state m ∈ STATES → t ∈ STATES → ∃ m', rtc step m m' ∧ state m' = t.
Proof.
  intros Hs Ht. assert (rtc edge (state m) t) as Hp.
  { etransitivity; [by apply to_root|by apply from_root]. }
  clear Hs Ht. remember (state m) as s eqn:E. revert m E.
  induction Hp as [s|a b c Hab _ IH]; intros m E; [by exists m|].
  destruct (edge_step a b m) as (m1 & Hm1 & E1); [done..|].
  destruct (IH m1) as (m' & ? & ?); [done|]. exists m'. split; [by eapply rtc_l|done].
Qed.

(** "running" is entered from "spawning" or from "recovered" only. *)
Lemma into_running a : edge a (u "running") → a = u "spawning" ∨ a = u "recovered".
Proof.
  unfold edge, VALID_TRANSITIONS. rewrite !elem_of_cons, elem_of_nil.
  intros H. destruct_or! H; simplify_eq; auto; ulit in H; done.
Qed.
End graph.

(** ** A concrete life *)

Definition spawned : machine :=
  (transition_to (u "2026-05-15T14:30:01Z") (u "running")
     (transition_to (u "2026-05-15T14:30:00Z") (u "spawning")
        (transition_to (u "2026-05-15T14:29:00Z") (u "flying")
           (fresh (u "p1") (u "org"))).1).1).1.

Lemma spawned_reachable : rtc step (fresh (u "p1") (u "org")) spawned.
Proof.
  eapply rtc_l; [by exists (u "2026-05-15T14:29:00Z"), (u "flying")|].
  eapply rtc_l; [by exists (u "2026-05-15T14:30:00Z"), (u "spawning")|].
  eapply rtc_once. by exists (u "2026-05-15T14:30:01Z"), (u "running").
Qed.

Lemma replay_history_witness :
  replay (u "p1") (u "org") (history spawned) = Ok spawned.
Proof. apply (replay_history (u "p1") (u "org") spawned), spawned_reachable. Defined.

Lemma lifecycle_live_witness :
  ∃ m', rtc step spawned m' ∧ state m' = u "recovered".
Proof.
  apply (lifecycle_live spawned (u "recovered"));
    apply (bool_decide_unpack _); vm_compute; exact I.
Defined.
End Lifecycle.
