(* ===== verification/Recovery.v ===== *)
(** * The recovery workflow ([wirelang/persona_engine/recovery_workflow.py])

    Phases R1 to R4, their retries and soft caps, the hard budget and the two
    lifecycle hops, over a state that holds the lifecycle machine and the
    effects performed so far.  What the workflow calls (the monotonic clock,
    the state backing, the workload-API probe, the container supervisor) is an
    environment whose answers may differ from call to call, and each of which may
    raise.  Seconds are counted in microsecond ticks.

    The theorems: what a successful run returns and did, that a failed run
    never moves the lifecycle and which exceptions it ends with, that the phases
    of a successful run fit the budget when the clock is monotonic, and the
    retry discipline of R2. *)

From S2P Require Import Prelude PyStr Lifecycle.
From Stdlib Require Import ZArith Lia.
Import Lifecycle.

Open Scope Z_scope.

Module Recovery.

Definition second : Z := 1000000.
Definition RECOVERY_BUDGET_SECONDS : Z := 30.

Definition PHASE_SOFT_CAPS_SEC (phase : str) : Z :=
  if str_eqb phase (u "R1") then 1
  else if str_eqb phase (u "R2") then 15
  else if str_eqb phase (u "R3") then 5
  else 9.

Definition RECOVERY_WORKFLOW_PHASE_ORDER : list str :=
  [u "R1"; u "R2"; u "R3"; u "R4"].

Inductive RecoveryTrigger : Type :=
| CRASH_DETECTED | DESPAWN_MID_OPERATION | STATE_CORRUPTION.

#[export] Instance trigger_eq_dec : EqDecision RecoveryTrigger.
Proof. solve_decision. Defined.

Definition trigger_value (t : RecoveryTrigger) : str :=
  match t with
  | CRASH_DETECTED => u "CrashDetected"
  | DESPAWN_MID_OPERATION => u "DespawnMidOperation"
  | STATE_CORRUPTION => u "StateCorruption"
  end.

Inductive RecoveryFailureMode : Type :=
| TRIGGER_AMBIGUOUS | BACKING_UNREACHABLE | SNAPSHOT_CORRUPT
| IDENTITY_REBIND_ERROR | RESUME_ERROR | BUDGET_EXCEEDED.

(** [RecoveryError] by its mode; the other constructors are exceptions that the
    workflow does not catch, of the lifecycle machine and of what it calls. *)
Inductive recovery_error : Type :=
| RecoveryError (mode : RecoveryFailureMode)
| LifecycleError (e : fsm_error)
| Uncaught (exn : str).

(** A call of [restore_latest]: whether there is a snapshot, a
    [PersonaStateBackingError], or another exception by its name.  The bindings
    of [state_backing.py] raise others: [snapshot_from_jcs_bytes] a [ValueError]
    for a stored value that is no snapshot, [_submit] a timeout. *)
Inductive backing_answer : Type :=
| Restored (snap : bool)
| BackingError
| BackingRaises (exn : str).

Record PhaseResult := MkPhase {
  phase : str;
  terminal_status : str;
  elapsed_sec : Z;
  soft_cap_exceeded : bool;
  audit_annotation : str;
}.

Record RecoveryResult := MkResult {
  trigger : RecoveryTrigger;
  phases : list PhaseResult;
  total_elapsed_sec : Z;
  final_state : str;
  success : bool;
}.

(** The answers of the outside: the [n]th reading of the clock, the [n]th
    [restore_latest], the [n]th probe (its connectable flag and SPIFFE id), the
    supervisor; a probe and a supervisor may raise as well. *)
Record env := Env {
  clock : nat → Z;
  restore_latest : nat → backing_answer;
  probe_socket : nat → result str (bool * str);
  supervisor : str → result str bool;
  wall_clock : nat → str;
}.

(** The lifecycle machine and the number of calls made, with the naps. *)
Record world := World {
  fsm : machine;
  clock_reads : nat;
  restores : nat;
  probes : nat;
  sleeps : list Z;
}.

Section workflow.
Variable E : env.

Notation M := (stm world recovery_error).

Definition read_clock : M Z :=
  w ← get;
  modify (λ w, World (fsm w) (S (clock_reads w)) (restores w) (probes w) (sleeps w));;
  mret (clock E (clock_reads w)).

Definition call_restore : M backing_answer :=
  w ← get;
  modify (λ w, World (fsm w) (clock_reads w) (S (restores w)) (probes w) (sleeps w));;
  mret (restore_latest E (restores w)).

Definition call_probe : M (bool * str) :=
  w ← get;
  modify (λ w, World (fsm w) (clock_reads w) (restores w) (S (probes w)) (sleeps w));;
  lift (map_err Uncaught (probe_socket E (probes w))).

Definition sleep (t : Z) : M () :=
  modify (λ w, World (fsm w) (clock_reads w) (restores w) (probes w) (sleeps w ++ [t])).

Definition classify_trigger (crash_detected despawn_mid_operation state_corruption : bool)
    (force_trigger : option RecoveryTrigger) : result recovery_error RecoveryTrigger :=
  match force_trigger with
  | Some t => Ok t
  | None =>
      let flags := [(CRASH_DETECTED, crash_detected);
                    (DESPAWN_MID_OPERATION, despawn_mid_operation);
                    (STATE_CORRUPTION, state_corruption)] in
      match (filter (λ f : RecoveryTrigger * bool, f.2 = true) flags).*1 with
      | [t] => Ok t
      | _ => Err (RecoveryError TRIGGER_AMBIGUOUS)
      end
  end.

Definition phase_result (ph status : str) (elapsed : Z) (note : str) : PhaseResult :=
  MkPhase ph status elapsed (PHASE_SOFT_CAPS_SEC ph * second <? elapsed) note.

Definition _r1_detect (t : RecoveryTrigger) : M PhaseResult :=
  start ← read_clock;
  stop ← read_clock;
  mret (phase_result (u "R1") (u "detected") (stop - start)
          (u "recovery_trigger_classified=" ++ trigger_value t)).

(** The retry loop of R2: [left] attempts remain. *)
Fixpoint r2_loop (start : Z) (backoff : Z) (left : nat) : M (PhaseResult * bool) :=
  match left with
  | O => throw (RecoveryError BACKING_UNREACHABLE)
  | S left' =>
      r ← call_restore;
      match r with
      | Restored snap =>
          stop ← read_clock;
          mret (phase_result (u "R2") (u "reloaded") (stop - start)
                  (if snap then u "snapshot-restored" else u "cold-start"), snap)
      | BackingError =>
          match left' with
          | O => r2_loop start backoff left'
          | S _ => sleep backoff;; r2_loop start (2 * backoff) left'
          end
      | BackingRaises exn => throw (Uncaught exn)
      end
  end.

Definition _r2_reload (max_backing_retries : nat) : M (PhaseResult * bool) :=
  start ← read_clock;
  r2_loop start second max_backing_retries.

Fixpoint r3_loop (start : Z) (left : nat) : M (PhaseResult * str) :=
  match left with
  | O => throw (RecoveryError IDENTITY_REBIND_ERROR)
  | S left' =>
      p ← call_probe;
      let '(connectable, spiffe_id) := p : bool * str in
      if connectable then
        stop ← read_clock;
        mret (phase_result (u "R3") (u "re_registered") (stop - start)
                (u "recovery_svid_refreshed=" ++ spiffe_id), spiffe_id)
      else r3_loop start left'
  end.

Definition _r3_re_register (max_attempts : nat) : M (PhaseResult * str) :=
  start ← read_clock;
  r3_loop start max_attempts.

Definition _r4_resume (pid : str) : M PhaseResult :=
  start ← read_clock;
  ok ← lift (map_err Uncaught (supervisor E pid));
  stop ← read_clock;
  if negb ok then throw (RecoveryError RESUME_ERROR)
  else mret (phase_result (u "R4") (u "resumed") (stop - start) (u "container-active")).

Definition _check_budget (global_start : Z) : M () :=
  now ← read_clock;
  if RECOVERY_BUDGET_SECONDS * second <? now - global_start
  then throw (RecoveryError BUDGET_EXCEEDED) else mret ().

(** A [transition_to] of the machine inside the [try]. *)
Definition hop (to : str) : M () := λ w,
  match transition_to (wall_clock E (length (history (fsm w)))) to (fsm w) with
  | (m, Ok _) => (World m (clock_reads w) (restores w) (probes w) (sleeps w), Ok ())
  | (m, Err e) =>
      (World m (clock_reads w) (restores w) (probes w) (sleeps w),
       Err match e with
           | InvalidTransitionError _ _ => RecoveryError RESUME_ERROR
           | UnknownStateError _ => LifecycleError e
           end)
  end.

Definition lifecycle_hops : M () :=
  w ← get;
  if str_eqb (state (fsm w)) (u "uninstantiated") then
    hop (u "recovered");; hop (u "running")
  else if str_eqb (state (fsm w)) (u "recovered") then hop (u "running")
  else mret ().

(** [run] up to the last budget check: trigger, phases and start time. *)
Definition run_phases (crash_detected despawn_mid_operation state_corruption : bool)
    (force_trigger : option RecoveryTrigger)
    : M (RecoveryTrigger * list PhaseResult * Z) :=
  global_start ← read_clock;
  t ← lift (classify_trigger crash_detected despawn_mid_operation state_corruption
              force_trigger);
  r1 ← _r1_detect t;
  _check_budget global_start;;
  r2 ← _r2_reload 3;
  _check_budget global_start;;
  r3 ← _r3_re_register 2;
  _check_budget global_start;;
  w ← get;
  r4 ← _r4_resume (persona_id (fsm w));
  _check_budget global_start;;
  mret (t, [r1; r2.1; r3.1; r4], global_start).

Definition run (crash_detected despawn_mid_operation state_corruption : bool)
    (force_trigger : option RecoveryTrigger) : M RecoveryResult :=
  x ← run_phases crash_detected despawn_mid_operation state_corruption force_trigger;
  let '(t, results, global_start) := x in
  lifecycle_hops;;
  stop ← read_clock;
  w ← get;
  mret (MkResult t results (stop - global_start) (state (fsm w)) true).

(** ** The phases leave the lifecycle alone *)

(** An exception that the backing, the probe or the supervisor raised. *)
Definition raised_outside (exn : str) : Prop :=
  (∃ n, restore_latest E n = BackingRaises exn) ∨ (∃ n, probe_socket E n = Err exn) ∨
  (∃ pid, supervisor E pid = Err exn).

(** What a phase ends with: a [RecoveryError], of any mode but that of a corrupt
    snapshot, or an exception from outside. *)
Definition phase_error (e : recovery_error) : Prop :=
  match e with
  | RecoveryError mode => mode ≠ SNAPSHOT_CORRUPT
  | Uncaught exn => raised_outside exn
  | LifecycleError _ => False
  end.

(** The computation does not touch the machine, and ends with such errors only. *)
Definition keeps_fsm {A} (m : M A) : Prop :=
  ∀ w, fsm (m w).1 = fsm w ∧ match (m w).2 with Err e => phase_error e | Ok _ => True end.

Lemma keeps_bind {A B} (m : M A) (f : A → M B) :
  keeps_fsm m → (∀ a, keeps_fsm (f a)) → keeps_fsm (m ≫= f).
Proof.
  intros Hm Hf w. unfold mbind, stm_bind. destruct (Hm w) as [Hw He].
  destruct (m w) as [w1 [a|e]]; simpl in *; [|done].
  destruct (Hf a w1) as [-> ?]. done.
Qed.

Lemma keeps_ret {A} (a : A) : keeps_fsm (mret a).
Proof. done. Qed.
Lemma keeps_throw {A} e : phase_error e → keeps_fsm (A:=A) (throw e).
Proof. by intros He w. Qed.
Lemma keeps_outside {A} (r : result str A) :
  (∀ exn, r = Err exn → raised_outside exn) → keeps_fsm (lift (map_err Uncaught r)).
Proof. intros Hr w. split; [done|]. destruct r as [a|exn]; [done|]. by apply Hr. Qed.
Lemma keeps_get : keeps_fsm get.
Proof. done. Qed.
Lemma keeps_read : keeps_fsm read_clock.
Proof. done. Qed.
Lemma keeps_probe : keeps_fsm call_probe.
Proof.
  apply keeps_bind; [apply keeps_get|]. intros w. apply keeps_bind; [done|]. intros _.
  apply keeps_outside. intros exn Hp. right; left. by exists (probes w).
Qed.
Lemma keeps_sleep t : keeps_fsm (sleep t).
Proof. done. Qed.

#[local] Hint Resolve keeps_bind keeps_ret keeps_throw keeps_get
  keeps_read keeps_probe keeps_sleep : keeps.

Lemma keeps_classify a b c f : keeps_fsm (lift (classify_trigger a b c f)).
Proof. intros w. destruct f; [done|]. by destruct a, b, c. Qed.

Lemma keeps_r1 t : keeps_fsm (_r1_detect t).
Proof. unfold _r1_detect. auto 10 with keeps. Qed.

Lemma keeps_bind_restore {B} (f : backing_answer → M B) :
  (∀ a, (∃ n, restore_latest E n = a) → keeps_fsm (f a)) → keeps_fsm (call_restore ≫= f).
Proof.
  intros Hf w. unfold mbind, stm_bind. cbn [call_restore].
  destruct (call_restore w) as [w1 r] eqn:Ec. injection Ec as <- <-.
  by destruct (Hf _ (ex_intro _ (restores w) eq_refl)
    (World (fsm w) (clock_reads w) (S (restores w)) (probes w) (sleeps w))) as [-> ?].
Qed.

Lemma keeps_r2 n : keeps_fsm (_r2_reload n).
Proof.
  apply keeps_bind; [auto with keeps|]. intros start. generalize second. revert start.
  induction n as [|n IH]; intros start b; cbn [r2_loop]; [by auto with keeps|].
  apply keeps_bind_restore. intros [snap| |exn] Hexn; [auto with keeps| |].
  - destruct n; auto with keeps.
  - apply keeps_throw. by left.
Qed.

Lemma keeps_r3 n : keeps_fsm (_r3_re_register n).
Proof.
  apply keeps_bind; [auto with keeps|]. intros start. revert start.
  induction n as [|n IH]; intros start; cbn [r3_loop]; [by auto with keeps|].
  apply keeps_bind; [auto with keeps|]. intros [[] sp]; auto with keeps.
Qed.

Lemma keeps_r4 pid : keeps_fsm (_r4_resume pid).
Proof.
  unfold _r4_resume. apply keeps_bind; [auto with keeps|]. intros start.
  apply keeps_bind.
  { apply keeps_outside. intros exn Hs. right; right. by exists pid. }
  intros ok. apply keeps_bind; [auto with keeps|]. intros stop. destruct ok; by auto with keeps.
Qed.

Lemma keeps_budget g : keeps_fsm (_check_budget g).
Proof.
  apply keeps_bind; [auto with keeps|]. intros now.
  destruct (_ <? _); by auto with keeps.
Qed.

(** *** The hops *)

(** The accepted edges of the log behind the first [n] records. *)
Definition new_edges (m m' : machine) : list (str * str) :=
  (λ r, (from_state r, to_state r)) <$> drop (length (history m)) (history m').

(** Where the workflow takes the lifecycle. *)
Definition planned_edges (s : str) : list (str * str) :=
  if str_eqb s (u "uninstantiated") then
    [(u "uninstantiated", u "recovered"); (u "recovered", u "running")]
  else if str_eqb s (u "recovered") then [(u "recovered", u "running")]
  else [].

Definition planned_state (s : str) : str :=
  if str_eqb s (u "uninstantiated") || str_eqb s (u "recovered")
  then u "running" else s.

Lemma hop_ok to w :
  edge (state (fsm w)) to →
  ∃ rec, hop to w =
    (World (set_state to (append rec (fsm w))) (clock_reads w) (restores w)
       (probes w) (sleeps w), Ok ()) ∧
    accepted rec = true ∧ from_state rec = state (fsm w) ∧ to_state rec = to.
Proof.
  intros He. unfold hop. rewrite transition_accepts by done. eauto.
Qed.

Lemma hops_ok w :
  ∃ w' recs, lifecycle_hops w = (w', Ok ()) ∧
    history (fsm w') = history (fsm w) ++ recs ∧
    Forall (λ r, accepted r = true) recs ∧
    (λ r, (from_state r, to_state r)) <$> recs = planned_edges (state (fsm w)) ∧
    state (fsm w') = planned_state (state (fsm w)).
Proof.
  assert (edge (u "uninstantiated") (u "recovered")) as H1
    by (unfold edge; apply (bool_decide_unpack _); by vm_compute).
  assert (edge (u "recovered") (u "running")) as H2
    by (unfold edge; apply (bool_decide_unpack _); by vm_compute).
  unfold lifecycle_hops, planned_edges, planned_state, str_eqb.
  rewrite (stm_bind_eq get _ w w w) by done.
  destruct (bool_decide (state (fsm w) = u "uninstantiated")) eqn:E1; propify; cbn [orb].
  - destruct (hop_ok (u "recovered") w) as (r1 & E2 & ? & Hf1 & Ht1); [by rewrite E1|].
    rewrite (stm_bind_eq _ _ _ _ _ E2).
    match goal with |- context [hop _ ?w1] =>
      destruct (hop_ok (u "running") w1) as (r2 & E3 & ? & Hf2 & Ht2); [done|] end.
    eexists _, [r1; r2]. rewrite E3.
    split_and!; [reflexivity|cbn; by rewrite <- app_assoc|by repeat constructor| |done].
    cbn in *. by rewrite Hf1, Hf2, Ht1, Ht2, E1.
  - destruct (bool_decide (state (fsm w) = u "recovered")) eqn:E2; propify.
    + destruct (hop_ok (u "running") w) as (r & E3 & ? & Hf & Ht); [by rewrite E2|].
      eexists _, [r]. rewrite E3.
      split_and!; [reflexivity|done|by repeat constructor| |done].
      cbn in *. by rewrite Hf, Ht, E2.
    + exists w, []. rewrite app_nil_r. by split_and!.
Qed.

Lemma keeps_phases a b c f : keeps_fsm (run_phases a b c f).
Proof.
  pose proof keeps_r1. pose proof keeps_r2. pose proof keeps_r3.
  pose proof keeps_r4. pose proof keeps_budget. pose proof keeps_classify.
  unfold run_phases.
  repeat (apply keeps_bind; [by auto with keeps|intros ?]). auto with keeps.
Qed.

(** ** Timing *)

(** A phase that succeeded: its labels, and the two clock readings it took. *)
Definition timed (ph status : str) (w w' : world) (r : PhaseResult) : Prop :=
  phase r = ph ∧ terminal_status r = status ∧
  clock_reads w' = (clock_reads w + 2)%nat ∧
  elapsed_sec r = clock E (clock_reads w + 1) - clock E (clock_reads w) ∧
  soft_cap_exceeded r = (PHASE_SOFT_CAPS_SEC ph * second <? elapsed_sec r).

Lemma r2_loop_ok start b left w w' r :
  r2_loop start b left w = (w', Ok r) →
  clock_reads w' = S (clock_reads w) ∧
  ∃ note, r.1 = phase_result (u "R2") (u "reloaded")
                  (clock E (clock_reads w) - start) note.
Proof.
  revert b w. induction left as [|left IH]; intros b w H; cbn [r2_loop] in H; [done|].
  apply stm_bind_ok in H as (w1 & o & [= <- <-] & H).
  destruct (restore_latest E (restores w)) as [snap| |exn]; [| |done].
  - apply stm_bind_ok in H as (w2 & stop & [= <- <-] & [= <- <-]). cbn. eauto.
  - destruct left as [|left]; [done|].
    apply stm_bind_ok in H as (w2 & ? & [= <- _] & H). by apply IH in H.
Qed.

Lemma probe_ok w w' p :
  call_probe w = (w', Ok p) →
  w' = World (fsm w) (clock_reads w) (restores w) (S (probes w)) (sleeps w).
Proof.
  unfold call_probe, mbind, stm_bind, lift. cbn.
  by destruct (probe_socket E (probes w)); intros [= <- _].
Qed.

Lemma r3_loop_ok start left w w' r :
  r3_loop start left w = (w', Ok r) →
  clock_reads w' = S (clock_reads w) ∧
  ∃ note, r.1 = phase_result (u "R3") (u "re_registered")
                  (clock E (clock_reads w) - start) note.
Proof.
  revert w. induction left as [|left IH]; intros w H; cbn [r3_loop] in H; [done|].
  apply stm_bind_ok in H as (w1 & [[] sp] & ->%probe_ok & H); [|by apply IH in H].
  apply stm_bind_ok in H as (w2 & stop & [= <- <-] & [= <- <-]). cbn. eauto.
Qed.

Lemma r1_timed t w w' r :
  _r1_detect t w = (w', Ok r) → timed (u "R1") (u "detected") w w' r.
Proof.
  intros [= <- <-]. unfold timed. cbn. split_and!; try done; [lia|].
  by rewrite Nat.add_1_r.
Qed.

Lemma r2_timed n w w' r :
  _r2_reload n w = (w', Ok r) → timed (u "R2") (u "reloaded") w w' r.1.
Proof.
  intros H. apply stm_bind_ok in H as (w1 & start & [= <- <-] & H).
  apply r2_loop_ok in H as (Hc & note & ->). unfold timed. cbn in *.
  rewrite Nat.add_1_r. split_and!; try done. lia.
Qed.

Lemma r3_timed n w w' r :
  _r3_re_register n w = (w', Ok r) → timed (u "R3") (u "re_registered") w w' r.1.
Proof.
  intros H. apply stm_bind_ok in H as (w1 & start & [= <- <-] & H).
  apply r3_loop_ok in H as (Hc & note & ->). unfold timed. cbn in *.
  rewrite Nat.add_1_r. split_and!; try done. lia.
Qed.

Lemma r4_timed pid w w' r :
  _r4_resume pid w = (w', Ok r) → timed (u "R4") (u "resumed") w w' r.
Proof.
  unfold _r4_resume. intros H.
  apply stm_bind_ok in H as (w1 & start & [= <- <-] & H).
  apply stm_bind_ok in H as (w1' & ok & [= <- _] & H).
  apply stm_bind_ok in H as (w2 & stop & [= <- <-] & H).
  destruct ok; [|done]. injection H as <- <-. unfold timed. cbn.
  rewrite Nat.add_1_r. split_and!; try done. lia.
Qed.

Lemma budget_ok g w w' x :
  _check_budget g w = (w', Ok x) →
  clock_reads w' = S (clock_reads w) ∧
  clock E (clock_reads w) - g ≤ RECOVERY_BUDGET_SECONDS * second.
Proof.
  unfold _check_budget. intros H.
  apply stm_bind_ok in H as (w1 & start & [= <- <-] & H).
  destruct (Z.ltb_spec (RECOVERY_BUDGET_SECONDS * second) (clock E (clock_reads w) - g));
    [done|]. injection H as <- _. done.
Qed.

(** The readings of a run that passed all four phases. *)
Lemma run_phases_ok a b c f w w' t rs g :
  run_phases a b c f w = (w', Ok (t, rs, g)) →
  let n := clock_reads w in
  let at_ i := clock E (n + i) in
  classify_trigger a b c f = Ok t ∧ g = at_ 0%nat ∧
  (λ r, (phase r, terminal_status r, elapsed_sec r)) <$> rs =
    [(u "R1", u "detected", at_ 2%nat - at_ 1%nat);
     (u "R2", u "reloaded", at_ 5%nat - at_ 4%nat);
     (u "R3", u "re_registered", at_ 8%nat - at_ 7%nat);
     (u "R4", u "resumed", at_ 11%nat - at_ 10%nat)] ∧
  clock_reads w' = (n + 13)%nat ∧
  at_ 12%nat - at_ 0%nat ≤ RECOVERY_BUDGET_SECONDS * second.
Proof.
  unfold run_phases. intros H.
  apply stm_bind_ok in H as (w1 & g' & [= <- <-] & H).
  apply stm_bind_ok in H as (w2 & t' & [= Hw2 Ht] & H).
  apply stm_bind_ok in H as (w3 & r1 & H1 & H).
  apply stm_bind_ok in H as (w4 & [] & B1 & H).
  apply stm_bind_ok in H as (w5 & r2 & H2 & H).
  apply stm_bind_ok in H as (w6 & [] & B2 & H).
  apply stm_bind_ok in H as (w7 & r3 & H3 & H).
  apply stm_bind_ok in H as (w8 & [] & B3 & H).
  apply stm_bind_ok in H as (w9 & w9' & [= Hw9 _] & H).
  apply stm_bind_ok in H as (w10 & r4 & H4 & H).
  apply stm_bind_ok in H as (w11 & [] & B4 & [= <- <- <- <-]).
  apply r1_timed in H1 as (P1 & S1 & C1 & E1 & _).
  apply r2_timed in H2 as (P2 & S2 & C2 & E2 & _).
  apply r3_timed in H3 as (P3 & S3 & C3 & E3 & _).
  apply r4_timed in H4 as (P4 & S4 & C4 & E4 & _).
  apply budget_ok in B1 as [D1 _], B2 as [D2 _], B3 as [D3 _], B4 as [D4 Hb].
  subst w2 w9. cbn [clock_reads] in *. cbv zeta. csimpl.
  rewrite P1, S1, E1, P2, S2, E2, P3, S3, E3, P4, S4, E4.
  replace (clock_reads w3) with (clock_reads w + 3)%nat in * by lia.
  replace (clock_reads w4) with (clock_reads w + 4)%nat in * by lia.
  replace (clock_reads w6) with (clock_reads w + 7)%nat in * by lia.
  replace (clock_reads w8) with (clock_reads w + 10)%nat in * by lia.
  replace (clock_reads w10) with (clock_reads w + 12)%nat in * by lia.
  replace (S (clock_reads w)) with (clock_reads w + 1)%nat in * by lia.
  rewrite <- !Nat.add_assoc, Nat.add_0_r. cbn [Nat.add].
  split_and!; [done|done|done|lia|done].
Qed.

(** ** The workflow *)

(** C39: A run, whatever the clock, the backing, the probe and the supervisor answer
    or raise.  On success the four phases were recorded in order, the trigger is
    the classified one, and the lifecycle log grew by exactly the hops from the
    initial state: to "running" through "recovered" from "uninstantiated", to
    "running" from "recovered", and nowhere from any other state.  On failure the
    lifecycle is untouched, and the exception is a [RecoveryError], of any mode
    but SNAPSHOT_CORRUPT, which no run raises, or one that the backing, the probe
    or the supervisor raised and the workflow does not catch. *)
Theorem run_outcome a b c f w :
  match run a b c f w with
  | (w', Ok r) =>
      success r = true ∧ classify_trigger a b c f = Ok (trigger r) ∧
      phase <$> phases r = RECOVERY_WORKFLOW_PHASE_ORDER ∧
      final_state r = state (fsm w') ∧
      state (fsm w') = planned_state (state (fsm w)) ∧
      ∃ recs, history (fsm w') = history (fsm w) ++ recs ∧
        Forall (λ r, accepted r = true) recs ∧
        (λ r, (from_state r, to_state r)) <$> recs = planned_edges (state (fsm w))
  | (w', Err e) =>
      fsm w' = fsm w ∧
      ((∃ mode, e = RecoveryError mode ∧ mode ≠ SNAPSHOT_CORRUPT) ∨
       (∃ exn, e = Uncaught exn ∧ raised_outside exn))
  end.
Proof.
  unfold run. pose proof (keeps_phases a b c f w) as [Hk He].
  destruct (run_phases a b c f w) as [w1 [[[t rs] g]|e]] eqn:Ep; simpl in Hk, He.
  - rewrite (stm_bind_eq _ _ _ _ _ Ep).
    destruct (hops_ok w1) as (w2 & recs & Eh & Hh & Ha & Hed & Hst).
    rewrite (stm_bind_eq _ _ _ _ _ Eh). cbn. rewrite Hk in *.
    apply run_phases_ok in Ep as (Ht & _ & Hrs & _).
    split_and!; try done; [|by exists recs].
    apply (f_equal (fmap (λ x : str * str * Z, x.1.1))) in Hrs.
    by rewrite <- list_fmap_compose in Hrs.
  - unfold mbind, stm_bind. rewrite Ep. split; [done|]. destruct e; [eauto|done|eauto].
Qed.

(** With a monotonic clock, the phases of a successful run together took no
    longer than the 30-second budget, and none took negative time. *)
Theorem run_within_budget a b c f w w' r :
  (∀ i j, (i ≤ j)%nat → clock E i ≤ clock E j) →
  run a b c f w = (w', Ok r) →
  foldr Z.add 0 (elapsed_sec <$> phases r) ≤ RECOVERY_BUDGET_SECONDS * second ∧
  Forall (λ p, 0 ≤ elapsed_sec p) (phases r).
Proof.
  intros Hc. unfold run. intros H.
  apply stm_bind_ok in H as (w1 & [[t rs] g] & Hp & H).
  apply stm_bind_ok in H as (w2 & ? & _ & H).
  apply stm_bind_ok in H as (w3 & stop & _ & H).
  apply stm_bind_ok in H as (w4 & ? & _ & [= _ <-]). cbn [phases].
  apply run_phases_ok in Hp as (_ & _ & Hrs & _ & Hb). cbv zeta in Hrs, Hb.
  apply (f_equal (fmap snd)) in Hrs. rewrite <- list_fmap_compose in Hrs.
  pose proof (Hrs : elapsed_sec <$> rs = _) as Hel. clear Hrs.
  assert (∀ i j, (i ≤ j)%nat →
    clock E (clock_reads w + i) ≤ clock E (clock_reads w + j)) as Hm.
  { intros i j Hij. apply Hc. lia. }
  pose proof (Hm 0 1)%nat. pose proof (Hm 1 2)%nat. pose proof (Hm 2 4)%nat.
  pose proof (Hm 4 5)%nat. pose proof (Hm 5 7)%nat. pose proof (Hm 7 8)%nat.
  pose proof (Hm 8 10)%nat. pose proof (Hm 10 11)%nat. pose proof (Hm 11 12)%nat.
  split.
  - rewrite Hel. cbn [foldr snd fmap list_fmap]. lia.
  - assert (Forall (λ z, 0 ≤ z) (elapsed_sec <$> rs)) as Hf.
    { rewrite Hel. cbn [snd fmap list_fmap]. repeat constructor; lia. }
    by rewrite Forall_fmap in Hf.
Qed.

(** ** The retries of R2 *)

(** The naps in front of attempt [k]: one second, doubled each time. *)
Definition naps (b : Z) (k : nat) : list Z := (λ i, b * 2 ^ Z.of_nat i) <$> seq 0 k.

Lemma naps_cons b k : naps b (S k) = b :: naps (2 * b) k.
Proof.
  unfold naps. cbn [seq]. csimpl. rewrite Z.mul_1_r. f_equal.
  rewrite <- (fmap_S_seq 0), <- list_fmap_compose. apply list_fmap_ext.
  intros i x _. cbn [compose]. rewrite Nat2Z.inj_succ, Z.pow_succ_r by lia. lia.
Qed.

(** How the loop can end: at attempt [k] by a snapshot or an exception that is not
    caught, or after the last attempt. *)
Definition retried (b : Z) (n : nat) (w : world) (out : world * result recovery_error (PhaseResult * bool)) : Prop :=
  let answer k := restore_latest E (restores w + k) in
  let failed k := ∀ i, (i < k)%nat → answer i = BackingError in
  let stopped k := (k < n)%nat ∧ failed k ∧
    restores out.1 = (restores w + S k)%nat ∧ sleeps out.1 = sleeps w ++ naps b k in
  match out.2 with
  | Ok r => ∃ k, stopped k ∧ answer k = Restored r.2
  | Err (Uncaught exn) => ∃ k, stopped k ∧ answer k = BackingRaises exn
  | Err e => e = RecoveryError BACKING_UNREACHABLE ∧ failed n ∧
      restores out.1 = (restores w + n)%nat ∧ sleeps out.1 = sleeps w ++ naps b (n - 1)
  end.

(** An attempt that fails, and the nap before the next. *)
Lemma retried_step b n w w1 out :
  restore_latest E (restores w) = BackingError →
  restores w1 = S (restores w) → sleeps w1 = sleeps w ++ [b] →
  retried (2 * b) (S n) w1 out → retried b (S (S n)) w out.
Proof.
  intros Ha Hr Hs. unfold retried. rewrite Hr, Hs.
  assert (∀ k, (∀ i, (i < k)%nat → restore_latest E (S (restores w) + i) = BackingError) →
            ∀ i, (i < S k)%nat → restore_latest E (restores w + i) = BackingError) as Hshift.
  { intros k Hk [|i] Hi; [by rewrite Nat.add_0_r|]. rewrite Nat.add_succ_r. apply Hk. lia. }
  destruct out as [w' [r|[mode|e|exn]]]; cbn [fst snd].
  1,4: intros (k & (Hk & Hf & Hc & Hn) & Hans); exists (S k); rewrite naps_cons;
    rewrite <- app_assoc in Hn; split_and!;
    [lia|by apply Hshift|lia|done|by replace (restores w + S k)%nat with (S (restores w) + k)%nat by lia].
  all: intros (? & Hf & Hc & Hn); rewrite <- app_assoc in Hn;
    replace (S (S n) - 1)%nat with (S n) by lia; replace (S n - 1)%nat with n in Hn by lia;
    rewrite naps_cons; split_and!; [done|by apply Hshift|lia|done].
Qed.

Lemma r2_loop_retries start b n w : retried b n w (r2_loop start b n w).
Proof.
  revert b w. induction n as [|n IH]; intros b w; cbn [r2_loop].
  { cbn. rewrite Nat.add_0_r, app_nil_r. split_and!; [done|lia|done|done]. }
  rewrite (stm_bind_eq call_restore _ _ _ _ eq_refl).
  destruct (restore_latest E (restores w)) as [snap| |exn] eqn:Er.
  - exists 0%nat. cbn. rewrite Nat.add_0_r, Nat.add_1_r, app_nil_r. split_and!; try done; lia.
  - destruct n as [|n].
    + cbn. rewrite app_nil_r, Nat.add_1_r. split_and!; try done.
      intros i Hi. by replace (restores w + i)%nat with (restores w) by lia.
    + rewrite (stm_bind_eq (sleep b) _ _ _ _ eq_refl). by eapply retried_step; [..|apply IH].
  - exists 0%nat. cbn. rewrite Nat.add_0_r, Nat.add_1_r, app_nil_r. split_and!; try done; lia.
Qed.

(** C40: R2 asks the backing at most [n] times, again only after a
    [PersonaStateBackingError]; it naps one second before the second attempt and
    twice as long before each following one, and not after the last.  The first
    answer ends the phase, and so does, at once, any other exception, which is not
    caught; BACKING_UNREACHABLE is raised exactly when all [n] attempts failed. *)
Theorem r2_reload_retries n w :
  let answer k := restore_latest E (restores w + k) in
  let failed k := ∀ i, (i < k)%nat → answer i = BackingError in
  let '(w', out) := _r2_reload n w in
  let stopped k := (k < n)%nat ∧ failed k ∧
    restores w' = (restores w + S k)%nat ∧ sleeps w' = sleeps w ++ naps second k in
  match out with
  | Ok r => ∃ k, stopped k ∧ answer k = Restored r.2
  | Err (Uncaught exn) => ∃ k, stopped k ∧ answer k = BackingRaises exn
  | Err e => e = RecoveryError BACKING_UNREACHABLE ∧ failed n ∧
      restores w' = (restores w + n)%nat ∧ sleeps w' = sleeps w ++ naps second (n - 1)
  end.
Proof.
  unfold _r2_reload. rewrite (stm_bind_eq read_clock _ _ _ _ eq_refl).
  pose proof (r2_loop_retries (clock E (clock_reads w)) second n
    (World (fsm w) (S (clock_reads w)) (restores w) (probes w) (sleeps w))) as Hr.
  by destruct (r2_loop _ _ _ _) as [w' out].
Qed.
End workflow.

(** ** Concrete runs *)

(** One failing restore, a probe that connects at once, a clock that advances
    a tenth of a second per reading. *)
Definition env1 : env := {|
  clock n := Z.of_nat n * 100000;
  restore_latest n := if Nat.eqb n 0 then BackingError else Restored true;
  probe_socket _ := Ok (true, u "spiffe://wakir.dev/org/p1");
  supervisor _ := Ok true;
  wall_clock _ := u "2026-05-15T14:30:00Z";
|}.

Definition world_in (s : str) : world := World (Machine (u "p1") (u "org") s []) 0 0 0 [].

Definition run1 : world * result recovery_error RecoveryResult :=
  run env1 true false false None (world_in (u "uninstantiated")).

Definition result1 : RecoveryResult :=
  ok_or (MkResult CRASH_DETECTED [] 0 [] false) (snd run1).

Lemma run_within_budget_witness :
  foldr Z.add 0 (elapsed_sec <$> phases result1) ≤ RECOVERY_BUDGET_SECONDS * second ∧
  Forall (λ p, 0 ≤ elapsed_sec p) (phases result1).
Proof.
  apply (run_within_budget env1 true false false None (world_in (u "uninstantiated"))
           (fst run1)).
  - intros i j Hij. cbn. lia.
  - vm_compute. reflexivity.
Defined.

(** A run that starts in "despawning" (the state of the DespawnMidOperation
    trigger) reports success without the lifecycle reaching "running". *)
Example recovery_leaves_despawning :
  let r := ok_or (MkResult CRASH_DETECTED [] 0 [] false)
             (run env1 false true false None (world_in (u "despawning"))).2 in
  success r = true ∧ final_state r = u "despawning".
Proof. vm_compute. done. Qed.

(** The same world with another backing. *)
Definition with_backing (answer : nat → backing_answer) : env :=
  Env (clock env1) answer (probe_socket env1) (supervisor env1) (wall_clock env1).

(** A stored snapshot that does not parse ends the run with the [ValueError] of
    the backing, at the first attempt, and not with SNAPSHOT_CORRUPT. *)
Example corrupt_snapshot_unclassified :
  let '(w, r) := run (with_backing (λ _, BackingRaises (u "ValueError"))) true false false None
                   (world_in (u "uninstantiated")) in
  r = Err (Uncaught (u "ValueError")) ∧ restores w = 1%nat ∧ sleeps w = [].
Proof. by vm_compute. Qed.

(** A backing that is down: three attempts with naps of one and two seconds; the
    nap of four seconds does not happen. *)
Example two_naps :
  let '(w, r) := run (with_backing (λ _, BackingError)) true false false None
                   (world_in (u "uninstantiated")) in
  r = Err (RecoveryError BACKING_UNREACHABLE) ∧ restores w = 3%nat ∧
  sleeps w = [1 * second; 2 * second].
Proof. by vm_compute. Qed.
End Recovery.
