(* ===== verification/PyTime.v ===== *)
(** * Python's [datetime]

    A [datetime] is aware (with a time zone) or naive; its value is counted in
    microseconds since the epoch, for an aware one after conversion to UTC.
    Ordering an aware against a naive one raises [TypeError], here [None].
    The file also renders a time as the runtime's RFC 3339 text. *)

From S2P Require Import Prelude PyStr.
From Stdlib Require Import ZArith Lia DecimalPos.

Open Scope Z_scope.

Inductive datetime : Type :=
| Aware (us : Z)
| Naive (us : Z).

#[export] Instance datetime_eq_dec : EqDecision datetime.
Proof. solve_decision. Defined.

(** [d.tzinfo is None] *)
Definition is_naive (d : datetime) : bool :=
  match d with Naive _ => true | Aware _ => false end.

(** [a < b]; [a >= b] is its negation. *)
Definition dt_lt (a b : datetime) : option bool :=
  match a, b with
  | Aware x, Aware y | Naive x, Naive y => Some (x <? y)
  | _, _ => None
  end.

(** [a == b] never raises. *)
Definition dt_eqb (a b : datetime) : bool := bool_decide (a = b).

(** ** Calendar *)

(** Year, month and day of a day count since 1970-01-01 in the proleptic
    Gregorian calendar; the count is shifted so that years start in March and
    400-year eras align. *)
Definition civil_from_days (days : Z) : Z * Z * Z :=
  let z := days + 719468 in
  let era := z / 146097 in
  let doe := z - era * 146097 in
  let yoe := (doe - doe / 1460 + doe / 36524 - doe / 146096) / 365 in
  let doy := doe - (365 * yoe + yoe / 4 - yoe / 100) in
  let mp := (5 * doy + 2) / 153 in
  let d := doy - (153 * mp + 2) / 5 + 1 in
  let m := if mp <? 10 then mp + 3 else mp - 9 in
  (yoe + era * 400 + (if m <=? 2 then 1 else 0), m, d).

Definition pad (width : nat) (n : Z) : str :=
  let t := int_repr n in replicate (width - length t) 48 ++ t.

(** [strftime("%Y-%m-%dT%H:%M:%S.%f")] in UTC; the C library does not pad [%Y]. *)
Definition strftime_us (us : Z) : str :=
  let secs := us / 1000000 in
  let '(y, m, d) := civil_from_days (secs / 86400) in
  let s := secs `mod` 86400 in
  int_repr y ++ u "-" ++ pad 2 m ++ u "-" ++ pad 2 d ++ u "T" ++
  pad 2 (s / 3600) ++ u ":" ++ pad 2 ((s / 60) `mod` 60) ++ u ":" ++
  pad 2 (s `mod` 60) ++ u "." ++ pad 6 (us `mod` 1000000).

(** [s.rstrip(c)] for one character *)
Definition rstrip (c : Z) (s : str) : str :=
  reverse ((fix go l := match l with
                        | x :: l' => if x =? c then go l' else l
                        | [] => []
                        end) (reverse s)).

(** The runtime's text of an aware time: fraction without trailing zeros. *)
Definition rfc3339_text (us : Z) : str :=
  rstrip 46 (rstrip 48 (strftime_us us)) ++ u "Z".

Example rfc3339_whole : rfc3339_text 1778086800000000 = u "2026-05-06T17:00:00Z".
Proof. vm_compute. reflexivity. Qed.
Example rfc3339_fraction : rfc3339_text 951782399120000 = u "2000-02-28T23:59:59.12Z".
Proof. vm_compute. reflexivity. Qed.

(** [s.replace(c, t)] for one character *)
Definition replace1 (c : Z) (t s : str) : str :=
  s ≫= λ x, if x =? c then t else [x].

(** The text is printable ASCII. *)
Definition ascii_text (s : str) : Prop := Forall (λ c, 32 ≤ c < 127) s.

Lemma ascii_app a b : ascii_text a → ascii_text b → ascii_text (a ++ b).
Proof. intros. by apply Forall_app. Qed.

Lemma ascii_pad w n : ascii_text (pad w n).
Proof.
  unfold pad, ascii_text. apply Forall_app. split.
  - apply Forall_replicate. lia.
  - eapply Forall_impl; [apply int_repr_numchars|]. unfold is_numchar. simpl. lia.
Qed.

Lemma ascii_int n : ascii_text (int_repr n).
Proof.
  eapply Forall_impl; [apply int_repr_numchars|]. unfold is_numchar. simpl. lia.
Qed.

Lemma ascii_rstrip c s : ascii_text s → ascii_text (rstrip c s).
Proof.
  unfold rstrip, ascii_text. intros Hs. apply Forall_reverse.
  assert (Forall (λ c, 32 ≤ c < 127) (reverse s)) as Hr by (by apply Forall_reverse).
  induction Hr as [|x l Hx Hl IH]; [constructor|]. destruct (x =? c); [done|].
  by constructor.
Qed.

Lemma ascii_cons c s : 32 ≤ c < 127 → ascii_text s → ascii_text (c :: s).
Proof. intros. by constructor. Qed.

Lemma ascii_text_lit s : forallb (λ c, (32 <=? c) && (c <? 127)) s = true → ascii_text s.
Proof.
  intros Hs. apply Forall_forall. intros c Hc. rewrite forallb_forall in Hs.
  apply list_elem_of_In, Hs in Hc. propify. lia.
Qed.

Lemma ascii_rfc3339 us : ascii_text (rfc3339_text us).
Proof.
  unfold rfc3339_text. apply Forall_app. split; [|by apply ascii_text_lit].
  apply ascii_rstrip, ascii_rstrip. unfold strftime_us.
  destruct (civil_from_days _) as [[y m] d].
  repeat first [apply ascii_pad|apply ascii_int|apply ascii_app|by apply ascii_text_lit].
Qed.

(** ** [isoformat] *)

(** [isoformat()] in UTC of a date, a second of the day and a microsecond; the
    fraction is left out when it is zero. *)
Definition iso_fraction (f : Z) : str := if f =? 0 then [] else 46 :: pad 6 f.

Definition iso_text (date : Z * Z * Z) (s f : Z) : str :=
  let '(y, m, d) := date in
  pad 4 y ++ 45 :: pad 2 m ++ 45 :: pad 2 d ++ 84 ::
  pad 2 (s / 3600) ++ 58 :: pad 2 ((s / 60) `mod` 60) ++ 58 ::
  pad 2 (s `mod` 60) ++ iso_fraction f ++ u "+00:00".

Definition isoformat_utc (us : Z) : str :=
  iso_text (civil_from_days (us / 1000000 / 86400)) ((us / 1000000) `mod` 86400)
    (us `mod` 1000000).

Example isoformat_whole : isoformat_utc 1778086800000000 = u "2026-05-06T17:00:00+00:00".
Proof. vm_compute. reflexivity. Qed.
Example isoformat_fraction :
  isoformat_utc 951782399120000 = u "2000-02-28T23:59:59.120000+00:00".
Proof. vm_compute. reflexivity. Qed.

(** The instants a [datetime] can hold: years 1 to 9999. *)
Definition in_datetime_range (us : Z) : Prop :=
  -62135596800000000 ≤ us < 253402300800000000.

(** [astimezone(timezone.utc)] of an aware time and the addition of a
    [timedelta] raise OverflowError beyond the calendar. *)
Definition in_calendar (us : Z) : bool :=
  (-62135596800000000 <=? us) && (us <? 253402300800000000).

Lemma in_calendar_iff us : in_calendar us = true ↔ in_datetime_range us.
Proof. unfold in_calendar, in_datetime_range. propify. lia. Qed.

(** The day count of a civil date, the inverse of [civil_from_days]. *)
Definition days_from_civil (y m d : Z) : Z :=
  let y := if m <=? 2 then y - 1 else y in
  let era := y / 400 in
  let yoe := y - era * 400 in
  let mp := if 2 <? m then m - 3 else m + 9 in
  let doy := (153 * mp + 2) / 5 + d - 1 in
  era * 146097 + yoe * 365 + yoe / 4 - yoe / 100 + doy - 719468.

Section calendar.
Variable doe : Z.
Hypothesis Hdoe : 0 ≤ doe ≤ 146096.
Definition yoe_of : Z := (doe - doe / 1460 + doe / 36524 - doe / 146096) / 365.
Definition doy_of : Z := doe - (365 * yoe_of + yoe_of / 4 - yoe_of / 100).

Lemma yoe_range : 0 ≤ yoe_of ≤ 399.
Proof. unfold yoe_of. divlia. Qed.
Lemma doy_range : 0 ≤ doy_of ≤ 366.
Proof. unfold doy_of. pose proof yoe_range. unfold yoe_of in *. divlia. Qed.
End calendar.

Lemma civil_fields days :
  let '(y, m, d) := civil_from_days days in
  days_from_civil y m d = days ∧ 1 ≤ m ≤ 12 ∧ 1 ≤ d ∧ (-719162 ≤ days → 0 ≤ y).
Proof.
  unfold civil_from_days. set (z := days + 719468). set (era := z / 146097).
  set (doe := z - era * 146097). fold (yoe_of doe). fold (doy_of doe).
  assert (0 ≤ doe ≤ 146096) as Hdoe by (subst doe era; divlia).
  pose proof (yoe_range doe Hdoe). pose proof (doy_range doe Hdoe).
  assert (doe = doy_of doe + 365 * yoe_of doe + yoe_of doe / 4 - yoe_of doe / 100) as Hd
    by (unfold doy_of; lia).
  assert (-719162 ≤ days → 0 ≤ era) as Hera by (subst era z; intros; divlia).
  generalize dependent (yoe_of doe). generalize dependent (doy_of doe).
  intros doy Hdoy yoe Hyoe Hsum. unfold days_from_civil.
  set (mp := (5 * doy + 2) / 153). assert (0 ≤ mp ≤ 11) as Hmp by (subst mp; divlia).
  assert (0 ≤ doy - (153 * mp + 2) / 5) as Hday by (subst mp; divlia).
  destruct (Z.ltb_spec mp 10) as [Hlt|Hge].
  - rewrite (proj2 (Z.leb_gt (mp + 3) 2)), (proj2 (Z.ltb_lt 2 (mp + 3))) by lia.
    replace (mp + 3 - 3) with mp by lia.
    replace ((yoe + era * 400 + 0) / 400) with era by divlia. split_and!; subst z; lia.
  - rewrite (proj2 (Z.leb_le (mp - 9) 2)), (proj2 (Z.ltb_ge 2 (mp - 9))) by lia.
    replace (mp - 9 + 9) with mp by lia.
    replace ((yoe + era * 400 + 1 - 1) / 400) with era by divlia. split_and!; subst z; lia.
Qed.

(** ** The text determines the instant *)

Definition digits (s : str) : Prop := Forall (λ c, 48 ≤ c ≤ 57) s.

Lemma pad_digits w n : 0 ≤ n → digits (pad w n).
Proof.
  intros Hn. unfold pad, digits. apply Forall_app. split; [apply Forall_replicate; lia|].
  unfold int_repr. destruct n; [|apply uint_codes_digits|lia].
  apply (uint_codes_digits (Decimal.D0 Decimal.Nil)).
Qed.

Lemma digits_val_zeros k s : digits_val (replicate k 48 ++ s) = digits_val s.
Proof. unfold digits_val. by induction k. Qed.

Lemma digits_val_pad w n : 0 ≤ n → digits_val (pad w n) = n.
Proof.
  intros Hn. unfold pad. rewrite digits_val_zeros. unfold int_repr.
  destruct n as [|p|p]; [done| |lia]. cbn [Z.to_int]. rewrite digits_val_uint.
  unfold Z.of_uint. by rewrite DecimalPos.Unsigned.of_to.
Qed.

(** Digits up to a character that is not one. *)
Lemma digits_prefix a b c d r1 r2 :
  digits a → digits b → ¬ 48 ≤ c ≤ 57 → ¬ 48 ≤ d ≤ 57 →
  a ++ c :: r1 = b ++ d :: r2 → a = b ∧ c = d ∧ r1 = r2.
Proof.
  intros Ha. revert b. induction Ha as [|x a Hx Ha IH]; intros b Hb Hc Hd E;
    destruct Hb as [|y b Hy Hb]; simplify_eq/=; try done.
  destruct (IH b Hb Hc Hd) as (-> & -> & ->); done.
Qed.

Lemma pad_prefix w n m c d r1 r2 :
  0 ≤ n → 0 ≤ m → ¬ 48 ≤ c ≤ 57 → ¬ 48 ≤ d ≤ 57 →
  pad w n ++ c :: r1 = pad w m ++ d :: r2 → n = m ∧ c = d ∧ r1 = r2.
Proof.
  intros Hn Hm Hc Hd E. apply digits_prefix in E as (E & -> & ->); auto using pad_digits.
  by rewrite <- (digits_val_pad w n Hn), E, digits_val_pad.
Qed.

Lemma iso_fraction_prefix s s' f g :
  0 ≤ s → 0 ≤ s' → 0 ≤ f → 0 ≤ g →
  pad 2 s ++ iso_fraction f ++ u "+00:00" = pad 2 s' ++ iso_fraction g ++ u "+00:00" →
  s = s' ∧ f = g.
Proof.
  intros Hs Hs' Hf Hg. unfold iso_fraction. change (u "+00:00") with (43 :: u "00:00").
  destruct (Z.eqb_spec f 0) as [->|?], (Z.eqb_spec g 0) as [->|?]; cbn [app]; intros E;
    apply pad_prefix in E as (-> & Hc & E); try lia.
  apply pad_prefix in E as (-> & _); [done|lia..].
Qed.

Definition date_ok (x : Z * Z * Z) : Prop := 0 ≤ x.1.1 ∧ 1 ≤ x.1.2 ∧ 1 ≤ x.2.

Lemma iso_text_inj x x' s s' f f' :
  date_ok x → date_ok x' → 0 ≤ s < 86400 → 0 ≤ s' < 86400 → 0 ≤ f → 0 ≤ f' →
  iso_text x s f = iso_text x' s' f' → x = x' ∧ s = s' ∧ f = f'.
Proof.
  destruct x as [[y m] d], x' as [[y' m'] d']. unfold date_ok, iso_text. simpl fst. simpl snd.
  intros (? & ? & ?) (? & ? & ?) Hs Hs' Hf Hf' E.
  apply pad_prefix in E as (-> & _ & E); [|lia..].
  apply pad_prefix in E as (-> & _ & E); [|lia..].
  apply pad_prefix in E as (-> & _ & E); [|lia..].
  apply pad_prefix in E as (Eh & _ & E); [|divlia|divlia|lia|lia].
  apply pad_prefix in E as (Em & _ & E); [|divlia|divlia|lia|lia].
  apply iso_fraction_prefix in E as [Es ->]; [|divlia|divlia|done|done].
  split_and!; [done| |done]. divlia.
Qed.

Lemma civil_date_ok days : -719162 ≤ days → date_ok (civil_from_days days).
Proof.
  intros Hd. pose proof (civil_fields days) as F. unfold date_ok.
  destruct (civil_from_days days) as [[y m] d]. simpl. destruct F as (_ & ? & ? & Hy). lia.
Qed.

Lemma civil_inj a b : civil_from_days a = civil_from_days b → a = b.
Proof.
  intros E. pose proof (civil_fields a) as Fa. pose proof (civil_fields b) as Fb.
  rewrite E in Fa. destruct (civil_from_days b) as [[y m] d].
  destruct Fa as [<- _], Fb as [<- _]. done.
Qed.

Lemma isoformat_inj a b :
  in_datetime_range a → in_datetime_range b → isoformat_utc a = isoformat_utc b → a = b.
Proof.
  unfold in_datetime_range, isoformat_utc. intros Ha Hb E.
  apply iso_text_inj in E as (E%civil_inj & Es & Ef);
    [|apply civil_date_ok; divlia|apply civil_date_ok; divlia|divlia..].
  divlia.
Qed.

Lemma ascii_isoformat us : ascii_text (isoformat_utc us).
Proof.
  unfold isoformat_utc, iso_text, iso_fraction. destruct (civil_from_days _) as [[y m] d].
  repeat first [apply ascii_pad|apply ascii_cons; [lia|]|apply ascii_app|case_match
               |by apply ascii_text_lit].
Qed.
