(* ===== verification/PyTimestamp.v ===== *)
(** * Python's [datetime.timestamp] and [datetime.fromtimestamp]

    The seconds of an aware time as a [float], the difference of two of them,
    and the way back to microseconds.  A finite [float] is a pair of a
    numerator and a positive denominator; each operation rounds its exact
    result to 53 bits, to nearest even.  The numbers that occur are times in
    seconds, far inside the range of normal numbers, so no other case arises.

    The bound: a time less a whole number of seconds is found again to
    60 microseconds, in the whole range of [datetime]. *)

From S2P Require Import Prelude PyTime.
From Stdlib Require Import ZArith Lia QArith Qabs Lqa.

Open Scope Z_scope.

(** [round(n / d)], a tie to the even neighbour. *)
Definition half_even (n d : Z) : Z :=
  let q := n / d in
  let r := 2 * (n `mod` d) in
  if r <? d then q else if d <? r then q + 1 else if Z.even q then q else q + 1.

(** [q * 2 ^ e] *)
Definition scale (q e : Z) : Z * Z := if 0 <=? e then (q * 2 ^ e, 1) else (q, 2 ^ (- e)).

(** [n / d] to 53 bits. *)
Definition to_double (n d : Z) : Z * Z :=
  if n =? 0 then (0, 1)
  else
    let e0 := Z.log2 (Z.abs n) - Z.log2 d in
    let '(p, q) := scale 1 e0 in
    let e := (if Z.abs n * q <? d * p then e0 - 1 else e0) - 52 in
    let '(p, q) := scale 1 e in
    scale (half_even (n * q) (d * p)) e.

(** [a - b] *)
Definition double_sub (a b : Z * Z) : Z * Z := to_double (a.1 * b.2 - b.1 * a.2) (a.2 * b.2).

(** The time in seconds of a time in microseconds. *)
Definition timestamp (us : Z) : Z * Z := to_double us 1000000.

(** [datetime.fromtimestamp(t, tz=timezone.utc)] in microseconds: the fraction
    is multiplied and rounded by itself. *)
Definition fromtimestamp (t : Z * Z) : Z :=
  let i := Z.quot t.1 t.2 in
  let '(a, b) := to_double ((t.1 - i * t.2) * 1000000) t.2 in
  i * 1000000 + half_even a b.

Example half_microsecond : fromtimestamp (to_double 25 10000000) = 2.
Proof. by vm_compute. Qed.
Example last_microsecond : fromtimestamp (timestamp 253402300799999999) = 253402300800000000.
Proof. by vm_compute. Qed.
Example before_epoch : fromtimestamp (timestamp (-1500001)) = -1500001.
Proof. by vm_compute. Qed.

(** ** Errors of rounding *)

Lemma half_even_error n d : 0 < d → 2 * Z.abs (half_even n d * d - n) ≤ d.
Proof.
  intros Hd. unfold half_even. pose proof (Z.div_mod n d ltac:(lia)). pose proof (Z.mod_pos_bound n d Hd).
  repeat case_match; propify; nia.
Qed.

Lemma scale_pos e : 0 < (scale 1 e).1 ∧ 0 < (scale 1 e).2.
Proof. unfold scale. case_match; cbn [fst snd]; propify; split; try lia; apply Z.pow_pos_nonneg; lia. Qed.

Lemma scale_eq q e : scale q e = (q * (scale 1 e).1, (scale 1 e).2).
Proof. unfold scale. case_match; cbn [fst snd]; f_equal; lia. Qed.

(** [2 ^ (e + k) = 2 ^ e * 2 ^ k] as a cross product. *)
Lemma scale_add e k : 0 ≤ k → (scale 1 (e + k)).1 * (scale 1 e).2 = 2 ^ k * (scale 1 e).1 * (scale 1 (e + k)).2.
Proof.
  intros Hk. unfold scale. destruct (Z.leb_spec 0 (e + k)), (Z.leb_spec 0 e); cbn [fst snd]; try lia.
  - rewrite Z.pow_add_r by lia. lia.
  - replace (2 ^ k) with (2 ^ (e + k) * 2 ^ (- e)); [lia|]. rewrite <- Z.pow_add_r by lia. f_equal. lia.
  - replace (2 ^ (- e)) with (2 ^ k * 2 ^ (- (e + k))); [lia|]. rewrite <- Z.pow_add_r by lia. f_equal. lia.
Qed.

(** The exponent that [to_double] finds is not too large. *)
Lemma exponent_low a d :
  0 < a → 0 < d → let e := Z.log2 a - Z.log2 d - 1 in d * (scale 1 e).1 ≤ a * (scale 1 e).2.
Proof.
  intros Ha Hd e. pose proof (Z.log2_spec a Ha) as [Ha1 _]. pose proof (Z.log2_spec d Hd) as [_ Hd2].
  pose proof (Z.log2_nonneg a). pose proof (Z.log2_nonneg d). unfold scale.
  destruct (Z.leb_spec 0 e) as [He|He]; cbn [fst snd].
  - assert (2 ^ Z.succ (Z.log2 d) * 2 ^ e = 2 ^ Z.log2 a) as E.
    { rewrite <- Z.pow_add_r by lia. f_equal. lia. }
    assert (0 < 2 ^ e) by (apply Z.pow_pos_nonneg; lia). nia.
  - assert (2 ^ Z.log2 a * 2 ^ (- e) = 2 ^ Z.succ (Z.log2 d)) as E.
    { rewrite <- Z.pow_add_r by lia. f_equal. lia. }
    assert (0 < 2 ^ (- e)) by (apply Z.pow_pos_nonneg; lia). nia.
Qed.

Lemma to_double_error n d :
  0 < d → let '(N, D) := to_double n d in 0 < D ∧ 2 ^ 53 * Z.abs (N * d - n * D) ≤ Z.abs n * D.
Proof.
  intros Hd. unfold to_double. destruct (Z.eqb_spec n 0) as [->|Hn]; [lia|].
  set (e0 := Z.log2 (Z.abs n) - Z.log2 d).
  destruct (scale 1 e0) as [p0 q0] eqn:E0.
  set (e1 := if Z.abs n * q0 <? d * p0 then e0 - 1 else e0).
  assert (d * (scale 1 e1).1 ≤ Z.abs n * (scale 1 e1).2) as Hlow.
  { unfold e1. case_match; propify; [by apply exponent_low; lia|]. rewrite E0. cbn. lia. }
  pose proof (scale_add (e1 - 52) 52 ltac:(lia)) as Hadd. replace (e1 - 52 + 52) with e1 in Hadd by lia.
  pose proof (scale_pos e1) as [HP HQ]. pose proof (scale_pos (e1 - 52)) as [Hp Hq].
  destruct (scale 1 (e1 - 52)) as [p q] eqn:Es. rewrite scale_eq, Es.
  destruct (scale 1 e1) as [P Q]. cbn [fst snd] in *.
  pose proof (half_even_error (n * q) (d * p) ltac:(nia)) as He.
  set (h := half_even (n * q) (d * p)) in *. cbv beta iota. split; [done|].
  replace (h * p * d - n * q) with (h * (d * p) - n * q) by lia.
  change (2 ^ 53) with (2 * 2 ^ 52). change (2 ^ 52) with 4503599627370496 in *.
  assert (4503599627370496 * (d * p) ≤ Z.abs n * q); [|nia].
  enough (4503599627370496 * (d * p) * Q ≤ Z.abs n * q * Q) by nia.
  replace (4503599627370496 * (d * p) * Q) with (d * (P * q)) by nia. nia.
Qed.

Section rational.
#[local] Open Scope Q_scope.

Definition value (t : Z * Z) : Q := t.1 # Z.to_pos t.2.
Definition is_double (t : Z * Z) : Prop := (0 < t.2)%Z.

Lemma inject_nonzero d : (0 < d)%Z → ~ inject_Z d == 0.
Proof. intros Hd E. change 0 with (inject_Z 0) in E. apply (inject_Z_injective d 0) in E. lia. Qed.

Lemma value_eq n d : (0 < d)%Z → value (n, d) == inject_Z n / inject_Z d.
Proof. destruct d as [|d|]; try done. intros _. unfold value. cbn. by rewrite <- Qmake_Qdiv. Qed.

(** Two bounds instead of an absolute value. *)
Definition near (x y e : Q) : Prop := x - y <= e /\ y - x <= e.

Lemma to_double_near n d B :
  (0 < d)%Z → (Z.abs n <= B * d)%Z →
  is_double (to_double n d) /\ near (value (to_double n d)) (value (n, d)) (inject_Z B * (1 # 2 ^ 53)).
Proof.
  intros Hd HB. pose proof (to_double_error n d Hd) as E. destruct (to_double n d) as [N D].
  destruct E as [HD E]. split; [done|]. destruct d as [|d|], D as [|D|]; try done.
  unfold near, value, Qminus, Qplus, Qopp, Qmult, Qle, inject_Z. cbn [fst snd Z.to_pos Qnum Qden].
  change (Z.pos (1 * 2 ^ 53)) with (2 ^ 53)%Z. rewrite !Pos2Z.inj_mul.
  assert (2 ^ 53 * Z.abs (N * Z.pos d - n * Z.pos D) <= B * Z.pos d * Z.pos D)%Z by nia. split; nia.
Qed.

Lemma half_even_near a b : (0 < b)%Z → near (inject_Z (half_even a b)) (value (a, b)) (1 # 2).
Proof.
  intros Hb. pose proof (half_even_error a b Hb) as E. destruct b as [|b|]; try done.
  unfold near, value, Qminus, Qplus, Qopp, Qle, inject_Z. cbn [fst snd Z.to_pos Qnum Qden].
  rewrite !Pos2Z.inj_mul. split; lia.
Qed.
Lemma quot_rem_value t : is_double t →
  let i := Z.quot t.1 t.2 in
  inject_Z i + value ((t.1 - i * t.2)%Z, t.2) == value t /\ (Z.abs (t.1 - i * t.2) < t.2)%Z.
Proof.
  intros Ht i. unfold is_double in Ht. pose proof (Z.quot_rem' t.1 t.2) as E. pose proof (Z.rem_bound_abs t.1 t.2 ltac:(lia)) as Hb.
  fold i in E. split; [|lia]. destruct t as [n d]. cbn [fst snd] in *. clearbody i.
  rewrite !value_eq by done. unfold Z.sub. rewrite inject_Z_plus, inject_Z_opp, inject_Z_mult.
  field. by apply inject_nonzero.
Qed.

Lemma value_scale k n d : (0 < d)%Z → value ((n * k)%Z, d) == value (n, d) * inject_Z k.
Proof. intros Hd. rewrite !value_eq by done. rewrite inject_Z_mult. unfold Qdiv. ring. Qed.

Lemma fromtimestamp_near t :
  is_double t → near (inject_Z (fromtimestamp t)) (value t * 1000000) (501 # 1000).
Proof.
  intros Ht. pose proof (quot_rem_value t Ht) as [Hq Hr]. unfold fromtimestamp.
  set (i := Z.quot t.1 t.2) in *. set (f := (t.1 - i * t.2)%Z) in *.
  pose proof (to_double_near (f * 1000000) t.2 1000000 Ht ltac:(nia)) as [Hd Hn].
  destruct (to_double (f * 1000000) t.2) as [a b]. pose proof (half_even_near a b Hd) as Hh.
  unfold near in *. rewrite (value_scale 1000000 f t.2 Ht) in Hn.
  rewrite inject_Z_plus, inject_Z_mult, <- Hq. change (inject_Z 1000000) with 1000000 in *.
  change (1 # 2 ^ 53) with (1 # 9007199254740992) in *. lra.
Qed.

Lemma double_sub_value a b :
  is_double a → is_double b →
  (0 < a.2 * b.2)%Z /\ value ((a.1 * b.2 - b.1 * a.2)%Z, (a.2 * b.2)%Z) == value a - value b.
Proof.
  unfold is_double. intros Ha Hb. split; [nia|]. destruct a as [n d], b as [m e]. cbn [fst snd] in *.
  rewrite !value_eq by nia. unfold Z.sub. rewrite inject_Z_plus, inject_Z_opp, !inject_Z_mult.
  field. split; by apply inject_nonzero.
Qed.

Lemma value_bound n d B : (0 < d)%Z → near (value (n, d)) 0 (inject_Z B) → (Z.abs n <= B * d)%Z.
Proof.
  destruct d as [|d|]; try done. unfold near, value, Qminus, Qplus, Qopp, Qle, inject_Z.
  cbn [fst snd Z.to_pos Qnum Qden]. intros _ [? ?]. lia.
Qed.

(** A time less a whole number of seconds, computed in floats, is right to
    60 microseconds. *)
Lemma minus_seconds_near us m :
  in_calendar us = true → (0 < m <= 1000000000)%Z →
  (Z.abs (fromtimestamp (double_sub (timestamp us) (to_double m 1)) - (us - m * 1000000)) <= 60)%Z.
Proof.
  rewrite in_calendar_iff. unfold in_datetime_range. intros Hus Hm.
  pose proof (to_double_near us 1000000 253402300800 ltac:(lia) ltac:(lia)) as [Hx Hxn].
  pose proof (to_double_near m 1 1000000000 ltac:(lia) ltac:(lia)) as [Hy Hyn].
  change (to_double us 1000000) with (timestamp us) in *. unfold double_sub.
  destruct (double_sub_value _ _ Hx Hy) as [Hp Hv].
  set (x := timestamp us) in *. set (y := to_double m 1) in *.
  assert (value (us, 1000000%Z) * 1000000 == inject_Z us) as Eus.
  { rewrite value_eq by done. change (inject_Z 1000000) with 1000000. field. }
  assert (value (m, 1%Z) == inject_Z m) as Em.
  { rewrite value_eq by done. change (inject_Z 1) with 1. field. }
  assert (inject_Z us <= 253402300800000000 /\ -62135596800000000 <= inject_Z us) as [Hu1 Hu2].
  { change 253402300800000000 with (inject_Z 253402300800000000).
    change (-62135596800000000) with (inject_Z (-62135596800000000)). rewrite <- !Zle_Qle. lia. }
  assert (0 <= inject_Z m /\ inject_Z m <= 1000000000) as [Hm1 Hm2].
  { change 1000000000 with (inject_Z 1000000000). change 0 with (inject_Z 0). rewrite <- !Zle_Qle. lia. }
  assert (near (value ((x.1 * y.2 - y.1 * x.2)%Z, (x.2 * y.2)%Z)) 0 (inject_Z 254402400801)) as Hb.
  { unfold near in *. rewrite Hv. change (1 # 2 ^ 53) with (1 # 9007199254740992) in *.
    change (inject_Z 253402300800) with 253402300800 in *. change (inject_Z 1000000000) with 1000000000 in *.
    change (inject_Z 254402400801) with 254402400801. lra. }
  destruct (to_double_near _ _ _ Hp (value_bound _ _ _ Hp Hb)) as [Hc Hcn].
  pose proof (fromtimestamp_near _ Hc) as Hf.
  set (c := to_double (_ - _) _) in *. set (T := fromtimestamp c) in *.
  assert (near (inject_Z T) (inject_Z us - inject_Z m * 1000000) 60) as [H1 H2].
  { unfold near in *. rewrite Hv in Hcn. change (1 # 2 ^ 53) with (1 # 9007199254740992) in *.
    change (inject_Z 253402300800) with 253402300800 in *. change (inject_Z 1000000000) with 1000000000 in *.
    change (inject_Z 254402400801) with 254402400801 in *. lra. }
  change 60 with (inject_Z 60) in *. change 1000000 with (inject_Z 1000000) in *.
  unfold Qminus in *. rewrite <- inject_Z_mult, <- !inject_Z_opp, <- !inject_Z_plus, <- ?inject_Z_opp, <- ?inject_Z_plus in *.
  rewrite <- !Zle_Qle in *. lia.
Qed.
End rational.
