(* ===== verification/PyIso.v ===== *)
(** * The standard library's [datetime.fromisoformat]

    The reader of CPython 3.11, on the UTF-8 bytes of the text as the C code
    has it: the place of the separator, the date (calendar or ISO week), the
    time with its permissive fractions, and the offset.  The result is an
    aware or a naive time in microseconds.

    The lemmas: it reads back what [isoformat] and the runtime's RFC 3339
    writers print. *)

From S2P Require Import Prelude PyStr PyTime.
From Stdlib Require Import ZArith Lia.

Open Scope Z_scope.

(** ** Reading digits *)

(** [p[i]]; the text ends with a NUL byte. *)
Definition at_ (s : list Z) (i : nat) : Z := default 0 (s !! i).

(** [parse_digits]: exactly [n] digits at [i]. *)
Definition digits_at (s : list Z) (i n : nat) : option Z :=
  let t := take n (drop i s) in
  if Nat.eqb (length t) n && forallb is_digit t then Some (digits_val t) else None.

(** ** Separator *)

Definition separator_location (s : list Z) : option nat :=
  let n := length s in
  if Nat.eqb n 7 then Some 7%nat
  else if at_ s 4 =? 45 then
    if at_ s 5 =? 87 then
      if Nat.ltb 8 n && (at_ s 8 =? 45) then
        if Nat.eqb n 9 then None
        else if Nat.ltb 10 n && is_digit (at_ s 10) then Some 8%nat
        else Some 10%nat
      else Some 8%nat
    else Some 10%nat
  else if at_ s 4 =? 87 then
    let pos := (7 + length (span is_digit (drop 7 s)).1)%nat in
    if Nat.ltb pos 9 then Some pos
    else if Nat.even pos then Some 7%nat else Some 8%nat
  else Some 8%nat.

(** ** Dates *)

Definition is_leap (y : Z) : bool :=
  (y `mod` 4 =? 0) && (negb (y `mod` 100 =? 0) || (y `mod` 400 =? 0)).

Definition days_in_month (y m : Z) : Z :=
  if m =? 2 then if is_leap y then 29 else 28
  else if bool_decide (m ∈ [4; 6; 9; 11]) then 30 else 31.

(** Monday is 0. *)
Definition weekday (days : Z) : Z := (days + 3) `mod` 7.

(** [iso_to_ymd] *)
Definition iso_to_ymd (y week day : Z) : option (Z * Z * Z) :=
  let jan1 := days_from_civil y 1 1 in
  let first := weekday jan1 in
  let week_53 := (week =? 53) && ((first =? 3) || ((first =? 2) && is_leap y)) in
  if ((week <=? 0) || (53 <=? week)) && negb week_53 then None
  else if (day <=? 0) || (8 <=? day) then None
  else
    let week1 := jan1 - first + (if 3 <? first then 7 else 0) in
    Some (civil_from_days (week1 + (week - 1) * 7 + day - 1)).

(** The byte at [i] is a dash, where dashes are used. *)
Definition dash (uses : bool) (s : list Z) (i : nat) : option nat :=
  if uses then if at_ s i =? 45 then Some (S i) else None else Some i.

Definition parse_date (s : list Z) (sep : nat) : option (Z * Z * Z) :=
  y ← digits_at s 0 4;
  let uses := at_ s 4 =? 45 in
  let i := if uses then 5%nat else 4%nat in
  if at_ s i =? 87 then
    w ← digits_at s (S i) 2;
    let i := (i + 3)%nat in
    if Nat.ltb i sep then
      i ← dash uses s i; d ← digits_at s i 1; iso_to_ymd y w d
    else iso_to_ymd y w 1
  else
    m ← digits_at s i 2;
    i ← dash uses s (i + 2)%nat;
    d ← digits_at s i 2;
    Some (y, m, d).

(** ** Times *)

Definition hms : Type := Z * Z * Z * Z.

(** The fraction from [p] on: up to six digits count, more are skipped; the
    flag tells that something is left. *)
Definition parse_fraction (s : list Z) (p stop : nat) : option (Z * bool) :=
  let n := Nat.min 6 (stop - p) in
  f ← digits_at s p n;
  let rest := (span is_digit (drop (p + n) s)).2 in
  Some (f * 10 ^ (6 - Z.of_nat n), negb (at_ rest 0 =? 0)).

(** [parse_hh_mm_ss_ff] between [p] and [stop].  [left] fields remain, [colons]
    tells that the fields are separated; the first separator decides. *)
Fixpoint parse_fields (left : nat) (colons : option bool) (s : list Z) (p stop : nat)
    : option (list Z * Z * bool) :=
  match left with
  | O => '(f, more) ← parse_fraction s p stop; Some ([], f, more)
  | S left' =>
      v ← digits_at s p 2;
      let c := at_ s (p + 2) in
      let p := (p + 3)%nat in
      let colons := default (c =? 58) colons in
      if Nat.leb stop p then Some ([v], 0, negb (c =? 0))
      else if colons && (c =? 58) then
        '(vs, f, more) ← parse_fields left' (Some colons) s p stop; Some (v :: vs, f, more)
      else if (c =? 46) || (c =? 44) then
        '(f, more) ← parse_fraction s p stop; Some ([v], f, more)
      else if negb colons then
        '(vs, f, more) ← parse_fields left' (Some colons) s (p - 1)%nat stop;
        Some (v :: vs, f, more)
      else None
  end.

Definition field (vs : list Z) (i : nat) : Z := default 0 (vs !! i).

Definition parse_hh_mm_ss_ff (s : list Z) (p stop : nat) : option (hms * bool) :=
  '(vs, f, more) ← parse_fields 3 None s p stop;
  Some ((field vs 0, field vs 1, field vs 2, f), more).

Definition is_tz (c : Z) : bool := (c =? 43) || (c =? 45) || (c =? 90).

(** The offset in seconds and microseconds. *)
Definition parse_time (s : list Z) : option (hms * option (Z * Z)) :=
  let n := length s in
  let t := length (span (λ c, negb (is_tz c)) s).1 in
  if Nat.eqb n 0 then None else
  '(v, more) ← parse_hh_mm_ss_ff s 0 t;
  if Nat.eqb t n then if (more : bool) then None else Some (v, None)
  else if at_ s t =? 90 then
    if at_ s (S t) =? 0 then Some (v, Some (0, 0)) else None
  else
    let sign := if at_ s t =? 45 then -1 else 1 in
    '((h, m, sec, us), more) ← parse_hh_mm_ss_ff s (S t) n;
    if (more : bool) then None
    else Some (v, Some (sign * (h * 3600 + m * 60 + sec), sign * us)).

(** ** The whole text *)

Definition is_surrogate (c : Z) : bool := in_range 0xD800 0xDFFF c.

(** One surrogate is allowed, as the separator. *)
Definition sanitize (s : str) : str :=
  match filter (λ i, (i < length s)%nat ∧ is_surrogate (default 0 (s !! i)) = true)
          [7%nat; 8%nat; 10%nat] with
  | i :: _ => <[i := 84]> s
  | [] => s
  end.

(** The bytes of a separator that starts with this byte. *)
Definition separator_length (c : Z) : nat :=
  if c <? 128 then 1
  else if c / 16 =? 14 then 3
  else if c / 16 =? 15 then 4
  else 2.

Definition valid_date (d : Z * Z * Z) : bool :=
  let '(y, m, d) := d in
  in_range 1 9999 y && in_range 1 12 m && in_range 1 (days_in_month y m) d.

Definition wall_clock (d : Z * Z * Z) (t : hms) : Z :=
  let '(y, m, d) := d in
  let '(h, mi, s, us) := t in
  (((days_from_civil y m d * 24 + h) * 60 + mi) * 60 + s) * 1000000 + us.

(** An offset of zero seconds is UTC, whatever its microseconds. *)
Definition tz_offset (tz : Z * Z) : option Z :=
  if tz.1 =? 0 then Some 0
  else
    let us := tz.1 * 1000000 + tz.2 in
    if (-86400000000 <? us) && (us <? 86400000000) then Some us else None.

Definition make_datetime (d : Z * Z * Z) (t : hms) (tz : option (Z * Z)) : option datetime :=
  let '(h, mi, s, _) := t in
  if valid_date d && (h <? 24) && (mi <? 60) && (s <? 60) then
    match tz with
    | None => Some (Naive (wall_clock d t))
    | Some tz => off ← tz_offset tz; Some (Aware (wall_clock d t - off))
    end
  else None.

Definition fromisoformat (text : str) : option datetime :=
  if Nat.ltb (length text) 7 then None else
  s ← utf8_units (sanitize text);
  sep ← separator_location s;
  d ← parse_date s sep;
  if Nat.leb (length s) sep then make_datetime d (0, 0, 0, 0) None
  else
    '(t, tz) ← parse_time (drop (sep + separator_length (at_ s sep)) s);
    make_datetime d t tz.

(** ** Reading what is printed *)

Lemma length_pad w n : 0 ≤ n < 10 ^ Z.of_nat w → (1 ≤ w)%nat → length (pad w n) = w.
Proof.
  intros Hn Hw. unfold pad. rewrite length_app, length_replicate.
  destruct (Z.eq_dec n 0) as [->|Hz]; [cbn; lia|].
  destruct (int_repr_bound n) as [Hlo _]; [lia|].
  assert (length (int_repr n) ≤ w)%nat; [|lia].
  apply Nat2Z.inj_le. apply Z.nlt_ge. intros Hgt.
  pose proof (Z.pow_le_mono_r 10 (Z.of_nat w) (Z.of_nat (length (int_repr n)) - 1)). lia.
Qed.

Lemma int_repr_pad w n :
  (1 ≤ w)%nat → 10 ^ (Z.of_nat w - 1) ≤ n → int_repr n = pad w n.
Proof.
  intros Hw Hn. unfold pad.
  assert (0 < n) as Hpos by (pose proof (Z.pow_pos_nonneg 10 (Z.of_nat w - 1)); lia).
  destruct (int_repr_bound n Hpos) as [_ Hhi].
  assert (w ≤ length (int_repr n))%nat as Hle.
  { apply Nat2Z.inj_le. apply Z.nlt_ge. intros Hgt.
    pose proof (Z.pow_le_mono_r 10 (Z.of_nat (length (int_repr n))) (Z.of_nat w - 1)). lia. }
  by rewrite (proj2 (Nat.sub_0_le w (length (int_repr n)))).
Qed.

Lemma digits_forallb s : digits s → forallb is_digit s = true.
Proof.
  intros Hs. apply forallb_forall. intros c Hc%list_elem_of_In.
  unfold digits in Hs. rewrite Forall_forall in Hs. specialize (Hs c Hc).
  unfold is_digit, in_range. apply andb_true_iff. rewrite !Z.leb_le. lia.
Qed.

Lemma digits_at_app pre d post i n :
  digits d → length pre = i → length d = n →
  digits_at (pre ++ d ++ post) i n = Some (digits_val d).
Proof.
  intros Hd <- <-. unfold digits_at. rewrite drop_app_length, take_app_length.
  by rewrite Nat.eqb_refl, digits_forallb.
Qed.

Lemma at_app (pre post : list Z) c i : length pre = i → at_ (pre ++ c :: post) i = c.
Proof. intros <-. unfold at_. by rewrite list_lookup_middle. Qed.

Lemma utf8_units_ascii s : ascii_text s → utf8_units s = Some s.
Proof.
  induction 1 as [|c s Hc _ IH]; [done|]. cbn [utf8_units]. unfold utf8_char.
  rewrite (proj2 (Z.ltb_ge c 0)), (proj2 (Z.ltb_ge 0x10FFFF c)),
    (proj2 (Z.ltb_lt c 0x80)) by lia.
  cbn. by rewrite IH.
Qed.

Lemma sanitize_ascii s : ascii_text s → sanitize s = s.
Proof.
  intros Hs. unfold sanitize.
  assert (∀ i, ¬ ((i < length s)%nat ∧ is_surrogate (default 0 (s !! i)) = true)) as Hno.
  { intros i [_ Hi]. unfold is_surrogate, in_range in Hi. propify.
    destruct (s !! i) as [c|] eqn:E; simpl in *; [|lia].
    unfold ascii_text in Hs. rewrite Forall_lookup in Hs. specialize (Hs i c E). simpl in Hs. lia. }
  by rewrite !filter_cons_False by done.
Qed.

(** The digits of a padded number, one by one. *)
Lemma pad_2 n :
  0 ≤ n < 100 → ∃ a b, pad 2 n = [a; b] ∧ is_digit a = true ∧ is_digit b = true ∧
    digits_val [a; b] = n.
Proof.
  intros Hn. pose proof (length_pad 2 n Hn) as Hl. pose proof (digits_val_pad 2 n) as Hv.
  pose proof (digits_forallb (pad 2 n)) as Hd. specialize (Hd (pad_digits 2 n ltac:(lia))).
  destruct (pad 2 n) as [|a [|b [|]]]; try (specialize (Hl ltac:(lia)); discriminate).
  exists a, b. cbn in Hd. rewrite !andb_true_iff in Hd. split_and!; naive_solver lia.
Qed.

Lemma pad_4 n :
  0 ≤ n < 10000 → ∃ a b c d, pad 4 n = [a; b; c; d] ∧
    forallb is_digit [a; b; c; d] = true ∧ digits_val [a; b; c; d] = n.
Proof.
  intros Hn. pose proof (length_pad 4 n Hn) as Hl. pose proof (digits_val_pad 4 n) as Hv.
  pose proof (digits_forallb (pad 4 n)) as Hd. specialize (Hd (pad_digits 4 n ltac:(lia))).
  destruct (pad 4 n) as [|a [|b [|c [|d [|]]]]]; try (specialize (Hl ltac:(lia)); discriminate).
  exists a, b, c, d. split_and!; [done|done|by apply Hv; lia].
Qed.

Lemma digit_not c x : is_digit c = true → is_digit x = false → (c =? x) = false.
Proof. intros Hc Hx. apply Z.eqb_neq. intros ->. congruence. Qed.

(** A date, [T], a time, and the rest. *)
Definition date_text (y m d : Z) : str := pad 4 y ++ 45 :: pad 2 m ++ 45 :: pad 2 d.
Definition time_text (h mi s : Z) : str := pad 2 h ++ 58 :: pad 2 mi ++ 58 :: pad 2 s.

Lemma read_date y m d rest s :
  0 ≤ y < 10000 → 0 ≤ m < 100 → 0 ≤ d < 100 → s = date_text y m d ++ 84 :: rest →
  separator_location s = Some 10%nat ∧ parse_date s 10 = Some (y, m, d) ∧
  drop (10 + separator_length (at_ s 10)) s = rest ∧ Nat.leb (length s) 10 = false.
Proof.
  intros Hy Hm Hd ->. unfold date_text.
  destruct (pad_4 y Hy) as (a & b & c & e & -> & Dy & Vy).
  destruct (pad_2 m Hm) as (m1 & m2 & -> & Dm1 & Dm2 & Vm).
  destruct (pad_2 d Hd) as (d1 & d2 & -> & Dd1 & Dd2 & Vd).
  pose proof (digit_not m1 87 Dm1 eq_refl) as E5.
  split_and!; [|unfold parse_date, digits_at, dash|done|done].
  - unfold separator_location. cbn -[Z.eqb Nat.ltb is_digit]. by rewrite E5.
  - cbn [app drop take length Nat.eqb andb]. rewrite Dy. cbn [andb mbind option_bind].
    change (at_ _ 4) with 45. cbn [Z.eqb Pos.eqb Nat.add].
    change (at_ (_ :: _) 5) with m1. rewrite E5.
    cbn [drop take length Nat.eqb andb forallb]. rewrite Dm1, Dm2.
    cbn [andb mbind option_bind Z.eqb Pos.eqb]. change (at_ _ 7) with 45.
    cbn [Z.eqb Pos.eqb mbind option_bind drop take length Nat.eqb andb forallb].
    rewrite Dd1, Dd2. cbn [andb mbind option_bind].
    by rewrite Vy, Vm, Vd.
Qed.

(** A fraction of one to six digits, and its microseconds. *)
Definition fraction (frac : str) (f : Z) : Prop :=
  (frac = [] ∧ f = 0) ∨
  ∃ ds, frac = 46 :: ds ∧ digits ds ∧ (1 ≤ length ds ≤ 6)%nat ∧
    f = digits_val ds * 10 ^ (6 - Z.of_nat (length ds)).

Lemma read_fraction pre frac f t rest :
  fraction frac f → frac ≠ [] → is_digit t = false → t ≠ 0 →
  parse_fraction (pre ++ frac ++ t :: rest) (S (length pre)) (length (pre ++ frac)) =
    Some (f, true).
Proof.
  intros [[-> _]|(ds & -> & Hds & Hlen & ->)] Hne Ht Hz; [done|].
  unfold parse_fraction. rewrite length_app. cbn [length].
  replace (Nat.min 6 (length pre + S (length ds) - S (length pre))) with (length ds) by lia.
  replace (pre ++ (46 :: ds) ++ t :: rest) with ((pre ++ [46]) ++ ds ++ t :: rest)
    by (by rewrite <- !app_assoc).
  replace (S (length pre)) with (length (pre ++ [46])) by (rewrite length_app; cbn; lia).
  rewrite digits_at_app by done. cbn [mbind option_bind].
  rewrite app_assoc, <- length_app, drop_app_length. cbn [span]. rewrite Ht. cbn [snd].
  change (at_ (t :: rest) 0) with t. by rewrite (proj2 (Z.eqb_neq t 0)).
Qed.

Lemma time_text_chars h mi s :
  0 ≤ h < 100 → 0 ≤ mi < 100 → 0 ≤ s < 100 →
  ∃ a b c d e f, time_text h mi s = [a; b; 58; c; d; 58; e; f] ∧
    forallb is_digit [a; b; c; d; e; f] = true ∧
    digits_val [a; b] = h ∧ digits_val [c; d] = mi ∧ digits_val [e; f] = s.
Proof.
  intros Hh Hm Hs. unfold time_text.
  destruct (pad_2 h Hh) as (a & b & -> & ? & ? & ?), (pad_2 mi Hm) as (c & d & -> & ? & ? & ?),
    (pad_2 s Hs) as (e & f & -> & ? & ? & ?).
  exists a, b, c, d, e, f. split_and!; try done.
  cbn [forallb]. by rewrite !andb_true_iff.
Qed.

(** The time before a sign. *)
Lemma read_hms h mi s frac f t rest :
  0 ≤ h < 100 → 0 ≤ mi < 100 → 0 ≤ s < 100 → fraction frac f →
  is_digit t = false → t ≠ 0 →
  parse_hh_mm_ss_ff (time_text h mi s ++ frac ++ t :: rest) 0
    (length (time_text h mi s ++ frac)) = Some ((h, mi, s, f), true).
Proof.
  intros Hh Hm Hs Hf Ht Hz.
  pose proof (λ N, read_fraction (time_text h mi s) frac f t rest Hf N Ht Hz) as Hr.
  destruct (time_text_chars h mi s Hh Hm Hs) as (a & b & c & d & e & g & E & D & <- & <- & <-).
  rewrite E in *. cbn [forallb] in D. rewrite !andb_true_iff in D.
  destruct D as (Da & Db & Dc & Dd & De & Dg & _).
  unfold parse_hh_mm_ss_ff. cbn [parse_fields]. unfold digits_at.
  cbn [app drop take length Nat.eqb forallb andb Nat.add].
  rewrite Da, Db, Dc, Dd, De, Dg. cbn [andb mbind option_bind].
  change (at_ _ 2) with 58. change (at_ _ 5) with 58. cbn [default Z.eqb Pos.eqb andb Nat.leb].
  destruct Hf as [[-> ->]|(ds & -> & Hds & Hlen & ->)].
  - cbn [app length Nat.leb mbind option_bind]. change (at_ _ 8) with t.
    by rewrite (proj2 (Z.eqb_neq t 0)).
  - specialize (Hr ltac:(done)). cbn [app length] in *. change (at_ _ 8) with 46.
    destruct ds as [|x ds]; [cbn in Hlen; lia|].
    cbn [length app Nat.leb Z.eqb Pos.eqb andb orb] in *. rewrite Hr. done.
Qed.

(** *** Dates of the calendar *)

(** The 366th day of a March-based year is the leap day of the next year. *)
Lemma doy_leap doe :
  0 ≤ doe ≤ 146096 →
  doy_of doe ≤ 365 ∧
  (doy_of doe = 365 → (yoe_of doe + 1) `mod` 4 = 0 ∧
     ((yoe_of doe + 1) `mod` 100 = 0 → yoe_of doe = 399)).
Proof.
  intros Hdoe. pose proof (yoe_range doe Hdoe) as Hy. unfold doy_of.
  unfold yoe_of in *. split; [divlia|]. intros Hd. split; [divlia|intros; divlia].
Qed.

Lemma leap_next_year yoe era :
  (yoe + 1) `mod` 4 = 0 → ((yoe + 1) `mod` 100 = 0 → yoe = 399) →
  is_leap (yoe + era * 400 + 1) = true.
Proof.
  intros H4 H100. unfold is_leap.
  assert ((yoe + era * 400 + 1) `mod` 4 = 0) as -> by divlia.
  destruct (Z.eqb_spec ((yoe + era * 400 + 1) `mod` 100) 0) as [E|_]; [|done].
  rewrite (H100 ltac:(divlia)).
  by assert ((399 + era * 400 + 1) `mod` 400 = 0) as -> by divlia.
Qed.

Lemma civil_valid days :
  -719162 ≤ days < 2932897 → valid_date (civil_from_days days) = true.
Proof.
  intros Hdays. unfold civil_from_days.
  set (z := days + 719468). set (era := z / 146097). set (doe := z - era * 146097).
  fold (yoe_of doe). fold (doy_of doe).
  assert (0 ≤ doe ≤ 146096) as Hdoe by (subst doe era; divlia).
  pose proof (yoe_range doe Hdoe). pose proof (doy_range doe Hdoe).
  destruct (doy_leap doe Hdoe) as [Hdoy Hleap].
  assert (doe = doy_of doe + 365 * yoe_of doe + yoe_of doe / 4 - yoe_of doe / 100) as Hd
    by (unfold doy_of; lia).
  assert (z = doe + era * 146097) as Hz by (subst doe; lia). subst z. clearbody era doe.
  generalize dependent (yoe_of doe). generalize dependent (doy_of doe).
  intros doy Hdoy0 Hdoy yoe Hyoe Hleap Hsum.
  set (mp := (5 * doy + 2) / 153). assert (0 ≤ mp ≤ 11) as Hmp by (subst mp; divlia).
  unfold valid_date, in_range. rewrite !andb_true_iff, !Z.leb_le.
  assert (1 ≤ doy - (153 * mp + 2) / 5 + 1) as Hlo by (subst mp; divlia).
  destruct (Z.ltb_spec mp 10) as [Hlt|Hge].
  - rewrite (proj2 (Z.leb_gt (mp + 3) 2)) by lia. split_and!; try divlia.
    unfold days_in_month. rewrite (proj2 (Z.eqb_neq (mp + 3) 2)) by lia.
    case_bool_decide as Hm; [|subst mp; divlia].
    rewrite !elem_of_cons, elem_of_nil in Hm. subst mp. divlia.
  - rewrite (proj2 (Z.leb_le (mp - 9) 2)) by lia. split_and!; try divlia.
    unfold days_in_month. destruct (Z.eqb_spec (mp - 9) 2) as [E|E].
    + destruct (decide (doy = 365)) as [->|Hne].
      * destruct Hleap as [? ?]; [done|]. rewrite leap_next_year by done. divlia.
      * destruct (is_leap _); subst mp; divlia.
    + case_bool_decide as Hm; [|subst mp; divlia].
      rewrite !elem_of_cons, elem_of_nil in Hm. lia.
Qed.

(** *** The printed texts *)

Lemma time_text_no_tz h mi s :
  0 ≤ h < 100 → 0 ≤ mi < 100 → 0 ≤ s < 100 →
  forallb (λ c, negb (is_tz c)) (time_text h mi s) = true ∧ length (time_text h mi s) = 8%nat.
Proof.
  intros Hh Hm Hs. destruct (time_text_chars h mi s Hh Hm Hs) as
    (a & b & c & d & e & g & -> & D & _). split; [|done].
  assert (∀ c, is_digit c = true → is_tz c = false) as Hd.
  { intros x Hx. unfold is_tz. by rewrite !(digit_not x) by done. }
  cbn [forallb] in *. rewrite !andb_true_iff in D. destruct D as (?&?&?&?&?&?&_).
  by rewrite (Hd a), (Hd b), (Hd c), (Hd d), (Hd e), (Hd g) by done.
Qed.

Lemma fraction_no_tz frac f :
  fraction frac f → forallb (λ c, negb (is_tz c)) frac = true.
Proof.
  intros [[-> _]|(ds & -> & Hds%digits_forallb & _)]; [done|]. cbn [forallb andb].
  apply forallb_forall. intros c Hc. rewrite forallb_forall in Hds. specialize (Hds c Hc).
  unfold is_tz. by rewrite !(digit_not c) by done.
Qed.

(** Text before the start does not matter. *)
Lemma digits_at_shift pre s p n : digits_at (pre ++ s) (length pre + p) n = digits_at s p n.
Proof. unfold digits_at. by rewrite drop_app_add. Qed.

Lemma at_shift pre s p : at_ (pre ++ s) (length pre + p) = at_ s p.
Proof.
  unfold at_. rewrite lookup_app_r by lia.
  by replace (length pre + p - length pre)%nat with p by lia.
Qed.

Lemma parse_fraction_shift pre s p stop :
  parse_fraction (pre ++ s) (length pre + p) (length pre + stop) = parse_fraction s p stop.
Proof.
  unfold parse_fraction. rewrite digits_at_shift.
  replace (length pre + stop - (length pre + p))%nat with (stop - p)%nat by lia.
  by rewrite <- Nat.add_assoc, drop_app_add.
Qed.

Lemma parse_fields_shift pre s n colons p stop :
  parse_fields n colons (pre ++ s) (length pre + p) (length pre + stop) =
  parse_fields n colons s p stop.
Proof.
  revert colons p. induction n as [|n IH]; intros colons p; cbn [parse_fields].
  { by rewrite parse_fraction_shift. }
  rewrite digits_at_shift, <- !Nat.add_assoc, at_shift.
  destruct (digits_at s p 2) as [v|]; cbn [mbind option_bind]; [|done].
  replace (Nat.leb (length pre + stop) (length pre + (p + 3))) with (Nat.leb stop (p + 3))
    by (apply eq_true_iff_eq; rewrite !Nat.leb_le; lia).
  replace (length pre + (p + 3) - 1)%nat with (length pre + (p + 3 - 1))%nat by lia.
  by rewrite parse_fraction_shift, !IH.
Qed.

Lemma read_time h mi s frac f :
  0 ≤ h < 100 → 0 ≤ mi < 100 → 0 ≤ s < 100 → fraction frac f →
  parse_time (time_text h mi s ++ frac ++ u "+00:00") = Some ((h, mi, s, f), Some (0, 0)).
Proof.
  intros Hh Hm Hs Hf. change (u "+00:00") with (43 :: u "00:00").
  destruct (time_text_no_tz h mi s Hh Hm Hs) as [Ht Hl].
  unfold parse_time. rewrite app_assoc, span_app.
  2:{ by rewrite forallb_app, Ht, (fraction_no_tz _ _ Hf). }
  2:{ by intros c t [= <- <-]. }
  cbn [fst]. pose proof (read_hms h mi s frac f 43 (u "00:00") Hh Hm Hs Hf) as Hr.
  rewrite <- app_assoc, Hr by done. rewrite (app_assoc _ frac).
  set (p := time_text h mi s ++ frac) in *.
  rewrite length_app. cbn [length app]. rewrite (proj2 (Nat.eqb_neq _ 0)) by (cbn; lia).
  cbn [mbind option_bind]. rewrite (proj2 (Nat.eqb_neq _ _)) by (cbn; lia).
  rewrite at_app by done. cbn [Z.eqb Pos.eqb].
  unfold parse_hh_mm_ss_ff.
  replace (p ++ 43 :: u "00:00") with ((p ++ [43]) ++ u "00:00") by (by rewrite <- app_assoc).
  pose proof (parse_fields_shift (p ++ [43]) (u "00:00") 3 None 0 5) as Hz.
  rewrite length_app in Hz. cbn [length] in Hz.
  replace (length p + 1 + 0)%nat with (S (length p)) in Hz by lia.
  replace (length p + S (length (u "00:00")))%nat with (length p + 1 + 5)%nat by (change (length (u "00:00")) with 5%nat; lia).
  rewrite Hz. done.
Qed.

Lemma date_time_ascii y m d h mi s frac f :
  fraction frac f →
  ascii_text (date_text y m d ++ 84 :: time_text h mi s ++ frac ++ u "+00:00").
Proof.
  intros Hf. unfold date_text, time_text.
  assert (ascii_text frac) as Hfr.
  { destruct Hf as [[-> _]|(ds & -> & Hds & _)]; [constructor|].
    apply ascii_cons; [lia|]. eapply Forall_impl; [exact Hds|]. simpl. lia. }
  repeat first [apply ascii_pad|exact Hfr|apply ascii_cons; [lia|]|apply ascii_app
               |by apply ascii_text_lit].
Qed.

Lemma fromisoformat_text days sec frac f y m d :
  -719162 ≤ days < 2932897 → 0 ≤ sec < 86400 → fraction frac f →
  civil_from_days days = (y, m, d) →
  fromisoformat (date_text y m d ++ 84 ::
      time_text (sec / 3600) ((sec / 60) `mod` 60) (sec `mod` 60) ++ frac ++ u "+00:00") =
    Some (Aware ((days * 86400 + sec) * 1000000 + f)).
Proof.
  intros Hdays Hsec Hf Hc. pose proof (civil_valid days Hdays) as Hv.
  pose proof (civil_fields days) as Hfields. rewrite Hc in Hv, Hfields.
  destruct Hfields as (Hinv & Hm & Hd & _).
  assert (1 ≤ y ≤ 9999 ∧ d ≤ 99) as [Hy Hd'].
  { unfold valid_date, in_range in Hv. rewrite !andb_true_iff, !Z.leb_le in Hv.
    assert (days_in_month y m ≤ 31); [|lia].
    unfold days_in_month. repeat case_match; lia. }
  pose proof (date_time_ascii y m d (sec / 3600) ((sec / 60) `mod` 60) (sec `mod` 60)
    frac f Hf) as Ha.
  set (text := date_text y m d ++ 84 :: _) in *.
  destruct (read_date y m d (time_text (sec / 3600) ((sec / 60) `mod` 60) (sec `mod` 60) ++
    frac ++ u "+00:00") text) as (Hs & Hp & Hr & Hl); [lia..|done|].
  unfold fromisoformat. rewrite sanitize_ascii, utf8_units_ascii by done.
  rewrite (proj2 (Nat.ltb_ge _ 7)) by (apply Nat.leb_gt in Hl; lia).
  cbn [mbind option_bind]. rewrite Hs. cbn [mbind option_bind]. rewrite Hp.
  cbn [mbind option_bind]. rewrite Hl, Hr, (read_time _ _ _ frac f) by (divlia || done).
  cbn [mbind option_bind]. unfold make_datetime. rewrite Hv. cbn [andb].
  rewrite (proj2 (Z.ltb_lt (sec / 3600) 24)), (proj2 (Z.ltb_lt ((sec / 60) `mod` 60) 60)),
    (proj2 (Z.ltb_lt (sec `mod` 60) 60)) by divlia.
  cbn [andb tz_offset fst Z.eqb mbind option_bind]. unfold wall_clock. rewrite Hinv.
  do 2 f_equal. divlia.
Qed.

Lemma fraction_pad f : 0 ≤ f < 1000000 → fraction (iso_fraction f) f.
Proof.
  intros Hf. unfold iso_fraction, fraction. destruct (Z.eqb_spec f 0) as [->|Hne]; [by left|].
  right. exists (pad 6 f). pose proof (length_pad 6 f Hf ltac:(lia)) as Hl.
  split_and!; [done|apply pad_digits; lia|lia|lia|].
  rewrite Hl, digits_val_pad by lia. cbn. lia.
Qed.

(** [fromisoformat] reads what [isoformat] prints. *)
Lemma fromisoformat_isoformat us :
  in_datetime_range us → fromisoformat (isoformat_utc us) = Some (Aware us).
Proof.
  unfold in_datetime_range. intros Hus. unfold isoformat_utc.
  destruct (civil_from_days _) as [[y m] d] eqn:Ec.
  pose proof (fromisoformat_text (us / 1000000 / 86400) ((us / 1000000) `mod` 86400)
    (iso_fraction (us `mod` 1000000)) (us `mod` 1000000) y m d) as Ht.
  unfold date_text, time_text in Ht. unfold iso_text.
  repeat (rewrite <- app_assoc in Ht || rewrite <- app_comm_cons in Ht).
  rewrite Ht; [|divlia|divlia|apply fraction_pad; divlia|done].
  do 2 f_equal. divlia.
Qed.

(** *** Fractions without trailing zeros *)

Lemma rstrip_strip (c : Z) (t : str) k : last t ≠ Some c → rstrip c (t ++ replicate k c) = t.
Proof.
  intros Ht. unfold rstrip. rewrite reverse_app, reverse_replicate.
  induction k as [|k IH]; cbn [replicate app].
  - destruct t as [|x t _] using rev_ind; [done|]. rewrite last_snoc in Ht.
    rewrite reverse_snoc. rewrite (proj2 (Z.eqb_neq x c)) by congruence.
    by rewrite <- reverse_snoc, reverse_involutive.
  - by rewrite Z.eqb_refl.
Qed.

Lemma rstrip_split (c : Z) (s : str) : ∃ (t : str) k, s = t ++ replicate k c ∧ last t ≠ Some c.
Proof.
  induction s as [|x s (t & k & -> & Ht)] using rev_ind.
  { exists [], 0%nat. done. }
  destruct (Z.eq_dec x c) as [->|Hx].
  - exists t, (S k). split; [|done]. by rewrite <- app_assoc, <- replicate_cons_app.
  - exists ((t ++ replicate k c) ++ [x]), 0%nat.
    rewrite app_nil_r, last_snoc. split; [done|]. congruence.
Qed.

Lemma digits_val_replicate s k :
  digits_val (s ++ replicate k 48) = digits_val s * 10 ^ Z.of_nat k.
Proof.
  induction k as [|k IH]; cbn [replicate]; [rewrite app_nil_r; lia|].
  rewrite replicate_cons_app, app_assoc. unfold digits_val in *.
  rewrite foldl_app, IH, Nat2Z.inj_succ, Z.pow_succ_r by lia. cbn [foldl]. lia.
Qed.

(** The two [rstrip] calls leave a fraction of the same value. *)
Lemma rstrip_fraction (a : str) f :
  last a ≠ Some 46 → 0 ≤ f < 1000000 →
  ∃ frac, rstrip 46 (rstrip 48 (a ++ 46 :: pad 6 f)) = a ++ frac ∧ fraction frac f.
Proof.
  intros Ha Hf. pose proof (length_pad 6 f Hf ltac:(lia)) as Hl.
  pose proof (pad_digits 6 f ltac:(lia)) as Hd. pose proof (digits_val_pad 6 f ltac:(lia)) as Hv.
  destruct (rstrip_split 48 (pad 6 f)) as (ds & k & E & Hlast). rewrite E in *.
  rewrite length_app, length_replicate in Hl. rewrite digits_val_replicate in Hv.
  apply Forall_app in Hd as [Hd _].
  assert (rstrip 48 (a ++ 46 :: ds ++ replicate k 48) = a ++ 46 :: ds) as ->.
  { change (46 :: ds ++ replicate k 48) with ((46 :: ds) ++ replicate k 48).
    rewrite app_assoc. apply rstrip_strip. rewrite last_app_cons.
    destruct ds as [|x ds]; [done|]. by rewrite last_cons_cons. }
  destruct ds as [|x ds].
  - exists []. split; [|left; split; [done|]; by rewrite <- Hv].
    rewrite app_nil_r. by apply (rstrip_strip 46 a 1).
  - exists (46 :: x :: ds). split.
    + rewrite <- (app_nil_r (a ++ _)) at 1. apply (rstrip_strip 46 _ 0).
      rewrite last_app_cons, last_cons_cons.
      intros Hx%last_Some_elem_of. unfold digits in Hd. rewrite Forall_forall in Hd.
      specialize (Hd _ Hx). simpl in Hd. lia.
    + right. exists (x :: ds). cbn [length] in *. split_and!; [done|done|lia|lia|].
      rewrite <- Hv. do 2 f_equal. lia.
Qed.

(** The years from 1000 on, whose [%Y] has four digits. *)
Definition in_rfc3339_range (us : Z) : Prop :=
  -30610224000000000 ≤ us < 253402300800000000.

Lemma civil_year_1000 days y m d :
  -354285 ≤ days → civil_from_days days = (y, m, d) → valid_date (y, m, d) = true → 1000 ≤ y.
Proof.
  intros Hdays Hc Hv. pose proof (civil_fields days) as Hf. rewrite Hc in Hf.
  destruct Hf as (Hinv & Hm & Hd & _).
  unfold valid_date, in_range in Hv. rewrite !andb_true_iff, !Z.leb_le in Hv.
  assert (days_in_month y m ≤ 31) by (unfold days_in_month; repeat case_match; lia).
  unfold days_from_civil in Hinv.
  destruct (Z.leb_spec m 2), (Z.ltb_spec 2 m); try lia; divlia.
Qed.

Lemma replace1_notin c t s : c ∉ s → replace1 c t s = s.
Proof.
  unfold replace1. induction s as [|x s IH]; [done|].
  rewrite not_elem_of_cons. intros [Hx Hs]. cbn.
  rewrite (proj2 (Z.eqb_neq x c)) by congruence. cbn. f_equal. by apply IH.
Qed.

Lemma digits_notin c s : digits s → is_digit c = false → c ∉ s.
Proof.
  intros Hs%digits_forallb Hc Hin%list_elem_of_In. rewrite forallb_forall in Hs.
  specialize (Hs c Hin). congruence.
Qed.

Lemma pad_notin c w n : 0 ≤ n → is_digit c = false → c ∉ pad w n.
Proof. intros. apply digits_notin; [by apply pad_digits|done]. Qed.

Lemma last_time_text h mi s : 0 ≤ s < 100 → last (time_text h mi s) ≠ Some 46.
Proof.
  intros Hs. destruct (pad_2 s Hs) as (a & b & E & _ & Db & _).
  unfold time_text. rewrite E, last_app_cons, last_cons.
  rewrite last_app_cons, !last_cons. cbn. intros [= ->]. done.
Qed.

(** [fromisoformat] reads the runtime's RFC 3339 text. *)
Lemma fromisoformat_rfc3339 us :
  in_rfc3339_range us →
  fromisoformat (replace1 90 (u "+00:00") (rfc3339_text us)) = Some (Aware us).
Proof.
  unfold in_rfc3339_range. intros Hus. unfold rfc3339_text, strftime_us.
  set (days := us / 1000000 / 86400). set (sec := (us / 1000000) `mod` 86400).
  assert (0 ≤ sec < 86400) as Hsec by (subst sec; divlia).
  assert (-354285 ≤ days < 2932897) as Hdays by (subst days; divlia).
  pose proof (civil_valid days ltac:(lia)) as Hv.
  destruct (civil_from_days days) as [[y m] d] eqn:Ec.
  pose proof (civil_year_1000 _ _ _ _ (proj1 Hdays) Ec Hv) as Hy.
  pose proof (civil_fields days) as Hfd. rewrite Ec in Hfd. destruct Hfd as (_ & Hm & Hd & _).
  rewrite (int_repr_pad 4 y) by (cbn; lia).
  set (h := sec / 3600). set (mi := (sec / 60) `mod` 60). set (s := sec `mod` 60).
  assert (0 ≤ h ∧ 0 ≤ mi ∧ 0 ≤ s < 100) as (Hh & Hmi & Hs) by (subst h mi s; divlia).
  set (a := date_text y m d ++ 84 :: time_text h mi s).
  match goal with |- context [rstrip 48 ?t] =>
    replace t with (a ++ 46 :: pad 6 (us `mod` 1000000)) end.
  2:{ subst a. unfold date_text, time_text.
      repeat (rewrite <- app_assoc || rewrite <- app_comm_cons). done. }
  destruct (rstrip_fraction a (us `mod` 1000000)) as (frac & -> & Hf); [|divlia|].
  { subst a. rewrite last_app_cons. unfold time_text. intros Hl.
    apply (last_time_text h mi s Hs). unfold time_text. rewrite last_cons in Hl.
    revert Hl. by destruct (last (pad 2 h ++ _)). }
  assert (90 ∉ a ++ frac) as Hz.
  { rewrite not_elem_of_app. split.
    - subst a. unfold date_text, time_text.
      rewrite ?not_elem_of_app, ?not_elem_of_cons, ?not_elem_of_app, ?not_elem_of_cons,
        ?not_elem_of_app, ?not_elem_of_cons, ?not_elem_of_app, ?not_elem_of_cons.
      split_and!; try done; apply pad_notin; (lia || done).
    - destruct Hf as [[-> _]|(ds & -> & Hds & _)]; [apply not_elem_of_nil|].
      apply not_elem_of_cons. split; [done|]. by apply digits_notin. }
  unfold replace1. rewrite bind_app. fold (replace1 90 (u "+00:00") (a ++ frac)).
  rewrite replace1_notin by done. subst a.
  pose proof (fromisoformat_text days sec frac (us `mod` 1000000) y m d) as Ht.
  fold h mi s in Ht.
  repeat (rewrite <- app_assoc || rewrite <- app_comm_cons).
  change (_ ≫= _) with (u "+00:00" : str).
  repeat (rewrite <- app_assoc in Ht || rewrite <- app_comm_cons in Ht).
  rewrite Ht; [|lia|lia|done|done]. do 2 f_equal. subst days sec. divlia.
Qed.
