(* ===== verification/PyHour.v ===== *)
(** * Hour labels: [strftime] and [strptime] with the format [%Y-%m-%dT%H]

    [strptime] builds a regular expression from the format, matches it at the
    start of the text, refuses what is left over and then checks the date.  Of
    the alternatives of a field the first that matches decides: every field is
    followed by a separator, and a shorter alternative would put a digit where
    the separator has to be.  [None] is [ValueError].

    The lemmas: a printed label reads back as the start of its hour. *)

From S2P Require Import Prelude PyStr PyFloat PyJson PyRepr PyTime PyIso.
From Stdlib Require Import ZArith Lia.

Open Scope Z_scope.

(** ** Printing *)

(** The C library does not pad [%Y]. *)
Definition strftime_hour (us : Z) : str :=
  let secs := us / 1000000 in
  let '(y, m, d) := civil_from_days (secs / 86400) in
  int_repr y ++ 45 :: pad 2 m ++ 45 :: pad 2 d ++ 84 :: pad 2 (secs `mod` 86400 / 3600).

(** ** Reading *)

(** [\d] *)
Definition decimal (s : str) : option (Z * str) :=
  match s with
  | c :: s' => v ← decimal_value c; Some (v, s')
  | [] => None
  end.

(** One character of a range of ASCII digits. *)
Definition digit_in (lo hi : Z) (s : str) : option (Z * str) :=
  match s with
  | c :: s' => if in_range lo hi (c - 48) then Some (c - 48, s') else None
  | [] => None
  end.

(** Two digits, as one alternative of a field. *)
Definition two (tens units : str → option (Z * str)) (s : str) : option (Z * str) :=
  '(a, s1) ← tens s; '(b, s2) ← units s1; Some (10 * a + b, s2).

Fixpoint first_of (alts : list (str → option (Z * str))) (s : str) : option (Z * str) :=
  match alts with
  | [] => None
  | p :: alts' => match p s with Some x => Some x | None => first_of alts' s end
  end.

(** [%Y] is [\d\d\d\d] *)
Definition directive_Y (s : str) : option (Z * str) :=
  '(a, s1) ← two decimal decimal s; '(b, s2) ← two decimal decimal s1; Some (100 * a + b, s2).

(** [%m] is [1[0-2]|0[1-9]|[1-9]] *)
Definition directive_m : str → option (Z * str) :=
  first_of [two (digit_in 1 1) (digit_in 0 2); two (digit_in 0 0) (digit_in 1 9); digit_in 1 9].

(** A space in front of a digit. *)
Definition space_digit (s : str) : option (Z * str) :=
  match s with c :: s' => if c =? 32 then digit_in 1 9 s' else None | [] => None end.

(** [%d] is [3[0-1]|[1-2]\d|0[1-9]|[1-9]| [1-9]] *)
Definition directive_d : str → option (Z * str) :=
  first_of [two (digit_in 3 3) (digit_in 0 1); two (digit_in 1 2) decimal;
            two (digit_in 0 0) (digit_in 1 9); digit_in 1 9; space_digit].

(** [%H] is [2[0-3]|[0-1]\d|\d] *)
Definition directive_H : str → option (Z * str) :=
  first_of [two (digit_in 2 2) (digit_in 0 3); two (digit_in 0 1) decimal; decimal].

(** A literal of the format; letters match in both cases. *)
Definition literal (cs : str) (s : str) : option str :=
  match s with c :: s' => if one_of cs c then Some s' else None | [] => None end.

(** The start of the hour, in microseconds, without a time zone. *)
Definition strptime_hour (s : str) : option Z :=
  '(y, s) ← directive_Y s; s ← literal [45] s;
  '(m, s) ← directive_m s; s ← literal [45] s;
  '(d, s) ← directive_d s; s ← literal [84; 116] s;
  '(h, s) ← directive_H s;
  match s with
  | [] =>
      if valid_date (y, m, d)
      then Some ((days_from_civil y m d * 24 + h) * 3600000000)
      else None
  | _ => None
  end.

(** ** Reading what is printed *)

Lemma decimal_digit c s : is_digit c = true → decimal (c :: s) = Some (c - 48, s).
Proof. intros H. cbn [decimal]. by rewrite decimal_ascii. Qed.

Section fields.
Context (s : str).

(** A field of a date has few values: each is read in turn. *)
Ltac each_value lo count :=
  match goal with |- ?f (pad 2 ?n ++ s) = _ =>
    assert (Forall (λ n, f (pad 2 n ++ s) = Some (n, s)) (seqZ lo count)) as Hall
      by (repeat constructor);
    rewrite Forall_forall in Hall; apply Hall, elem_of_seqZ; lia
  end.

Lemma read_m n : 1 ≤ n ≤ 12 → directive_m (pad 2 n ++ s) = Some (n, s).
Proof. intros Hn. each_value 1 12. Qed.

Lemma read_d n : 1 ≤ n ≤ 31 → directive_d (pad 2 n ++ s) = Some (n, s).
Proof. intros Hn. each_value 1 31. Qed.

Lemma read_H n : 0 ≤ n < 24 → directive_H (pad 2 n ++ s) = Some (n, s).
Proof. intros Hn. each_value 0 24. Qed.

Lemma read_Y n : 0 ≤ n < 10000 → directive_Y (pad 4 n ++ s) = Some (n, s).
Proof.
  intros Hn. destruct (pad_4 n Hn) as (a & b & c & d & -> & Hd & <-).
  cbn in Hd. rewrite !andb_true_iff in Hd. destruct Hd as (Ha & Hb & Hc & He & _).
  unfold directive_Y, two. cbn [app].
  do 4 (rewrite decimal_digit by done; cbn [mbind option_bind]).
  do 2 f_equal. cbn. lia.
Qed.
End fields.

Lemma literal_hit cs c s : one_of cs c = true → literal cs (c :: s) = Some s.
Proof. intros H. cbn [literal]. by rewrite H. Qed.

(** The start of the hour of a time. *)
Definition hour_start (us : Z) : Z := us - us `mod` 3600000000.

(** A printed label is a date, a [T] and an hour. *)
Lemma strftime_hour_eq us y m d :
  in_rfc3339_range us → civil_from_days (us / 1000000 / 86400) = (y, m, d) →
  1000 ≤ y < 10000 ∧ valid_date (y, m, d) = true ∧
  strftime_hour us = date_text y m d ++ 84 :: pad 2 ((us / 1000000) `mod` 86400 / 3600).
Proof.
  unfold in_rfc3339_range. intros Hus Ec.
  assert (-354285 ≤ us / 1000000 / 86400 < 2932897) as Hd by divlia.
  pose proof (civil_valid (us / 1000000 / 86400) ltac:(lia)) as Hv. rewrite Ec in Hv.
  pose proof (civil_year_1000 _ _ _ _ (proj1 Hd) Ec Hv) as Hy.
  assert (y < 10000) as Hy'.
  { unfold valid_date, in_range in Hv. rewrite !andb_true_iff, !Z.leb_le in Hv. lia. }
  split_and!; [done|done|done|]. unfold strftime_hour, date_text. rewrite Ec.
  rewrite (int_repr_pad 4 y) by (cbn; lia).
  repeat (rewrite <- app_assoc || rewrite <- app_comm_cons). done.
Qed.

(** Reading a label gives the start of its hour. *)
Lemma strptime_strftime us :
  in_rfc3339_range us → strptime_hour (strftime_hour us) = Some (hour_start us).
Proof.
  intros Hus. destruct (civil_from_days (us / 1000000 / 86400)) as [[y m] d] eqn:Ec.
  destruct (strftime_hour_eq us y m d Hus Ec) as (Hy & Hv & ->).
  pose proof (civil_fields (us / 1000000 / 86400)) as Hf. rewrite Ec in Hf.
  destruct Hf as (Hinv & Hm & Hd & _).
  set (h := (us / 1000000) `mod` 86400 / 3600). assert (0 ≤ h < 24) by (subst h; divlia).
  unfold date_text. repeat (rewrite <- app_assoc || rewrite <- app_comm_cons).
  rewrite <- (app_nil_r (pad 2 h)). unfold strptime_hour.
  assert (d ≤ 31).
  { unfold valid_date, in_range in Hv. rewrite !andb_true_iff, !Z.leb_le in Hv.
    assert (days_in_month y m ≤ 31) by (unfold days_in_month; repeat case_match; lia). lia. }
  rewrite read_Y by lia. cbn [mbind option_bind].
  rewrite (literal_hit [45] 45) by done. cbn [mbind option_bind].
  rewrite read_m by lia. cbn [mbind option_bind].
  rewrite (literal_hit [45] 45) by done. cbn [mbind option_bind].
  rewrite read_d by lia. cbn [mbind option_bind].
  rewrite (literal_hit [84; 116] 84) by done. cbn [mbind option_bind].
  rewrite read_H by lia. cbn [mbind option_bind].
  rewrite Hv, Hinv. f_equal. subst h. unfold hour_start. divlia.
Qed.

Example strptime_loose : strptime_hour (u "2026-5- 6t1") = strptime_hour (u "2026-05-06T01").
Proof. vm_compute. reflexivity. Qed.

Example strptime_left_over : strptime_hour (u "2026-05-06T24") = None.
Proof. vm_compute. reflexivity. Qed.
