(* ===== verification/Bridge.v ===== *)
(** * The bridge from Layer-1 frames to leaves ([wat/ingestion/wirelang_bridge.py])

    A frame is a parsed JSON object.  The bridge projects it onto the nine
    fields of a spool line: four that enter the leaf hash and five that are
    only passed through.  [extract_aip_document_hash], which only raises, is
    left out.

    The lemmas describe the projection field by field, and tell for which
    frames the leaf passes the validation of the hourly build. *)

From S2P Require Import Prelude PyStr PyRepr Sha256 PyJson PyDyn Merkle Manifest.
From Stdlib Require Import ZArith Lia.

Open Scope Z_scope.

Inductive bridge_error : Type :=
| FrameMissingField (field : str)       (* KeyError *)
| PayloadNotCanonical (e : merkle_error)
| CaprefsUncaught.                      (* TypeError or KeyError of caprefs[0] *)

Module WirelangBridge.
Section bridge.
Context `{Sha256, Rfc8785}.

Definition CAPREF_PREFIX : str := u "sha256:".
Definition NO_CAPABILITY_SENTINEL : str := [].

(** One spool line: four hash-input fields, then five of audit metadata. *)
Record LeafRecord : Type := {
  event_id : str;
  time : str;
  payload_hash : str;
  capability_token_hash : str;
  source : str;
  actorrole : str;
  agentid : str;
  schemaid : str;
  schemaversion : str;
}.

(** The members in the order of the fields. *)
Definition to_jsonl_dict (l : LeafRecord) : dict :=
  [(u "event_id", JStr (event_id l));
   (u "time", JStr (time l));
   (u "payload_hash", JStr (payload_hash l));
   (u "capability_token_hash", JStr (capability_token_hash l));
   (u "source", JStr (source l));
   (u "actorrole", JStr (actorrole l));
   (u "agentid", JStr (agentid l));
   (u "schemaid", JStr (schemaid l));
   (u "schemaversion", JStr (schemaversion l))].

Definition compute_payload_hash (frame_data : json) : result bridge_error str :=
  let frame_data := match frame_data with JNull => JObj [] | _ => frame_data end in
  canonical ← map_err PayloadNotCanonical (Aggregator._canonicalise frame_data);
  Ok (hex (sha256 canonical)).

Definition extract_capability_token_hash (frame : dict) : result bridge_error str :=
  let caprefs := default JNull (dict_get frame (u "caprefs")) in
  if negb (truthy caprefs) then Ok NO_CAPABILITY_SENTINEL
  else
    first ← map_err (λ _, CaprefsUncaught) (getindex caprefs 0);
    match first with
    | JStr first =>
        if startswith first CAPREF_PREFIX
        then Ok (drop (length CAPREF_PREFIX) first)
        else Ok first
    | _ => Ok NO_CAPABILITY_SENTINEL
    end.

Definition required (frame : dict) (field : str) : result bridge_error json :=
  of_option (FrameMissingField field) (dict_get frame field).

Definition project_l1_frame_to_leaf (frame : dict) : result bridge_error LeafRecord :=
  event_id ← required frame (u "id");
  time ← required frame (u "time");
  source ← required frame (u "source");
  schemaid ← required frame (u "schemaid");
  schemaversion ← required frame (u "schemaversion");
  actorrole ← required frame (u "actorrole");
  agentid ← required frame (u "agentid");
  payload_hash ← compute_payload_hash (default JNull (dict_get frame (u "data")));
  capability_token_hash ← extract_capability_token_hash frame;
  Ok {| event_id := py_str event_id;
        time := py_str time;
        payload_hash := payload_hash;
        capability_token_hash := capability_token_hash;
        source := py_str source;
        actorrole := py_str actorrole;
        agentid := py_str agentid;
        schemaid := py_str schemaid;
        schemaversion := py_str schemaversion |}.
End bridge.
End WirelangBridge.
Import WirelangBridge.

(** ** Specification *)

(** The hash-input fields of a leaf, as the aggregator reads them. *)
Definition b1_of_leaf (l : LeafRecord) : b1_event :=
  B1 (event_id l) (time l) (payload_hash l) (capability_token_hash l).

(** The first capability reference of a frame, when it is a text. *)
Definition first_capref (frame : dict) : option str :=
  match dict_get frame (u "caprefs") with
  | Some (JList (JStr s :: _)) => Some s
  | Some (JStr (c :: _)) => Some [c]
  | _ => None
  end.

Definition capref_digest (s : str) : str :=
  if startswith s CAPREF_PREFIX then drop 7 s else s.

(** The capability digest that the aggregator accepts. *)
Definition has_capability (frame : dict) : Prop :=
  ∃ s, first_capref frame = Some s ∧ hex64_text (capref_digest s).

Section bridge_lemmas.
Context `{Sha256, Rfc8785}.

Lemma leaf_dict_b1 l : b1_of (to_jsonl_dict l) (b1_of_leaf l).
Proof. by split_and!. Qed.

Lemma extract_spec frame h :
  extract_capability_token_hash frame = Ok h →
  h = match first_capref frame with Some s => capref_digest s | None => [] end.
Proof.
  unfold extract_capability_token_hash, first_capref, capref_digest.
  destruct (dict_get frame (u "caprefs")) as [j|]; [|intros [= <-]; done].
  cbn [default from_option id].
  assert (∀ first : str, (if startswith first CAPREF_PREFIX
    then Ok (E:=bridge_error) (drop (length CAPREF_PREFIX) first) else Ok first) = Ok h →
    h = if startswith first CAPREF_PREFIX then drop 7 first else first) as Hfirst.
  { intros first. by case_match; intros [= <-]. }
  destruct j as [|[]|z|f|[|c s]|[|[] l]|[|kv d]]; cbn [truthy negb str_empty];
    try (destruct (z =? 0)); try (destruct (PyFloat.is_zero f)); cbn;
    intros Hx; simplify_eq; done || by apply Hfirst in Hx.
Qed.

Lemma payload_hash_hex data h : compute_payload_hash data = Ok h → hex64_text h.
Proof.
  unfold compute_payload_hash. intros Hx. run_ok. eexists. split; [|by left].
  unfold AggregatorCli.is_hex64. rewrite andb_true_iff, Nat.eqb_eq, length_hex, sha256_length.
  split; [done|apply hex_lower].
Qed.

Lemma hex64_nil : ¬ hex64_text [].
Proof.
  intros (h & Hh & [<-|E]); [done|]. by destruct h.
Qed.

(** The fields of a projected leaf. *)
Lemma project_ok frame l :
  project_l1_frame_to_leaf frame = Ok l →
  hex64_text (payload_hash l) ∧
  capability_token_hash l =
    match first_capref frame with Some s => capref_digest s | None => [] end ∧
  (∃ j, dict_get frame (u "time") = Some j ∧ time l = py_str j) ∧
  ∃ j, dict_get frame (u "id") = Some j ∧ event_id l = py_str j.
Proof.
  unfold project_l1_frame_to_leaf, required. intros Hl. run_ok. cbn.
  split_and!; [by eapply payload_hash_hex|by apply extract_spec|eauto|eauto].
Qed.

(** The aggregator accepts exactly the leaves of frames whose first capability
    reference is a digest. *)
Lemma project_valid frame l :
  project_l1_frame_to_leaf frame = Ok l →
  valid_event (to_jsonl_dict l) ↔ has_capability frame.
Proof.
  intros (Hp & Hc & _)%project_ok. unfold valid_event, has_capability. split.
  - intros (e & (_ & _ & _ & He) & _ & Hh).
    change (Some (JStr (capability_token_hash l)) = Some (JStr (Merkle.capability_token_hash e))) in He.
    injection He as He. rewrite <- He, Hc in Hh.
    destruct (first_capref frame) as [s|]; [eauto|by apply hex64_nil in Hh].
  - intros (s & Hs & Hh). exists (b1_of_leaf l). split; [apply leaf_dict_b1|].
    split; [done|]. cbn. by rewrite Hc, Hs.
Qed.
End bridge_lemmas.
