(* ===== verification/Spool.v ===== *)
(** * The hour spool ([wat/ingestion/spool_writer.py], [wat/ingestion/cli.py])

    The spool directory is a map from file names to texts; a missing directory
    is the empty map, which every operation treats alike.  Appending is two
    steps, as in the code: the test for the sealed file, then the write.  The
    clock is an argument.  [argparse] and the printing of the command line are
    not modelled.

    The theorems are over every sequence of operations: the file of an hour
    holds the lines of the accepted leaves in order, a sealed hour is final,
    and no leaf is refused before the late window of its hour has passed.
    When a write comes after the seal that its test did not see, the hour is
    stuck: no operation ever moves or seals that file again. *)

From S2P Require Import Prelude PyStr PyRepr PyTime PyIso PyHour Sha256 PyJson PyDyn Merkle Manifest Bridge.
From Stdlib Require Import ZArith Lia.

Open Scope Z_scope.

Inductive spool_error : Type :=
| NotRfc3339            (* ValueError *)
| NoTimezone            (* ValueError *)
| TimeOverflow          (* OverflowError of astimezone or of an addition *)
| BadHourSlot           (* ValueError of strptime *)
| HourSealed (slot : str)      (* RuntimeError: the late frame is dropped *)
| TooEarly (slot : str)        (* RuntimeError: the window has not elapsed *)
| LineEncodeError.      (* UnicodeEncodeError of the write *)

#[export] Instance spool_error_eq_dec : EqDecision spool_error.
Proof. solve_decision. Defined.

Module SpoolWriter.
Import WirelangBridge.

Definition LATE_FRAME_WINDOW_MINUTES : Z := 5.
Definition SEALED_SUFFIX : str := u ".sealed".
Definition OPEN_SUFFIX : str := u ".jsonl".

Definition minute : Z := 60000000.

(** ** Hour labels *)

Definition _parse_iso_utc (time_str : str) : result spool_error Z :=
  let s := strip time_str in
  let s := if endswith s (u "Z") then take (length s - 1) s ++ u "+00:00" else s in
  parsed ← of_option NotRfc3339 (fromisoformat s);
  match parsed with
  | Naive _ => Err NoTimezone
  | Aware us => raise_if (negb (in_calendar us)) TimeOverflow;; Ok us
  end.

Definition hour_slot_for_time (time_str : str) : result spool_error str :=
  parsed ← _parse_iso_utc time_str; Ok (strftime_hour parsed).

(** [start + timedelta] *)
Definition plus (us delta : Z) : result spool_error Z :=
  raise_if (negb (in_calendar (us + delta))) TimeOverflow;; Ok (us + delta).

Definition _hour_end_utc (hour_slot : str) : result spool_error Z :=
  start ← of_option BadHourSlot (strptime_hour hour_slot); plus start (60 * minute).

Definition _seal_eligible_at (hour_slot : str) : result spool_error Z :=
  hour_end ← _hour_end_utc hour_slot; plus hour_end (LATE_FRAME_WINDOW_MINUTES * minute).

(** ** Appending *)

Definition _open_path (hour_slot : str) : str := hour_slot ++ OPEN_SUFFIX.
Definition _sealed_path (hour_slot : str) : str := hour_slot ++ OPEN_SUFFIX ++ SEALED_SUFFIX.

Definition exists_ (dir : files) (name : str) : bool := bool_decide (is_Some (dir !! name)).

Definition line_of (leaf : LeafRecord) : str :=
  json_dumps false false (JObj (to_jsonl_dict leaf)) ++ [10].

(** Up to the test for the sealed file. *)
Definition append_check (dir : files) (leaf : LeafRecord) : result spool_error str :=
  hour_slot ← hour_slot_for_time (time leaf);
  raise_if (exists_ dir (_sealed_path hour_slot)) (HourSealed hour_slot);;
  Ok hour_slot.

(** The file is created before the text is encoded. *)
Definition append_write (dir : files) (hour_slot : str) (leaf : LeafRecord)
    : files * result spool_error str :=
  let name := _open_path hour_slot in
  let old := default [] (dir !! name) in
  if encodable (line_of leaf) then (<[name := old ++ line_of leaf]> dir, Ok name)
  else (<[name := old]> dir, Err LineEncodeError).

Definition append_leaf_to_spool (leaf : LeafRecord) (dir : files)
    : files * result spool_error str :=
  match append_check dir leaf with
  | Ok hour_slot => append_write dir hour_slot leaf
  | Err e => (dir, Err e)
  end.

(** ** Sealing *)

Definition rename (src dst : str) (dir : files) : files :=
  match dir !! src with
  | Some text => <[dst := text]> (delete src dir)
  | None => dir
  end.

(** The result is the name of the sealed file, [None] for an empty hour. *)
Definition seal_hour (hour_slot : str) (now : option Z) (enforce_window : bool) (clock : Z)
    (dir : files) : files * result spool_error (option str) :=
  let open_target := _open_path hour_slot in
  let sealed_target := _sealed_path hour_slot in
  if exists_ dir sealed_target then (dir, Ok (Some sealed_target))
  else if negb (exists_ dir open_target) then (dir, Ok None)
  else
    let check :=
      if enforce_window then
        eligible ← _seal_eligible_at hour_slot;
        raise_if (default clock now <? eligible) (TooEarly hour_slot)
      else Ok () in
    match check with
    | Ok _ => (rename open_target sealed_target dir, Ok (Some sealed_target))
    | Err e => (dir, Err e)
    end.

(** [^(\d{4}-\d{2}-\d{2}T\d{2})] *)
Definition hour_label (s : str) : bool :=
  match s with
  | [y1; y2; y3; y4; c1; m1; m2; c2; d1; d2; c3; h1; h2] =>
      forallb is_decimal [y1; y2; y3; y4; m1; m2; d1; d2; h1; h2] &&
      (c1 =? 45) && (c2 =? 45) && (c3 =? 84)
  | _ => false
  end.

(** The group of a name that is a label and the suffix; [$] also matches before
    a newline at the end. *)
Definition match_slot (suffix name : str) : option str :=
  let slot := take 13 name in
  if hour_label slot && re_dollar (str_eqb suffix) (drop 13 name) then Some slot else None.

(** [sorted(spool_path.iterdir())] *)
Definition listing (dir : files) : list str := py_sorted str_leb (map_to_list dir).*1.

Definition cons_sealed (name : option str) (r : result spool_error (list str))
    : result spool_error (list str) :=
  sealed ← r;
  Ok match name with
     | Some name => if endswith name SEALED_SUFFIX then name :: sealed else sealed
     | None => sealed
     end.

Fixpoint seal_loop (now_utc : Z) (entries : list str) (dir : files)
    : files * result spool_error (list str) :=
  match entries with
  | [] => (dir, Ok [])
  | name :: entries' =>
      match match_slot OPEN_SUFFIX name with
      | None => seal_loop now_utc entries' dir
      | Some hour_slot =>
          match _seal_eligible_at hour_slot with
          | Err e => (dir, Err e)
          | Ok eligible =>
              if now_utc <? eligible then seal_loop now_utc entries' dir
              else
                match seal_hour hour_slot (Some now_utc) true now_utc dir with
                | (dir', Err e) => (dir', Err e)
                | (dir', Ok result) =>
                    let '(dir'', r) := seal_loop now_utc entries' dir' in
                    (dir'', cons_sealed result r)
                end
          end
      end
  end.

Definition seal_due_hours (now : option Z) (clock : Z) (dir : files)
    : files * result spool_error (list str) :=
  seal_loop (default clock now) (listing dir) dir.

(** Pairs of a label and the name of its sealed file. *)
Definition iter_sealed_hours (dir : files) : list (str * str) :=
  omap (λ name, slot ← match_slot (OPEN_SUFFIX ++ SEALED_SUFFIX) name; Some (slot, name))
    (listing dir).

(** ** The command line *)

Definition _parse_now (value : option str) : result spool_error (option Z) :=
  match value with
  | None => Ok None
  | Some value => now ← _parse_iso_utc value; Ok (Some now)
  end.

(** [RuntimeError] becomes exit code 2, other exceptions pass through. *)
Definition main_seal (hour : str) (no_window : bool) (now : option str) (clock : Z)
    (dir : files) : files * result spool_error Z :=
  match _parse_now now with
  | Err e => (dir, Err e)
  | Ok now =>
      match seal_hour hour now (negb no_window) clock dir with
      | (dir', Ok _) => (dir', Ok 0)
      | (dir', Err (HourSealed _ | TooEarly _)) => (dir', Ok 2)
      | (dir', Err e) => (dir', Err e)
      end
  end.

Definition main_seal_due (now : option str) (clock : Z) (dir : files)
    : files * result spool_error Z :=
  match _parse_now now with
  | Err e => (dir, Err e)
  | Ok now => let '(dir', r) := seal_due_hours now clock dir in (dir', r;; Ok 0)
  end.
End SpoolWriter.
Import SpoolWriter WirelangBridge.

(** ** Specification *)

Inductive op : Type :=
| Append (leaf : LeafRecord)
| Seal (hour_slot : str) (now : option Z) (enforce_window : bool) (clock : Z)
| SealDue (now : option Z) (clock : Z).

Definition output : Type := result spool_error (list str).

(** One call, with the file names it returns. *)
Definition exec (o : op) (dir : files) : files * output :=
  match o with
  | Append leaf =>
      let '(dir', r) := append_leaf_to_spool leaf dir in (dir', name ← r; Ok [name])
  | Seal hour_slot now enforce_window clock =>
      let '(dir', r) := seal_hour hour_slot now enforce_window clock dir in
      (dir', name ← r; Ok (option_list name))
  | SealDue now clock => seal_due_hours now clock dir
  end.

(** A sequence of calls, with their answers. *)
Fixpoint run (ops : list op) (dir : files) : files * list (op * output) :=
  match ops with
  | [] => (dir, [])
  | o :: ops' =>
      let '(dir1, r) := exec o dir in
      let '(dir2, trace) := run ops' dir1 in (dir2, (o, r) :: trace)
  end.

(** The leaves of an hour whose append succeeded, in order. *)
Definition accepted_by (slot : str) (x : op * output) : list LeafRecord :=
  match x with
  | (Append leaf, Ok _) =>
      if decide (hour_slot_for_time (time leaf) = Ok slot) then [leaf] else []
  | _ => []
  end.
Definition accepted (slot : str) (trace : list (op * output)) : list LeafRecord :=
  trace ≫= accepted_by slot.

Definition spool_text (leaves : list LeafRecord) : str := leaves ≫= line_of.

(** The one file of an hour holds the lines of these leaves. *)
Definition hour_holds (dir : files) (slot : str) (leaves : list LeafRecord) : Prop :=
  match dir !! _open_path slot, dir !! _sealed_path slot with
  | Some text, None | None, Some text => text = spool_text leaves
  | None, None => leaves = []
  | Some _, Some _ => False
  end.

(** The window of an hour has passed at [now]. *)
Definition window_passed (now : Z) (slot : str) : Prop :=
  ∃ eligible, _seal_eligible_at slot = Ok eligible ∧ eligible ≤ now.

(** One rename, for an hour that satisfies [P]. *)
Inductive seals (P : str → Prop) (dir : files) : files → Prop :=
| seals_hour slot text :
    dir !! _open_path slot = Some text → dir !! _sealed_path slot = None → P slot →
    seals P dir (<[_sealed_path slot := text]> (delete (_open_path slot) dir)).

(** Every seal of the operation respects the window and a bound on the clock. *)
Definition on_time (bound : Z) (o : op) : Prop :=
  match o with
  | Append _ => True
  | Seal _ now enforce_window clock => enforce_window = true ∧ default clock now ≤ bound
  | SealDue now clock => default clock now ≤ bound
  end.

(** ** Names *)

Lemma endswith_app s p : endswith (s ++ p) p = true.
Proof.
  unfold endswith. rewrite length_app. apply bool_decide_eq_true. replace (length s + length p - length p)%nat with (length s) by lia.
  by rewrite drop_app_length.
Qed.

Lemma open_path_inj s s' : _open_path s = _open_path s' → s = s'.
Proof. apply app_inv_tail. Qed.

Lemma sealed_path_inj s s' : _sealed_path s = _sealed_path s' → s = s'.
Proof. apply app_inv_tail. Qed.

Lemma open_sealed_ne s s' : _open_path s ≠ _sealed_path s'.
Proof.
  unfold _open_path, _sealed_path. intros E. apply (f_equal last) in E.
  by rewrite !last_app in E.
Qed.

Lemma endswith_sealed slot : endswith (_sealed_path slot) SEALED_SUFFIX = true.
Proof. unfold _sealed_path. rewrite app_assoc. apply endswith_app. Qed.

#[export] Hint Resolve open_sealed_ne not_eq_sym : spool.

(** ** Single operations *)

Lemma exists_iff dir name : exists_ dir name = true ↔ is_Some (dir !! name).
Proof. apply bool_decide_eq_true. Qed.

Lemma exists_false dir name : exists_ dir name = false ↔ dir !! name = None.
Proof. unfold exists_. rewrite bool_decide_eq_false. symmetry. apply eq_None_not_Some. Qed.

Lemma seal_hour_seals slot now enf clock dir dir' r :
  seal_hour slot now enf clock dir = (dir', r) →
  rtc (seals (λ s, s = slot ∧ (enf = true → window_passed (default clock now) s))) dir dir'.
Proof.
  unfold seal_hour. destruct (exists_ dir (_sealed_path slot)) eqn:Es; [by intros [= <- _]|].
  apply exists_false in Es.
  destruct (exists_ dir (_open_path slot)) eqn:Eo; [|by intros [= <- _]].
  apply exists_iff in Eo as [text Eo]. cbn [negb].
  assert (∀ P : str → Prop, P slot → rtc (seals P) dir (rename (_open_path slot) (_sealed_path slot) dir))
    as Hr.
  { intros P HP. unfold rename. rewrite Eo. by apply rtc_once, seals_hour. }
  destruct enf; [|intros [= <- _]; by apply Hr].
  destruct (_seal_eligible_at slot) as [e|err] eqn:Ee; cbn [mbind result_bind];
    [|by intros [= <- _]].
  unfold raise_if. destruct (Z.ltb_spec (default clock now) e); intros [= <- _]; [done|].
  apply Hr. split; [done|]. intros _. by exists e.
Qed.

Lemma seals_mono (P Q : str → Prop) dir dir' :
  (∀ s, P s → Q s) → rtc (seals P) dir dir' → rtc (seals Q) dir dir'.
Proof.
  intros HPQ. induction 1 as [|a b c [s t ???] _ IH]; [done|].
  eapply rtc_l; [|exact IH]. apply seals_hour; auto.
Qed.

Lemma seal_loop_seals now names dir dir' r :
  seal_loop now names dir = (dir', r) → rtc (seals (window_passed now)) dir dir'.
Proof.
  revert dir dir' r. induction names as [|name names IH]; intros dir dir' r; cbn [seal_loop];
    [by intros [= <- _]|].
  destruct (match_slot OPEN_SUFFIX name) as [slot|]; [|by apply IH].
  destruct (_seal_eligible_at slot) as [e|err]; [|by intros [= <- _]].
  destruct (now <? e); [by apply IH|].
  destruct (seal_hour slot (Some now) true now dir) as [dir1 [x|err]] eqn:Es;
    apply seal_hour_seals in Es; cbn [default from_option id] in Es.
  - destruct (seal_loop now names dir1) as [dir2 r2] eqn:El. intros [= <- _].
    apply IH in El. etrans; [|exact El]. eapply seals_mono; [|exact Es]. naive_solver.
  - intros [= <- _]. eapply seals_mono; [|exact Es]. naive_solver.
Qed.

(** What an append did. *)
Inductive appended (leaf : LeafRecord) (dir : files) : files → result spool_error str → Prop :=
| appended_ok slot :
    hour_slot_for_time (time leaf) = Ok slot → dir !! _sealed_path slot = None →
    encodable (line_of leaf) = true →
    appended leaf dir (<[_open_path slot := default [] (dir !! _open_path slot) ++ line_of leaf]> dir)
      (Ok (_open_path slot))
| appended_unencodable slot :
    hour_slot_for_time (time leaf) = Ok slot → dir !! _sealed_path slot = None →
    encodable (line_of leaf) = false →
    appended leaf dir (<[_open_path slot := default [] (dir !! _open_path slot)]> dir)
      (Err LineEncodeError)
| appended_sealed slot :
    hour_slot_for_time (time leaf) = Ok slot → is_Some (dir !! _sealed_path slot) →
    appended leaf dir dir (Err (HourSealed slot))
| appended_bad_time e :
    hour_slot_for_time (time leaf) = Err e → appended leaf dir dir (Err e).

Lemma append_appended leaf dir dir' r :
  append_leaf_to_spool leaf dir = (dir', r) → appended leaf dir dir' r.
Proof.
  unfold append_leaf_to_spool, append_check.
  destruct (hour_slot_for_time (time leaf)) as [slot|e] eqn:Eh; cbn [mbind result_bind];
    [|intros [= <- <-]; by constructor].
  destruct (exists_ dir (_sealed_path slot)) eqn:Es.
  { rewrite raise_if_true. intros [= <- <-]. apply exists_iff in Es. by constructor. }
  rewrite raise_if_false. apply exists_false in Es. unfold append_write.
  destruct (encodable (line_of leaf)) eqn:El; intros [= <- <-]; by constructor.
Qed.

Lemma spool_text_app l1 l2 : spool_text (l1 ++ l2) = spool_text l1 ++ spool_text l2.
Proof. apply bind_app. Qed.

(** A rename keeps what an hour holds. *)
Lemma seals_holds P dir dir' slot leaves :
  seals P dir dir' → hour_holds dir slot leaves → hour_holds dir' slot leaves.
Proof.
  intros [s text Ho Hs _]. unfold hour_holds.
  destruct (decide (s = slot)) as [->|Hne].
  - rewrite Ho, Hs. rewrite lookup_insert_ne by auto with spool.
    by rewrite lookup_delete_eq, lookup_insert_eq.
  - rewrite !lookup_insert_ne by
      (auto with spool || (intros E; apply Hne; by apply sealed_path_inj)).
    rewrite !lookup_delete_ne by
      (auto with spool || (intros E; apply Hne; by apply open_path_inj)). done.
Qed.

Lemma rtc_seals_holds P dir dir' slot leaves :
  rtc (seals P) dir dir' → hour_holds dir slot leaves → hour_holds dir' slot leaves.
Proof. induction 1; eauto using seals_holds. Qed.

(** An insertion at an open file only touches its hour. *)
Lemma insert_open_holds dir slot slot' text leaves :
  slot' ≠ slot → hour_holds dir slot' leaves →
  hour_holds (<[_open_path slot := text]> dir) slot' leaves.
Proof.
  intros Hne. unfold hour_holds. rewrite !lookup_insert_ne; [done|auto with spool|].
  intros E. apply Hne. symmetry. by apply open_path_inj.
Qed.

Lemma insert_open_here dir slot leaves more :
  dir !! _sealed_path slot = None → hour_holds dir slot leaves →
  hour_holds (<[_open_path slot := default [] (dir !! _open_path slot) ++ spool_text more]> dir)
    slot (leaves ++ more).
Proof.
  intros Hs. unfold hour_holds. rewrite lookup_insert_eq, lookup_insert_ne by auto with spool.
  rewrite Hs. destruct (dir !! _open_path slot) as [text|]; intros ->;
    by rewrite ?spool_text_app.
Qed.

Lemma append_holds leaf dir dir' r slot leaves :
  appended leaf dir dir' r → hour_holds dir slot leaves →
  hour_holds dir' slot (leaves ++ accepted_by slot (Append leaf, name ← r; Ok [name])).
Proof.
  intros [s Hs Hse _|s Hs Hse _|s _ _|e _] Hh; cbn [mbind result_bind accepted_by];
    rewrite ?app_nil_r; try done.
  - rewrite Hs. case_decide as E; [injection E as ->|].
    + pose proof (insert_open_here dir slot leaves [leaf] Hse Hh) as Hi.
      unfold spool_text in Hi. cbn [mbind list_bind] in Hi. by rewrite app_nil_r in Hi.
    + rewrite app_nil_r. apply insert_open_holds; [congruence|done].
  - destruct (decide (slot = s)) as [->|Hne]; [|by apply insert_open_holds].
    pose proof (insert_open_here dir s leaves [] Hse Hh) as Hi.
    by rewrite !app_nil_r in Hi.
Qed.

Lemma exec_holds o dir dir' r slot leaves :
  exec o dir = (dir', r) → hour_holds dir slot leaves →
  hour_holds dir' slot (leaves ++ accepted_by slot (o, r)).
Proof.
  destruct o as [leaf|s now enf clock|now clock]; cbn [exec accepted_by].
  - destruct (append_leaf_to_spool leaf dir) as [d x] eqn:Ea. intros [= <- <-].
    by apply append_holds, append_appended.
  - destruct (seal_hour s now enf clock dir) as [d x] eqn:Es. intros [= <- _].
    rewrite app_nil_r. eapply rtc_seals_holds, seal_hour_seals. exact Es.
  - intros Es%seal_loop_seals. rewrite app_nil_r. by eapply rtc_seals_holds.
Qed.

Lemma run_holds ops dir dir' trace slot leaves :
  run ops dir = (dir', trace) → hour_holds dir slot leaves →
  hour_holds dir' slot (leaves ++ accepted slot trace).
Proof.
  revert dir dir' trace leaves.
  induction ops as [|o ops IH]; intros dir dir' trace leaves; cbn [run].
  { intros [= <- <-]. by rewrite app_nil_r. }
  destruct (exec o dir) as [d1 r] eqn:Ee. destruct (run ops d1) as [d2 t] eqn:Er.
  intros [= <- <-] Hh. change (accepted slot ((o, r) :: t)) with
    (accepted_by slot (o, r) ++ accepted slot t). rewrite app_assoc.
  eapply IH; [exact Er|]. by eapply exec_holds.
Qed.

(** The lines of accepted leaves can be encoded. *)
Lemma run_encodable ops dir dir' trace slot :
  run ops dir = (dir', trace) →
  Forall (λ l, encodable (line_of l) = true) (accepted slot trace).
Proof.
  revert dir dir' trace. induction ops as [|o ops IH]; intros dir dir' trace; cbn [run].
  { intros [= _ <-]. constructor. }
  destruct (exec o dir) as [d1 r] eqn:Ee. destruct (run ops d1) as [d2 t] eqn:Er.
  intros [= _ <-]. apply Forall_app. split; [|by eapply IH].
  destruct o as [leaf| |]; try by constructor. cbn [exec] in Ee.
  destruct (append_leaf_to_spool leaf dir) as [d x] eqn:Ea. injection Ee as _ <-.
  apply append_appended in Ea. destruct Ea; cbn [mbind result_bind accepted_by]; try by constructor.
  case_decide; by repeat constructor.
Qed.

(** An operation keeps every sealed file. *)
Lemma seals_sealed P dir dir' slot text :
  rtc (seals P) dir dir' → dir !! _sealed_path slot = Some text →
  dir' !! _sealed_path slot = Some text.
Proof.
  induction 1 as [|a b c [s t Ho Hs HP] _ IH]; [done|]. intros Hl. apply IH.
  rewrite lookup_insert_ne by (intros E; rewrite E in Hs; congruence).
  by rewrite lookup_delete_ne by auto with spool.
Qed.

Lemma exec_sealed o dir dir' r slot text :
  exec o dir = (dir', r) → dir !! _sealed_path slot = Some text →
  dir' !! _sealed_path slot = Some text.
Proof.
  destruct o as [leaf|s now enf clock|now clock]; cbn [exec].
  - destruct (append_leaf_to_spool leaf dir) as [d x] eqn:Ea. intros [= <- _].
    apply append_appended in Ea. destruct Ea; try done;
      by rewrite lookup_insert_ne by auto with spool.
  - destruct (seal_hour s now enf clock dir) as [d x] eqn:Es. intros [= <- _].
    eapply seals_sealed, seal_hour_seals. exact Es.
  - intros Es%seal_loop_seals. by eapply seals_sealed.
Qed.

Lemma run_sealed ops dir dir' trace slot text :
  run ops dir = (dir', trace) → dir !! _sealed_path slot = Some text →
  dir' !! _sealed_path slot = Some text ∧ accepted slot trace = [].
Proof.
  revert dir dir' trace. induction ops as [|o ops IH]; intros dir dir' trace; cbn [run].
  { by intros [= <- <-]. }
  destruct (exec o dir) as [d1 r] eqn:Ee. destruct (run ops d1) as [d2 t] eqn:Er.
  intros [= <- <-] Hs. pose proof (exec_sealed _ _ _ _ _ _ Ee Hs) as Hs1.
  destruct (IH _ _ _ Er Hs1) as [Hs2 Ha]. split; [done|].
  change (accepted_by slot (o, r) ++ accepted slot t = []). rewrite Ha, app_nil_r.
  destruct o as [leaf| |]; try done. cbn [exec] in Ee.
  destruct (append_leaf_to_spool leaf dir) as [d x] eqn:Ea. injection Ee as <- <-.
  apply append_appended in Ea. destruct Ea as [s Hsl Hse _| | |]; try done.
  cbn [mbind result_bind accepted_by]. rewrite Hsl. case_decide as E; [|done].
  injection E as ->. congruence.
Qed.

(** *** Windows *)

Lemma seals_new P dir dir' slot :
  rtc (seals P) dir dir' → is_Some (dir' !! _sealed_path slot) →
  is_Some (dir !! _sealed_path slot) ∨ P slot.
Proof.
  induction 1 as [|a b c [s t Ho Hs HP] _ IH]; [by left|]. intros Hc.
  destruct (IH Hc) as [Hb|?]; [|by right].
  destruct (decide (s = slot)) as [->|Hne]; [by right|]. left.
  rewrite lookup_insert_ne in Hb by (intros E; apply Hne; by apply sealed_path_inj).
  by rewrite lookup_delete_ne in Hb by auto with spool.
Qed.

Lemma window_passed_mono a b slot : a ≤ b → window_passed a slot → window_passed b slot.
Proof. intros Hab (e & ? & ?). exists e. split; [done|lia]. Qed.

Lemma exec_on_time bound o dir dir' r slot :
  on_time bound o → exec o dir = (dir', r) → is_Some (dir' !! _sealed_path slot) →
  is_Some (dir !! _sealed_path slot) ∨ window_passed bound slot.
Proof.
  destruct o as [leaf|s now enf clock|now clock]; cbn [exec on_time].
  - intros _. destruct (append_leaf_to_spool leaf dir) as [d x] eqn:Ea. intros [= <- _] Hl.
    left. apply append_appended in Ea. destruct Ea; try done;
      by rewrite lookup_insert_ne in Hl by auto with spool.
  - intros [-> Hn]. destruct (seal_hour s now true clock dir) as [d x] eqn:Es. intros [= <- _] Hl.
    destruct (seals_new _ _ _ _ (seal_hour_seals _ _ _ _ _ _ _ Es) Hl) as [|[_ Hw]]; [by left|].
    right. eapply window_passed_mono; [exact Hn|auto].
  - intros Hn Es%seal_loop_seals Hl. destruct (seals_new _ _ _ _ Es Hl); [by left|].
    right. by eapply window_passed_mono.
Qed.

Lemma run_on_time bound ops dir dir' trace slot :
  Forall (on_time bound) ops → run ops dir = (dir', trace) →
  is_Some (dir' !! _sealed_path slot) →
  is_Some (dir !! _sealed_path slot) ∨ window_passed bound slot.
Proof.
  intros Ho. revert dir dir' trace.
  induction Ho as [|o ops Ho _ IH]; intros dir dir' trace; cbn [run].
  { intros [= <- _]. by left. }
  destruct (exec o dir) as [d1 r] eqn:Ee. destruct (run ops d1) as [d2 t] eqn:Er.
  intros [= <- _] Hs. destruct (IH _ _ _ Er Hs) as [H1|]; [|by right].
  by eapply exec_on_time.
Qed.

(** The window of the hour of a time. *)
Lemma eligible_at us :
  in_rfc3339_range us → hour_start us + 65 * minute < 253402300800000000 →
  _seal_eligible_at (strftime_hour us) = Ok (hour_start us + 65 * minute).
Proof.
  intros Hr Hlt. unfold _seal_eligible_at, _hour_end_utc.
  rewrite strptime_strftime by done. cbn [of_option mbind result_bind]. unfold plus, minute in *.
  unfold in_rfc3339_range, hour_start in *. pose proof (Z.mod_pos_bound us 3600000000 eq_refl).
  rewrite (proj2 (in_calendar_iff _)) by (unfold in_datetime_range; lia).
  cbn [negb]. rewrite raise_if_false. cbn [mbind result_bind].
  rewrite (proj2 (in_calendar_iff _)) by (unfold in_datetime_range, LATE_FRAME_WINDOW_MINUTES; lia).
  cbn [negb]. rewrite raise_if_false. cbn [mbind result_bind]. f_equal.
  unfold LATE_FRAME_WINDOW_MINUTES. lia.
Qed.

(** *** An hour with both files *)

Definition stuck (slot : str) (sealed_text open_text : str) (dir : files) : Prop :=
  dir !! _sealed_path slot = Some sealed_text ∧ dir !! _open_path slot = Some open_text.

Lemma seals_stuck P dir dir' slot st ot :
  rtc (seals P) dir dir' → stuck slot st ot dir → stuck slot st ot dir'.
Proof.
  intros Hs [Hse Hop]. split; [by eapply seals_sealed|]. revert Hse Hop.
  induction Hs as [|a b c [s t Ho Hs HP] _ IH]; [done|]. intros Hse Hop.
  assert (s ≠ slot) as Hne by (intros ->; congruence).
  apply IH.
  - rewrite lookup_insert_ne by (intros E; apply Hne; by apply sealed_path_inj).
    by rewrite lookup_delete_ne by auto with spool.
  - rewrite lookup_insert_ne by auto with spool.
    by rewrite lookup_delete_ne by (intros E; apply Hne; by apply open_path_inj).
Qed.

Lemma exec_stuck o dir dir' r slot st ot :
  exec o dir = (dir', r) → stuck slot st ot dir → stuck slot st ot dir'.
Proof.
  destruct o as [leaf|s now enf clock|now clock]; cbn [exec].
  - destruct (append_leaf_to_spool leaf dir) as [d x] eqn:Ea. intros [= <- _] [Hse Hop].
    apply append_appended in Ea. destruct Ea as [s Hs Hn _|s Hs Hn _| |]; try done.
    + assert (s ≠ slot) as Hne by congruence. split; rewrite lookup_insert_ne; auto with spool.
      intros E. apply Hne. by apply open_path_inj.
    + assert (s ≠ slot) as Hne by congruence. split; rewrite lookup_insert_ne; auto with spool.
      intros E. apply Hne. by apply open_path_inj.
  - destruct (seal_hour s now enf clock dir) as [d x] eqn:Es. intros [= <- _].
    eapply seals_stuck, seal_hour_seals. exact Es.
  - intros Es%seal_loop_seals. by eapply seals_stuck.
Qed.

Lemma run_stuck ops dir dir' trace slot st ot :
  run ops dir = (dir', trace) → stuck slot st ot dir → stuck slot st ot dir'.
Proof.
  revert dir dir' trace. induction ops as [|o ops IH]; intros dir dir' trace; cbn [run].
  { by intros [= <- _]. }
  destruct (exec o dir) as [d1 r] eqn:Ee. destruct (run ops d1) as [d2 t] eqn:Er.
  intros [= <- _] Hs. eapply IH; [exact Er|]. by eapply exec_stuck.
Qed.

(** *** Sealing what is due *)

Definition due (now : Z) (slot : str) : bool :=
  match _seal_eligible_at slot with Ok eligible => eligible <=? now | Err _ => false end.

(** The open hours of a directory, in order. *)
Definition open_hours (dir : files) : list str := omap (match_slot OPEN_SUFFIX) (listing dir).

(** No file name ends in a newline behind the pattern of an open hour. *)
Definition clean (dir : files) : Prop :=
  ∀ name slot, is_Some (dir !! name) → match_slot OPEN_SUFFIX name = Some slot →
    name = _open_path slot.

(** The hours of the list without a sealed file are moved, all others are as
    before. *)
Definition moved (slots : list str) (dir dir' : files) : Prop :=
  ∀ slot, if decide (slot ∈ slots ∧ dir !! _sealed_path slot = None)
    then dir' !! _open_path slot = None ∧ dir' !! _sealed_path slot = dir !! _open_path slot
    else dir' !! _open_path slot = dir !! _open_path slot ∧
         dir' !! _sealed_path slot = dir !! _sealed_path slot.

Lemma moved_nil dir : moved [] dir dir.
Proof. intros slot. rewrite decide_False; [done|]. by intros [?%elem_of_nil _]. Qed.

Lemma moved_cons slot slots dir dir1 dir' :
  slot ∉ slots → moved [slot] dir dir1 → moved slots dir1 dir' → moved (slot :: slots) dir dir'.
Proof.
  intros Hn H1 H2 s. specialize (H1 s). specialize (H2 s).
  destruct (decide (s = slot)) as [->|Hne].
  - rewrite (decide_False (P := slot ∈ slots ∧ _)) in H2 by naive_solver.
    destruct (decide (dir !! _sealed_path slot = None)) as [Hs|Hs].
    + rewrite decide_True in H1 by (split; [left|done]).
      rewrite decide_True by (split; [left|done]). naive_solver congruence.
    + rewrite decide_False in H1 by naive_solver. rewrite decide_False by naive_solver.
      naive_solver congruence.
  - rewrite decide_False in H1 by (rewrite list_elem_of_singleton; naive_solver).
    destruct H1 as [Ho Hs]. rewrite Ho, Hs in H2.
    destruct (decide (s ∈ slots ∧ dir !! _sealed_path s = None)) as [[Hi Hd]|Hd].
    + rewrite decide_True by (split; [by right|done]). done.
    + rewrite decide_False by (rewrite elem_of_cons; naive_solver). done.
Qed.

Lemma seal_hour_due t slot dir :
  due t slot = true → is_Some (dir !! _open_path slot) →
  ∃ dir', seal_hour slot (Some t) true t dir = (dir', Ok (Some (_sealed_path slot))) ∧
    moved [slot] dir dir' ∧
    ∀ name, (∀ s, name ≠ _sealed_path s) → name ≠ _open_path slot → dir' !! name = dir !! name.
Proof.
  unfold due, seal_hour. intros Hd [text Ho].
  destruct (exists_ dir (_sealed_path slot)) eqn:Es.
  { apply exists_iff in Es as [x Es]. eexists. split_and!; [done| |done].
    intros s. rewrite decide_False; [done|]. rewrite list_elem_of_singleton.
    intros [-> ?]. congruence. }
  apply exists_false in Es. rewrite (proj2 (exists_iff _ _)) by eauto. cbn [negb].
  destruct (_seal_eligible_at slot) as [e|]; [|done]. apply Z.leb_le in Hd.
  cbn [mbind result_bind default from_option id]. rewrite (proj2 (Z.ltb_ge t e)) by lia.
  rewrite raise_if_false. unfold rename. rewrite Ho. eexists. split_and!; [done| |].
  - intros s. destruct (decide (s = slot)) as [->|Hne].
    + rewrite decide_True by (split; [left|done]). rewrite Ho.
      rewrite lookup_insert_ne by auto with spool. by rewrite lookup_delete_eq, lookup_insert_eq.
    + rewrite decide_False by (rewrite list_elem_of_singleton; naive_solver).
      rewrite !lookup_insert_ne by
        (auto with spool || (intros E; apply Hne; by apply sealed_path_inj)).
      rewrite !lookup_delete_ne by
        (auto with spool || (intros E; apply Hne; by apply open_path_inj)). done.
  - intros name Hn Hne. rewrite lookup_insert_ne by auto. by rewrite lookup_delete_ne.
Qed.

Lemma seal_loop_spec t names dir dir' r :
  NoDup names →
  (∀ name slot, name ∈ names → match_slot OPEN_SUFFIX name = Some slot →
     name = _open_path slot ∧ is_Some (dir !! name)) →
  seal_loop t names dir = (dir', r) →
  ∃ done rest, omap (match_slot OPEN_SUFFIX) names = done ++ rest ∧
    moved (filter (λ s, due t s = true) done) dir dir' ∧
    match r with
    | Ok sealed => rest = [] ∧ sealed = _sealed_path <$> filter (λ s, due t s = true) done
    | Err e => ∃ slot rest', rest = slot :: rest' ∧ _seal_eligible_at slot = Err e
    end.
Proof.
  revert dir dir' r. induction names as [|name names IH]; intros dir dir' r Hnd Hcl;
    cbn [seal_loop omap list_omap].
  { intros [= <- <-]. exists [], []. split_and!; [done|apply moved_nil|done|done]. }
  apply NoDup_cons in Hnd as [Hni Hnd].
  assert (∀ n s, n ∈ names → match_slot OPEN_SUFFIX n = Some s →
    n = _open_path s ∧ is_Some (dir !! n)) as Hcl' by (intros n s ?; apply Hcl; by right).
  destruct (match_slot OPEN_SUFFIX name) as [slot|] eqn:Em; [|by apply IH].
  destruct (Hcl name slot ltac:(left) Em) as [En Hex].
  destruct (_seal_eligible_at slot) as [e|err] eqn:Ee.
  2:{ intros [= <- <-]. exists [], (slot :: omap (match_slot OPEN_SUFFIX) names).
      split_and!; [done|apply moved_nil|eauto]. }
  destruct (Z.ltb_spec t e) as [Hlt|Hge].
  - intros (dn & rest & E & Hm & Hr)%IH; [|done..]. exists (slot :: dn), rest.
    assert (due t slot ≠ true) as Hdue
      by (unfold due; rewrite Ee; by apply not_true_iff_false, Z.leb_gt).
    rewrite filter_cons_False by done. split_and!; [by rewrite E|done|done].
  - assert (due t slot = true) as Hdue by (unfold due; rewrite Ee; by apply Z.leb_le).
    destruct (seal_hour_due t slot dir Hdue) as (d1 & -> & H1 & Hk); [by rewrite <- En|].
    destruct (seal_loop t names d1) as [d2 r2] eqn:El. intros [= <- <-].
    apply IH in El as (dn & rest & E & Hm & Hr); [|done|].
    2:{ intros n s Hn Hs. destruct (Hcl' n s Hn Hs) as [-> Hx]. split; [done|].
        rewrite Hk; [done|auto with spool|]. intros Eo. apply Hni. by rewrite En, <- Eo. }
    assert (slot ∉ filter (λ s, due t s = true) dn) as Hns.
    { rewrite list_elem_of_filter. intros [_ Hin]. apply Hni.
      assert (slot ∈ omap (match_slot OPEN_SUFFIX) names) as (n & Hn & Hs)%list_elem_of_omap
        by (rewrite E; apply elem_of_app; by left).
      destruct (Hcl' n slot Hn Hs) as [-> _]. by rewrite En. }
    exists (slot :: dn), rest. rewrite filter_cons_True by done.
    split_and!; [by rewrite E|by eapply moved_cons|].
    destruct r2 as [sealed|err]; cbn [cons_sealed mbind result_bind];
      [|destruct Hr as (s & r' & -> & ?); eauto].
    destruct Hr as [-> ->]. by rewrite endswith_sealed.
Qed.

Lemma elem_of_dir_listing dir name : name ∈ listing dir ↔ is_Some (dir !! name).
Proof.
  unfold listing. rewrite elem_of_py_sorted, list_elem_of_fmap. split.
  - intros ([n t] & -> & Hin%elem_of_map_to_list). eauto.
  - intros [t Ht]. exists (name, t). split; [done|by apply elem_of_map_to_list].
Qed.

Lemma listing_NoDup dir : NoDup (listing dir).
Proof. unfold listing. rewrite py_sorted_perm. apply NoDup_fst_map_to_list. Qed.

Lemma hour_label_length slot : hour_label slot = true → length slot = 13%nat.
Proof. unfold hour_label. repeat (destruct slot as [|? slot]; try done). Qed.

Lemma match_open_path slot :
  hour_label slot = true → match_slot OPEN_SUFFIX (_open_path slot) = Some slot.
Proof.
  intros Hl. pose proof (hour_label_length _ Hl) as Hn. unfold match_slot, _open_path.
  rewrite take_app_length', drop_app_length' by done. rewrite Hl, re_dollar_full; [done|].
  unfold str_eqb. by apply bool_decide_eq_true.
Qed.

Lemma match_slot_label suffix name slot :
  match_slot suffix name = Some slot → hour_label slot = true.
Proof. unfold match_slot. case_match eqn:E; [|done]. intros [= <-]. by apply andb_true_iff in E as []. Qed.

Lemma elem_of_open_hours dir slot :
  clean dir →
  slot ∈ open_hours dir ↔ hour_label slot = true ∧ is_Some (dir !! _open_path slot).
Proof.
  intros Hc. unfold open_hours. rewrite list_elem_of_omap. split.
  - intros (name & Hn%elem_of_dir_listing & Hs). rewrite <- (Hc _ _ Hn Hs).
    split; [by eapply match_slot_label|done].
  - intros [Hl Ho]. exists (_open_path slot). split; [by apply elem_of_dir_listing|].
    by apply match_open_path.
Qed.

Lemma str_leb_same_suffix a b s : length a = length b → str_leb (a ++ s) (b ++ s) = str_leb a b.
Proof.
  revert b. induction a as [|x a IH]; intros [|y b]; cbn; try done.
  - intros _. apply (leb_refl str_leb).
  - intros [= Hl]. by rewrite IH.
Qed.

Lemma open_hours_sorted dir :
  clean dir → StronglySorted (λ a b, str_leb a b = true) (open_hours dir).
Proof.
  intros Hc. unfold open_hours.
  assert (∀ name slot, name ∈ listing dir → match_slot OPEN_SUFFIX name = Some slot →
    name = _open_path slot) as Hn by (intros ?? ?%elem_of_dir_listing; by apply Hc).
  assert (StronglySorted (λ a b, str_leb a b = true) (listing dir)) as Hs
    by apply py_sorted_sorted, _.
  induction Hs as [|name l Hs IH Hall]; cbn [omap list_omap]; [constructor|].
  assert (StronglySorted (λ a b, str_leb a b = true) (omap (match_slot OPEN_SUFFIX) l)) as IH'
    by (apply IH; intros n s ?; apply Hn; by right).
  destruct (match_slot OPEN_SUFFIX name) as [slot|] eqn:Em; [|done].
  constructor; [done|]. apply Forall_forall. intros s (n & Hin & Hns)%list_elem_of_omap.
  rewrite Forall_forall in Hall. specialize (Hall n Hin).
  rewrite (Hn n s), (Hn name slot) in Hall by (done || (by left) || by right).
  unfold _open_path in Hall. rewrite str_leb_same_suffix in Hall; [done|].
  by rewrite !hour_label_length by (eapply match_slot_label; eassumption).
Qed.

(** ** Properties *)

Lemma empty_holds slot : hour_holds ∅ slot [].
Proof. unfold hour_holds. by rewrite !lookup_empty. Qed.

(** After any sequence of calls on a new spool, every hour has at most one
    file, and it holds the lines of exactly the leaves whose append succeeded,
    in the order of the calls. *)
Theorem spool_holds_accepted ops dir trace slot :
  run ops ∅ = (dir, trace) → hour_holds dir slot (accepted slot trace).
Proof. intros Hr. apply (run_holds _ _ _ _ slot [] Hr), empty_holds. Qed.

(** C8: A sealed hour is final: when an hour is sealed after some calls, its file
    holds the accepted leaves, and no later sequence of calls changes it,
    reopens the hour or accepts another leaf for it. *)
Theorem sealed_hour_final ops1 ops2 dir1 dir2 trace1 trace2 slot text :
  run ops1 ∅ = (dir1, trace1) → dir1 !! _sealed_path slot = Some text →
  run ops2 dir1 = (dir2, trace2) →
  text = spool_text (accepted slot trace1) ∧ dir2 !! _sealed_path slot = Some text ∧
  dir2 !! _open_path slot = None ∧ accepted slot trace2 = [].
Proof.
  intros H1 Hs H2. pose proof (run_holds _ _ _ _ slot [] H1 (empty_holds slot)) as Hh.
  destruct (run_sealed _ _ _ _ _ _ H2 Hs) as [Hs2 Ha].
  pose proof (run_holds _ _ _ _ slot _ H2 Hh) as Hh2. unfold hour_holds in Hh, Hh2.
  rewrite Hs in Hh. rewrite Hs2 in Hh2.
  destruct (dir1 !! _open_path slot); [done|]. by destruct (dir2 !! _open_path slot).
Qed.

(** While no seal is made without the window and every clock reading is before
    the end of a leaf's hour plus five minutes, the leaf is accepted. *)
Theorem late_window_kept ops bound dir trace leaf us :
  run ops ∅ = (dir, trace) → Forall (on_time bound) ops →
  _parse_iso_utc (time leaf) = Ok us → in_rfc3339_range us →
  bound < hour_start us + 65 * minute < 253402300800000000 →
  encodable (line_of leaf) = true →
  (append_leaf_to_spool leaf dir).2 = Ok (_open_path (strftime_hour us)).
Proof.
  intros Hr Ho Ht Hus [Hb Hmax] He.
  destruct (append_leaf_to_spool leaf dir) as [dir' r] eqn:Ea. cbn [snd].
  assert (hour_slot_for_time (time leaf) = Ok (strftime_hour us)) as Hslot
    by (unfold hour_slot_for_time; by rewrite Ht).
  apply append_appended in Ea. destruct Ea as [s Hs _ _|s _ _ ?|s Hs Hx|e Hs]; try congruence.
  exfalso. rewrite Hslot in Hs. injection Hs as <-.
  destruct (run_on_time _ _ _ _ _ _ Ho Hr Hx) as [[x Hn]|(e & Hel & Hle)].
  - by rewrite lookup_empty in Hn.
  - rewrite eligible_at in Hel by done. injection Hel as <-. lia.
Qed.

(** When the hour is sealed between the test and the write of an append, the
    write succeeds into a new open file and the leaf is lost: whatever is
    called afterwards, the open file is never sealed and the sealed file never
    holds the leaf. *)
Theorem interleaved_append_lost dir dir1 dir2 leaf slot text now clock name sealed ops dir3 trace :
  append_check dir leaf = Ok slot → dir !! _open_path slot = Some text →
  seal_hour slot now true clock dir = (dir1, Ok (Some sealed)) →
  append_write dir1 slot leaf = (dir2, Ok name) →
  run ops dir2 = (dir3, trace) →
  dir3 !! _sealed_path slot = Some text ∧ dir3 !! _open_path slot = Some (line_of leaf).
Proof.
  intros Hc Ho Hs Hw Hr. enough (stuck slot text (line_of leaf) dir2) as Hst
    by exact (run_stuck _ _ _ _ _ _ _ Hr Hst).
  unfold append_check in Hc. run_ok. rename select (exists_ _ _ = _) into Hn.
  revert Hs. unfold seal_hour. rewrite Hn. rewrite (proj2 (exists_iff dir (_open_path slot))) by eauto.
  cbn [negb]. destruct (_ ← _seal_eligible_at slot; _); [|done]. intros [= <- _].
  unfold append_write, rename in Hw. rewrite Ho in Hw. revert Hw.
  rewrite lookup_insert_ne, lookup_delete_eq by auto with spool. cbn [default from_option app].
  destruct (encodable (line_of leaf)); [|done]. intros [= <- _]. split.
  - rewrite lookup_insert_ne by auto with spool. apply lookup_insert_eq.
  - apply lookup_insert_eq.
Qed.

(** [seal_due_hours] goes through the open hours in order.  It moves exactly
    those whose window has passed and that have no sealed file, and reports
    every hour whose window has passed; at a label that is no date, or too late
    for the calendar, it raises, and the hours behind it stay open. *)
Theorem seal_due_spec now clock dir dir' r :
  clean dir → seal_due_hours now clock dir = (dir', r) →
  ∃ done rest,
    (∀ slot, slot ∈ done ++ rest ↔ hour_label slot = true ∧ is_Some (dir !! _open_path slot)) ∧
    StronglySorted (λ a b, str_leb a b = true) (done ++ rest) ∧
    let passed := filter (λ slot, due (default clock now) slot = true) done in
    moved passed dir dir' ∧
    match r with
    | Ok sealed => rest = [] ∧ sealed = _sealed_path <$> passed
    | Err e => ∃ slot rest', rest = slot :: rest' ∧ _seal_eligible_at slot = Err e
    end.
Proof.
  intros Hc Hr.
  destruct (seal_loop_spec (default clock now) (listing dir) dir dir' r) as (dn & rest & E & Hm & Hx).
  - apply listing_NoDup.
  - intros name slot Hn%elem_of_dir_listing Hs. split; [by apply Hc|done].
  - done.
  - exists dn, rest. fold (open_hours dir) in E. rewrite <- E. split_and!.
    + intros slot. by apply elem_of_open_hours.
    + by apply open_hours_sorted.
    + done.
Qed.

(** ** The properties at concrete inputs *)

Module SpoolExample.
Definition leaf (i t : str) : LeafRecord :=
  {| event_id := i; time := t; payload_hash := replicate 64 97;
     capability_token_hash := replicate 64 98; source := u "did:wakir:a";
     actorrole := u "treasury"; agentid := u "agent-1"; schemaid := u "wakir.read";
     schemaversion := u "0.1.0" |}.

Definition leaf1 : LeafRecord := leaf (u "evt-1") (u "2026-05-06T17:00:00Z").
Definition leaf2 : LeafRecord := leaf (u "evt-2") (u " 2026-05-06T19:59:59.5+02:00").
Definition leaf3 : LeafRecord := leaf (u "evt-3") (u "2026-05-06T18:02:00Z").
Definition hour17 : str := u "2026-05-06T17".

(** 2026-05-06T17:00:00Z and the end of the late window. *)
Definition at17 : Z := 1778086800000000.
Definition at1805 : Z := at17 + 65 * minute.

Definition ops1 : list op :=
  [Append leaf1; SealDue None (at1805 - 1); Append leaf2; Append leaf3; SealDue None at1805].
Definition ops2 : list op :=
  [Append leaf1; Seal hour17 None false 0; SealDue (Some (at1805 + 60 * minute)) 0].

Definition dir1 : files := (run ops1 ∅).1.
Definition trace1 : list (op * output) := (run ops1 ∅).2.
Definition text17 : str := line_of leaf1 ++ line_of leaf2.

Example hours1 :
  iter_sealed_hours dir1 = [(hour17, _sealed_path hour17)] ∧
  open_hours dir1 = [u "2026-05-06T18"].
Proof. split; vm_compute; reflexivity. Qed.

(** An offset other than zero is accepted and converted. *)
Example offset_hour : hour_slot_for_time (time leaf2) = Ok hour17.
Proof. vm_compute. reflexivity. Qed.

(** A time in the last hour of the calendar is accepted, and its file makes
    every later [seal_due_hours] raise. *)
Example last_hour_raises :
  let dir := (run [Append (leaf (u "e") (u "9999-12-31T23:00:00Z"))] ∅).1 in
  dir !! u "9999-12-31T23.jsonl" ≠ None ∧
  (seal_due_hours None at1805 dir).2 = Err TimeOverflow.
Proof. split; [|vm_compute; reflexivity]. by vm_compute. Qed.

(** Before the year 1000 the label has fewer digits: the hour is never sealed. *)
Example early_year_unsealed :
  let dir := (run [Append (leaf (u "e") (u "0999-01-01T00:00:00Z"))] ∅).1 in
  dir !! u "999-01-01T00.jsonl" ≠ None ∧ open_hours dir = [].
Proof. split; [by vm_compute|vm_compute; reflexivity]. Qed.

Lemma spool_holds_accepted_witness :
  run ops1 ∅ = (dir1, trace1) ∧ hour_holds dir1 hour17 [leaf1; leaf2].
Proof.
  split; [vm_compute; reflexivity|].
  assert (accepted hour17 trace1 = [leaf1; leaf2]) as <- by (vm_compute; reflexivity).
  apply (spool_holds_accepted ops1). vm_compute. reflexivity.
Defined.

Lemma sealed_hour_final_witness :
  text17 = spool_text (accepted hour17 trace1) ∧
  (run ops2 dir1).1 !! _sealed_path hour17 = Some text17 ∧
  (run ops2 dir1).1 !! _open_path hour17 = None ∧
  accepted hour17 (run ops2 dir1).2 = [].
Proof.
  apply (sealed_hour_final ops1 ops2 dir1 (run ops2 dir1).1 trace1 (run ops2 dir1).2);
    vm_compute; reflexivity.
Defined.

Lemma late_window_kept_witness :
  (append_leaf_to_spool leaf2 (run [Append leaf1; SealDue None (at1805 - 1)] ∅).1).2
  = Ok (_open_path hour17).
Proof.
  apply (late_window_kept [Append leaf1; SealDue None (at1805 - 1)] (at1805 - 1) _
    (run [Append leaf1; SealDue None (at1805 - 1)] ∅).2 leaf2 1778090399500000).
  - vm_compute. reflexivity.
  - repeat constructor. vm_compute. discriminate.
  - vm_compute. reflexivity.
  - split; vm_compute; [discriminate|reflexivity].
  - split; vm_compute; reflexivity.
  - vm_compute. reflexivity.
Defined.

Definition dir17 : files := (run [Append leaf1] ∅).1.
Definition lost : files :=
  (append_write (seal_hour hour17 None true at1805 dir17).1 hour17 leaf2).1.

Lemma interleaved_append_lost_witness :
  (run ops2 lost).1 !! _sealed_path hour17 = Some (line_of leaf1) ∧
  (run ops2 lost).1 !! _open_path hour17 = Some (line_of leaf2).
Proof.
  apply (interleaved_append_lost dir17 (seal_hour hour17 None true at1805 dir17).1 lost leaf2
    hour17 (line_of leaf1) None at1805 (_open_path hour17) (_sealed_path hour17) ops2
    (run ops2 lost).1 (run ops2 lost).2); vm_compute; reflexivity.
Defined.

(** Every run reports the hour as newly sealed. *)
Example lost_reported : (seal_due_hours None at1805 lost).2 = Ok [_sealed_path hour17].
Proof. vm_compute. reflexivity. Qed.

Lemma dir17_clean : clean dir17.
Proof.
  intros name slot Hn%elem_of_dir_listing.
  assert (listing dir17 = [_open_path hour17]) as E by (vm_compute; reflexivity).
  rewrite E, list_elem_of_singleton in Hn. subst name.
  rewrite match_open_path by (vm_compute; reflexivity). by intros [= <-].
Qed.

Lemma seal_due_spec_witness :
  ∃ done rest,
    (∀ slot, slot ∈ done ++ rest ↔
       hour_label slot = true ∧ is_Some (dir17 !! _open_path slot)) ∧
    StronglySorted (λ a b, str_leb a b = true) (done ++ rest) ∧
    moved (filter (λ slot, due at1805 slot = true) done) dir17
      (seal_due_hours None at1805 dir17).1 ∧
    rest = [] ∧ [_sealed_path hour17] = _sealed_path <$> filter (λ slot, due at1805 slot = true) done.
Proof.
  apply (seal_due_spec None at1805 dir17 (seal_due_hours None at1805 dir17).1
    (Ok [_sealed_path hour17]) dir17_clean).
  vm_compute. reflexivity.
Defined.
End SpoolExample.
