(* ===== verification/SpoolFlow.v ===== *)
(** * From frames to the manifest

    The spool's lines as the hourly build reads them: a sealed hour reads back
    as the leaves that were accepted for it, in order, so that the build of
    the hour succeeds when every leaf carries a capability digest and fails as
    a whole when one does not. *)

From S2P Require Import Prelude PyStr PyRepr PyTime PyIso PyHour Sha256 PyJson PyJsonLoads PyJsonPretty PyDyn Merkle Signing Jcs Manifest Bridge Spool.
From Stdlib Require Import ZArith Lia.
Import Aggregator AggregatorCli SpoolWriter WirelangBridge.

Open Scope Z_scope.

(** ** One line *)

Definition leaf_json (l : LeafRecord) : json := JObj (to_jsonl_dict l).

(** No newline and no carriage return. *)
Definition no_break (s : str) : Prop := Forall (λ c, c ≠ 10 ∧ c ≠ 13) s.

Lemma no_break_lit s : bool_decide (10 ∉ s ∧ 13 ∉ s) = true → no_break s.
Proof.
  intros [H1 H2]%bool_decide_eq_true. apply Forall_forall. intros c Hc. split; by intros ->.
Qed.

Lemma no_break_escape c : no_break (escape_char c).
Proof.
  unfold escape_char. repeat case_match; try (by apply no_break_lit); propify.
  - assert (∀ n, 0 ≤ n < 16 → hex_digit n ≠ 10 ∧ hex_digit n ≠ 13) as Hh.
    { intros n Hn. unfold hex_digit. destruct (Z.ltb_spec n 10); lia. }
    unfold u_escape. repeat constructor; try done; apply Hh; divlia.
  - repeat constructor; lia.
Qed.

Lemma no_break_quote s : no_break (quote false s).
Proof.
  unfold quote. constructor; [done|]. apply Forall_app. split; [|by apply no_break_lit].
  induction s as [|c s IH]; csimpl; [constructor|].
  apply Forall_app. split; [apply no_break_escape|done].
Qed.

(** A line is its members between braces. *)
Definition member_line (k v : str) : str := quote false k ++ u ":" ++ quote false v.

Lemma leaf_text l :
  json_dumps false false (leaf_json l) =
  123 :: join (u ",") ((λ kv : str * str, member_line kv.1 kv.2) <$>
    [(u "event_id", event_id l); (u "time", time l); (u "payload_hash", payload_hash l);
     (u "capability_token_hash", capability_token_hash l); (u "source", source l);
     (u "actorrole", actorrole l); (u "agentid", agentid l); (u "schemaid", schemaid l);
     (u "schemaversion", schemaversion l)]) ++ [125].
Proof. reflexivity. Qed.

Lemma no_break_line l : no_break (json_dumps false false (leaf_json l)).
Proof.
  rewrite leaf_text. constructor; [done|]. apply Forall_app. split; [|by apply no_break_lit].
  assert (∀ ls : list str, Forall no_break ls → no_break (join (u ",") ls)) as Hjoin.
  { induction 1 as [|x ls Hx Hl IH]; [constructor|]. destruct ls as [|y ls]; [done|].
    rewrite join_cons2. apply Forall_app. split; [done|].
    apply Forall_app. split; [by apply no_break_lit|done]. }
  apply Hjoin, Forall_fmap, Forall_forall. intros [k v] _. unfold compose, member_line.
  apply Forall_app. split; [apply no_break_quote|].
  apply Forall_app. split; [by apply no_break_lit|apply no_break_quote].
Qed.

Lemma lstrip_head c s : is_space c = false → lstrip (c :: s) = c :: s.
Proof. intros H. cbn [lstrip]. by rewrite H. Qed.

Lemma strip_braces s : strip (123 :: s ++ [125]) = 123 :: s ++ [125].
Proof.
  unfold strip. rewrite lstrip_head by done.
  assert (reverse (123 :: s ++ [125]) = 125 :: reverse (123 :: s)) as ->
    by (by rewrite app_comm_cons, reverse_app).
  rewrite lstrip_head by done. by rewrite reverse_cons, reverse_involutive.
Qed.

(** Every text of an accepted leaf can be encoded. *)
Lemma leaf_wf l : encodable (line_of l) = true → json_wf (leaf_json l).
Proof.
  unfold line_of. intros He. fold (leaf_json l) in He. rewrite leaf_text in He.
  rewrite encodable_app, andb_true_iff in He. destruct He as [He _].
  change (123 :: ?t) with ([123] ++ t) in He.
  rewrite !encodable_app, !andb_true_iff in He. destruct He as (_ & He & _).
  apply encodable_join, Forall_fmap in He. unfold compose, member_line in He.
  assert (∀ k v, encodable (quote false k ++ u ":" ++ quote false v) = true →
    okstr k ∧ okstr v) as Hkv.
  { intros k v. rewrite !encodable_app, !andb_true_iff. intros (Hk & _ & Hv).
    split; by apply encodable_quote. }
  apply json_wf_obj. split; [apply (bool_decide_unpack _); by vm_compute|].
  rewrite !Forall_cons in He. cbn [fst snd] in He. unfold to_jsonl_dict.
  rewrite !Forall_cons. cbn [fst snd json_wf].
  destruct He as (H1 & H2 & H3 & H4 & H5 & H6 & H7 & H8 & H9 & _).
  apply Hkv in H1, H2, H3, H4, H5, H6, H7, H8, H9.
  split_and!; (by apply Forall_nil) || naive_solver.
Qed.

Lemma read_line l :
  encodable (line_of l) = true →
  json_loads (strip (json_dumps false false (leaf_json l))) = Some (leaf_json l).
Proof.
  intros He. rewrite leaf_text, strip_braces, <- leaf_text.
  by rewrite json_loads_dumps by by apply leaf_wf.
Qed.

(** ** The file of an hour *)

Lemma spool_text_cons l ls : spool_text (l :: ls) = json_dumps false false (leaf_json l) ++ 10 :: spool_text ls.
Proof. unfold spool_text. csimpl. unfold line_of. by rewrite <- app_assoc. Qed.

Lemma spool_text_no_cr ls : no_cr (spool_text ls).
Proof.
  induction ls as [|l ls IH]; [constructor|]. rewrite spool_text_cons.
  apply Forall_app. split; [|by constructor].
  eapply Forall_impl; [apply no_break_line|]. by intros c [].
Qed.

Lemma read_spool_lines n ls :
  Forall (λ l, encodable (line_of l) = true) ls →
  read_lines n (split_on 10 (spool_text ls)) = Ok (to_jsonl_dict <$> ls).
Proof.
  intros Hls. revert n. induction Hls as [|l ls Hl _ IH]; intros n; [done|].
  rewrite spool_text_cons, split_on_app.
  2:{ intros Hin. pose proof (no_break_line l) as Hn. unfold no_break in Hn. rewrite Forall_forall in Hn.
      by destruct (Hn 10 Hin). }
  cbn [read_lines]. rewrite read_line by done.
  replace (str_empty (strip _)) with false.
  - by rewrite IH.
  - rewrite leaf_text, strip_braces. done.
Qed.

(** ** The build of an hour *)

Section flow.
Context `{Sha256, Rfc8785, Ed25519, PemLoader, !Rfc8785Conforms}.

(** The hash-input texts of an event can be encoded. *)
Definition event_ok (e : b1_event) : Prop := json_wf (b1_json e).

Lemma event_leaf_total e : event_ok e → is_Some (utf8_encode (json_dumps false true (b1_json e))).
Proof.
  intros He. apply utf8_encode_encodable, forallb_forall. intros c Hc%list_elem_of_In.
  assert (json_wf (json_sort (b1_json e))) as Hw by by apply json_sort_wf.
  apply Jcs.print_okchars in Hw. rewrite Forall_forall in Hw. by apply Hw.
Qed.

Lemma leaf_entry_total ev e : b1_of ev e → event_ok e → ∃ x, leaf_entry ev = Ok x.
Proof.
  intros (Hi & Ht & Hp & Hc) He. destruct (event_leaf_total e He) as [b Hb].
  unfold leaf_entry. rewrite (proj2 (item_ok _ _ _) Hi), (proj2 (item_ok _ _ _) Ht),
    (proj2 (item_ok _ _ _) Hp), (proj2 (item_ok _ _ _) Hc).
  cbn [mbind result_bind]. unfold compute_leaf_hash. rewrite canonicalise_tuple.
  destruct e as [i t p c]. unfold b1_json in Hb. cbn in Hb |- *. rewrite Hb. cbn. eauto.
Qed.

Lemma mapM_total {E A B} (f : A → result E B) l :
  (∀ x, x ∈ l → ∃ y, f x = Ok y) → ∃ k, mapM f l = Ok k.
Proof.
  intros Hf. enough (∃ k, Forall2 (λ x y, f x = Ok y) l k) as [k Hk]
    by (exists k; by apply mapM_ok).
  induction l as [|x l IH]; [by exists []|].
  destruct (Hf x ltac:(left)) as [y Hy]. destruct IH as [k Hk]; [intros; apply Hf; by right|].
  exists (y :: k). by constructor.
Qed.

(** A batch of valid events whose texts can be encoded has a manifest. *)
Lemma manifest_total hour bt prev raw :
  raw ≠ [] → Forall valid_event raw → (∀ ev e, ev ∈ raw → b1_of ev e → event_ok e) →
  ∃ m, manifest_of_events hour bt prev raw = Ok m.
Proof.
  intros Hne Hv Hok. unfold manifest_of_events.
  rewrite (proj2 (validate_ok raw raw)) by done. rewrite bind_Ok.
  assert (∀ ev, ev ∈ raw → ∃ e, b1_of ev e) as Hb1.
  { intros ev Hin. rewrite Forall_forall in Hv. destruct (Hv ev Hin) as (e & ? & _). eauto. }
  destruct (mapM_total decorate raw) as [dec Hdec].
  { intros ev (e & He)%Hb1. eexists. apply decorate_ok. split; [by apply sort_key_b1|done]. }
  assert (_sorted_by_time_then_event_id raw = Ok (py_sorted decorated_leb dec).*2) as Hs
    by (unfold _sorted_by_time_then_event_id; by rewrite Hdec).
  rewrite Hs, bind_Ok. pose proof (sorted_events_ok _ _ Hs) as [Hp _].
  generalize dependent (py_sorted decorated_leb dec).*2. intros evs _ Hp.
  unfold _build_manifest_object.
  destruct (mapM_total leaf_entry evs) as [xs Hx].
  { intros ev Hin. rewrite Hp in Hin. destruct (Hb1 ev Hin) as [e He].
    by apply (leaf_entry_total ev e He), (Hok ev). }
  rewrite Hx, bind_Ok. apply mapM_ok in Hx.
  assert (Forall is_hash xs.*1) as Hh.
  { apply Forall_fmap. apply (Forall2_Forall_r _ _ _ _ Hx). apply Forall_forall.
    intros ev _ x Hev. unfold leaf_entry in Hev. run_ok. unfold compose, is_hash. cbn [fst].
    unfold compute_leaf_hash in *. run_ok. apply sha256_length. }
  assert (xs.*1 ≠ []) as Hxs.
  { intros E. apply Hne. apply fmap_nil_inv in E. subst xs.
    apply Forall2_nil_inv_r in Hx. subst evs. by apply Permutation_nil_l in Hp. }
  destruct (build_tower _ Hxs Hh) as (root & levels & Hb & _). rewrite Hb. cbn. eauto.
Qed.
Lemma b1_of_fun ev e1 e2 : b1_of ev e1 → b1_of ev e2 → e1 = e2.
Proof.
  intros (H11 & H12 & H13 & H14) (H21 & H22 & H23 & H24). destruct e1, e2. cbn in *. congruence.
Qed.

Lemma leaf_event_ok l ev e :
  encodable (line_of l) = true → ev = to_jsonl_dict l → b1_of ev e →
  e = b1_of_leaf l ∧ event_ok e.
Proof.
  intros He%leaf_wf -> Hb. pose proof (b1_of_fun _ _ _ Hb (leaf_dict_b1 l)) as ->.
  split; [done|]. unfold event_ok, b1_json, tuple_obj.
  apply json_wf_obj in He as [_ He]. unfold to_jsonl_dict in He. rewrite !Forall_cons in He.
  destruct He as ([??]&[??]&[??]&[??]&_).
  apply json_wf_obj. split; [apply (bool_decide_unpack _); by vm_compute|]. by repeat constructor.
Qed.

Lemma b1_of_leaves evs es leaves :
  (∀ l, l ∈ leaves → encodable (line_of l) = true) →
  Forall2 b1_of evs es → evs ≡ₚ to_jsonl_dict <$> leaves → es ≡ₚ b1_of_leaf <$> leaves.
Proof.
  intros He Hb Hp. apply Permutation_map_inv in Hp as (ls & -> & Hp).
  assert (∀ l, l ∈ ls → encodable (line_of l) = true) as He' by (intros l; rewrite <- Hp; apply He).
  rewrite Hp. clear -He' Hb. change (Forall2 b1_of (to_jsonl_dict <$> ls) es) in Hb.
  revert es Hb. induction ls as [|l ls IH]; intros es; csimpl.
  - by intros ->%Forall2_nil_inv_l.
  - intros (e & es' & Hl & Hr & ->)%Forall2_cons_inv_l.
    destruct (leaf_event_ok l _ e (He' l ltac:(left)) eq_refl Hl) as [-> _].
    constructor. apply IH; [|done]. intros; apply He'; by right.
Qed.

(** What the build reads from the sealed file of an hour. *)
Lemma read_sealed ops dir trace slot text fs input :
  run ops ∅ = (dir, trace) → dir !! _sealed_path slot = Some text → fs !! input = Some text →
  _read_events fs input = Ok (to_jsonl_dict <$> accepted slot trace).
Proof.
  intros Hr Hs Hi. pose proof (run_holds _ _ _ _ slot [] Hr (empty_holds slot)) as Hh.
  unfold hour_holds in Hh. rewrite Hs in Hh. cbn [app] in Hh.
  destruct (dir !! _open_path slot); [done|]. subst text.
  unfold _read_events. rewrite Hi. cbn [of_option mbind result_bind].
  rewrite universal_newlines_id by apply spool_text_no_cr.
  apply read_spool_lines. by eapply run_encodable.
Qed.

Lemma accepted_encodable ops dir dir' trace slot l :
  run ops dir = (dir', trace) → l ∈ accepted slot trace → encodable (line_of l) = true.
Proof.
  intros Hr. pose proof (run_encodable _ _ _ _ slot Hr) as Hf. rewrite Forall_forall in Hf. auto.
Qed.

(** C7: A sealed hour whose leaves all come from frames with a capability digest
    is built: the manifest lists exactly the accepted leaves of the hour, in
    (time, event_id) order, each by its four hashed members and its leaf hash
    (the audit members of the spool line are not in the manifest), and each has
    an inclusion proof that verifies against the root. *)
Theorem sealed_hour_builds ops dir trace slot text fs bt input prev frames :
  run ops ∅ = (dir, trace) → dir !! _sealed_path slot = Some text → fs !! input = Some text →
  Forall2 (λ frame l, project_l1_frame_to_leaf frame = Ok l) frames (accepted slot trace) →
  Forall has_capability frames → frames ≠ [] →
  ∃ events leaves root levels,
    build_manifest fs bt slot input prev None None
      = Ok (manifest_spec slot bt prev events leaves root levels) ∧
    events ≡ₚ b1_of_leaf <$> accepted slot trace ∧
    StronglySorted (λ a b, sort_key_leb a b = true) (event_key <$> events) ∧
    event_leaves events leaves ∧
    ∀ i leaf, leaves !! i = Some leaf →
      ∃ p, merkle_proof leaves (Z.of_nat i) = Ok p ∧ verify_merkle_proof leaf p root = Ok true.
Proof.
  intros Hr Hs Hi Hf Hcap Hne. pose proof (read_sealed _ _ _ _ _ _ _ Hr Hs Hi) as Hread.
  assert (∀ l, l ∈ accepted slot trace → encodable (line_of l) = true) as Henc
    by (intros l; by eapply accepted_encodable).
  assert (Forall valid_event (to_jsonl_dict <$> accepted slot trace)) as Hval.
  { apply Forall_fmap. apply (Forall2_Forall_r _ _ _ _ Hf).
    eapply Forall_impl; [exact Hcap|]. intros frame Hc l Hl. by apply (project_valid frame). }
  assert (accepted slot trace ≠ []) as Hacc.
  { intros E. rewrite E in Hf. by apply Forall2_nil_inv_r in Hf. }
  destruct (manifest_total slot bt prev _ (λ E, Hacc (fmap_nil_inv _ _ E)) Hval) as [m Hm].
  { intros ev e (l & -> & Hl)%list_elem_of_fmap Hb. by eapply (leaf_event_ok l), Hb; [apply Henc|]. }
  pose proof Hm as (_ & evs & es & ls & root & lv & Hp & Hb & Hsort & Hl & Ht & ->)%manifest_ok.
  exists es, ls, root, lv. split_and!; [|by eapply b1_of_leaves|done|done|].
  - unfold build_manifest. cbn [_resolve_signing_config]. rewrite bind_Ok, Hread, bind_Ok.
    destruct (accepted slot trace) as [|l accs]; [done|]. csimpl in Hm. csimpl.
    by rewrite Hm.
  - intros i leaf Hleaf. destruct (proof_complete _ _ _ _ _ Ht Hleaf) as (p & ? & _ & ?). eauto.
Qed.

(** One accepted frame without a capability digest, for example without any
    reference, makes the build of its whole hour fail: the command raises a
    [ValidationError] and writes nothing. *)
Theorem capless_frame_fails_hour ops dir trace slot text fs bt input output prev key kid frame l :
  run ops ∅ = (dir, trace) → dir !! _sealed_path slot = Some text → fs !! input = Some text →
  project_l1_frame_to_leaf frame = Ok l → l ∈ accepted slot trace → ¬ has_capability frame →
  ∃ e, build_command fs bt slot input output prev key kid = (fs, Err e) ∧
    is_validation_error e = true.
Proof.
  intros Hr Hs Hi Hp Hl Hcap. apply (build_rejects _ _ _ _ _ _ _ _ _ (read_sealed _ _ _ _ _ _ _ Hr Hs Hi)).
  rewrite Forall_fmap, Forall_forall. intros Hv. by apply Hcap, (project_valid frame l), Hv.
Qed.
End flow.

(** ** The properties at concrete inputs *)

Module SpoolFlowExample.
#[local] Existing Instance checksum_sha256.
#[local] Existing Instance std_rfc8785.
#[local] Existing Instance std_rfc8785_conforms.
#[local] Existing Instance plain_ed25519.
#[local] Existing Instance no_pem.

Definition frame (i t : str) (caprefs : list json) : dict :=
  [(u "id", JStr i); (u "time", JStr t); (u "source", JStr (u "did:wakir:a"));
   (u "schemaid", JStr (u "wakir.read")); (u "schemaversion", JStr (u "0.1.0"));
   (u "actorrole", JStr (u "treasury")); (u "agentid", JInt 7);
   (u "data", JObj [(u "n", JInt 1)]); (u "caprefs", JList caprefs)].

Definition capability : json := JStr (u "sha256:" ++ replicate 64 97).
Definition frame1 : dict := frame (u "evt-1") (u "2026-05-06T17:10:00Z") [capability].
Definition frame2 : dict := frame (u "evt-2") (u "2026-05-06T17:05:00Z") [capability; JInt 3].
Definition frame3 : dict := frame (u "evt-3") (u "2026-05-06T17:20:00Z") [].

Definition no_leaf : LeafRecord := SpoolExample.leaf [] [].
Definition leaf_of (f : dict) : LeafRecord := ok_or no_leaf (project_l1_frame_to_leaf f).
Definition hour17 : str := SpoolExample.hour17.

Definition ops12 : list op :=
  [Append (leaf_of frame1); Append (leaf_of frame2); Seal hour17 None true SpoolExample.at1805].
Definition ops123 : list op := Append (leaf_of frame3) :: ops12.

Definition sealed_text (ops : list op) : str :=
  default [] ((Spool.run ops ∅).1 !! _sealed_path hour17).
Definition fs_of (ops : list op) : files := {[ u "spool" := sealed_text ops ]}.
Definition build_time : str := u "2026-05-06T18:06:00Z".

Lemma capable f : f = frame1 ∨ f = frame2 → has_capability f.
Proof.
  intros Hf. exists (u "sha256:" ++ replicate 64 97).
  split; [by destruct Hf as [-> | ->]|]. exists (replicate 64 97). split; [by vm_compute|by left].
Qed.

Lemma sealed_hour_builds_witness :
  ∃ events leaves root levels,
    build_manifest (fs_of ops12) build_time hour17 (u "spool") None None None
      = Ok (manifest_spec hour17 build_time None events leaves root levels) ∧
    events ≡ₚ b1_of_leaf <$> accepted hour17 (Spool.run ops12 ∅).2 ∧
    StronglySorted (λ a b, sort_key_leb a b = true) (event_key <$> events) ∧
    event_leaves events leaves ∧
    ∀ i leaf, leaves !! i = Some leaf →
      ∃ p, merkle_proof leaves (Z.of_nat i) = Ok p ∧ verify_merkle_proof leaf p root = Ok true.
Proof.
  apply (sealed_hour_builds ops12 (Spool.run ops12 ∅).1 (Spool.run ops12 ∅).2 hour17
    (sealed_text ops12) (fs_of ops12) build_time (u "spool") None [frame1; frame2]).
  - vm_compute. reflexivity.
  - vm_compute. reflexivity.
  - vm_compute. reflexivity.
  - assert (accepted hour17 (Spool.run ops12 ∅).2 = [leaf_of frame1; leaf_of frame2]) as ->
      by (vm_compute; reflexivity).
    repeat constructor; vm_compute; reflexivity.
  - repeat constructor; apply capable; auto.
  - discriminate.
Defined.

Lemma capless_frame_fails_hour_witness :
  ∃ e, build_command (fs_of ops123) build_time hour17 (u "spool") (u "out") None None None
    = (fs_of ops123, Err e) ∧ is_validation_error e = true.
Proof.
  apply (capless_frame_fails_hour ops123 (Spool.run ops123 ∅).1 (Spool.run ops123 ∅).2 hour17
    (sealed_text ops123) (fs_of ops123) build_time (u "spool") (u "out") None None None
    frame3 (leaf_of frame3)).
  - vm_compute. reflexivity.
  - vm_compute. reflexivity.
  - vm_compute. reflexivity.
  - vm_compute. reflexivity.
  - assert (accepted hour17 (Spool.run ops123 ∅).2 = leaf_of frame3 :: (leaf_of <$> [frame1; frame2]))
      as -> by (vm_compute; reflexivity). left.
  - intros (s & Hs & _). discriminate Hs.
Defined.

(** The error of the build names the field of the frame without references. *)
Example capless_error :
  (build_command (fs_of ops123) build_time hour17 (u "spool") (u "out") None None None).2
  = Err (NotHex64 0 (u "capability_token_hash")).
Proof. vm_compute. reflexivity. Qed.
End SpoolFlowExample.
