(* ===== verification/KidResolver.v ===== *)
(** * Key identifiers ([wirelang/identity/kid_resolver.py], [wat/identity/anchor_kid.py])

    The resolver from a key identifier to the Ed25519 key of an AIP document,
    the listing of the identifiers it would accept, and the audit trail's
    bridge to it.  A document is a JSON value; errors keep the check that
    failed, not its text.

    The theorems: the resolver accepts exactly a unique, well-formed entry
    that is inside its window and has the purpose; the listing contains every
    identifier the resolver accepts, and on documents of mappings with readable
    windows nothing else; the bridge resolves exactly audit-trail keys. *)

From S2P Require Import Prelude PyStr PyJson PyTime PyIso.
From Stdlib Require Import ZArith Lia Sorted.

Open Scope Z_scope.

Inductive kid_cause : Type :=
| DocNotMapping
| KidNotText
| PublicKeysMissing
| PublicKeysNotSequence
| PublicKeysEmpty
| EntryNotMapping (idx : nat)
| KidNotFound
| DuplicateKid (indices : list nat)
| AlgNotEd25519 (idx : nat)
| KeyHexMissing (idx : nat)
| KeyHexNotText (idx : nat)
| KeyHexLength (idx : nat) (n : nat)
| KeyHexInvalid (idx : nat)
| KeyBytesLength (idx : nat) (n : nat)
| WindowNotText (field : str)
| WindowNotRfc3339 (field : str)
| NotYetValid (idx : nat)
| Expired (idx : nat)
| PurposeMismatch (idx : nat).

(** [KidResolverError] and the [OverflowError] of [astimezone]. *)
Inductive kid_error : Type :=
| KidResolverError (c : kid_cause)
| TimeOverflow.

Module KidResolver.

Definition SUPPORTED_ALG : str := u "Ed25519".
Definition _ED25519_KEY_LEN : nat := 32.
Definition _ED25519_KEY_HEX_LEN : nat := 64.

Record ResolvedPublicKey := MkResolved {
  kid : str;
  public_key : bytes;
  validafter : option datetime;
  validuntil : option datetime;
  purpose : option str;
}.

Notation entry := (list (str * json)).

(** [entry.get(k)]: a missing member reads as [None]. *)
Definition member (e : entry) (k : str) : json := default JNull (dict_get e k).

Definition is_text (j : json) (s : str) : bool :=
  match j with JStr t => str_eqb t s | _ => false end.

Definition _ensure_utc (d : datetime) : result kid_error datetime :=
  match d with
  | Naive us => Ok (Aware us)
  | Aware us => raise_if (negb (in_calendar us)) TimeOverflow;; Ok d
  end.

Definition as_of_utc (as_of : option datetime) : result kid_error (option datetime) :=
  match as_of with
  | Some t => t ← _ensure_utc t; Ok (Some t)
  | None => Ok None
  end.

Definition _parse_rfc3339 (value : json) (field : str) : result kid_error datetime :=
  match value with
  | JStr text =>
      let text := if endswith text (u "Z")
                  then take (length text - 1) text ++ u "+00:00" else text in
      parsed ← of_option (KidResolverError (WindowNotRfc3339 field)) (fromisoformat text);
      _ensure_utc parsed
  | _ => Err (KidResolverError (WindowNotText field))
  end.

(** One bound of the window; [None] when it is absent. *)
Definition read_bound (e : entry) (field : str) : result kid_error (option datetime) :=
  match member e field with
  | JNull => Ok None
  | raw => d ← _parse_rfc3339 raw field; Ok (Some d)
  end.

(** [a < b] between two times in UTC. *)
Definition before (a b : datetime) : bool := default false (dt_lt a b).

(** ** Resolving *)

Fixpoint find_matches (k : str) (idx : nat) (l : list json)
    : result kid_error (list (nat * entry)) :=
  match l with
  | [] => Ok []
  | JObj e :: rest =>
      ms ← find_matches k (S idx) rest;
      Ok (if is_text (member e (u "kid")) k then (idx, e) :: ms else ms)
  | _ :: _ => Err (KidResolverError (EntryNotMapping idx))
  end.

Definition the_match (k : str) (ms : list (nat * entry)) : result kid_error (nat * entry) :=
  match ms with
  | [] => Err (KidResolverError KidNotFound)
  | [m] => Ok m
  | _ => Err (KidResolverError (DuplicateKid ms.*1))
  end.

Definition read_key (idx : nat) (e : entry) : result kid_error bytes :=
  let fail c := KidResolverError c in
  raise_if (negb (is_text (member e (u "alg")) SUPPORTED_ALG)) (fail (AlgNotEd25519 idx));;
  match dict_get e (u "key_hex") with
  | None => Err (fail (KeyHexMissing idx))
  | Some (JStr key_hex) =>
      raise_if (negb (Nat.eqb (length key_hex) _ED25519_KEY_HEX_LEN))
        (fail (KeyHexLength idx (length key_hex)));;
      key ← of_option (fail (KeyHexInvalid idx)) (bytes_fromhex key_hex);
      raise_if (negb (Nat.eqb (length key) _ED25519_KEY_LEN))
        (fail (KeyBytesLength idx (length key)));;
      Ok key
  | Some _ => Err (fail (KeyHexNotText idx))
  end.

Definition check_window (idx : nat) (va vu : option datetime) (as_of : option datetime)
    : result kid_error () :=
  match as_of with
  | None => Ok ()
  | Some t =>
      t ← _ensure_utc t;
      raise_if (match va with Some a => before t a | None => false end)
        (KidResolverError (NotYetValid idx));;
      raise_if (match vu with Some b => negb (before t b) | None => false end)
        (KidResolverError (Expired idx))
  end.

Definition public_keys_of (aip_doc : json) : result kid_error (list json) :=
  match aip_doc with
  | JObj doc =>
      keys ← of_option (KidResolverError PublicKeysMissing) (dict_get doc (u "public_keys"));
      match keys with
      | JList l => Ok l
      | _ => Err (KidResolverError PublicKeysNotSequence)
      end
  | _ => Err (KidResolverError DocNotMapping)
  end.

Definition resolve_kid (aip_doc : json) (k : str) (as_of : option datetime)
    (require_purpose : option str) : result kid_error ResolvedPublicKey :=
  match aip_doc with JObj _ => Ok () | _ => Err (KidResolverError DocNotMapping) end;;
  raise_if (str_empty k) (KidResolverError KidNotText);;
  keys ← public_keys_of aip_doc;
  raise_if (match keys with [] => true | _ => false end) (KidResolverError PublicKeysEmpty);;
  ms ← find_matches k 0 keys;
  '(idx, e) ← the_match k ms;
  key ← read_key idx e;
  va ← read_bound e (u "validafter");
  vu ← read_bound e (u "validuntil");
  check_window idx va vu as_of;;
  match require_purpose with
  | Some want => raise_if (negb (is_text (member e (u "purpose")) want))
                   (KidResolverError (PurposeMismatch idx))
  | None => Ok ()
  end;;
  Ok (MkResolved k key va vu
        (match member e (u "purpose") with JStr p => Some p | _ => None end)).

(** ** Listing *)

(** The identifier of an entry that can be listed at all. *)
Definition kid_of (j : json) : option str :=
  match j with
  | JObj e => match member e (u "kid") with
              | JStr k => if str_empty k then None else Some k
              | _ => None
              end
  | _ => None
  end.

Definition kid_count (keys : list json) (k : str) : nat :=
  length (filter (λ j, kid_of j = Some k) keys).

Definition hex_key_ok (e : entry) : bool :=
  match member e (u "key_hex") with
  | JStr key_hex =>
      Nat.eqb (length key_hex) _ED25519_KEY_HEX_LEN &&
      match bytes_fromhex key_hex with
      | Some key => Nat.eqb (length key) _ED25519_KEY_LEN
      | None => false
      end
  | _ => false
  end.

(** The window of a listed entry; an unreadable bound drops the entry. *)
Definition window_ok (e : entry) (t : datetime) : result kid_error bool :=
  match (va ← read_bound e (u "validafter"); vu ← read_bound e (u "validuntil"); Ok (va, vu)) with
  | Ok (va, vu) =>
      Ok (negb (match va with Some a => before t a | None => false end) &&
          negb (match vu with Some b => negb (before t b) | None => false end))
  | Err (KidResolverError _) => Ok false
  | Err TimeOverflow => Err TimeOverflow
  end.

(** One turn of the loop: is the entry listed? *)
Definition list_turn (keys : list json) (as_of : option datetime)
    (require_purpose : option str) (j : json) : result kid_error (option str) :=
  match j, kid_of j with
  | JObj e, Some k =>
      if negb (Nat.eqb (kid_count keys k) 1) then Ok None
      else if negb (is_text (member e (u "alg")) SUPPORTED_ALG) then Ok None
      else if negb (hex_key_ok e) then Ok None
      else
        inside ← match as_of with Some t => window_ok e t | None => Ok true end;
        if negb inside then Ok None
        else match require_purpose with
             | Some want =>
                 Ok (if is_text (member e (u "purpose")) want then Some k else None)
             | None => Ok (Some k)
             end
  | _, _ => Ok None
  end.

Definition list_resolvable_kids (aip_doc : json) (as_of : option datetime)
    (require_purpose : option str) : result kid_error (list str) :=
  keys ← public_keys_of aip_doc;
  t ← as_of_utc as_of;
  turns ← mapM (list_turn keys t require_purpose) keys;
  Ok (py_sorted str_leb (omap id turns)).
End KidResolver.

(** ** The audit trail's bridge *)

Module AnchorKid.

Inductive anchor_kid_error : Type :=
| WatAnchorKidError (c : option kid_cause)   (* [None]: a malformed reference *)
| AnchorTimeOverflow.

Definition PURPOSE_WAT_ANCHOR : str := u "wat-anchor".

Record WatAnchorKidRef := MkRef { ref_kid : str; as_of : option datetime }.

Record ResolvedAnchorKey := MkAnchorKey {
  anchor_kid : str;
  anchor_public_key : bytes;
  anchor_validafter : option datetime;
  anchor_validuntil : option datetime;
}.

Definition validate_anchor_kid_ref_shape (r : WatAnchorKidRef) : result anchor_kid_error () :=
  raise_if (str_empty (ref_kid r)) (WatAnchorKidError None).

Definition anchor_error (e : kid_error) : anchor_kid_error :=
  match e with
  | KidResolverError c => WatAnchorKidError (Some c)
  | TimeOverflow => AnchorTimeOverflow
  end.

Definition resolve_wat_anchor_kid (aip_doc : json) (r : WatAnchorKidRef)
    : result anchor_kid_error ResolvedAnchorKey :=
  validate_anchor_kid_ref_shape r;;
  t ← map_err anchor_error (KidResolver.as_of_utc (as_of r));
  resolved ← map_err anchor_error
    (KidResolver.resolve_kid aip_doc (ref_kid r) t (Some PURPOSE_WAT_ANCHOR));
  Ok (MkAnchorKey (KidResolver.kid resolved) (KidResolver.public_key resolved)
        (KidResolver.validafter resolved) (KidResolver.validuntil resolved)).
End AnchorKid.

(** ** Specification *)

Module KidSpec.
Import KidResolver.

Definition is_mapping (j : json) : Prop := ∃ e, j = JObj e.

(** The Ed25519 key an entry carries. *)
Definition key_material (e : entry) (key : bytes) : Prop :=
  member e (u "alg") = JStr SUPPORTED_ALG ∧
  ∃ h, dict_get e (u "key_hex") = Some (JStr h) ∧ length h = 64%nat ∧
       bytes_fromhex h = Some key ∧ length key = 32%nat.

(** The point in time lies in the half-open window. *)
Definition inside (va vu as_of : option datetime) : Prop :=
  match as_of with
  | None => True
  | Some t => ∃ t', _ensure_utc t = Ok t' ∧
      (∀ a, va = Some a → before t' a = false) ∧ (∀ b, vu = Some b → before t' b = true)
  end.

Definition has_purpose (e : entry) (want : option str) : Prop :=
  ∀ w, want = Some w → member e (u "purpose") = JStr w.

(** The entry [e] is the only one of the document with the identifier [k]. *)
Definition unique_entry (aip_doc : json) (k : str) (keys : list json) (e : entry) : Prop :=
  public_keys_of aip_doc = Ok keys ∧ Forall is_mapping keys ∧ k ≠ [] ∧
  filter (λ j, kid_of j = Some k) keys = [JObj e].

Definition resolves (aip_doc : json) (as_of : option datetime) (want : option str)
    (r : ResolvedPublicKey) : Prop :=
  ∃ keys e, unique_entry aip_doc (kid r) keys e ∧ key_material e (public_key r) ∧
    read_bound e (u "validafter") = Ok (validafter r) ∧
    read_bound e (u "validuntil") = Ok (validuntil r) ∧
    inside (validafter r) (validuntil r) as_of ∧ has_purpose e want ∧
    purpose r = match member e (u "purpose") with JStr p => Some p | _ => None end.

Lemma is_text_iff j s : is_text j s = true ↔ j = JStr s.
Proof.
  destruct j; cbn; try (by split). unfold str_eqb. rewrite bool_decide_eq_true. naive_solver.
Qed.

Lemma kid_of_iff j k :
  k ≠ [] → kid_of j = Some k ↔ ∃ e, j = JObj e ∧ is_text (member e (u "kid")) k = true.
Proof.
  intros Hk. setoid_rewrite is_text_iff. unfold kid_of.
  destruct j as [| | | | | |e]; try (split; [done|by intros (? & [=] & _)]).
  destruct (member e (u "kid")) as [| | | |s| |] eqn:Em;
    try (split; [done|intros (? & [= <-] & ?); congruence]).
  destruct s as [|c s]; cbn [str_empty]; split.
  - done.
  - intros (? & [= <-] & E). congruence.
  - intros [= <-]. eauto.
  - intros (? & [= <-] & E). congruence.
Qed.

Lemma find_matches_ok k idx keys ms :
  k ≠ [] → find_matches k idx keys = Ok ms →
  Forall is_mapping keys ∧ JObj <$> ms.*2 = filter (λ j, kid_of j = Some k) keys.
Proof.
  intros Hk. revert idx ms. induction keys as [|j keys IH]; intros idx ms Hf; cbn in Hf.
  { apply Ok_inj in Hf as <-. by split. }
  destruct j as [| | | | | |e]; try done.
  apply bind_ok_iff in Hf as (ms' & Hf & <-%Ok_inj). destruct (IH _ _ Hf) as [Hall E].
  split; [constructor; [by exists e|done]|].
  destruct (is_text _ k) eqn:Et.
  - rewrite filter_cons_True by (apply kid_of_iff; eauto). cbn. by rewrite E.
  - rewrite filter_cons_False; [done|]. rewrite kid_of_iff by done.
    intros (e' & [= <-] & ?). congruence.
Qed.

Lemma find_matches_total k idx keys :
  Forall is_mapping keys → ∃ ms, find_matches k idx keys = Ok ms.
Proof.
  intros Hall. revert idx. induction Hall as [|j keys [e ->] _ IH]; intros idx; [by exists []|].
  destruct (IH (S idx)) as [ms E]. cbn. rewrite E, bind_Ok. eauto.
Qed.

Lemma the_match_ok k ms m : the_match k ms = Ok m ↔ ms = [m].
Proof. destruct ms as [|m' [|]]; cbn; naive_solver. Qed.

Lemma unique_match k idx keys :
  k ≠ [] → ∀ e, (∃ i, (ms ← find_matches k idx keys; the_match k ms) = Ok (i, e)) ↔
    Forall is_mapping keys ∧ filter (λ j, kid_of j = Some k) keys = [JObj e].
Proof.
  intros Hk e. split.
  - intros [i (ms & Hf & ->%the_match_ok)%bind_ok_iff].
    by apply find_matches_ok in Hf as [? <-].
  - intros [Hall Hu]. destruct (find_matches_total k idx keys Hall) as [ms Hf].
    pose proof (find_matches_ok _ _ _ _ Hk Hf) as [_ E]. rewrite Hu in E.
    destruct ms as [|[i e'] [|]]; try done. injection E as ->.
    exists i. by rewrite Hf, bind_Ok.
Qed.

Lemma read_key_ok idx e key : read_key idx e = Ok key ↔ key_material e key.
Proof.
  unfold read_key, key_material. split.
  - intros Hr. apply bind_ok_iff in Hr as ([] & Ha%raise_if_ok & Hr).
    apply negb_false_iff, is_text_iff in Ha. split; [done|].
    destruct (dict_get e (u "key_hex")) as [[| | | |h| |]|]; try done.
    apply bind_ok_iff in Hr as ([] & Hl%raise_if_ok & Hr).
    apply bind_ok_iff in Hr as (key' & Hh%of_option_ok & Hr).
    apply bind_ok_iff in Hr as ([] & Hk%raise_if_ok & <-%Ok_inj).
    apply negb_false_iff, Nat.eqb_eq in Hl, Hk. eauto.
  - intros (Ha%is_text_iff & h & -> & Hl & Hh & Hk). rewrite Ha.
    cbn -[Nat.eqb bytes_fromhex]. rewrite Hl, Hh. cbn -[Nat.eqb]. by rewrite Hk.
Qed.

Lemma check_window_ok idx va vu as_of x : check_window idx va vu as_of = Ok x ↔ inside va vu as_of.
Proof.
  destruct x. unfold check_window, inside. destruct as_of as [t|]; [|done]. split.
  - intros (t' & Ht & ([] & Ha%raise_if_ok & Hb%raise_if_ok)%bind_ok_iff)%bind_ok_iff.
    exists t'. split_and!; [done|intros a ->; done|intros b ->; by apply negb_false_iff].
  - intros (t' & -> & Ha & Hb). rewrite bind_Ok.
    assert (match va with Some a => before t' a | None => false end = false) as ->
      by (destruct va; eauto).
    rewrite raise_if_false, bind_Ok.
    assert (match vu with Some b => negb (before t' b) | None => false end = false) as ->
      by (destruct vu; [rewrite Hb|]; done). done.
Qed.

Lemma purpose_check_ok idx e want x :
  match want with
  | Some w => raise_if (negb (is_text (member e (u "purpose")) w))
                (KidResolverError (PurposeMismatch idx))
  | None => Ok ()
  end = Ok x ↔ has_purpose e want.
Proof.
  destruct x. unfold has_purpose. destruct want as [w|]; [|by split].
  rewrite raise_if_ok, negb_false_iff, is_text_iff. naive_solver.
Qed.

Lemma public_keys_mapping aip_doc keys : public_keys_of aip_doc = Ok keys → is_mapping aip_doc.
Proof. destruct aip_doc; try done. by eexists. Qed.

Lemma resolve_ok aip_doc k as_of want r :
  resolve_kid aip_doc k as_of want = Ok r ↔ kid r = k ∧ resolves aip_doc as_of want r.
Proof.
  unfold resolve_kid, resolves, unique_entry. split.
  - intros Hr. apply bind_ok_iff in Hr as ([] & _ & Hr).
    apply bind_ok_iff in Hr as ([] & Hk%raise_if_ok & Hr).
    apply bind_ok_iff in Hr as (keys & Hkeys & Hr).
    apply bind_ok_iff in Hr as ([] & _ & Hr).
    apply bind_ok_iff in Hr as (ms & Hms & Hr).
    apply bind_ok_iff in Hr as ([idx e] & Hm & Hr).
    apply bind_ok_iff in Hr as (key & Hkey%read_key_ok & Hr).
    apply bind_ok_iff in Hr as (va & Hva & Hr). apply bind_ok_iff in Hr as (vu & Hvu & Hr).
    apply bind_ok_iff in Hr as ([] & Hw%check_window_ok & Hr).
    apply bind_ok_iff in Hr as ([] & Hp%purpose_check_ok & <-%Ok_inj). cbn.
    assert (k ≠ []) as Hne by (by destruct k).
    destruct (proj1 (unique_match k 0 keys Hne e)) as [Hall Hu].
    { exists idx. by rewrite Hms, bind_Ok. }
    split; [done|]. by exists keys, e.
  - intros (<- & keys & e & (Hkeys & Hall & Hne & Hu) & Hkey & Hva & Hvu & Hw & Hp & Hpp).
    destruct (public_keys_mapping _ _ Hkeys) as [d ->]. rewrite bind_Ok.
    assert (str_empty (kid r) = false) as -> by (by destruct (kid r)).
    rewrite raise_if_false, bind_Ok, Hkeys, bind_Ok.
    destruct keys as [|j keys]; [done|]. rewrite raise_if_false, bind_Ok.
    destruct (proj2 (unique_match (kid r) 0 (j :: keys) Hne e)) as (idx & Hm); [done|].
    apply bind_ok_iff in Hm as (ms & -> & Hm). rewrite bind_Ok, Hm, bind_Ok.
    apply (read_key_ok idx) in Hkey. rewrite Hkey, bind_Ok, Hva, bind_Ok, Hvu, bind_Ok.
    rewrite (proj2 (check_window_ok idx _ _ _ ())), bind_Ok by done.
    rewrite (proj2 (purpose_check_ok idx e want ())), bind_Ok by done.
    rewrite <- Hpp. by destruct r.
Qed.

(** ** The listing *)

Lemma member_text e k s : member e k = JStr s ↔ dict_get e k = Some (JStr s).
Proof. unfold member. destruct (dict_get e k); cbn; naive_solver. Qed.

Lemma key_listed e :
  is_text (member e (u "alg")) SUPPORTED_ALG && hex_key_ok e = true ↔ ∃ key, key_material e key.
Proof.
  unfold key_material, hex_key_ok. rewrite andb_true_iff, is_text_iff.
  setoid_rewrite <- member_text. split.
  - intros [Ha Hh]. destruct (member e (u "key_hex")) as [| | | |h| |]; try done.
    apply andb_true_iff in Hh as [Hl Hh]. destruct (bytes_fromhex h) as [key|] eqn:E; [|done].
    apply Nat.eqb_eq in Hl, Hh. eauto 10.
  - intros (key & Ha & h & -> & Hl & Hh & Hk). split; [done|].
    unfold _ED25519_KEY_HEX_LEN. by rewrite Hl, Hh, Hk.
Qed.

(** The window holds at a point in time that is in UTC already. *)
Definition window_holds (e : entry) (as_of_utc : option datetime) : Prop :=
  ∀ t, as_of_utc = Some t → ∃ va vu,
    read_bound e (u "validafter") = Ok va ∧ read_bound e (u "validuntil") = Ok vu ∧
    (∀ a, va = Some a → before t a = false) ∧ (∀ b, vu = Some b → before t b = true).

Lemma window_ok_iff e t b :
  window_ok e t = Ok b → (b = true ↔ window_holds e (Some t)).
Proof.
  unfold window_ok, window_holds.
  destruct (read_bound e (u "validafter")) as [va|[c|]] eqn:Ea; cbn; [|intros [= <-]|done].
  2:{ split; [done|]. intros Hx. destruct (Hx t eq_refl) as (? & ? & ? & _). congruence. }
  destruct (read_bound e (u "validuntil")) as [vu|[c|]] eqn:Eu; cbn; [|intros [= <-]|done].
  2:{ split; [done|]. intros Hx. destruct (Hx t eq_refl) as (? & ? & ? & ? & _). congruence. }
  intros [= <-]. rewrite andb_true_iff, !negb_true_iff. split.
  - intros [Ha Hb] t0 [= <-]. exists va, vu. split_and!; [done|done|by intros a ->|].
    intros b ->. by apply negb_false_iff.
  - intros Hx. destruct (Hx t eq_refl) as (? & ? & [= <-] & [= <-] & Ha & Hb).
    split; [destruct va; eauto|]. destruct vu as [b|]; [|done]. by rewrite Hb.
Qed.

Definition listed (keys : list json) (as_of_utc : option datetime) (want : option str)
    (k : str) : Prop :=
  ∃ e, JObj e ∈ keys ∧ kid_of (JObj e) = Some k ∧ kid_count keys k = 1%nat ∧
    (∃ key, key_material e key) ∧ window_holds e as_of_utc ∧ has_purpose e want.

Lemma list_turn_iff keys as_of want j o k :
  list_turn keys as_of want j = Ok o →
  (o = Some k ↔ ∃ e, j = JObj e ∧ kid_of j = Some k ∧ kid_count keys k = 1%nat ∧
     (∃ key, key_material e key) ∧ window_holds e as_of ∧ has_purpose e want).
Proof.
  unfold list_turn. setoid_rewrite <- key_listed. intros Hl.
  assert (∀ P : Prop, Ok (E:=kid_error) None = Ok o → ¬ P → (o = Some k ↔ P)) as Hnone.
  { intros P <-%Ok_inj HP. by split. }
  destruct j as [| | | | | |e]; try (apply Hnone; [exact Hl|by intros (? & [=] & _)]).
  destruct (kid_of (JObj e)) as [k0|] eqn:Ek;
    [|apply Hnone; [exact Hl|by intros (? & _ & [=] & _)]].
  destruct (Nat.eqb_spec (kid_count keys k0) 1) as [Hc|Hc]; cbn [negb] in Hl;
    [|apply Hnone; [exact Hl|by intros (? & _ & [= ->] & ? & _)]].
  destruct (is_text (member e (u "alg")) SUPPORTED_ALG) eqn:Ea; cbn [negb] in Hl;
    [|apply Hnone; [exact Hl|intros (? & [= <-] & _ & _ & Hx & _); by rewrite Ea in Hx]].
  destruct (hex_key_ok e) eqn:Eh; cbn [negb] in Hl;
    [|apply Hnone; [exact Hl|intros (? & [= <-] & _ & _ & Hx & _); by rewrite Ea, Eh in Hx]].
  apply bind_ok_iff in Hl as (b & Hb & Hl).
  assert (b = true ↔ window_holds e as_of) as Hw.
  { destruct as_of as [t|]; [by apply window_ok_iff|]. apply Ok_inj in Hb as <-.
    split; [|done]. by intros _ t. }
  destruct b; cbn [negb] in Hl;
    [|apply Hnone; [exact Hl|intros (? & [= <-] & _ & _ & _ & Hx & _); by apply Hw in Hx]].
  destruct want as [w|]; apply Ok_inj in Hl as <-.
  - destruct (is_text (member e (u "purpose")) w) eqn:Ep.
    + apply is_text_iff in Ep. split.
      * intros [= ->]. exists e. rewrite Ea, Eh. split_and!; try done; [by apply Hw|].
        by intros ? [= <-].
      * by intros (? & [= <-] & [= ->] & _).
    + split; [done|]. intros (? & [= <-] & _ & _ & _ & _ & Hp).
      specialize (Hp w eq_refl). apply is_text_iff in Hp. congruence.
  - split.
    + intros [= ->]. exists e. rewrite Ea, Eh. split_and!; try done; by apply Hw.
    + by intros (? & [= <-] & [= ->] & _).
Qed.

Lemma elem_of_listing keys as_of want (turns : list (option str)) k :
  mapM (list_turn keys as_of want) keys = Ok turns →
  k ∈ omap id turns ↔ listed keys as_of want k.
Proof.
  intros Hf%mapM_ok. rewrite list_elem_of_omap. unfold listed, id. split.
  - intros (o & Ho & ->). apply list_elem_of_lookup in Ho as [i Hi].
    eapply Forall2_lookup_r in Hf as (j & Hj & Ht); [|done].
    apply (list_turn_iff _ _ _ _ _ k) in Ht. destruct (proj1 Ht eq_refl) as (e & -> & ?).
    exists e. split; [by eapply list_elem_of_lookup_2|done].
  - intros (e & He & Hrest). apply list_elem_of_lookup in He as [i Hi].
    eapply Forall2_lookup_l in Hf as (o & Ho & Ht); [|done].
    exists o. split; [by eapply list_elem_of_lookup_2|].
    apply (list_turn_iff _ _ _ _ _ k) in Ht. apply Ht. by exists e.
Qed.

Lemma listed_unique keys k e :
  JObj e ∈ keys → kid_of (JObj e) = Some k →
  kid_count keys k = 1%nat ↔ filter (λ j, kid_of j = Some k) keys = [JObj e].
Proof.
  intros He Hk. unfold kid_count.
  assert (JObj e ∈ filter (λ j, kid_of j = Some k) keys) as Hin by (by apply list_elem_of_filter).
  destruct (filter _ keys) as [|j [|]]; [by apply elem_of_nil in Hin| |done].
  apply list_elem_of_singleton in Hin as ->. done.
Qed.

Lemma kid_of_nonempty j k : kid_of j = Some k → k ≠ [].
Proof.
  destruct j as [| | | | | |e]; try done. cbn. destruct (member e (u "kid")) as [| | | |s| |];
    try done. destruct s; cbn; [done|by intros [= <-]].
Qed.

(** The entries are mappings with readable windows. *)
Definition readable (keys : list json) : Prop :=
  ∀ j, j ∈ keys → ∃ e va vu, j = JObj e ∧
    read_bound e (u "validafter") = Ok va ∧ read_bound e (u "validuntil") = Ok vu.
End KidSpec.

(** ** Properties *)

Module KidProperties.
Import KidResolver KidSpec.

(** The resolver succeeds exactly on a document of mappings in which one entry
    has the identifier, carries an Ed25519 key of 32 bytes, has readable bounds
    with the given time, if any, in its half-open window, and has the wanted
    purpose, if any; the result is what that entry says. *)
Theorem resolve_kid_iff aip_doc k as_of want r :
  resolve_kid aip_doc k as_of want = Ok r ↔ kid r = k ∧ resolves aip_doc as_of want r.
Proof. apply resolve_ok. Qed.

Lemma resolved_listed aip_doc keys k as_of t want r :
  public_keys_of aip_doc = Ok keys →
  as_of_utc as_of = Ok t →
  resolve_kid aip_doc k as_of want = Ok r → listed keys t want k.
Proof.
  intros Hkeys Ht (<- & keys' & e & (Hkeys' & Hall & Hne & Hu) & Hkey & Hva & Hvu & Hw & Hp & _)
    %resolve_ok. rewrite Hkeys in Hkeys'. apply Ok_inj in Hkeys' as <-.
  assert (JObj e ∈ filter (λ j, kid_of j = Some (kid r)) keys) as [Hk Hin]%list_elem_of_filter
    by (rewrite Hu; by apply list_elem_of_singleton).
  exists e. split_and!; [done|done|by apply (listed_unique _ _ e)|eauto| |done].
  intros t' ->. exists (validafter r), (validuntil r). split_and!; [done|done|..];
    (destruct as_of as [t0|]; [|done]; apply bind_ok_iff in Ht as (t1 & Ht & [= ->]%Ok_inj);
     destruct Hw as (t2 & Ht2 & Ha & Hb); rewrite Ht in Ht2; by apply Ok_inj in Ht2 as <-).
Qed.

Lemma listed_resolved aip_doc keys k as_of t want :
  public_keys_of aip_doc = Ok keys → readable keys →
  as_of_utc as_of = Ok t →
  listed keys t want k → ∃ r, resolve_kid aip_doc k as_of want = Ok r.
Proof.
  intros Hkeys Hread Ht (e & He & Hk & Hc & (key & Hkey) & Hw & Hp).
  destruct (Hread _ He) as (e' & va & vu & [= <-] & Hva & Hvu).
  exists (MkResolved k key va vu
    (match member e (u "purpose") with JStr p => Some p | _ => None end)).
  apply resolve_ok. split; [done|]. exists keys, e. unfold unique_entry. cbn. split_and!; try done.
  - apply Forall_forall. intros j Hj. destruct (Hread j Hj) as (? & _ & _ & -> & _). by eexists.
  - by eapply kid_of_nonempty.
  - by apply (listed_unique _ _ e).
  - unfold inside. destruct as_of as [t0|]; [|done].
    apply bind_ok_iff in Ht as (t1 & Ht & <-%Ok_inj). exists t1. split; [done|].
    destruct (Hw t1 eq_refl) as (? & ? & Hva' & Hvu' & Ha & Hb).
    rewrite Hva in Hva'. rewrite Hvu in Hvu'. by apply Ok_inj in Hva' as <-, Hvu' as <-.
Qed.

(** The listing is in order, contains every identifier
    that resolves, and on documents of mappings with readable windows contains
    nothing else. *)
Theorem list_resolvable_kids_spec aip_doc keys as_of want ks :
  public_keys_of aip_doc = Ok keys →
  list_resolvable_kids aip_doc as_of want = Ok ks →
  StronglySorted (λ a b, str_leb a b = true) ks ∧
  (∀ k r, resolve_kid aip_doc k as_of want = Ok r → k ∈ ks) ∧
  (readable keys → ∀ k, k ∈ ks → ∃ r, resolve_kid aip_doc k as_of want = Ok r).
Proof.
  intros Hkeys. unfold list_resolvable_kids. rewrite Hkeys, bind_Ok. intros Hl.
  apply bind_ok_iff in Hl as (t & Ht & Hl). apply bind_ok_iff in Hl as (turns & Hm & <-%Ok_inj).
  split; [apply py_sorted_sorted, _|].
  assert (∀ k, k ∈ omap id turns ↔ listed keys t want k) as Hin
    by (intros; by apply elem_of_listing).
  setoid_rewrite elem_of_py_sorted. setoid_rewrite Hin.
  split; [intros; by eapply resolved_listed|intros; by eapply listed_resolved].
Qed.

(** The bridge resolves exactly the references whose entry has the purpose
    [wat-anchor], at their point in time in UTC, and hands on the entry's key
    and window. *)
Theorem resolve_wat_anchor_kid_iff aip_doc ref a :
  AnchorKid.resolve_wat_anchor_kid aip_doc ref = Ok a ↔
  ∃ t r, as_of_utc (AnchorKid.as_of ref) = Ok t ∧ kid r = AnchorKid.ref_kid ref ∧
    resolves aip_doc t (Some AnchorKid.PURPOSE_WAT_ANCHOR) r ∧
    a = AnchorKid.MkAnchorKey (kid r) (public_key r) (validafter r) (validuntil r).
Proof.
  unfold AnchorKid.resolve_wat_anchor_kid, AnchorKid.validate_anchor_kid_ref_shape. split.
  - intros Ha. apply bind_ok_iff in Ha as ([] & _ & Ha).
    apply bind_ok_iff in Ha as (t & Ht%map_err_ok & Ha).
    apply bind_ok_iff in Ha as (r & Hr%map_err_ok%resolve_ok & <-%Ok_inj).
    destruct Hr as [Hk Hr]. by exists t, r.
  - intros (t & r & Ht & Hk & Hr & ->).
    pose proof Hr as (keys & e & (_ & _ & Hne & _) & _).
    assert (str_empty (AnchorKid.ref_kid ref) = false) as ->
      by (rewrite <- Hk; by destruct (kid r)).
    rewrite raise_if_false, bind_Ok, Ht. cbn [map_err]. rewrite bind_Ok.
    by rewrite (proj2 (resolve_ok _ _ _ _ r)).
Qed.
End KidProperties.

(** ** Examples *)

Module KidExample.
Import KidResolver KidSpec KidProperties.

Definition key_entry (k alg : str) (more : entry) : json :=
  JObj ([(u "kid", JStr k); (u "alg", JStr alg); (u "key_hex", JStr (replicate 64 97))] ++ more).
Definition doc (keys : list json) : json := JObj [(u "public_keys", JList keys)].

Definition window : entry :=
  [(u "validafter", JStr (u "2026-01-01T00:00:00Z"));
   (u "validuntil", JStr (u "2026-07-01T00:00:00+02:00")); (u "purpose", JStr (u "wat-anchor"))].
Definition keys : list json :=
  [key_entry (u "k2") SUPPORTED_ALG window; key_entry (u "k1") SUPPORTED_ALG []].

(** 2026-06-30T22:00:00Z is outside, one microsecond before is inside. *)
Example window_end :
  list_resolvable_kids (doc keys) (Some (Aware 1782856799999999)) None = Ok [u "k1"; u "k2"] ∧
  list_resolvable_kids (doc keys) (Some (Aware 1782856800000000)) None = Ok [u "k1"].
Proof. split; vm_compute; reflexivity. Qed.

(** Without a point in time the listing does not read the windows; the resolver
    does, and rejects the identifier. *)
Example listed_but_rejected :
  let d := doc [key_entry (u "k1") SUPPORTED_ALG [(u "validafter", JStr (u "soon"))]] in
  list_resolvable_kids d None None = Ok [u "k1"] ∧
  resolve_kid d (u "k1") None None =
    Err (KidResolverError (WindowNotRfc3339 (u "validafter"))).
Proof. split; vm_compute; reflexivity. Qed.

(** An entry with another algorithm is seen: it makes the identifier ambiguous. *)
Example other_curve_is_visible :
  resolve_kid (doc [key_entry (u "k1") SUPPORTED_ALG []; key_entry (u "k1") (u "secp256k1") []])
    (u "k1") None None = Err (KidResolverError (DuplicateKid [0%nat; 1%nat])).
Proof. vm_compute. reflexivity. Qed.

(** A bound before year 1 in UTC raises [OverflowError]. *)
Example bound_overflows :
  resolve_kid (doc [key_entry (u "k1") SUPPORTED_ALG
                      [(u "validafter", JStr (u "0001-01-01T00:00:00+05:00"))]])
    (u "k1") None None = Err TimeOverflow.
Proof. vm_compute. reflexivity. Qed.

Lemma keys_readable : readable keys.
Proof.
  intros j Hj. apply elem_of_cons in Hj as [->|Hj%list_elem_of_singleton]; [|subst].
  - eexists _, (Some (Aware 1767225600000000)), (Some (Aware 1782856800000000)).
    split; [reflexivity|]. split; vm_compute; reflexivity.
  - eexists _, None, None. split; [reflexivity|]. split; vm_compute; reflexivity.
Qed.

Lemma list_resolvable_kids_spec_witness :
  readable keys ∧
  StronglySorted (λ a b, str_leb a b = true) [u "k1"; u "k2"] ∧
  (∀ k r, resolve_kid (doc keys) k (Some (Aware 1782856799999999)) None = Ok r →
     k ∈ [u "k1"; u "k2"]) ∧
  (readable keys → ∀ k, k ∈ [u "k1"; u "k2"] →
     ∃ r, resolve_kid (doc keys) k (Some (Aware 1782856799999999)) None = Ok r).
Proof.
  split; [exact keys_readable|].
  apply (list_resolvable_kids_spec (doc keys) keys (Some (Aware 1782856799999999)) None
           [u "k1"; u "k2"]); vm_compute; reflexivity.
Defined.
End KidExample.
