(* ===== verification/ManifestVerify.v ===== *)
(** * The manifest verifier ([wat/verify/manifest_v2.py])

    Both entry points of the verifier: the v2 envelope, checked against its
    JSON schema, and the manifest the aggregator writes.  Files are state: the
    text files by path, and the binary files next to a manifest.  [jsonschema]
    is a third-party package; the receipt check of [wat.anchor.ots_anchor],
    which runs the [ots] program and asks a block explorer, is a parameter.
    Messages are constructors; an exception that the verifier does not catch is
    [Uncaught].

    The theorems: what each mode accepts, down to the tree it rebuilds; the
    manifest of the build command passes the verifier, signature included; a
    verified signature is valid; and where the verifier promises more than it
    checks. *)

From S2P Require Import Prelude PyStr Sha256 PyJson PyJsonLoads PyDyn Merkle Signing Manifest.
From S2P Require Import PyTime KidResolver.
From Stdlib Require Import ZArith Lia.
Import Aggregator ManifestSigning AggregatorCli.

Open Scope Z_scope.

(** ** Third-party interfaces *)

Inductive path_item : Type := Idx (n : Z) | Key (s : str).

Record schema_error := MkSchemaError { error_path : list path_item; error_message : str }.

(** [Draft202012Validator(schema).iter_errors(manifest)], when the package is
    installed. *)
Class JsonSchema := {
  check_schema : json → bool;
  iter_errors : option (json → json → list schema_error);
}.

(** [ots_anchor.verify_receipt]: a verdict, or the text of what it raised. *)
Class OtsVerifier := { verify_receipt : str → bytes → result str bool }.

(** A binary file that is there may be unreadable. *)
Notation raw_files := (gmap str (option bytes)).

Module Verify.

(** ** Results *)

Inductive cap_status : Type := CapNone | CapVerified | CapDeferred | CapMismatch.

Inductive sig_status : Type :=
| SigNone | SigVerified | SigUnsignedPermissive | SigUnsignedStrict | SigMismatch
| SigStructural.

Inductive bridge_fault : Type :=
| BridgeNotDict
| BridgeSlotMissing
| BridgeKidMissing
| BridgeRejected (c : option kid_cause)
| BridgeUnexpected
| BridgeKeyShape.

Inductive fault : Type :=
| FileNotFound
| MalformedJson
| TopLevelNotObject
| SchemaPackageMissing
| SchemaViolation (pointer message : str)
| TriggerV1 | TriggerV2
| EventCountEvents | EventCountLeaves
| LeafHashDrift (idx : nat) | LeafFieldDrift (idx : nat)
| EmptyLeaves | LeafNotHex (idx : nat) | LeafNot32 (idx : nat)
| RootMismatch | LevelsMismatch
| CapUnknownEvent (key : json) | CapCountDrift | CapMaxDrift
| CapRefsShape (event_id : str) | CapRootMismatch (event_id : str)
| FieldMissing (field : str) | FieldVersion | FieldMerkleRoot | FieldEventCount
| FieldEvents | FieldLeaves | FieldTreeLevels | FieldHourSlot | FieldAnchorHeight
| FieldLeafText (idx : nat) | FieldLeafHash (idx : nat) | FieldLeafType (idx : nat)
| BridgeFault (b : bridge_fault)
| SigUnsignedInStrict | SigKeyMissing | SigShape (e : sig_error) | SigInvalid.

Record ManifestV2Result := MkV2 {
  manifest_path : str;
  version : json;
  schema_ok : bool;
  integrity_ok : bool;
  multi_cap_root_status : cap_status;
  signature_status : sig_status;
  failure_reason : option fault;
}.

(** [ManifestV2Result.ok] *)
Definition v2_ok (r : ManifestV2Result) : bool := schema_ok r && integrity_ok r.

(** A check returns the reason to fail, or nothing. *)
Notation check := (result exn (option fault)).

(** [if cond: return reason] and then the rest. *)
Definition fail_if (c : bool) (f : fault) (rest : check) : check :=
  if c then Ok (Some f) else rest.

Section helpers.

Definition _is_lower_hex_64 (value : str) : bool :=
  Nat.eqb (length value) 64 && forallb is_lower_hex value.

(** [ValueError] of [_hex_to_bytes]; a value that is no text is not caught. *)
Inductive hex_outcome : Type := HexOk (b : bytes) | HexNotHex | HexNot32.

Definition _hex_to_bytes (hex_str : str) : hex_outcome :=
  match bytes_fromhex hex_str with
  | None => HexNotHex
  | Some raw => if Nat.eqb (length raw) 32 then HexOk raw else HexNot32
  end.

(** A member of the manifest that is a text for [bytes.fromhex]. *)
Definition text_of (j : json) : result exn str :=
  match j with JStr s => Ok s | _ => Err Uncaught end.

Definition b1_fields : list str :=
  [u "event_id"; u "time"; u "payload_hash"; u "capability_token_hash"].

(** [all(k in ev for k in b1_fields)] *)
Fixpoint all_in (fields : list str) (ev : json) : result exn bool :=
  match fields with
  | [] => Ok true
  | k :: fields' => b ← py_in k ev; if b : bool then all_in fields' ev else Ok false
  end.
End helpers.

(** ** Schema *)

Section schema.
Context `{JsonSchema}.

Definition item_leb (a b : path_item) : bool :=
  match a, b with
  | Idx m, Idx n => m <=? n
  | Key s, Key t => str_leb s t
  | Idx _, Key _ => true      (* never under one parent *)
  | Key _, Idx _ => false
  end.

Definition item_eqb (a b : path_item) : bool :=
  match a, b with
  | Idx m, Idx n => m =? n
  | Key s, Key t => str_eqb s t
  | _, _ => false
  end.

(** Comparison of two [deque]s. *)
Fixpoint path_leb (p q : list path_item) : bool :=
  match p, q with
  | [], _ => true
  | _ :: _, [] => false
  | a :: p', b :: q' => if item_eqb a b then path_leb p' q' else item_leb a b
  end.

Definition item_text (p : path_item) : str :=
  match p with Idx n => int_repr n | Key s => s end.

Definition pointer_of (p : list path_item) : str := u "/" ++ join (u "/") (item_text <$> p).

Definition _load_schema (fs : files) (schema_path : str) : result exn json :=
  text ← of_option Uncaught (fs !! schema_path);
  of_option Uncaught (json_loads (universal_newlines text)).

(** [top] is the pointer of an error at the top level. *)
Definition validate_with (top : str) (fs : files) (manifest : json) (schema_path : str) : check :=
  match iter_errors with
  | None => Ok (Some SchemaPackageMissing)
  | Some errors_of =>
      schema ← _load_schema fs schema_path;
      raise_if (negb (check_schema schema)) Uncaught;;
      match py_sorted (λ a b, path_leb (error_path a) (error_path b)) (errors_of schema manifest) with
      | [] => Ok None
      | first :: _ =>
          Ok (Some (SchemaViolation
                      (match error_path first with [] => top | p => pointer_of p end)
                      (error_message first)))
      end
  end.

Definition _validate_schema := validate_with (u "/").
Definition _validate_real_manifest_against_schema := validate_with [].
End schema.

(** ** Integrity checks *)

Section integrity.
Context `{Sha256, Rfc8785}.

Definition _check_event_count (manifest : json) : check :=
  declared ← getitem manifest (u "event_count");
  events ← getitem manifest (u "events"); n_events ← py_len events;
  leaves ← getitem manifest (u "leaves"); n_leaves ← py_len leaves;
  fail_if (negb (py_eq declared (JInt (Z.of_nat n_events)))) EventCountEvents
    (fail_if (negb (py_eq declared (JInt (Z.of_nat n_leaves)))) EventCountLeaves
       (Ok None)).

(** [compute_leaf_hash] of the four members as they are. *)
Definition leaf_of_values (event_id time payload_hash capability_token_hash : json)
    : result exn bytes :=
  canonical ← map_err (λ _, Uncaught) (_canonicalise
    (JObj [(u "event_id", event_id); (u "time", time); (u "payload_hash", payload_hash);
           (u "capability_token_hash", capability_token_hash)]));
  Ok (sha256 canonical).

Definition recompute_leaf (ev : json) : result exn bytes :=
  a ← getitem ev (u "event_id"); b ← getitem ev (u "time");
  c ← getitem ev (u "payload_hash"); d ← getitem ev (u "capability_token_hash");
  leaf_of_values a b c d.

(** The loop over the events from [idx] on. *)
Fixpoint leaves_loop (leaves : json) (idx : nat) (events : list json) : check :=
  match events with
  | [] => Ok None
  | ev :: rest =>
      recorded ← getindex leaves idx;
      full ← all_in b1_fields ev;
      if full : bool then
        leaf ← recompute_leaf ev;
        fail_if (negb (py_eq (JStr (hex leaf)) recorded)) (LeafHashDrift idx)
          (leaves_loop leaves (S idx) rest)
      else
        leaf ← get ev (u "leaf");
        fail_if (match leaf with JNull => false | _ => negb (py_eq leaf recorded) end)
          (LeafFieldDrift idx) (leaves_loop leaves (S idx) rest)
  end.

Definition _check_leaves_match_events (manifest : json) : check :=
  events ← getitem manifest (u "events");
  events ← py_iter events;
  match events with
  | [] => Ok None
  | _ => leaves ← getitem manifest (u "leaves"); leaves_loop leaves 0 events
  end.

(** The leaves as bytes; the first one that does not parse stops the loop. *)
Fixpoint parse_leaves (idx : nat) (leaves : list json)
    : result exn (fault + list bytes) :=
  match leaves with
  | [] => Ok (inr [])
  | leaf :: rest =>
      s ← text_of leaf;
      match _hex_to_bytes s with
      | HexNotHex => Ok (inl (LeafNotHex idx))
      | HexNot32 => Ok (inl (LeafNot32 idx))
      | HexOk raw =>
          r ← parse_leaves (S idx) rest;
          Ok (match r with inl f => inl f | inr bs => inr (raw :: bs) end)
      end
  end.

Definition levels_json (levels : list (list bytes)) : json :=
  JList ((λ level, JList (JStr <$> (hex <$> level))) <$> levels).

(** Rebuild the tree and compare root and levels. *)
Definition compare_tree (leaves : list bytes) (declared_root declared_levels : json) : check :=
  '(root, levels) ← map_err (λ _, Uncaught) (build_merkle_tree leaves);
  fail_if (negb (py_eq (JStr (hex root)) declared_root)) RootMismatch
    (fail_if (negb (py_eq (levels_json levels) declared_levels)) LevelsMismatch (Ok None)).

Definition _check_merkle_root (manifest : json) : check :=
  leaves ← getitem manifest (u "leaves"); leaves_hex ← py_iter leaves;
  declared_root ← getitem manifest (u "merkle_root");
  levels ← getitem manifest (u "tree_levels"); declared_levels ← py_iter levels;
  match leaves_hex with
  | [] => Ok (Some EmptyLeaves)
  | _ =>
      parsed ← parse_leaves 0 leaves_hex;
      match parsed with
      | inl f => Ok (Some f)
      | inr leaves => compare_tree leaves declared_root (JList declared_levels)
      end
  end.

(** *** Capability references *)

(** [ValueError], or an exception that the caller does not catch. *)
Inductive cap_exn : Type := CapValueError | CapUncaught.

Definition cap_uncaught {A} (x : result exn A) : result cap_exn A :=
  map_err (λ _, CapUncaught) x.

Fixpoint caprefs_leaves (refs : list json) : result cap_exn (list bytes) :=
  match refs with
  | [] => Ok []
  | ref :: rest =>
      s ← cap_uncaught (text_of ref);
      raise_if (negb (startswith s (u "sha256:"))) CapValueError;;
      match _hex_to_bytes (drop 7 s) with
      | HexOk raw => bs ← caprefs_leaves rest; Ok (raw :: bs)
      | _ => Err CapValueError
      end
  end.

Definition _caprefs_canonical_root_ordered (caprefs_full : json) : result cap_exn bytes :=
  refs ← cap_uncaught (py_iter caprefs_full);
  leaves ← caprefs_leaves refs;
  raise_if (Nat.ltb (length leaves) 2) CapValueError;;
  '(root, _) ← map_err (λ _, CapUncaught) (build_merkle_tree leaves);
  Ok root.

(** The event identifier of an event that has one. *)
Definition event_id_of (ev : json) : result exn (option json) :=
  b ← py_in (u "event_id") ev;
  if b : bool then
    i ← get ev (u "event_id");
    raise_if (negb (hashable i)) Uncaught;; Ok (Some i)
  else Ok None.

Fixpoint unknown_key (ids : list json) (keys : list json) : check :=
  match keys with
  | [] => Ok None
  | k :: rest =>
      raise_if (negb (hashable k)) Uncaught;;
      fail_if (negb (existsb (item_eq k) ids)) (CapUnknownEvent k) (unknown_key ids rest)
  end.

Definition members (j : json) : result exn (list (str * json)) :=
  match j with JObj d => Ok d | _ => Err Uncaught end.

Definition refs_length (kv : str * json) : result exn nat :=
  refs ← getitem kv.2 (u "caprefs_full"); py_len refs.

(** The strict comparison of the roots. *)
Fixpoint check_cap_roots (entries : list (str * json)) : result exn (option fault * cap_status) :=
  match entries with
  | [] => Ok (None, CapVerified)
  | (ev_id, entry) :: rest =>
      refs ← getitem entry (u "caprefs_full");
      match _caprefs_canonical_root_ordered refs with
      | Err CapUncaught => Err Uncaught
      | Err CapValueError => Ok (Some (CapRefsShape ev_id), CapMismatch)
      | Ok root =>
          claimed ← getitem entry (u "caprefs_root");
          if negb (py_eq (JStr (hex root)) claimed)
          then Ok (Some (CapRootMismatch ev_id), CapMismatch)
          else check_cap_roots rest
      end
  end.

Definition _check_multi_cap_consistency (manifest : json) (strict_multi_cap_root : bool)
    : result exn (option fault * cap_status) :=
  mce ← get_or manifest (u "multi_cap_events") (JObj []);
  summary ← get_or manifest (u "multi_cap_summary") (JObj []);
  events ← getitem manifest (u "events"); events ← py_iter events;
  ids ← mapM event_id_of events;
  keys ← py_iter mce;
  unknown ← unknown_key (omap id ids) keys;
  match unknown with
  | Some f => Ok (Some f, CapNone)
  | None =>
      declared_count ← get summary (u "events_with_multi_cap");
      actual_count ← py_len mce;
      if negb (py_eq declared_count (JInt (Z.of_nat actual_count)))
      then Ok (Some CapCountDrift, CapNone)
      else
        actual_max ← (if truthy mce then entries ← members mce;
                        lengths ← mapM refs_length entries; Ok (foldr Nat.max 0%nat lengths)
                      else Ok 0%nat);
        declared_max ← get summary (u "max_caprefs_in_any_event");
        if negb (py_eq declared_max (JInt (Z.of_nat actual_max)))
        then Ok (Some CapMaxDrift, CapNone)
        else if strict_multi_cap_root then entries ← members mce; check_cap_roots entries
        else Ok (None, CapDeferred)
  end.

Definition _VERSION_V1 : str := u "wat-manifest/1.0".
Definition _VERSION_V2 : str := u "wat-manifest/2.0".

Definition _check_trigger_discipline (manifest : json) : check :=
  version ← get manifest (u "version");
  has_events ← py_in (u "multi_cap_events") manifest;
  has_summary ← py_in (u "multi_cap_summary") manifest;
  fail_if (py_eq version (JStr _VERSION_V1) && (has_events || has_summary)) TriggerV1
    (fail_if (py_eq version (JStr _VERSION_V2) && negb (has_events && has_summary)) TriggerV2
       (Ok None)).
End integrity.

(** ** Signature *)

Section signature.
Context `{Sha256, Rfc8785, Ed25519}.

(** The exceptions that are not [WatManifestSignatureError]. *)
Definition declared_sig_error (e : sig_error) : bool :=
  match e with
  | UnhashableVersion | CanonicalisationError | Rfc8785Missing => false
  | _ => true
  end.

Definition has_slot (manifest : json) : bool :=
  match manifest with
  | JObj m => match dict_get m SIGNATURE_FIELD with Some _ => true | None => false end
  | _ => false
  end.

Definition _verify_signature_slot (manifest : json) (public_key : option bytes)
    (mode : VerifyMode) : result exn (sig_status * option fault) :=
  match manifest, has_slot manifest, public_key with
  | JObj m, true, Some key =>
      match verify_manifest_signature (Plain m) (Some key) mode JNull with
      | Ok true => Ok (SigVerified, None)
      | Ok false => Ok (SigMismatch, Some SigInvalid)
      | Err e => if declared_sig_error e then Ok (SigStructural, Some (SigShape e))
                 else Err Uncaught
      end
  | _, true, _ => Ok (SigStructural, Some SigKeyMissing)
  | _, false, _ =>
      Ok match mode with
         | STRICT => (SigUnsignedStrict, Some SigUnsignedInStrict)
         | PERMISSIVE => (SigUnsignedPermissive, None)
         end
  end.

(** The key of the slot's [kid] in an AIP document, or why there is none. *)
Definition _resolve_signature_pubkey_via_aip_doc (manifest aip_doc : json)
    (as_of : option datetime) : bridge_fault + bytes :=
  match manifest with
  | JObj m =>
      match dict_get m SIGNATURE_FIELD with
      | Some (JObj sig_block) =>
          match dict_get sig_block (u "kid") with
          | Some (JStr ((_ :: _) as kid)) =>
              match AnchorKid.resolve_wat_anchor_kid aip_doc (AnchorKid.MkRef kid as_of) with
              | Err (AnchorKid.WatAnchorKidError c) => inl (BridgeRejected c)
              | Err AnchorKid.AnchorTimeOverflow => inl BridgeUnexpected
              | Ok resolved =>
                  let key := AnchorKid.anchor_public_key resolved in
                  if Nat.eqb (length key) 32 then inr key else inl BridgeKeyShape
              end
          | _ => inl BridgeKidMissing
          end
      | _ => inl BridgeSlotMissing
      end
  | _ => inl BridgeNotDict
  end.
End signature.

(** ** The v2 envelope *)

Section v2.
Context `{Sha256, Rfc8785, Ed25519, JsonSchema}.

(** [_REPO_ROOT], where the schemas are. *)
Variable repo_root : str.

Definition DEFAULT_SCHEMA_PATH : str := repo_root ++ u "/wirelang/schemas/wat-manifest-v2.json".
Definition DEFAULT_REAL_SCHEMA_PATH : str :=
  repo_root ++ u "/wirelang/schemas/wakir-wat-manifest-v1.json".

Record v2_options := MkV2Options {
  schema_path : option str;
  strict_multi_cap_root : bool;
  verify_signature : bool;
  verify_signature_public_key : option bytes;
  verify_signature_mode : VerifyMode;
  verify_signature_aip_doc : option json;
  verify_signature_as_of : option datetime;
}.

Definition version_of (manifest : json) : json :=
  match manifest with JObj m => default (JStr []) (dict_get m (u "version")) | _ => JStr [] end.

(** A file that is not there, or is no JSON. *)
Definition load_manifest (fs : files) (path : str) : fault + json :=
  match fs !! path with
  | None => inl FileNotFound
  | Some text =>
      match json_loads (universal_newlines text) with
      | None => inl MalformedJson
      | Some manifest => inr manifest
      end
  end.

(** Run a check; its reason, if any, ends the verification. *)
Definition stop_on {R} (c : check) (report : fault → R) (rest : result exn R) : result exn R :=
  f ← c; match f with Some f => Ok (report f) | None => rest end.

(** The public key the signature is checked against. *)
Definition effective_pubkey (o : v2_options) (manifest : json) : bridge_fault + option bytes :=
  match verify_signature_public_key o, verify_signature_aip_doc o with
  | None, Some aip_doc =>
      if has_slot manifest then
        match _resolve_signature_pubkey_via_aip_doc manifest aip_doc
                (verify_signature_as_of o) with
        | inl b => inl b
        | inr key => inr (Some key)
        end
      else inr None
  | key, _ => inr key
  end.

(** The last phase; [report] builds the result. *)
Definition v2_signature (o : v2_options) (manifest : json)
    (report : bool → sig_status → option fault → ManifestV2Result)
    : result exn ManifestV2Result :=
  if negb (verify_signature o) then Ok (report true SigNone None)
  else
    match effective_pubkey o manifest with
    | inl b => Ok (report false SigStructural (Some (BridgeFault b)))
    | inr key =>
        '(status, msg) ← _verify_signature_slot manifest key (verify_signature_mode o);
        Ok match status with
           | SigMismatch | SigStructural | SigUnsignedStrict => report false status msg
           | _ => report true status None
           end
    end.

Definition verify_manifest_v2_file (fs : files) (path : str) (o : v2_options)
    : result exn ManifestV2Result :=
  match load_manifest fs path with
  | inl f => Ok (MkV2 path (JStr []) false false CapNone SigNone (Some f))
  | inr manifest =>
      let version := version_of manifest in
      let report schema integrity caps sig f := MkV2 path version schema integrity caps sig f in
      let broken f := report true false CapNone SigNone (Some f) in
      stop_on (_validate_schema fs manifest (default DEFAULT_SCHEMA_PATH (schema_path o)))
        (λ f, report false false CapNone SigNone (Some f)) (
      stop_on (_check_trigger_discipline manifest) broken (
      stop_on (_check_event_count manifest) broken (
      stop_on (_check_leaves_match_events manifest) broken (
      stop_on (_check_merkle_root manifest) broken (
      '(multi_msg, caps) ←
        (if py_eq version (JStr _VERSION_V2)
         then _check_multi_cap_consistency manifest (strict_multi_cap_root o)
         else Ok (None, CapNone));
      match multi_msg with
      | Some f => Ok (report true false caps SigNone (Some f))
      | None => v2_signature o manifest (λ ok sig f, report true ok caps sig f)
      end)))))
  end.
End v2.

(** ** The aggregator's manifest *)

Section real.
Context `{Sha256, Rfc8785}.

Definition _REAL_VERSIONS : list str := [u "wakir-wat-manifest/v1"; u "wakir-wat-manifest/v2"].

Definition _REAL_MANDATORY_FIELDS : list str :=
  [u "version"; u "hour_slot"; u "merkle_root"; u "event_count"; u "events"; u "leaves";
   u "tree_levels"; u "build_time"].

(** The first mandatory field that is missing. *)
Fixpoint missing_field (m : dict) (fields : list str) : option str :=
  match fields with
  | [] => None
  | f :: fields' =>
      match dict_get m f with None => Some f | Some _ => missing_field m fields' end
  end.

Definition is_list (j : json) : bool := match j with JList _ => true | _ => false end.
Definition is_hex_text (j : json) : bool :=
  match j with JStr s => _is_lower_hex_64 s | _ => false end.

Definition version_known (version : json) : bool :=
  match version with JStr s => bool_decide (s ∈ _REAL_VERSIONS) | _ => false end.

Definition _validate_real_manifest_fields (m : dict) : check :=
  match missing_field m _REAL_MANDATORY_FIELDS with
  | Some f => Ok (Some (FieldMissing f))
  | None =>
      let field := KidResolver.member m in
      raise_if (negb (hashable (field (u "version")))) Uncaught;;
      fail_if (negb (version_known (field (u "version")))) FieldVersion (
      fail_if (negb (is_hex_text (field (u "merkle_root")))) FieldMerkleRoot (
      fail_if (match is_int (field (u "event_count")) with
               | Some n => n <? 0 | None => true end) FieldEventCount (
      fail_if (negb (is_list (field (u "events")))) FieldEvents (
      fail_if (negb (is_list (field (u "leaves")))) FieldLeaves (
      fail_if (negb (is_list (field (u "tree_levels")))) FieldTreeLevels (
      fail_if (match field (u "hour_slot") with JStr s => str_empty s | _ => true end)
        FieldHourSlot (
      fail_if (match dict_get m (u "anchor_height") with
               | None => false
               | Some ah => match is_int ah with Some n => n <=? 0 | None => true end
               end) FieldAnchorHeight (Ok None))))))))
  end.

(** A leaf is a text or an object with a [leaf_hash]. *)
Definition leaf_text (idx : nat) (entry : json) : fault + str :=
  match entry with
  | JStr s => if _is_lower_hex_64 s then inr s else inl (FieldLeafText idx)
  | JObj d =>
      match dict_get d (u "leaf_hash") with
      | Some (JStr s) => if _is_lower_hex_64 s then inr s else inl (FieldLeafHash idx)
      | _ => inl (FieldLeafHash idx)
      end
  | _ => inl (FieldLeafType idx)
  end.

Fixpoint normalise_leaves (idx : nat) (leaves : list json) : fault + list str :=
  match leaves with
  | [] => inr []
  | entry :: rest =>
      match leaf_text idx entry with
      | inl f => inl f
      | inr s => match normalise_leaves (S idx) rest with
                 | inl f => inl f
                 | inr out => inr (s :: out)
                 end
      end
  end.

Definition _normalise_real_leaves (manifest : json) : result exn (fault + list str) :=
  leaves ← getitem manifest (u "leaves"); leaves ← py_iter leaves;
  Ok (normalise_leaves 0 leaves).

(** [ev.get("leaf_hash") or ev.get("leaf")] *)
Definition leaf_in_event (ev : json) : result exn json :=
  h ← get ev (u "leaf_hash"); if truthy h then Ok h else get ev (u "leaf").

Fixpoint real_leaves_loop (leaves : list str) (idx : nat) (events : list json) : check :=
  match events with
  | [] => Ok None
  | ev :: rest =>
      leaf ← leaf_in_event ev;
      match leaf with
      | JNull =>
          full ← all_in b1_fields ev;
          if full : bool then
            recomputed ← recompute_leaf ev;
            expected ← of_option Uncaught (leaves !! idx);
            fail_if (negb (str_eqb (hex recomputed) expected)) (LeafHashDrift idx)
              (real_leaves_loop leaves (S idx) rest)
          else real_leaves_loop leaves (S idx) rest
      | _ =>
          expected ← of_option Uncaught (leaves !! idx);
          fail_if (negb (py_eq leaf (JStr expected))) (LeafFieldDrift idx)
            (real_leaves_loop leaves (S idx) rest)
      end
  end.

Definition _check_real_event_leaves (manifest : json) (leaves : list str) : check :=
  declared_count ← getitem manifest (u "event_count");
  events ← getitem manifest (u "events"); n_events ← py_len events;
  fail_if (negb (py_eq declared_count (JInt (Z.of_nat n_events)))) EventCountEvents
    (fail_if (negb (py_eq declared_count (JInt (Z.of_nat (length leaves))))) EventCountLeaves
       (evs ← py_iter events; real_leaves_loop leaves 0 evs)).

Definition _check_real_merkle_root (manifest : json) (leaves : list str) : check :=
  declared_root ← getitem manifest (u "merkle_root");
  match leaves with
  | [] => Ok (Some EmptyLeaves)
  | _ =>
      parsed ← parse_leaves 0 (JStr <$> leaves);
      match parsed with
      | inl f => Ok (Some f)
      | inr bs =>
          declared_levels ← getitem manifest (u "tree_levels");
          compare_tree bs declared_root declared_levels
      end
  end.
End real.

(** ** Anchor files *)

Inductive ots_fault : Type :=
| RootBinMissing | RootBinUnreadable | RootBinLength (n : nat) | RootBinMismatch
| OtsMissing | OtsUnreadable | OtsMagic | OtsRejected.

Record OtsAnchorCheck := MkOts {
  checked : bool;
  root_bin_present : bool;
  root_bin_matches_manifest : bool;
  ots_present : bool;
  ots_magic_ok : bool;
  full_verify_attempted : bool;
  full_verify_ok : bool;
  full_verify_skipped_reason : option str;
  ots_failure : option ots_fault;
}.

Definition no_ots_check : OtsAnchorCheck :=
  MkOts false false false false false false false None None.

(** [OtsAnchorCheck.ok] *)
Definition ots_ok (c : OtsAnchorCheck) : bool :=
  if negb (checked c) then true
  else if negb (root_bin_present c && root_bin_matches_manifest c && ots_present c &&
                ots_magic_ok c) then false
  else if full_verify_attempted c && negb (bool_decide (is_Some (full_verify_skipped_reason c)))
  then full_verify_ok c else true.

Section anchor.
Context `{OtsVerifier}.

Definition _OTS_MAGIC_HEADER : bytes :=
  Byte.x00 :: (byte_of_Z <$> u "OpenTimestamps") ++ [Byte.x00].

(** [environ.get(...)] through [strip] and [lower]; only ASCII letters can
    lower to the four words. *)
Definition ascii_lower (s : str) : str := (λ c, if is_upper c then c + 32 else c) <$> s.

Definition _full_verify_env_enabled (environ : gmap str str) : bool :=
  let raw := ascii_lower (strip (default [] (environ !! u "WAKIR_OTS_FULL_VERIFY"))) in
  bool_decide (raw ∈ [u "1"; u "true"; u "yes"; u "on"]).

(** [Path(path).parent / name], for a path in the form [Path] prints. *)
Definition sibling (path name : str) : str :=
  reverse (snd (span (λ c, negb (c =? 47)) (reverse path))) ++ name.

(** The verdict, and why there is none. *)
Definition _run_ots_full_verify (path : str) (merkle_root_bytes : bytes) : bool * option str :=
  match verify_receipt (sibling path (u "root.bin.ots")) merkle_root_bytes with
  | Ok verified => (verified, None)
  | Err reason => (false, Some reason)
  end.

Definition _check_ots_anchor_side_files (raws : raw_files) (path declared_root_hex : str)
    (full_verify : bool) : OtsAnchorCheck :=
  let failed present matches ots f :=
    MkOts true present matches ots false false false None (Some f) in
  match raws !! sibling path (u "root.bin") with
  | None => failed false false false RootBinMissing
  | Some None => failed true false false RootBinUnreadable
  | Some (Some raw) =>
      if negb (Nat.eqb (length raw) 32) then failed true false false (RootBinLength (length raw))
      else if negb (str_eqb (hex raw) declared_root_hex) then
        failed true false false RootBinMismatch
      else
        match raws !! sibling path (u "root.bin.ots") with
        | None => failed true true false OtsMissing
        | Some None => failed true true false OtsUnreadable
        | Some (Some ots) =>
            if negb (bool_decide (take (length _OTS_MAGIC_HEADER) ots = _OTS_MAGIC_HEADER)) then
              failed true true true OtsMagic
            else if negb full_verify then MkOts true true true true true false false None None
            else
              match _run_ots_full_verify path raw with
              | (_, Some reason) => MkOts true true true true true true false (Some reason) None
              | (false, None) => MkOts true true true true true true false None (Some OtsRejected)
              | (true, None) => MkOts true true true true true true true None None
              end
        end
  end.
End anchor.

(** ** The real-manifest entry point *)

Inductive real_fault : Type := Fault (f : fault) | OtsFault (f : option ots_fault).

Record RealManifestResult := MkReal {
  real_path : str;
  real_version : json;
  fields_ok : bool;
  real_integrity_ok : bool;
  real_cap_status : cap_status;
  ots_anchor : OtsAnchorCheck;
  real_signature_status : sig_status;
  real_failure : option real_fault;
}.

(** [RealManifestResult.ok] *)
Definition real_ok (r : RealManifestResult) : bool :=
  fields_ok r && real_integrity_ok r && ots_ok (ots_anchor r) &&
  match real_signature_status r with
  | SigNone | SigVerified | SigUnsignedPermissive => true
  | _ => false
  end.

Section real_file.
Context `{Sha256, Rfc8785, Ed25519, JsonSchema, OtsVerifier}.
Variables (repo_root : str) (environ : gmap str str).

Record real_options := MkRealOptions {
  check_ots_anchor : bool;
  real_strict : bool;
  use_schema_file : bool;
  real_schema_path : option str;
  ots_full_verify : bool;
  real_verify_signature : bool;
  real_public_key : option bytes;
  real_mode : VerifyMode;
}.

Definition text_or_empty (j : json) : json := match j with JStr _ => j | _ => JStr [] end.

(** The last two phases, once fields and integrity are fine. *)
Definition real_tail (raws : raw_files) (path : str) (o : real_options) (m : dict)
    (caps : cap_status) : result exn RealManifestResult :=
  let version := version_of (JObj m) in
  let ots := if check_ots_anchor o
             then _check_ots_anchor_side_files raws path
                    (match KidResolver.member m (u "merkle_root") with JStr s => s | _ => [] end)
                    (ots_full_verify o || _full_verify_env_enabled environ)
             else no_ots_check in
  if negb (ots_ok ots) then
    Ok (MkReal path version true true caps ots SigNone (Some (OtsFault (ots_failure ots))))
  else if negb (real_verify_signature o) then
    Ok (MkReal path version true true caps ots SigNone None)
  else
    '(status, msg) ← _verify_signature_slot (JObj m) (real_public_key o) (real_mode o);
    Ok (MkReal path version true true caps ots status (Fault <$> msg)).

Definition verify_real_manifest_file (fs : files) (raws : raw_files) (path : str)
    (o : real_options) : result exn RealManifestResult :=
  let early version f :=
    MkReal path version false false CapNone no_ots_check SigNone (Some (Fault f)) in
  match load_manifest fs path with
  | inl f => Ok (early (JStr []) f)
  | inr (JObj m) =>
      let manifest := JObj m in
      let version := version_of manifest in
      let broken caps f :=
        MkReal path version true false caps no_ots_check SigNone (Some (Fault f)) in
      stop_on (if use_schema_file o
               then _validate_real_manifest_against_schema fs manifest
                      (default (DEFAULT_REAL_SCHEMA_PATH repo_root) (real_schema_path o))
               else Ok None) (early (text_or_empty version)) (
      stop_on (_validate_real_manifest_fields m) (early (text_or_empty version)) (
      normalised ← _normalise_real_leaves manifest;
      match normalised with
      | inl f => Ok (early version f)
      | inr leaves =>
          stop_on (_check_real_event_leaves manifest leaves) (broken CapNone) (
          stop_on (_check_real_merkle_root manifest leaves) (broken CapNone) (
          has_events ← py_in (u "multi_cap_events") manifest;
          has_summary ← py_in (u "multi_cap_summary") manifest;
          '(multi_msg, caps) ←
            (if has_events || has_summary
             then _check_multi_cap_consistency manifest (real_strict o)
             else Ok (None, CapNone));
          match multi_msg with
          | Some f => Ok (broken caps f)
          | None => real_tail raws path o m caps
          end))
      end))
  | inr _ => Ok (early (JStr []) TopLevelNotObject)
  end.
End real_file.
End Verify.
