(* ===== verification/ManifestVerifySpec.v ===== *)
(** * What the manifest verifier accepts

    The declarative reading of [ManifestVerify]: when a file passes each of
    the two modes ([v2_accepts], [real_accepts]), down to the tree it rebuilds
    ([v2_tree], [real_tree]) and the signature slot ([slot_accepts]), with the
    lemmas that relate it to the checks.  The theorems are in [ManifestFlow]. *)

From S2P Require Import Prelude PyStr Sha256 PyJson PyJsonLoads PyDyn Merkle Signing Manifest.
From S2P Require Import PyTime KidResolver ManifestVerify.
From Stdlib Require Import ZArith Lia.
Import Aggregator ManifestSigning AggregatorCli Verify.

Open Scope Z_scope.

(** ** The checks *)

Section checks.
Context `{Sha256, Rfc8785}.

Lemma stop_on_ok {R} (c : check) report (rest : result exn R) r :
  stop_on c report rest = Ok r ↔
  (∃ f, c = Ok (Some f) ∧ r = report f) ∨ (c = Ok None ∧ rest = Ok r).
Proof. unfold stop_on. destruct c as [[f|]|]; cbn; naive_solver. Qed.

Lemma fail_if_none c f rest : fail_if c f rest = Ok None ↔ c = false ∧ rest = Ok None.
Proof. unfold fail_if. destruct c; naive_solver. Qed.

Lemma getitem_ok j k v : getitem j k = Ok v ↔ ∃ d, j = JObj d ∧ dict_get d k = Some v.
Proof.
  unfold getitem. destruct j as [| | | | | |d]; try naive_solver.
  rewrite of_option_ok. naive_solver.
Qed.

Lemma lower_hex_64 s : _is_lower_hex_64 s = true ↔ ∃ b, s = hex b ∧ length b = 32%nat.
Proof.
  unfold _is_lower_hex_64. rewrite andb_true_iff, Nat.eqb_eq. split.
  - intros [Hl Hs]. by apply (lower_hex_bytes 32).
  - intros (b & -> & Hb). split; [by rewrite length_hex, Hb|apply hex_lower].
Qed.

Lemma hex_to_bytes_ok s b :
  _hex_to_bytes s = HexOk b ↔ bytes_fromhex s = Some b ∧ length b = 32%nat.
Proof.
  unfold _hex_to_bytes. destruct (bytes_fromhex s) as [raw|]; [|naive_solver].
  destruct (Nat.eqb_spec (length raw) 32); naive_solver.
Qed.

(** The texts that [_hex_to_bytes] reads as these bytes. *)
Definition hex_leaf (j : json) (b : bytes) : Prop :=
  ∃ s, j = JStr s ∧ bytes_fromhex s = Some b ∧ length b = 32%nat.

Lemma parse_leaves_ok idx js bs :
  parse_leaves idx js = Ok (inr bs) ↔ Forall2 hex_leaf js bs.
Proof.
  revert idx bs. induction js as [|j js IH]; intros idx bs; cbn [parse_leaves].
  { split; [by intros [= <-]|]. by inversion 1. }
  split.
  - intros Hp. apply bind_ok_iff in Hp as (s & Hs & Hp).
    destruct j as [| | | |s'| |]; try done. apply Ok_inj in Hs as ->.
    destruct (_hex_to_bytes s) as [raw| |] eqn:Eh; try done.
    apply hex_to_bytes_ok in Eh as [??].
    apply bind_ok_iff in Hp as ([f|bs'] & Hp & Hq); [done|]. apply Ok_inj in Hq as [= <-].
    constructor; [by exists s|by apply (IH (S idx))].
  - inversion 1 as [|? b ? bs' (s & -> & Hb) Hr]; subst. cbn.
    apply hex_to_bytes_ok in Hb as ->. apply (IH (S idx)) in Hr as ->. by rewrite bind_Ok.
Qed.

Lemma hex_leaf_hex b : length b = 32%nat → hex_leaf (JStr (hex b)) b.
Proof. intros. exists (hex b). by rewrite bytes_fromhex_hex. Qed.

Lemma hex_leaf_inj s b : hex_leaf (JStr s) b → _is_lower_hex_64 s = true → s = hex b.
Proof.
  intros (s' & [= <-] & Hb & _) (b' & -> & _)%lower_hex_64.
  rewrite bytes_fromhex_hex in Hb. by injection Hb as ->.
Qed.

Lemma levels_eq levels j : py_eq (levels_json levels) j = true ↔ j = levels_json levels.
Proof.
  apply (py_eq_list (λ x, ∃ l, x = JList (JStr <$> l))).
  - intros x y [l ->]. apply item_eq_texts.
  - apply Forall_fmap, Forall_true. intros l. by eexists.
Qed.

(** The declared tree is the tree of the leaves. *)
Lemma compare_tree_none leaves root_j levels_j :
  compare_tree leaves root_j levels_j = Ok None ↔
  ∃ root levels, build_merkle_tree leaves = Ok (root, levels) ∧
    root_j = JStr (hex root) ∧ levels_j = levels_json levels.
Proof.
  unfold compare_tree. split.
  - intros ([root levels] & Hb%map_err_ok & Hc)%bind_ok_iff.
    rewrite !fail_if_none, !negb_false_iff, py_eq_str, levels_eq in Hc.
    exists root, levels. naive_solver.
  - intros (root & levels & -> & -> & ->). cbn [map_err]. rewrite bind_Ok.
    by rewrite !fail_if_none, !negb_false_iff, py_eq_str, levels_eq.
Qed.

(** ** The events of a v2 envelope *)

Definition has_member (k : str) (ev : json) : Prop :=
  ∃ d, ev = JObj d ∧ is_Some (dict_get d k).

Lemma py_in_obj k d b : py_in k (JObj d) = Ok b ↔ (b = true ↔ is_Some (dict_get d k)) .
Proof.
  cbn. destruct (dict_get d k) eqn:E; split.
  - intros <-%Ok_inj. by split.
  - intros Hb. f_equal. symmetry. apply Hb. eauto.
  - intros <-%Ok_inj. split; [done|]. by intros [? ?].
  - intros Hb. destruct b; [|done]. by destruct (proj1 Hb eq_refl).
Qed.

Lemma all_in_obj fields d b :
  all_in fields (JObj d) = Ok b ↔ (b = true ↔ Forall (λ k, is_Some (dict_get d k)) fields).
Proof.
  revert b. induction fields as [|k fields IH]; intros b; cbn [all_in].
  { split; [intros <-%Ok_inj; by split|]. intros [_ Hb]. by rewrite Hb. }
  rewrite Forall_cons. split.
  - intros (b1 & Hb1%py_in_obj & Hr)%bind_ok_iff. destruct b1.
    + apply IH in Hr. rewrite Hr. naive_solver.
    + apply Ok_inj in Hr as <-. naive_solver.
  - intros Hb. destruct (dict_get d k) as [v|] eqn:E.
    + assert (py_in k (JObj d) = Ok true) as -> by (cbn; by rewrite E).
      rewrite bind_Ok. apply IH. rewrite Hb. naive_solver.
    + assert (py_in k (JObj d) = Ok false) as -> by (cbn; by rewrite E).
      rewrite bind_Ok. destruct b; [|done].
      destruct (proj1 Hb eq_refl) as [[? ?] _]. congruence.
Qed.

Definition all_b1 (d : dict) : Prop := Forall (λ k, is_Some (dict_get d k)) b1_fields.

(** The leaf hash of an event with the four members. *)
Definition b1_leaf (d : dict) (leaf : bytes) : Prop := recompute_leaf (JObj d) = Ok leaf.

(** The leaf is the hash of the event's four members or, in an event without
    all of them, what its [leaf] member says, if it has one. *)
Definition v2_event (ev recorded : json) : Prop :=
  ∃ d, ev = JObj d ∧
    ((all_b1 d ∧ ∃ leaf, b1_leaf d leaf ∧ recorded = JStr (hex leaf)) ∨
     (¬ all_b1 d ∧ ∀ j, dict_get d (u "leaf") = Some j → j ≠ JNull → py_eq j recorded = true)).

Lemma leaves_loop_none leaves idx events :
  leaves_loop (JList leaves) idx events = Ok None ↔
  (∀ i ev, events !! i = Some ev →
     ∃ recorded, leaves !! (idx + i)%nat = Some recorded ∧ v2_event ev recorded).
Proof.
  revert idx. induction events as [|ev events IH]; intros idx; cbn [leaves_loop].
  { split; [done|]. done. }
  split.
  - intros Hl. apply bind_ok_iff in Hl as (recorded & Hr & Hl). cbn in Hr.
    apply of_option_ok in Hr. apply bind_ok_iff in Hl as (full & Hf & Hl).
    assert (v2_event ev recorded ∧ leaves_loop (JList leaves) (S idx) events = Ok None)
      as [Hev Hrest].
    { destruct full.
      - apply bind_ok_iff in Hl as (leaf & Hleaf & Hl).
        apply fail_if_none in Hl as [Hq Hl]. apply negb_false_iff, py_eq_str in Hq.
        split; [|done]. unfold recompute_leaf in Hleaf.
        apply bind_ok_iff in Hleaf as (a & Ha & Hleaf).
        pose proof Ha as (d & -> & _)%getitem_ok. exists d. split; [done|]. left.
        apply all_in_obj in Hf. split; [by apply Hf|]. exists leaf. split; [|done].
        unfold b1_leaf, recompute_leaf. by rewrite Ha, bind_Ok.
      - apply bind_ok_iff in Hl as (leaf & Hleaf & Hl).
        apply fail_if_none in Hl as [Hq Hl]. split; [|done].
        unfold get, get_or in Hleaf. destruct ev as [| | | | | |d]; try done.
        exists d. split; [done|]. right. apply all_in_obj in Hf.
        split; [intros Hd; by apply Hf in Hd|]. intros j Hj Hnn.
        rewrite Hj in Hleaf. apply Ok_inj in Hleaf as <-. cbn [default] in Hq.
        by destruct j; try done; apply negb_false_iff in Hq. }
    intros [|i] ev' Hi; cbn in Hi.
    + injection Hi as <-. rewrite Nat.add_0_r. eauto.
    + replace (idx + S i)%nat with (S idx + i)%nat by lia. by apply IH.
  - intros Hall. destruct (Hall 0%nat ev eq_refl) as (recorded & Hr & d & -> & Hev).
    rewrite Nat.add_0_r in Hr. cbn [getindex]. rewrite Hr. cbn [of_option]. rewrite bind_Ok.
    assert (leaves_loop (JList leaves) (S idx) events = Ok None) as Hrest.
    { apply IH. intros i ev' Hi. destruct (Hall (S i) ev' Hi) as (r & Hr' & ?).
      exists r. split; [|done]. by replace (S idx + i)%nat with (idx + S i)%nat by lia. }
    destruct Hev as [(Hd & leaf & Hleaf & ->)|(Hd & Hleaf)].
    + rewrite (proj2 (all_in_obj b1_fields d true)), bind_Ok by (by split).
      rewrite Hleaf, bind_Ok. apply fail_if_none. by rewrite negb_false_iff, py_eq_str.
    + rewrite (proj2 (all_in_obj b1_fields d false)), bind_Ok by (by split).
      unfold get, get_or. rewrite bind_Ok. apply fail_if_none. split; [|done].
      destruct (dict_get d (u "leaf")) as [j|]; [|done]. cbn [default].
      by destruct j; try done; rewrite Hleaf.
Qed.
End checks.

(** ** The v2 tree *)

Section v2_tree.
Context `{Sha256, Rfc8785}.

(** Events, leaves and tree of the envelope agree. *)
Definition v2_tree (m : dict) (evs leaves : list json) (bs : list bytes) (root : bytes)
    (levels : list (list bytes)) : Prop :=
  dict_get m (u "events") = Some (JList evs) ∧
  dict_get m (u "leaves") = Some (JList leaves) ∧
  (∃ c, dict_get m (u "event_count") = Some c ∧
     py_eq c (JInt (Z.of_nat (length evs))) = true) ∧
  Forall2 v2_event evs leaves ∧ Forall2 hex_leaf leaves bs ∧
  build_merkle_tree bs = Ok (root, levels) ∧
  dict_get m (u "merkle_root") = Some (JStr (hex root)) ∧
  dict_get m (u "tree_levels") = Some (levels_json levels).

Definition v2_integrity (manifest : json) : Prop :=
  _check_event_count manifest = Ok None ∧ _check_leaves_match_events manifest = Ok None ∧
  _check_merkle_root manifest = Ok None.

Lemma py_eq_nat j a b :
  py_eq j (JInt (Z.of_nat a)) = true → py_eq j (JInt (Z.of_nat b)) = true → a = b.
Proof.
  assert (∀ z y, z = Z.of_nat a → z = Z.of_nat b → y = z → a = b) as Hz by lia.
  destruct j as [|c|z|f| | |]; cbn; rewrite ?Z.eqb_eq; try done; try lia.
  destruct f as [s|s| |s m e]; cbn; rewrite ?Z.eqb_eq; try done; try lia.
  destruct (0 <=? e); rewrite ?Z.eqb_eq; [lia|]. intros Ha Hb. rewrite Ha in Hb.
  pose proof (Z.pow_nonneg 10 (- e)).
  destruct (Z.leb_spec 0 (- e)).
  - pose proof (Z.pow_pos_nonneg 2 (- e)). nia.
  - rewrite Z.pow_neg_r in * by lia. destruct s; lia.
Qed.

Lemma no_hex_leaf_char c b : ¬ hex_leaf (JStr [c]) b.
Proof.
  intros (s & [= <-] & Hs & Hb). cbn in Hs. destruct (is_ascii_space c); [|done].
  by injection Hs as <-.
Qed.

Lemma py_iter_list j l :
  py_iter j = Ok l → (∀ s, JStr s ∉ l) → l ≠ [] → j = JList l.
Proof.
  intros Hj Hno Hne. destruct j as [| | | |s|l'|d]; try done; apply Ok_inj in Hj as <-; [| |].
  - destruct s as [|c s]; [done|]. exfalso. apply (Hno [c]). by left.
  - done.
  - destruct d as [|[k v] d]; [done|]. exfalso. apply (Hno k). by left.
Qed.

Lemma levels_items levels lv :
  levels ≠ [] → py_iter lv = Ok ((λ level, JList (JStr <$> (hex <$> level))) <$> levels) →
  lv = levels_json levels.
Proof.
  intros Hne Hi. apply (py_iter_list _ _ Hi).
  - intros s Hs. apply list_elem_of_fmap in Hs as (? & ? & _). done.
  - by destruct levels.
Qed.

Lemma getitem_obj m k v : getitem (JObj m) k = Ok v ↔ dict_get m k = Some v.
Proof. rewrite getitem_ok. naive_solver. Qed.

Lemma event_count_none m :
  _check_event_count (JObj m) = Ok None ↔
  ∃ c evs lvs n, dict_get m (u "event_count") = Some c ∧ dict_get m (u "events") = Some evs ∧
    dict_get m (u "leaves") = Some lvs ∧ py_len evs = Ok n ∧ py_len lvs = Ok n ∧
    py_eq c (JInt (Z.of_nat n)) = true.
Proof.
  unfold _check_event_count. split.
  - intros Hc. apply bind_ok_iff in Hc as (c & Hc1%getitem_obj & Hc).
    apply bind_ok_iff in Hc as (evs & Hc2%getitem_obj & Hc).
    apply bind_ok_iff in Hc as (n & Hn & Hc).
    apply bind_ok_iff in Hc as (lvs & Hc3%getitem_obj & Hc).
    apply bind_ok_iff in Hc as (k & Hk & Hc).
    rewrite !fail_if_none, !negb_false_iff in Hc. destruct Hc as (E1 & E2 & _).
    pose proof (py_eq_nat _ _ _ E1 E2) as <-. eauto 10.
  - intros (c & evs & lvs & n & Hc%getitem_obj & He%getitem_obj & Hl%getitem_obj & Hn & Hk & E).
    rewrite Hc, bind_Ok, He, bind_Ok, Hn, bind_Ok, Hl, bind_Ok, Hk, bind_Ok.
    by rewrite !fail_if_none, !negb_false_iff.
Qed.

Lemma merkle_root_none m :
  _check_merkle_root (JObj m) = Ok None ↔
  ∃ lvs js bs root levels,
    dict_get m (u "leaves") = Some lvs ∧ py_iter lvs = Ok js ∧ js ≠ [] ∧
    Forall2 hex_leaf js bs ∧ build_merkle_tree bs = Ok (root, levels) ∧
    dict_get m (u "merkle_root") = Some (JStr (hex root)) ∧
    dict_get m (u "tree_levels") = Some (levels_json levels).
Proof.
  unfold _check_merkle_root. split.
  - intros Hc. apply bind_ok_iff in Hc as (lvs & Hl%getitem_obj & Hc).
    apply bind_ok_iff in Hc as (js & Hjs & Hc).
    apply bind_ok_iff in Hc as (r & Hr%getitem_obj & Hc).
    apply bind_ok_iff in Hc as (tl & Ht%getitem_obj & Hc).
    apply bind_ok_iff in Hc as (items & Hi & Hc).
    destruct js as [|j js]; [done|]. apply bind_ok_iff in Hc as ([f|bs] & Hp & Hc); [done|].
    apply parse_leaves_ok in Hp.
    apply compare_tree_none in Hc as (root & levels & Hb & -> & [= ->]).
    exists lvs, (j :: js), bs, root, levels. split_and!; try done.
    rewrite Ht. f_equal. apply levels_items; [|done].
    apply build_ok_inv in Hb as (_ & _ & Htw). by eapply tower_nonnil.
  - intros (lvs & js & bs & root & levels & Hl%getitem_obj & Hjs & Hne & Hp & Hb & Hr%getitem_obj
      & Ht%getitem_obj).
    rewrite Hl, bind_Ok, Hjs, bind_Ok, Hr, bind_Ok, Ht, bind_Ok. cbn [py_iter levels_json].
    rewrite bind_Ok. destruct js as [|j js]; [done|].
    apply (parse_leaves_ok 0) in Hp. rewrite Hp, bind_Ok. apply compare_tree_none. eauto.
Qed.

(** The three checks of the v2 mode hold exactly for such an envelope. *)
Lemma v2_integrity_iff m :
  v2_integrity (JObj m) ↔ ∃ evs leaves bs root levels, v2_tree m evs leaves bs root levels.
Proof.
  unfold v2_integrity, v2_tree. rewrite event_count_none, merkle_root_none. split.
  - intros ((c & ej & lj & n & Hc & He & Hl & Hn & Hk & E) & Hev &
      (lj' & js & bs & root & levels & Hl' & Hjs & Hne & Hp & Hb & Hr & Ht)).
    rewrite Hl in Hl'. injection Hl' as <-.
    unfold _check_leaves_match_events in Hev.
    rewrite (proj2 (getitem_obj m _ _) He), bind_Ok in Hev.
    apply bind_ok_iff in Hev as (evs & Hevs & Hev).
    assert (length js = n) as Hjn.
    { destruct lj; try done; apply Ok_inj in Hk as <-, Hjs as <-; by rewrite ?length_fmap. }
    assert (length evs = n) as Hen.
    { destruct ej; try done; apply Ok_inj in Hn as <-, Hevs as <-; by rewrite ?length_fmap. }
    destruct evs as [|ev evs]; [destruct js; cbn in *; [done|lia]|].
    rewrite (proj2 (getitem_obj m _ _) Hl), bind_Ok in Hev.
    assert (lj = JList js) as ->.
    { destruct lj as [| | | |s|l|d]; try done; apply Ok_inj in Hjs as <-.
      - destruct s as [|ch s]; [done|]. inversion Hp as [|? ? ? ? Hx]; subst.
        by apply no_hex_leaf_char in Hx.
      - cbn [leaves_loop] in Hev. apply bind_ok_iff in Hev as (? & Hx & _). done. }
    pose proof (proj1 (leaves_loop_none _ _ _) Hev) as Hall.
    assert (ej = JList (ev :: evs)) as ->.
    { apply (py_iter_list _ _ Hevs); [|done]. intros s Hs.
      apply list_elem_of_lookup in Hs as [i Hi].
      destruct (Hall i _ Hi) as (? & _ & d & [=] & _). }
    exists (ev :: evs), js, bs, root, levels. split_and!; try done.
    + exists c. by rewrite Hen.
    + apply Forall2_same_length_lookup. split; [lia|]. intros i x y Hx Hy.
      destruct (Hall i x Hx) as (r & Hr' & ?). cbn in Hr'. congruence.
  - intros (evs & leaves & bs & root & levels & He & Hl & (c & Hc & E) & Hev & Hp & Hb & Hr & Ht).
    assert (leaves ≠ []) as Hne.
    { apply build_ok_inv in Hb as (Hne & _). intros ->. by inversion Hp; subst. }
    split_and!.
    + exists c, (JList evs), (JList leaves), (length evs). split_and!; try done.
      cbn. by rewrite (Forall2_length _ _ _ Hev).
    + unfold _check_leaves_match_events. rewrite (proj2 (getitem_obj m _ _) He), bind_Ok.
      cbn [py_iter]. rewrite bind_Ok. destruct evs as [|ev evs]; [done|].
      rewrite (proj2 (getitem_obj m _ _) Hl), bind_Ok. apply leaves_loop_none.
      intros i x Hx. by apply (Forall2_lookup_l _ _ _ _ _ Hev).
    + exists (JList leaves), leaves, bs, root, levels. done.
Qed.
End v2_tree.

(** ** The signature slot *)

Section slot.
Context `{Sha256, Rfc8785, Ed25519}.

(** An unsigned manifest where that is permitted; or a signature of the
    manifest's digest that is valid for the key.  A slot that holds [null]
    counts as verified in permissive mode. *)
Definition slot_accepts (m : dict) (key : option bytes) (mode : VerifyMode)
    (status : sig_status) : Prop :=
  (dict_get m SIGNATURE_FIELD = None ∧ mode = PERMISSIVE ∧ status = SigUnsignedPermissive) ∨
  ∃ block k, dict_get m SIGNATURE_FIELD = Some block ∧ key = Some k ∧ status = SigVerified ∧
    signable m ∧
    (block = JNull ∧ mode = PERMISSIVE ∨
     signature_valid (dict_pop m SIGNATURE_FIELD) block (Some k)).

Definition accepting (status : sig_status) : bool :=
  match status with SigVerified | SigUnsignedPermissive => true | _ => false end.

Lemma slot_spec m key mode status :
  slot_accepts m key mode status ↔
  (∃ msg, _verify_signature_slot (JObj m) key mode = Ok (status, msg)) ∧
  accepting status = true.
Proof.
  unfold _verify_signature_slot, slot_accepts, has_slot.
  assert (∀ k, verify_manifest_signature (Plain m) (Some k) mode JNull = Ok true ↔
    signable m ∧ match dict_get m SIGNATURE_FIELD with
                 | Some block => block = JNull ∧ mode = PERMISSIVE ∨
                     signature_valid (dict_pop m SIGNATURE_FIELD) block (Some k)
                 | None => mode = PERMISSIVE
                 end) as Hv.
  { intros k. rewrite verify_accepts. cbn [split_signed].
    destruct (dict_get m SIGNATURE_FIELD) as [block|].
    - by rewrite signable_pop.
    - split; [|naive_solver]. intros [Hs [[_ ->]|Hx]]; [done|]. exfalso.
      destruct Hx as (? & ? & ? & ? & _ & _ & (b & ? & [=] & _) & _). }
  destruct (dict_get m SIGNATURE_FIELD) as [block|] eqn:Eb.
  - destruct key as [k|].
    2:{ split; [naive_solver|]. by intros [[? [= <- <-]%Ok_inj] ?]. }
    specialize (Hv k).
    destruct (verify_manifest_signature (Plain m) (Some k) mode JNull) as [[]|e].
    + destruct Hv as [Hv _]. specialize (Hv eq_refl). split.
      * intros [[? _]|(? & ? & _ & _ & -> & _)]; [done|eauto].
      * intros [[? [= <- <-]%Ok_inj] _]. right. exists block, k. naive_solver.
    + split.
      * intros [[? _]|(? & ? & [= <-] & [= <-] & _ & Hs)]; [done|].
        destruct Hv as [_ Hv]. by specialize (Hv Hs).
      * by intros [[? [= <- <-]%Ok_inj] ?].
    + split.
      * intros [[? _]|(? & ? & [= <-] & [= <-] & _ & Hs)]; [done|].
        destruct Hv as [_ Hv]. by specialize (Hv Hs).
      * intros [[? Hx] ?]. destruct (declared_sig_error e); [|done].
        apply Ok_inj in Hx as [= <- <-]. done.
  - split.
    + intros [(_ & -> & ->)|(? & ? & ? & _)]; [|done]. eauto.
    + intros [[msg Hx] Ha]. left.
      assert (Ok (E:=exn) match mode with
               | PERMISSIVE => (SigUnsignedPermissive, None)
               | STRICT => (SigUnsignedStrict, Some SigUnsignedInStrict)
               end = Ok (status, msg)) as [=]%Ok_inj by (by destruct key).
      by destruct mode; simplify_eq.
Qed.

(** The key the v2 mode uses. *)
Definition key_of (o : v2_options) (m : dict) (key : option bytes) : Prop :=
  effective_pubkey o (JObj m) = inr key.

Lemma v2_signature_ok o m report r :
  (∀ ok sig f, integrity_ok (report ok sig f) = ok) →
  v2_signature o (JObj m) report = Ok r ∧ integrity_ok r = true ↔
  ∃ status, r = report true status None ∧
    if verify_signature o
    then ∃ key, key_of o m key ∧ slot_accepts m key (verify_signature_mode o) status
    else status = SigNone.
Proof.
  intros Hrep. unfold v2_signature, key_of. destruct (verify_signature o); cbn [negb].
  2:{ split; [intros [<-%Ok_inj _]; eauto|]. intros (? & -> & ->). by rewrite Hrep. }
  setoid_rewrite slot_spec.
  destruct (effective_pubkey o (JObj m)) as [b|key].
  { split; [intros [<-%Ok_inj Hi]; by rewrite Hrep in Hi|]. by intros (? & _ & ? & ? & _). }
  split.
  - intros [([status msg] & Hs & Hr)%bind_ok_iff Hi]. apply Ok_inj in Hr as <-.
    assert (status ≠ SigNone) as Hno.
    { intros ->. unfold _verify_signature_slot in Hs. by repeat case_match. }
    exists status. destruct status; rewrite ?Hrep in Hi; try done;
      (split; [done|]; exists key; by eauto).
  - intros (status & -> & key' & [= <-] & (msg & Hs) & Ha). rewrite Hs, bind_Ok.
    rewrite Hrep. by destruct status.
Qed.
End slot.

(** ** The v2 mode *)

Section v2_mode.
Context `{Sha256, Rfc8785, Ed25519, JsonSchema}.

Definition present (m : dict) (k : str) : Prop := is_Some (dict_get m k).

(** The multi-capability members are there exactly in version 2. *)
Definition discipline (m : dict) : Prop :=
  (dict_get m (u "version") = Some (JStr _VERSION_V1) →
   ¬ present m (u "multi_cap_events") ∧ ¬ present m (u "multi_cap_summary")) ∧
  (dict_get m (u "version") = Some (JStr _VERSION_V2) →
   present m (u "multi_cap_events") ∧ present m (u "multi_cap_summary")).

Lemma member_bool m k : ∃ b : bool, py_in k (JObj m) = Ok b ∧ (b = true ↔ present m k).
Proof.
  unfold present. cbn. destruct (dict_get m k) as [v|].
  - exists true. split; [done|]. by split.
  - exists false. split; [done|]. split; [done|]. by intros [? ?].
Qed.

Lemma get_version m v :
  py_eq (default JNull (dict_get m (u "version"))) (JStr v) = true ↔
  dict_get m (u "version") = Some (JStr v).
Proof. rewrite py_eq_str_r. destruct (dict_get m (u "version")); cbn; naive_solver. Qed.

Lemma discipline_iff m : _check_trigger_discipline (JObj m) = Ok None ↔ discipline m.
Proof.
  unfold _check_trigger_discipline, discipline, get, get_or. rewrite bind_Ok.
  destruct (member_bool m (u "multi_cap_events")) as (a & -> & Ha).
  destruct (member_bool m (u "multi_cap_summary")) as (b & -> & Hb).
  rewrite !bind_Ok, !fail_if_none, <- Ha, <- Hb, <- !get_version.
  destruct (py_eq _ (JStr _VERSION_V1)), (py_eq _ (JStr _VERSION_V2)), a, b;
    cbn; naive_solver.
Qed.

Lemma version_v2 m :
  py_eq (version_of (JObj m)) (JStr _VERSION_V2) = true ↔
  dict_get m (u "version") = Some (JStr _VERSION_V2).
Proof.
  rewrite py_eq_str_r. cbn. destruct (dict_get m (u "version")); cbn; naive_solver.
Qed.

(** The capability phase runs in version 2 only. *)
Definition v2_caps (o : v2_options) (m : dict) (caps : cap_status) : Prop :=
  if py_eq (version_of (JObj m)) (JStr _VERSION_V2)
  then _check_multi_cap_consistency (JObj m) (strict_multi_cap_root o) = Ok (None, caps)
  else caps = CapNone.

Definition v2_accepts (repo_root : str) (fs : files) (path : str) (o : v2_options)
    (r : ManifestV2Result) : Prop :=
  ∃ m caps status,
    load_manifest fs path = inr (JObj m) ∧
    _validate_schema fs (JObj m) (default (DEFAULT_SCHEMA_PATH repo_root) (schema_path o))
      = Ok None ∧
    discipline m ∧
    (∃ evs leaves bs root levels, v2_tree m evs leaves bs root levels) ∧
    v2_caps o m caps ∧
    (if verify_signature o
     then ∃ key, key_of o m key ∧ slot_accepts m key (verify_signature_mode o) status
     else status = SigNone) ∧
    r = MkV2 path (version_of (JObj m)) true true caps status None.

Lemma v2_accepts_ok repo_root fs path o r :
  verify_manifest_v2_file repo_root fs path o = Ok r ∧ v2_ok r = true ↔
  v2_accepts repo_root fs path o r.
Proof.
  unfold verify_manifest_v2_file, v2_accepts. setoid_rewrite <- v2_integrity_iff.
  setoid_rewrite <- discipline_iff. unfold v2_integrity, v2_caps.
  destruct (load_manifest fs path) as [f|j].
  { split; [by intros [<-%Ok_inj ?]|]. by intros (? & ? & ? & ? & _). }
  split.
  - intros [Hr Hi]. rewrite stop_on_ok in Hr.
    destruct Hr as [(? & _ & ->)|(Hschema & Hr)]; [done|]. rewrite stop_on_ok in Hr.
    destruct Hr as [(? & _ & ->)|(Htrig & Hr)]; [done|]. rewrite stop_on_ok in Hr.
    destruct Hr as [(? & _ & ->)|(Hcount & Hr)]; [done|]. rewrite stop_on_ok in Hr.
    destruct Hr as [(? & _ & ->)|(Hleaves & Hr)]; [done|]. rewrite stop_on_ok in Hr.
    destruct Hr as [(? & _ & ->)|(Hroot & Hr)]; [done|].
    destruct j as [| | | | | |m]; try (by unfold _check_trigger_discipline in Htrig).
    apply bind_ok_iff in Hr as ([[f|] caps] & Hcaps & Hr); [by apply Ok_inj in Hr as <-|].
    assert (integrity_ok r = true) as Hi'.
    { unfold v2_ok in Hi. by apply andb_true_iff in Hi as [_ ?]. }
    destruct (proj1 (v2_signature_ok o m
      (λ ok sig f, MkV2 path (version_of (JObj m)) true ok caps sig f) r (λ _ _ _, eq_refl))
      (conj Hr Hi')) as (status & -> & Hsig).
    exists m, caps, status. split_and!; try done.
    destruct (py_eq _ _); [done|]. by apply Ok_inj in Hcaps as [= <-].
  - intros (m & caps & status & [= ->] & Hschema & Htrig & (Hcount & Hleaves & Hroot) & Hcaps &
      Hsig & ->).
    split; [|done]. rewrite stop_on_ok. right. split; [done|].
    rewrite stop_on_ok. right. split; [done|]. rewrite stop_on_ok. right. split; [done|].
    rewrite stop_on_ok. right. split; [done|]. rewrite stop_on_ok. right. split; [done|].
    assert ((if py_eq (version_of (JObj m)) (JStr _VERSION_V2)
             then _check_multi_cap_consistency (JObj m) (strict_multi_cap_root o)
             else Ok (None, CapNone)) = Ok (None, caps)) as ->
      by (destruct (py_eq _ _); [done|by rewrite Hcaps]).
    rewrite bind_Ok. apply (v2_signature_ok o m
      (λ ok sig f, MkV2 path (version_of (JObj m)) true ok caps sig f)); [done|].
    by exists status.
Qed.
End v2_mode.

(** ** The aggregator's manifest *)

Section real_tree.
Context `{Sha256, Rfc8785}.

(** A leaf entry that stands for these bytes. *)
Definition real_leaf (entry : json) (b : bytes) : Prop :=
  length b = 32%nat ∧
  (entry = JStr (hex b) ∨ ∃ d, entry = JObj d ∧ dict_get d (u "leaf_hash") = Some (JStr (hex b))).

(** The leaf an event claims. *)
Definition claimed_leaf (d : dict) : json :=
  let h := KidResolver.member d (u "leaf_hash") in
  if truthy h then h else KidResolver.member d (u "leaf").

(** A claimed leaf is the recorded one; only an event without a claim is
    hashed, and only if it has the four members. *)
Definition real_event (ev : json) (b : bytes) : Prop :=
  ∃ d, ev = JObj d ∧
    ((claimed_leaf d ≠ JNull ∧ claimed_leaf d = JStr (hex b)) ∨
     (claimed_leaf d = JNull ∧ (all_b1 d → b1_leaf d b))).

Definition real_tree (m : dict) (evs leaves : list json) (bs : list bytes) (root : bytes)
    (levels : list (list bytes)) : Prop :=
  dict_get m (u "events") = Some (JList evs) ∧
  dict_get m (u "leaves") = Some (JList leaves) ∧
  (∃ c, dict_get m (u "event_count") = Some c ∧
     py_eq c (JInt (Z.of_nat (length evs))) = true) ∧
  Forall2 real_event evs bs ∧ Forall2 real_leaf leaves bs ∧
  build_merkle_tree bs = Ok (root, levels) ∧
  dict_get m (u "merkle_root") = Some (JStr (hex root)) ∧
  dict_get m (u "tree_levels") = Some (levels_json levels).

Definition real_fields (m : dict) : Prop :=
  Forall (present m) _REAL_MANDATORY_FIELDS ∧
  (∃ v, dict_get m (u "version") = Some (JStr v) ∧ v ∈ _REAL_VERSIONS) ∧
  (∃ b, dict_get m (u "merkle_root") = Some (JStr (hex b)) ∧ length b = 32%nat) ∧
  (∃ c n, dict_get m (u "event_count") = Some c ∧ is_int c = Some n ∧ 0 ≤ n) ∧
  (∃ l, dict_get m (u "events") = Some (JList l)) ∧
  (∃ l, dict_get m (u "leaves") = Some (JList l)) ∧
  (∃ l, dict_get m (u "tree_levels") = Some (JList l)) ∧
  (∃ s, dict_get m (u "hour_slot") = Some (JStr s) ∧ s ≠ []) ∧
  (∀ ah, dict_get m (u "anchor_height") = Some ah → ∃ n, is_int ah = Some n ∧ 0 < n).

Lemma leaf_text_ok idx entry s :
  leaf_text idx entry = inr s ↔ ∃ b, s = hex b ∧ real_leaf entry b.
Proof.
  unfold leaf_text, real_leaf. split.
  - intros Hl. destruct entry as [| | | |t| |d]; try done.
    + destruct (_is_lower_hex_64 t) eqn:E; [|done]. injection Hl as ->.
      apply lower_hex_64 in E as (b & -> & Hb). eauto 6.
    + destruct (dict_get d (u "leaf_hash")) as [[| | | |t| |]|] eqn:Ed; try done.
      destruct (_is_lower_hex_64 t) eqn:E; [|done]. injection Hl as ->.
      apply lower_hex_64 in E as (b & -> & Hb). eauto 8.
  - intros (b & -> & Hb & [->|(d & -> & Hd)]).
    + by rewrite (proj2 (lower_hex_64 (hex b))) by eauto.
    + by rewrite Hd, (proj2 (lower_hex_64 (hex b))) by eauto.
Qed.

Lemma normalise_ok idx entries ss :
  normalise_leaves idx entries = inr ss ↔ ∃ bs, ss = hex <$> bs ∧ Forall2 real_leaf entries bs.
Proof.
  revert idx ss. induction entries as [|e entries IH]; intros idx ss; cbn [normalise_leaves].
  { split; [intros [= <-]; by exists []|]. intros (bs & -> & Hb). by inversion Hb; subst. }
  split.
  - destruct (leaf_text idx e) as [f|s] eqn:Es; [done|].
    apply leaf_text_ok in Es as (b & -> & Hb).
    destruct (normalise_leaves (S idx) entries) as [f|out] eqn:En; [done|].
    apply IH in En as (bs & -> & Hbs). intros [= <-]. exists (b :: bs). by auto.
  - intros (bs & -> & Hb). inversion Hb as [|? b ? bs' Hb1 Hbs]; subst.
    rewrite (proj2 (leaf_text_ok idx e (hex b))) by eauto.
    by rewrite (proj2 (IH (S idx) (hex <$> bs'))) by eauto.
Qed.

Lemma leaf_in_event_ok ev j :
  leaf_in_event ev = Ok j ↔ ∃ d, ev = JObj d ∧ j = claimed_leaf d.
Proof.
  unfold leaf_in_event, claimed_leaf, get, get_or, KidResolver.member. split.
  - intros Hl. apply bind_ok_iff in Hl as (h & Hh & Hl).
    destruct ev as [| | | | | |d]; try done. exists d. split; [done|].
    apply Ok_inj in Hh as ->. destruct (truthy h); by apply Ok_inj in Hl as ->.
  - intros (d & -> & ->). rewrite bind_Ok. by destruct (truthy _).
Qed.

Lemma real_loop_none (leaves : list bytes) idx events :
  (idx + length events ≤ length leaves)%nat →
  real_leaves_loop (hex <$> leaves) idx events = Ok None ↔
  (∀ i ev b, events !! i = Some ev → leaves !! (idx + i)%nat = Some b → real_event ev b).
Proof.
  revert idx. induction events as [|ev events IH]; intros idx Hlen; cbn [real_leaves_loop].
  { by split. }
  cbn [length] in Hlen.
  destruct (lookup_lt_is_Some_2 leaves idx) as [b0 Hb0]; [lia|].
  assert (of_option Uncaught ((hex <$> leaves) !! idx) = Ok (hex b0)) as Hexp.
  { by rewrite list_lookup_fmap, Hb0. }
  assert ((real_event ev b0 ∧ real_leaves_loop (hex <$> leaves) (S idx) events = Ok None) ↔
    (∀ i ev' b, (ev :: events) !! i = Some ev' → leaves !! (idx + i)%nat = Some b →
       real_event ev' b)) as <-.
  { rewrite IH by lia. split.
    - intros [Hev Hrest] [|i] ev' b Hi Hb; cbn in Hi.
      + injection Hi as <-. rewrite Nat.add_0_r in Hb. by simplify_eq.
      + apply (Hrest i); [done|]. by replace (S idx + i)%nat with (idx + S i)%nat by lia.
    - intros Hall. split.
      + apply (Hall 0%nat); [done|]. by rewrite Nat.add_0_r.
      + intros i ev' b Hi Hb. apply (Hall (S i)); [done|].
        by replace (idx + S i)%nat with (S idx + i)%nat by lia. }
  unfold real_event. split.
  - intros Hl. apply bind_ok_iff in Hl as (leaf & (d & -> & ->)%leaf_in_event_ok & Hl).
    assert (claimed_leaf d = JNull ∨ claimed_leaf d ≠ JNull) as [En|En]
      by (destruct (claimed_leaf d); first [by left|by right]).
    + rewrite En in Hl. apply bind_ok_iff in Hl as (full & Hf%all_in_obj & Hl).
      destruct full.
      * apply bind_ok_iff in Hl as (leaf & Hleaf & Hl). rewrite Hexp, bind_Ok in Hl.
        apply fail_if_none in Hl as [Hq Hl]. split; [|done].
        apply negb_false_iff in Hq. unfold str_eqb in Hq.
        apply bool_decide_eq_true, hex_inj in Hq as ->. exists d. eauto.
      * split; [|done]. exists d. split; [done|]. right. split; [done|].
        intros Hd. by apply Hf in Hd.
    + assert ((expected ← of_option Uncaught ((hex <$> leaves) !! idx);
               fail_if (negb (py_eq (claimed_leaf d) (JStr expected))) (LeafFieldDrift idx)
                 (real_leaves_loop (hex <$> leaves) (S idx) events)) = Ok None) as Hl'
        by (by destruct (claimed_leaf d)).
      rewrite Hexp, bind_Ok in Hl'. apply fail_if_none in Hl' as [Hq Hl'].
      split; [|done]. apply negb_false_iff, py_eq_str_r in Hq. exists d. eauto.
  - intros [(d & -> & Hd) Hrest].
    rewrite (proj2 (leaf_in_event_ok _ _)), bind_Ok by eauto.
    destruct Hd as [[Hne E]|[E Hd]]; rewrite E.
    + rewrite Hexp, bind_Ok. apply fail_if_none. by rewrite negb_false_iff, py_eq_str_r.
    + destruct (all_in b1_fields (JObj d)) as [full|] eqn:Ef.
      2:{ destruct (decide (Forall (λ k, is_Some (dict_get d k)) b1_fields)) as [Ha|Ha];
            [rewrite (proj2 (all_in_obj b1_fields d true)) in Ef by done
            |rewrite (proj2 (all_in_obj b1_fields d false)) in Ef by (by split)]; done. }
      rewrite bind_Ok. apply all_in_obj in Ef. destruct full; [|done].
      rewrite (Hd (proj1 Ef eq_refl)), bind_Ok, Hexp, bind_Ok.
      apply fail_if_none. split; [|done]. unfold str_eqb. by rewrite bool_decide_true.
Qed.
End real_tree.

Section real_mode.
Context `{Sha256, Rfc8785, Ed25519, JsonSchema, OtsVerifier}.

Lemma missing_field_none m fields :
  missing_field m fields = None ↔ Forall (present m) fields.
Proof.
  unfold present. induction fields as [|f fields IH]; cbn; [by split|].
  rewrite Forall_cons, <- IH. destruct (dict_get m f) as [v|]; [naive_solver|].
  split; [done|]. by intros [[? ?] _].
Qed.

Lemma member_of m k v : dict_get m k = Some v → KidResolver.member m k = v.
Proof. unfold KidResolver.member. by intros ->. Qed.

Lemma real_fields_iff m : _validate_real_manifest_fields m = Ok None ↔ real_fields m.
Proof.
  unfold _validate_real_manifest_fields, real_fields. rewrite <- missing_field_none.
  destruct (missing_field m _REAL_MANDATORY_FIELDS) as [f|] eqn:Em; [naive_solver|].
  apply missing_field_none in Em. unfold _REAL_MANDATORY_FIELDS in Em.
  rewrite !Forall_cons in Em.
  destruct Em as ([v Ev] & [hs Ehs] & [mr Emr] & [ec Eec] & [es Ees] & [ls Els] & [tl Etl] & _).
  rewrite (member_of _ _ _ Ev), (member_of _ _ _ Ehs), (member_of _ _ _ Emr),
    (member_of _ _ _ Eec), (member_of _ _ _ Ees), (member_of _ _ _ Els), (member_of _ _ _ Etl).
  rewrite Ev, Ehs, Emr, Eec, Ees, Els, Etl. split.
  - intros Hc. apply bind_ok_iff in Hc as ([] & _ & Hc).
    rewrite !fail_if_none, !negb_false_iff in Hc.
    destruct Hc as (Hv & Hmr & Hec & Hes & Hls & Htl & Hhs & Hah & _).
    split; [done|]. split_and!.
    + destruct v; try done. cbn in Hv. apply bool_decide_eq_true in Hv. eauto.
    + destruct mr; try done. cbn in Hmr. apply lower_hex_64 in Hmr as (b & -> & Hb). eauto.
    + exists ec. destruct (is_int ec) as [n|]; [|done]. apply Z.ltb_ge in Hec. eauto.
    + destruct es; try done. eauto.
    + destruct ls; try done. eauto.
    + destruct tl; try done. eauto.
    + destruct hs as [| | | |s| |]; try done. exists s. by destruct s.
    + intros ah E. rewrite E in Hah. destruct (is_int ah) as [n|]; [|done].
      apply Z.leb_gt in Hah. eauto.
  - intros (_ & (v' & [= ->] & Hv) & (b & [= ->] & Hb) & (c & n & [= <-] & Hn & Hpos) &
      (l1 & [= ->]) & (l2 & [= ->]) & (l3 & [= ->]) & (s & [= ->] & Hs) & Hah).
    cbn [hashable negb]. rewrite raise_if_false, bind_Ok.
    rewrite !fail_if_none, !negb_false_iff. split_and!; try done.
    + cbn. by apply bool_decide_eq_true.
    + cbn. apply lower_hex_64. eauto.
    + rewrite Hn. by apply Z.ltb_ge.
    + by destruct s.
    + destruct (dict_get m (u "anchor_height")) as [ah|]; [|done].
      destruct (Hah ah eq_refl) as (k & -> & Hk). by apply Z.leb_gt.
Qed.

(** The integrity phase of the mode, on normalised leaves. *)
Definition real_integrity (m : dict) : Prop :=
  ∃ ss, _normalise_real_leaves (JObj m) = Ok (inr ss) ∧
    _check_real_event_leaves (JObj m) ss = Ok None ∧
    _check_real_merkle_root (JObj m) ss = Ok None.

Lemma hex_leaves bs : Forall is_hash bs → Forall2 hex_leaf (JStr <$> (hex <$> bs)) bs.
Proof. induction 1; csimpl; constructor; auto using hex_leaf_hex. Qed.

Lemma real_integrity_iff m :
  real_fields m →
  real_integrity m ↔ ∃ evs leaves bs root levels, real_tree m evs leaves bs root levels.
Proof.
  intros (_ & _ & (r & Hr & _) & (c & n & Hc & _) & (evs & He) & (leaves & Hl) & (tl & Ht) & _).
  unfold real_integrity, real_tree, _normalise_real_leaves, _check_real_event_leaves,
    _check_real_merkle_root.
  rewrite !(proj2 (getitem_obj m _ _) Hl), !(proj2 (getitem_obj m _ _) He),
    !(proj2 (getitem_obj m _ _) Hc), !(proj2 (getitem_obj m _ _) Hr),
    !(proj2 (getitem_obj m _ _) Ht), !bind_Ok.
  rewrite He, Hl, Hr, Ht. cbn [py_iter py_len]. rewrite !bind_Ok. split.
  - intros (ss & Hss & Hev & Hroot). apply Ok_inj, normalise_ok in Hss as (bs & -> & Hbs).
    rewrite !bind_Ok in Hroot. rewrite !bind_Ok in Hev. cbn [py_iter py_len] in Hev.
    rewrite !bind_Ok in Hev.
    rewrite !fail_if_none, !negb_false_iff, length_fmap in Hev.
    destruct Hev as (E1 & E2 & Hev). pose proof (py_eq_nat _ _ _ E1 E2) as Hlen.
    rewrite real_loop_none in Hev by (cbn; lia).
    assert (∃ bs', parse_leaves 0 (JStr <$> (hex <$> bs)) = Ok (inr bs') ∧
      compare_tree bs' (JStr (hex r)) (JList tl) = Ok None) as (bs' & Hp & Hct).
    { destruct bs as [|b bs]; [done|]. csimpl in Hroot.
      apply bind_ok_iff in Hroot as ([f|bs'] & Hp & Hct); [done|]. eauto. }
    apply parse_leaves_ok in Hp.
    assert (bs' = bs) as ->.
    { clear -Hp. revert bs' Hp. induction bs as [|b bs IH]; intros bs' Hp; csimpl in Hp;
        inversion Hp as [|? b' ? bs2 Hb Hp2]; subst; [done|].
      destruct Hb as (s & [= <-] & Hb & _). rewrite bytes_fromhex_hex in Hb.
      injection Hb as ->. f_equal. by apply IH. }
    apply compare_tree_none in Hct as (root & levels & Hb & [= Er%hex_inj] & Elv). subst root.
    exists evs, leaves, bs, r, levels. split_and!; try done; [eauto| |by rewrite Elv].
    apply Forall2_same_length_lookup. split; [done|]. intros i x y Hx Hy. by apply (Hev i).
  - intros (evs' & leaves' & bs & root & levels & [= <-] & [= <-] & (c' & Hc' & E) & Hev & Hbs & Hb
      & [= <-%hex_inj] & Htl').
    rewrite Hc in Hc'. injection Hc' as <-. injection Htl' as ->.
    exists (hex <$> bs). split; [|split].
    + f_equal. apply normalise_ok. eauto.
    + rewrite !bind_Ok. cbn [py_iter py_len].
      rewrite !bind_Ok, !fail_if_none, !negb_false_iff, length_fmap, <- (Forall2_length _ _ _ Hev).
      split_and!; try done. apply real_loop_none; [by rewrite (Forall2_length _ _ _ Hev)|].
      intros i ev b Hi Hbi. cbn in Hbi. by eapply Forall2_lookup_lr.
    + apply build_ok_inv in Hb as Hinv. destruct Hinv as (Hne & Hh & _).
      rewrite !bind_Ok. destruct bs as [|b bs]; [done|]. csimpl.
      pose proof (proj2 (parse_leaves_ok 0 _ _) (hex_leaves (b :: bs) Hh)) as Hp.
      csimpl in Hp. rewrite Hp, bind_Ok. apply compare_tree_none. eauto.
Qed.

(** The files next to the manifest anchor this root. *)
Definition anchored (raws : raw_files) (path : str) (root : bytes) (full : bool) : Prop :=
  raws !! sibling path (u "root.bin") = Some (Some root) ∧ length root = 32%nat ∧
  ∃ receipt, raws !! sibling path (u "root.bin.ots") = Some (Some receipt) ∧
    take (length _OTS_MAGIC_HEADER) receipt = _OTS_MAGIC_HEADER ∧
    (full = true → verify_receipt (sibling path (u "root.bin.ots")) root ≠ Ok false).

Lemma ots_ok_iff raws path root full :
  length root = 32%nat →
  ots_ok (_check_ots_anchor_side_files raws path (hex root) full) = true ↔
  anchored raws path root full.
Proof.
  intros Hlen. unfold _check_ots_anchor_side_files, anchored.
  destruct (raws !! sibling path (u "root.bin")) as [[raw|]|]; [|by split; [|intros [[=] _]]..].
  destruct (Nat.eqb_spec (length raw) 32) as [Hraw|Hraw]; cbn [negb];
    [|split; [done|by intros ([= ->] & ? & _)]].
  unfold str_eqb at 1. case_bool_decide as Hx; cbn [negb];
    [|split; [done|by intros ([= ->] & _)]].
  apply hex_inj in Hx as ->.
  destruct (raws !! sibling path (u "root.bin.ots")) as [[receipt|]|];
    [|by split; [|intros (_ & _ & ? & [=] & _)]..].
  case_bool_decide as Hm; cbn [negb]; [|split; [done|by intros (_ & _ & ? & [= <-] & ? & _)]].
  destruct full; cbn [negb]; [|split; [|done]].
  2:{ intros _. split_and!; [done|done|]. exists receipt. by split_and!. }
  unfold _run_ots_full_verify.
  destruct (verify_receipt _ root) as [[]|reason] eqn:Ev; split; try done;
    try (intros _; split_and!; [done|done|]; by exists receipt).
  intros (_ & _ & ? & [= <-] & _ & Hv). by destruct (Hv eq_refl).
Qed.

Variables (repo_root : str) (environ : gmap str str).

Definition real_anchor (raws : raw_files) (path : str) (o : real_options) (m : dict)
    (ots : OtsAnchorCheck) : Prop :=
  if check_ots_anchor o
  then ∃ root, dict_get m (u "merkle_root") = Some (JStr (hex root)) ∧
         let full := ots_full_verify o || _full_verify_env_enabled environ in
         ots = _check_ots_anchor_side_files raws path (hex root) full ∧
         anchored raws path root full
  else ots = no_ots_check.

Definition has_caps (m : dict) : Prop :=
  present m (u "multi_cap_events") ∨ present m (u "multi_cap_summary").

Definition real_caps (o : real_options) (m : dict) (caps : cap_status) : Prop :=
  (has_caps m ∧ _check_multi_cap_consistency (JObj m) (real_strict o) = Ok (None, caps)) ∨
  (¬ has_caps m ∧ caps = CapNone).

Definition real_schema (fs : files) (o : real_options) (m : dict) : Prop :=
  use_schema_file o = true →
  _validate_real_manifest_against_schema fs (JObj m)
    (default (DEFAULT_REAL_SCHEMA_PATH repo_root) (real_schema_path o)) = Ok None.

Definition real_accepts (fs : files) (raws : raw_files) (path : str) (o : real_options)
    (r : RealManifestResult) : Prop :=
  ∃ m caps ots status,
    load_manifest fs path = inr (JObj m) ∧ real_schema fs o m ∧ real_fields m ∧
    (∃ evs leaves bs root levels, real_tree m evs leaves bs root levels) ∧
    real_caps o m caps ∧ real_anchor raws path o m ots ∧
    (if real_verify_signature o
     then slot_accepts m (real_public_key o) (real_mode o) status
     else status = SigNone) ∧
    r = MkReal path (version_of (JObj m)) true true caps ots status None.

Lemma slot_message m key mode status msg :
  _verify_signature_slot (JObj m) key mode = Ok (status, msg) → accepting status = true →
  msg = None.
Proof.
  unfold _verify_signature_slot. intros Hs Ha.
  destruct (has_slot (JObj m)), key; repeat case_match; by simplify_eq.
Qed.

Lemma real_tail_ok raws path o m caps r root :
  dict_get m (u "merkle_root") = Some (JStr (hex root)) → length root = 32%nat →
  real_tail environ raws path o m caps = Ok r ∧ real_ok r = true ↔
  ∃ ots status, real_anchor raws path o m ots ∧
    (if real_verify_signature o
     then slot_accepts m (real_public_key o) (real_mode o) status
     else status = SigNone) ∧
    r = MkReal path (version_of (JObj m)) true true caps ots status None.
Proof.
  intros Hroot Hlen. unfold real_tail, real_anchor.
  rewrite (member_of _ _ _ Hroot). set (full := ots_full_verify o || _).
  set (ots := if check_ots_anchor o then _ else no_ots_check).
  assert (ots_ok ots = true ↔ ∃ c, (if check_ots_anchor o
    then ∃ root, dict_get m (u "merkle_root") = Some (JStr (hex root)) ∧
      c = _check_ots_anchor_side_files raws path (hex root) full ∧ anchored raws path root full
    else c = no_ots_check) ∧ c = ots) as Hots.
  { subst ots. destruct (check_ots_anchor o); [|by split; [intros _; eexists|]].
    rewrite ots_ok_iff by done. split.
    - intros Ha. eexists. split; [|done]. by exists root.
    - intros (c & (root' & Hr & _ & Ha) & _). rewrite Hroot in Hr.
      by injection Hr as <-%hex_inj. }
  destruct (ots_ok ots) eqn:Eo; cbn [negb].
  2:{ split.
      - intros [<-%Ok_inj Hok]. unfold real_ok in Hok. cbn in Hok. by rewrite Eo in Hok.
      - intros (c & status & Ha & _ & _). destruct Hots as [_ Hots]. exfalso.
        enough (false = true) by done. apply Hots. exists c. split; [done|].
        subst ots. destruct (check_ots_anchor o); [|done].
        destruct Ha as (root' & Hr & -> & _). rewrite Hroot in Hr. by injection Hr as <-%hex_inj. }
  destruct (proj1 Hots eq_refl) as (c & Hc & ->). clear Hots. clearbody ots.
  assert (∀ c', (if check_ots_anchor o
    then ∃ root, dict_get m (u "merkle_root") = Some (JStr (hex root)) ∧
      c' = _check_ots_anchor_side_files raws path (hex root) full ∧ anchored raws path root full
    else c' = no_ots_check) → c' = ots) as Hfun.
  { intros c' Hc'. destruct (check_ots_anchor o); [|congruence].
    destruct Hc as (r1 & Hr1 & -> & _), Hc' as (r2 & Hr2 & -> & _). congruence. }
  destruct (real_verify_signature o); cbn [negb].
  2:{ split; [intros [<-%Ok_inj _]; by eexists ots, SigNone|].
      intros (c' & status & ->%Hfun & -> & ->). split; [done|]. unfold real_ok. cbn. by rewrite Eo. }
  setoid_rewrite slot_spec. split.
  - intros [([status msg] & Hs & Hr)%bind_ok_iff Hok]. apply Ok_inj in Hr as <-.
    assert (accepting status = true) as Ha.
    { unfold real_ok in Hok. cbn in Hok. rewrite Eo in Hok.
      destruct status; try done. unfold _verify_signature_slot in Hs. by repeat case_match. }
    exists ots, status. split_and!; [done|by eexists|done|].
    by rewrite (slot_message _ _ _ _ _ Hs Ha).
  - intros (c' & status & ->%Hfun & [[msg Hs] Ha] & ->). rewrite Hs, bind_Ok.
    rewrite (slot_message _ _ _ _ _ Hs Ha). split; [done|].
    unfold real_ok. cbn. rewrite Eo. by destruct status.
Qed.

Lemma real_caps_iff o m caps :
  real_caps o m caps ↔
  (has_events ← py_in (u "multi_cap_events") (JObj m);
   has_summary ← py_in (u "multi_cap_summary") (JObj m);
   if (has_events || has_summary : bool)
   then _check_multi_cap_consistency (JObj m) (real_strict o) else Ok (None, CapNone))
    = Ok (None, caps).
Proof.
  unfold real_caps, has_caps.
  destruct (member_bool m (u "multi_cap_events")) as (a & -> & Ha).
  destruct (member_bool m (u "multi_cap_summary")) as (b & -> & Hb).
  rewrite !bind_Ok, <- Ha, <- Hb.
  destruct a, b; cbn; split; try naive_solver; intros [=]%Ok_inj; right; naive_solver.
Qed.

Lemma real_accepts_ok fs raws path o r :
  verify_real_manifest_file repo_root environ fs raws path o = Ok r ∧ real_ok r = true ↔
  real_accepts fs raws path o r.
Proof.
  unfold verify_real_manifest_file, real_accepts.
  destruct (load_manifest fs path) as [f|j].
  { split; [by intros [<-%Ok_inj ?]|]. by intros (? & ? & ? & ? & ? & _). }
  destruct j as [| | | | | |m];
    try (split; [by intros [<-%Ok_inj ?]|by intros (? & ? & ? & ? & ? & _)]).
  assert ((if use_schema_file o
           then _validate_real_manifest_against_schema fs (JObj m)
                  (default (DEFAULT_REAL_SCHEMA_PATH repo_root) (real_schema_path o))
           else Ok None) = Ok None ↔ real_schema fs o m) as Hsch.
  { unfold real_schema. destruct (use_schema_file o); naive_solver. }
  split.
  - intros [Hr Hok]. rewrite stop_on_ok, Hsch in Hr.
    destruct Hr as [(? & _ & ->)|(Hschema & Hr)]; [done|]. rewrite stop_on_ok in Hr.
    destruct Hr as [(? & _ & ->)|(Hf%real_fields_iff & Hr)]; [done|].
    apply bind_ok_iff in Hr as ([f|ss] & Hss & Hr); [by apply Ok_inj in Hr as <-|].
    rewrite stop_on_ok in Hr. destruct Hr as [(? & _ & ->)|(Hev & Hr)]; [done|].
    rewrite stop_on_ok in Hr. destruct Hr as [(? & _ & ->)|(Hroot & Hr)]; [done|].
    apply bind_ok_iff in Hr as (a & Ha & Hr). apply bind_ok_iff in Hr as (b & Hb & Hr).
    apply bind_ok_iff in Hr as ([[f|] caps] & Hcaps & Hr); [by apply Ok_inj in Hr as <-|].
    pose proof Hf as (_ & _ & (root & Hmr & Hlen) & _).
    destruct (proj1 (real_tail_ok raws path o m caps r root Hmr Hlen) (conj Hr Hok))
      as (ots & status & Hots & Hsig & ->).
    exists m, caps, ots, status. split_and!; try done.
    + apply real_integrity_iff; [done|]. by exists ss.
    + apply real_caps_iff. by rewrite Ha, bind_Ok, Hb, bind_Ok.
  - intros (m' & caps & ots & status & [= <-] & Hschema & Hf & Htree & Hcaps & Hots & Hsig & ->).
    apply (real_integrity_iff m Hf) in Htree as (ss & Hss & Hev & Hroot).
    pose proof Hf as (_ & _ & (root & Hmr & Hlen) & _).
    rewrite stop_on_ok, Hsch.
    assert (∀ r, stop_on (R:=RealManifestResult) (_validate_real_manifest_fields m) r = stop_on (Ok None) r) as Hfe.
    { intros rep. by rewrite (proj2 (real_fields_iff m) Hf). }
    rewrite Hfe, Hss, bind_Ok, Hev, Hroot.
    apply real_caps_iff in Hcaps.
    apply bind_ok_iff in Hcaps as (a & Ha & Hcaps). apply bind_ok_iff in Hcaps as (b & Hb & Hcaps).
    rewrite Ha, bind_Ok, Hb, bind_Ok, Hcaps, bind_Ok.
    destruct (proj2 (real_tail_ok raws path o m caps _ root Hmr Hlen)
      (ex_intro _ ots (ex_intro _ status (conj Hots (conj Hsig eq_refl))))) as [Ht Hok].
    split; [|done]. right. by split.
Qed.
End real_mode.
