(* ===== verification/ManifestFlow.v ===== *)
(** * From the build command to the verifier

    The theorems about [ManifestVerify]: what each mode accepts, that the file
    of a signed build passes, what an accepted root binds, and where the
    verifier accepts more than its documentation says. *)

From S2P Require Import Prelude PyStr Sha256 PyJson PyJsonLoads PyJsonPretty PyDyn Merkle.
From S2P Require Import Signing Manifest PyTime KidResolver ManifestVerify ManifestVerifySpec.
From Stdlib Require Import ZArith Lia.
Import Aggregator ManifestSigning AggregatorCli Verify.

Open Scope Z_scope.

(** ** The two modes *)

Section modes.
Context `{Sha256, Rfc8785, Ed25519, JsonSchema, OtsVerifier}.

(** The v2 mode passes a file exactly when it is a JSON object that fits
    the schema, has the capability members its version asks for, whose events,
    leaves, levels and root are one Merkle tree, whose capability references
    are consistent and whose signature slot is accepted for the key chosen by
    the options; the report then says so. *)
Theorem v2_accepts_iff repo_root fs path o r :
  verify_manifest_v2_file repo_root fs path o = Ok r ∧ v2_ok r = true ↔
  v2_accepts repo_root fs path o r.
Proof. apply v2_accepts_ok. Qed.

(** C11: The real mode passes a file exactly when it is a JSON object with the
    mandatory fields, an optional schema accepts it, leaves, levels and root are
    one Merkle tree whose leaves are the ones its events claim, capability
    references are consistent, the files next to it anchor the root if that is
    asked, and the signature slot is accepted if that is asked. *)
Theorem real_accepts_iff repo_root environ fs raws path o r :
  verify_real_manifest_file repo_root environ fs raws path o = Ok r ∧ real_ok r = true ↔
  real_accepts repo_root environ fs raws path o r.
Proof. apply real_accepts_ok. Qed.
End modes.

(** ** A signed build passes *)

Section flow.
Context `{Sha256, Rfc8785, Ed25519, JsonSchema, OtsVerifier, !Ed25519Laws, PemLoader}.

Lemma manifest_spec_shape hour bt prev events leaves root levels :
  json_shape (JObj (manifest_spec hour bt prev events leaves root levels)).
Proof.
  assert (∀ el : b1_event * bytes, json_shape
    (JObj [(u "event_id", JStr (event_id el.1)); (u "time", JStr (time el.1));
           (u "payload_hash", JStr (payload_hash el.1));
           (u "capability_token_hash", JStr (capability_token_hash el.1));
           (u "leaf_hash", JStr (hex el.2))])) as He.
  { intros el. split; [|done]. apply (bool_decide_unpack _). by vm_compute. }
  assert (∀ l : list (b1_event * bytes), json_shape (JList ((λ el,
    JObj [(u "event_id", JStr (event_id el.1)); (u "time", JStr (time el.1));
           (u "payload_hash", JStr (payload_hash el.1));
           (u "capability_token_hash", JStr (capability_token_hash el.1));
           (u "leaf_hash", JStr (hex el.2))]) <$> l))) as Hl.
  { intros l. apply foldr_and_Forall, Forall_fmap, Forall_true. apply He. }
  split; [apply (bool_decide_unpack _); by vm_compute|].
  apply foldr_and_Forall. unfold manifest_spec. repeat constructor; try apply Hl.
  - apply foldr_and_Forall, Forall_fmap, Forall_true. intros lv.
    apply foldr_and_Forall, Forall_fmap, Forall_true. done.
  - by destruct prev.
Qed.

Definition signed_spec hour bt prev events leaves root levels block : dict :=
  manifest_spec hour bt prev events leaves root levels ++ [(SIGNATURE_FIELD, block)].

(** Where a manifest without the slot gets its signature. *)
Lemma signed_in_place m seed kid s :
  SIGNATURE_FIELD ∉ m.*1 → sign_manifest m seed kid = Ok s →
  dict_set (manifest s) SIGNATURE_FIELD (signature s) = m ++ [(SIGNATURE_FIELD, signature s)] ∧
  ∃ raw, signature s = signature_block_of kid raw.
Proof.
  intros Hno (_ & _ & _ & d & _ & ->)%sign_ok. cbn [manifest signature]. split; [|by eexists].
  rewrite dict_pop_absent by done. by apply dict_set_new.
Qed.

Lemma sign_spec hour bt prev events leaves root levels seed kid s :
  sign_manifest (manifest_spec hour bt prev events leaves root levels) seed kid = Ok s →
  let m := signed_spec hour bt prev events leaves root levels (signature s) in
  dict_set (manifest s) SIGNATURE_FIELD (signature s) = m ∧
  (∃ raw, signature s = signature_block_of kid raw) ∧
  signable m ∧ signature_valid (dict_pop m SIGNATURE_FIELD) (signature s) (Some (ed_public seed)).
Proof.
  intros Hs m.
  assert (SIGNATURE_FIELD ∉ (manifest_spec hour bt prev events leaves root levels).*1) as Hno
    by (apply (bool_decide_unpack _); by vm_compute).
  destruct (signed_in_place _ _ _ _ Hno Hs) as [Hm [raw Er]].
  change (dict_set (manifest s) SIGNATURE_FIELD (signature s) = m) in Hm.
  apply (sign_verifies _ _ _ _ STRICT) in Hs as (_ & Hv & _).
  rewrite Hm, verify_accepts in Hv. cbn [split_signed] in Hv.
  assert (dict_get m SIGNATURE_FIELD = Some (signature s)) as Hg
    by (by rewrite <- Hm, dict_get_set, decide_True).
  rewrite Hg, signable_pop in Hv. destruct Hv as [Hsg [[_ ?]|Hv]]; [done|].
  split_and!; [done|by exists raw|done|done].
Qed.

Lemma signed_spec_shape hour bt prev events leaves root levels kid raw :
  json_shape (JObj (signed_spec hour bt prev events leaves root levels
                      (signature_block_of kid raw))).
Proof.
  pose proof (manifest_spec_shape hour bt prev events leaves root levels) as [_ Hs].
  split; [apply (bool_decide_unpack _); by vm_compute|]. apply foldr_and_Forall.
  apply foldr_and_Forall in Hs. apply Forall_app. split; [done|].
  constructor; [|done]. split; [|done]. apply (bool_decide_unpack _). by vm_compute.
Qed.

Lemma empty_signed hour bt prev seed kid s :
  sign_manifest (_build_empty_manifest hour bt prev) seed kid = Ok s →
  let m := _build_empty_manifest hour bt prev ++ [(SIGNATURE_FIELD, signature s)] in
  dict_set (manifest s) SIGNATURE_FIELD (signature s) = m ∧ json_shape (JObj m).
Proof.
  intros Hs m.
  assert (SIGNATURE_FIELD ∉ (_build_empty_manifest hour bt prev).*1) as Hno
    by (apply (bool_decide_unpack _); by vm_compute).
  destruct (signed_in_place _ _ _ _ Hno Hs) as [Hm [raw Er]]. split; [done|].
  unfold m. rewrite Er. split; [apply (bool_decide_unpack _); by vm_compute|].
  apply foldr_and_Forall. repeat (constructor; [done|]). constructor; [by destruct prev|].
  constructor; [|done]. split; [|done]. apply (bool_decide_unpack _). by vm_compute.
Qed.

(** A written manifest is read as it was. *)
Lemma load_written fs path m :
  json_shape (JObj m) → encodable (manifest_text m) = true →
  load_manifest (<[path := manifest_text m]> fs) path = inr (JObj m).
Proof.
  intros Hs He. unfold load_manifest, manifest_text in *. rewrite lookup_insert_eq.
  rewrite encodable_app, andb_true_iff in He. destruct He as [He _].
  pose proof (encodable_pretty _ _ Hs He) as Hwf.
  rewrite universal_newlines_id by (apply no_cr_app; [by apply no_cr_pretty|by apply no_cr_lit]).
  by rewrite json_loads_pretty.
Qed.

Lemma zip_forall2 {A} (P : A → bytes → Prop) (f : b1_event * bytes → A) es ls :
  length es = length ls → Forall is_hash ls →
  (∀ e l, is_hash l → P (f (e, l)) l) → Forall2 P (f <$> zip es ls) ls.
Proof.
  intros Hlen Hls HP. revert es Hlen. induction Hls as [|l ls Hl _ IH]; intros [|e es] Hlen;
    csimpl in *; try done; constructor; auto.
Qed.

Lemma levels_text levels :
  levels_json levels =
  JList ((λ level, JList ((λ n, JStr (hex n)) <$> level)) <$> levels).
Proof.
  unfold levels_json. f_equal. apply list_fmap_ext. intros _ level _. f_equal.
  by rewrite <- list_fmap_compose.
Qed.

(** The entries of such a manifest are its events and its leaves. *)
Lemma spec_tree hour bt prev events leaves root levels block :
  event_leaves events leaves → build_merkle_tree leaves = Ok (root, levels) →
  let m := signed_spec hour bt prev events leaves root levels block in
  ∃ entries, real_tree m entries entries leaves root levels.
Proof.
  intros Hel Hb m. pose proof (event_leaves_hashes _ _ Hel) as Hh.
  pose proof (Forall2_length _ _ _ Hel) as Hlen.
  eexists. split_and!; [reflexivity|reflexivity|..|done|reflexivity|by rewrite levels_text].
  - exists (JInt (Z.of_nat (length events))). split; [reflexivity|].
    rewrite length_fmap, length_zip, Hlen, Nat.min_id. apply Z.eqb_refl.
  - apply zip_forall2; [done..|]. intros e l Hl. eexists. split; [reflexivity|]. left.
    assert (truthy (JStr (hex l)) = true) as Ht
      by (destruct l; [by unfold is_hash in Hl|done]).
    match goal with |- claimed_leaf ?d ≠ _ ∧ _ =>
      assert (KidResolver.member d (u "leaf_hash") = JStr (hex l)) as Hd by reflexivity;
      unfold claimed_leaf; by rewrite Hd, Ht
    end.
  - apply zip_forall2; [done..|]. intros e l Hl. split; [done|]. right. eexists.
    split; reflexivity.
Qed.

Lemma spec_fields hour bt prev events leaves root levels block :
  hour ≠ [] → length root = 32%nat →
  real_fields (signed_spec hour bt prev events leaves root levels block).
Proof.
  intros Hh Hr. split_and!.
  - unfold _REAL_MANDATORY_FIELDS. repeat constructor; by eexists.
  - eexists. split; [reflexivity|]. by left.
  - eauto.
  - eexists _, _. split_and!; [reflexivity..|lia].
  - by eexists.
  - by eexists.
  - by eexists.
  - by exists hour.
  - intros ah Ha. by vm_compute in Ha.
Qed.

(** The field checks of the verifier on what a build writes: the root of an empty
    hour is null, and the label may be empty. *)
Lemma empty_hour_field hour bt prev block :
  _validate_real_manifest_fields (_build_empty_manifest hour bt prev ++ [(SIGNATURE_FIELD, block)]) =
  Ok (Some FieldMerkleRoot).
Proof. by vm_compute. Qed.

Lemma empty_label_field bt prev events leaves root levels block :
  length root = 32%nat →
  _validate_real_manifest_fields (signed_spec [] bt prev events leaves root levels block) =
  Ok (Some FieldHourSlot).
Proof.
  intros Hr. transitivity (fail_if (negb (_is_lower_hex_64 (hex root))) FieldMerkleRoot
    (fail_if (Z.of_nat (length events) <? 0) FieldEventCount (Ok (Some FieldHourSlot)))); [reflexivity|].
  rewrite (proj2 (lower_hex_64 (hex root))) by eauto.
  replace (Z.of_nat (length events) <? 0) with false by (symmetry; apply Z.ltb_ge; lia). done.
Qed.

Definition refused (path : str) (f : fault) : RealManifestResult :=
  MkReal path (JStr MANIFEST_VERSION) false false CapNone no_ots_check SigNone (Some (Fault f)).

Lemma real_fields_refused repo_root environ fs raws path o m f :
  load_manifest fs path = inr (JObj m) → real_schema repo_root fs o m →
  _validate_real_manifest_fields m = Ok (Some f) → dict_get m (u "version") = Some (JStr MANIFEST_VERSION) →
  verify_real_manifest_file repo_root environ fs raws path o = Ok (refused path f).
Proof.
  intros Hl Hs Hf Hv. unfold verify_real_manifest_file. rewrite Hl. cbv zeta. rewrite Hf.
  unfold version_of. rewrite Hv. apply stop_on_ok. right. split; [|done].
  unfold real_schema in Hs. by destruct (use_schema_file o); [apply Hs|].
Qed.

(** C9: What the verifier says of the file a signed build writes, when its schema is
    off or accepts the file.  A non-empty hour with a label passes in either mode
    under the public key of the key file: fields, tree, leaves and signature are
    fine; with the anchor check on, it passes when the files next to it anchor
    its root.  An empty hour, whose root is null, and an empty label are refused,
    whatever the options. *)
Theorem signed_build_passes repo_root environ fs fs' raws bt hour input output prev key kid m raw :
  build_command fs bt hour input output prev (Some key) (Some kid) = (fs', Ok m) →
  _read_events fs input = Ok raw →
  ∃ seed, _load_sign_key fs key = Ok seed ∧
    ∀ o, real_schema repo_root fs' o m →
      let r := verify_real_manifest_file repo_root environ fs' raws output o in
      (raw = [] → r = Ok (refused output FieldMerkleRoot)) ∧
      (raw ≠ [] → hour = [] → r = Ok (refused output FieldHourSlot)) ∧
      (raw ≠ [] → hour ≠ [] → ∀ ots, real_verify_signature o = true →
         real_public_key o = Some (ed_public seed) → real_anchor environ raws output o m ots →
         let report := MkReal output (JStr MANIFEST_VERSION) true true CapNone ots SigVerified None in
         r = Ok report ∧ real_ok report = true).
Proof.
  intros (-> & Henc & seed & raw' & m0 & s & Hkey & Hread & Hm0 & Hs & ->)%build_signed_inv Hraw.
  rewrite Hraw in Hread. injection Hread as <-. exists seed. split; [done|]. intros o Hsch. cbv zeta.
  destruct raw as [|ev raw].
  { apply Ok_inj in Hm0 as <-. apply empty_signed in Hs as [Em Hshape]. rewrite Em in *.
    split_and!; [|done..]. intros _. eapply real_fields_refused;
      [by apply load_written|exact Hsch|apply empty_hour_field|reflexivity]. }
  apply manifest_ok in Hm0 as (_ & evs & es & ls & root & lv & _ & _ & _ & Hel & Hb & ->).
  apply sign_spec in Hs as (Em & [sig Esig] & Hsig & Hvalid). rewrite Em in *.
  assert (length root = 32%nat) as Hroot.
  { apply build_ok_inv in Hb as (_ & Hh & Ht). by eapply tower_root_hash. }
  assert (load_manifest (<[output := manifest_text (signed_spec hour bt prev es ls root lv (signature s))]> fs)
            output = inr (JObj (signed_spec hour bt prev es ls root lv (signature s)))) as Hload.
  { apply load_written; [|done]. rewrite Esig. apply signed_spec_shape. }
  split_and!; [done| |].
  - intros _ ->. eapply real_fields_refused; [exact Hload|exact Hsch|by apply empty_label_field|reflexivity].
  - intros _ Hhour ots Hv Hkeyo Hots. apply real_accepts_ok.
    eexists _, CapNone, ots, SigVerified. split_and!; [exact Hload|exact Hsch|..|exact Hots| |done].
    + by apply spec_fields.
    + destruct (spec_tree hour bt prev es ls root lv (signature s) Hel Hb) as [entries Ht]. eauto 6.
    + right. split; [|done]. by intros [[? [=]]|[? [=]]].
    + rewrite Hv. right. exists (signature s), (ed_public seed). split_and!; try done.
      by right.
Qed.
End flow.

(** ** What an accepted root binds *)

Section binding.
Context `{Sha256, Rfc8785, !Rfc8785Conforms, Ed25519, JsonSchema}.









End binding.

(** ** Capability references *)

Section caps.
Context `{Sha256, Rfc8785}.

(** [sha256:] and the digits of a leaf. *)
Definition cap_ref (ref : json) (leaf : bytes) : Prop :=
  ∃ s, ref = JStr (u "sha256:" ++ s) ∧ bytes_fromhex s = Some leaf ∧ length leaf = 32%nat.

(** The entry's root is the root of its references, in their order. *)
Definition caps_entry (entry : json) : Prop :=
  ∃ refs items leaves root, getitem entry (u "caprefs_full") = Ok refs ∧
    py_iter refs = Ok items ∧ Forall2 cap_ref items leaves ∧ (2 ≤ length leaves)%nat ∧
    root_hash leaves = Ok root ∧
    getitem entry (u "caprefs_root") = Ok (JStr (hex root)).

Definition known_event (m : dict) (k : json) : Prop :=
  ∃ events evs ev i, dict_get m (u "events") = Some events ∧ py_iter events = Ok evs ∧
    ev ∈ evs ∧ event_id_of ev = Ok (Some i) ∧ item_eq k i = true.

Lemma caprefs_leaves_ok refs leaves :
  caprefs_leaves refs = Ok leaves → Forall2 cap_ref refs leaves.
Proof.
  revert leaves. induction refs as [|ref refs IH]; intros leaves Hl; cbn [caprefs_leaves] in Hl.
  { apply Ok_inj in Hl as <-. constructor. }
  apply bind_ok_iff in Hl as (s & Hs%map_err_ok & Hl). destruct ref; try done.
  apply Ok_inj in Hs as ->. apply bind_ok_iff in Hl as ([] & Hp%raise_if_ok & Hl).
  apply negb_false_iff, startswith_spec in Hp as [t ->].
  change (drop 7 (u "sha256:" ++ t)) with t in Hl.
  destruct (_hex_to_bytes t) as [raw| |] eqn:Eh; try done.
  apply hex_to_bytes_ok in Eh. apply bind_ok_iff in Hl as (bs & Hbs & <-%Ok_inj).
  constructor; [by exists t|by apply IH].
Qed.

Lemma caps_root_ok refs root :
  _caprefs_canonical_root_ordered refs = Ok root →
  ∃ items leaves, py_iter refs = Ok items ∧ Forall2 cap_ref items leaves ∧
    (2 ≤ length leaves)%nat ∧ root_hash leaves = Ok root.
Proof.
  unfold _caprefs_canonical_root_ordered. intros Hr.
  apply bind_ok_iff in Hr as (items & Hi%map_err_ok & Hr).
  apply bind_ok_iff in Hr as (leaves & Hl%caprefs_leaves_ok & Hr).
  apply bind_ok_iff in Hr as ([] & Hn%raise_if_ok & Hr). apply Nat.ltb_ge in Hn.
  apply bind_ok_iff in Hr as ([r levels] & Hb%map_err_ok & <-%Ok_inj).
  exists items, leaves. split_and!; try done. unfold root_hash. by rewrite Hb.
Qed.

Lemma cap_roots_ok entries status :
  check_cap_roots entries = Ok (None, status) →
  status = CapVerified ∧ Forall (λ kv, caps_entry kv.2) entries.
Proof.
  induction entries as [|[k entry] entries IH]; cbn [check_cap_roots].
  { intros [= <-]%Ok_inj. by split. }
  intros Hc. apply bind_ok_iff in Hc as (refs & Hrefs & Hc).
  destruct (_caprefs_canonical_root_ordered refs) as [root|[]] eqn:Er; try done.
  apply bind_ok_iff in Hc as (claimed & Hcl & Hc).
  destruct (py_eq (JStr (hex root)) claimed) eqn:Eq; cbn [negb] in Hc; [|done].
  apply py_eq_str in Eq as ->. destruct (IH Hc) as [-> Hall]. split; [done|].
  constructor; [|done]. apply caps_root_ok in Er as (items & leaves & ? & ? & ? & ?).
  by exists refs, items, leaves, root.
Qed.

Lemma unknown_key_none ids keys :
  unknown_key ids keys = Ok None → Forall (λ k, existsb (item_eq k) ids = true) keys.
Proof.
  induction keys as [|k keys IH]; cbn [unknown_key]; [constructor|]. intros Hu.
  apply bind_ok_iff in Hu as ([] & _ & Hu). apply fail_if_none in Hu as [Hq Hu].
  apply negb_false_iff in Hq. constructor; auto.
Qed.

Lemma known_ids m events evs ids k :
  dict_get m (u "events") = Some events → py_iter events = Ok evs →
  mapM event_id_of evs = Ok ids → existsb (item_eq k) (omap id ids) = true →
  known_event m k.
Proof.
  intros He Hevs Hids%mapM_ok Hk. apply existsb_exists in Hk as (i & Hi & Hk).
  apply list_elem_of_In, list_elem_of_omap in Hi as (x & Hx & Ex). cbn in Ex. subst x.
  apply list_elem_of_lookup in Hx as [n Hn].
  destruct (Forall2_lookup_r _ _ _ _ _ Hids Hn) as (ev & Hev & Eid).
  exists events, evs, ev, i. split_and!; try done. by apply list_elem_of_lookup_2 in Hev.
Qed.

(** When the strict capability check passes, its status is [verified]: every
    entry of [multi_cap_events] is filed under the identifier of an event of
    the manifest, its root is the Merkle root of its two or more references in
    their order, and the summary's number of entries is right. *)
Theorem multi_cap_verified m status :
  _check_multi_cap_consistency (JObj m) true = Ok (None, status) →
  status = CapVerified ∧
  ∃ entries, default (JObj []) (dict_get m (u "multi_cap_events")) = JObj entries ∧
    Forall (λ kv, known_event m (JStr kv.1) ∧ caps_entry kv.2) entries ∧
    ∃ count, get (default (JObj []) (dict_get m (u "multi_cap_summary")))
               (u "events_with_multi_cap") = Ok count ∧
      py_eq count (JInt (Z.of_nat (length entries))) = true.
Proof.
  unfold _check_multi_cap_consistency. intros Hc.
  apply bind_ok_iff in Hc as (mce & <-%Ok_inj & Hc).
  apply bind_ok_iff in Hc as (summary & <-%Ok_inj & Hc).
  apply bind_ok_iff in Hc as (events & He%getitem_obj & Hc).
  apply bind_ok_iff in Hc as (evs & Hevs & Hc).
  apply bind_ok_iff in Hc as (ids & Hids & Hc).
  apply bind_ok_iff in Hc as (keys & Hkeys & Hc).
  apply bind_ok_iff in Hc as (un & Hun & Hc). destruct un as [f|]; [done|].
  apply bind_ok_iff in Hc as (count & Hcount & Hc).
  apply bind_ok_iff in Hc as (n & Hn & Hc).
  destruct (py_eq count _) eqn:Ecount; cbn [negb] in Hc; [|done].
  apply bind_ok_iff in Hc as (mx & _ & Hc).
  apply bind_ok_iff in Hc as (declared & _ & Hc).
  destruct (py_eq declared _); cbn [negb] in Hc; [|done].
  apply bind_ok_iff in Hc as (entries & Hent & Hc).
  destruct (default _ (dict_get m (u "multi_cap_events"))) as [| | | | | |d]; try done.
  apply Ok_inj in Hent as ->, Hn as <-, Hkeys as <-.
  apply cap_roots_ok in Hc as [-> Hroots]. split; [done|]. exists entries.
  split_and!; [done| |by exists count].
  apply unknown_key_none, Forall_fmap in Hun.
  apply (Forall_mp _ _ _ _ Hun Hroots). intros [k entry] Hk Hr. split; [|done].
  by eapply known_ids.
Qed.
End caps.

(** ** More than promised *)

Section gaps.
Context `{Sha256, Rfc8785, Ed25519}.

(** In permissive mode a [signature] slot that holds [null] is reported as
    a verified signature, whatever the key and the rest of the manifest. *)
Theorem null_slot_verified m key :
  signable m → dict_get m SIGNATURE_FIELD = Some JNull →
  _verify_signature_slot (JObj m) (Some key) PERMISSIVE = Ok (SigVerified, None).
Proof.
  intros Hs Hn.
  destruct (proj1 (slot_spec m (Some key) PERMISSIVE SigVerified)) as [[msg Hv] _].
  { right. exists JNull, key. split_and!; try done. by left. }
  by rewrite Hv, (slot_message _ _ _ _ _ Hv eq_refl).
Qed.

Definition same_claim (a b : json) : Prop :=
  ∃ d e, a = JObj d ∧ b = JObj e ∧ claimed_leaf d = claimed_leaf e ∧ claimed_leaf e ≠ JNull.

Lemma same_claim_loop evs evs' leaves idx :
  Forall2 same_claim evs evs' →
  real_leaves_loop leaves idx evs = real_leaves_loop leaves idx evs'.
Proof.
  intros Hs. revert idx. induction Hs as [|a b evs evs' (d & e & -> & -> & Hq & Hn) _ IH];
    intros idx; [done|]. cbn [real_leaves_loop].
  rewrite (proj2 (leaf_in_event_ok (JObj d) (claimed_leaf e))) by eauto.
  rewrite (proj2 (leaf_in_event_ok (JObj e) (claimed_leaf e))) by eauto.
  rewrite !bind_Ok. destruct (claimed_leaf e); try done; by rewrite IH.
Qed.

(** The real mode does not look at the contents of an event that claims a
    leaf: rewriting the events so that each keeps its claim does not change the
    outcome of the event check, nor of the root check. *)
Theorem real_ignores_contents m evs evs' leaves :
  dict_get m (u "events") = Some (JList evs) → Forall2 same_claim evs evs' →
  let m' := dict_set m (u "events") (JList evs') in
  _check_real_event_leaves (JObj m') leaves = _check_real_event_leaves (JObj m) leaves ∧
  _check_real_merkle_root (JObj m') leaves = _check_real_merkle_root (JObj m) leaves.
Proof.
  intros He Hs m'.
  assert (∀ k, k ≠ u "events" → getitem (JObj m') k = getitem (JObj m) k) as Hk.
  { intros k Hne. cbn [getitem]. unfold m'. by rewrite dict_get_set, decide_False. }
  assert (getitem (JObj m') (u "events") = Ok (JList evs')) as He'.
  { apply getitem_obj. unfold m'. by rewrite dict_get_set, decide_True. }
  split.
  - unfold _check_real_event_leaves.
    rewrite (Hk (u "event_count")) by (apply (bool_decide_unpack _); by vm_compute).
    destruct (getitem (JObj m) (u "event_count")); [|done].
    rewrite !bind_Ok, He', (proj2 (getitem_obj _ _ _) He), !bind_Ok. cbn [py_len py_iter].
    by rewrite !bind_Ok, (Forall2_length _ _ _ Hs), (same_claim_loop _ _ _ _ Hs).
  - unfold _check_real_merkle_root. by rewrite !Hk by (apply (bool_decide_unpack _); by vm_compute).
Qed.
End gaps.

(** ** Concrete manifests *)

Module FlowExample.
#[local] Existing Instance checksum_sha256.
#[local] Existing Instance std_rfc8785.
#[local] Existing Instance std_rfc8785_conforms.
#[local] Existing Instance plain_ed25519.
#[local] Existing Instance plain_ed25519_laws.
#[local] Existing Instance no_pem.

(** A schema that accepts everything, and a verifier of receipts that is not
    installed. *)
#[local] Instance open_schema : JsonSchema :=
  {| check_schema _ := true; iter_errors := Some (λ _ _, []) |}.
#[local] Instance no_ots : OtsVerifier := {| verify_receipt _ _ := Err (u "no client") |}.

Definition real_opts (anchor : bool) : real_options :=
  MkRealOptions anchor true false None true true (Some (replicate 32 Byte.x2a)) STRICT.

Definition root12 : bytes :=
  match dict_get Example.signed12 (u "merkle_root") with
  | Some (JStr s) => default [] (bytes_fromhex s)
  | _ => []
  end.

Definition raws : raw_files :=
  {[ u "root.bin" := Some root12;
     u "root.bin.ots" := Some (_OTS_MAGIC_HEADER ++ [Byte.x01]) ]}.

Definition skipped : OtsAnchorCheck :=
  MkOts true true true true true true false (Some (u "no client")) None.

Definition fs0 : files := <[u "empty.jsonl" := [10]]> Example.fs.
Definition empty_run : files * result manifest_error dict :=
  build_command fs0 (Example.build_time) (Example.hour) (u "empty.jsonl") (u "out.json") None
    (Some (u "key.hex")) (Some (u "wat-1")).

(** The manifest of an empty hour is signed, and its signature verifies; the
    verifier of production manifests refuses the file (T-WAT-SIG-AGG-02 expects
    that such manifests are accepted). *)
Example signed_empty_hour :
  let m := ok_or [] (snd empty_run) in
  verify_manifest_signature (Plain m) (Some (ed_public (replicate 32 Byte.x2a))) STRICT JNull = Ok true ∧
  verify_real_manifest_file (u "repo") ∅ (fst empty_run) ∅ (u "out.json") (real_opts false) =
    Ok (refused (u "out.json") FieldMerkleRoot).
Proof. split; by vm_compute. Qed.

Lemma signed_build_passes_witness :
  verify_real_manifest_file (u "repo") ∅ (fst Example.run) raws (u "out.json") (real_opts true) =
    Ok (MkReal (u "out.json") (JStr MANIFEST_VERSION) true true CapNone skipped SigVerified None) ∧
  verify_real_manifest_file (u "repo") ∅ (fst empty_run) ∅ (u "out.json") (real_opts false) =
    Ok (refused (u "out.json") FieldMerkleRoot).
Proof.
  split.
  - destruct (signed_build_passes (u "repo") ∅ Example.fs (fst Example.run) raws Example.build_time
      Example.hour (u "spool.jsonl") (u "out.json") None (u "key.hex") (u "wat-1")
      Example.signed12 [Example.ev2; Example.ev1]) as (seed & Hseed & Hpass).
    + vm_compute. reflexivity.
    + vm_compute. reflexivity.
    + assert (seed = replicate 32 Byte.x2a) as ->.
      { apply (Ok_inj (E:=manifest_error)). rewrite <- Hseed. vm_compute. reflexivity. }
      apply (Hpass (real_opts true)) with (ots := skipped); [discriminate..|reflexivity|reflexivity|].
      exists root12. split; [vm_compute; reflexivity|]. split; [vm_compute; reflexivity|].
      split; [vm_compute; reflexivity|]. split; [vm_compute; reflexivity|].
      eexists. split; [vm_compute; reflexivity|]. split; [vm_compute; reflexivity|].
      intros _. discriminate.
  - destruct (signed_build_passes (u "repo") ∅ fs0 (fst empty_run) ∅ Example.build_time
      Example.hour (u "empty.jsonl") (u "out.json") None (u "key.hex") (u "wat-1")
      (ok_or [] (snd empty_run)) []) as (seed & _ & Hpass).
    + vm_compute. reflexivity.
    + vm_compute. reflexivity.
    + by apply Hpass.
Defined.

(** An envelope of version 2 with two events, one of which has two
    capability references. *)
Definition b1 (i : Z) : b1_event :=
  B1 (u "evt-" ++ int_repr i) (u "2026-05-06T17:00:00Z") (Example.hash_text 97)
    (Example.hash_text 48).
Definition leaf12 : list bytes := (λ e, ok_or [] (event_leaf e)) <$> [b1 1; b1 2].
Definition tree12 : bytes * list (list bytes) := ok_or ([], []) (build_merkle_tree leaf12).
Definition caps12 : list bytes := [replicate 32 Byte.x01; replicate 32 Byte.x02].
Definition entry1 : json :=
  JObj [(u "caprefs_full", JList ((λ c, JStr (u "sha256:" ++ hex c)) <$> caps12));
        (u "caprefs_root", JStr (hex (ok_or [] (root_hash caps12))))].
Definition v2_manifest : dict :=
  [(u "version", JStr _VERSION_V2); (u "event_count", JInt 2);
   (u "events", JList (b1_json <$> [b1 1; b1 2]));
   (u "leaves", JList (JStr <$> (hex <$> leaf12)));
   (u "merkle_root", JStr (hex (fst tree12))); (u "tree_levels", levels_json (snd tree12));
   (u "multi_cap_events", JObj [(u "evt-1", entry1)]);
   (u "multi_cap_summary", JObj [(u "events_with_multi_cap", JInt 1);
                                 (u "max_caprefs_in_any_event", JInt 2)])].




Lemma multi_cap_verified_witness :
  CapVerified = CapVerified ∧
  ∃ entries, default (JObj []) (dict_get v2_manifest (u "multi_cap_events")) = JObj entries ∧
    Forall (λ kv, known_event v2_manifest (JStr kv.1) ∧ caps_entry kv.2) entries ∧
    ∃ count, get (default (JObj []) (dict_get v2_manifest (u "multi_cap_summary")))
               (u "events_with_multi_cap") = Ok count ∧
      py_eq count (JInt (Z.of_nat (length entries))) = true.
Proof. apply (multi_cap_verified v2_manifest CapVerified). vm_compute. reflexivity. Defined.

(** An unsigned manifest with a [null] in the slot. *)
Definition null_signed : dict := dict_set Example.signed12 SIGNATURE_FIELD JNull.

Lemma null_slot_verified_witness :
  _verify_signature_slot (JObj null_signed) (Some []) PERMISSIVE = Ok (SigVerified, None).
Proof.
  apply (null_slot_verified null_signed []).
  - exists MANIFEST_VERSION. split; [reflexivity|]. apply (bool_decide_unpack _). by vm_compute.
  - vm_compute. reflexivity.
Defined.

(** The manifest of the build with the events' texts emptied. *)
Definition events12 : list json :=
  match dict_get Example.signed12 (u "events") with Some (JList l) => l | _ => [] end.
Definition forge (ev : json) : json :=
  match ev with
  | JObj d => JObj (dict_set (dict_set d (u "event_id") (JStr [])) (u "payload_hash") (JStr []))
  | _ => ev
  end.

Definition leaves12 : list str :=
  match _normalise_real_leaves (JObj Example.signed12) with Ok (inr ss) => ss | _ => [] end.

Lemma real_ignores_contents_witness :
  let m := dict_set Example.signed12 (u "events") (JList (forge <$> events12)) in
  let ss := leaves12 in
  _check_real_event_leaves (JObj m) ss = _check_real_event_leaves (JObj Example.signed12) ss ∧
  _check_real_merkle_root (JObj m) ss = _check_real_merkle_root (JObj Example.signed12) ss.
Proof.
  apply (real_ignores_contents Example.signed12 events12 (forge <$> events12) leaves12).
  - vm_compute. reflexivity.
  - assert (events12 = [nth 0 events12 JNull; nth 1 events12 JNull]) as -> by
      (vm_compute; reflexivity).
    constructor; [|constructor; [|constructor]];
      (eexists _, _; split; [vm_compute; reflexivity|]; split; [vm_compute; reflexivity|]);
      (split; [vm_compute; reflexivity|vm_compute; discriminate]).
Defined.

(** The forged manifest passes the integrity checks of the real mode. *)
Example forged_passes :
  let m := dict_set Example.signed12 (u "events") (JList (forge <$> events12)) in
  _check_real_event_leaves (JObj m) leaves12 = Ok None ∧
  _check_real_merkle_root (JObj m) leaves12 = Ok None ∧
  _check_real_event_leaves (JObj Example.signed12) leaves12 = Ok None.
Proof. by vm_compute. Qed.
End FlowExample.
