(* ===== verification/PyFnmatch.v ===== *)
(** * The standard library's [fnmatch.fnmatchcase]

    A shell pattern is translated to tokens, with the library's treatment of
    bracket sets (leading [!], a leading [\]], hyphens, empty ranges), and the
    tokens are matched against the whole name.  The matcher is shown equal to
    the declarative reading of a pattern, and translation never runs out of
    fuel. *)

From S2P Require Import Prelude PyStr.
From Stdlib Require Import ZArith Lia.

Open Scope Z_scope.

Inductive token : Type :=
| Star
| AnyChar
| Never                                   (* an empty set: [(?!)] *)
| Lit (c : Z)
| Set_ (negated : bool) (singles : str) (ranges : list (Z * Z)).

#[export] Instance token_eq_dec : EqDecision token.
Proof. solve_decision. Defined.

(** ** Bracket sets *)

(** One optional character at the front. *)
Definition eat (x : Z) (s : str) : str * str :=
  match s with
  | c :: s' => if c =? x then ([c], s') else ([], s)
  | [] => ([], [])
  end.

(** The pieces between the hyphens that make ranges; a hyphen can make one only
    after [skip] characters. *)
Fixpoint chunks_from (skip : nat) (acc s : str) : list str :=
  match s with
  | [] => [acc]
  | c :: s' =>
      match skip with
      | S skip' => chunks_from skip' (acc ++ [c]) s'
      | O => if c =? 45 then acc :: chunks_from 2 [] s'
             else chunks_from 0 (acc ++ [c]) s'
      end
  end.

(** A set that ends in a hyphen has it as a character. *)
Fixpoint close_chunks (cs : list str) : list str :=
  match cs with
  | [c; []] => [c ++ [45]]
  | c :: cs' => c :: close_chunks cs'
  | [] => []
  end.

Definition chunks (seq : str) : list str :=
  if bool_decide (45 ∈ seq)
  then close_chunks (chunks_from (1 + length (eat 33 seq).1) [] seq)
  else [seq].

(** A range whose ends are in the wrong order disappears with its ends. *)
Definition merge_empty (c : str) (rest : list str) : list str :=
  match rest with
  | d :: ds =>
      match last c, head d with
      | Some x, Some y => if y <? x then (take (length c - 1) c ++ tail d) :: ds
                          else c :: rest
      | _, _ => c :: rest
      end
  | [] => [c]
  end.
Definition drop_empty_ranges (cs : list str) : list str := foldr merge_empty [] cs.

Fixpoint ranges_of (cs : list str) : list (Z * Z) :=
  match cs with
  | c :: ((d :: _) as cs') =>
      match last c, head d with
      | Some x, Some y => (x, y) :: ranges_of cs'
      | _, _ => ranges_of cs'
      end
  | _ => []
  end.

Definition set_token (seq : str) : token :=
  let cs := drop_empty_ranges (chunks seq) in
  match eat 33 (concat cs) with
  | ([], []) => Never
  | (_ :: _, []) => AnyChar
  | (negation, singles) => Set_ (negb (str_empty negation)) singles (ranges_of cs)
  end.

(** The set after an opening bracket and what follows its closing one. *)
Definition bracket (s : str) : option (str * str) :=
  let '(neg, s1) := eat 33 s in
  let '(first, s2) := eat 93 s1 in
  let '(body, s3) := span (λ c, negb (c =? 93)) s2 in
  match s3 with
  | _ :: s4 => Some (neg ++ first ++ body, s4)
  | [] => None
  end.

(** ** Patterns *)

Fixpoint translate_fuel (fuel : nat) (pat : str) : list token :=
  match fuel, pat with
  | S fuel, c :: pat' =>
      if c =? 42 then Star :: translate_fuel fuel pat'
      else if c =? 63 then AnyChar :: translate_fuel fuel pat'
      else if c =? 91 then
        match bracket pat' with
        | Some (seq, pat'') => set_token seq :: translate_fuel fuel pat''
        | None => Lit 91 :: translate_fuel fuel pat'
        end
      else Lit c :: translate_fuel fuel pat'
  | _, _ => []
  end.
Definition translate (pat : str) : list token := translate_fuel (length pat) pat.

Definition char_ok (t : token) (c : Z) : bool :=
  match t with
  | Star | Never => false
  | AnyChar => true
  | Lit x => c =? x
  | Set_ negated singles ranges =>
      xorb negated (bool_decide (c ∈ singles) ||
                    existsb (λ r, in_range r.1 r.2 c) ranges)
  end.

Fixpoint tok_match (ts : list token) : str → bool :=
  match ts with
  | [] => λ s, match s with [] => true | _ => false end
  | Star :: ts' =>
      fix star s := tok_match ts' s || match s with [] => false | _ :: s' => star s' end
  | t :: ts' => λ s, match s with [] => false | c :: s' => char_ok t c && tok_match ts' s' end
  end.

Definition fnmatchcase (name pat : str) : bool := tok_match (translate pat) name.

(** ** The declarative reading *)

Inductive matches : list token → str → Prop :=
| matches_nil : matches [] []
| matches_star ts s1 s2 : matches ts s2 → matches (Star :: ts) (s1 ++ s2)
| matches_char t ts c s : char_ok t c = true → matches ts s → matches (t :: ts) (c :: s).

Lemma star_match ts s :
  tok_match (Star :: ts) s = true ↔ ∃ s1 s2, s = s1 ++ s2 ∧ tok_match ts s2 = true.
Proof.
  induction s as [|c s IH]; cbn [tok_match] in *; rewrite orb_true_iff.
  - split; [intros [E|[=]]; by exists [], []|].
    intros (s1 & s2 & E & Hs). symmetry in E. apply app_nil in E as [-> ->]. by left.
  - rewrite IH. split.
    + intros [E|(s1 & s2 & -> & E)]; [by exists [], (c :: s)|by exists (c :: s1), s2].
    + intros ([|x s1] & s2 & E & Hs); cbn in E; [subst; by left|].
      injection E as -> ->. right. by exists s1, s2.
Qed.

Lemma tok_match_spec ts s : tok_match ts s = true ↔ matches ts s.
Proof.
  revert s. induction ts as [|t ts IH]; intros s.
  - split; [destruct s; [constructor|done]|by inversion 1].
  - destruct (decide (t = Star)) as [->|Ht].
    + rewrite star_match. split.
      * intros (s1 & s2 & -> & E). constructor. by apply IH.
      * inversion 1; subst; [|done]. eexists _, _. split; [done|]. by apply IH.
    + assert (∀ s, tok_match (t :: ts) s =
        match s with [] => false | c :: s' => char_ok t c && tok_match ts s' end) as ->
        by (by destruct t).
      split.
      * destruct s as [|c s]; [done|]. intros [Hc Hs]%andb_true_iff.
        constructor; [done|]. by apply IH.
      * inversion 1; subst; [done|]. apply andb_true_iff. split; [done|]. by apply IH.
Qed.

(** Translation consumes the pattern: more fuel changes nothing. *)
Lemma span_length p s : (length (span p s).2 ≤ length s)%nat.
Proof.
  induction s as [|c s IH]; simpl; [done|]. destruct (p c); [|done].
  destruct (span p s); simpl in *; lia.
Qed.

Lemma eat_char_length x s : (length (eat x s).2 ≤ length s)%nat.
Proof. destruct s as [|c s]; simpl; [done|]. destruct (c =? x); simpl; lia. Qed.

Lemma bracket_length s seq s' : bracket s = Some (seq, s') → (length s' < length s)%nat.
Proof.
  unfold bracket. pose proof (eat_char_length 33 s). destruct (eat 33 s) as [neg s1].
  pose proof (eat_char_length 93 s1). destruct (eat 93 s1) as [first s2].
  pose proof (span_length (λ c, negb (c =? 93)) s2). destruct (span _ s2) as [body [|x s3]];
    simpl in *; [done|]. intros [= _ ->]. lia.
Qed.

Lemma translate_enough fuel pat :
  (length pat ≤ fuel)%nat → translate_fuel fuel pat = translate pat.
Proof.
  unfold translate. remember (length pat) as n eqn:En.
  revert fuel pat En. induction (lt_wf n) as [n _ IH]. intros fuel pat En Hle.
  assert (∀ f1 f2 p, (length p < n)%nat → (length p ≤ f1)%nat → (length p ≤ f2)%nat →
    translate_fuel f1 p = translate_fuel f2 p) as Hany.
  { intros f1 f2 p Hp ??. by rewrite (IH _ Hp f1 p), (IH _ Hp f2 p). }
  destruct pat as [|c pat]; subst n; [by destruct fuel|].
  destruct fuel as [|fuel]; [simpl in *; lia|]. cbn [translate_fuel length].
  cbn [length] in *. repeat case_match; f_equal; apply Hany; try lia.
  all: match goal with H : bracket _ = Some _ |- _ => apply bracket_length in H end; lia.
Qed.

(** The example patterns of the library's documentation. *)
Example fnmatch_seq : fnmatchcase (u "wakir-7") (u "w[!xyz]k?r-[0-9]*") = true.
Proof. vm_compute. reflexivity. Qed.
Example fnmatch_bracket : fnmatchcase (u "]-") (u "[]-a][a-]") = true.
Proof. vm_compute. reflexivity. Qed.
Example fnmatch_empty_range : fnmatchcase (u "b") (u "[b-a]") = false.
Proof. vm_compute. reflexivity. Qed.
