(* ===== verification/Policy.v ===== *)
(** * Capability policies ([wirelang/schemas/registered_by_capability.py])

    A policy grants an issuer some key ids and (layer, name pattern) pairs for
    a validity window, unless it is disabled or revoked.  The gate decides a
    signed registry entry against the issuer's policies.

    The theorems: the decision on every registry, the conditions behind every
    grant, and that adding a policy never withdraws a grant. *)

From S2P Require Import Prelude PyStr PyJson PyTime PyFnmatch.
From Stdlib Require Import ZArith Lia.

Open Scope Z_scope.

Inductive policy_error : Type :=
| RegisteredByCapabilityError
| PolicyDatetimeTypeError.   (* comparing aware and naive datetimes *)

Inductive DecisionSource : Type :=
| POLICY_MATCH | POLICY_DISABLED | NO_POLICY_FOR_ISSUER | KID_NOT_ALLOWED
| TRIPLE_NOT_ALLOWED | OUTSIDE_VALIDITY_WINDOW | POLICY_REVOKED.

#[export] Instance source_eq_dec : EqDecision DecisionSource.
Proof. solve_decision. Defined.

Record CapabilityPolicy := MkPolicy {
  registered_by : str;
  allowed_kids : list str;
  allowed_triples : list (str * str);
  not_before : option datetime;
  not_after : option datetime;
  disabled : bool;
  note : option str;
  revoked_at : option datetime;
  revocation_reason : option str;
}.

#[export] Instance policy_eq_dec : EqDecision CapabilityPolicy.
Proof. solve_decision. Defined.

(** The decision; its [reason] text is derived from the other fields and the
    call's arguments, and is not modelled. *)
Record CapabilityGateDecision := MkDecision {
  allowed : bool;
  source : DecisionSource;
  policy : option CapabilityPolicy;
}.

(** The fields of a schema-registry entry that the gate reads. *)
Record SchemaRegistryEntry := MkSchemaEntry {
  entry_registered_by : str;
  layer : str;
  entry_name : str;
}.

Record SignedSchemaRegistryEntry := MkSignedEntry {
  signed_entry : SchemaRegistryEntry;
  signature : list (str * json);
}.

Module Policy.

Definition lt (a b : datetime) : result policy_error bool :=
  of_option PolicyDatetimeTypeError (dt_lt a b).
Definition ge (a b : datetime) : result policy_error bool :=
  c ← lt a b; Ok (negb c).

(** [CapabilityPolicy.__post_init__] *)
Definition new_policy (p : CapabilityPolicy) : result policy_error CapabilityPolicy :=
  raise_if (str_empty (registered_by p)) RegisteredByCapabilityError;;
  raise_if (bool_decide (allowed_kids p = [])) RegisteredByCapabilityError;;
  raise_if (existsb str_empty (allowed_kids p)) RegisteredByCapabilityError;;
  raise_if (bool_decide (allowed_triples p = [])) RegisteredByCapabilityError;;
  raise_if (existsb (λ t, str_empty t.1 || str_empty t.2) (allowed_triples p))
    RegisteredByCapabilityError;;
  match not_before p, not_after p with
  | Some a, Some b => c ← ge a b; raise_if c RegisteredByCapabilityError
  | _, _ => Ok ()
  end;;
  match revoked_at p with
  | Some r => raise_if (is_naive r) RegisteredByCapabilityError
  | None => raise_if (bool_decide (revocation_reason p ≠ None)) RegisteredByCapabilityError
  end;;
  Ok p.

Definition covers_triple (p : CapabilityPolicy) (lay name : str) : bool :=
  existsb (λ t, (str_eqb t.1 (u "*") || str_eqb t.1 lay) && fnmatchcase name t.2)
    (allowed_triples p).

(** ** The registry *)

Definition CapabilityPolicyRegistry : Type := list (str * list CapabilityPolicy).

Definition add_policy (reg : CapabilityPolicyRegistry) (p : CapabilityPolicy)
    : CapabilityPolicyRegistry :=
  dict_set reg (registered_by p) (default [] (dict_get reg (registered_by p)) ++ [p]).

Definition policies_for (reg : CapabilityPolicyRegistry) (issuer : str)
    : list CapabilityPolicy := default [] (dict_get reg issuer).

Definition list_issuers (reg : CapabilityPolicyRegistry) : list str :=
  py_sorted str_leb reg.*1.

(** ** The gate *)

Definition _is_revoked (p : CapabilityPolicy) (as_of : option datetime)
    : result policy_error bool :=
  match revoked_at p, as_of with
  | None, _ => Ok false
  | Some _, None => Ok true
  | Some r, Some t => ge t r
  end.

Definition _window_contains (p : CapabilityPolicy) (as_of : option datetime)
    : result policy_error bool :=
  match as_of with
  | None => Ok true
  | Some t =>
      early ← match not_before p with Some a => lt t a | None => Ok false end;
      if early : bool then Ok false else
      late ← match not_after p with Some b => ge t b | None => Ok false end;
      Ok (negb late)
  end.

Definition deny (s : DecisionSource) (p : CapabilityPolicy) : CapabilityGateDecision :=
  MkDecision false s (Some p).

(** [fallback is None or fallback.source in weaker] *)
Definition outranks (fallback : option CapabilityGateDecision)
    (weaker : list DecisionSource) : bool :=
  match fallback with
  | None => true
  | Some d => bool_decide (source d ∈ weaker)
  end.

Definition keep (fallback : option CapabilityGateDecision) (weaker : list DecisionSource)
    (d : CapabilityGateDecision) : option CapabilityGateDecision :=
  if outranks fallback weaker then Some d else fallback.

(** The sources other than [POLICY_REVOKED]. *)
Definition not_revoked : list DecisionSource :=
  [POLICY_MATCH; POLICY_DISABLED; NO_POLICY_FOR_ISSUER; KID_NOT_ALLOWED;
   TRIPLE_NOT_ALLOWED; OUTSIDE_VALIDITY_WINDOW].

Section gate.
Variables (entry : SchemaRegistryEntry) (kid : str) (as_of : option datetime).

(** One turn of the loop over the candidates: a grant, or the new fallback. *)
Definition gate_turn (fallback : option CapabilityGateDecision) (p : CapabilityPolicy)
    : result policy_error (CapabilityGateDecision + option CapabilityGateDecision) :=
  revoked ← _is_revoked p as_of;
  if revoked : bool then
    Ok (inr (keep fallback not_revoked (deny POLICY_REVOKED p)))
  else if disabled p then Ok (inr (keep fallback [] (deny POLICY_DISABLED p)))
  else if negb (bool_decide (kid ∈ allowed_kids p)) then
    Ok (inr (keep fallback [POLICY_DISABLED] (deny KID_NOT_ALLOWED p)))
  else if negb (covers_triple p (layer entry) (entry_name entry)) then
    Ok (inr (keep fallback [POLICY_DISABLED; KID_NOT_ALLOWED] (deny TRIPLE_NOT_ALLOWED p)))
  else
    inside ← _window_contains p as_of;
    if negb inside then
      Ok (inr (keep fallback [POLICY_DISABLED; KID_NOT_ALLOWED; TRIPLE_NOT_ALLOWED]
                 (deny OUTSIDE_VALIDITY_WINDOW p)))
    else Ok (inl (MkDecision true POLICY_MATCH (Some p))).

Definition no_policy : CapabilityGateDecision := MkDecision false NO_POLICY_FOR_ISSUER None.

Fixpoint gate_loop (fallback : option CapabilityGateDecision)
    (candidates : list CapabilityPolicy) : result policy_error CapabilityGateDecision :=
  match candidates with
  | [] => Ok (default no_policy fallback)
  | p :: rest =>
      x ← gate_turn fallback p;
      match x with
      | inl d => Ok d
      | inr fallback' => gate_loop fallback' rest
      end
  end.
End gate.

Definition kid_of (signature_block : list (str * json)) : result policy_error str :=
  v ← of_option RegisteredByCapabilityError (dict_get signature_block (u "kid"));
  match v with
  | JStr k => raise_if (str_empty k) RegisteredByCapabilityError;; Ok k
  | _ => Err RegisteredByCapabilityError
  end.

Definition check_registered_by_capability (entry : SchemaRegistryEntry)
    (signature_block : list (str * json)) (reg : CapabilityPolicyRegistry)
    (as_of : option datetime) : result policy_error CapabilityGateDecision :=
  kid ← kid_of signature_block;
  match policies_for reg (entry_registered_by entry) with
  | [] => Ok no_policy
  | candidates => gate_loop entry kid as_of None candidates
  end.

Definition gate_signed_entry (signed : SignedSchemaRegistryEntry)
    (reg : CapabilityPolicyRegistry) (as_of : option datetime)
    : result policy_error CapabilityGateDecision :=
  check_registered_by_capability (signed_entry signed) (signature signed) reg as_of.

(** ** The decision *)

(** How strong a reason to deny is. *)
Definition rank (s : DecisionSource) : nat :=
  match s with
  | POLICY_DISABLED => 1 | KID_NOT_ALLOWED => 2 | TRIPLE_NOT_ALLOWED => 3
  | OUTSIDE_VALIDITY_WINDOW => 4 | POLICY_REVOKED => 5 | _ => 0
  end.

Section decision.
Variables (entry : SchemaRegistryEntry) (kid : str) (as_of : option datetime).

(** What a policy alone says of the entry. *)
Definition classify (p : CapabilityPolicy) : result policy_error DecisionSource :=
  revoked ← _is_revoked p as_of;
  if revoked : bool then Ok POLICY_REVOKED
  else if disabled p then Ok POLICY_DISABLED
  else if negb (bool_decide (kid ∈ allowed_kids p)) then Ok KID_NOT_ALLOWED
  else if negb (covers_triple p (layer entry) (entry_name entry)) then Ok TRIPLE_NOT_ALLOWED
  else inside ← _window_contains p as_of;
       Ok (if inside : bool then POLICY_MATCH else OUTSIDE_VALIDITY_WINDOW).

Definition denied (p : CapabilityPolicy) : Prop :=
  ∃ s, classify p = Ok s ∧ s ≠ POLICY_MATCH.

Lemma classify_rank p s : classify p = Ok s → s ≠ POLICY_MATCH → (1 ≤ rank s)%nat.
Proof.
  unfold classify. intros Hc Hs. apply bind_ok_iff in Hc as (r & _ & Hc).
  repeat case_match; try (simplify_eq; simpl; lia).
  apply bind_ok_iff in Hc as ([] & _ & [= <-]); [done|simpl; lia].
Qed.

(** A fallback in the loop carries a reason. *)
Definition ranked (fb : option CapabilityGateDecision) : Prop :=
  match fb with Some d => (1 ≤ rank (source d))%nat | None => True end.

(** One turn by the policy's own reason: a stronger reason replaces the
    fallback, any other leaves it. *)
Lemma gate_turn_classify fb p : ranked fb →
  gate_turn entry kid as_of fb p =
  (s ← classify p;
   Ok (if bool_decide (s = POLICY_MATCH) then inl (MkDecision true POLICY_MATCH (Some p))
       else inr (match fb with
                 | Some d => if (rank (source d) <? rank s)%nat then Some (deny s p) else fb
                 | None => Some (deny s p)
                 end))).
Proof.
  intros Hfb. unfold gate_turn, classify, keep, outranks.
  destruct (_is_revoked p as_of) as [[]|e]; [..|done]; rewrite !bind_Ok.
  - destruct fb as [[a [] q]|]; try done; simpl in Hfb; lia.
  - destruct (disabled p); [destruct fb as [[a [] q]|]; try done; simpl in Hfb; lia|].
    destruct (negb _); [destruct fb as [[a [] q]|]; try done; simpl in Hfb; lia|].
    destruct (negb _); [destruct fb as [[a [] q]|]; try done; simpl in Hfb; lia|].
    destruct (_window_contains p as_of) as [[]|e]; [..|done]; rewrite !bind_Ok; [done|].
    destruct fb as [[a [] q]|]; try done; simpl in Hfb; lia.
Qed.

(** The loop's answer on candidates [l], as a verdict on the list: the first
    policy that matches grants, after policies that all deny; otherwise the
    first policy with the strongest reason to deny is reported. *)
Definition granted_by (l : list CapabilityPolicy) (d : CapabilityGateDecision) : Prop :=
  ∃ pre p post, l = pre ++ p :: post ∧ Forall denied pre ∧
    classify p = Ok POLICY_MATCH ∧ d = MkDecision true POLICY_MATCH (Some p).

Definition weaker (r : nat) (p : CapabilityPolicy) : Prop :=
  ∀ s, classify p = Ok s → (rank s < r)%nat.

Definition denied_by (l : list CapabilityPolicy) (d : CapabilityGateDecision) : Prop :=
  Forall denied l ∧ ∃ pre p post s, l = pre ++ p :: post ∧ classify p = Ok s ∧
    d = deny s p ∧ Forall (weaker (rank s)) pre ∧ Forall (weaker (S (rank s))) post.

(** ... with an earlier fallback, which yields only to stronger reasons. *)
Definition loop_answer (fb : option CapabilityGateDecision) (l : list CapabilityPolicy)
    (d : CapabilityGateDecision) : Prop :=
  granted_by l d ∨
  (Forall denied l ∧ d = default no_policy fb ∧
   Forall (weaker (match fb with Some d0 => S (rank (source d0)) | None => 0 end)) l) ∨
  (denied_by l d ∧ ∀ d0, fb = Some d0 → (rank (source d0) < rank (source d))%nat).

Lemma weaker_trans r r' p : (r ≤ r')%nat → weaker r p → weaker r' p.
Proof. intros Hr Hw s Hs. specialize (Hw s Hs). lia. Qed.

Lemma gate_loop_ok fb l d : ranked fb →
  gate_loop entry kid as_of fb l = Ok d → loop_answer fb l d.
Proof.
  revert fb. induction l as [|p l IH]; intros fb Hfb Hl.
  { apply Ok_inj in Hl as <-. right. left. split_and!; [constructor|done|constructor]. }
  cbn [gate_loop] in Hl. rewrite gate_turn_classify in Hl by done.
  destruct (classify p) as [s|e] eqn:Ep; [|done]. rewrite !bind_Ok in Hl.
  destruct (decide (s = POLICY_MATCH)) as [->|Hs].
  { rewrite bool_decide_true in Hl by done. apply Ok_inj in Hl as <-.
    left. exists [], p, l. split_and!; [done|constructor|done|done]. }
  rewrite bool_decide_false in Hl by done.
  assert (denied p) as Hden by (by exists s).
  pose proof (classify_rank p s Ep Hs) as Hrank.
  destruct (match fb with Some d0 => (rank (source d0) <? rank s)%nat | None => true end)
    eqn:Ew.
  - assert (gate_loop entry kid as_of (Some (deny s p)) l = Ok d) as Hl'.
    { destruct fb as [d0|]; [|done]. by rewrite Ew in Hl. }
    clear Hl. apply IH in Hl' as [Hg|[(Hl & -> & Hw)|((Hl & Hd) & Hlt)]]; [..|done].
    + left. destruct Hg as (pre & q & post & -> & Hpre & ? & ?).
      exists (p :: pre), q, post. split_and!; [done|by constructor|done|done].
    + right. right. split.
      * split; [by constructor|]. exists [], p, l, s. by split_and!.
      * intros d0 ->. simpl. by apply Nat.ltb_lt.
    + right. right. destruct Hd as (pre & q & post & sq & -> & ? & -> & ? & ?).
      specialize (Hlt _ eq_refl). simpl in Hlt. split.
      * split; [by constructor|]. exists (p :: pre), q, post, sq. split_and!; [done..| |done].
        constructor; [|done]. intros s' E. rewrite Ep in E. by injection E as <-.
      * intros d0 ->. apply Nat.ltb_lt in Ew. simpl. lia.
  - destruct fb as [d0|]; [|done]. rewrite Ew in Hl. apply Nat.ltb_ge in Ew.
    apply IH in Hl as [Hg|[(Hl & -> & Hw)|((Hl & Hd) & Hlt)]]; [..|done].
    + left. destruct Hg as (pre & q & post & -> & Hpre & ? & ?).
      exists (p :: pre), q, post. split_and!; [done|by constructor|done|done].
    + right. left. split_and!; [by constructor|done|]. constructor; [|done].
      intros s' E. rewrite Ep in E. injection E as <-. lia.
    + right. right. destruct Hd as (pre & q & post & sq & -> & ? & -> & ? & ?).
      specialize (Hlt _ eq_refl). simpl in Hlt. split; [|by intros ? [= <-]].
      split; [by constructor|]. exists (p :: pre), q, post, sq. split_and!; [done..| |done].
      constructor; [|done]. intros s' E. rewrite Ep in E. injection E as <-. lia.
Qed.

Lemma gate_loop_err fb l e : ranked fb →
  gate_loop entry kid as_of fb l = Err e →
  ∃ pre p post, l = pre ++ p :: post ∧ Forall denied pre ∧ classify p = Err e.
Proof.
  revert fb. induction l as [|p l IH]; intros fb Hfb Hl; [done|].
  cbn [gate_loop] in Hl. rewrite gate_turn_classify in Hl by done.
  destruct (classify p) as [s|e'] eqn:Ep.
  - rewrite !bind_Ok in Hl. case_bool_decide as Hs; [done|].
    apply IH in Hl as (pre & q & post & -> & ? & ?).
    + exists (p :: pre), q, post. split_and!; [done| |done]. constructor; [by exists s|done].
    + pose proof (classify_rank p s Ep Hs).
      destruct fb as [d0|]; [|done]. by destruct (_ <? _)%nat.
  - injection Hl as ->. exists [], p, l. split_and!; [done|constructor|done].
Qed.
End decision.

(** C17: The gate's decision on every input: without a usable key id it raises;
    with no policy for the issuer it denies; otherwise the first policy that
    matches grants, and if none does the answer is the first policy with the
    strongest reason to deny (revoked, window, pattern, key id, disabled).  It
    raises in between only when a policy's times cannot be compared. *)
Theorem gate_decision entry sig reg as_of :
  match check_registered_by_capability entry sig reg as_of with
  | Ok d => ∃ kid, kid_of sig = Ok kid ∧
      let l := policies_for reg (entry_registered_by entry) in
      (l = [] ∧ d = no_policy) ∨ granted_by entry kid as_of l d ∨
      denied_by entry kid as_of l d
  | Err e => kid_of sig = Err e ∨ ∃ kid pre p post, kid_of sig = Ok kid ∧
      policies_for reg (entry_registered_by entry) = pre ++ p :: post ∧
      Forall (denied entry kid as_of) pre ∧ classify entry kid as_of p = Err e
  end.
Proof.
  unfold check_registered_by_capability. destruct (kid_of sig) as [kid|e]; [|by left].
  rewrite bind_Ok. destruct (policies_for _ _) as [|p l] eqn:El.
  { exists kid. split; [done|]. by left. }
  destruct (gate_loop _ _ _ _ _) as [d|e] eqn:Eg.
  - exists kid. split; [done|]. right.
    apply gate_loop_ok in Eg as [?|[(Hd & -> & Hw)|[? _]]]; [by left| |by right|done].
    exfalso. apply Forall_cons in Hd as [(s & Es & ?) _], Hw as [Hw _].
    specialize (Hw s Es). lia.
  - right. apply gate_loop_err in Eg as (pre & q & post & -> & ? & ?); [|done].
    by exists kid, pre, q, post.
Qed.

(** ** Behind every grant *)

Definition not_before_ok (p : CapabilityPolicy) (t : Z) : Prop :=
  ∀ a, not_before p = Some a → ∃ x, a = Aware x ∧ x ≤ t.
Definition not_after_ok (p : CapabilityPolicy) (t : Z) : Prop :=
  ∀ b, not_after p = Some b → ∃ y, b = Aware y ∧ t < y.
Definition unrevoked_at (p : CapabilityPolicy) (t : Z) : Prop :=
  ∀ r, revoked_at p = Some r → ∃ z, r = Aware z ∧ t < z.

Lemma lt_aware a t b : lt a (Aware t) = Ok b → ∃ x, a = Aware x ∧ b = (x <? t).
Proof. destruct a as [x|]; [|done]. intros [= <-]. eauto. Qed.
Lemma lt_aware_l t a b : lt (Aware t) a = Ok b → ∃ x, a = Aware x ∧ b = (t <? x).
Proof. destruct a as [x|]; [|done]. intros [= <-]. eauto. Qed.
Lemma ge_aware t a b : ge (Aware t) a = Ok b → ∃ x, a = Aware x ∧ b = negb (t <? x).
Proof.
  unfold ge. intros Hg. apply bind_ok_iff in Hg as (c & (x & -> & ->)%lt_aware_l & [= <-]).
  eauto.
Qed.

Lemma covers_triple_spec p lay name :
  covers_triple p lay name = true ↔
  ∃ pl pn, (pl, pn) ∈ allowed_triples p ∧ (pl = u "*" ∨ pl = lay) ∧
    matches (translate pn) name.
Proof.
  unfold covers_triple, fnmatchcase, str_eqb. rewrite existsb_exists. split.
  - intros ([pl pn] & Hin%list_elem_of_In & [Hl Hn]%andb_true_iff).
    apply orb_true_iff in Hl. rewrite !bool_decide_eq_true in Hl. apply tok_match_spec in Hn.
    by exists pl, pn.
  - intros (pl & pn & Hin%list_elem_of_In & Hl & Hn%tok_match_spec). exists (pl, pn).
    split; [done|]. rewrite andb_true_iff, orb_true_iff, !bool_decide_eq_true. by split.
Qed.

Lemma classify_match entry kid t p :
  classify entry kid (Some (Aware t)) p = Ok POLICY_MATCH →
  disabled p = false ∧ kid ∈ allowed_kids p ∧
  covers_triple p (layer entry) (entry_name entry) = true ∧
  unrevoked_at p t ∧ not_before_ok p t ∧ not_after_ok p t.
Proof.
  unfold classify, _is_revoked, _window_contains. intros Hc.
  apply bind_ok_iff in Hc as (revoked & Hr & Hc). destruct revoked; [done|].
  destruct (disabled p); [done|]. case_bool_decide as Hk; [|done]. cbn [negb] in Hc.
  destruct (covers_triple _ _ _); [|done]. cbn [negb] in Hc.
  apply bind_ok_iff in Hc as (inside & Hw & [= Hin]). destruct inside; [|done].
  apply bind_ok_iff in Hw as (early & He & Hw). destruct early; [done|].
  apply bind_ok_iff in Hw as (late & Hlate & [= Hw]). split_and!; try done.
  - intros r E. rewrite E in Hr. apply ge_aware in Hr as (z & -> & Hz).
    exists z. split; [done|]. destruct (Z.ltb_spec t z); [done|done].
  - intros a E. rewrite E in He. apply lt_aware_l in He as (x & -> & Hx).
    exists x. split; [done|]. symmetry in Hx. by apply Z.ltb_ge in Hx.
  - intros b E. rewrite E in Hlate. apply ge_aware in Hlate as (y & -> & Hy).
    exists y. split; [done|]. destruct (Z.ltb_spec t y); [done|by subst].
Qed.

(** A grant at an instant rests on a policy of the issuer that is enabled, not
    revoked at that instant and inside its window, that lists the signature's
    key id, and one of whose patterns matches the entry's name in its layer. *)
Theorem grant_conditions entry sig reg t d :
  check_registered_by_capability entry sig reg (Some (Aware t)) = Ok d →
  allowed d = true →
  ∃ p kid, policy d = Some p ∧ p ∈ policies_for reg (entry_registered_by entry) ∧
    dict_get sig (u "kid") = Some (JStr kid) ∧ kid ∈ allowed_kids p ∧ disabled p = false ∧
    unrevoked_at p t ∧ not_before_ok p t ∧ not_after_ok p t ∧
    ∃ pl pn, (pl, pn) ∈ allowed_triples p ∧ (pl = u "*" ∨ pl = layer entry) ∧
      matches (translate pn) (entry_name entry).
Proof.
  unfold check_registered_by_capability. intros Hc Ha.
  apply bind_ok_iff in Hc as (kid & Hk & Hc).
  destruct (policies_for _ _) as [|q l]; [by apply Ok_inj in Hc as <-|].
  apply gate_loop_ok in Hc as [Hg|[(_ & -> & _)|[Hd _]]]; [|done|..|done].
  - destruct Hg as (pre & p & post & E & _ & Hm & ->).
    apply classify_match in Hm as (? & ? & Hcov & ? & ? & ?).
    exists p, kid. split_and!; try done.
    + rewrite E. set_solver.
    + unfold kid_of in Hk. apply bind_ok_iff in Hk as (v & Hv%of_option_ok & Hk).
      destruct v; try done. by apply bind_ok_iff in Hk as (? & _ & [= <-]).
    + by apply covers_triple_spec.
  - by destruct Hd as (_ & pre & p & post & s & _ & _ & -> & _).
Qed.

(** ** The registry *)

Lemma policies_for_add reg p issuer :
  policies_for (add_policy reg p) issuer =
  if decide (issuer = registered_by p)
  then policies_for reg issuer ++ [p] else policies_for reg issuer.
Proof.
  unfold policies_for, add_policy. rewrite dict_get_set.
  destruct (decide (issuer = registered_by p)) as [->|];
    [by rewrite decide_True|by rewrite decide_False].
Qed.

(** Policies are filed under their own issuer. *)
Definition registry_wf (reg : CapabilityPolicyRegistry) : Prop :=
  ∀ issuer p, p ∈ policies_for reg issuer → registered_by p = issuer.

Lemma registry_wf_empty : registry_wf [].
Proof. by intros issuer p ?%elem_of_nil. Qed.

Lemma registry_wf_add reg p : registry_wf reg → registry_wf (add_policy reg p).
Proof.
  intros Hreg issuer q. rewrite policies_for_add. case_decide as Hi; [|apply Hreg].
  intros [Hq|Hq]%elem_of_app; [by apply Hreg|]. by apply list_elem_of_singleton in Hq as ->.
Qed.

Lemma gate_turn_fallback entry kid as_of fb p fb' :
  gate_turn entry kid as_of fb p = Ok (inr fb') → ∃ w s, fb' = keep fb w (deny s p).
Proof.
  unfold gate_turn. intros Hx. apply bind_ok_iff in Hx as (revoked & _ & Hx).
  destruct revoked; [apply Ok_inj in Hx as [= <-]; eauto|].
  destruct (disabled p); [apply Ok_inj in Hx as [= <-]; eauto|].
  destruct (negb _); [apply Ok_inj in Hx as [= <-]; eauto|].
  destruct (negb _); [apply Ok_inj in Hx as [= <-]; eauto|].
  apply bind_ok_iff in Hx as (inside & _ & Hx).
  destruct (negb inside); apply Ok_inj in Hx as [= <-]. eauto.
Qed.

Lemma gate_loop_grant entry kid as_of fb l k d :
  (∀ d0, fb = Some d0 → allowed d0 = false) → allowed d = true →
  gate_loop entry kid as_of fb l = Ok d → gate_loop entry kid as_of fb (l ++ k) = Ok d.
Proof.
  intros Hfb Ha. revert fb Hfb. induction l as [|p l IH]; intros fb Hfb Hl.
  { apply Ok_inj in Hl as <-. destruct fb as [d0|]; simpl in Ha; [|done].
    by rewrite (Hfb d0) in Ha. }
  cbn [gate_loop app] in *. apply bind_ok_iff in Hl as (x & Hx & Hl). rewrite Hx, bind_Ok.
  destruct x as [d'|fb']; [done|]. apply IH; [|done]. intros d0 ->.
  apply gate_turn_fallback in Hx as (w & s & E). unfold keep in E.
  destruct (outranks fb w); [by injection E as ->|by apply Hfb].
Qed.

(** Adding a policy never withdraws or changes a grant. *)
Theorem add_policy_keeps_grants entry sig reg as_of p d :
  check_registered_by_capability entry sig reg as_of = Ok d → allowed d = true →
  check_registered_by_capability entry sig (add_policy reg p) as_of = Ok d.
Proof.
  unfold check_registered_by_capability. intros Hc Ha.
  apply bind_ok_iff in Hc as (kid & Hk & Hc). rewrite Hk, bind_Ok, policies_for_add.
  case_decide; [|done]. destruct (policies_for _ _) as [|q l]; [by apply Ok_inj in Hc as <-|].
  cbn [app]. by apply (gate_loop_grant _ _ _ None (q :: l) [p]).
Qed.
End Policy.

Module PolicyExample.

Definition kid1 : str := u "kid-1".
Definition grant : CapabilityPolicy :=
  MkPolicy (u "acme") [kid1] [(u "l1", u "wakir.*")] (Some (Aware 0)) (Some (Aware 100))
    false None None None.
Definition entry : SchemaRegistryEntry := MkSchemaEntry (u "acme") (u "l1") (u "wakir.mail").
Definition sig : list (str * json) := [(u "kid", JStr kid1)].
Definition reg : Policy.CapabilityPolicyRegistry := Policy.add_policy [] grant.
Definition granted : CapabilityGateDecision := MkDecision true POLICY_MATCH (Some grant).

Lemma grant_conditions_witness :
  ∃ p kid, policy granted = Some p ∧ p ∈ Policy.policies_for reg (entry_registered_by entry) ∧
    dict_get sig (u "kid") = Some (JStr kid) ∧ kid ∈ allowed_kids p ∧ disabled p = false ∧
    Policy.unrevoked_at p 50 ∧ Policy.not_before_ok p 50 ∧ Policy.not_after_ok p 50 ∧
    ∃ pl pn, (pl, pn) ∈ allowed_triples p ∧ (pl = u "*" ∨ pl = layer entry) ∧
      matches (translate pn) (entry_name entry).
Proof.
  apply (Policy.grant_conditions entry sig reg 50 granted); vm_compute; reflexivity.
Defined.

Lemma add_policy_keeps_grants_witness :
  Policy.check_registered_by_capability entry sig
    (Policy.add_policy reg (MkPolicy (u "acme") [kid1] [(u "l1", u "*")] None None true
       None None None)) (Some (Aware 50)) = Ok granted.
Proof.
  apply Policy.add_policy_keeps_grants; vm_compute; reflexivity.
Defined.
End PolicyExample.
