(* ===== verification/FederationEval.v ===== *)
(** * Federation predicates ([wirelang/federation/n2_evaluator.py])

    The route registry, the evaluation context and the two live predicates
    [peer_org] and [federation_route].  The registry protocol is the class
    [RouteRegistry]; the in-memory registry is its instance.

    The theorems: the exact acceptance condition and error of each predicate,
    the half-open activity window, and the conjunction with fail-fast order. *)

From S2P Require Import Prelude PyStr PyTime.
From Stdlib Require Import ZArith Lia.

Open Scope Z_scope.

(** The exceptions of the evaluator and, below the line, of the chain walker
    built on it; the last three are not [FederationPredicateError]s. *)
Inductive federation_error : Type :=
| PeerOrgMismatchError
| FederationRouteUnknownError
| FederationRouteExpiredError
| FederationPredicateArgumentError
| ChainWalkerArgumentError
| ChainWalkerCycleError (fid : str)
| ChainWalkerDepthError (hops : Z)
| ChainWalkerSchemaError
| NaiveEvalNow             (* ValueError of from_resolve *)
| DatetimeTypeError        (* comparing aware and naive datetimes *)
| EntryAttributeError.     (* the registry returned a foreign object *)

Record RouteRegistryEntry := MkEntry {
  route_id : str;
  source_ftd_id : str;
  active_from : datetime;
  active_until : option datetime;
  wat_anchor_manifest_id : option str;
}.

(** What [lookup] may return besides [None]. *)
Inductive registry_answer : Type :=
| Entry (e : RouteRegistryEntry)
| NotAnEntry.

Class RouteRegistry (R : Type) := lookup : R → str → option registry_answer.

Definition InMemoryRouteRegistry : Type := gmap str RouteRegistryEntry.

Definition add (r : InMemoryRouteRegistry) (e : RouteRegistryEntry)
    : InMemoryRouteRegistry := <[route_id e := e]> r.

#[export] Instance in_memory_lookup : RouteRegistry InMemoryRouteRegistry :=
  λ r rid, Entry <$> (r !! rid : option RouteRegistryEntry).

(** The fields of [FederatedResolveResult] that the evaluator reads. *)
Record resolve_result := MkResolve { ftd_id : str; verified_at : datetime }.

Record FederationContext (R : Type) := MkContext {
  federated_resolve : resolve_result;
  route_registry : R;
  eval_now : datetime;
}.
Arguments MkContext {R}.
Arguments federated_resolve {R}.
Arguments route_registry {R}.
Arguments eval_now {R}.

Module N2.

(** [^did:[a-z0-9]+:[A-Za-z0-9._:%-]+$] *)
Definition is_method_char (c : Z) : bool := is_lower c || is_digit c.
Definition is_did_char (c : Z) : bool := is_alnum c || one_of (u "._:%-") c.

Definition did_full (s : str) : bool :=
  startswith s (u "did:") &&
  let '(m, r) := span is_method_char (drop 4 s) in
  negb (str_empty m) &&
  match r with
  | c :: t => (c =? 58) && negb (str_empty t) && forallb is_did_char t
  | [] => false
  end.

Definition _DID_RE (s : str) : bool := re_dollar did_full s.

Definition cmp (x : option bool) : result federation_error bool :=
  of_option DatetimeTypeError x.

Definition is_active_at (e : RouteRegistryEntry) (now : datetime)
    : result federation_error bool :=
  before ← cmp (dt_lt now (active_from e));
  if before : bool then Ok false
  else
    match active_until e with
    | Some until => lt ← cmp (dt_lt now until); Ok lt
    | None => Ok true
    end.

Section evaluator.
Context {R : Type} `{RouteRegistry R}.

Definition from_resolve (res : resolve_result) (reg : R) (now : option datetime)
    : result federation_error (FederationContext R) :=
  let now := default (verified_at res) now in
  raise_if (is_naive now) NaiveEvalNow;;
  Ok (MkContext res reg now).

Variable ctx : FederationContext R.

Definition evaluate_peer_org (aip_id_arg : str) : result federation_error bool :=
  raise_if (str_empty aip_id_arg) FederationPredicateArgumentError;;
  raise_if (negb (_DID_RE aip_id_arg)) FederationPredicateArgumentError;;
  raise_if (negb (str_eqb aip_id_arg (ftd_id (federated_resolve ctx))))
    PeerOrgMismatchError;;
  Ok true.

Definition evaluate_federation_route (route_id_arg : str) : result federation_error bool :=
  raise_if (str_empty route_id_arg) FederationPredicateArgumentError;;
  match lookup (route_registry ctx) route_id_arg with
  | None => Err FederationRouteUnknownError
  | Some NotAnEntry => Err EntryAttributeError
  | Some (Entry entry) =>
      raise_if (negb (str_eqb (source_ftd_id entry) (ftd_id (federated_resolve ctx))))
        FederationRouteUnknownError;;
      active ← is_active_at entry (eval_now ctx);
      raise_if (negb active) FederationRouteExpiredError;;
      Ok true
  end.

Definition evaluate_all (peer_org_arg federation_route_arg : option str)
    : result federation_error (list bool) :=
  v1 ← match peer_org_arg with
       | Some a => v ← evaluate_peer_org a; Ok [v]
       | None => Ok []
       end;
  v2 ← match federation_route_arg with
       | Some r => v ← evaluate_federation_route r; Ok [v]
       | None => Ok []
       end;
  Ok (v1 ++ v2 : list bool).
End evaluator.

(** ** Specification *)

(** The DID syntax, with the newline that [$] lets through. *)
Definition did_syntax (s : str) : Prop :=
  ∃ m t, s = u "did:" ++ m ++ u ":" ++ t ∧ m ≠ [] ∧ t ≠ [] ∧
    forallb is_method_char m = true ∧ forallb is_did_char t = true.

Definition did_arg (s : str) : Prop :=
  did_syntax s ∨ ∃ s', s = s' ++ [10] ∧ did_syntax s'.

(** An aware window, closed at its start and open at its end. *)
Definition in_window (e : RouteRegistryEntry) (now : datetime) : Prop :=
  ∃ f n, active_from e = f ∧ now = n ∧
    dt_lt n f = Some false ∧
    match active_until e with Some un => dt_lt n un = Some true | None => True end.

Definition route_ok {R} `{RouteRegistry R} (ctx : FederationContext R)
    (src rid : str) (e : RouteRegistryEntry) : Prop :=
  lookup (route_registry ctx) rid = Some (Entry e) ∧
  source_ftd_id e = src ∧ in_window e (eval_now ctx).

Section specs.

Lemma did_full_iff s : did_full s = true ↔ did_syntax s.
Proof.
  unfold did_full, did_syntax. split.
  - intros [Hs Hr]%andb_true_iff. apply startswith_spec in Hs as [r ->].
    change 4%nat with (length (u "did:")) in Hr. rewrite drop_app_length in Hr.
    destruct (span is_method_char r) as [m t] eqn:Es.
    apply span_spec in Es as [-> Hm].
    apply andb_true_iff in Hr as [Hne Hr]. destruct t as [|c t]; [done|].
    apply andb_true_iff in Hr as [[Hc Ht]%andb_true_iff Hall].
    apply Z.eqb_eq in Hc as ->. exists m, t. split_and!; try done.
    + by intros ->.
    + by destruct t.
  - intros (m & t & -> & Hm & Ht & Hma & Hta). apply andb_true_iff. split.
    + apply startswith_app.
    + change 4%nat with (length (u "did:")). rewrite drop_app_length.
      change (u ":") with [58]. rewrite span_app; [|done|].
      * cbn. rewrite Hta. destruct m, t; done.
      * by intros c t' [= <- _].
Qed.

Lemma did_arg_iff s : _DID_RE s = true ↔ did_arg s.
Proof.
  unfold _DID_RE, did_arg. rewrite re_dollar_spec. setoid_rewrite did_full_iff. done.
Qed.

Lemma did_arg_nonempty s : did_arg s → str_empty s = false.
Proof. intros [(m & t & -> & _)|(s' & -> & m & t & -> & _)]; done. Qed.

Lemma is_active_at_ok e now : is_active_at e now = Ok true ↔ in_window e now.
Proof.
  unfold is_active_at, in_window, cmp. split.
  - intros Ha. destruct (dt_lt now (active_from e)) as [[]|] eqn:E1; try done.
    cbn in Ha. exists (active_from e), now. split_and!; try done.
    destruct (active_until e) as [un|]; [|done].
    destruct (dt_lt now un) as [[]|]; done.
  - intros (f & n & <- & <- & -> & Hun). cbn.
    destruct (active_until e) as [un|]; [|done]. by rewrite Hun.
Qed.
End specs.

Section evaluator_specs.
Context {R : Type} `{RouteRegistry R} (ctx : FederationContext R).

Lemma evaluate_peer_org_ok a v :
  evaluate_peer_org ctx a = Ok v ↔
  v = true ∧ did_arg a ∧ a = ftd_id (federated_resolve ctx).
Proof.
  unfold evaluate_peer_org. split.
  - intros Hv. run_ok. rename select (negb (_DID_RE a) = false) into Hd.
    apply negb_false_iff, did_arg_iff in Hd.
    rename select (negb (str_eqb _ _) = false) into He.
    by apply negb_false_iff, bool_decide_eq_true in He.
  - intros (-> & Hd & ->). rewrite (did_arg_nonempty _ Hd).
    apply did_arg_iff in Hd as ->. unfold str_eqb. by rewrite bool_decide_true.
Qed.

(** [peer_org] accepts exactly the DID that is the context's FTD id; any
    other DID is a mismatch, and anything else a malformed argument. *)
Theorem evaluate_peer_org_spec a :
  match evaluate_peer_org ctx a with
  | Ok v => v = true ∧ did_arg a ∧ a = ftd_id (federated_resolve ctx)
  | Err PeerOrgMismatchError => did_arg a ∧ a ≠ ftd_id (federated_resolve ctx)
  | Err FederationPredicateArgumentError => ¬ did_arg a
  | Err _ => False
  end.
Proof.
  unfold evaluate_peer_org. destruct (str_empty a) eqn:Ee; cbn.
  { intros ?%did_arg_nonempty. congruence. }
  destruct (_DID_RE a) eqn:Ed; cbn.
  - apply did_arg_iff in Ed. unfold str_eqb. case_bool_decide; done.
  - intros ?%did_arg_iff. congruence.
Qed.

(** [federation_route], every outcome: it accepts exactly the registered
    identifiers whose entry is bound to the context's FTD and active at the
    pinned time, from the window's start up to but excluding its end; an
    unknown or foreign-bound route, an inactive one, and an entry whose
    timestamps cannot be compared with the pinned time are told apart. *)
Theorem evaluate_federation_route_spec rid :
  let ctx_ftd := ftd_id (federated_resolve ctx) in
  let answer := lookup (route_registry ctx) rid in
  match evaluate_federation_route ctx rid with
  | Ok v => v = true ∧ rid ≠ [] ∧ ∃ e, route_ok ctx ctx_ftd rid e
  | Err FederationPredicateArgumentError => rid = []
  | Err FederationRouteUnknownError =>
      answer = None ∨ ∃ e, answer = Some (Entry e) ∧ source_ftd_id e ≠ ctx_ftd
  | Err FederationRouteExpiredError =>
      ∃ e, answer = Some (Entry e) ∧ source_ftd_id e = ctx_ftd ∧
        (dt_lt (eval_now ctx) (active_from e) = Some true ∨
         ∃ un, active_until e = Some un ∧ dt_lt (eval_now ctx) un = Some false)
  | Err DatetimeTypeError =>
      ∃ e, answer = Some (Entry e) ∧ source_ftd_id e = ctx_ftd ∧
        (dt_lt (eval_now ctx) (active_from e) = None ∨
         ∃ un, active_until e = Some un ∧ dt_lt (eval_now ctx) un = None)
  | Err EntryAttributeError => answer = Some NotAnEntry
  | Err _ => False
  end.
Proof.
  cbv zeta. unfold evaluate_federation_route, route_ok.
  destruct (str_empty rid) eqn:Er; cbn; [by destruct rid|].
  destruct (lookup (route_registry ctx) rid) as [[e|]|] eqn:El; cbn; [|done|by left].
  unfold str_eqb. case_bool_decide as Hs; cbn; [|eauto].
  pose proof (is_active_at_ok e (eval_now ctx)) as Hw.
  unfold is_active_at, cmp in *.
  destruct (dt_lt (eval_now ctx) (active_from e)) as [[]|] eqn:E1; cbn in *; [by eauto 6| |by eauto 6].
  assert (rid ≠ []) by by destruct rid.
  destruct (active_until e) as [un|] eqn:Eu; cbn in *.
  - destruct (dt_lt (eval_now ctx) un) as [[]|] eqn:E2; cbn in *; [|by eauto 8|by eauto 8].
    split_and!; [done|done|]. exists e. split_and!; [done|done|by apply Hw].
  - split_and!; [done|done|]. exists e. split_and!; [done|done|by apply Hw].
Qed.

Lemma evaluate_route_ok rid v :
  evaluate_federation_route ctx rid = Ok v ↔
  v = true ∧ rid ≠ [] ∧ ∃ e, route_ok ctx (ftd_id (federated_resolve ctx)) rid e.
Proof.
  unfold evaluate_federation_route, route_ok. split.
  - intros Hr. run_ok. destruct (lookup (route_registry ctx) rid) as [[e|]|] eqn:El;
      try done. run_ok. rename select (str_empty rid = false) into Hne.
    split_and!; [done|by destruct rid|]. exists e.
    rename select (negb (str_eqb _ _) = false) into Hs.
    apply negb_false_iff, bool_decide_eq_true in Hs.
    rename select (is_active_at _ _ = _) into Ha.
    rename select (negb _ = false) into Hb. apply negb_false_iff in Hb as ->.
    by rewrite <- is_active_at_ok.
  - intros (-> & Hne & e & -> & Hs & Ha%is_active_at_ok).
    assert (str_empty rid = false) as -> by by destruct rid.
    cbn. unfold str_eqb. rewrite bool_decide_true by done. cbn. by rewrite Ha.
Qed.

(** The conjunction: all given predicates hold, and the verdict is one [True]
    per predicate; a false verdict is never returned, only raised. *)
Lemma evaluate_all_ok po fr vs :
  evaluate_all ctx po fr = Ok vs ↔
  (∀ a, po = Some a → evaluate_peer_org ctx a = Ok true) ∧
  (∀ r, fr = Some r → evaluate_federation_route ctx r = Ok true) ∧
  vs = replicate ((if po then 1 else 0) + (if fr then 1 else 0)) true.
Proof.
  unfold evaluate_all.
  assert (∀ a v, evaluate_peer_org ctx a = Ok v → v = true) as Hp.
  { intros a v Hv. by apply evaluate_peer_org_ok in Hv as [-> _]. }
  assert (∀ r v, evaluate_federation_route ctx r = Ok v → v = true) as Hf.
  { intros r v Hv. by apply evaluate_route_ok in Hv as [-> _]. }
  destruct po as [a|], fr as [r|]; cbn;
    try destruct (evaluate_peer_org ctx a) as [v1|] eqn:E1; cbn;
    try destruct (evaluate_federation_route ctx r) as [v2|] eqn:E2; cbn;
    try (pose proof (Hp _ _ E1); subst v1); try (pose proof (Hf _ _ E2); subst v2).
  all: split;
    [intros [= <-]; split_and!; first [by intros ? [= <-]|done]
    |intros (H1 & H2 & ->); try specialize (H1 _ eq_refl);
     try specialize (H2 _ eq_refl); first [done|congruence]].
Qed.
End evaluator_specs.
End N2.
