(* ===== verification/MultiOrg.v ===== *)
(** * Cross-organisation route attestations ([wirelang/federation/multi_org_substrate.py])

    An attestation ties a route to a peer's trust domain, audit DID and policy
    pointer; mock attestations are marked by a prefix of the route id.  The
    registry is write-once per route, and the mock bridge resolves only routes
    that are registered, attested and mock.

    The theorems: what a valid attestation is, that the registry never changes
    an attestation, and the exact condition of the mock bridge. *)

From S2P Require Import Prelude PyStr PyTime FederationEval.
From Stdlib Require Import ZArith Lia.

Open Scope Z_scope.

Inductive multi_org_error : Type :=
| MultiOrgAttestationValidationError
| MultiOrgAttestationConflictError
| UnknownBridgeRouteError.

#[export] Instance multi_org_error_eq_dec : EqDecision multi_org_error.
Proof. solve_decision. Defined.

Record MultiOrgRouteAttestation := MkAttestation {
  att_route_id : str;
  peer_trust_domain : str;
  peer_audit_anchor_did : str;
  peer_wat_anchor_manifest_id : option str;
  peer_trust_bundle_url : option str;
  peer_capability_policy_pointer : option str;
  is_mock : bool;
}.

#[export] Instance attestation_eq_dec : EqDecision MultiOrgRouteAttestation.
Proof. solve_decision. Defined.

(** The entry is whatever the route registry returned. *)
Record MockBridgeResolution := MkResolution {
  entry : registry_answer;
  attestation : MultiOrgRouteAttestation;
}.

Module MultiOrg.

Definition MOCK_BRIDGE_ROUTE_ID_PREFIX : str := u "mock-bridge://".

(** [^[a-z0-9]([a-z0-9.-]{0,251}[a-z0-9])?$] *)
Definition edge_char (c : Z) : bool := is_lower c || is_digit c.
Definition domain_char (c : Z) : bool := edge_char c || one_of (u ".-") c.
Definition domain_full (s : str) : bool :=
  match s with
  | [] => false
  | c :: rest =>
      edge_char c &&
      match last rest with
      | None => true
      | Some z => edge_char z && forallb domain_char rest && (length rest <=? 252)%nat
      end
  end.
Definition _TRUST_DOMAIN_RE : str → bool := re_dollar domain_full.

(** [^did:web:[A-Za-z0-9._%-]+(:[A-Za-z0-9._%-]+)*$] *)
Definition segment_char (c : Z) : bool := is_alnum c || one_of (u "._%-") c.
Definition segment (s : str) : bool := negb (str_empty s) && forallb segment_char s.
Definition did_web_full (s : str) : bool :=
  startswith s (u "did:web:") && forallb segment (split_on 58 (drop 8 s)).
Definition _DID_WEB_RE : str → bool := re_dollar did_web_full.

Definition is_mock_route (rid : str) : bool := startswith rid MOCK_BRIDGE_ROUTE_ID_PREFIX.

(** [MultiOrgRouteAttestation.__post_init__] *)
Definition new_attestation (a : MultiOrgRouteAttestation)
    : result multi_org_error MultiOrgRouteAttestation :=
  raise_if (str_empty (att_route_id a)) MultiOrgAttestationValidationError;;
  raise_if (negb (_TRUST_DOMAIN_RE (peer_trust_domain a)))
    MultiOrgAttestationValidationError;;
  raise_if (negb (_DID_WEB_RE (peer_audit_anchor_did a)))
    MultiOrgAttestationValidationError;;
  raise_if (match peer_trust_bundle_url a with
            | Some url => negb (startswith url (u "https://"))
            | None => false
            end) MultiOrgAttestationValidationError;;
  raise_if (is_mock a && negb (is_mock_route (att_route_id a)))
    MultiOrgAttestationValidationError;;
  raise_if (negb (is_mock a) && is_mock_route (att_route_id a))
    MultiOrgAttestationValidationError;;
  Ok a.

(** ** The registry *)

Definition registry : Type := gmap str MultiOrgRouteAttestation.

Definition add (reg : registry) (a : MultiOrgRouteAttestation)
    : result multi_org_error registry :=
  match reg !! att_route_id a with
  | Some existing => raise_if (bool_decide (existing ≠ a)) MultiOrgAttestationConflictError
  | None => Ok ()
  end;;
  Ok (<[att_route_id a := a]> reg).

Definition lookup_attestation (reg : registry) (rid : str)
    : option MultiOrgRouteAttestation := reg !! rid.

Section bridge.
Context {R : Type} `{RouteRegistry R}.

Definition resolve_mock_bridge_route (rid : str) (route_registry : R) (reg : registry)
    : result multi_org_error MockBridgeResolution :=
  raise_if (negb (is_mock_route rid)) UnknownBridgeRouteError;;
  e ← of_option UnknownBridgeRouteError (lookup route_registry rid);
  a ← of_option UnknownBridgeRouteError (lookup_attestation reg rid);
  raise_if (negb (is_mock a)) UnknownBridgeRouteError;;
  Ok (MkResolution e a).
End bridge.

(** ** What a valid attestation is *)

Definition edge (c : Z) : Prop := 97 ≤ c ≤ 122 ∨ 48 ≤ c ≤ 57.
Definition inner (c : Z) : Prop := edge c ∨ c = 46 ∨ c = 45.

(** A SPIFFE trust domain: one to 253 characters between two edges. *)
Definition trust_domain (s : str) : Prop :=
  (∃ c, edge c ∧ s = [c]) ∨
  (∃ c mid z, edge c ∧ edge z ∧ Forall inner mid ∧ (length mid ≤ 251)%nat ∧
     s = c :: mid ++ [z]).

(** The validator's reading tolerates one trailing newline. *)
Definition up_to_newline (P : str → Prop) (s : str) : Prop :=
  P s ∨ ∃ s', s = s' ++ [10] ∧ P s'.

Definition did_web (s : str) : Prop :=
  ∃ segs, segs ≠ [] ∧ s = u "did:web:" ++ join [58] segs ∧
    Forall (λ g, g ≠ [] ∧ Forall (λ c, segment_char c = true) g) segs.

Lemma edge_char_spec c : edge_char c = true ↔ edge c.
Proof. unfold edge_char, is_lower, is_digit, in_range, edge. propify. lia. Qed.

Lemma domain_char_spec c : domain_char c = true ↔ inner c.
Proof.
  unfold domain_char, one_of, inner. ulit. rewrite orb_true_iff, edge_char_spec,
    bool_decide_eq_true, !elem_of_cons, elem_of_nil. tauto.
Qed.

Lemma forallb_Forall {A} (f : A → bool) (P : A → Prop) l :
  (∀ x, f x = true ↔ P x) → forallb f l = true ↔ Forall P l.
Proof.
  intros Hf. induction l as [|x l IH]; simpl; [done|].
  by rewrite andb_true_iff, Forall_cons, Hf, IH.
Qed.

Lemma domain_full_spec s : domain_full s = true ↔ trust_domain s.
Proof.
  unfold trust_domain. destruct s as [|c rest]; cbn [domain_full].
  { split; [done|]. by intros [(? & _ & [=])|(? & ? & ? & _ & _ & _ & _ & [=])]. }
  rewrite andb_true_iff, edge_char_spec.
  destruct (last rest) as [z|] eqn:El.
  - apply last_Some in El as [mid ->].
    rewrite !andb_true_iff, edge_char_spec, (forallb_Forall _ inner _ domain_char_spec),
      Nat.leb_le, length_app, Forall_app, Forall_singleton. simpl length. split.
    + intros (? & [? [? ?]] & ?). right. exists c, mid, z. split_and!; try done. lia.
    + intros [(? & _ & [= _ E])|(c' & mid' & z' & ? & ? & ? & ? & [= -> E])].
      { by destruct mid. }
      apply app_inj_tail in E as [-> ->]. split_and!; try done; [by left|lia].
  - apply last_None in El as ->. split.
    + intros [? _]. left. eauto.
    + intros [(c' & ? & [= ->])|(c' & mid' & z' & _ & _ & _ & _ & [= _ E])]; [done|].
      by destruct mid'.
Qed.

Lemma segment_spec g :
  segment g = true ↔ g ≠ [] ∧ Forall (λ c, segment_char c = true) g.
Proof.
  unfold segment. rewrite andb_true_iff, (forallb_Forall _ (λ c, segment_char c = true)) by done.
  destruct g; simpl; naive_solver.
Qed.

Lemma split_join segs :
  segs ≠ [] → Forall (λ g, 58 ∉ g) segs → split_on 58 (join [58] segs) = segs.
Proof.
  intros Hne Hs. induction Hs as [|g segs Hg Hs IH]; [done|].
  destruct segs as [|g' segs]; [by apply split_on_nil|].
  change (join [58] (g :: g' :: segs)) with (g ++ 58 :: join [58] (g' :: segs)).
  by rewrite split_on_app, IH.
Qed.

Lemma did_web_full_spec s : did_web_full s = true ↔ did_web s.
Proof.
  unfold did_web_full, did_web.
  rewrite andb_true_iff, startswith_spec, (forallb_Forall _ _ _ segment_spec). split.
  - intros [[r ->] Hf]. change 8%nat with (length (u "did:web:")) in Hf.
    rewrite drop_app_length in Hf. exists (split_on 58 r).
    split_and!; [apply split_on_nonnil|by rewrite join_split|done].
  - intros (segs & Hne & -> & Hf). split; [by eexists|].
    change 8%nat with (length (u "did:web:")). rewrite drop_app_length, split_join; [done..|].
    eapply Forall_impl; [exact Hf|]. intros g [_ Hg] Hin.
    rewrite Forall_forall in Hg. by apply Hg in Hin.
Qed.

Lemma re_dollar_prop full (P : str → Prop) s :
  (∀ s, full s = true ↔ P s) → re_dollar full s = true ↔ up_to_newline P s.
Proof.
  intros Hf. rewrite re_dollar_spec. unfold up_to_newline. setoid_rewrite Hf. done.
Qed.

Definition valid (a : MultiOrgRouteAttestation) : Prop :=
  att_route_id a ≠ [] ∧ up_to_newline trust_domain (peer_trust_domain a) ∧
  up_to_newline did_web (peer_audit_anchor_did a) ∧
  (∀ url, peer_trust_bundle_url a = Some url → ∃ r, url = u "https://" ++ r) ∧
  (is_mock a = true ↔ ∃ r, att_route_id a = MOCK_BRIDGE_ROUTE_ID_PREFIX ++ r).

Lemma new_attestation_valid a a' : new_attestation a = Ok a' ↔ a' = a ∧ valid a.
Proof.
  unfold new_attestation, valid.
  rewrite <- (re_dollar_prop _ _ _ domain_full_spec), <- (re_dollar_prop _ _ _ did_web_full_spec).
  rewrite <- startswith_spec. fold (is_mock_route (att_route_id a)).
  fold (_TRUST_DOMAIN_RE (peer_trust_domain a)) (_DID_WEB_RE (peer_audit_anchor_did a)).
  setoid_rewrite <- startswith_spec.
  destruct (att_route_id a) as [|x l] eqn:Er; [split; [done|by intros (_ & ? & _)]|].
  cbn [str_empty raise_if]. rewrite bind_Ok.
  destruct (_TRUST_DOMAIN_RE _); [|split; [done|by intros (_ & _ & ? & _)]].
  destruct (_DID_WEB_RE _); [|split; [done|by intros (_ & _ & _ & ? & _)]].
  cbn [negb raise_if]. rewrite !bind_Ok.
  destruct (peer_trust_bundle_url a) as [url|]; [destruct (startswith url _) eqn:Eu|];
    cbn [negb raise_if]; rewrite ?bind_Ok;
    [|split; [done|intros (_ & _ & _ & _ & Hu & _); by rewrite (Hu url) in Eu]|].
  all: destruct (is_mock a), (is_mock_route _); cbn; split; intros Hx;
    try done; try (by destruct Hx as (_ & _ & _ & _ & _ & [H1 H2]); auto; discriminate H1 || discriminate H2; auto).
  all: try (injection Hx as <-; split_and!; try done; by intros ? [= <-]).
  all: by destruct Hx as [-> _].
Qed.

(** The validator accepts exactly: a non-empty route id, a SPIFFE trust domain,
    a did:web identifier (each up to one trailing newline), an https bundle URL
    if any, and the mock flag set exactly on routes with the mock prefix. *)
Theorem new_attestation_iff a a' : new_attestation a = Ok a' ↔ a' = a ∧ valid a.
Proof. apply new_attestation_valid. Qed.

(** ** The registry is write-once *)

(** A sequence of additions that all succeed. *)
Fixpoint add_all (reg : registry) (l : list MultiOrgRouteAttestation)
    : result multi_org_error registry :=
  match l with
  | [] => Ok reg
  | a :: l' => reg' ← add reg a; add_all reg' l'
  end.

Lemma add_ok reg a reg' :
  add reg a = Ok reg' ↔
  reg' = <[att_route_id a := a]> reg ∧
  (∀ b, reg !! att_route_id a = Some b → b = a).
Proof.
  unfold add. destruct (reg !! att_route_id a) as [b|].
  - case_bool_decide as Hb; cbn; split; [done|by intros [_ Hx]; destruct Hb; apply Hx| |].
    + intros [= <-]. split; [done|]. intros b' [= <-]. by destruct (decide (b = a)).
    + by intros [-> _].
  - cbn. split; [by intros [= <-]|by intros [-> _]].
Qed.

Lemma add_all_ok reg l reg' rid a :
  add_all reg l = Ok reg' →
  reg' !! rid = Some a ↔ reg !! rid = Some a ∨ (a ∈ l ∧ att_route_id a = rid).
Proof.
  revert reg. induction l as [|b l IH]; intros reg Hl.
  { apply Ok_inj in Hl as ->. set_solver. }
  cbn [add_all] in Hl. apply bind_ok_iff in Hl as (reg1 & [-> Hb]%add_ok & Hl).
  unfold registry in *. rewrite (IH _ Hl), lookup_insert, elem_of_cons. case_decide as E.
  - subst rid. split.
    + intros [[= ->]|[? ?]]; auto.
    + intros [Ha|[[->|?] ?]]; [|by left|by right]. left. f_equal. symmetry. by apply Hb.
  - split; [tauto|]. intros [?|[[->|?] ?]]; [by left|done|by right].
Qed.

(** Additions never change an attestation and add exactly the given ones; in
    particular two different attestations of one route cannot both be added. *)
Theorem attestations_write_once reg l reg' :
  add_all reg l = Ok reg' →
  (∀ rid a, lookup_attestation reg rid = Some a → lookup_attestation reg' rid = Some a) ∧
  (∀ rid a, lookup_attestation reg' rid = Some a ↔
     lookup_attestation reg rid = Some a ∨ (a ∈ l ∧ att_route_id a = rid)) ∧
  (∀ a b, a ∈ l → b ∈ l → att_route_id a = att_route_id b → a = b).
Proof.
  intros Hl. unfold lookup_attestation.
  assert (∀ rid a, reg' !! rid = Some a ↔
    reg !! rid = Some a ∨ (a ∈ l ∧ att_route_id a = rid)) as Hiff
    by (intros; by apply add_all_ok).
  split_and!; [|done|].
  - intros rid a Ha. apply Hiff. by left.
  - intros a b Ha Hb E.
    assert (reg' !! att_route_id a = Some a) as E1 by (apply Hiff; auto).
    assert (reg' !! att_route_id a = Some b) as E2 by (apply Hiff; auto). congruence.
Qed.

Section bridge_spec.
Context {R : Type} `{RouteRegistry R}.

(** The mock bridge resolves exactly the routes with the mock prefix that the
    route registry knows and whose attestation is a mock, to that entry and
    attestation; every other call raises [UnknownBridgeRouteError]. *)
Theorem resolve_mock_bridge_route_iff rid (rr : R) reg x :
  resolve_mock_bridge_route rid rr reg = x ↔
  match x with
  | Ok (MkResolution e a) =>
      (∃ r, rid = MOCK_BRIDGE_ROUTE_ID_PREFIX ++ r) ∧ lookup rr rid = Some e ∧
      lookup_attestation reg rid = Some a ∧ is_mock a = true
  | Err err => err = UnknownBridgeRouteError ∧
      ((¬ ∃ r, rid = MOCK_BRIDGE_ROUTE_ID_PREFIX ++ r) ∨ lookup rr rid = None ∨
       lookup_attestation reg rid = None ∨
       ∃ a, lookup_attestation reg rid = Some a ∧ is_mock a = false)
  end.
Proof.
  pose proof (startswith_spec rid MOCK_BRIDGE_ROUTE_ID_PREFIX) as Hp.
  fold (is_mock_route rid) in Hp. unfold resolve_mock_bridge_route.
  destruct (is_mock_route rid); cbn [negb raise_if]; rewrite ?bind_Ok.
  2:{ assert (¬ ∃ r, rid = MOCK_BRIDGE_ROUTE_ID_PREFIX ++ r) as Hn by (by rewrite <- Hp).
      split; [intros <-; by split; [|left]|]. destruct x as [[e a]|err]; [by intros [? _]|].
      by intros [-> _]. }
  assert (∃ r, rid = MOCK_BRIDGE_ROUTE_ID_PREFIX ++ r) as Hpre by (by apply Hp). clear Hp.
  destruct (lookup rr rid) as [e|]; cbn [of_option]; rewrite ?bind_Ok.
  2:{ split; [intros <-; split; [done|auto]|]. destruct x as [[e a]|err];
      [by intros (_ & ? & _)|by intros [-> _]]. }
  destruct (lookup_attestation reg rid) as [a|]; cbn [of_option]; rewrite ?bind_Ok.
  2:{ split; [intros <-; split; [done|auto]|]. destruct x as [[e' a]|err];
      [by intros (_ & _ & ? & _)|by intros [-> _]]. }
  destruct (is_mock a) eqn:Em; cbn [negb raise_if]; rewrite ?bind_Ok; split.
  - by intros <-.
  - destruct x as [[e' a']|err]; [by intros (_ & [= ->] & [= ->] & _)|].
    intros [_ [Hx|[?|[?|(a' & [= ->] & ?)]]]]; try done; congruence.
  - intros <-. split; [done|]. eauto 6.
  - destruct x as [[e' a']|err]; [intros (_ & _ & [= ->] & ?); congruence|by intros [-> _]].
Qed.
End bridge_spec.
End MultiOrg.

Module MultiOrgExample.

Definition att1 : MultiOrgRouteAttestation :=
  MkAttestation (u "mock-bridge://a") (u "peer.example") (u "did:web:peer.example")
    None None (Some (u "peer::p1")) true.
Definition reg1 : MultiOrg.registry := ok_or ∅ (MultiOrg.add_all ∅ [att1; att1]).

Lemma attestations_write_once_witness :
  (∀ rid a, MultiOrg.lookup_attestation ∅ rid = Some a →
     MultiOrg.lookup_attestation reg1 rid = Some a) ∧
  (∀ rid a, MultiOrg.lookup_attestation reg1 rid = Some a ↔
     MultiOrg.lookup_attestation ∅ rid = Some a ∨ (a ∈ [att1; att1] ∧ att_route_id a = rid)) ∧
  (∀ a b, a ∈ [att1; att1] → b ∈ [att1; att1] → att_route_id a = att_route_id b → a = b).
Proof. apply MultiOrg.attestations_write_once. vm_compute. reflexivity. Defined.

Lemma att1_valid : MultiOrg.new_attestation att1 = Ok att1.
Proof. vm_compute. reflexivity. Qed.
End MultiOrgExample.
