(* ===== verification/Attenuation.v ===== *)
(** * Capability-attenuation chains ([wirelang/federation/capability_attenuation_chain_verifier.py])

    A chain of attenuation links is checked for order, freshness, resolution of
    each policy pointer (locally, or at the peer for the attested pointer only)
    and revocation, and is identified by a BLAKE2b hash of its canonical JSON.

    The theorems: the exact acceptance condition with the verified chain it
    returns, and that the hash binds the route and every field of every link. *)

From S2P Require Import Prelude PyStr PyJson PyTime Policy FederationEval MultiOrg Blake2b.
From Stdlib Require Import ZArith Lia Sorted.

Open Scope Z_scope.

Inductive stale_cause : Type := future_stamped | age_exceeded | expired.

Inductive attenuation_error : Type :=
| AttenuationChainShapeError
| AttenuationOrderViolationError (link_position : nat)
| StaleAttenuationReplayError (link_position : nat) (cause : stale_cause)
| CrossOrgBoundaryViolationError (link_position : nat)
| AttenuationLinkRevokedError (link_position : nat)
| ClockValueError                  (* ValueError of _now: a naive clock *)
| AttenuationDatetimeTypeError     (* comparing aware and naive datetimes *)
| ChainEncodeError.                (* UnicodeEncodeError; shown not to happen *)

Record AttenuationLink := MkLink {
  attenuation_index : Z;
  policy_pointer : str;
  issued_at : datetime;
  expires_at : option datetime;
  link_registered_by : option str;
}.

Record ResolvedAttenuationLink := MkResolved {
  link : AttenuationLink;
  resolved_policy : CapabilityPolicy;
  is_cross_org : bool;
}.

Record VerifiedAttenuationChain := MkVerified {
  chain_hash : bytes;
  chain_schema : str;
  attestation_route_id : str;
  resolved_links : list ResolvedAttenuationLink;
  chain_verified_at : datetime;
  max_link_age : Z;
}.

(** What a peer resolver can do: raise, or return [None], some other object, or
    a policy. *)
Inductive peer_answer : Type :=
| PeerRaises | PeerNone | PeerOther | PeerPolicy (p : CapabilityPolicy).

Definition PeerCapabilityPolicyResolver : Type := str → str → peer_answer.

Module Attenuation.

Definition DEFAULT_MAX_LINK_AGE_SECONDS : Z := 60 * 60.
Definition CHAIN_VERIFICATION_SCHEMA : str :=
  u "wakir.federation.capability-attenuation-chain/1".

Definition lt (a b : datetime) : result attenuation_error bool :=
  of_option AttenuationDatetimeTypeError (dt_lt a b).
Definition le (a b : datetime) : result attenuation_error bool :=
  c ← lt b a; Ok (negb c).

(** [AttenuationLink.__post_init__] *)
Definition new_link (l : AttenuationLink) : result attenuation_error AttenuationLink :=
  raise_if (attenuation_index l <? 0) AttenuationChainShapeError;;
  raise_if (str_empty (policy_pointer l)) AttenuationChainShapeError;;
  raise_if (is_naive (issued_at l)) AttenuationChainShapeError;;
  match expires_at l with
  | None => Ok ()
  | Some e =>
      raise_if (is_naive e) AttenuationChainShapeError;;
      early ← le e (issued_at l);
      raise_if early AttenuationChainShapeError
  end;;
  raise_if (match link_registered_by l with Some r => str_empty r | None => false end)
    AttenuationChainShapeError;;
  Ok l.

(** ** Resolution *)

(** [s.partition("::")] when the separator occurs *)
Fixpoint partition_cc (s : str) : option (str * str) :=
  match s with
  | c :: ((d :: rest) as s') =>
      if (c =? 58) && (d =? 58) then Some ([], rest)
      else ab ← partition_cc s'; Some (c :: ab.1, ab.2)
  | _ => None
  end.

Definition _lookup_local (reg : Policy.CapabilityPolicyRegistry) (pointer : str)
    (issuer_arg : option str) : option CapabilityPolicy :=
  match partition_cc pointer with
  | Some (issuer, policy_id) =>
      if str_empty issuer || str_empty policy_id then None
      else List.find (λ p, str_eqb (registered_by p) issuer) (Policy.policies_for reg issuer)
  | None =>
      match issuer_arg with
      | Some r => head (Policy.policies_for reg r)
      | None => None
      end
  end.

Section verifier.
Variable source_registry : Policy.CapabilityPolicyRegistry.
Variable peer_resolver : option PeerCapabilityPolicyResolver.
Variable max_link_age_seconds : Z.

Definition _resolve_link (l : AttenuationLink) (att : MultiOrgRouteAttestation)
    (position : nat) : result attenuation_error (CapabilityPolicy * bool) :=
  match _lookup_local source_registry (policy_pointer l) (link_registered_by l) with
  | Some p => Ok (p, false)
  | None =>
      raise_if (negb (bool_decide (peer_capability_policy_pointer att =
                                   Some (policy_pointer l))))
        (CrossOrgBoundaryViolationError position);;
      match peer_resolver with
      | None => Err (CrossOrgBoundaryViolationError position)
      | Some resolve =>
          match resolve (policy_pointer l) (att_route_id att) with
          | PeerPolicy p => Ok (p, true)
          | _ => Err (CrossOrgBoundaryViolationError position)
          end
      end
  end.

(** [(now - issued_at).total_seconds()], kept in microseconds *)
Definition age_of (now issued : datetime) : result attenuation_error Z :=
  match now, issued with
  | Aware t, Aware i | Naive t, Naive i => Ok (t - i)
  | _, _ => Err AttenuationDatetimeTypeError
  end.

Definition _enforce_freshness (l : AttenuationLink) (now : datetime) (position : nat)
    : result attenuation_error () :=
  age ← age_of now (issued_at l);
  raise_if (age <? 0) (StaleAttenuationReplayError position future_stamped);;
  raise_if (max_link_age_seconds * 1000000 <? age)
    (StaleAttenuationReplayError position age_exceeded);;
  match expires_at l with
  | None => Ok ()
  | Some e =>
      late ← le e now;
      raise_if late (StaleAttenuationReplayError position expired)
  end.

Definition _enforce_revocation (l : AttenuationLink) (p : CapabilityPolicy)
    (now : datetime) (position : nat) : result attenuation_error () :=
  match revoked_at p with
  | None => Ok ()
  | Some r =>
      before_issue ← le r (issued_at l);
      raise_if before_issue (AttenuationLinkRevokedError position);;
      before_now ← le r now;
      raise_if before_now (AttenuationLinkRevokedError position)
  end.

(** ** The ordering gate *)

Fixpoint check_order (position : nat) (prev : AttenuationLink)
    (rest : list AttenuationLink) : result attenuation_error () :=
  match rest with
  | [] => Ok ()
  | curr :: rest' =>
      raise_if (attenuation_index curr <=? attenuation_index prev)
        (AttenuationOrderViolationError position);;
      earlier ← lt (issued_at curr) (issued_at prev);
      raise_if earlier (AttenuationOrderViolationError position);;
      check_order (S position) curr rest'
  end.

Fixpoint resolve_links (position : nat) (att : MultiOrgRouteAttestation) (now : datetime)
    (chain : list AttenuationLink)
    : result attenuation_error (list ResolvedAttenuationLink) :=
  match chain with
  | [] => Ok []
  | l :: rest =>
      _enforce_freshness l now position;;
      pc ← _resolve_link l att position;
      _enforce_revocation l pc.1 now position;;
      rs ← resolve_links (S position) att now rest;
      Ok (MkResolved l pc.1 pc.2 :: rs)
  end.

(** ** The chain hash *)

(** [x.astimezone(timezone.utc).isoformat()] of an aware time *)
Definition utc_text (d : datetime) : str :=
  match d with Aware t | Naive t => isoformat_utc t end.

Definition link_json (l : AttenuationLink) : json :=
  JObj [(u "attenuation_index", JInt (attenuation_index l));
        (u "policy_pointer", JStr (policy_pointer l));
        (u "issued_at", JStr (utc_text (issued_at l)));
        (u "expires_at", match expires_at l with
                         | Some e => JStr (utc_text e)
                         | None => JNull
                         end);
        (u "registered_by", match link_registered_by l with
                            | Some r => JStr r
                            | None => JNull
                            end)].

Definition chain_payload (route_id : str) (chain : list AttenuationLink) : json :=
  JObj [(u "schema", JStr CHAIN_VERIFICATION_SCHEMA);
        (u "attestation_route_id", JStr route_id);
        (u "chain", JList (link_json <$> chain))].

Context `{Blake2b}.

Definition _compute_chain_hash (route_id : str) (chain : list AttenuationLink)
    : result attenuation_error bytes :=
  payload_bytes ← of_option ChainEncodeError
    (utf8_encode (json_dumps true true (chain_payload route_id chain)));
  Ok (blake2b payload_bytes).

(** The clock's answer, refused when naive. *)
Definition _now (clock : datetime) : result attenuation_error datetime :=
  raise_if (is_naive clock) ClockValueError;; Ok clock.

Definition verify (entry : RouteRegistryEntry) (att : MultiOrgRouteAttestation)
    (chain : list AttenuationLink) (clock : datetime)
    : result attenuation_error VerifiedAttenuationChain :=
  raise_if (negb (str_eqb (route_id entry) (att_route_id att))) AttenuationChainShapeError;;
  match chain with
  | [] => Err AttenuationChainShapeError
  | first :: rest =>
      now ← _now clock;
      check_order 1 first rest;;
      resolved ← resolve_links 0 att now chain;
      h ← _compute_chain_hash (att_route_id att) chain;
      Ok (MkVerified h CHAIN_VERIFICATION_SCHEMA (att_route_id att) resolved now
            max_link_age_seconds)
  end.

(** ** What verification means *)

(** Issued at most [max_link_age_seconds] ago, not in the future, not expired. *)
Definition fresh (t : Z) (l : AttenuationLink) : Prop :=
  ∃ i, issued_at l = Aware i ∧ i ≤ t ≤ i + max_link_age_seconds * 1000000 ∧
    ∀ e, expires_at l = Some e → ∃ x, e = Aware x ∧ t < x.

(** The policy a pointer stands for and whether it is the peer's: the peer is
    asked only about the attested pointer, when there is no local policy. *)
Definition stands_for (att : MultiOrgRouteAttestation) (l : AttenuationLink)
    (p : CapabilityPolicy) (cross : bool) : Prop :=
  match _lookup_local source_registry (policy_pointer l) (link_registered_by l) with
  | Some p' => p = p' ∧ cross = false
  | None => cross = true ∧ peer_capability_policy_pointer att = Some (policy_pointer l) ∧
      ∃ resolve, peer_resolver = Some resolve ∧
        resolve (policy_pointer l) (att_route_id att) = PeerPolicy p
  end.

Definition link_verified (att : MultiOrgRouteAttestation) (t : Z) (l : AttenuationLink)
    (r : ResolvedAttenuationLink) : Prop :=
  link r = l ∧ fresh t l ∧ stands_for att l (resolved_policy r) (is_cross_org r) ∧
  Policy.unrevoked_at (resolved_policy r) t.

(** Strictly increasing index and never earlier. *)
Definition follows (a b : AttenuationLink) : Prop :=
  attenuation_index a < attenuation_index b ∧
  ∃ i j, issued_at a = Aware i ∧ issued_at b = Aware j ∧ i ≤ j.

Lemma le_aware a t b : le a (Aware t) = Ok b → ∃ x, a = Aware x ∧ b = (x <=? t).
Proof.
  unfold le, lt. destruct a as [x|]; [|done]. cbn. intros [= <-].
  exists x. split; [done|]. by rewrite Z.leb_antisym.
Qed.

Lemma le_aware_eq x t : le (Aware x) (Aware t) = Ok (x <=? t).
Proof. unfold le, lt. cbn. by rewrite Z.leb_antisym. Qed.

Lemma enforce_freshness_ok l t pos x :
  _enforce_freshness l (Aware t) pos = Ok x ↔ fresh t l.
Proof.
  destruct x. unfold _enforce_freshness, fresh. split.
  - intros Hf. apply bind_ok_iff in Hf as (age & Ha & Hf).
    destruct (issued_at l) as [i|]; [|done]. apply Ok_inj in Ha as <-.
    apply bind_ok_iff in Hf as ([] & Hneg%raise_if_ok%Z.ltb_ge & Hf).
    apply bind_ok_iff in Hf as ([] & Hmax%raise_if_ok%Z.ltb_ge & Hf).
    exists i. split_and!; [done|lia|lia|]. intros e E. rewrite E in Hf.
    apply bind_ok_iff in Hf as (late & (x & -> & ->)%le_aware & Hlate%raise_if_ok).
    exists x. split; [done|]. by apply Z.leb_gt in Hlate.
  - intros (i & -> & Ht & He). cbn [age_of]. rewrite bind_Ok.
    rewrite (proj2 (Z.ltb_ge _ _)), raise_if_false, bind_Ok by lia.
    rewrite (proj2 (Z.ltb_ge _ _)), raise_if_false, bind_Ok by lia.
    destruct (expires_at l) as [e|]; [|done].
    destruct (He e eq_refl) as (x & -> & Hx). rewrite le_aware_eq, bind_Ok.
    by rewrite (proj2 (Z.leb_gt _ _)).
Qed.

Lemma resolve_link_ok l att pos p cross :
  _resolve_link l att pos = Ok (p, cross) ↔ stands_for att l p cross.
Proof.
  unfold _resolve_link, stands_for. destruct (_lookup_local _ _ _) as [p'|].
  { split; [by intros [= <- <-]|by intros [-> ->]]. }
  case_bool_decide as Hp; cbn [negb raise_if]; rewrite ?bind_Ok;
    [|split; [done|by intros (_ & ? & _)]].
  destruct peer_resolver as [f|]; [|split; [done|by intros (_ & _ & ? & [=] & _)]].
  destruct (f _ _) as [| | |p'] eqn:Ef; split; try done;
    try (intros (_ & _ & f' & [= <-] & E); congruence).
  - intros [= <- <-]. eauto.
  - intros (-> & _ & f' & [= <-] & E). rewrite Ef in E. by injection E as ->.
Qed.

Lemma enforce_revocation_ok l p t pos x :
  fresh t l → _enforce_revocation l p (Aware t) pos = Ok x ↔ Policy.unrevoked_at p t.
Proof.
  intros (i & Ei & Ht & _). destruct x. unfold _enforce_revocation, Policy.unrevoked_at.
  rewrite Ei. destruct (revoked_at p) as [r|]; [|by split].
  split.
  - intros Hr r' [= <-].
    apply bind_ok_iff in Hr as (b1 & (z & -> & ->)%le_aware & Hr).
    apply bind_ok_iff in Hr as ([] & Hz1%raise_if_ok%Z.leb_gt & Hr).
    rewrite le_aware_eq, bind_Ok in Hr. apply raise_if_ok, Z.leb_gt in Hr. eauto.
  - intros Hu. destruct (Hu r eq_refl) as (z & -> & Hz). rewrite !le_aware_eq, bind_Ok.
    rewrite (proj2 (Z.leb_gt z i)), raise_if_false, !bind_Ok by lia.
    by rewrite (proj2 (Z.leb_gt z t)).
Qed.

Lemma resolve_links_ok pos att t chain rs :
  resolve_links pos att (Aware t) chain = Ok rs ↔ Forall2 (link_verified att t) chain rs.
Proof.
  revert pos rs. induction chain as [|l chain IH]; intros pos rs; cbn [resolve_links].
  { split; [intros [= <-]; constructor|by inversion 1]. }
  split.
  - intros Hr. apply bind_ok_iff in Hr as ([] & Hf%enforce_freshness_ok & Hr).
    apply bind_ok_iff in Hr as ([p cross] & Hp%resolve_link_ok & Hr).
    apply bind_ok_iff in Hr as ([] & Hu & Hr). apply enforce_revocation_ok in Hu; [|done].
    apply bind_ok_iff in Hr as (rs' & Hrs%IH & <-%Ok_inj). by constructor.
  - intros (r & rs' & (El & Hf & Hp & Hu) & Hrs & ->)%Forall2_cons_inv_l.
    rewrite (proj2 (enforce_freshness_ok l t pos ())), bind_Ok by done.
    rewrite (proj2 (resolve_link_ok l att pos (resolved_policy r) (is_cross_org r))),
      bind_Ok by done. cbn [fst snd].
    rewrite (proj2 (enforce_revocation_ok l (resolved_policy r) t pos () Hf)), bind_Ok by done.
    rewrite (proj2 (IH (S pos) rs')) by done. rewrite bind_Ok. by destruct r; subst.
Qed.

Lemma follows_trans a b c : follows a b → follows b c → follows a c.
Proof.
  intros [? (i & j & Ei & Ej & ?)] [? (j' & k & Ej' & Ek & ?)]. split; [lia|].
  rewrite Ej in Ej'. injection Ej' as <-. exists i, k. split_and!; [done..|lia].
Qed.

Definition link_aware (l : AttenuationLink) : Prop := ∃ i, issued_at l = Aware i.

Lemma check_order_ok pos a rest x :
  Forall link_aware (a :: rest) →
  check_order pos a rest = Ok x ↔ StronglySorted follows (a :: rest).
Proof.
  destruct x. revert pos a. induction rest as [|b rest IH]; intros pos a Ha; cbn [check_order].
  { split; [by repeat constructor|done]. }
  apply Forall_cons in Ha as [[i Ei] Hrest]. pose proof Hrest as [[j Ej] _]%Forall_cons.
  rewrite Ei, Ej. cbn [lt dt_lt of_option]. split.
  - intros Hc. apply bind_ok_iff in Hc as ([] & Hidx%raise_if_ok%Z.leb_gt & Hc).
    unfold lt in Hc. cbn [dt_lt of_option] in Hc. rewrite bind_Ok in Hc.
    apply bind_ok_iff in Hc as ([] & Hij%raise_if_ok%Z.ltb_ge & Hc).
    apply IH in Hc; [|done]. assert (follows a b) as Hab by (split; [lia|eauto]).
    constructor; [done|]. constructor; [done|]. apply StronglySorted_inv in Hc as [_ Hc].
    eapply Forall_impl; [exact Hc|]. intros c. by apply follows_trans.
  - intros [Hs [[Hidx (i' & j' & Ei' & Ej' & Hle)] _]%Forall_cons]%StronglySorted_inv.
    rewrite (proj2 (Z.leb_gt _ _)), raise_if_false, bind_Ok by done.
    unfold lt. cbn [dt_lt of_option]. rewrite bind_Ok, (proj2 (Z.ltb_ge _ _)) by congruence.
    rewrite raise_if_false, bind_Ok. by apply IH.
Qed.

Lemma chain_hash_total rid chain : ∃ h, _compute_chain_hash rid chain = Ok h.
Proof.
  unfold _compute_chain_hash, json_dumps.
  assert (ok_strings (λ _, True) (json_sort (chain_payload rid chain))) as Hok.
  { apply ok_strings_sort. unfold chain_payload. apply ok_strings_obj.
    repeat (apply Forall_cons_2; [split; [done|]|]); try done.
    apply ok_strings_list, Forall_fmap, Forall_forall. intros l _. unfold link_json.
    apply ok_strings_obj. repeat (apply Forall_cons_2; [split; [done|]|]); try done.
    - by destruct (expires_at l).
    - by destruct (link_registered_by l). }
  apply print_ascii, ascii_encodable in Hok as [b ->]. cbn [of_option]. rewrite bind_Ok. eauto.
Qed.

(** C12: Verification accepts exactly when: the entry and the attestation name the
    same route; the chain is not empty and its links have strictly increasing
    indices and never earlier issue times; every link is fresh, stands for a
    policy (local, or the peer's for the attested pointer only) and that policy
    is not revoked by now.  It returns those policies in order, under the hash
    of the chain. *)
Theorem verify_accepts_iff entry att chain clock v :
  verify entry att chain clock = Ok v ↔
  ∃ t rs h, route_id entry = att_route_id att ∧ chain ≠ [] ∧ clock = Aware t ∧
    StronglySorted follows chain ∧ Forall2 (link_verified att t) chain rs ∧
    _compute_chain_hash (att_route_id att) chain = Ok h ∧
    v = MkVerified h CHAIN_VERIFICATION_SCHEMA (att_route_id att) rs (Aware t)
          max_link_age_seconds.
Proof.
  unfold verify, _now, str_eqb. split.
  - intros Hv. apply bind_ok_iff in Hv as ([] & Hr%raise_if_ok%negb_false_iff & Hv).
    apply bool_decide_eq_true in Hr. destruct chain as [|a rest]; [done|].
    apply bind_ok_iff in Hv as (now & Hnow & Hv).
    apply bind_ok_iff in Hnow as ([] & Hnaive%raise_if_ok & <-%Ok_inj).
    destruct clock as [t|]; [|done].
    apply bind_ok_iff in Hv as ([] & Hord & Hv).
    apply bind_ok_iff in Hv as (rs & Hrs%resolve_links_ok & Hv).
    apply bind_ok_iff in Hv as (h & Hh & <-%Ok_inj).
    exists t, rs, h. split_and!; try done. apply check_order_ok in Hord; [done|].
    apply Forall_forall. intros l Hl.
    destruct (list_elem_of_lookup_1 _ _ Hl) as [i Hi].
    destruct (Forall2_lookup_l _ _ _ _ _ Hrs Hi) as (r & _ & _ & (j & Ej & _) & _).
    by exists j.
  - intros (t & rs & h & Hr & Hne & -> & Hs & Hrs & Hh & ->).
    rewrite bool_decide_true by done. cbn [negb raise_if]. rewrite bind_Ok.
    destruct chain as [|a rest]; [done|]. cbn [is_naive raise_if]. rewrite !bind_Ok.
    assert (Forall link_aware (a :: rest)) as Haware.
    { apply Forall_forall. intros l Hl. destruct (list_elem_of_lookup_1 _ _ Hl) as [i Hi].
      destruct (Forall2_lookup_l _ _ _ _ _ Hrs Hi) as (r & _ & _ & (j & Ej & _) & _).
      by exists j. }
    rewrite (proj2 (check_order_ok 1 a rest () Haware) Hs), bind_Ok.
    rewrite (proj2 (resolve_links_ok 0 att t (a :: rest) rs) Hrs), bind_Ok.
    by rewrite Hh.
Qed.

(** ** What the hash determines *)

Definition time_ok (d : datetime) : Prop := ∃ t, d = Aware t ∧ in_datetime_range t.

(** A link as [__post_init__] leaves it, with text that UTF-8 can encode. *)
Definition link_wf (l : AttenuationLink) : Prop :=
  okstr (policy_pointer l) ∧ time_ok (issued_at l) ∧
  (∀ e, expires_at l = Some e → time_ok e) ∧
  (∀ r, link_registered_by l = Some r → okstr r).

Lemma isoformat_okstr t : okstr (isoformat_utc t).
Proof.
  apply okstr_Forall. eapply Forall_impl; [apply ascii_isoformat|]. intros c Hc.
  simpl in Hc. apply okchar_range. lia.
Qed.

Lemma link_json_ok l : link_wf l → json_ok (link_json l).
Proof.
  intros (Hp & (i & Ei & _) & He & Hr). apply ok_strings_obj. unfold link_json.
  repeat (apply Forall_cons_2; [split; [done|]|]); try done; cbn.
  - rewrite Ei. apply isoformat_okstr.
  - destruct (expires_at l) as [e|]; [|done].
    destruct (He e eq_refl) as (x & -> & _). apply isoformat_okstr.
  - destruct (link_registered_by l); [by apply Hr|done].
Qed.

Lemma chain_payload_ok rid chain :
  okstr rid → Forall link_wf chain → json_ok (chain_payload rid chain).
Proof.
  intros Hr Hc. apply ok_strings_obj. unfold chain_payload.
  repeat (apply Forall_cons_2; [split; [done|]|]); try done.
  apply ok_strings_list, Forall_fmap. eapply Forall_impl; [exact Hc|]. apply link_json_ok.
Qed.

Lemma sort_chain_payload rid chain :
  json_sort (chain_payload rid chain) =
  JObj [(u "attestation_route_id", JStr rid);
        (u "chain", JList (List.map json_sort (link_json <$> chain)));
        (u "schema", JStr CHAIN_VERIFICATION_SCHEMA)].
Proof. unfold chain_payload. ulit. reflexivity. Qed.

Lemma sort_link_json l :
  json_sort (link_json l) =
  JObj [(u "attenuation_index", JInt (attenuation_index l));
        (u "expires_at", match expires_at l with
                         | Some e => JStr (utc_text e)
                         | None => JNull
                         end);
        (u "issued_at", JStr (utc_text (issued_at l)));
        (u "policy_pointer", JStr (policy_pointer l));
        (u "registered_by", match link_registered_by l with
                            | Some r => JStr r
                            | None => JNull
                            end)].
Proof.
  unfold link_json. ulit. destruct (expires_at l), (link_registered_by l); reflexivity.
Qed.

Lemma utc_text_inj a b : time_ok a → time_ok b → utc_text a = utc_text b → a = b.
Proof.
  intros (x & -> & Hx) (y & -> & Hy) E. cbn [utc_text] in E. f_equal.
  exact (isoformat_inj x y Hx Hy E).
Qed.

Lemma link_json_inj l1 l2 :
  link_wf l1 → link_wf l2 → json_sort (link_json l1) = json_sort (link_json l2) → l1 = l2.
Proof.
  intros (_ & Hi1 & He1 & _) (_ & Hi2 & He2 & _). rewrite !sort_link_json.
  destruct l1 as [n1 p1 i1 e1 r1], l2 as [n2 p2 i2 e2 r2]. simpl in *. intros E.
  injection E as -> Ee Ei -> Er. apply utc_text_inj in Ei as ->; [|done..]. f_equal.
  - destruct e1 as [e1|], e2 as [e2|]; try done. injection Ee as Ee.
    by apply utc_text_inj in Ee as ->; [|auto..].
  - by destruct r1, r2; simplify_eq.
Qed.

(** The text that is hashed for a chain. *)
Definition chain_messages (rid : str) (chain : list AttenuationLink) : list bytes :=
  option_list (utf8_encode (json_dumps true true (chain_payload rid chain))).

(** The hash determines the attested route and every field of every link, or
    the texts of the two chains collide. *)
Theorem chain_hash_binds rid1 rid2 chain1 chain2 h :
  okstr rid1 → okstr rid2 → Forall link_wf chain1 → Forall link_wf chain2 →
  _compute_chain_hash rid1 chain1 = Ok h → _compute_chain_hash rid2 chain2 = Ok h →
  rid1 = rid2 ∧ chain1 = chain2 ∨
  collision_in blake2b (chain_messages rid1 chain1 ++ chain_messages rid2 chain2).
Proof.
  intros Hr1 Hr2 Hc1 Hc2 H1 H2. unfold _compute_chain_hash in *.
  apply bind_ok_iff in H1 as (b1 & E1%of_option_ok & D1%Ok_inj).
  apply bind_ok_iff in H2 as (b2 & E2%of_option_ok & D2%Ok_inj).
  unfold chain_messages. rewrite E1, E2.
  rewrite <- D2 in D1. apply (eq_or_pair_collision blake2b) in D1 as [->|?]; [left|by right].
  assert (json_dumps true true (chain_payload rid1 chain1) =
          json_dumps true true (chain_payload rid2 chain2)) as E by (by eapply utf8_encode_inj).
  apply json_dumps_sorted_inj in E; [|by apply chain_payload_ok..].
  rewrite !sort_chain_payload in E. injection E as -> E. split; [done|].
  change (List.map json_sort) with (fmap (M:=list) json_sort) in E.
  rewrite <- !list_fmap_compose in E.
  by eapply (fmap_inj_on link_wf (json_sort ∘ link_json)); [apply link_json_inj|..].
Qed.
End verifier.
End Attenuation.

Module AttenuationExample.

(** Two links, the first under a local policy, the second under the peer's. *)
Definition local_policy : CapabilityPolicy :=
  MkPolicy (u "acme") [u "k1"] [(u "l1", u "*")] None None false None
    (Some (Aware 999000000)) None.
Definition peer_policy : CapabilityPolicy :=
  MkPolicy (u "peer") [u "k2"] [(u "*", u "*")] None None false None None None.
Definition reg : Policy.CapabilityPolicyRegistry := Policy.add_policy [] local_policy.
Definition resolver : PeerCapabilityPolicyResolver := λ _ _, PeerPolicy peer_policy.
Definition att : MultiOrgRouteAttestation := MultiOrgExample.att1.
Definition entry : RouteRegistryEntry :=
  MkEntry (u "mock-bridge://a") (u "did:wakir:a") (Aware 0) None None.
Definition l1 : AttenuationLink :=
  MkLink 0 (u "acme::p1") (Aware 100000000) None (Some (u "acme")).
Definition l2 : AttenuationLink :=
  MkLink 3 (u "peer::p1") (Aware 100000000) (Some (Aware 900000000)) None.

#[export] Existing Instance checksum_blake2b.

Definition hash : bytes :=
  ok_or [] (Attenuation._compute_chain_hash (u "mock-bridge://a") [l1; l2]).

Example accepted :
  (r ← Attenuation.verify reg (Some resolver) 3600 entry att [l1; l2] (Aware 200000000);
   Ok (is_cross_org <$> resolved_links r)) = Ok [false; true].
Proof. vm_compute. reflexivity. Qed.

(** A local policy revoked by now blocks the chain. *)
Example revoked :
  is_ok (Attenuation.verify reg (Some resolver) 3600 entry att [l1] (Aware 999000000)) = false.
Proof. vm_compute. reflexivity. Qed.

(** The policy id of a local pointer is not looked at: any id under the issuer
    stands for the issuer's first policy. *)
Example policy_id_ignored :
  Attenuation._lookup_local reg (u "acme::no-such-policy") None = Some local_policy.
Proof. vm_compute. reflexivity. Qed.

Lemma time_ok_at t :
  (-62135596800000000 <=? t) && (t <? 253402300800000000) = true →
  Attenuation.time_ok (Aware t).
Proof. intros Ht. exists t. split; [done|]. unfold in_datetime_range. propify. lia. Qed.

Lemma l1_wf : Attenuation.link_wf l1.
Proof.
  split; [vm_compute; reflexivity|]. split; [apply time_ok_at; reflexivity|].
  split; [intros e E; discriminate E|]. intros r [= <-]. vm_compute. reflexivity.
Qed.

Lemma l2_wf : Attenuation.link_wf l2.
Proof.
  split; [vm_compute; reflexivity|]. split; [apply time_ok_at; reflexivity|].
  split; [|intros r E; discriminate E]. intros e [= <-]. apply time_ok_at. reflexivity.
Qed.

Lemma links_wf : Forall Attenuation.link_wf [l1; l2].
Proof. apply Forall_cons_2; [apply l1_wf|apply Forall_cons_2; [apply l2_wf|constructor]]. Qed.

Lemma chain_hash_binds_witness :
  u "mock-bridge://a" = u "mock-bridge://a" ∧ [l1; l2] = [l1; l2] ∨
  collision_in blake2b (Attenuation.chain_messages (u "mock-bridge://a") [l1; l2] ++
    Attenuation.chain_messages (u "mock-bridge://a") [l1; l2]).
Proof.
  apply (Attenuation.chain_hash_binds (u "mock-bridge://a") (u "mock-bridge://a")
           [l1; l2] [l1; l2] hash);
    [vm_compute; reflexivity|vm_compute; reflexivity|apply links_wf|apply links_wf
    |vm_compute; reflexivity|vm_compute; reflexivity].
Defined.
End AttenuationExample.
