(* ===== verification/ChainWalk.v ===== *)
(** * Delegation chains ([wirelang/federation/n3_chain_walker.py])

    The walker over the route registry: argument checks, cycle and depth
    checks, and one registry look-up per hop.

    The theorems: the walk accepts exactly the acyclic, short enough chains
    every hop of which is a registered, correctly bound and active route, and
    returns that chain's verdict; it is monotone in the depth bound; a one-hop
    walk is the single-route predicate; and route identifiers of different
    hops never coincide. *)

From S2P Require Import Prelude PyStr PyTime FederationEval.
From Stdlib Require Import ZArith Lia.
Import N2.

Open Scope Z_scope.

Module N3.

Definition MAX_DEPTH_DEFAULT : Z := 4.
Definition CHAIN_HOP_SEPARATOR : str := u "-|->".

Record ChainHopVerdict := MkHop {
  hop_index : nat;
  hop_source : str;
  hop_target : str;
  hop_route_id : str;
  hop_anchor : option str;
}.

Record ChainVerdict := MkVerdict {
  target_ftd_id : str;
  hops : list ChainHopVerdict;
  wat_anchor_chain : list (option str);
}.

(** The [depth] attribute set by [__post_init__]. *)
Definition depth (v : ChainVerdict) : nat := length (hops v).

(** The argument check shared by the walker and the identifier. *)
Definition check_ftd_id (fid : str) : result federation_error () :=
  raise_if (str_empty fid) ChainWalkerArgumentError;;
  raise_if (negb (_DID_RE fid)) ChainWalkerArgumentError.

Definition derive_chain_hop_route_id (source target : str)
    : result federation_error str :=
  raise_if (str_empty source) ChainWalkerArgumentError;;
  raise_if (str_empty target) ChainWalkerArgumentError;;
  raise_if (negb (_DID_RE source)) ChainWalkerArgumentError;;
  raise_if (negb (_DID_RE target)) ChainWalkerArgumentError;;
  Ok (source ++ CHAIN_HOP_SEPARATOR ++ target).

(** The first identifier that repeats an earlier one. *)
Fixpoint check_acyclic (seen : gset str) (l : list str) : result federation_error () :=
  match l with
  | [] => Ok ()
  | fid :: l' =>
      raise_if (bool_decide (fid ∈ seen)) (ChainWalkerCycleError fid);;
      check_acyclic ({[ fid ]} ∪ seen) l'
  end.

Fixpoint check_all (l : list str) : result federation_error () :=
  match l with
  | [] => Ok ()
  | fid :: l' => check_ftd_id fid;; check_all l'
  end.

Section walker.
Context {R : Type} `{RouteRegistry R}.
Variable ctx : FederationContext R.

(** One turn of the hop loop. *)
Definition walk_hop (hop_idx : nat) (src tgt : str)
    : result federation_error ChainHopVerdict :=
  rid ← derive_chain_hop_route_id src tgt;
  match lookup (route_registry ctx) rid with
  | None => Err FederationRouteUnknownError
  | Some NotAnEntry => Err ChainWalkerSchemaError
  | Some (Entry entry) =>
      raise_if (negb (str_eqb (source_ftd_id entry) src)) FederationRouteUnknownError;;
      active ← is_active_at entry (eval_now ctx);
      raise_if (negb active) FederationRouteExpiredError;;
      Ok (MkHop hop_idx src tgt rid (wat_anchor_manifest_id entry))
  end.

Fixpoint walk_hops (hop_idx : nat) (full_sequence : list str)
    : result federation_error (list ChainHopVerdict) :=
  match full_sequence with
  | src :: ((tgt :: _) as rest) =>
      h ← walk_hop hop_idx src tgt;
      hs ← walk_hops (S hop_idx) rest;
      Ok (h :: hs)
  | _ => Ok []
  end.

(** The constructor's check of [max_depth], then [walk]. *)
Definition new_walker (max_depth : Z) : result federation_error () :=
  raise_if (max_depth <? 0) ChainWalkerArgumentError.

Definition walk (max_depth : Z) (target : str) (intermediates : list str)
    : result federation_error ChainVerdict :=
  check_ftd_id target;;
  check_all intermediates;;
  let ctx_ftd_id := ftd_id (federated_resolve ctx) in
  if bool_decide (intermediates = [] ∧ target = ctx_ftd_id) then
    Ok (MkVerdict target [] [])
  else
    let full_sequence := ctx_ftd_id :: intermediates ++ [target] in
    check_acyclic ∅ full_sequence;;
    let hop_count := Z.of_nat (length full_sequence) - 1 in
    raise_if (max_depth <? hop_count) (ChainWalkerDepthError hop_count);;
    hs ← walk_hops 0 full_sequence;
    Ok (MkVerdict target hs (hop_anchor <$> hs)).

Definition walk_delegation_chain (target : str) (intermediates : option (list str))
    (max_depth : Z) : result federation_error ChainVerdict :=
  new_walker max_depth;;
  walk max_depth target (default [] intermediates).
End walker.

(** ** Specification *)

Definition hop_id (src tgt : str) : str := src ++ CHAIN_HOP_SEPARATOR ++ tgt.

Section spec.
Context {R : Type} `{RouteRegistry R} (ctx : FederationContext R).

(** The hops of a chain, each with the registry entry that witnesses it. *)
Inductive chain : nat → list str → list ChainHopVerdict → Prop :=
| chain_end i a : chain i [a] []
| chain_hop i src tgt rest e hs :
    did_arg src → did_arg tgt →
    route_ok ctx src (hop_id src tgt) e →
    chain (S i) (tgt :: rest) hs →
    chain i (src :: tgt :: rest)
      (MkHop i src tgt (hop_id src tgt) (wat_anchor_manifest_id e) :: hs).

Lemma check_ftd_id_ok fid x : check_ftd_id fid = Ok x ↔ did_arg fid.
Proof.
  unfold check_ftd_id. destruct x. split.
  - intros Hc. run_ok. rename select (str_empty fid = false) into He.
    by apply raise_if_ok, negb_false_iff, did_arg_iff in Hc || (apply negb_false_iff, did_arg_iff in Hc).
  - intros Hd. rewrite (did_arg_nonempty _ Hd). by apply did_arg_iff in Hd as ->.
Qed.

Lemma derive_ok src tgt rid :
  derive_chain_hop_route_id src tgt = Ok rid ↔
  did_arg src ∧ did_arg tgt ∧ rid = hop_id src tgt.
Proof.
  unfold derive_chain_hop_route_id. split.
  - intros Hd. run_ok. rewrite <- !did_arg_iff.
    rename select (negb (_DID_RE src) = false) into Hr1.
    rename select (negb (_DID_RE tgt) = false) into Hr2.
    apply negb_false_iff in Hr1, Hr2. done.
  - intros (Hs & Ht & ->).
    rewrite (did_arg_nonempty _ Hs), (did_arg_nonempty _ Ht).
    by apply did_arg_iff in Hs as ->, Ht as ->.
Qed.

Lemma check_all_ok l x : check_all l = Ok x ↔ Forall did_arg l.
Proof.
  destruct x. induction l as [|fid l IH]; cbn [check_all]; [done|].
  rewrite Forall_cons, <- IH, <- (check_ftd_id_ok fid ()).
  destruct (check_ftd_id fid) as [[]|]; cbn; naive_solver.
Qed.

Lemma check_acyclic_ok seen l x :
  check_acyclic seen l = Ok x ↔ NoDup l ∧ ∀ fid, fid ∈ l → fid ∉ seen.
Proof.
  destruct x. revert seen. induction l as [|fid l IH]; intros seen; cbn [check_acyclic].
  { split; [|done]. intros _. split; [constructor|]. by intros ? ?%elem_of_nil. }
  destruct (decide (fid ∈ seen)) as [Hs|Hs].
  - rewrite bool_decide_true by done. cbn. split; [done|].
    intros [_ Hall]. destruct (Hall fid); [left|done].
  - rewrite bool_decide_false by done. cbn. rewrite IH, NoDup_cons. set_solver.
Qed.

Lemma walk_hop_ok i src tgt h :
  walk_hop ctx i src tgt = Ok h ↔
  did_arg src ∧ did_arg tgt ∧
  ∃ e, route_ok ctx src (hop_id src tgt) e ∧
    h = MkHop i src tgt (hop_id src tgt) (wat_anchor_manifest_id e).
Proof.
  unfold walk_hop, route_ok. split.
  - intros Hw. run_ok. rename select (derive_chain_hop_route_id _ _ = _) into Hd.
    apply derive_ok in Hd as (? & ? & ->). split_and!; [done|done|].
    destruct (lookup (route_registry ctx) _) as [[e|]|]; try done. run_ok.
    rename select (negb (str_eqb _ _) = false) into Hs.
    apply negb_false_iff, bool_decide_eq_true in Hs.
    rename select (is_active_at _ _ = _) into Ha.
    rename select (negb _ = false) into Hb. apply negb_false_iff in Hb as ->.
    apply is_active_at_ok in Ha. by exists e.
  - intros (Hs & Ht & e & (Hl & He & Ha%is_active_at_ok) & ->).
    rewrite (proj2 (derive_ok src tgt _)) by done. cbn [mbind result_bind].
    rewrite Hl. unfold str_eqb. rewrite bool_decide_true by done. cbn.
    by rewrite Ha.
Qed.

Lemma walk_hops_cons i src tgt rest :
  walk_hops ctx i (src :: tgt :: rest) =
  (h ← walk_hop ctx i src tgt; hs ← walk_hops ctx (S i) (tgt :: rest); Ok (h :: hs)).
Proof. done. Qed.

Lemma walk_hops_ok i seq hs :
  seq ≠ [] → walk_hops ctx i seq = Ok hs ↔ chain i seq hs.
Proof.
  revert i hs. induction seq as [|src rest IH]; intros i hs Hne; [done|].
  destruct rest as [|tgt rest].
  { split; [intros [= <-]; constructor|by inversion 1]. }
  rewrite walk_hops_cons.
  split.
  - intros Hw. run_ok. rename select (walk_hop _ _ _ _ = _) into Hh.
    apply walk_hop_ok in Hh as (? & ? & e & ? & ->).
    constructor; [done|done|done|]. by apply IH.
  - inversion 1 as [|? ? ? ? e hs' Hs Ht Hr Hc]; subst.
    rewrite (proj2 (walk_hop_ok i src tgt _)) by eauto. cbn [mbind result_bind].
    apply IH in Hc; [|done]. by rewrite Hc.
Qed.

(** The chains a walk accepts, with their verdicts. *)
Definition accepted (max_depth : Z) (target : str) (mid : list str)
    (v : ChainVerdict) : Prop :=
  let here := ftd_id (federated_resolve ctx) in
  did_arg target ∧ Forall did_arg mid ∧
  (mid = [] ∧ target = here ∧ v = MkVerdict target [] [] ∨
   ¬ (mid = [] ∧ target = here) ∧ NoDup (here :: mid ++ [target]) ∧
   Z.of_nat (length mid) + 1 ≤ max_depth ∧
   ∃ hs, chain 0 (here :: mid ++ [target]) hs ∧
     v = MkVerdict target hs (hop_anchor <$> hs)).

Lemma walk_ok max_depth target mid v :
  walk ctx max_depth target mid = Ok v ↔ accepted max_depth target mid v.
Proof.
  unfold walk, accepted. set (here := ftd_id _).
  assert (Z.of_nat (length (here :: mid ++ [target])) - 1 =
          Z.of_nat (length mid) + 1) as Hlen.
  { cbn [length]. rewrite length_app. cbn. lia. }
  rewrite Hlen. split.
  - intros Hw. apply bind_ok_iff in Hw as (x1 & Ht%check_ftd_id_ok & Hw).
    apply bind_ok_iff in Hw as (x2 & Hm%check_all_ok & Hw).
    split_and!; [done|done|]. case_bool_decide as Hz.
    { destruct Hz. injection Hw as <-. by left. }
    right. split; [done|]. apply bind_ok_iff in Hw as (x3 & Ha & Hw).
    apply check_acyclic_ok in Ha as [Hnd _].
    apply bind_ok_iff in Hw as (x4 & Hd%raise_if_ok & Hw).
    apply Z.ltb_ge in Hd. apply bind_ok_iff in Hw as (hs & Hh & [= <-]).
    apply walk_hops_ok in Hh; [|done]. split_and!; [done|done|by exists hs].
  - intros (Ht & Hm & Hc).
    rewrite (proj2 (check_ftd_id_ok target ())), (proj2 (check_all_ok mid ())) by done.
    cbn [mbind result_bind].
    destruct Hc as [(-> & -> & ->)|(Hz & Hnd & Hd & hs & Hh & ->)].
    { by rewrite bool_decide_true. }
    rewrite bool_decide_false by done.
    rewrite (proj2 (check_acyclic_ok _ _ ())) by (split; [done|set_solver]).
    cbn [mbind result_bind]. rewrite (proj2 (Z.ltb_ge _ _)) by done.
    cbn [raise_if mbind result_bind].
    apply walk_hops_ok in Hh; [|done]. by rewrite Hh.
Qed.

(** C36: The walk accepts exactly the chains that are acyclic, at most
    [max_depth] hops long and witnessed hop by hop by a registered route that
    is bound to the hop's source and active at the pinned time (or the empty
    chain when the target is the context's own FTD), and its verdict lists
    those hops in order with their anchors. *)
Theorem walk_accepts_iff max_depth target mid v :
  walk_delegation_chain ctx target (Some mid) max_depth = Ok v ↔
  0 ≤ max_depth ∧ accepted max_depth target mid v.
Proof.
  unfold walk_delegation_chain, new_walker. rewrite <- walk_ok.
  change (default [] (Some mid)) with mid.
  destruct (Z.ltb_spec max_depth 0); cbn [raise_if mbind result_bind]; [|naive_solver].
  split; [done|lia].
Qed.

Lemma chain_length i seq hs : chain i seq hs → length seq = S (length hs).
Proof. induction 1; cbn in *; lia. Qed.

(** A chain that is accepted is no deeper than the bound, its hop sources are
    pairwise distinct, and a larger bound accepts it with the same verdict. *)
Theorem walk_depth_monotone d1 d2 target mid v :
  walk_delegation_chain ctx target mid d1 = Ok v → d1 ≤ d2 →
  Z.of_nat (depth v) ≤ d1 ∧ NoDup (hop_source <$> hops v) ∧
  walk_delegation_chain ctx target mid d2 = Ok v.
Proof.
  unfold walk_delegation_chain, new_walker, depth. intros Hw Hd.
  apply bind_ok_iff in Hw as (x & Hn%raise_if_ok & Hw). apply Z.ltb_ge in Hn.
  rewrite (proj2 (Z.ltb_ge d2 0)) by lia. cbn [raise_if mbind result_bind].
  rewrite walk_ok in Hw. destruct Hw as (Ht & Hm & Hc).
  assert (accepted d2 target (default [] mid) v) as Ha.
  { split_and!; [done|done|]. destruct Hc as [Hc|(? & ? & ? & Hc)]; [by left|right].
    split_and!; [done|done|lia|done]. }
  apply walk_ok in Ha. rewrite Ha.
  destruct Hc as [(_ & _ & ->)|(_ & Hnd & Hlen & hs & Hh & ->)]; cbn [hops].
  { split_and!; [done|constructor|done]. }
  apply chain_length in Hh as Hl. cbn [length] in Hl. rewrite length_app in Hl. cbn in Hl.
  split_and!; [lia| |done].
  assert (∃ t, ftd_id (federated_resolve ctx) :: default [] mid ++ [target] =
            (hop_source <$> hs) ++ t) as [t Et].
  { clear -Hh. induction Hh as [i a|i src tgt rest e hs _ _ _ _ [t IH]]; csimpl; eauto.
    exists t. by rewrite IH. }
  rewrite Et in Hnd. by apply NoDup_app in Hnd as [? _].
Qed.

(** For a target other than the context's FTD, the one-hop walk and the
    [federation_route] predicate on the hop's canonical route agree. *)
Theorem walk_one_hop_is_route max_depth target :
  let here := ftd_id (federated_resolve ctx) in
  1 ≤ max_depth → did_arg here → did_arg target → target ≠ here →
  is_ok (walk_delegation_chain ctx target None max_depth) = true ↔
  evaluate_federation_route ctx (hop_id here target) = Ok true.
Proof.
  cbv zeta. intros Hd Hh Ht Hne. rewrite evaluate_route_ok.
  unfold walk_delegation_chain, new_walker.
  rewrite (proj2 (Z.ltb_ge max_depth 0)) by lia. cbn [raise_if mbind result_bind default].
  pose proof (walk_ok max_depth target []) as Hw. split.
  - destruct (walk ctx max_depth target []) as [v|e] eqn:Ew; [|done]. intros _.
    destruct (proj1 (Hw v) eq_refl) as (_ & _ & [(_ & ? & _)|(_ & _ & _ & hs & Hc & _)]);
      [done|].
    inversion Hc as [|? ? ? ? e hs' _ _ Hr _]; subst. split_and!; [done| |by exists e].
    unfold hop_id, CHAIN_HOP_SEPARATOR. destruct (ftd_id _); done.
  - intros (_ & _ & e & Hr).
    assert (accepted max_depth target []
              (MkVerdict target
                 [MkHop 0 (ftd_id (federated_resolve ctx)) target
                    (hop_id (ftd_id (federated_resolve ctx)) target)
                    (wat_anchor_manifest_id e)] [wat_anchor_manifest_id e])) as Ha.
    { split_and!; [done|done|]. right. split_and!; [by intros [_ ?]| |cbn; lia|].
      - cbn. repeat constructor; [|by intros ?%elem_of_nil].
        intros ?%list_elem_of_singleton. congruence.
      - eexists. split; [by constructor; [..|constructor]|done]. }
    apply Hw in Ha. by rewrite Ha.
Qed.
End spec.

Lemma did_no_bar s : did_arg s → 124 ∉ s.
Proof.
  assert (∀ s, did_syntax s → 124 ∉ s) as Hs.
  { clear. intros s (m & t & -> & _ & _ & Hm & Ht).
    rewrite forallb_forall in Hm, Ht. rewrite !elem_of_app.
    intros [Hin|[Hin|[Hin|Hin]]].
    - revert Hin. ulit. set_solver.
    - apply list_elem_of_In, Hm in Hin. done.
    - revert Hin. ulit. set_solver.
    - apply list_elem_of_In, Ht in Hin. done. }
  intros [?|(s' & -> & ?)]; [by apply Hs|].
  rewrite elem_of_app. intros [?|?%list_elem_of_singleton]; [by eapply Hs|done].
Qed.

(** The separator cannot occur in a DID, so the identifiers of two hops
    coincide only for the same source and target. *)
Theorem hop_route_id_injective s1 t1 s2 t2 rid :
  derive_chain_hop_route_id s1 t1 = Ok rid →
  derive_chain_hop_route_id s2 t2 = Ok rid →
  s1 = s2 ∧ t1 = t2.
Proof.
  intros (Hs1 & Ht1 & ->)%derive_ok (Hs2 & Ht2 & He)%derive_ok.
  unfold hop_id, CHAIN_HOP_SEPARATOR in He.
  assert (∀ s t, did_arg s → did_arg t → split_on 124 (s ++ u "-|->" ++ t) =
            [s ++ [45]; [45; 62] ++ t]) as Hsplit.
  { clear. intros s t Hs Ht. apply did_no_bar in Hs, Ht.
    assert (s ++ u "-|->" ++ t = (s ++ [45]) ++ 124 :: [45; 62] ++ t) as ->
      by (ulit; by rewrite <- app_assoc).
    rewrite split_on_app by set_solver. by rewrite split_on_nil by set_solver. }
  apply (f_equal (split_on 124)) in He. rewrite !Hsplit in He by done.
  injection He as He ->. by apply app_inj_2 in He as [-> _].
Qed.

(** ** A concrete federation: A -> B -> C *)

Definition ftd_a : str := u "did:wakir:a".
Definition ftd_b : str := u "did:wakir:b".
Definition ftd_c : str := u "did:wakir:c".

Definition route (s t : str) : RouteRegistryEntry :=
  MkEntry (hop_id s t) s (Aware 100) (Some (Aware 200)) (Some (u "wat-1")).

Definition registry : InMemoryRouteRegistry :=
  add (add ∅ (route ftd_a ftd_b)) (route ftd_b ftd_c).

Definition context : FederationContext InMemoryRouteRegistry :=
  MkContext (MkResolve ftd_a (Aware 100)) registry (Aware 150).

Definition verdict_abc : ChainVerdict :=
  ok_or (MkVerdict [] [] []) (walk_delegation_chain context ftd_c (Some [ftd_b]) 2).

Lemma did_abc : did_arg ftd_a ∧ did_arg ftd_b ∧ did_arg ftd_c.
Proof. by rewrite <- !did_arg_iff. Qed.

Lemma walk_depth_monotone_witness :
  Z.of_nat (depth verdict_abc) ≤ 2 ∧ NoDup (hop_source <$> hops verdict_abc) ∧
  walk_delegation_chain context ftd_c (Some [ftd_b]) 4 = Ok verdict_abc.
Proof.
  apply (walk_depth_monotone context 2 4 ftd_c (Some [ftd_b]) verdict_abc);
    [vm_compute; reflexivity|lia].
Defined.

Lemma walk_one_hop_is_route_witness :
  is_ok (walk_delegation_chain context ftd_b None 1) = true ↔
  evaluate_federation_route context (hop_id ftd_a ftd_b) = Ok true.
Proof.
  apply (walk_one_hop_is_route context 1 ftd_b);
    [lia|apply did_abc|apply did_abc|vm_compute; discriminate].
Defined.

Lemma hop_route_id_injective_witness : ftd_a = ftd_a ∧ ftd_b = ftd_b.
Proof.
  apply (hop_route_id_injective ftd_a ftd_b ftd_a ftd_b (hop_id ftd_a ftd_b));
    vm_compute; reflexivity.
Defined.
End N3.
