(* ===== verification/CrossOrg.v ===== *)
(** * Cross-organisation attenuation ([wirelang/federation/cross_org_attenuation_verifier.py])

    The three detectors run on an accepted delegation chain: its length, the
    bridges revoked before the mint, and caveats the verifier expects but the
    issuer did not state.

    The theorems: the exact acceptance condition, that the revocation detector
    keeps the earliest marker of a bridge, and what a walk followed by the
    verifier guarantees of every hop. *)

From S2P Require Import Prelude PyStr PyTime FederationEval ChainWalk.
From Stdlib Require Import ZArith Lia.

Open Scope Z_scope.

Inductive cross_org_error : Type :=
| CrossOrgArgumentError
| BridgeRevocationReplayError (hop_index : nat)
| CrossOrgCaveatMismatchError
| CrossOrgChainLengthLimitError (depth : nat)
| CrossOrgDatetimeTypeError.          (* comparing aware and naive datetimes *)

(** [I]: the identifiers of the two trust domains, which nothing checks. *)
Record BridgeRevocationMarker (I : Type) := MkMarker {
  marker_source : I;
  marker_target : I;
  marker_revoked_at : datetime;
}.
Arguments MkMarker {I} _ _ _.
Arguments marker_source {I} _.
Arguments marker_target {I} _.
Arguments marker_revoked_at {I} _.

(** [A]: the hashable argument objects, compared with [==]. *)
Record CaveatExpectation (A : Type) := MkCaveat {
  predicate : str;
  arguments : list A;
}.
Arguments MkCaveat {A} _ _.
Arguments predicate {A} _.
Arguments arguments {A} _.

#[export] Instance caveat_eq_dec {A} `{EqDecision A} : EqDecision (CaveatExpectation A).
Proof. solve_decision. Defined.

(** The verdict; its two other attributes are computed from the chain verdict. *)
Record CrossOrgVerdict := MkCrossVerdict { n3_verdict : N3.ChainVerdict }.
Definition boundary_count (v : CrossOrgVerdict) : nat := N3.depth (n3_verdict v).
Definition cross_anchor_chain (v : CrossOrgVerdict) : list (option str) :=
  N3.wat_anchor_chain (n3_verdict v).

Module CrossOrg.

Definition CROSS_ORG_MAX_HOPS_DEFAULT : Z := 3.

Definition lt (a b : datetime) : result cross_org_error bool :=
  of_option CrossOrgDatetimeTypeError (dt_lt a b).

Definition bridge_was_revoked_for_mint {I} (m : BridgeRevocationMarker I) (minted_at : datetime)
    : result cross_org_error bool :=
  later ← lt minted_at (marker_revoked_at m); Ok (negb later).

Definition bridge (m : BridgeRevocationMarker str) : str * str :=
  (marker_source m, marker_target m).

(** The earliest marker of each bridge. *)
Definition note_marker (map : gmap (str * str) (BridgeRevocationMarker str))
    (m : BridgeRevocationMarker str)
    : result cross_org_error (gmap (str * str) (BridgeRevocationMarker str)) :=
  match map !! bridge m with
  | None => Ok (<[bridge m := m]> map)
  | Some existing =>
      earlier ← lt (marker_revoked_at m) (marker_revoked_at existing);
      Ok (if earlier : bool then <[bridge m := m]> map else map)
  end.

Fixpoint revocation_map (map : gmap (str * str) (BridgeRevocationMarker str))
    (markers : list (BridgeRevocationMarker str))
    : result cross_org_error (gmap (str * str) (BridgeRevocationMarker str)) :=
  match markers with
  | [] => Ok map
  | m :: rest => map' ← note_marker map m; revocation_map map' rest
  end.

Fixpoint check_hops (map : gmap (str * str) (BridgeRevocationMarker str)) (minted_at : datetime)
    (hops : list N3.ChainHopVerdict) : result cross_org_error () :=
  match hops with
  | [] => Ok ()
  | h :: rest =>
      match map !! (N3.hop_source h, N3.hop_target h) with
      | None => Ok ()
      | Some m =>
          revoked ← bridge_was_revoked_for_mint m minted_at;
          raise_if revoked (BridgeRevocationReplayError (N3.hop_index h))
      end;;
      check_hops map minted_at rest
  end.

Definition _detector_1_bridge_revocation (v : N3.ChainVerdict) (minted_at : datetime)
    (markers : list (BridgeRevocationMarker str)) : result cross_org_error () :=
  map ← revocation_map ∅ markers;
  check_hops map minted_at (N3.hops v).

Section caveats.
Context {A : Type} `{EqDecision A}.

Definition _detector_2_caveat_mismatch (issuer expected : list (CaveatExpectation A))
    : result cross_org_error () :=
  raise_if (existsb (λ c, negb (bool_decide (c ∈ issuer))) expected)
    CrossOrgCaveatMismatchError.

Definition _detector_3_chain_length_limit (max_hops : Z) (v : N3.ChainVerdict)
    : result cross_org_error () :=
  raise_if (max_hops <? Z.of_nat (N3.depth v)) (CrossOrgChainLengthLimitError (N3.depth v)).

(** The constructor's check, then [verify] with its optional lists. *)
Definition new_verifier (max_hops : Z) : result cross_org_error () :=
  raise_if (max_hops <? 0) CrossOrgArgumentError.

Definition verify (max_hops : Z) (v : N3.ChainVerdict) (minted_at : datetime)
    (markers : option (list (BridgeRevocationMarker str)))
    (issuer expected : option (list (CaveatExpectation A)))
    : result cross_org_error CrossOrgVerdict :=
  raise_if (is_naive minted_at) CrossOrgArgumentError;;
  _detector_3_chain_length_limit max_hops v;;
  _detector_1_bridge_revocation v minted_at (default [] markers);;
  _detector_2_caveat_mismatch (default [] issuer) (default [] expected);;
  Ok (MkCrossVerdict v).

Definition verify_cross_org_attenuation (max_hops : Z) (v : N3.ChainVerdict)
    (minted_at : datetime) (markers : option (list (BridgeRevocationMarker str)))
    (issuer expected : option (list (CaveatExpectation A)))
    : result cross_org_error CrossOrgVerdict :=
  new_verifier max_hops;;
  verify max_hops v minted_at markers issuer expected.
End caveats.

(** ** The revocation detector *)

Definition aware_marker (m : BridgeRevocationMarker str) : Prop :=
  is_naive (marker_revoked_at m) = false.

(** The instant of an aware time. *)
Definition instant (d : datetime) : Z := match d with Aware t | Naive t => t end.

(** The map holds, for each bridge, a marker among those seen that is not later
    than any other of that bridge. *)
Definition earliest (map : gmap (str * str) (BridgeRevocationMarker str))
    (seen : list (BridgeRevocationMarker str)) : Prop :=
  ∀ k, match map !! k with
       | None => ∀ m, m ∈ seen → bridge m ≠ k
       | Some m0 => m0 ∈ seen ∧ bridge m0 = k ∧ ∀ m, m ∈ seen → bridge m = k →
           instant (marker_revoked_at m0) ≤ instant (marker_revoked_at m)
       end.

Lemma note_marker_ok map seen m :
  earliest map seen → Forall aware_marker (m :: seen) →
  ∃ map', note_marker map m = Ok map' ∧ earliest map' (m :: seen).
Proof.
  intros He [Hm Hs]%Forall_cons. pose proof (He (bridge m)) as Hk. unfold note_marker.
  destruct (map !! bridge m) as [m0|] eqn:E0.
  - destruct Hk as (Hin & Hb & Hmin). rewrite Forall_forall in Hs.
    pose proof (Hs _ Hin) as Ha. unfold aware_marker in Hm, Ha. unfold lt.
    destruct (marker_revoked_at m) as [t|] eqn:Et; [|done].
    destruct (marker_revoked_at m0) as [t0|] eqn:Et0; [|done]. cbn [dt_lt of_option].
    rewrite bind_Ok. eexists. split; [done|]. intros k. specialize (He k).
    destruct (Z.ltb_spec t t0) as [Hlt|Hge].
    + rewrite lookup_insert. case_decide as Hkm; [subst k|].
      * split_and!; [left|done|]. intros m1 [->|Hin1]%elem_of_cons Hb1; [done|].
        rewrite Et. specialize (Hmin m1 Hin1 Hb1). rewrite ?Et0 in Hmin. simpl in *. lia.
      * destruct (map !! k) as [m1|].
        -- destruct He as (? & ? & Hmin1). split_and!; [by right|done|].
           intros m2 [->|?]%elem_of_cons ?; [congruence|auto].
        -- intros m2 [->|?]%elem_of_cons; [done|auto].
    + destruct (map !! k) as [m1|] eqn:E1.
      * destruct He as (? & Hb1 & Hmin1). split_and!; [by right|done|].
        intros m2 [->|?]%elem_of_cons Hb2; [|auto].
        rewrite <- Hb2, E0 in E1. injection E1 as <-. rewrite Et, Et0. simpl. lia.
      * intros m2 [->|?]%elem_of_cons; [congruence|auto].
  - eexists. split; [done|]. intros k. specialize (He k). rewrite lookup_insert.
    case_decide as Hkm; [subst k|].
    + split_and!; [left|done|]. intros m1 [->|Hin1]%elem_of_cons Hb1; [done|].
      by destruct (Hk m1 Hin1).
    + destruct (map !! k) as [m1|].
      * destruct He as (? & ? & Hmin1). split_and!; [by right|done|].
        intros m2 [->|?]%elem_of_cons ?; [congruence|auto].
      * intros m2 [->|?]%elem_of_cons; [done|auto].
Qed.

Lemma revocation_map_ok map seen markers :
  earliest map seen → Forall aware_marker (reverse markers ++ seen) →
  ∃ map', revocation_map map markers = Ok map' ∧ earliest map' (reverse markers ++ seen).
Proof.
  revert map seen. induction markers as [|m l IH]; intros map seen He Hf; [eauto|].
  rewrite reverse_cons, <- app_assoc in Hf |- *. cbn [revocation_map].
  destruct (note_marker_ok map seen m He) as (map1 & -> & He1).
  { by apply Forall_app in Hf as [_ Hf]. }
  rewrite bind_Ok. by apply IH.
Qed.

(** With aware times, the bridge of the hop has no marker at or before the mint. *)
Definition hop_clear (markers : list (BridgeRevocationMarker str)) (t : Z)
    (h : N3.ChainHopVerdict) : Prop :=
  ∀ m, m ∈ markers → bridge m = (N3.hop_source h, N3.hop_target h) →
    t < instant (marker_revoked_at m).

Lemma check_hops_ok map seen t hops x :
  earliest map seen → Forall aware_marker seen →
  check_hops map (Aware t) hops = Ok x ↔ Forall (hop_clear seen t) hops.
Proof.
  intros He Hs. destruct x. induction hops as [|h hops IH]; cbn [check_hops]; [done|].
  rewrite Forall_cons, <- IH. pose proof (He (N3.hop_source h, N3.hop_target h)) as Hk.
  unfold hop_clear. destruct (map !! _) as [m|].
  - destruct Hk as (Hin & Hb & Hmin). rewrite Forall_forall in Hs.
    pose proof (Hs _ Hin) as Ha. unfold aware_marker in Ha.
    unfold bridge_was_revoked_for_mint, lt.
    destruct (marker_revoked_at m) as [r|] eqn:Er; [|done]. cbn [dt_lt of_option].
    rewrite !bind_Ok. destruct (Z.ltb_spec t r) as [Hlt|Hge]; cbn [negb raise_if].
    + rewrite bind_Ok. split; [|by intros [_ ?]]. intros ?. split; [|done].
      intros m1 Hin1 Hb1. specialize (Hmin m1 Hin1 Hb1). simpl in Hmin. lia.
    + split; [done|]. intros [Hc _]. specialize (Hc m Hin Hb). rewrite Er in Hc.
      simpl in Hc. lia.
  - rewrite bind_Ok. split; [|by intros [_ ?]]. intros ?. split; [|done].
    intros m1 Hin1 Hb1. by destruct (Hk m1 Hin1).
Qed.

Lemma detector_1_ok v t markers x :
  Forall aware_marker markers →
  _detector_1_bridge_revocation v (Aware t) markers = Ok x ↔
  Forall (hop_clear markers t) (N3.hops v).
Proof.
  intros Hf. unfold _detector_1_bridge_revocation.
  destruct (revocation_map_ok ∅ [] markers) as (map & -> & He).
  { intros k. rewrite lookup_empty. by intros m ?%elem_of_nil. }
  { rewrite app_nil_r. by apply Forall_reverse. }
  rewrite app_nil_r in He. rewrite bind_Ok, (check_hops_ok _ _ t _ x He)
    by (by apply Forall_reverse).
  unfold hop_clear. setoid_rewrite elem_of_reverse. done.
Qed.

Section acceptance.
Context {A : Type} `{EqDecision A}.
Implicit Types issuer expected : list (CaveatExpectation A).

Lemma detector_2_ok issuer expected x :
  _detector_2_caveat_mismatch issuer expected = Ok x ↔ expected ⊆ issuer.
Proof.
  unfold _detector_2_caveat_mismatch. rewrite raise_if_ok. split.
  - intros He c Hc. destruct (decide (c ∈ issuer)); [done|]. exfalso.
    assert (existsb (λ c, negb (bool_decide (c ∈ issuer))) expected = true) as Ht; [|congruence].
    apply existsb_exists. exists c. split; [by apply list_elem_of_In|].
    by rewrite bool_decide_false.
  - intros Hs. apply not_true_is_false. rewrite existsb_exists.
    intros (c & Hc%list_elem_of_In & Hn). rewrite bool_decide_true in Hn; [done|auto].
Qed.

Lemma verify_ok max_hops v t markers issuer expected x :
  Forall aware_marker markers →
  verify max_hops v (Aware t) (Some markers) (Some issuer) (Some expected) = Ok x ↔
  x = MkCrossVerdict v ∧ Z.of_nat (N3.depth v) ≤ max_hops ∧
  Forall (hop_clear markers t) (N3.hops v) ∧ expected ⊆ issuer.
Proof.
  intros Hf. unfold verify, _detector_3_chain_length_limit. cbn [is_naive raise_if default].
  rewrite bind_Ok, <- (detector_1_ok v t markers () Hf), <- (detector_2_ok issuer expected ()).
  destruct (Z.ltb_spec max_hops (Z.of_nat (N3.depth v))); cbn [raise_if];
    [split; [done|lia]|]. rewrite bind_Ok.
  destruct (_detector_1_bridge_revocation _ _ _) as [[]|]; [|naive_solver].
  rewrite bind_Ok. destruct (_detector_2_caveat_mismatch _ _) as [[]|]; [|naive_solver].
  rewrite bind_Ok. naive_solver.
Qed.

(** With time-zone-aware markers the verifier accepts exactly when the mint time
    is aware, the chain crosses at most the allowed number of boundaries, no
    hop's bridge has a marker at or before the mint, and every caveat the
    verifier expects is one the issuer stated; it returns the chain verdict. *)
Theorem cross_org_accepts_iff max_hops v minted_at markers issuer expected x :
  Forall aware_marker markers →
  verify max_hops v minted_at (Some markers) (Some issuer) (Some expected) = Ok x ↔
  ∃ t, minted_at = Aware t ∧ x = MkCrossVerdict v ∧
    Z.of_nat (N3.depth v) ≤ max_hops ∧
    Forall (hop_clear markers t) (N3.hops v) ∧ expected ⊆ issuer.
Proof.
  intros Hf. destruct minted_at as [t|t]; [|by split; [|intros (? & ? & _)]].
  rewrite verify_ok by done. split; [intros ?; by exists t|by intros (? & [= <-] & ?)].
Qed.

(** ** Walking a chain and then verifying it *)

Context {R : Type} `{RouteRegistry R} (ctx : FederationContext R).

Lemma chain_hops_registered i seq hs h :
  N3.chain ctx i seq hs → h ∈ hs →
  ∃ e, N2.route_ok ctx (N3.hop_source h) (N3.hop_id (N3.hop_source h) (N3.hop_target h)) e.
Proof.
  induction 1 as [|? src tgt rest e hs Hs Ht Hr Hc IH]; [by intros ?%elem_of_nil|].
  intros [->|Hin]%elem_of_cons; [by exists e|auto].
Qed.

Lemma chain_hops_length i seq hs : N3.chain ctx i seq hs → length seq = S (length hs).
Proof. induction 1; simpl in *; lia. Qed.

(** C18: A delegation that the walker accepts and the verifier confirms is sound: it
    has at most the smaller of the two bounds of hops, and every hop has a
    registered route of its source, active at the evaluation time, whose bridge
    no marker revokes at or before the mint.  A bridge revoked after the mint does
    not refuse the delegation, see [revoked_since_accepted]. *)
Theorem delegation_sound max_depth max_hops target mid v t markers issuer expected x :
  Forall aware_marker markers →
  N3.walk_delegation_chain ctx target (Some mid) max_depth = Ok v →
  verify_cross_org_attenuation max_hops v (Aware t) (Some markers) (Some issuer)
    (Some expected) = Ok x →
  Z.of_nat (N3.depth v) ≤ Z.min max_depth max_hops ∧
  ∀ h, h ∈ N3.hops v →
    (∃ e, N2.route_ok ctx (N3.hop_source h)
       (N3.hop_id (N3.hop_source h) (N3.hop_target h)) e) ∧
    ∀ m, m ∈ markers → bridge m = (N3.hop_source h, N3.hop_target h) →
      t < instant (marker_revoked_at m).
Proof.
  intros Hf Hw Hv. unfold N3.walk_delegation_chain, N3.new_walker in Hw.
  apply bind_ok_iff in Hw as ([] & Hpos%raise_if_ok%Z.ltb_ge & Hw%N3.walk_ok).
  unfold verify_cross_org_attenuation in Hv. apply bind_ok_iff in Hv as ([] & _ & Hv).
  apply verify_ok in Hv as (_ & Hmax & Hclear & _); [|done].
  rewrite Forall_forall in Hclear.
  destruct Hw as (_ & _ & [(_ & _ & ->)|(_ & _ & Hd & hs & Hc & ->)]).
  { split; [unfold N3.depth in *; simpl in *; lia|]. by intros h ?%elem_of_nil. }
  pose proof (chain_hops_length _ _ _ Hc) as Hlen.
  rewrite length_cons, length_app in Hlen. unfold N3.depth in *. simpl in *.
  split; [lia|]. intros h Hh. split; [by eapply chain_hops_registered|]. by apply Hclear.
Qed.
End acceptance.
End CrossOrg.

Module CrossOrgExample.

(** The chain A -> B -> C minted at 100; the bridge A -> B is revoked at 120. *)
Definition markers : list (BridgeRevocationMarker str) :=
  [MkMarker N3.ftd_a N3.ftd_b (Aware 130); MkMarker N3.ftd_a N3.ftd_b (Aware 120)].
Definition caveat : CaveatExpectation str := MkCaveat (u "peer_org") [N3.ftd_b].
Definition verdict : CrossOrgVerdict := MkCrossVerdict N3.verdict_abc.

Lemma markers_aware : Forall CrossOrg.aware_marker markers.
Proof. by repeat constructor. Qed.

Lemma cross_org_accepts_iff_witness :
  CrossOrg.verify 3 N3.verdict_abc (Aware 100) (Some markers) (Some [caveat]) (Some [caveat])
    = Ok verdict ↔
  ∃ t, Aware 100 = Aware t ∧ verdict = MkCrossVerdict N3.verdict_abc ∧
    Z.of_nat (N3.depth N3.verdict_abc) ≤ 3 ∧
    Forall (CrossOrg.hop_clear markers t) (N3.hops N3.verdict_abc) ∧ [caveat] ⊆ [caveat].
Proof. apply CrossOrg.cross_org_accepts_iff, markers_aware. Defined.

Lemma delegation_sound_witness :
  Z.of_nat (N3.depth N3.verdict_abc) ≤ Z.min 2 3 ∧
  ∀ h, h ∈ N3.hops N3.verdict_abc →
    (∃ e, N2.route_ok N3.context (N3.hop_source h)
       (N3.hop_id (N3.hop_source h) (N3.hop_target h)) e) ∧
    ∀ m, m ∈ markers → CrossOrg.bridge m = (N3.hop_source h, N3.hop_target h) →
      100 < CrossOrg.instant (marker_revoked_at m).
Proof.
  apply (CrossOrg.delegation_sound N3.context 2 3 N3.ftd_c [N3.ftd_b] N3.verdict_abc 100
           markers [caveat] [caveat] verdict);
    [apply markers_aware|vm_compute; reflexivity|vm_compute; reflexivity].
Defined.

(** At mint time 120 the second hop's marker applies. *)
Example replay_rejected :
  CrossOrg.verify 3 N3.verdict_abc (Aware 120) (Some markers) (Some [caveat]) (Some [caveat])
    = Err (BridgeRevocationReplayError 0).
Proof. vm_compute. reflexivity. Qed.

(** The rule of [bridge_was_revoked_for_mint]: a bridge revoked at the mint or
    before it refuses the token, one revoked since then does not. *)
Example revocation_rule :
  let revoked_at us := [CrossOrg.bridge_was_revoked_for_mint (MkMarker N3.ftd_a N3.ftd_b (Aware us)) (Aware 100)] in
  revoked_at 99 = [Ok true] ∧ revoked_at 100 = [Ok true] ∧ revoked_at 101 = [Ok false].
Proof. by vm_compute. Qed.

Example revoked_since_accepted :
  CrossOrg.verify 3 N3.verdict_abc (Aware 100) (Some markers) (Some [caveat]) (Some [caveat]) =
    Ok verdict ∧ Exists (λ m, 100 < CrossOrg.instant (marker_revoked_at m)) markers.
Proof. split; [by vm_compute|]. apply Exists_exists. eexists. split; [by left|by vm_compute]. Qed.
End CrossOrgExample.
