(* ===== verification/MarkerStack.v ===== *)
(** * Marker composition ([wirelang/federation/marker_composition.py])

    A token collects marker events: revocations, unrevocations, a re-issuance,
    a caveat override, and revoked bridges.  The reducer orders them by time
    and tie-break and folds them into one verdict.

    The theorems: the verdict does not depend on the order in which events were
    collected; it is determined by the last lifecycle event, with every bridge
    revoked before the mint blocking an active token; and an unrevocation is
    accepted only for the revocation just before it. *)

From S2P Require Import Prelude PyStr PyTime FederationEval ChainWalk CrossOrg.
From Stdlib Require Import ZArith Lia Sorted.

Open Scope Z_scope.

Inductive marker_error : Type :=
| MarkerCompositionArgumentError
| MarkerCompositionConflictError
| MarkerDatetimeTypeError.        (* comparing aware and naive datetimes *)

Inductive CompositionState : Type := ACTIVE | REVOKED | RE_ISSUED | CAVEAT_OVERRIDDEN.

#[export] Instance state_eq_dec : EqDecision CompositionState.
Proof. solve_decision. Defined.

Inductive EffectiveVerdict : Type :=
| EffActive | EffRevoked | EffReIssued | EffCaveatOverridden | EffBridgeBlocked.

(** The texts of the audit trace, one constructor each. *)
Inductive outcome : Type :=
| Transition (from to : CompositionState)
| ReIssued (new_token : str)
| LaterWins
| BridgeBlockArmed
| BridgeBlockSkipped.

Inductive event_kind : Type :=
| kind_revoke | kind_unrevoke | kind_re_issuance | kind_caveat_override | kind_bridge_revoked.

Record AuditTraceEntry (X : Type) := MkTrace {
  trace_event_at : datetime;
  trace_tie_break : Z;
  trace_kind : event_kind;
  trace_outcome : outcome;
  trace_anchor : X;
}.
Arguments MkTrace {X} _ _ _ _ _.
Arguments trace_event_at {X} _.
Arguments trace_tie_break {X} _.
Arguments trace_kind {X} _.
Arguments trace_outcome {X} _.
Arguments trace_anchor {X} _.

(** [==] on objects, as a tuple applies it to its items. *)
Class PyEq (A : Type) := obj_eqb : A → A → bool.

#[export] Instance str_py_eq : PyEq str := str_eqb.

Fixpoint seq_eqb {A} (eqb : A → A → bool) (l k : list A) : bool :=
  match l, k with
  | [], [] => true
  | x :: l, y :: k => eqb x y && seq_eqb eqb l k
  | _, _ => false
  end.

Module MarkerStack.
Section stack.
(** [A]: the objects among the arguments of caveats, compared with [==]; [X]:
    the values that are only passed on, anchors and trust domains. *)
Context {A X : Type} `{PyEq A}.

Definition caveat_set : Type := list (str * list A).

Definition caveats_eqb : caveat_set → caveat_set → bool :=
  seq_eqb (λ x y, str_eqb x.1 y.1 && seq_eqb obj_eqb x.2 y.2).

Inductive marker_event : Type :=
| RevokeEvent (at_ : datetime) (reason : option str) (tie : Z) (anchor : X)
| UnrevokeEvent (at_ previous_revoked_at : datetime) (reason : option str) (tie : Z)
    (anchor : X)
| ReIssuanceEvent (at_ : datetime) (new_token : str) (reason : option str) (tie : Z)
    (anchor : X)
| CaveatOverrideEvent (at_ : datetime) (original narrowed : caveat_set)
    (reason : option str) (tie : Z) (anchor : X)
| BridgeRevokedEvent (marker : BridgeRevocationMarker X) (tie : Z) (anchor : X).

Definition event_at (e : marker_event) : datetime :=
  match e with
  | RevokeEvent t _ _ _ | UnrevokeEvent t _ _ _ _ | ReIssuanceEvent t _ _ _ _
  | CaveatOverrideEvent t _ _ _ _ _ => t
  | BridgeRevokedEvent m _ _ => marker_revoked_at m
  end.
Definition tie_break (e : marker_event) : Z :=
  match e with
  | RevokeEvent _ _ n _ | UnrevokeEvent _ _ _ n _ | ReIssuanceEvent _ _ _ n _
  | CaveatOverrideEvent _ _ _ _ n _ | BridgeRevokedEvent _ n _ => n
  end.
Definition event_anchor (e : marker_event) : X :=
  match e with
  | RevokeEvent _ _ _ a | UnrevokeEvent _ _ _ _ a | ReIssuanceEvent _ _ _ _ a
  | CaveatOverrideEvent _ _ _ _ _ a | BridgeRevokedEvent _ _ a => a
  end.
Definition _event_kind (e : marker_event) : event_kind :=
  match e with
  | RevokeEvent _ _ _ _ => kind_revoke
  | UnrevokeEvent _ _ _ _ _ => kind_unrevoke
  | ReIssuanceEvent _ _ _ _ _ => kind_re_issuance
  | CaveatOverrideEvent _ _ _ _ _ _ => kind_caveat_override
  | BridgeRevokedEvent _ _ _ => kind_bridge_revoked
  end.

(** The [__post_init__] of each event. *)
Definition _check_aware_datetime (d : datetime) : result marker_error () :=
  raise_if (is_naive d) MarkerCompositionArgumentError.

Definition new_event (e : marker_event) : result marker_error marker_event :=
  match e with
  | RevokeEvent t _ _ _ | CaveatOverrideEvent t _ _ _ _ _ => _check_aware_datetime t
  | UnrevokeEvent t p _ _ _ => _check_aware_datetime t;; _check_aware_datetime p
  | ReIssuanceEvent t tok _ _ _ =>
      _check_aware_datetime t;; raise_if (str_empty tok) MarkerCompositionArgumentError
  | BridgeRevokedEvent _ _ _ => Ok ()
  end;;
  Ok e.

Record Stack := MkStack {
  token_id : str;
  minted_at : datetime;
  original_caveat_set : option caveat_set;
  events : list marker_event;
}.

Definition new_stack (s : Stack) : result marker_error Stack :=
  raise_if (str_empty (token_id s)) MarkerCompositionArgumentError;;
  _check_aware_datetime (minted_at s);;
  Ok s.

Record CompositionVerdict := MkComposition {
  state : CompositionState;
  effective : EffectiveVerdict;
  bridge_blocked : bool;
  revocation_reason : option str;
  revoked_at : option datetime;
  new_token_id : option str;
  narrowed_caveat_set : option caveat_set;
  audit_trace : list (AuditTraceEntry X);
  wat_anchor_chain : list X;
}.

(** ** Ordering *)

Definition ordering_key (e : marker_event) : datetime * Z := (event_at e, tie_break e).

Definition event_leb (a b : marker_event) : bool :=
  pair_leb Z.leb Z.leb (CrossOrg.instant (event_at a), tie_break a)
                       (CrossOrg.instant (event_at b), tie_break b).

(** All aware or all naive; a sort of a mixture compares one with the other. *)
Definition comparable (l : list marker_event) : bool :=
  forallb (λ e, is_naive (event_at e)) l || forallb (λ e, negb (is_naive (event_at e))) l.

Definition _sort_and_validate_ordering (l : list marker_event)
    : result marker_error (list marker_event) :=
  raise_if (negb (comparable l)) MarkerDatetimeTypeError;;
  let keyed := py_sorted event_leb l in
  raise_if (negb (bool_decide (NoDup (ordering_key <$> keyed))))
    MarkerCompositionConflictError;;
  Ok keyed.

(** ** The reducer *)

Record rstate := RState {
  r_state : CompositionState;
  r_revoked_at : option datetime;
  r_reason : option str;
  r_new_token : option str;
  r_narrowed : option caveat_set;
  r_blocked : bool;
}.

Definition initial : rstate := RState ACTIVE None None None None false.

Definition _apply_revoke (s : CompositionState) : outcome :=
  match s with
  | ACTIVE => Transition ACTIVE REVOKED
  | REVOKED => LaterWins
  | _ => Transition s REVOKED
  end.

Variables (mint : datetime) (original : option caveat_set).

Definition apply_revoke (r : rstate) (t : datetime) (reason : option str)
    : result marker_error (rstate * outcome) :=
  match r_state r with
  | ACTIVE | REVOKED =>
      Ok (RState REVOKED (Some t) reason (r_new_token r) (r_narrowed r) (r_blocked r),
          _apply_revoke (r_state r))
  | _ => Err MarkerCompositionConflictError
  end.

Definition apply_unrevoke (r : rstate) (t previous : datetime)
    : result marker_error (rstate * outcome) :=
  raise_if (negb (bool_decide (r_state r = REVOKED))) MarkerCompositionConflictError;;
  match r_revoked_at r with
  | None => Err MarkerCompositionConflictError
  | Some rev =>
      raise_if (negb (dt_eqb previous rev)) MarkerCompositionConflictError;;
      later ← of_option MarkerDatetimeTypeError (dt_lt rev t);
      raise_if (negb later) MarkerCompositionConflictError;;
      Ok (RState ACTIVE None None (r_new_token r) (r_narrowed r) (r_blocked r),
          Transition REVOKED ACTIVE)
  end.

Definition apply_re_issuance (r : rstate) (tok : str)
    : result marker_error (rstate * outcome) :=
  raise_if (negb (bool_decide (r_state r = REVOKED))) MarkerCompositionConflictError;;
  Ok (RState RE_ISSUED None None (Some tok) (r_narrowed r) (r_blocked r), ReIssued tok).

Definition apply_override (r : rstate) (orig narrowed : caveat_set)
    : result marker_error (rstate * outcome) :=
  raise_if (bool_decide (r_state r = RE_ISSUED ∨ r_state r = CAVEAT_OVERRIDDEN))
    MarkerCompositionConflictError;;
  raise_if (negb (match original with Some o => caveats_eqb orig o | None => false end))
    MarkerCompositionConflictError;;
  Ok (RState CAVEAT_OVERRIDDEN None None (r_new_token r) (Some narrowed) (r_blocked r),
      Transition (r_state r) CAVEAT_OVERRIDDEN).

Definition apply_bridge (r : rstate) (m : BridgeRevocationMarker X)
    : result marker_error (rstate * outcome) :=
  revoked ← map_err (λ _, MarkerDatetimeTypeError)
              (CrossOrg.bridge_was_revoked_for_mint m mint);
  Ok (if revoked : bool
      then (RState (r_state r) (r_revoked_at r) (r_reason r) (r_new_token r) (r_narrowed r)
              true, BridgeBlockArmed)
      else (r, BridgeBlockSkipped)).

Definition apply_event (r : rstate) (e : marker_event)
    : result marker_error (rstate * outcome) :=
  match e with
  | RevokeEvent t reason _ _ => apply_revoke r t reason
  | UnrevokeEvent t previous _ _ _ => apply_unrevoke r t previous
  | ReIssuanceEvent _ tok _ _ _ => apply_re_issuance r tok
  | CaveatOverrideEvent _ orig narrowed _ _ _ => apply_override r orig narrowed
  | BridgeRevokedEvent m _ _ => apply_bridge r m
  end.

Definition trace_entry (e : marker_event) (o : outcome) : AuditTraceEntry X :=
  MkTrace (event_at e) (tie_break e) (_event_kind e) o (event_anchor e).

Fixpoint reduce_events (r : rstate) (l : list marker_event)
    : result marker_error (rstate * list (AuditTraceEntry X)) :=
  match l with
  | [] => Ok (r, [])
  | e :: rest =>
      ro ← apply_event r e;
      rt ← reduce_events ro.1 rest;
      Ok (rt.1, trace_entry e ro.2 :: rt.2)
  end.

Definition _fold_effective (s : CompositionState) (blocked : bool) : EffectiveVerdict :=
  match s with
  | RE_ISSUED => EffReIssued
  | CAVEAT_OVERRIDDEN => EffCaveatOverridden
  | REVOKED => EffRevoked
  | ACTIVE => if blocked then EffBridgeBlocked else EffActive
  end.
End stack.

Section reduce.
Context {A X : Type} `{PyEq A}.

Definition reduce_marker_stack (s : Stack (A:=A) (X:=X))
    : result marker_error (CompositionVerdict (A:=A) (X:=X)) :=
  sorted ← _sort_and_validate_ordering (events s);
  rt ← reduce_events (minted_at s) (original_caveat_set s) initial sorted;
  let r := rt.1 in
  Ok (MkComposition (r_state r) (_fold_effective (r_state r) (r_blocked r)) (r_blocked r)
        (r_reason r) (r_revoked_at r) (r_new_token r) (r_narrowed r) rt.2
        (event_anchor <$> sorted)).
End reduce.

(** ** The lifecycle *)

Section lifecycle.
Context {A X : Type} `{PyEq A}.
Implicit Types (e : marker_event (A:=A) (X:=X)) (l : list (marker_event (A:=A) (X:=X))) (r : rstate (A:=A)).

(** Every event but a revoked bridge moves the lifecycle. *)
Definition lifecycle e : bool :=
  match e with BridgeRevokedEvent _ _ _ => false | _ => true end.
Definition life l : list (marker_event (A:=A) (X:=X)) := filter (λ e, lifecycle e = true) l.

(** Where the lifecycle stands after an event: state, revocation time and
    reason, new token and narrowed caveats. *)
Definition standing : Type :=
  CompositionState * option datetime * option str * option str * option (caveat_set (A:=A)).

Definition standing_after (p : option (marker_event (A:=A) (X:=X))) : standing :=
  match p with
  | Some (RevokeEvent t reason _ _) => (REVOKED, Some t, reason, None, None)
  | Some (ReIssuanceEvent _ tok _ _ _) => (RE_ISSUED, None, None, Some tok, None)
  | Some (CaveatOverrideEvent _ _ narrowed _ _ _) =>
      (CAVEAT_OVERRIDDEN, None, None, None, Some narrowed)
  | _ => (ACTIVE, None, None, None, None)
  end.
Definition standing_of r : standing :=
  (r_state r, r_revoked_at r, r_reason r, r_new_token r, r_narrowed r).

Variables (mint : datetime) (original : option (caveat_set (A:=A))).

(** Which lifecycle event may come after the previous one. *)
Definition may_follow (p : option (marker_event (A:=A) (X:=X))) e : Prop :=
  match e with
  | RevokeEvent _ _ _ _ =>
      (standing_after p).1.1.1.1 = ACTIVE ∨ (standing_after p).1.1.1.1 = REVOKED
  | UnrevokeEvent t previous _ _ _ =>
      ∃ reason n a, p = Some (RevokeEvent previous reason n a) ∧ dt_lt previous t = Some true
  | ReIssuanceEvent _ _ _ _ _ => (standing_after p).1.1.1.1 = REVOKED
  | CaveatOverrideEvent _ orig _ _ _ _ =>
      ((standing_after p).1.1.1.1 = ACTIVE ∨ (standing_after p).1.1.1.1 = REVOKED) ∧
      ∃ o, original = Some o ∧ caveats_eqb orig o = true
  | BridgeRevokedEvent _ _ _ => False
  end.

Fixpoint life_chain (p : option (marker_event (A:=A) (X:=X))) l : Prop :=
  match l with
  | [] => True
  | e :: l' => may_follow p e ∧ life_chain (Some e) l'
  end.

(** A revoked bridge whose time compares with the mint. *)
Definition bridge_comparable e : Prop :=
  match e with
  | BridgeRevokedEvent m _ _ => is_naive (marker_revoked_at m) = is_naive mint
  | _ => True
  end.

(** A bridge revoked at or before the mint. *)
Definition bridge_hit e : bool :=
  match e with
  | BridgeRevokedEvent m _ _ =>
      CrossOrg.instant (marker_revoked_at m) <=? CrossOrg.instant mint
  | _ => false
  end.

Lemma bridge_compare (m : BridgeRevocationMarker X) :
  CrossOrg.bridge_was_revoked_for_mint m mint =
  if bool_decide (is_naive (marker_revoked_at m) = is_naive mint)
  then Ok (CrossOrg.instant (marker_revoked_at m) <=? CrossOrg.instant mint)
  else Err CrossOrgDatetimeTypeError.
Proof.
  unfold CrossOrg.bridge_was_revoked_for_mint, CrossOrg.lt.
  destruct mint as [t|t], (marker_revoked_at m) as [x|x]; cbn; try done;
    by rewrite Z.leb_antisym.
Qed.

(** One lifecycle event is accepted exactly when it may follow, and then the
    standing is the one after it. *)
Lemma apply_lifecycle p r e :
  standing_of r = standing_after p → lifecycle e = true →
  match apply_event mint original r e with
  | Ok (r', _) => may_follow p e ∧ standing_of r' = standing_after (Some e) ∧
      r_blocked r' = r_blocked r
  | Err _ => ¬ may_follow p e
  end.
Proof.
  destruct r as [st ra rr tok nar bl]. unfold standing_of. cbn. intros Hst Hl.
  destruct e as [t reason n a|t prev reason n a|t tk reason n a|t orig nw reason n a|m n a];
    cbn [apply_event may_follow]; [| | | |done].
  - unfold apply_revoke. cbn.
    destruct p as [[]|]; simplify_eq/=; try (split_and!; [|done..]; by auto);
      by intros [[=]|[=]].
  - unfold apply_unrevoke. cbn. destruct (decide (st = REVOKED)) as [->|Hs].
    + destruct p as [[t0 r0 n0 a0| | | |]|]; simplify_eq/=.
      unfold dt_eqb. case_bool_decide as Hp; cbn; [subst prev|].
      * destruct (dt_lt t0 t) as [[]|] eqn:Elt; cbn.
        -- split_and!; [by exists r0, n0, a0|done..].
        -- intros (? & ? & ? & _ & Ht). congruence.
        -- intros (? & ? & ? & _ & Ht). congruence.
      * by intros (? & ? & ? & [= -> _] & _).
    + rewrite bool_decide_false by done. cbn.
      intros (? & ? & ? & -> & _). by simplify_eq/=.
  - unfold apply_re_issuance. cbn. destruct (decide (st = REVOKED)) as [->|Hs].
    + destruct p as [[]|]; simplify_eq/=; by split_and!.
    + rewrite bool_decide_false by done. cbn. destruct p as [[]|]; simplify_eq/=; by intros [=].
  - unfold apply_override. cbn.
    destruct (decide (st = RE_ISSUED ∨ st = CAVEAT_OVERRIDDEN)) as [Hs|Hs].
    { rewrite (bool_decide_true (_ ∨ _)) by done. cbn. intros [Hst' _].
      destruct p as [[]|]; simplify_eq/=; naive_solver. }
    rewrite (bool_decide_false (_ ∨ _)) by done. cbn.
    destruct original as [o|]; cbn; [destruct (caveats_eqb orig o) eqn:Ho; cbn|].
    + destruct p as [[]|]; simplify_eq/=; try (split_and!; [by eauto|eauto|done|done]); naive_solver.
    + intros [_ (o' & [= <-] & E)]. congruence.
    + by intros [_ (o' & [=] & _)].
Qed.

Lemma life_cons e l :
  life (e :: l) = if lifecycle e then e :: life l else life l.
Proof. unfold life. rewrite filter_cons. by destruct (lifecycle e). Qed.

Lemma last_cons_default {B} (x : option B) (y : B) (k : list B) :
  match last (y :: k) with Some z => Some z | None => x end =
  match last k with Some z => Some z | None => Some y end.
Proof. rewrite last_cons. by destruct (last k). Qed.

(** The whole walk. *)
Lemma reduce_events_spec p r l :
  standing_of r = standing_after p →
  match reduce_events mint original r l with
  | Ok (r', trace) =>
      life_chain p (life l) ∧ Forall bridge_comparable l ∧
      standing_of r' =
        standing_after (match last (life l) with Some e => Some e | None => p end) ∧
      r_blocked r' = r_blocked r || existsb bridge_hit l ∧
      length trace = length l
  | Err _ => ¬ (life_chain p (life l) ∧ Forall bridge_comparable l)
  end.
Proof.
  revert p r. induction l as [|e l IH]; intros p r Hst.
  { cbn. split_and!; [done|constructor|done|by rewrite orb_false_r|done]. }
  cbn [reduce_events]. rewrite life_cons. destruct (lifecycle e) eqn:El.
  - pose proof (apply_lifecycle p r e Hst El) as Ha.
    destruct (apply_event mint original r e) as [[r1 o]|]; [|].
    + destruct Ha as (Hf & Hst1 & Hb1). rewrite bind_Ok. cbn [fst snd].
      specialize (IH (Some e) r1 Hst1).
      destruct (reduce_events mint original r1 l) as [[r' trace]|].
      * destruct IH as (Hc & Hbr & Hs & Hb & Hlen). rewrite bind_Ok. cbn [fst snd].
        split_and!; [by split|constructor; [by destruct e|done]| | |by cbn; f_equal].
        -- by rewrite last_cons_default.
        -- rewrite Hb, Hb1. by destruct e.
      * intros [[_ Hc] [_ Hbr]%Forall_cons]. by apply IH.
    + by intros [[? _] _].
  - destruct e as [| | | |m n a]; try done. cbn [apply_event]. unfold apply_bridge.
    rewrite bridge_compare. case_bool_decide as Hc; cbn [map_err].
    + rewrite !bind_Ok. cbn [bridge_hit existsb].
      match goal with |- context [reduce_events _ _ ?x.1 l] => set (rr := x) end.
      assert (standing_of rr.1 = standing_after p) as Hst1.
      { subst rr. by destruct (_ <=? _). }
      assert (r_blocked rr.1 = r_blocked r || bridge_hit (BridgeRevokedEvent m n a)) as Hb1.
      { subst rr. cbn [bridge_hit]. destruct (_ <=? _); [by rewrite orb_true_r|].
        by rewrite orb_false_r. }
      specialize (IH p rr.1 Hst1).
      destruct (reduce_events mint original rr.1 l) as [[r' trace]|].
      * destruct IH as (Hch & Hbr & Hs & Hb & Hlen). rewrite bind_Ok. cbn [fst snd].
        split_and!; [done|by constructor|done| |by cbn; f_equal].
        rewrite Hb, Hb1, orb_assoc. done.
      * intros [Hch [_ Hbr]%Forall_cons]. by apply IH.
    + by intros [_ [Hx _]%Forall_cons].
Qed.
End lifecycle.

(** ** Verdicts *)

Section verdicts.
Context {A X : Type} `{PyEq A}.
Implicit Types (s : Stack (A:=A) (X:=X)) (l : list (marker_event (A:=A) (X:=X))).

#[local] Instance event_leb_order : KeyOrder (event_leb (A:=A) (X:=X)).
Proof.
  unfold event_leb.
  apply (key_order_on (pair_leb Z.leb Z.leb) (λ e, (CrossOrg.instant (event_at e), tie_break e))).
Qed.

(** Strictly increasing in (time, tie-break). *)
Definition strictly_before (a b : marker_event (A:=A) (X:=X)) : Prop :=
  event_leb a b = true ∧ ordering_key a ≠ ordering_key b.

Lemma comparable_perm l1 l2 : l1 ≡ₚ l2 → comparable l1 = comparable l2.
Proof.
  intros Hp. unfold comparable.
  assert (∀ f, forallb f l1 = forallb (A:=marker_event) f l2) as Hf; [|by rewrite !Hf].
  intros f. apply eq_true_iff_eq. rewrite !forallb_forall.
  split; intros Hx x Hin; apply Hx; by eapply Permutation_in; [|exact Hin].
Qed.

(** With comparable times, keys that are equal in the order are equal. *)
Lemma key_antisym l a b :
  comparable l = true → a ∈ l → b ∈ l →
  event_leb a b = true → event_leb b a = true → ordering_key a = ordering_key b.
Proof.
  unfold event_leb. intros Hc Ha Hb H1 H2.
  pose proof (leb_antisym (leb:=pair_leb Z.leb Z.leb) _ _ H1 H2) as E.
  apply pair_equal_spec in E as [Ei Et].
  unfold ordering_key. rewrite Et. f_equal. unfold comparable in Hc.
  rewrite orb_true_iff, !forallb_forall in Hc.
  assert (is_naive (event_at a) = is_naive (event_at b)) as En.
  { apply list_elem_of_In in Ha, Hb. destruct Hc as [Hc|Hc].
    - by rewrite !Hc.
    - pose proof (Hc a Ha) as E1. pose proof (Hc b Hb) as E2.
      by destruct (is_naive (event_at a)), (is_naive (event_at b)). }
  by destruct (event_at a), (event_at b); simplify_eq/=.
Qed.

Lemma nodup_key_inj l a b :
  NoDup (ordering_key <$> l) → a ∈ l → b ∈ l → ordering_key a = ordering_key b → a = b.
Proof.
  induction l as [|x l IH]; csimpl; [by intros _ ?%elem_of_nil|].
  intros [Hx Hl]%NoDup_cons Ha Hb E. apply elem_of_cons in Ha, Hb.
  destruct Ha as [->|Ha], Hb as [->|Hb]; [done|..|by apply IH].
  - exfalso. apply Hx. rewrite E. by apply list_elem_of_fmap_2.
  - exfalso. apply Hx. rewrite <- E. by apply list_elem_of_fmap_2.
Qed.

Lemma sort_spec l :
  match _sort_and_validate_ordering l with
  | Ok k => k ≡ₚ l ∧ comparable l = true ∧ StronglySorted strictly_before k
  | Err _ => comparable l = false ∨ ¬ NoDup (ordering_key <$> l)
  end.
Proof.
  unfold _sort_and_validate_ordering. destruct (comparable l) eqn:Ec; cbn [negb raise_if];
    [|by left]. rewrite bind_Ok. pose proof (py_sorted_perm event_leb l) as Hp.
  case_bool_decide as Hnd; cbn [negb raise_if].
  2:{ right. by rewrite <- Hp. }
  rewrite bind_Ok. split_and!; [done|done|].
  pose proof (py_sorted_sorted event_leb l) as Hs. clear Hp Ec. revert Hs Hnd.
  generalize (py_sorted event_leb l). intros k.
  induction 1 as [|x k Hs IH Hx]; csimpl; intros Hnd; [constructor|].
  apply NoDup_cons in Hnd as [Hni Hnd]. constructor; [by apply IH|].
  rewrite Forall_forall in Hx. apply Forall_forall. intros y Hy. split; [by apply Hx|].
  intros E. apply Hni. rewrite E. by apply list_elem_of_fmap_2.
Qed.

Lemma sort_perm l1 l2 :
  l1 ≡ₚ l2 → _sort_and_validate_ordering l1 = _sort_and_validate_ordering l2.
Proof.
  intros Hp. unfold _sort_and_validate_ordering. rewrite (comparable_perm _ _ Hp).
  destruct (comparable l2) eqn:Ec; [|done]. cbn [negb raise_if]. rewrite !bind_Ok.
  assert (py_sorted event_leb l1 ≡ₚ py_sorted event_leb l2) as Hs
    by (by rewrite !py_sorted_perm).
  destruct (decide (NoDup (ordering_key <$> py_sorted event_leb l1))) as [Hnd|Hnd].
  - rewrite (sorted_perm_unique (λ x y, event_leb x y = true)
      (py_sorted event_leb l1) (py_sorted event_leb l2)); [done|..|done].
    + intros x y Hx Hy Hxy Hyx. apply (nodup_key_inj _ _ _ Hnd Hx Hy).
      rewrite Hs, elem_of_py_sorted in Hx, Hy. by eapply (key_antisym l2).
    + apply py_sorted_sorted, _.
    + apply py_sorted_sorted, _.
  - rewrite !bool_decide_false; [done| |done]. by rewrite <- Hs.
Qed.

(** The verdict, or the error, does not depend on the order in which the
    events were collected. *)
Theorem reduce_order_independent s evs :
  events s ≡ₚ evs →
  reduce_marker_stack (MkStack (token_id s) (minted_at s) (original_caveat_set s) evs) =
  reduce_marker_stack s.
Proof. intros Hp. unfold reduce_marker_stack. cbn. by rewrite (sort_perm _ _ Hp). Qed.

Definition standing_of_verdict (v : CompositionVerdict (A:=A) (X:=X)) : standing (A:=A) :=
  (state v, revoked_at v, revocation_reason v, new_token_id v, narrowed_caveat_set v).

(** C19: A stack is accepted exactly when its times compare, no two events share a
    (time, tie-break) key, and in that order every lifecycle event may follow
    the one before it: an unrevocation names the revocation just before it and
    is later, a re-issuance needs a revoked token, an override matches the
    stack's caveats, and nothing follows a re-issuance or an override.  The
    verdict then is the standing after the last lifecycle event; a bridge
    revoked at or before the mint blocks a token that is otherwise active; the
    audit trace has one entry per event, and the anchors are listed in order. *)
Theorem reduce_verdict s :
  match reduce_marker_stack s with
  | Ok v => ∃ k, k ≡ₚ events s ∧ StronglySorted strictly_before k ∧
      life_chain (original_caveat_set s) None (life k) ∧
      Forall (bridge_comparable (minted_at s)) k ∧
      standing_of_verdict v = standing_after (last (life k)) ∧
      bridge_blocked v = existsb (bridge_hit (minted_at s)) k ∧
      effective v = _fold_effective (state v) (bridge_blocked v) ∧
      length (audit_trace v) = length k ∧ wat_anchor_chain v = event_anchor <$> k
  | Err _ => ¬ (comparable (events s) = true ∧ NoDup (ordering_key <$> events s) ∧
      ∀ k, k ≡ₚ events s → StronglySorted strictly_before k →
        life_chain (original_caveat_set s) None (life k) ∧
        Forall (bridge_comparable (minted_at s)) k)
  end.
Proof.
  unfold reduce_marker_stack. pose proof (sort_spec (events s)) as Hs.
  destruct (_sort_and_validate_ordering (events s)) as [k|e].
  2:{ cbn. intros (Hc & Hnd & _). destruct Hs; [congruence|done]. }
  destruct Hs as (Hp & Hc & Hk). rewrite bind_Ok.
  pose proof (reduce_events_spec (minted_at s) (original_caveat_set s) None initial k eq_refl)
    as Hr.
  destruct (reduce_events _ _ initial k) as [[r trace]|e].
  - rewrite bind_Ok. cbn [fst snd]. destruct Hr as (Hch & Hbr & Hst & Hbl & Hlen).
    exists k. split_and!; try done.
    unfold standing_of_verdict. cbn. unfold standing_of in Hst. rewrite Hst.
    by destruct (last (life k)).
  - cbn. intros (_ & _ & Hall). by apply Hr, Hall.
Qed.
End verdicts.
End MarkerStack.

Module MarkerStackExample.

Definition s1 : MarkerStack.Stack (A:=str) (X:=option str) :=
  MarkerStack.MkStack (u "tok") (Aware 100) None
    [MarkerStack.UnrevokeEvent (Aware 300) (Aware 200) None 0 (Some (u "m2"));
     MarkerStack.RevokeEvent (Aware 200) (Some (u "lost")) 0 (Some (u "m1"));
     MarkerStack.BridgeRevokedEvent (MkMarker (Some (u "a")) (Some (u "b")) (Aware 90)) 0 None].

Example blocked_after_unrevoke :
  (v ← MarkerStack.reduce_marker_stack s1;
   Ok (MarkerStack.effective v, MarkerStack.wat_anchor_chain v)) =
  Ok (EffBridgeBlocked, [None; Some (u "m1"); Some (u "m2")]).
Proof. vm_compute. reflexivity. Qed.

(** The causal chain is broken: the unrevocation names another time. *)
Example broken_chain :
  MarkerStack.reduce_marker_stack
    (MarkerStack.MkStack (A:=str) (X:=option str) (u "tok") (Aware 100) None
       [MarkerStack.RevokeEvent (Aware 200) None 0 None;
        MarkerStack.UnrevokeEvent (Aware 300) (Aware 199) None 0 None]) =
  Err MarkerCompositionConflictError.
Proof. vm_compute. reflexivity. Qed.

Lemma reduce_order_independent_witness :
  MarkerStack.reduce_marker_stack
    (MarkerStack.MkStack (u "tok") (Aware 100) None (reverse (MarkerStack.events s1))) =
  MarkerStack.reduce_marker_stack s1.
Proof.
  apply (MarkerStack.reduce_order_independent s1). symmetry. apply reverse_Permutation.
Defined.
End MarkerStackExample.
