(* ===== verification/Ledger.v ===== *)
(** * The durable sequence ledger ([wirelang/federation/sequence_number_ledger_kv.py])

    One key-value cell per (route, chain) pair, written with
    compare-and-swap.  The key-value bucket is third-party (NATS): the class
    [KvBucket] with its documented laws, and an in-memory instance.
    [a_record_export] is split where the code awaits: [record_plan] reads and
    decides, [commit] is the single create or update call.

    The theorems: keys and bucket names are bijective with what they name; an
    envelope reads back; a call alone advances the cell or refuses a replay;
    under every interleaving of concurrent exporters the accepted sequence
    numbers of a pair strictly increase and none is lost; and of two exporters
    that planned on the same state exactly one wins. *)

From S2P Require Import Prelude PyStr PyJson PyJsonLoads PyTime PyIso.
From Stdlib Require Import ZArith Lia.

Open Scope Z_scope.

(** ** The bucket *)

(** What a KV client hands back: a bare blob, or an object (or mapping) with a
    value and a revision. *)
Inductive kv_value : Type := VBytes (b : bytes) | VStr (s : str).
Inductive kv_entry : Type :=
| KvRaw (b : bytes)
| KvObj (value : option kv_value) (revision : option Z).

(** [get], [create] and [update]; [None] of the writers is the conflict
    exception, which leaves the bucket as it was. *)
Class KvBucket (S : Type) := {
  kv_get : S → str → option kv_entry;
  kv_create : S → str → bytes → option (S * Z);
  kv_update : S → str → bytes → Z → option (S * Z);
}.

(** Create succeeds exactly on a free key, update exactly at the current
    revision; both store the value under a new, larger revision and touch no
    other key. *)
Class KvLaws (S : Type) `{KvBucket S} : Prop := {
  kv_get_shape s k e :
    kv_get s k = Some e → ∃ v r, e = KvObj (Some (VBytes v)) (Some r);
  kv_create_iff s k v : is_Some (kv_create s k v) ↔ kv_get s k = None;
  kv_create_get s k v s' r k' :
    kv_create s k v = Some (s', r) →
    kv_get s' k' = if decide (k' = k) then Some (KvObj (Some (VBytes v)) (Some r))
                   else kv_get s k';
  kv_update_at s k v r0 last :
    kv_get s k = Some (KvObj (Some (VBytes v)) (Some r0)) → ∀ v',
    is_Some (kv_update s k v' last) ↔ last = r0;
  kv_update_get s k v last s' r k' :
    kv_update s k v last = Some (s', r) →
    last < r ∧
    kv_get s' k' = if decide (k' = k) then Some (KvObj (Some (VBytes v)) (Some r))
                   else kv_get s k';
}.

(** ** Errors *)

Inductive ledger_error : Type :=
| ShapeValueError                      (* ValueError of the key helpers *)
| EnvelopeError
| ConcurrencyConflict (key : str) (expected_revision : option Z)
| CrossOrgBoundary (backend requested : str)
| ExportShapeError
| ReplayError (last_seen attempted : Z)
| ValueEncodeError.                    (* UnicodeEncodeError *)

Module Ledger.

Definition BUCKET_NAME_PREFIX : str := u "wakir-caveat-override-export-sequence-".
Definition VALUE_SCHEMA : str := u "wakir.federation.caveat-override-export-sequence/1".
Definition _KEY_PREFIX : str := u "sequence/".

(** [^[A-Za-z0-9][A-Za-z0-9_.:\-]*$], the pattern of both regexes *)
Definition name_char (c : Z) : bool := is_alnum c || one_of (u "_.:-") c.
Definition name_full (s : str) : bool :=
  match s with c :: s' => is_alnum c && forallb name_char s' | [] => false end.
Definition _ORG_ID_RE : str → bool := re_dollar name_full.
Definition _KEY_COMPONENT_RE : str → bool := re_dollar name_full.

Definition bucket_name_for_org (org_id : str) : result ledger_error str :=
  raise_if (str_empty org_id) ShapeValueError;;
  raise_if (negb (_ORG_ID_RE org_id)) ShapeValueError;;
  Ok (BUCKET_NAME_PREFIX ++ org_id).

Definition org_id_for_bucket_name (bucket_name : str) : result ledger_error str :=
  raise_if (negb (startswith bucket_name BUCKET_NAME_PREFIX)) ShapeValueError;;
  let org_id := drop (length BUCKET_NAME_PREFIX) bucket_name in
  raise_if (negb (_ORG_ID_RE org_id)) ShapeValueError;;
  Ok org_id.

Definition key_for_pair (route_id chain_hash : str) : result ledger_error str :=
  raise_if (str_empty route_id) ShapeValueError;;
  raise_if (negb (_KEY_COMPONENT_RE route_id)) ShapeValueError;;
  raise_if (str_empty chain_hash) ShapeValueError;;
  raise_if (negb (_KEY_COMPONENT_RE chain_hash)) ShapeValueError;;
  Ok (_KEY_PREFIX ++ route_id ++ u "/" ++ chain_hash).

Definition parse_pair_key (key : str) : result ledger_error (str * str) :=
  raise_if (negb (startswith key _KEY_PREFIX)) ShapeValueError;;
  match split_on 47 (drop (length _KEY_PREFIX) key) with
  | [route_id; chain_hash] =>
      raise_if (str_empty route_id || negb (_KEY_COMPONENT_RE route_id)) ShapeValueError;;
      raise_if (str_empty chain_hash || negb (_KEY_COMPONENT_RE chain_hash))
        ShapeValueError;;
      Ok (route_id, chain_hash)
  | _ => Err ShapeValueError
  end.

(** ** Envelopes *)

Definition _rfc3339 (dt : datetime) : result ledger_error str :=
  match dt with
  | Naive _ => Err EnvelopeError
  | Aware us => Ok (rfc3339_text us)
  end.

Record _LedgerCell := MkCell {
  cell_org_id : json;
  cell_route_id : json;
  cell_chain_hash : json;
  last_seen_sequence : Z;
  recorded_at : datetime;
  revision : Z;
}.

Definition payload_of (org_id route_id chain_hash : str) (seq : Z) (at_text : str) : json :=
  JObj [(u "schema", JStr VALUE_SCHEMA); (u "org_id", JStr org_id);
        (u "route_id", JStr route_id); (u "chain_hash", JStr chain_hash);
        (u "last_seen_sequence", JInt seq); (u "recorded_at", JStr at_text)].

Definition _encode_envelope (org_id route_id chain_hash : str) (seq : Z)
    (dt : datetime) : result ledger_error bytes :=
  at_text ← _rfc3339 dt;
  of_option ValueEncodeError
    (utf8_encode (json_dumps true true
       (payload_of org_id route_id chain_hash seq at_text))).

Section ledger.

Definition _parse_rfc3339 (s : json) : result ledger_error datetime :=
  match s with
  | JStr s => of_option EnvelopeError (fromisoformat (replace1 90 (u "+00:00") s))
  | _ => Err EnvelopeError
  end.

Definition required (payload : list (str * json)) (field : str)
    : result ledger_error json :=
  of_option EnvelopeError (dict_get payload field).

Definition _decode_envelope (blob : bytes) (rev : Z) : result ledger_error _LedgerCell :=
  text ← of_option EnvelopeError (utf8_decode blob);
  payload ← of_option EnvelopeError (json_loads text);
  match payload with
  | JObj payload =>
      raise_if (match dict_get payload (u "schema") with
                | Some (JStr s) => negb (str_eqb s VALUE_SCHEMA)
                | _ => true
                end) EnvelopeError;;
      org ← required payload (u "org_id");
      route ← required payload (u "route_id");
      chain ← required payload (u "chain_hash");
      last_seen_raw ← required payload (u "last_seen_sequence");
      at_raw ← required payload (u "recorded_at");
      match last_seen_raw with
      | JInt n =>
          raise_if (n <? 1) EnvelopeError;;
          dt ← _parse_rfc3339 at_raw;
          Ok (MkCell org route chain n dt rev)
      | _ => Err EnvelopeError
      end
  | _ => Err EnvelopeError
  end.

Definition _coerce_value_bytes (kve : kv_entry) : result ledger_error bytes :=
  match kve with
  | KvRaw b => Ok b
  | KvObj None _ => Err EnvelopeError
  | KvObj (Some (VBytes b)) _ => Ok b
  | KvObj (Some (VStr s)) _ => of_option ValueEncodeError (utf8_encode s)
  end.

Definition _coerce_revision (kve : kv_entry) : Z :=
  match kve with
  | KvObj _ (Some r) => r
  | _ => 0
  end.

Section store.
Context {S : Type} `{KvBucket S}.

Definition _kv_create (s : S) (key : str) (value : bytes) : S * result ledger_error Z :=
  match kv_create s key value with
  | Some (s', r) => (s', Ok r)
  | None => (s, Err (ConcurrencyConflict key None))
  end.

Definition _kv_update (s : S) (key : str) (value : bytes) (last_revision : Z)
    : S * result ledger_error Z :=
  match kv_update s key value last_revision with
  | Some (s', r) => (s', Ok r)
  | None => (s, Err (ConcurrencyConflict key (Some last_revision)))
  end.

(** The ledger of one organisation; its constructor validates the name. *)
Variable org_id : str.

Definition field_is (x : json) (s : str) : bool :=
  match x with JStr t => str_eqb t s | _ => false end.

Definition _read_cell (s : S) (route_id chain_hash : str)
    : result ledger_error (option _LedgerCell) :=
  key ← key_for_pair route_id chain_hash;
  match kv_get s key with
  | None => Ok None
  | Some entry =>
      blob ← _coerce_value_bytes entry;
      cell ← _decode_envelope blob (_coerce_revision entry);
      raise_if (negb (field_is (cell_org_id cell) org_id)) EnvelopeError;;
      raise_if (negb (field_is (cell_route_id cell) route_id)) EnvelopeError;;
      raise_if (negb (field_is (cell_chain_hash cell) chain_hash)) EnvelopeError;;
      Ok (Some cell)
  end.

Definition _validate_org_id (requested : option str) : result ledger_error () :=
  match requested with
  | None => Ok ()
  | Some r => raise_if (negb (str_eqb r org_id)) (CrossOrgBoundary org_id r)
  end.

Definition seen (cell : option _LedgerCell) : Z :=
  match cell with None => 0 | Some c => last_seen_sequence c end.

Definition a_last_seen (s : S) (route_id chain_hash : str) (requested : option str)
    : result ledger_error Z :=
  _validate_org_id requested;;
  cell ← _read_cell s route_id chain_hash;
  Ok (seen cell).

Definition a_next_sequence (s : S) (route_id chain_hash : str) (requested : option str)
    : result ledger_error Z :=
  last ← a_last_seen s route_id chain_hash requested;
  Ok (last + 1).

(** The write that [a_record_export] decides on. *)
Inductive kv_write : Type :=
| Create (key : str) (blob : bytes)
| Update (key : str) (blob : bytes) (last_revision : Z).

(** Everything up to the write. *)
Definition record_plan (s : S) (route_id chain_hash : str) (sequence : Z)
    (dt : datetime) (requested : option str) : result ledger_error kv_write :=
  _validate_org_id requested;;
  raise_if (sequence <? 1) ExportShapeError;;
  key ← key_for_pair route_id chain_hash;
  raise_if (is_naive dt) ExportShapeError;;
  cell ← _read_cell s route_id chain_hash;
  raise_if (sequence <=? seen cell) (ReplayError (seen cell) sequence);;
  blob ← _encode_envelope org_id route_id chain_hash sequence dt;
  Ok match cell with
     | None => Create key blob
     | Some c => Update key blob (revision c)
     end.

Definition commit (s : S) (w : kv_write) : S * result ledger_error Z :=
  match w with
  | Create key blob => _kv_create s key blob
  | Update key blob last => _kv_update s key blob last
  end.

Definition a_record_export (s : S) (route_id chain_hash : str) (sequence : Z)
    (dt : datetime) (requested : option str) : S * result ledger_error Z :=
  match record_plan s route_id chain_hash sequence dt requested with
  | Err e => (s, Err e)
  | Ok w => commit s w
  end.

(** The synchronous adapter, outside a running event loop. *)
Definition next_sequence (s : S) (route_id chain_hash : str) : result ledger_error Z :=
  a_next_sequence s route_id chain_hash None.
Definition record_export (s : S) (route_id chain_hash : str) (sequence : Z)
    (now : datetime) : S * result ledger_error () :=
  let '(s', r) := a_record_export s route_id chain_hash sequence now None in
  (s', _ ← r; Ok ()).
Definition last_seen (s : S) (route_id chain_hash : str) : result ledger_error Z :=
  a_last_seen s route_id chain_hash None.
End store.
End ledger.

(** ** Names *)

Definition name_ok (s : str) : Prop := _KEY_COMPONENT_RE s = true.

Section names.

Lemma name_chars s :
  name_ok s → s ≠ [] ∧ Forall (λ c, c = 10 ∨ 45 ≤ c ≤ 122 ∧ c ≠ 47) s.
Proof.
  assert (∀ s, name_full s = true →
    s ≠ [] ∧ Forall (λ c, c = 10 ∨ 45 ≤ c ≤ 122 ∧ c ≠ 47) s) as Hfull.
  { clear s. assert (∀ c, name_char c = true → 45 ≤ c ≤ 122 ∧ c ≠ 47) as Hc.
    { intros c. unfold name_char, is_alnum, is_digit, is_lower, is_upper, in_range, one_of.
      ulit. rewrite !orb_true_iff, !andb_true_iff, !Z.leb_le, bool_decide_eq_true.
      rewrite !elem_of_cons, elem_of_nil. lia. }
    intros [|c s]; [done|]. cbn [name_full]. intros [Ha Hs]%andb_true_iff.
    split; [done|]. constructor.
    - right. apply Hc. unfold name_char. by rewrite Ha.
    - apply Forall_forall. intros x Hx. right. apply Hc.
      rewrite forallb_forall in Hs. by apply Hs, list_elem_of_In. }
  unfold name_ok, _KEY_COMPONENT_RE. rewrite re_dollar_spec.
  intros [Hs|(s' & -> & Hs)]; apply Hfull in Hs as [Hne Hs]; [done|].
  split; [by destruct s'|]. apply Forall_app. split; [done|]. repeat constructor.
Qed.

Lemma name_nonempty s : name_ok s → str_empty s = false.
Proof. intros [? _]%name_chars. by destruct s. Qed.

Lemma name_no_slash s : name_ok s → 47 ∉ s.
Proof.
  intros [_ Hs]%name_chars Hin. rewrite Forall_forall in Hs.
  apply Hs in Hin. simpl in Hin. lia.
Qed.

Lemma name_okstr s : name_ok s → okstr s.
Proof.
  intros [_ Hs]%name_chars. apply okstr_Forall. eapply Forall_impl; [exact Hs|].
  intros c Hc. simpl in Hc. apply okchar_range. lia.
Qed.

Lemma key_ok r c k :
  key_for_pair r c = Ok k ↔
  name_ok r ∧ name_ok c ∧ k = _KEY_PREFIX ++ r ++ u "/" ++ c.
Proof.
  unfold key_for_pair. split.
  - intros Hk. run_ok. rename select (negb (_KEY_COMPONENT_RE r) = false) into Hr.
    rename select (negb (_KEY_COMPONENT_RE c) = false) into Hc.
    apply negb_false_iff in Hr, Hc. done.
  - intros (Hr & Hc & ->). rewrite (name_nonempty _ Hr), (name_nonempty _ Hc).
    unfold name_ok in *. by rewrite Hr, Hc.
Qed.

Lemma parse_key_ok r c k :
  parse_pair_key k = Ok (r, c) ↔
  name_ok r ∧ name_ok c ∧ k = _KEY_PREFIX ++ r ++ u "/" ++ c.
Proof.
  unfold parse_pair_key. split.
  - intros Hk. apply bind_ok_iff in Hk as (x & Hp%raise_if_ok & Hk).
    apply negb_false_iff, startswith_spec in Hp as [t ->].
    rewrite drop_app_length in Hk. pose proof (join_split 47 t) as Hj.
    destruct (split_on 47 t) as [|r' [|c' [|]]]; try done. cbn [join] in Hj.
    apply bind_ok_iff in Hk as (x1 & Hr%raise_if_ok & Hk).
    apply bind_ok_iff in Hk as (x2 & Hc%raise_if_ok & [= -> ->]).
    apply orb_false_iff in Hr as [_ Hr%negb_false_iff], Hc as [_ Hc%negb_false_iff].
    split_and!; [done|done|]. by rewrite <- Hj.
  - intros (Hr & Hc & ->). rewrite startswith_app, drop_app_length. cbn [negb raise_if].
    change (u "/") with [47]. cbn [mbind result_bind app].
    rewrite split_on_app by (by apply name_no_slash).
    rewrite split_on_nil by (by apply name_no_slash).
    rewrite (name_nonempty _ Hr), (name_nonempty _ Hc).
    unfold name_ok in *. by rewrite Hr, Hc.
Qed.

(** Keys and bucket names are in bijection with what they name: parsing
    inverts building, in both directions, for pair keys and for buckets. *)
Theorem names_bijective r c k o b :
  (key_for_pair r c = Ok k ↔ parse_pair_key k = Ok (r, c)) ∧
  (bucket_name_for_org o = Ok b ↔ org_id_for_bucket_name b = Ok o).
Proof.
  split; [by rewrite key_ok, parse_key_ok|].
  unfold bucket_name_for_org, org_id_for_bucket_name. split.
  - intros Hb. apply bind_ok_iff in Hb as (x & _ & Hb).
    apply bind_ok_iff in Hb as (x1 & Ho%raise_if_ok & <-%Ok_inj).
    by rewrite startswith_app, drop_app_length, Ho.
  - intros Hb. apply bind_ok_iff in Hb as (x & Hp%raise_if_ok & Hb).
    apply negb_false_iff, startswith_spec in Hp as [t ->].
    rewrite drop_app_length in Hb. run_ok.
    rename select (negb (_ORG_ID_RE o) = false) into Ho. rewrite Ho.
    apply negb_false_iff in Ho. by rewrite (name_nonempty o Ho).
Qed.
End names.

(** ** Envelopes read back *)

Section envelopes.

(** An aware time of the years 1000 to 9999, whose text reads back. *)
Definition iso_ok (dt : datetime) : Prop := ∃ us, dt = Aware us ∧ in_rfc3339_range us.

Lemma payload_wf o r c n t :
  name_ok o → name_ok r → name_ok c → ascii_text t → json_wf (payload_of o r c n t).
Proof.
  intros Ho%name_okstr Hr%name_okstr Hc%name_okstr Ht. apply json_wf_obj. split.
  - apply (bool_decide_unpack _). by vm_compute.
  - assert (okstr t).
    { apply okstr_Forall. eapply Forall_impl; [exact Ht|].
      intros x Hx. simpl in Hx. apply okchar_range. lia. }
    repeat (constructor; [by split|]). constructor.
Qed.

Lemma json_sort_payload o r c n t :
  json_sort (payload_of o r c n t) =
  JObj [(u "chain_hash", JStr c); (u "last_seen_sequence", JInt n);
        (u "org_id", JStr o); (u "recorded_at", JStr t);
        (u "route_id", JStr r); (u "schema", JStr VALUE_SCHEMA)].
Proof. unfold payload_of. ulit. reflexivity. Qed.

Lemma payload_fields o r c n t d :
  json_sort (payload_of o r c n t) = JObj d →
  dict_get d (u "schema") = Some (JStr VALUE_SCHEMA) ∧
  dict_get d (u "org_id") = Some (JStr o) ∧
  dict_get d (u "route_id") = Some (JStr r) ∧
  dict_get d (u "chain_hash") = Some (JStr c) ∧
  dict_get d (u "last_seen_sequence") = Some (JInt n) ∧
  dict_get d (u "recorded_at") = Some (JStr t).
Proof. rewrite json_sort_payload. intros [= <-]. ulit. split_and!; reflexivity. Qed.

Lemma required_some d f j : dict_get d f = Some j → required d f = Ok j.
Proof. unfold required. by intros ->. Qed.

Lemma decode_payload o r c n t text rev dt' :
  name_ok o → name_ok r → name_ok c → 1 ≤ n → ascii_text t →
  fromisoformat (replace1 90 (u "+00:00") t) = Some dt' →
  utf8_decode text = Some (json_dumps true true (payload_of o r c n t)) →
  _decode_envelope text rev =
    Ok (MkCell (JStr o) (JStr r) (JStr c) n dt' rev).
Proof.
  intros Ho Hr Hc Hn Ht Hdt He. unfold _decode_envelope.
  rewrite He. change (of_option EnvelopeError (Some ?x)) with (Ok (E:=ledger_error) x).
  rewrite bind_Ok, json_loads_dumps by (by apply payload_wf).
  change (of_option EnvelopeError (Some ?x)) with (Ok (E:=ledger_error) x). rewrite bind_Ok.
  destruct (json_sort _) as [| | | | | |d] eqn:Ed; [by rewrite json_sort_payload in Ed..|].
  apply payload_fields in Ed as (-> & E2 & E3 & E4 & E5 & E6).
  rewrite (required_some _ _ _ E2), (required_some _ _ _ E3), (required_some _ _ _ E4),
    (required_some _ _ _ E5), (required_some _ _ _ E6), !bind_Ok.
  unfold str_eqb. rewrite bool_decide_true by done.
  change (negb true) with false. rewrite raise_if_false, bind_Ok.
  rewrite (proj2 (Z.ltb_ge n 1)) by lia. rewrite raise_if_false, bind_Ok.
  unfold _parse_rfc3339. by rewrite Hdt.
Qed.

Lemma decode_encode o r c n dt blob rev :
  name_ok o → name_ok r → name_ok c → 1 ≤ n → iso_ok dt →
  _encode_envelope o r c n dt = Ok blob →
  _decode_envelope blob rev = Ok (MkCell (JStr o) (JStr r) (JStr c) n dt rev).
Proof.
  intros Ho Hr Hc Hn (us & -> & Hdt%fromisoformat_rfc3339) He.
  eapply decode_payload; [done..|apply ascii_rfc3339|exact Hdt|].
  apply bind_ok_iff in He as (t & <-%Ok_inj & He).
  by apply of_option_ok, utf8_decode_encode in He.
Qed.

Lemma encode_ok o r c n us : ∃ blob, _encode_envelope o r c n (Aware us) = Ok blob.
Proof.
  assert (ok_strings (λ _, True) (json_sort (payload_of o r c n (rfc3339_text us)))) as Hp.
  { rewrite json_sort_payload. cbn. tauto. }
  apply print_ascii, ascii_encodable in Hp as [b Hb]. exists b. unfold _encode_envelope.
  cbn [_rfc3339 mbind result_bind]. unfold json_dumps. by rewrite Hb.
Qed.
End envelopes.

(** ** One exporter *)

Section single.
Context {S : Type} `{KvLaws S}.
Variable org_id : str.
Implicit Types (s : S) (r c : str) (n : Z).

Definition pair_key (r c : str) : str := _KEY_PREFIX ++ r ++ u "/" ++ c.

Lemma pair_key_inj r c r' c' :
  name_ok r → name_ok c → name_ok r' → name_ok c' →
  pair_key r c = pair_key r' c' → r = r' ∧ c = c'.
Proof.
  intros Hr Hc Hr' Hc' Hk.
  assert (parse_pair_key (pair_key r c) = Ok (r, c)) as E1 by (by apply parse_key_ok).
  assert (parse_pair_key (pair_key r' c') = Ok (r', c')) as E2 by (by apply parse_key_ok).
  rewrite Hk, E2 in E1. by apply Ok_inj in E1 as [= -> ->].
Qed.

(** The pair's cell holds [n] at revision [rev]. *)
Definition cell_at s r c (n rev : Z) : Prop :=
  ∃ b dt, kv_get s (pair_key r c) = Some (KvObj (Some (VBytes b)) (Some rev)) ∧
    _decode_envelope b rev =
      Ok (MkCell (JStr org_id) (JStr r) (JStr c) n dt rev).

Lemma cell_at_agree s r c n rev n' rev' :
  cell_at s r c n rev → cell_at s r c n' rev' → n = n' ∧ rev = rev'.
Proof.
  intros (b & dt & E & D) (b' & dt' & E' & D'). rewrite E in E'.
  injection E' as <- <-. rewrite D in D'. by apply Ok_inj in D' as [= -> _].
Qed.

Lemma field_is_true x t : field_is x t = true ↔ x = JStr t.
Proof.
  destruct x; cbn; try done. unfold str_eqb. rewrite bool_decide_eq_true. naive_solver.
Qed.

Lemma read_cell_none s r c :
  _read_cell org_id s r c = Ok None ↔
  name_ok r ∧ name_ok c ∧ kv_get s (pair_key r c) = None.
Proof.
  unfold _read_cell. split.
  - intros Hk. apply bind_ok_iff in Hk as (k & (? & ? & ->)%key_ok & Hk).
    fold (pair_key r c) in Hk. destruct (kv_get _ _) as [e|]; [|done]. by run_ok.
  - intros (? & ? & E). rewrite (proj2 (key_ok r c (pair_key r c))) by done.
    by rewrite bind_Ok, E.
Qed.

Lemma read_cell_some s r c x :
  _read_cell org_id s r c = Ok (Some x) ↔
  name_ok r ∧ name_ok c ∧ cell_at s r c (last_seen_sequence x) (revision x) ∧
  x = MkCell (JStr org_id) (JStr r) (JStr c) (last_seen_sequence x) (recorded_at x)
        (revision x) ∧
  ∃ b, kv_get s (pair_key r c) = Some (KvObj (Some (VBytes b)) (Some (revision x))) ∧
    _decode_envelope b (revision x) = Ok x.
Proof.
  unfold _read_cell. split.
  - intros Hk. apply bind_ok_iff in Hk as (k & (? & ? & ->)%key_ok & Hk).
    fold (pair_key r c) in Hk. destruct (kv_get _ _) as [e|] eqn:E; [|done].
    destruct (kv_get_shape _ _ _ E) as (b & rev & ->).
    cbn [_coerce_value_bytes _coerce_revision] in Hk. rewrite bind_Ok in Hk.
    apply bind_ok_iff in Hk as (y & D & Hk).
    apply bind_ok_iff in Hk as ([] & F1%raise_if_ok%negb_false_iff%field_is_true & Hk).
    apply bind_ok_iff in Hk as ([] & F2%raise_if_ok%negb_false_iff%field_is_true & Hk).
    apply bind_ok_iff in Hk as ([] & F3%raise_if_ok%negb_false_iff%field_is_true & Hk).
    apply Ok_inj in Hk as [= ->].
    assert (revision x = rev) as <-.
    { unfold _decode_envelope in D. run_ok. case_match; try done. run_ok.
      case_match; try done. by run_ok. }
    destruct x as [? ? ? n dt ?]. simpl in *. subst. split_and!; try done.
    + by exists b, dt.
    + by exists b.
  - intros (? & ? & _ & Ex & b & E & D). rewrite (proj2 (key_ok r c (pair_key r c))) by done.
    rewrite bind_Ok, E. cbn [_coerce_value_bytes _coerce_revision].
    rewrite bind_Ok, D, bind_Ok. rewrite Ex. cbn. unfold str_eqb.
    by rewrite !bool_decide_true.
Qed.

Lemma read_cell_at s r c n rev :
  name_ok r → name_ok c → cell_at s r c n rev →
  ∃ dt, _read_cell org_id s r c =
    Ok (Some (MkCell (JStr org_id) (JStr r) (JStr c) n dt rev)).
Proof.
  intros Hr Hc (b & dt & E & D). exists dt. apply read_cell_some.
  split_and!; try done; by exists b; try exists dt.
Qed.

Local Notation plan := (record_plan org_id).

(** What a plan that goes ahead knows: a positive number above the cell's,
    and a write that creates a free key or updates the revision it read. *)
Definition planned s r c n (w : kv_write) : Prop :=
  name_ok r ∧ name_ok c ∧ 1 ≤ n ∧ ∃ blob,
    (∀ rev, ∃ dt, _decode_envelope blob rev =
       Ok (MkCell (JStr org_id) (JStr r) (JStr c) n dt rev)) ∧
    ((w = Create (pair_key r c) blob ∧ kv_get s (pair_key r c) = None) ∨
     (∃ n0 rev, w = Update (pair_key r c) blob rev ∧ cell_at s r c n0 rev ∧ n0 < n)).

Hypothesis org_ok : name_ok org_id.

Lemma plan_planned s r c n dt w :
  iso_ok dt → plan s r c n dt None = Ok w → planned s r c n w.
Proof.
  intros Hdt Hp. unfold record_plan in Hp. cbn [_validate_org_id] in Hp.
  rewrite bind_Ok in Hp.
  apply bind_ok_iff in Hp as ([] & Hn%raise_if_ok%Z.ltb_ge & Hp).
  apply bind_ok_iff in Hp as (k & (Hr & Hc & ->)%key_ok & Hp). fold (pair_key r c) in Hp.
  apply bind_ok_iff in Hp as ([] & _ & Hp).
  apply bind_ok_iff in Hp as (cell & Hcell & Hp).
  apply bind_ok_iff in Hp as ([] & Hs%raise_if_ok%Z.leb_gt & Hp).
  apply bind_ok_iff in Hp as (blob & He & <-%Ok_inj).
  split_and!; [done..|]. exists blob. split.
  { intros rev. exists dt. by eapply decode_encode. }
  destruct cell as [x|].
  - apply read_cell_some in Hcell as (_ & _ & Hx & _). right. eauto.
  - apply read_cell_none in Hcell as (_ & _ & E). by left.
Qed.

(** The write of a plan succeeds while the key is as planned, and then the
    cell holds the planned number; any other pair's cell is untouched. *)
Lemma commit_planned s r c n w :
  planned s r c n w → ∃ s1 rev, commit s w = (s1, Ok rev) ∧ cell_at s1 r c n rev ∧
    (∀ n0 rev0, cell_at s r c n0 rev0 → rev0 < rev).
Proof.
  intros (_ & _ & _ & blob & Hb & [[-> E]|(n0 & rev0 & -> & Hx & _)]);
    cbn [commit]; unfold _kv_create, _kv_update.
  - destruct (proj2 (kv_create_iff s (pair_key r c) blob) E) as [[s1 rev] Ec]. rewrite Ec.
    exists s1, rev. destruct (Hb rev) as [dt D]. split_and!; [done| |].
    + exists blob, dt. by rewrite (kv_create_get _ _ _ _ _ _ Ec), decide_True.
    + intros n0 rev0 (? & ? & E' & _). congruence.
  - destruct Hx as (b & dt0 & E & D0).
    destruct (proj2 (kv_update_at s _ _ _ rev0 E blob) eq_refl) as [[s1 rev] Eu].
    rewrite Eu. exists s1, rev. destruct (Hb rev) as [dt D].
    destruct (kv_update_get _ _ _ _ _ _ (pair_key r c) Eu) as [Hlt Eg].
    split_and!; [done| |].
    + exists blob, dt. by rewrite Eg, decide_True.
    + intros n1 rev1 (? & ? & E' & _). rewrite E in E'. by injection E' as _ <-.
Qed.

Lemma commit_frame s k w s1 x :
  (∃ b, w = Create k b) ∨ (∃ b rev, w = Update k b rev) → commit s w = (s1, x) →
  ∀ k', k' ≠ k → kv_get s1 k' = kv_get s k'.
Proof.
  intros [[b ->]|(b & rev & ->)] Hc k' Hk; cbn [commit] in Hc;
    unfold _kv_create, _kv_update in Hc.
  - destruct (kv_create s k b) as [[s' r]|] eqn:E; simplify_eq; [|done].
    by rewrite (kv_create_get _ _ _ _ _ _ E), decide_False.
  - destruct (kv_update s k b rev) as [[s' r]|] eqn:E; simplify_eq; [|done].
    destruct (kv_update_get _ _ _ _ _ _ k' E) as [_ ->]. by rewrite decide_False.
Qed.

(** A write that conflicts leaves the store alone. *)
Lemma commit_err s w s1 e : commit s w = (s1, Err e) → s1 = s.
Proof.
  destruct w as [k b|k b r]; cbn [commit]; unfold _kv_create, _kv_update;
    [destruct (kv_create s k b) as [[]|]|destruct (kv_update s k b r) as [[]|]]; congruence.
Qed.

(** A write planned on an older revision of the cell conflicts. *)
Lemma commit_stale s k w n rev r c :
  k = pair_key r c → cell_at s r c n rev →
  (∃ b, w = Create k b) ∨ (∃ b rev0, w = Update k b rev0 ∧ rev0 ≠ rev) →
  ∃ ex, commit s w = (s, Err (ConcurrencyConflict k ex)).
Proof.
  intros -> (b0 & dt & E & _) [[b ->]|(b & rev0 & -> & Hne)]; cbn [commit];
    unfold _kv_create, _kv_update.
  - destruct (kv_create s (pair_key r c) b) eqn:Ec; [|eauto].
    assert (kv_get s (pair_key r c) = None) by (apply (kv_create_iff s _ b); eauto).
    congruence.
  - destruct (kv_update s (pair_key r c) b rev0) eqn:Eu; [|eauto].
    assert (rev0 = rev) by (apply (kv_update_at s _ _ rev rev0 E b); eauto). done.
Qed.

Lemma last_seen_at s r c n rev :
  name_ok r → name_ok c → cell_at s r c n rev →
  a_last_seen org_id s r c None = Ok n.
Proof.
  intros Hr Hc (dt & E)%read_cell_at; [|done..]. unfold a_last_seen. rewrite E. done.
Qed.

Lemma last_seen_free s r c :
  name_ok r → name_ok c → kv_get s (pair_key r c) = None →
  a_last_seen org_id s r c None = Ok 0.
Proof.
  intros. unfold a_last_seen.
  by rewrite (proj2 (read_cell_none s r c)).
Qed.

Lemma last_seen_frame s s1 r c :
  kv_get s1 (pair_key r c) = kv_get s (pair_key r c) →
  a_last_seen org_id s1 r c None = a_last_seen org_id s r c None.
Proof.
  unfold a_last_seen, _read_cell. intros E. cbn [_validate_org_id]. rewrite !bind_Ok.
  destruct (key_for_pair r c) as [k|e] eqn:Ek; [|done].
  apply key_ok in Ek as (_ & _ & ->). fold (pair_key r c). by rewrite !bind_Ok, E.
Qed.

Lemma commit_at s k w :
  (∃ b, w = Create k b) ∨ (∃ b rev, w = Update k b rev) → ∀ r c s1 x,
  commit s w = (s1, x) → pair_key r c ≠ k →
  a_last_seen org_id s1 r c None = a_last_seen org_id s r c None.
Proof. intros Hw r c s1 x Hc Hne. eapply last_seen_frame, commit_frame; eauto. Qed.

Lemma planned_key s r c n w :
  planned s r c n w →
  (∃ b, w = Create (pair_key r c) b) ∨ (∃ b rev, w = Update (pair_key r c) b rev).
Proof. intros (_ & _ & _ & b & _ & [[-> _]|(? & rev & -> & _)]); eauto. Qed.

(** When it goes ahead: on readable cells, exactly for numbers above the cell's. *)
Lemma plan_ok s r c n us cell :
  _read_cell org_id s r c = Ok cell →
  iso_ok (Aware us) → 1 ≤ n → seen cell < n →
  ∃ w, plan s r c n (Aware us) None = Ok w.
Proof.
  intros Hcell Hdt Hn Hlt. unfold record_plan. cbn [_validate_org_id is_naive].
  rewrite bind_Ok, (proj2 (Z.ltb_ge n 1)), raise_if_false, bind_Ok by lia.
  assert (name_ok r ∧ name_ok c) as [Hr Hc].
  { destruct cell; [apply read_cell_some in Hcell|apply read_cell_none in Hcell]; tauto. }
  rewrite (proj2 (key_ok r c (pair_key r c))), !bind_Ok, Hcell, bind_Ok by done.
  rewrite (proj2 (Z.leb_gt _ _)), raise_if_false, bind_Ok by done.
  destruct (encode_ok org_id r c n us) as [b ->]. rewrite bind_Ok. eauto.
Qed.

(** An exporter alone, on a readable cell and a number: a number below 1 is
    refused, one not above the last seen is refused as a replay, both with the
    store untouched; any other is recorded, is then the last seen number, its
    successor is next, and every other pair reads as before. *)
Theorem record_export_spec s r c n us cell :
  _read_cell org_id s r c = Ok cell →
  iso_ok (Aware us) →
  let '(s1, x) := a_record_export org_id s r c n (Aware us) None in
  if n <? 1 then s1 = s ∧ x = Err ExportShapeError
  else if n <=? seen cell then s1 = s ∧ x = Err (ReplayError (seen cell) n)
  else is_ok x = true ∧
    a_last_seen org_id s1 r c None = Ok n ∧
    a_next_sequence org_id s1 r c None = Ok (n + 1) ∧
    ∀ r' c', name_ok r' → name_ok c' → (r', c') ≠ (r, c) →
      a_last_seen org_id s1 r' c' None =
      a_last_seen org_id s r' c' None.
Proof.
  intros Hcell Hdt. unfold a_record_export. assert (name_ok r ∧ name_ok c) as [Hr Hc].
  { destruct cell; [apply read_cell_some in Hcell|apply read_cell_none in Hcell]; tauto. }
  destruct (Z.ltb_spec n 1) as [Hn|Hn].
  { unfold record_plan. cbn [_validate_org_id]. rewrite bind_Ok.
    by rewrite (proj2 (Z.ltb_lt n 1)). }
  destruct (Z.leb_spec n (seen cell)) as [Hle|Hlt].
  { unfold record_plan. cbn [_validate_org_id is_naive].
    rewrite bind_Ok, (proj2 (Z.ltb_ge n 1)), raise_if_false, bind_Ok by lia.
    rewrite (proj2 (key_ok r c (pair_key r c))), !bind_Ok, Hcell, bind_Ok by done.
    by rewrite (proj2 (Z.leb_le _ _)). }
  destruct (plan_ok s r c n us cell) as [w Hw]; [done..|]. rewrite Hw.
  apply plan_planned in Hw; [|done].
  destruct (commit_planned _ _ _ _ _ Hw) as (s1 & rev & Ec & Hat & _). rewrite Ec.
  assert (a_last_seen org_id s1 r c None = Ok n) as Hlast
    by (by eapply last_seen_at).
  split_and!; [done|done| |].
  - unfold a_next_sequence. by rewrite Hlast.
  - intros r' c' Hr' Hc' Hne. eapply commit_at; [by eapply planned_key|exact Ec|].
    intros [-> ->]%pair_key_inj; done.
Qed.

(** Two exporters that planned for one pair on the same state: the first write
    is accepted, the second gets a concurrency conflict and changes nothing. *)
Theorem exactly_one_winner s r c n1 n2 dt1 dt2 w1 w2 :
  iso_ok dt1 → iso_ok dt2 →
  plan s r c n1 dt1 None = Ok w1 → plan s r c n2 dt2 None = Ok w2 →
  ∃ s1 rev ex, commit s w1 = (s1, Ok rev) ∧
    commit s1 w2 = (s1, Err (ConcurrencyConflict (pair_key r c) ex)) ∧
    a_last_seen org_id s1 r c None = Ok n1.
Proof.
  intros Hd1 Hd2 Hp1%plan_planned Hp2%plan_planned; [|done..].
  destruct (commit_planned _ _ _ _ _ Hp1) as (s1 & rev & Ec & Hat & Hrev).
  pose proof Hp1 as (Hr & Hc & _).
  assert (∃ ex, commit s1 w2 = (s1, Err (ConcurrencyConflict (pair_key r c) ex))) as [ex Ex].
  { eapply commit_stale; [done|exact Hat|].
    destruct Hp2 as (_ & _ & _ & b & _ & [[-> _]|(n0 & rev0 & -> & Hlt0%Hrev & _)]); [eauto|].
    right. exists b, rev0. split; [done|lia]. }
  exists s1, rev, ex. split_and!; [done|done|]. by eapply last_seen_at.
Qed.

(** ** Concurrent exporters

    Any number of exporters share the bucket.  One step of the system is one
    stretch of [a_record_export] between its awaits: the read and decision, or
    the write of an earlier plan, accepted or refused.  [accepted] lists the
    exports that were acknowledged, in the order of their writes. *)

Record sys := Sys {
  store : S;
  pending : gmap nat (str * str * Z * kv_write);
  accepted : list (str * str * Z);
}.

Inductive sys_step : sys → sys → Prop :=
| step_plan σ i r c n dt w :
    iso_ok dt →
    plan (store σ) r c n dt None = Ok w → pending σ !! i = None →
    sys_step σ (Sys (store σ) (<[i := (r, c, n, w)]> (pending σ)) (accepted σ))
| step_commit σ i r c n w s' rev :
    pending σ !! i = Some (r, c, n, w) → commit (store σ) w = (s', Ok rev) →
    sys_step σ (Sys s' (delete i (pending σ)) (accepted σ ++ [(r, c, n)]))
| step_conflict σ i r c n w s' e :
    pending σ !! i = Some (r, c, n, w) → commit (store σ) w = (s', Err e) →
    sys_step σ (Sys s' (delete i (pending σ)) (accepted σ)).

(** The accepted numbers of one pair. *)
Fixpoint numbers_of (r c : str) (l : list (str * str * Z)) : list Z :=
  match l with
  | [] => []
  | (r', c', n) :: l' =>
      if decide ((r', c') = (r, c)) then n :: numbers_of r c l' else numbers_of r c l'
  end.

Lemma numbers_of_app r c l1 l2 :
  numbers_of r c (l1 ++ l2) = numbers_of r c l1 ++ numbers_of r c l2.
Proof.
  induction l1 as [|[[r' c'] n] l1 IH]; [done|]. cbn [numbers_of app].
  rewrite IH. by case_decide.
Qed.

(** A plan made earlier: it refers to a revision no newer than the cell's, and
    to the cell's own revision only if its number is above the cell's. *)
Definition once_planned s r c n (w : kv_write) : Prop :=
  ∃ blob,
    (∀ rev, ∃ dt, _decode_envelope blob rev =
       Ok (MkCell (JStr org_id) (JStr r) (JStr c) n dt rev)) ∧
    (w = Create (pair_key r c) blob ∨
     (∃ n0 rev0 rev, w = Update (pair_key r c) blob rev0 ∧ cell_at s r c n0 rev ∧
        rev0 ≤ rev ∧ (rev0 = rev → n0 < n))).

Definition cell_of s r c (l : list Z) : Prop :=
  match last l with
  | None => kv_get s (pair_key r c) = None
  | Some n => ∃ rev, cell_at s r c n rev
  end.

Definition pending_ok s r c (x : str * str * Z * kv_write) : Prop :=
  let '(r', c', n, w) := x in
  name_ok r' ∧ name_ok c' ∧ 1 ≤ n ∧
  ((∃ b, w = Create (pair_key r' c') b) ∨ (∃ b rev, w = Update (pair_key r' c') b rev)) ∧
  ((r', c') = (r, c) → once_planned s r c n w).

Definition sys_ok r c (σ : sys) : Prop :=
  cell_of (store σ) r c (numbers_of r c (accepted σ)) ∧
  StronglySorted Z.lt (0 :: numbers_of r c (accepted σ)) ∧
  map_Forall (λ _ x, pending_ok (store σ) r c x) (pending σ).

Lemma sorted_snoc (a : Z) l n :
  StronglySorted Z.lt (a :: l) → default a (last l) < n → StronglySorted Z.lt (a :: l ++ [n]).
Proof.
  revert a. induction l as [|x l IH]; intros a Hs Hn.
  - simpl in *. by repeat constructor.
  - apply StronglySorted_inv in Hs as [Hs Ha].
    assert (default x (last l) < n) as Hx by (rewrite last_cons in Hn; by destruct (last l)).
    specialize (IH x Hs Hx). constructor; [exact IH|].
    apply Forall_cons in Ha as [Hax Ha]. cbn [app]. constructor; [done|].
    apply Forall_app. split; [done|]. constructor; [|done].
    apply StronglySorted_inv in IH as [_ Hl]. rewrite Forall_app, Forall_singleton in Hl. lia.
Qed.

Lemma planned_once s r c n w : planned s r c n w → once_planned s r c n w.
Proof.
  intros (_ & _ & _ & b & Hb & Hw). exists b. split; [done|].
  destruct Hw as [[-> _]|(n0 & rev & -> & Hx & Hlt)]; [by left|].
  right. by exists n0, rev, rev.
Qed.

(** A write for another pair does not disturb the invariant of this one. *)
Lemma other_pair s s1 r c l x :
  kv_get s1 (pair_key r c) = kv_get s (pair_key r c) →
  (cell_of s r c l → cell_of s1 r c l) ∧ (pending_ok s r c x → pending_ok s1 r c x).
Proof.
  intros E. assert (∀ n rev, cell_at s r c n rev → cell_at s1 r c n rev) as Hat.
  { intros n rev (b & dt & Eb & D). exists b, dt. by rewrite E. }
  split.
  - unfold cell_of. destruct (last l); [|by rewrite E]. intros [rev Hx]. eauto.
  - destruct x as [[[r' c'] n] w]. intros (? & ? & ? & Hk & Hw). split_and!; [done..|].
    intros Hp. destruct (Hw Hp) as (b & Hb & [?|(n0 & rev0 & rev & ? & ? & ? & ?)]);
      exists b; (split; [done|]); [by left|right; eauto 10].
Qed.

(** A pending plan whose write is accepted now is a plan of this state. *)
Lemma once_planned_now s r c n w s1 rev l :
  name_ok r → name_ok c → 1 ≤ n → once_planned s r c n w → cell_of s r c l →
  commit s w = (s1, Ok rev) → planned s r c n w ∧ default 0 (last l) < n.
Proof.
  intros Hr Hc Hn (b & Hb & Hw) Hl Ec. unfold cell_of in Hl.
  destruct Hw as [->|(n0 & rev0 & rev1 & -> & Hx & Hle & Hlt)].
  - destruct (last l) as [m|]; [destruct Hl as [rev1 Hx]|].
    + exfalso. destruct (commit_stale s (pair_key r c) (Create (pair_key r c) b) m rev1 r c)
        as [ex E]; eauto. congruence.
    + split; [|simpl; lia]. split_and!; [done..|]. exists b. split; [done|]. by left.
  - assert (rev0 = rev1) as ->.
    { destruct (decide (rev0 = rev1)); [done|]. exfalso.
      destruct (commit_stale s (pair_key r c) (Update (pair_key r c) b rev0) n0 rev1 r c)
        as [ex E]; eauto. congruence. }
    assert (last l = Some n0) as ->.
    { destruct (last l) as [m|].
      - destruct Hl as [rev2 Hx2]. by destruct (cell_at_agree _ _ _ _ _ _ _ Hx Hx2) as [-> _].
      - destruct Hx as (? & ? & E & _). congruence. }
    split; [|simpl; auto]. split_and!; [done..|]. exists b. split; [done|].
    right. exists n0, rev1. auto.
Qed.

(** Writes to different keys do not meet. *)
Lemma pair_key_other r c r' c' :
  name_ok r → name_ok c → name_ok r' → name_ok c' → (r', c') ≠ (r, c) →
  pair_key r c ≠ pair_key r' c'.
Proof. intros Hr Hc Hr' Hc' Hne [-> ->]%pair_key_inj; done. Qed.

(** An accepted write of this pair puts its number in the cell and makes every
    other plan for the pair stale. *)
Lemma commit_same s r c n w s1 rev l x :
  name_ok r → name_ok c → planned s r c n w → commit s w = (s1, Ok rev) →
  cell_of s r c l → pending_ok s r c x →
  cell_of s1 r c (l ++ [n]) ∧ pending_ok s1 r c x.
Proof.
  intros Hr Hc Hp Ec Hl Hx.
  destruct (commit_planned _ _ _ _ _ Hp) as (s2 & rev2 & Ec2 & Hat & Hrev).
  rewrite Ec in Ec2. injection Ec2 as <- <-. split.
  { unfold cell_of. rewrite last_snoc. by exists rev. }
  destruct x as [[[r' c'] m] v]. destruct Hx as (? & ? & ? & ? & Hv). split_and!; [done..|].
  intros E. destruct (Hv E) as (b & Hb & [?|(n0 & rev0 & rev1 & ? & Hold & Hle & _)]);
    exists b; (split; [done|]); [by left|right].
  apply Hrev in Hold. exists n, rev0, rev. split_and!; [done..|lia|lia].
Qed.

Lemma sys_step_ok r c σ σ' :
  name_ok r → name_ok c → sys_step σ σ' → sys_ok r c σ → sys_ok r c σ'.
Proof.
  intros Hr Hc Hstep (Hcell & Hsort & Hpend).
  destruct Hstep as [σ i r' c' n dt w Hdt Hp Hi|σ i r' c' n w s' rev Hi Ec|σ i r' c' n w s' e Hi Ec].
  - split_and!; [done..|]. apply map_Forall_insert_2; [|done].
    apply plan_planned in Hp; [|done]. pose proof Hp as (? & ? & ? & _).
    split_and!; [done..|by eapply planned_key|]. intros [= -> ->]. by apply planned_once.
  - pose proof (Hpend _ _ Hi) as (Hr' & Hc' & Hn & Hk & Hw).
    unfold sys_ok. cbn [store pending accepted]. rewrite numbers_of_app. cbn [numbers_of].
    destruct (decide ((r', c') = (r, c))) as [E|Hne].
    + injection E as -> ->.
      destruct (once_planned_now _ _ _ _ _ _ _ _ Hr Hc Hn (Hw eq_refl) Hcell Ec) as [Hp Hlt].
      split_and!.
      * by apply (commit_same _ _ _ _ _ _ _ _ (r, c, n, w) Hr Hc Hp Ec Hcell).
      * by apply sorted_snoc.
      * apply map_Forall_delete. intros j x Hj.
        by apply (commit_same _ _ _ _ _ _ _ _ x Hr Hc Hp Ec Hcell), (Hpend j).
    + assert (kv_get s' (pair_key r c) = kv_get (store σ) (pair_key r c)) as E.
      { eapply commit_frame; [exact Hk|exact Ec|by apply pair_key_other]. }
      rewrite app_nil_r. split_and!; [|done|].
      * by apply (other_pair _ _ _ _ _ (r', c', n, w) E).
      * apply map_Forall_delete. intros j x Hj.
        by apply (other_pair _ _ _ _ [] x E), (Hpend j).
  - apply commit_err in Ec as ->. split_and!; [done..|]. by apply map_Forall_delete.
Qed.

(** C35: Under every interleaving of exporters that start on a free cell, the
    acknowledged sequence numbers of a pair are positive and strictly increase
    in the order of their writes, and the cell reads as the last of them: no
    number is acknowledged twice and none is lost. *)
Theorem ledger_linear r c s σ :
  name_ok r → name_ok c → kv_get s (pair_key r c) = None →
  rtc sys_step (Sys s ∅ []) σ →
  StronglySorted Z.lt (0 :: numbers_of r c (accepted σ)) ∧
  a_last_seen org_id (store σ) r c None =
    Ok (default 0 (last (numbers_of r c (accepted σ)))).
Proof.
  intros Hr Hc Hfree Hrun. assert (sys_ok r c σ) as (Hcell & Hsort & _).
  { eapply (rtc_invariant sys_step (sys_ok r c)); [|exact Hrun|].
    - intros σ1 σ2 Hstep. by apply sys_step_ok.
    - split_and!; [done|by repeat constructor|apply map_Forall_empty]. }
  split; [done|]. unfold cell_of in Hcell.
  destruct (last _) as [n|]; [destruct Hcell as [rev Hx]; by eapply last_seen_at|].
  by apply last_seen_free.
Qed.
End single.
End Ledger.

(** ** An in-memory bucket, and the theorems at concrete inputs *)

Notation mem_kv := (gmap str (bytes * Z)).

#[export] Instance mem_bucket : KvBucket mem_kv := {
  kv_get s k := (λ vr, KvObj (Some (VBytes vr.1)) (Some vr.2)) <$> s !! k;
  kv_create s k v := match s !! k with
                     | None => Some (<[k := (v, 1)]> s, 1)
                     | Some _ => None
                     end;
  kv_update s k v last := match s !! k with
                          | Some (_, r) => if r =? last
                                           then Some (<[k := (v, last + 1)]> s, last + 1)
                                           else None
                          | None => None
                          end;
}.

#[export] Instance mem_laws : KvLaws mem_kv.
Proof.
  split; simpl.
  - intros s k e ([v r] & _ & ->)%fmap_Some. eauto.
  - intros s k v. rewrite fmap_None. destruct (s !! k); split; intros Hx; try done; try by destruct Hx.
  - intros s k v s' r k' Hc. destruct (s !! k); simplify_eq.
    rewrite lookup_insert. repeat case_decide; subst; done.
  - intros s k v r0 last ([v' r] & -> & [= -> ->])%fmap_Some v2.
    destruct (Z.eqb_spec r last); split; intros Hx; eauto; [by destruct Hx|congruence].
  - intros s k v last s' r k' Hu. destruct (s !! k) as [[v' r']|]; [|done].
    destruct (Z.eqb_spec r' last); simplify_eq. split; [lia|].
    rewrite lookup_insert. repeat case_decide; subst; done.
Qed.

Module LedgerExample.

Definition org : str := u "acme".
Definition route : str := u "r1".
Definition chain : str := u "c1".
Definition plan (n : Z) : result ledger_error Ledger.kv_write :=
  Ledger.record_plan org (∅ : mem_kv) route chain n (Aware 0) None.
Definition w1 : Ledger.kv_write := ok_or (Ledger.Create [] []) (plan 1).
Definition w2 : Ledger.kv_write := ok_or (Ledger.Create [] []) (plan 5).

Lemma name_ok_dec s : Ledger._KEY_COMPONENT_RE s = true → Ledger.name_ok s.
Proof. done. Qed.

Lemma iso_zero : Ledger.iso_ok (Aware 0).
Proof. exists 0. split; [done|]. split; [by vm_compute|by vm_compute]. Qed.

Lemma record_export_spec_witness :
  let '(s1, x) := Ledger.a_record_export org (∅ : mem_kv) route chain 3 (Aware 0) None in
  if 3 <? 1 then s1 = ∅ ∧ x = Err ExportShapeError
  else if 3 <=? Ledger.seen None then s1 = ∅ ∧ x = Err (ReplayError (Ledger.seen None) 3)
  else is_ok x = true ∧
    Ledger.a_last_seen org s1 route chain None = Ok 3 ∧
    Ledger.a_next_sequence org s1 route chain None = Ok (3 + 1) ∧
    ∀ r' c', Ledger.name_ok r' → Ledger.name_ok c' → (r', c') ≠ (route, chain) →
      Ledger.a_last_seen org s1 r' c' None = Ledger.a_last_seen org ∅ r' c' None.
Proof.
  apply (Ledger.record_export_spec org ltac:(by vm_compute) (∅ : mem_kv) route chain 3 0 None).
  - vm_compute. reflexivity.
  - apply iso_zero.
Defined.

Lemma exactly_one_winner_witness :
  ∃ s1 rev ex, Ledger.commit (∅ : mem_kv) w1 = (s1, Ok rev) ∧
    Ledger.commit s1 w2 = (s1, Err (ConcurrencyConflict (Ledger.pair_key route chain) ex)) ∧
    Ledger.a_last_seen org s1 route chain None = Ok 1.
Proof.
  apply (Ledger.exactly_one_winner org ltac:(by vm_compute) (∅ : mem_kv) route chain 1 5
           (Aware 0) (Aware 0) w1 w2 iso_zero iso_zero); vm_compute; reflexivity.
Defined.

(** One exporter, from plan to acknowledgement. *)
Definition s_done : mem_kv := (Ledger.commit (∅ : mem_kv) w1).1.
Definition sys_done : Ledger.sys := Ledger.Sys s_done ∅ [(route, chain, 1)].

Lemma run_done : rtc (Ledger.sys_step org) (Ledger.Sys ∅ ∅ []) sys_done.
Proof.
  eapply rtc_l; [eapply (Ledger.step_plan org _ 0 route chain 1 (Aware 0) w1 iso_zero)|].
  - vm_compute. reflexivity.
  - done.
  - eapply rtc_l; [eapply (Ledger.step_commit org _ 0 route chain 1 w1 s_done 1)|].
    + reflexivity.
    + vm_compute. reflexivity.
    + apply rtc_refl.
Qed.

Lemma ledger_linear_witness :
  StronglySorted Z.lt (0 :: Ledger.numbers_of route chain [(route, chain, 1)]) ∧
  Ledger.a_last_seen org s_done route chain None =
    Ok (default 0 (last (Ledger.numbers_of route chain [(route, chain, 1)]))).
Proof.
  apply (Ledger.ledger_linear org ltac:(by vm_compute) route chain (∅ : mem_kv) sys_done);
    [vm_compute; reflexivity|vm_compute; reflexivity|vm_compute; reflexivity|apply run_done].
Defined.
End LedgerExample.
