(* ===== verification/PinnedKv.v ===== *)
(** * Pinned writes on a bucket

    A pinned write reads the live entry of its key, checks what it is about to
    write against it, and updates the key only if it still has the revision that
    the caller names.  Between the check and the update other writers may act.

    [PinnedStore] is what a store on a bucket offers for this; [PinnedLaws] is
    what it promises.  The library concludes, for every interleaving of any
    number of writers: what one write keeps of the entry it replaces is kept by
    all of them, and the acknowledged writes in their order say what the bucket
    holds. *)

From S2P Require Import Prelude PyStr.
From Stdlib Require Import ZArith Lia.

Open Scope Z_scope.

Record PinnedStore (S E R : Type) := MkPinnedStore {
  st_view : S → str → option (R * Z);              (* the live record and its revision *)
  st_top : S → Z;                                  (* no revision is above it *)
  st_ok : R → Prop;                                (* what a writer may ask to write *)
  st_plan : S → R → Z → result E (str * bytes);    (* everything up to the update *)
  st_update : S → str → bytes → Z → S * result E Z;
  st_planned : R → str → bytes → Prop;             (* the write that a plan decides on *)
  st_keeps : R → R → Prop;                         (* what the check is for *)
}.
Arguments MkPinnedStore {S E R}.
Arguments st_view {S E R}.
Arguments st_top {S E R}.
Arguments st_ok {S E R}.
Arguments st_plan {S E R}.
Arguments st_update {S E R}.
Arguments st_planned {S E R}.
Arguments st_keeps {S E R}.

(** A plan checks the record that has the named revision; an acknowledged update
    replaced that revision, and touched no other key. *)
Class PinnedLaws {S E R} (st : PinnedStore S E R) : Prop := {
  plan_sound s r e k b :
    st_ok st r → st_plan st s r e = Ok (k, b) →
    st_planned st r k b ∧ ∀ x, st_view st s k = Some (x, e) → st_keeps st x r;
  update_sound s r k b e s' rev :
    st_planned st r k b → st_update st s k b e = (s', Ok rev) →
    st_top st s < rev ≤ st_top st s' ∧
    (∀ k', st_view st s' k' = if decide (k' = k) then Some (r, rev) else st_view st s k') ∧
    ∀ x r0, st_view st s k = Some (x, r0) → r0 = e;
}.

Record pinned (R : Type) := MkPinned {
  pin_record : R;
  pin_key : str;
  pin_blob : bytes;
  pin_expected : Z;
}.
Arguments MkPinned {R}.
Arguments pin_record {R}.
Arguments pin_key {R}.
Arguments pin_blob {R}.
Arguments pin_expected {R}.

(** The bucket, the calls that wait for their update, and the acknowledged
    writes in order. *)
Record pinned_sys (S R : Type) := PinnedSys {
  pin_bucket : S;
  pin_writers : gmap nat (pinned R);
  pin_log : list (pinned R * Z);
}.
Arguments PinnedSys {S R}.
Arguments pin_bucket {S R}.
Arguments pin_writers {S R}.
Arguments pin_log {S R}.

Section pinned.
Context {S E R : Type} (st : PinnedStore S E R).

Definition update_of (s : S) (p : pinned R) : S * result E Z :=
  st_update st s (pin_key p) (pin_blob p) (pin_expected p).

(** A caller pins a revision that it has been given before. *)
Inductive pinned_step (σ : pinned_sys S R) : pinned_sys S R → Prop :=
| pin_plan i r e key blob :
    st_ok st r → e ≤ st_top st (pin_bucket σ) → st_plan st (pin_bucket σ) r e = Ok (key, blob) →
    pin_writers σ !! i = None →
    pinned_step σ (PinnedSys (pin_bucket σ) (<[i := MkPinned r key blob e]> (pin_writers σ)) (pin_log σ))
| pin_update i p s' rev :
    pin_writers σ !! i = Some p → update_of (pin_bucket σ) p = (s', Ok rev) →
    pinned_step σ (PinnedSys s' (delete i (pin_writers σ)) (pin_log σ ++ [(p, rev)]))
| pin_refused i p err :
    pin_writers σ !! i = Some p → update_of (pin_bucket σ) p = (pin_bucket σ, Err err) →
    pinned_step σ (PinnedSys (pin_bucket σ) (delete i (pin_writers σ)) (pin_log σ)).

Context `{!PinnedLaws st}.

(** What a waiting call knows: if its revision is still the live one, its check
    was about the live record. *)
Definition pinned_ok (s : S) (p : pinned R) : Prop :=
  st_planned st (pin_record p) (pin_key p) (pin_blob p) ∧ pin_expected p ≤ st_top st s ∧
  ∀ x, st_view st s (pin_key p) = Some (x, pin_expected p) → st_keeps st x (pin_record p).

(** An acknowledged update of such a call. *)
Lemma pinned_effect s p s' rev :
  pinned_ok s p → update_of s p = (s', Ok rev) →
  (∀ k, st_view st s' k = if decide (k = pin_key p) then Some (pin_record p, rev) else st_view st s k) ∧
  (∀ x n, st_view st s (pin_key p) = Some (x, n) → st_keeps st x (pin_record p)) ∧
  st_top st s < rev ≤ st_top st s'.
Proof.
  intros (Hp & _ & Hlive) Hu. destruct (update_sound _ _ _ _ _ _ _ Hp Hu) as (Ht & Hv & Hr).
  split_and!; [done| |lia|lia]. intros x n Hx. apply Hlive. by rewrite Hx, (Hr x n Hx).
Qed.

(** Other calls still know what they knew: the new revision is above theirs. *)
Lemma pinned_ok_after s p q s' rev :
  pinned_ok s p → pinned_ok s q → update_of s p = (s', Ok rev) → pinned_ok s' q.
Proof.
  intros Hp (Hq & He & Hlive) Hu. destruct (pinned_effect s p s' rev Hp Hu) as (Hv & _ & Ht).
  split_and!; [done|lia|]. intros x Hx. apply Hlive. rewrite Hv in Hx.
  case_decide; [|done]. injection Hx as _ ->. lia.
Qed.

Definition all_pinned (σ : pinned_sys S R) : Prop := map_Forall (λ _, pinned_ok (pin_bucket σ)) (pin_writers σ).

Lemma step_all_pinned σ σ' : pinned_step σ σ' → all_pinned σ → all_pinned σ'.
Proof.
  intros Hs Hw. destruct Hs as [i r e key blob Hr He Hp Hi|i p s' rev Hi Hu|i p err Hi Hu]; unfold all_pinned; cbn.
  - apply map_Forall_insert_2; [|done]. destruct (plan_sound _ _ _ _ _ Hr Hp) as [Hpl Hk]. by split_and!.
  - intros j q Hq%lookup_delete_Some. eapply pinned_ok_after; [by eapply Hw|by eapply Hw, Hq|done].
  - by apply map_Forall_delete.
Qed.

(** Induction over the acknowledged writes of a run. *)
Lemma pinned_ind (P : S → list (pinned R * Z) → Prop) σ σ' :
  (∀ s l p s' rev, P s l → pinned_ok s p → update_of s p = (s', Ok rev) → P s' (l ++ [(p, rev)])) →
  pin_writers σ = ∅ → P (pin_bucket σ) (pin_log σ) → rtc pinned_step σ σ' → P (pin_bucket σ') (pin_log σ').
Proof.
  intros HP Hnone H0 Hrun. enough (all_pinned σ' ∧ P (pin_bucket σ') (pin_log σ')) as [_ ?] by done.
  eapply (rtc_invariant pinned_step (λ σ, all_pinned σ ∧ P (pin_bucket σ) (pin_log σ))); [|exact Hrun|].
  - intros a b Hs [Hw Ha]. split; [by eapply step_all_pinned|].
    destruct Hs as [i r e key blob Hr He Hp Hi|i p s' rev Hi Hu|i p err Hi Hu]; cbn; [done| |done].
    eapply HP; [done| |done]. by eapply Hw.
  - split; [|done]. unfold all_pinned. rewrite Hnone. apply map_Forall_empty.
Qed.

(** What a write keeps is kept by every run. *)
Lemma pinned_keeps `{!PreOrder (st_keeps st)} σ σ' k x n :
  pin_writers σ = ∅ → rtc pinned_step σ σ' → st_view st (pin_bucket σ) k = Some (x, n) →
  ∃ y n', st_view st (pin_bucket σ') k = Some (y, n') ∧ st_keeps st x y.
Proof.
  intros Hw Hrun Hx.
  apply (pinned_ind (λ s _, ∃ y n', st_view st s k = Some (y, n') ∧ st_keeps st x y) σ σ'); [|done| |done].
  - intros s l p s' rev (y & n' & Hy & Hxy) Hp Hu.
    destruct (pinned_effect s p s' rev Hp Hu) as (Hv & Hkeep & _). rewrite Hv. case_decide as Hk; [|by eauto].
    subst k. exists (pin_record p), rev. split; [done|]. etrans; [done|]. by eapply Hkeep.
  - exists x, n. split; [done|reflexivity].
Qed.
End pinned.
