(* ===== verification/MarkerKv.v ===== *)
(** * The persistent marker stack ([wirelang/federation/marker_stack_kv.py])

    The events of a token are entries of the bucket of its organisation, one
    key per sequence number, written by create only.  The bucket is [Ledger]'s,
    with a listing of its keys.  A put is split where it awaits: the listing of
    the keys, a get per key, the decision ([put_plan]) and the create.

    The theorems: keys and envelopes read back; under every interleaving of
    writers the acknowledged events of a token carry the numbers 1, 2, 3, ... in
    the order of their writes and the stack that is read back consists of
    exactly these events; a writer alone appends one event or changes nothing. *)

From S2P Require Import Prelude PyStr PyFloat PyJson PyJsonLoads PyRepr PyDyn PyEqual PyTime PyIso CrossOrg MarkerStack Ledger.
From Stdlib Require Import ZArith Lia Sorted SpecFloat.

Open Scope Z_scope.

(** [keys()] of the client; [None] is an exception it raises (for an empty
    bucket, for example).  An answer lists the keys that have an entry. *)
Class KvKeys (S : Type) := kv_keys : S → option (list str).

Class KvKeysLaws (S : Type) `{KvBucket S} `{KvKeys S} : Prop := {
  kv_keys_nodup s l : kv_keys s = Some l → NoDup l;
  kv_keys_in s l k : kv_keys s = Some l → k ∈ l ↔ is_Some (kv_get s k);
}.

Inductive marker_kv_error : Type :=
| KeyValueError                        (* ValueError of the key helpers *)
| MarkerStackEnvelopeError
| MarkerStackArgumentError
| MarkerStackConcurrencyConflictError (key : option str) (expected observed : option Z)
| MarkerStackCrossOrgBoundaryError (backend requested : str)
| MarkerStackContextConflictError
| EventError (e : marker_error)        (* of a constructor or of the reducer *)
| TieBreakOverflowError                (* OverflowError: int() of an infinity *)
| KvUnicodeError                       (* UnicodeEncodeError of a text value *)
| KvClientError.                       (* an exception of the client *)

Module MarkerKv.
Import Ledger.Ledger MarkerStack.MarkerStack.

#[export] Instance json_py_eq : PyEq json := item_eq.

(** Events as the bucket holds them: caveat arguments are JSON values, and so
    are anchors and trust domains, which nothing checks. *)
Notation event := (marker_event (A:=json) (X:=json)).
Notation caveats := (caveat_set (A:=json)).

Definition BUCKET_NAME_PREFIX : str := u "wakir-marker-stack-".
Definition VALUE_SCHEMA : str := u "wakir.wirelang.marker-stack-event/1".
Definition _KEY_PREFIX : str := u "marker-events/".
Definition _IDENT_RE : str → bool := re_dollar name_full.

(** ** Names and keys *)

Definition bucket_name_for_org (org_id : str) : result marker_kv_error str :=
  raise_if (str_empty org_id) KeyValueError;;
  raise_if (negb (_IDENT_RE org_id)) KeyValueError;;
  Ok (BUCKET_NAME_PREFIX ++ org_id).

Definition org_id_for_bucket_name (bucket_name : str) : result marker_kv_error str :=
  raise_if (negb (startswith bucket_name BUCKET_NAME_PREFIX)) KeyValueError;;
  let org_id := drop (length BUCKET_NAME_PREFIX) bucket_name in
  raise_if (negb (_IDENT_RE org_id)) KeyValueError;;
  Ok org_id.

Definition token_prefix (token : str) : str := _KEY_PREFIX ++ token ++ u "/".
Definition event_key (token : str) (sequence : Z) : str := token_prefix token ++ pad 12 sequence.

Definition key_for_event (token : str) (sequence : Z) : result marker_kv_error str :=
  raise_if (str_empty token) KeyValueError;;
  raise_if (negb (_IDENT_RE token)) KeyValueError;;
  raise_if (sequence <? 1) KeyValueError;;
  Ok (event_key token sequence).

Definition parse_event_key (key : str) : result marker_kv_error (str * Z) :=
  raise_if (negb (startswith key _KEY_PREFIX)) KeyValueError;;
  match split_on 47 (drop (length _KEY_PREFIX) key) with
  | [token; sequence_raw] =>
      raise_if (str_empty token) KeyValueError;;
      raise_if (negb (_IDENT_RE token)) KeyValueError;;
      sequence ← of_option KeyValueError (int_of_text sequence_raw);
      raise_if (sequence <? 1) KeyValueError;;
      Ok (token, sequence)
  | _ => Err KeyValueError
  end.

(** ** Records *)

Inductive MarkerEventKind : Type :=
| REVOKE | UNREVOKE | RE_ISSUANCE | CAVEAT_OVERRIDE | BRIDGE_REVOKED.

Definition kind_value (k : MarkerEventKind) : str :=
  match k with
  | REVOKE => u "revoke"
  | UNREVOKE => u "unrevoke"
  | RE_ISSUANCE => u "re_issuance"
  | CAVEAT_OVERRIDE => u "caveat_override"
  | BRIDGE_REVOKED => u "bridge_revoked"
  end.

Definition all_kinds : list MarkerEventKind :=
  [REVOKE; UNREVOKE; RE_ISSUANCE; CAVEAT_OVERRIDE; BRIDGE_REVOKED].

(** [MarkerEventKind(value)] *)
Definition kind_of_value (j : json) : option MarkerEventKind :=
  List.find (λ k, py_eq j (JStr (kind_value k))) all_kinds.

Record StackContext := MkContext {
  minted_at : datetime;
  original_caveat_set : option caveats;
}.

Record MarkerEventRecord := MkRecord {
  rec_org_id : json;
  rec_token_id : json;
  sequence : Z;
  rec_event_kind : MarkerEventKind;
  rec_event : event;
  stack_context : StackContext;
  appended_at : datetime;
}.

Record MarkerStackVersion := MkVersion {
  version_token_id : str;
  version_sequence : Z;
  version_appended_at : datetime;
}.

(** [==] of the dataclass *)
Definition context_eqb (a b : StackContext) : bool :=
  dt_eqb (minted_at a) (minted_at b) &&
  match original_caveat_set a, original_caveat_set b with
  | Some c, Some d => caveats_eqb c d
  | None, None => true
  | _, _ => false
  end.

(** ** Encoding *)

Definition _rfc3339 (dt : datetime) : result marker_kv_error str :=
  match dt with
  | Naive _ => Err MarkerStackArgumentError
  | Aware us => Ok (rfc3339_text us)
  end.

Definition time_json (dt : datetime) : result marker_kv_error json :=
  t ← _rfc3339 dt; Ok (JStr t).

Definition _encode_caveat_set (cs : option caveats) : json :=
  match cs with
  | None => JNull
  | Some cs => JList ((λ entry, JList [JStr entry.1; JList entry.2]) <$> cs)
  end.

Definition _event_kind_for (e : event) : MarkerEventKind :=
  match e with
  | RevokeEvent _ _ _ _ => REVOKE
  | UnrevokeEvent _ _ _ _ _ => UNREVOKE
  | ReIssuanceEvent _ _ _ _ _ => RE_ISSUANCE
  | CaveatOverrideEvent _ _ _ _ _ _ => CAVEAT_OVERRIDE
  | BridgeRevokedEvent _ _ _ => BRIDGE_REVOKED
  end.

Definition text_json (s : option str) : json :=
  match s with Some s => JStr s | None => JNull end.

Definition _encode_event_payload (e : event) : result marker_kv_error json :=
  match e with
  | RevokeEvent t reason tie anchor =>
      t ← time_json t;
      Ok (JObj [(u "event_at", t); (u "revocation_reason", text_json reason);
                (u "tie_break", JInt tie); (u "wat_anchor_manifest_id", anchor)])
  | UnrevokeEvent t previous reason tie anchor =>
      t ← time_json t;
      previous ← time_json previous;
      Ok (JObj [(u "event_at", t); (u "previous_revoked_at", previous);
                (u "unrevoke_reason", text_json reason);
                (u "tie_break", JInt tie); (u "wat_anchor_manifest_id", anchor)])
  | ReIssuanceEvent t token reason tie anchor =>
      t ← time_json t;
      Ok (JObj [(u "event_at", t); (u "new_token_id", JStr token);
                (u "re_issuance_reason", text_json reason);
                (u "tie_break", JInt tie); (u "wat_anchor_manifest_id", anchor)])
  | CaveatOverrideEvent t original narrowed reason tie anchor =>
      t ← time_json t;
      Ok (JObj [(u "event_at", t);
                (u "original_caveat_set", _encode_caveat_set (Some original));
                (u "narrowed_caveat_set", _encode_caveat_set (Some narrowed));
                (u "override_reason", text_json reason);
                (u "tie_break", JInt tie); (u "wat_anchor_manifest_id", anchor)])
  | BridgeRevokedEvent marker tie anchor =>
      t ← time_json (marker_revoked_at marker);
      Ok (JObj [(u "marker", JObj [(u "source_ftd_id", marker_source marker);
                                   (u "target_ftd_id", marker_target marker);
                                   (u "revoked_at", t)]);
                (u "tie_break", JInt tie); (u "wat_anchor_manifest_id", anchor)])
  end.

Definition envelope_json (org_id token : str) (sequence : Z) (e : event) (payload : json)
    (mint : json) (caveats : json) (appended : json) : json :=
  JObj [(u "schema", JStr VALUE_SCHEMA); (u "org_id", JStr org_id);
        (u "capability_token_id", JStr token); (u "sequence", JInt sequence);
        (u "event_kind", JStr (kind_value (_event_kind_for e)));
        (u "event_payload", payload);
        (u "stack_context", JObj [(u "minted_at", mint); (u "original_caveat_set", caveats)]);
        (u "appended_at", appended)].

(** The text is ASCII, so its encoding does not fail. *)
Definition _encode_envelope (org_id token : str) (sequence : Z) (e : event)
    (ctx : StackContext) (appended : datetime) : result marker_kv_error bytes :=
  payload ← _encode_event_payload e;
  mint ← time_json (minted_at ctx);
  appended ← time_json appended;
  of_option KvUnicodeError (utf8_encode (json_dumps true true
    (envelope_json org_id token sequence e payload mint
       (_encode_caveat_set (original_caveat_set ctx)) appended))).

(** ** Decoding *)

Definition shape {A} (o : option A) : result marker_kv_error A :=
  of_option MarkerStackEnvelopeError o.

Definition _parse_rfc3339 (s : json) : result marker_kv_error datetime :=
  match s with
  | JStr s => shape (fromisoformat (replace1 90 (u "+00:00") s))
  | _ => Err MarkerStackEnvelopeError
  end.

Definition decode_entry (j : json) : option (str * list json) :=
  match j with JList [JStr predicate; JList args] => Some (predicate, args) | _ => None end.

Definition _decode_caveat_set (raw : json) : result marker_kv_error (option caveats) :=
  match raw with
  | JNull => Ok None
  | JList l => cs ← mapM (λ x, shape (decode_entry x)) l; Ok (Some cs)
  | _ => Err MarkerStackEnvelopeError
  end.

(** [payload[k]] and [payload.get(k)] *)
Definition field (d : dict) (k : str) : result marker_kv_error json := shape (dict_get d k).
Definition get_field (d : dict) (k : str) : json := default JNull (dict_get d k).

(** [int(payload.get("tie_break", 0))] *)
Definition decode_tie (d : dict) : result marker_kv_error Z :=
  match dict_get d (u "tie_break") with
  | None => Ok 0
  | Some (JFloat (S754_infinity _)) => Err TieBreakOverflowError
  | Some j => shape (py_int j)
  end.

(** What the constructors check of a reason and of a token, and the rest of
    their checks. *)
Definition argument {A} (o : option A) : result marker_kv_error A :=
  of_option (EventError MarkerCompositionArgumentError) o.
Definition reason_of (j : json) : option (option str) :=
  match j with JNull => Some None | JStr s => Some (Some s) | _ => None end.
Definition text_of (j : json) : option str := match j with JStr s => Some s | _ => None end.
Definition construct (e : event) : result marker_kv_error event := map_err EventError (new_event e).

Definition decode_revoke (d : dict) : result marker_kv_error event :=
  t ← (field d (u "event_at") ≫= _parse_rfc3339);
  tie ← decode_tie d;
  reason ← argument (reason_of (get_field d (u "revocation_reason")));
  construct (RevokeEvent t reason tie (get_field d (u "wat_anchor_manifest_id"))).

Definition decode_unrevoke (d : dict) : result marker_kv_error event :=
  t ← (field d (u "event_at") ≫= _parse_rfc3339);
  previous ← (field d (u "previous_revoked_at") ≫= _parse_rfc3339);
  tie ← decode_tie d;
  reason ← argument (reason_of (get_field d (u "unrevoke_reason")));
  construct (UnrevokeEvent t previous reason tie (get_field d (u "wat_anchor_manifest_id"))).

Definition decode_re_issuance (d : dict) : result marker_kv_error event :=
  t ← (field d (u "event_at") ≫= _parse_rfc3339);
  token ← field d (u "new_token_id");
  tie ← decode_tie d;
  token ← argument (text_of token);
  reason ← argument (reason_of (get_field d (u "re_issuance_reason")));
  construct (ReIssuanceEvent t token reason tie (get_field d (u "wat_anchor_manifest_id"))).

Definition decode_override (d : dict) : result marker_kv_error event :=
  t ← (field d (u "event_at") ≫= _parse_rfc3339);
  original ← (field d (u "original_caveat_set") ≫= _decode_caveat_set);
  narrowed ← (field d (u "narrowed_caveat_set") ≫= _decode_caveat_set);
  tie ← decode_tie d;
  original ← argument original;
  narrowed ← argument narrowed;
  reason ← argument (reason_of (get_field d (u "override_reason")));
  construct (CaveatOverrideEvent t original narrowed reason tie
               (get_field d (u "wat_anchor_manifest_id"))).

Definition decode_bridge (d : dict) : result marker_kv_error event :=
  marker_raw ← field d (u "marker");
  match marker_raw with
  | JObj m =>
      source ← field m (u "source_ftd_id");
      target ← field m (u "target_ftd_id");
      t ← (field m (u "revoked_at") ≫= _parse_rfc3339);
      tie ← decode_tie d;
      construct (BridgeRevokedEvent (MkMarker source target t) tie
                   (get_field d (u "wat_anchor_manifest_id")))
  | _ => Err MarkerStackEnvelopeError
  end.

Definition _decode_event_payload (kind : MarkerEventKind) (payload : json)
    : result marker_kv_error event :=
  match payload with
  | JObj d =>
      match kind with
      | REVOKE => decode_revoke d
      | UNREVOKE => decode_unrevoke d
      | RE_ISSUANCE => decode_re_issuance d
      | CAVEAT_OVERRIDE => decode_override d
      | BRIDGE_REVOKED => decode_bridge d
      end
  | _ => Err MarkerStackEnvelopeError
  end.

Definition _decode_envelope (blob : bytes) : result marker_kv_error MarkerEventRecord :=
  text ← shape (utf8_decode blob);
  payload ← shape (json_loads text);
  match payload with
  | JObj payload =>
      raise_if (negb (py_eq (get_field payload (u "schema")) (JStr VALUE_SCHEMA)))
        MarkerStackEnvelopeError;;
      org_id ← field payload (u "org_id");
      token ← field payload (u "capability_token_id");
      sequence_raw ← field payload (u "sequence");
      kind_raw ← field payload (u "event_kind");
      payload_raw ← field payload (u "event_payload");
      context_raw ← field payload (u "stack_context");
      appended_raw ← field payload (u "appended_at");
      sequence ← shape (is_int sequence_raw);
      raise_if (sequence <? 1) MarkerStackEnvelopeError;;
      kind ← shape (kind_of_value kind_raw);
      event ← _decode_event_payload kind payload_raw;
      match context_raw with
      | JObj ctx =>
          minted ← (field ctx (u "minted_at") ≫= _parse_rfc3339);
          caveats ← _decode_caveat_set (get_field ctx (u "original_caveat_set"));
          appended ← _parse_rfc3339 appended_raw;
          Ok (MkRecord org_id token sequence kind event (MkContext minted caveats) appended)
      | _ => Err MarkerStackEnvelopeError
      end
  | _ => Err MarkerStackEnvelopeError
  end.

Definition _coerce_value_bytes (kve : kv_entry) : result marker_kv_error bytes :=
  match kve with
  | KvRaw b => Ok b
  | KvObj None _ => Err MarkerStackEnvelopeError
  | KvObj (Some (VBytes b)) _ => Ok b
  | KvObj (Some (VStr s)) _ => of_option KvUnicodeError (utf8_encode s)
  end.

(** ** The backend *)

Section backend.
(** The organisation of the backend; its constructor validates the name. *)
Variable org_id : str.

Definition new_backend : result marker_kv_error () := _ ← bucket_name_for_org org_id; Ok ().

Definition field_is (x : json) (s : str) : bool := py_eq x (JStr s).

(** One listed key; [None] when it is gone. *)
Definition read_key (fetch : str → option kv_entry) (token key : str)
    : result marker_kv_error (option MarkerEventRecord) :=
  match fetch key with
  | None => Ok None
  | Some kve =>
      blob ← _coerce_value_bytes kve;
      record ← _decode_envelope blob;
      raise_if (negb (field_is (rec_org_id record) org_id)) MarkerStackEnvelopeError;;
      raise_if (negb (field_is (rec_token_id record) token)) MarkerStackEnvelopeError;;
      Ok (Some record)
  end.

Definition sequence_leb (a b : MarkerEventRecord) : bool := sequence a <=? sequence b.

(** The keys as listed and the entries as they were fetched. *)
Definition _read_token_events (keys : option (list str)) (fetch : str → option kv_entry)
    (token : str) : result marker_kv_error (list MarkerEventRecord) :=
  keys ← of_option KvClientError keys;
  let matching := filter (λ k, startswith k (token_prefix token) = true) keys in
  records ← mapM (read_key fetch token) matching;
  let records := py_sorted sequence_leb (omap id records) in
  raise_if (negb (bool_decide (NoDup (sequence <$> records)))) MarkerStackEnvelopeError;;
  Ok records.

Definition check_org (requested : str) : result marker_kv_error () :=
  raise_if (str_empty requested) MarkerStackArgumentError;;
  raise_if (negb (str_eqb requested org_id)) (MarkerStackCrossOrgBoundaryError org_id requested).

(** Everything up to the create: its key and value, and the sequence number.
    [appended] is the caller's time or the clock's. *)
Definition put_plan (keys : option (list str)) (fetch : str → option kv_entry)
    (requested token : str) (e : event) (ctx : StackContext) (appended : datetime)
    (expected_next : option Z) : result marker_kv_error (str * bytes * Z) :=
  check_org requested;;
  raise_if (str_empty token) MarkerStackArgumentError;;
  raise_if (negb (_IDENT_RE token)) MarkerStackArgumentError;;
  live_records ← _read_token_events keys fetch token;
  let observed := foldr Z.max 0 (sequence <$> live_records) in
  match live_records with
  | first :: _ =>
      raise_if (negb (context_eqb (stack_context first) ctx)) MarkerStackContextConflictError
  | [] => Ok ()
  end;;
  let next := observed + 1 in
  match expected_next with
  | Some n => raise_if (negb (n =? next))
                (MarkerStackConcurrencyConflictError None (Some n) (Some observed))
  | None => Ok ()
  end;;
  raise_if (is_naive appended) MarkerStackArgumentError;;
  key ← key_for_event token next;
  blob ← _encode_envelope org_id token next e ctx appended;
  Ok (key, blob, next).

Definition stack_of_records (token : str) (records : list MarkerEventRecord)
    : result marker_kv_error (option (Stack (A:=json) (X:=json))) :=
  match records with
  | [] => Ok None
  | first :: rest =>
      raise_if (negb (forallb (λ r, context_eqb (stack_context r) (stack_context first)) rest))
        MarkerStackContextConflictError;;
      stack ← map_err EventError (new_stack (MkStack token (minted_at (stack_context first))
                (original_caveat_set (stack_context first)) (rec_event <$> records)));
      Ok (Some stack)
  end.

Definition get_marker_stack (keys : option (list str)) (fetch : str → option kv_entry)
    (requested token : str) : result marker_kv_error (option (Stack (A:=json) (X:=json))) :=
  check_org requested;;
  raise_if (str_empty token) MarkerStackArgumentError;;
  records ← _read_token_events keys fetch token;
  stack_of_records token records.

(** [sorted] of a set: ascending, without repetitions. *)
Definition list_marker_stacks (keys : option (list str)) (requested : str)
    (prefix : option str) : result marker_kv_error (list str) :=
  check_org requested;;
  keys ← of_option KvClientError keys;
  let tokens := omap (λ k, match parse_event_key k with
                           | Ok (t, _) =>
                               match prefix with
                               | Some p => if startswith t p then Some t else None
                               | None => Some t
                               end
                           | Err _ => None
                           end) keys in
  Ok (py_sorted str_leb (remove_dups tokens)).

Definition reduce_persistent_marker_stack (keys : option (list str))
    (fetch : str → option kv_entry) (requested token : str)
    : result marker_kv_error (option (CompositionVerdict (A:=json) (X:=json))) :=
  stack ← get_marker_stack keys fetch requested token;
  match stack with
  | None => Ok None
  | Some s => v ← map_err EventError (reduce_marker_stack s); Ok (Some v)
  end.

(** ** The store *)

Section store.
Context {S : Type} `{KvBucket S} `{KvKeys S}.

Definition _kv_create (s : S) (key : str) (value : bytes) : S * result marker_kv_error Z :=
  match kv_create s key value with
  | Some (s', r) => (s', Ok r)
  | None => (s, Err (MarkerStackConcurrencyConflictError (Some key) None None))
  end.

(** For a client without create: a test, then the client's [put]. *)
Definition fallback_test (s : S) (key : str) : result marker_kv_error () :=
  raise_if (match kv_get s key with Some _ => true | None => false end)
    (MarkerStackConcurrencyConflictError (Some key) None None).

Definition fallback_create (kv_put : S → str → bytes → S * Z) (s : S) (key : str)
    (value : bytes) : S * result marker_kv_error Z :=
  match fallback_test s key with
  | Err e => (s, Err e)
  | Ok _ => let '(s', r) := kv_put s key value in (s', Ok r)
  end.

(** A call that no other write interrupts. *)
Definition put_marker_stack (s : S) (requested token : str) (e : event) (ctx : StackContext)
    (appended : datetime) (expected_next : option Z)
    : S * result marker_kv_error MarkerStackVersion :=
  match put_plan (kv_keys s) (kv_get s) requested token e ctx appended expected_next with
  | Err err => (s, Err err)
  | Ok (key, blob, n) =>
      let '(s', r) := _kv_create s key blob in
      (s', _ ← r; Ok (MkVersion token n appended))
  end.
End store.

(** ** The watch stream *)

(** What a watcher hands over: attributes or items of the client's update. *)
Record kv_update_msg := MkUpdate {
  upd_operation : option str;
  upd_key : option json;
  upd_revision : option Z;
  upd_entry : kv_entry;
}.

Record MarkerStackWatchEvent := MkWatchEvent {
  watch_token_id : json;
  watch_record : MarkerEventRecord;
  watch_revision : Z;
}.

(** [upper()], as far as the comparison with PUT can tell. *)
Definition is_put (op : str) : bool :=
  str_eqb ((λ c, if is_lower c then c - 32 else c) <$> op) (u "PUT").

Definition _decode_filtered (filter_token : str) (update : kv_update_msg)
    : result marker_kv_error (option MarkerStackWatchEvent) :=
  if match upd_operation update with Some op => negb (is_put op) | None => false end then Ok None
  else
    match upd_key update with
    | Some (JStr key) =>
        raise_if (str_empty key) MarkerStackEnvelopeError;;
        ts ← map_err (λ _, MarkerStackEnvelopeError) (parse_event_key key);
        if negb (str_eqb ts.1 filter_token) then Ok None
        else
          blob ← _coerce_value_bytes (upd_entry update);
          record ← _decode_envelope blob;
          raise_if (negb (field_is (rec_org_id record) org_id)) MarkerStackEnvelopeError;;
          Ok (Some (MkWatchEvent (rec_token_id record) record (default 0 (upd_revision update))))
    | _ => Err MarkerStackEnvelopeError
    end.

(** One [__anext__] on the updates to come: the event, or the error, and the
    updates left.  A missing update is skipped by an iterator and ends a
    watcher with [updates()]. *)
Fixpoint anext (iterator : bool) (filter_token : str) (updates : list (option kv_update_msg))
    : option (result marker_kv_error MarkerStackWatchEvent * list (option kv_update_msg)) :=
  match updates with
  | [] => None
  | None :: rest => if iterator then anext iterator filter_token rest else None
  | Some upd :: rest =>
      match _decode_filtered filter_token upd with
      | Ok None => anext iterator filter_token rest
      | Ok (Some e) => Some (Ok e, rest)
      | Err e => Some (Err e, rest)
      end
  end.

Definition watch_marker_stack (requested token : str) : result marker_kv_error () :=
  check_org requested;;
  raise_if (str_empty token) MarkerStackArgumentError.
End backend.

(** ** Keys read back *)

Section keys.

Lemma int_of_digits s : digits s → s ≠ [] → int_of_text s = Some (digits_val s).
Proof.
  intros Hs Hne. unfold int_of_text.
  rewrite ascii_plain by (eapply Forall_impl; [exact Hs|]; cbn; lia).
  destruct s as [|c r]; [done|]. pose proof Hs as [Hc _]%Forall_cons.
  rewrite (proj2 (Z.eqb_neq c 45)), (proj2 (Z.eqb_neq c 43)) by lia.
  unfold int_digits. rewrite split_on_nil by (by apply (digits_notin _ _ Hs)).
  pose proof (digits_forallb _ Hs) as E. cbn [forallb concat str_empty negb andb] in *.
  by rewrite E, app_nil_r.
Qed.

Lemma pad_nonempty w n : pad w n ≠ [].
Proof. unfold pad. intros [_ E]%app_nil. destruct (int_repr_cons n) as (? & ? & ? & _). congruence. Qed.

Lemma event_key_ok t n k : key_for_event t n = Ok k ↔ name_ok t ∧ 1 ≤ n ∧ k = event_key t n.
Proof.
  unfold key_for_event. split.
  - intros Hk. run_ok. rename select (negb (_IDENT_RE t) = false) into Ht.
    apply negb_false_iff in Ht. rename select (_ <? _ = false) into Hn.
    apply Z.ltb_ge in Hn. done.
  - intros (Ht & Hn & ->). rewrite (name_nonempty _ Ht). unfold name_ok in Ht.
    unfold _IDENT_RE. unfold _KEY_COMPONENT_RE in Ht. rewrite Ht.
    by rewrite (proj2 (Z.ltb_ge n 1)).
Qed.

Lemma parse_key t n : name_ok t → 1 ≤ n → parse_event_key (event_key t n) = Ok (t, n).
Proof.
  intros Ht Hn. assert (digits (pad 12 n)) as Hd by (apply pad_digits; lia).
  assert (47 ∉ pad 12 n) as Hp by (by apply (digits_notin _ _ Hd)).
  unfold parse_event_key, event_key, token_prefix. rewrite <- !app_assoc, startswith_app, drop_app_length.
  change (u "/") with [47]. cbn [negb raise_if mbind result_bind app].
  rewrite split_on_app by (by apply name_no_slash). rewrite split_on_nil by done.
  rewrite (name_nonempty _ Ht). unfold name_ok, _KEY_COMPONENT_RE in Ht. unfold _IDENT_RE. rewrite Ht.
  rewrite int_of_digits, digits_val_pad by (done || apply pad_nonempty || lia).
  cbn [negb raise_if mbind result_bind of_option]. by rewrite (proj2 (Z.ltb_ge n 1)).
Qed.

(** The key of an event is parsed into the token and the number it was built
    from, and the name of a bucket into its organisation; no two events and no
    two organisations share a name. *)
Theorem names_read_back t n k o b :
  (key_for_event t n = Ok k → parse_event_key k = Ok (t, n)) ∧
  (bucket_name_for_org o = Ok b ↔ org_id_for_bucket_name b = Ok o).
Proof.
  split; [intros (Ht & Hn & ->)%event_key_ok; by apply parse_key|].
  unfold bucket_name_for_org, org_id_for_bucket_name. split.
  - intros Hb. apply bind_ok_iff in Hb as (x & _ & Hb).
    apply bind_ok_iff in Hb as (x1 & Ho%raise_if_ok & <-%Ok_inj).
    by rewrite startswith_app, drop_app_length, Ho.
  - intros Hb. apply bind_ok_iff in Hb as (x & Hp%raise_if_ok & Hb).
    apply negb_false_iff, startswith_spec in Hp as [r ->].
    rewrite drop_app_length in Hb. run_ok.
    rename select (negb (_IDENT_RE o) = false) into Ho. rewrite Ho.
    apply negb_false_iff in Ho. by rewrite (name_nonempty o Ho).
Qed.

Lemma event_key_inj t n m : 1 ≤ n → 1 ≤ m → event_key t n = event_key t m → n = m.
Proof.
  intros Hn Hm E%(app_inv_head (token_prefix t)). apply (f_equal digits_val) in E.
  by rewrite !digits_val_pad in E by lia.
Qed.

Lemma prefix_other t t' n :
  name_ok t → name_ok t' → 1 ≤ n → startswith (event_key t' n) (token_prefix t) = true → t' = t.
Proof.
  intros Ht Ht' Hn [r E]%startswith_spec. unfold event_key, token_prefix in E.
  rewrite <- !app_assoc in E. apply app_inv_head in E. change (u "/") with [47] in E.
  apply (f_equal (split_on 47)) in E. cbn [app] in E.
  rewrite !split_on_app in E by (by apply name_no_slash). by injection E as ->.
Qed.

Lemma key_prefix t n : startswith (event_key t n) (token_prefix t) = true.
Proof. apply startswith_app. Qed.
End keys.

(** ** Envelopes read back *)

Section envelopes.

Definition caveats_ok (cs : caveats) : Prop :=
  Forall (λ c, okstr c.1 ∧ Forall json_wf c.2) cs.
Definition reason_ok (r : option str) : Prop := match r with Some s => okstr s | None => True end.

(** What the constructor checks, with times whose text reads back, encodable
    texts and JSON values without floats. *)
Definition event_ok (e : event) : Prop :=
  match e with
  | RevokeEvent t r _ a => iso_ok t ∧ reason_ok r ∧ json_wf a
  | UnrevokeEvent t p r _ a => iso_ok t ∧ iso_ok p ∧ reason_ok r ∧ json_wf a
  | ReIssuanceEvent t tok r _ a =>
      iso_ok t ∧ str_empty tok = false ∧ okstr tok ∧ reason_ok r ∧ json_wf a
  | CaveatOverrideEvent t o n r _ a =>
      iso_ok t ∧ caveats_ok o ∧ caveats_ok n ∧ reason_ok r ∧ json_wf a
  | BridgeRevokedEvent m _ a =>
      iso_ok (marker_revoked_at m) ∧ json_wf (marker_source m) ∧ json_wf (marker_target m) ∧ json_wf a
  end.

Definition context_ok (c : StackContext) : Prop :=
  iso_ok (minted_at c) ∧ match original_caveat_set c with Some cs => caveats_ok cs | None => True end.

(** What comes back: the same, with the members of objects sorted. *)
Definition stored_caveats (cs : caveats) : caveats :=
  List.map (λ c : str * list json, (c.1, List.map json_sort c.2)) cs.

Definition stored_event (e : event) : event :=
  match e with
  | RevokeEvent t r n a => RevokeEvent t r n (json_sort a)
  | UnrevokeEvent t p r n a => UnrevokeEvent t p r n (json_sort a)
  | ReIssuanceEvent t tok r n a => ReIssuanceEvent t tok r n (json_sort a)
  | CaveatOverrideEvent t o nw r n a =>
      CaveatOverrideEvent t (stored_caveats o) (stored_caveats nw) r n (json_sort a)
  | BridgeRevokedEvent m n a =>
      BridgeRevokedEvent (MkMarker (json_sort (marker_source m)) (json_sort (marker_target m))
        (marker_revoked_at m)) n (json_sort a)
  end.

Definition stored_context (c : StackContext) : StackContext :=
  MkContext (minted_at c) (stored_caveats <$> original_caveat_set c).

Lemma time_reads dt :
  iso_ok dt → ∃ j, time_json dt = Ok j ∧ json_sort j = j ∧ json_wf j ∧ _parse_rfc3339 j = Ok dt.
Proof.
  intros (us & -> & Hus). eexists. split; [reflexivity|]. split; [done|]. split.
  - apply okstr_Forall. eapply Forall_impl; [apply ascii_rfc3339|].
    intros x Hx. simpl in Hx. apply okchar_range. lia.
  - unfold _parse_rfc3339. by rewrite fromisoformat_rfc3339.
Qed.

Lemma text_reads r : reason_ok r →
  json_sort (text_json r) = text_json r ∧ json_wf (text_json r) ∧ reason_of (text_json r) = Some r.
Proof. by destruct r. Qed.

Lemma caveats_read cs : caveats_ok cs →
  json_wf (_encode_caveat_set (Some cs)) ∧
  _decode_caveat_set (json_sort (_encode_caveat_set (Some cs))) = Ok (Some (stored_caveats cs)).
Proof.
  intros Hcs. split.
  - apply json_wf_list, List.Forall_map. eapply Forall_impl; [exact Hcs|].
    intros [p args] [Hp Ha]. apply json_wf_list. repeat constructor; [done|]. by apply json_wf_list.
  - cbn [_encode_caveat_set json_sort _decode_caveat_set].
    assert (mapM (λ x, shape (decode_entry x))
      (List.map json_sort ((λ entry, JList [JStr entry.1; JList entry.2]) <$> cs)) =
      Ok (stored_caveats cs)) as ->; [|done].
    apply mapM_ok. clear Hcs. induction cs as [|[p args] cs IH]; constructor; [done|exact IH].
Qed.

Lemma caveats_opt_read cs :
  match cs with Some cs => caveats_ok cs | None => True end →
  json_wf (_encode_caveat_set cs) ∧
  _decode_caveat_set (json_sort (_encode_caveat_set cs)) = Ok (stored_caveats <$> cs).
Proof. destruct cs as [cs|]; [apply caveats_read|done]. Qed.

(** The members of a sorted object. *)
Lemma sorted_get d d' k :
  json_wf (JObj d) → json_sort (JObj d) = JObj d' → dict_get d' k = json_sort <$> dict_get d k.
Proof. intros [Hnd _]%json_wf_obj [= <-]. by apply dict_get_sorted. Qed.

Lemma sorted_field d d' k v :
  json_wf (JObj d) → json_sort (JObj d) = JObj d' → dict_get d k = Some v →
  field d' k = Ok (json_sort v) ∧ get_field d' k = json_sort v.
Proof.
  intros Hd Hs Hk. unfold field, get_field. by rewrite (sorted_get _ _ _ Hd Hs), Hk.
Qed.

Lemma sorted_tie d d' n :
  json_wf (JObj d) → json_sort (JObj d) = JObj d' → dict_get d (u "tie_break") = Some (JInt n) →
  decode_tie d' = Ok n.
Proof. intros Hd Hs Hk. unfold decode_tie. by rewrite (sorted_get _ _ _ Hd Hs), Hk. Qed.

Lemma sort_obj d : ∃ d', json_sort (JObj d) = JObj d'.
Proof. by eexists. Qed.

Lemma json_wf_members l :
  NoDup l.*1 → Forall okstr l.*1 → Forall json_wf l.*2 → json_wf (JObj l).
Proof.
  intros Hnd Hk Hv. apply json_wf_obj. split; [done|]. apply Forall_forall. intros [k v] Hin.
  rewrite Forall_fmap, Forall_forall in Hk. rewrite Forall_fmap, Forall_forall in Hv.
  by split; [apply (Hk (k, v))|apply (Hv (k, v))].
Qed.
Ltac payload_wf :=
  apply json_wf_members; [apply (bool_decide_unpack _); by vm_compute|
    apply Forall_fmap; repeat (apply List.Forall_cons; [by vm_compute|]); constructor|
    repeat (apply List.Forall_cons; [done|]); constructor].

Ltac read_fields Hwf Hs :=
  repeat match goal with
  | |- context [field _ ?k] => rewrite (proj1 (sorted_field _ _ k _ Hwf Hs eq_refl))
  | |- context [get_field _ ?k] => rewrite (proj2 (sorted_field _ _ k _ Hwf Hs eq_refl))
  | |- context [decode_tie _] =>
      rewrite (sorted_tie _ _ _ Hwf Hs eq_refl)
  end.

Ltac payload_start :=
  cbn [_encode_event_payload];
  repeat match goal with
  | H : iso_ok ?t |- context [time_json ?t] =>
      let j := fresh "j" in let E := fresh "E" in
      destruct (time_reads t H) as (j & E & ? & ? & ?); rewrite E, bind_Ok
  | H : reason_ok ?r |- _ =>
      destruct (text_reads r H) as (? & ? & ?); clear H
  | H : caveats_ok ?c |- _ =>
      destruct (caveats_read c H) as [? ?]; clear H
  end;
  eexists; split; [reflexivity|];
  match goal with |- json_wf ?o ∧ _ =>
    let Hwf := fresh "Hwf" in let Hs := fresh "Hs" in let d := fresh "d" in
    assert (json_wf o) as Hwf by payload_wf; split; [exact Hwf|];
    destruct (sort_obj _ : ∃ d', json_sort o = JObj d') as [d Hs]; rewrite Hs;
    cbn [_decode_event_payload _event_kind_for];
    unfold decode_revoke, decode_unrevoke, decode_re_issuance, decode_override, decode_bridge;
    read_fields Hwf Hs
  end.

Ltac payload_end :=
  repeat match goal with
  | H : json_sort ?x = ?x |- context [json_sort ?x] => rewrite H
  | H : _parse_rfc3339 ?x = _ |- context [_parse_rfc3339 ?x] => rewrite H
  | H : reason_of ?x = _ |- context [reason_of ?x] => rewrite H
  | H : _decode_caveat_set ?x = _ |- context [_decode_caveat_set ?x] => rewrite H
  | |- _ => rewrite bind_Ok
  end.

Lemma construct_ok e : event_ok e → construct (stored_event e) = Ok (stored_event e).
Proof.
  unfold construct. destruct e as [t r n a|t p r n a|t tok r n a|t o nw r n a|m n a]; cbn.
  - by intros [(us & -> & _) _].
  - by intros [(us & -> & _) [(us' & -> & _) _]].
  - by intros [(us & -> & _) [-> _]].
  - by intros [(us & -> & _) _].
  - done.
Qed.

(** An encoded payload decodes from its sorted form. *)
Lemma payload_reads e :
  event_ok e →
  ∃ d, _encode_event_payload e = Ok (JObj d) ∧ json_wf (JObj d) ∧
    _decode_event_payload (_event_kind_for e) (json_sort (JObj d)) = Ok (stored_event e).
Proof.
  intros He. pose proof (construct_ok e He) as Hc.
  destruct e as [t r n a|t p r n a|t tok r n a|t o nw r n a|[src tgt t] n a].
  - destruct He as (Ht & Hr & Ha). payload_start. payload_end. exact Hc.
  - destruct He as (Ht & Hp & Hr & Ha). payload_start. payload_end. exact Hc.
  - destruct He as (Ht & Htok & Hk & Hr & Ha). payload_start. payload_end. exact Hc.
  - destruct He as (Ht & Ho & Hn & Hr & Ha). payload_start. payload_end. exact Hc.
  - destruct He as (Ht & Hsrc & Htgt & Ha). cbn [marker_revoked_at marker_source marker_target] in *.
    destruct (time_reads t Ht) as (j & Ej & Hj & Hwj & Hp).
    assert (json_wf (JObj [(u "source_ftd_id", src); (u "target_ftd_id", tgt); (u "revoked_at", j)]))
      as Hm by payload_wf.
    cbn [_encode_event_payload marker_revoked_at marker_source marker_target].
    rewrite Ej, bind_Ok. payload_start.
    match goal with |- context [json_sort (JObj ?o)] =>
      destruct (sort_obj o) as [dm Hdm]; rewrite Hdm end.
    rewrite bind_Ok. read_fields Hm Hdm. payload_end. exact Hc.
Qed.

Lemma shape_Some {A} (a : A) : shape (Some a) = Ok a.
Proof. done. Qed.

Lemma kind_reads k : kind_of_value (JStr (kind_value k)) = Some k.
Proof. by destruct k; vm_compute. Qed.

Definition stored_record (org token : str) (n : Z) (e : event) (c : StackContext)
    (appended : datetime) : MarkerEventRecord :=
  MkRecord (JStr org) (JStr token) n (_event_kind_for e) (stored_event e) (stored_context c) appended.

Lemma decode_json p text blob :
  json_wf p → utf8_encode (json_dumps true true p) = Some blob → json_sort p = text →
  ∃ t, utf8_decode blob = Some t ∧ json_loads t = Some text.
Proof.
  intros Hp Hb <-. exists (json_dumps true true p).
  by rewrite (utf8_decode_encode _ _ Hb), json_loads_dumps.
Qed.

Lemma dumps_encodable p : json_wf p → ∃ blob, utf8_encode (json_dumps true true p) = Some blob.
Proof.
  intros Hp%json_sort_wf%json_wf_ok. apply print_ascii, ascii_encodable in Hp as [b Hb]. eauto.
Qed.

Lemma envelope_reads org t n e c appended :
  name_ok org → name_ok t → 1 ≤ n → event_ok e → context_ok c → iso_ok appended →
  ∃ blob, _encode_envelope org t n e c appended = Ok blob ∧
    _decode_envelope blob = Ok (stored_record org t n e c appended).
Proof.
  intros Ho%name_okstr Ht%name_okstr Hn He [Hm Hc] Ha.
  destruct (payload_reads e He) as (d & Ed & Wd & Pd).
  destruct (time_reads _ Hm) as (jm & Em & Sm & Wm & Pm).
  destruct (time_reads _ Ha) as (ja & Ea & Sa & Wa & Pa).
  destruct (caveats_opt_read _ Hc) as [Wc Pc]. set (jc := _encode_caveat_set _) in *.
  assert (json_wf (JObj [(u "minted_at", jm); (u "original_caveat_set", jc)])) as Wctx by payload_wf.
  set (ctx := JObj _) in Wctx. set (p := envelope_json org t n e (JObj d) jm jc ja).
  assert (okstr (kind_value (_event_kind_for e))) as Hk by (by destruct e; vm_compute).
  assert (json_wf p) as Wp by (unfold p, envelope_json; payload_wf).
  destruct (dumps_encodable p Wp) as [blob Hb]. exists blob. split.
  - unfold _encode_envelope. fold jc. rewrite Ed, bind_Ok, Em, bind_Ok, Ea, bind_Ok. fold p. by rewrite Hb.
  - unfold p, envelope_json in Wp. destruct (sort_obj _ : ∃ d', json_sort p = JObj d') as [dp Hs].
    destruct (decode_json p (JObj dp) blob Wp Hb Hs) as (text & E1 & E2).
    unfold _decode_envelope. rewrite E1, shape_Some, bind_Ok, E2, shape_Some, bind_Ok.
    unfold p, envelope_json in Hs. read_fields Wp Hs.
    change (json_sort (JStr VALUE_SCHEMA)) with (JStr VALUE_SCHEMA).
    rewrite (proj2 (py_eq_str _ _) eq_refl). cbn [negb]. rewrite raise_if_false, !bind_Ok.
    change (shape (is_int (json_sort (JInt n)))) with (Ok (E:=marker_kv_error) n).
    rewrite bind_Ok, (proj2 (Z.ltb_ge n 1)), raise_if_false, bind_Ok by lia.
    change (json_sort (JStr ?k)) with (JStr k). rewrite kind_reads, shape_Some, bind_Ok, Pd, bind_Ok.
    destruct (sort_obj _ : ∃ d', json_sort ctx = JObj d') as [dc Hs']. fold ctx. rewrite Hs'.
    unfold ctx in *. read_fields Wctx Hs'. rewrite bind_Ok, Sm, Pm, bind_Ok, Pc, bind_Ok, Sa, Pa.
    done.
Qed.
End envelopes.

(** ** Reading a log *)

Section reading.
Variables (org_id token : str).

(** Records with the numbers 1, 2, 3, ... *)
Definition numbered (recs : list MarkerEventRecord) : Prop :=
  ∀ i r, recs !! i = Some r →
    sequence r = Z.of_nat (S i) ∧ rec_org_id r = JStr org_id ∧ rec_token_id r = JStr token.

Definition entry_of (fetch : str → option kv_entry) (key : str) (r : MarkerEventRecord) : Prop :=
  ∃ blob rev, fetch key = Some (KvObj (Some (VBytes blob)) (Some rev)) ∧ _decode_envelope blob = Ok r.

Definition nth_key (i : nat) : str := event_key token (Z.of_nat (S i)).

Definition reads_log (fetch : str → option kv_entry) (recs : list MarkerEventRecord) : Prop :=
  ∀ i r, recs !! i = Some r → entry_of fetch (nth_key i) r.

(** The keys of the token are those of its first events. *)
Definition lists_log (l : list str) (n : nat) : Prop :=
  NoDup l ∧ ∀ k, startswith k (token_prefix token) = true →
    k ∈ l ↔ ∃ i, (i < n)%nat ∧ k = nth_key i.

Lemma nth_key_inj i j : nth_key i = nth_key j → i = j.
Proof. intros E%event_key_inj; lia. Qed.

Lemma numbered_sequences recs :
  numbered recs → sequence <$> recs = (λ i, Z.of_nat (S i)) <$> seq 0 (length recs).
Proof.
  intros Hn. apply list_eq. intros i. rewrite !list_lookup_fmap.
  destruct (recs !! i) as [r|] eqn:Er.
  - pose proof (lookup_lt_Some _ _ _ Er). rewrite lookup_seq_lt by done. cbn. f_equal. by apply Hn.
  - apply lookup_ge_None in Er. by rewrite lookup_seq_ge.
Qed.

Lemma numbered_sorted recs :
  numbered recs →
  StronglySorted (λ a b, sequence_leb a b = true) recs ∧ NoDup (sequence <$> recs).
Proof.
  intros Hn. split.
  - assert (∀ k, (∀ i r, recs !! i = Some r → sequence r = Z.of_nat (k + S i)) →
      StronglySorted (λ a b, sequence_leb a b = true) recs) as Hall.
    { clear Hn. induction recs as [|x recs IH]; intros k Hk; constructor.
      - apply (IH (S k)). intros i r Hr. rewrite (Hk (S i) r Hr). f_equal. lia.
      - apply Forall_lookup. intros i r Hr. unfold sequence_leb. apply Z.leb_le.
        rewrite (Hk 0%nat x eq_refl), (Hk (S i) r Hr). lia. }
    apply (Hall 0%nat). intros i r Hr. by apply Hn.
  - rewrite numbered_sequences by done. apply NoDup_fmap_2; [intros i j; lia|apply NoDup_seq].
Qed.

Lemma max_sequence recs :
  numbered recs → foldr Z.max 0 (sequence <$> recs) = Z.of_nat (length recs).
Proof.
  intros Hn. rewrite numbered_sequences by done. clear Hn.
  assert (∀ n a, foldr Z.max 0 ((λ i, Z.of_nat (S i)) <$> seq a n) =
    if decide (n = 0)%nat then 0 else Z.of_nat (a + n)) as Hall.
  { induction n as [|n IH]; intros a; [done|].
    change (seq a (S n)) with (a :: seq (S a) n). cbn [fmap list_fmap foldr].
    change (list_fmap _ _ ?f ?l) with (f <$> l). rewrite IH. repeat case_decide; lia. }
  rewrite Hall. case_decide; lia.
Qed.

Lemma matching_keys l n :
  lists_log l n →
  filter (λ k, startswith k (token_prefix token) = true) l ≡ₚ nth_key <$> seq 0 n.
Proof.
  intros [Hnd Hl]. apply NoDup_Permutation.
  - by apply NoDup_filter.
  - apply NoDup_fmap_2; [intros i j; apply nth_key_inj|apply NoDup_seq].
  - intros k. rewrite list_elem_of_filter, list_elem_of_fmap. split.
    + intros [Hp (i & Hi & ->)%Hl]; [|done]. exists i. split; [done|]. apply elem_of_seq. lia.
    + intros (i & -> & Hi%elem_of_seq). pose proof (key_prefix token (Z.of_nat (S i))) as Hp.
      split; [exact Hp|]. apply Hl; [exact Hp|]. exists i. split; [lia|done].
Qed.

#[local] Instance sequence_leb_order : KeyOrder sequence_leb.
Proof. apply (key_order_on Z.leb sequence). Qed.

Lemma read_log l fetch recs :
  numbered recs → lists_log l (length recs) → reads_log fetch recs →
  _read_token_events org_id (Some l) fetch token = Ok recs.
Proof.
  intros Hn Hl Hr. unfold _read_token_events.
  assert (mapM (read_key org_id fetch token) (nth_key <$> seq 0 (length recs)) = Ok (Some <$> recs))
    as Hm.
  { apply mapM_ok. apply Forall2_fmap, Forall2_same_length_lookup_2; [by rewrite length_seq|].
    intros i k r Hk Hrec. apply lookup_seq in Hk as [-> _]. cbn.
    destruct (Hr _ _ Hrec) as (blob & rev & E & D). destruct (Hn _ _ Hrec) as (_ & Eo & Et).
    unfold read_key. rewrite E. cbn [_coerce_value_bytes]. rewrite bind_Ok, D, bind_Ok, Eo, Et.
    unfold field_is. rewrite !(proj2 (py_eq_str _ _) eq_refl). done. }
  destruct (mapM_perm _ _ _ _ Hm (symmetry (matching_keys _ _ Hl))) as (ks & Eks & Hp).
  cbn [of_option]. rewrite bind_Ok, Eks, bind_Ok.
  assert (py_sorted sequence_leb (omap id ks) = recs) as ->.
  { destruct (numbered_sorted recs Hn) as [Hs Hnd].
    assert (omap id ks ≡ₚ recs) as Ho.
    { rewrite <- Hp. clear. induction recs as [|x recs IH]; [done|]. csimpl. by rewrite IH. }
    symmetry. apply (sorted_perm_unique (λ a b, sequence_leb a b = true)); [|done|apply py_sorted_sorted, _|by rewrite py_sorted_perm].
    intros x y [i Hi]%list_elem_of_lookup [j Hj]%list_elem_of_lookup. unfold sequence_leb. rewrite !Z.leb_le.
    intros ??. assert (i = j) as -> by (apply Hn in Hi, Hj; destruct Hi, Hj; lia). congruence. }
  destruct (numbered_sorted recs Hn) as [_ Hnd]. by rewrite bool_decide_true by done.
Qed.
End reading.

(** ** Contexts *)

Section contexts.

Lemma seq_eqb_on {A B} (P : A → Prop) (eqb : A → A → bool) (f : A → B) l k :
  (∀ x y, P x → P y → eqb x y = true ↔ f x = f y) → Forall P l → Forall P k →
  seq_eqb eqb l k = true ↔ List.map f l = List.map f k.
Proof.
  intros Heq Hl. revert k. induction Hl as [|x l Hx Hl IH]; intros k Hk; destruct Hk as [|y k Hy Hk];
    try by split. cbn. rewrite andb_true_iff, Heq, IH by done. split; [by intros [-> ->]|by intros [= -> ->]].
Qed.

Definition norm_caveats (cs : caveats) : list (str * list json) :=
  List.map (λ c : str * list json, (c.1, List.map py_norm c.2)) cs.

(** Equal contexts have the same normal form. *)
Definition context_norm (c : StackContext) : datetime * option (list (str * list json)) :=
  (minted_at c, option_map norm_caveats (original_caveat_set c)).

Lemma caveats_eqb_norm a b :
  caveats_ok a → caveats_ok b → caveats_eqb a b = true ↔ norm_caveats a = norm_caveats b.
Proof.
  apply seq_eqb_on. intros [p l] [q k] [_ Hl] [_ Hk]. cbn. unfold str_eqb.
  rewrite andb_true_iff, bool_decide_eq_true, (seq_eqb_on json_wf obj_eqb py_norm); [|apply item_eq_norm|done..].
  split; [by intros [-> ->]|by intros [= -> ->]].
Qed.

Lemma context_eqb_norm a b :
  context_ok a → context_ok b → context_eqb a b = true ↔ context_norm a = context_norm b.
Proof.
  destruct a as [t [c|]], b as [t' [c'|]]; intros [_ Hc] [_ Hc']; cbn in *;
    unfold context_eqb, context_norm, dt_eqb; cbn; rewrite andb_true_iff, bool_decide_eq_true.
  - rewrite caveats_eqb_norm by done. split; [by intros [-> ->]|by intros [= -> ->]].
  - split; [by intros [_ ?]|done].
  - split; [by intros [_ ?]|done].
  - split; [by intros [-> _]|by intros [= ->]].
Qed.

Lemma stored_context_ok c : context_ok c → context_ok (stored_context c).
Proof.
  intros [Hm Hc]. split; [done|]. cbn. destruct (original_caveat_set c) as [cs|]; [|done].
  apply List.Forall_map. eapply Forall_impl; [exact Hc|]. intros [p args] [Hp Ha]. split; [done|].
  apply List.Forall_map. eapply Forall_impl; [exact Ha|]. intros x. apply json_sort_wf.
Qed.

Lemma stored_context_norm c : context_ok c → context_norm (stored_context c) = context_norm c.
Proof.
  intros [_ Hc]. unfold context_norm. cbn. f_equal. destruct (original_caveat_set c) as [cs|]; [|done].
  cbn. f_equal. unfold norm_caveats, stored_caveats. rewrite List.map_map. apply List.map_ext_Forall.
  eapply Forall_impl; [exact Hc|]. intros [p args] [_ Ha]. cbn. f_equal. rewrite List.map_map.
  apply List.map_ext_Forall. eapply Forall_impl; [exact Ha|]. intros x. apply py_norm_sort.
Qed.

Lemma stored_eqb a b :
  context_ok a → context_ok b →
  (context_eqb (stored_context a) b = true ↔ context_norm a = context_norm b) ∧
  (context_eqb (stored_context a) (stored_context b) = true ↔ context_norm a = context_norm b).
Proof.
  intros Ha Hb. rewrite !context_eqb_norm by (done || by apply stored_context_ok).
  by rewrite !stored_context_norm.
Qed.
End contexts.

(** ** The log of a token *)

Record request := MkRequest {
  q_org : str;
  q_token : str;
  q_event : event;
  q_context : StackContext;
  q_appended : datetime;
  q_expected : option Z;
}.

Definition request_ok (q : request) : Prop :=
  event_ok (q_event q) ∧ context_ok (q_context q) ∧ iso_ok (q_appended q).

Section log.
Variable org_id : str.
Context {S : Type} `{KvLaws S} `{!KvKeys S} `{!KvKeysLaws S}.

Definition plan_of (keys : option (list str)) (fetch : str → option kv_entry) (q : request) :=
  put_plan org_id keys fetch (q_org q) (q_token q) (q_event q) (q_context q) (q_appended q) (q_expected q).

Definition record_of (i : nat) (q : request) : MarkerEventRecord :=
  stored_record org_id (q_token q) (Z.of_nat (i + 1)) (q_event q) (q_context q) (q_appended q).

(** The records of the first requests. *)
Definition records_of (qs : list request) : list MarkerEventRecord := imap record_of qs.

(** The bucket holds exactly these requests for the token, in this order. *)
Record log_at (s : S) (token : str) (qs : list request) : Prop := {
  log_keys k : startswith k (token_prefix token) = true →
    is_Some (kv_get s k) ↔ ∃ i, (i < length qs)%nat ∧ k = nth_key token i;
  log_reads : reads_log token (kv_get s) (records_of qs);
  log_token : Forall (λ q, q_token q = token ∧ request_ok q) qs;
  log_context q0 q : head qs = Some q0 → q ∈ qs → context_norm (q_context q) = context_norm (q_context q0);
}.

(** The stack such a log is read as. *)
Definition stack_of (token : str) (qs : list request) : option (Stack (A:=json) (X:=json)) :=
  match qs with
  | [] => None
  | q0 :: _ => Some (MkStack token (minted_at (q_context q0))
                 (original_caveat_set (stored_context (q_context q0)))
                 ((λ q, stored_event (q_event q)) <$> qs))
  end.

Lemma records_numbered token qs :
  Forall (λ q, q_token q = token ∧ request_ok q) qs → numbered org_id token (records_of qs).
Proof.
  intros Hq i r. unfold records_of. rewrite list_lookup_imap. intros (q & Hi & ->)%fmap_Some.
  rewrite Forall_lookup in Hq. destruct (Hq _ _ Hi) as [<- _]. cbn. split_and!; [lia|done|done].
Qed.

Lemma length_records qs : length (records_of qs) = length qs.
Proof. apply length_imap. Qed.

Lemma log_lists s token qs l :
  log_at s token qs → kv_keys s = Some l → lists_log token l (length qs).
Proof.
  intros Hlog Hl. split; [by eapply kv_keys_nodup|]. intros k Hk.
  rewrite (kv_keys_in s l k Hl). by apply (log_keys _ _ _ Hlog).
Qed.

Lemma log_read s token qs l :
  log_at s token qs → kv_keys s = Some l →
  _read_token_events org_id (Some l) (kv_get s) token = Ok (records_of qs).
Proof.
  intros Hlog Hl. apply read_log.
  - apply records_numbered, (log_token _ _ _ Hlog).
  - rewrite length_records. by eapply log_lists.
  - apply (log_reads _ _ _ Hlog).
Qed.

Lemma check_org_ok requested : check_org org_id requested = Ok () → requested = org_id.
Proof. unfold check_org. intros Hc. run_ok. unfold str_eqb in *. by propify. Qed.

(** What a plan consists of. *)
Lemma plan_spec keys fetch q key blob n :
  plan_of keys fetch q = Ok (key, blob, n) →
  ∃ live, _read_token_events org_id keys fetch (q_token q) = Ok live ∧
  name_ok (q_token q) ∧ q_org q = org_id ∧ n = foldr Z.max 0 (sequence <$> live) + 1 ∧
  (∀ r, head live = Some r → context_eqb (stack_context r) (q_context q) = true) ∧
  (∀ e, q_expected q = Some e → e = n) ∧ 1 ≤ n ∧ key = event_key (q_token q) n ∧
  _encode_envelope org_id (q_token q) n (q_event q) (q_context q) (q_appended q) = Ok blob.
Proof.
  unfold plan_of, put_plan. intros Hp.
  apply bind_ok_iff in Hp as ([] & Ho%check_org_ok & Hp).
  apply bind_ok_iff in Hp as (? & _ & Hp). apply bind_ok_iff in Hp as (? & _ & Hp).
  apply bind_ok_iff in Hp as (live & Hread & Hp). cbv zeta in Hp. exists live.
  apply bind_ok_iff in Hp as (? & Hc & Hp). apply bind_ok_iff in Hp as (? & He & Hp).
  apply bind_ok_iff in Hp as (? & _ & Hp).
  apply bind_ok_iff in Hp as (key' & (Ht & Hn & ->)%event_key_ok & Hp).
  apply bind_ok_iff in Hp as (blob' & Hb & Hp%Ok_inj). injection Hp as <- <- <-.
  split_and!; try done.
  - intros r Hr. destruct live as [|r' live]; [done|]. injection Hr as <-.
    by apply raise_if_ok, negb_false_iff in Hc.
  - intros e Hq. rewrite Hq in He. by apply raise_if_ok, negb_false_iff, Z.eqb_eq in He.
Qed.

Lemma stored_blob q n blob :
  name_ok org_id → name_ok (q_token q) → request_ok q → 
  _encode_envelope org_id (q_token q) (Z.of_nat (n + 1)) (q_event q) (q_context q) (q_appended q) = Ok blob →
  _decode_envelope blob = Ok (record_of n q).
Proof.
  intros Ho Ht (He & Hc & Ha) Hb.
  destruct (envelope_reads org_id (q_token q) (Z.of_nat (n + 1)) (q_event q) (q_context q) (q_appended q))
    as (blob' & E & D); [done|done|lia|done..|]. unfold record_of. congruence.
Qed.

Lemma records_snoc qs q : records_of (qs ++ [q]) = records_of qs ++ [record_of (length qs) q].
Proof. unfold records_of. rewrite imap_app. cbn. by rewrite Nat.add_0_r. Qed.

Lemma nth_key_prefix token i : startswith (nth_key token i) (token_prefix token) = true.
Proof. apply key_prefix. Qed.

Lemma log_free s token qs : log_at s token qs → kv_get s (nth_key token (length qs)) = None.
Proof.
  intros Hlog. apply eq_None_not_Some.
  rewrite (log_keys _ _ _ Hlog) by apply nth_key_prefix. intros (i & Hi & E%nth_key_inj). lia.
Qed.

Lemma log_append s token qs q blob s' r :
  log_at s token qs → q_token q = token → request_ok q →
  (∀ q0, head qs = Some q0 → context_norm (q_context q) = context_norm (q_context q0)) →
  _decode_envelope blob = Ok (record_of (length qs) q) →
  kv_create s (nth_key token (length qs)) blob = Some (s', r) →
  log_at s' token (qs ++ [q]).
Proof.
  intros Hlog Ht Hq Hctx Hd Hc. pose proof (λ k, kv_create_get _ _ _ _ _ k Hc) as Hg. split.
  - intros k Hk. specialize (Hg k). rewrite length_app. cbn [length].
    destruct (decide (k = nth_key token (length qs))) as [->|Hne]; rewrite Hg.
    + split; [|done]. intros _. exists (length qs). split; [lia|done].
    + rewrite (log_keys _ _ _ Hlog) by done. split.
      * intros (i & Hi & ->). exists i. split; [lia|done].
      * intros (i & Hi & ->). exists i. split; [|done].
        destruct (decide (i = length qs)) as [->|]; [done|lia].
  - intros i rec. rewrite records_snoc. intros Hi. unfold entry_of. rewrite Hg.
    apply lookup_app_Some in Hi as [Hi|[Hle Hi]].
    + rewrite decide_False; [by apply (log_reads _ _ _ Hlog)|]. intros ->%nth_key_inj.
      apply lookup_lt_Some in Hi. rewrite length_records in Hi. lia.
    + rewrite length_records in Hi, Hle. apply list_lookup_singleton_Some in Hi as [Hi <-].
      replace i with (length qs) by lia. rewrite decide_True by done. eauto.
  - apply Forall_app. split; [apply (log_token _ _ _ Hlog)|]. by apply Forall_singleton.
  - intros q0 q1 E0 [E1|E1%list_elem_of_singleton]%elem_of_app.
    + destruct qs as [|q2 qs]; [by apply elem_of_nil in E1|]. by eapply (log_context _ _ _ Hlog).
    + subst q1. destruct qs as [|q2 qs]; [by injection E0 as <-|]. by apply Hctx.
Qed.

Lemma log_frame s token qs k blob s' r :
  log_at s token qs → startswith k (token_prefix token) = false →
  kv_create s k blob = Some (s', r) → log_at s' token qs.
Proof.
  intros Hlog Hk Hc. assert (∀ k', startswith k' (token_prefix token) = true → kv_get s' k' = kv_get s k') as E.
  { intros k' Hk'. rewrite (kv_create_get _ _ _ _ _ _ Hc), decide_False; [done|]. intros ->. congruence. }
  destruct Hlog as [Hkeys Hreads Htok Hctx]. split; [|..|done|done].
  - intros k' Hk'. rewrite E by done. by apply Hkeys.
  - intros i rec Hi. unfold entry_of. rewrite E by apply nth_key_prefix. by apply Hreads.
Qed.

Lemma records_cons q0 qs :
  ∃ rest, records_of (q0 :: qs) = record_of 0 q0 :: rest ∧
    (∀ r, r ∈ rest → ∃ i q, q ∈ qs ∧ r = record_of i q) ∧
    rec_event <$> rest = (λ q, stored_event (q_event q)) <$> qs.
Proof.
  exists (imap (λ i, record_of (Datatypes.S i)) qs). split_and!; [done|..].
  - intros r Hr. apply list_elem_of_lookup in Hr as [i Hi].
    rewrite list_lookup_imap in Hi. apply fmap_Some in Hi as (q & Hi & ->).
    exists (Datatypes.S i), q. split; [by eapply list_elem_of_lookup_2|done].
  - apply list_eq. intros i. rewrite !list_lookup_fmap, list_lookup_imap. by destruct (qs !! i).
Qed.

Lemma log_get s token qs l :
  name_ok org_id → name_ok token → log_at s token qs → kv_keys s = Some l →
  get_marker_stack org_id (Some l) (kv_get s) org_id token = Ok (stack_of token qs).
Proof.
  intros Ho Ht Hlog Hl. unfold get_marker_stack, check_org.
  rewrite (name_nonempty _ Ho), (name_nonempty _ Ht), (log_read _ _ _ _ Hlog Hl).
  unfold str_eqb. rewrite bool_decide_true by done. cbn [negb]. rewrite raise_if_false, !bind_Ok.
  destruct qs as [|q0 qs]; [done|]. pose proof (log_token _ _ _ Hlog) as Hq.
  rewrite Forall_forall in Hq. destruct (records_cons q0 qs) as (rest & -> & Hrest & Hev).
  unfold stack_of_records. assert (forallb (λ r, context_eqb (stack_context r)
    (stack_context (record_of 0 q0))) rest = true) as ->.
  { apply forallb_forall. intros r (i & q & Hin & ->)%list_elem_of_In%Hrest.
    apply (stored_eqb (q_context q) (q_context q0)).
    - apply (Hq q). by right.
    - apply (Hq q0). by left.
    - apply (log_context _ _ _ Hlog); [done|by right]. }
  cbn [negb]. rewrite raise_if_false, bind_Ok.
  destruct (Hq q0 ltac:(by left)) as (_ & _ & [(us & Em & _) _] & _).
  unfold new_stack. cbn [token_id MarkerStack.minted_at]. rewrite (name_nonempty _ Ht).
  cbn [stack_context record_of stored_record stored_context minted_at]. rewrite Em.
  cbn [_check_aware_datetime is_naive]. rewrite raise_if_false. cbn [fmap list_fmap].
  change (list_fmap _ _ ?f ?l) with (f <$> l). rewrite Hev. unfold stack_of. by rewrite Em.
Qed.

(** ** One writer *)

Definition same_context (qs : list request) (q : request) : bool :=
  match qs with
  | [] => true
  | q0 :: _ => context_eqb (stored_context (q_context q0)) (q_context q)
  end.

Lemma log_heads s token qs :
  log_at s token qs →
  match records_of qs with
  | [] => qs = []
  | r :: _ => ∃ q0 qs', qs = q0 :: qs' ∧ r = record_of 0 q0 ∧ context_ok (q_context q0)
  end.
Proof.
  intros Hlog%log_token. destruct qs as [|q0 qs]; [done|]. apply Forall_cons in Hlog as [(_ & _ & Hc & _) _].
  destruct (records_cons q0 qs) as (rest & -> & _). eauto.
Qed.

Lemma same_context_norm qs q :
  context_ok (q_context q) → Forall (λ q, context_ok (q_context q)) qs → same_context qs q = true →
  ∀ q0, head qs = Some q0 → context_norm (q_context q) = context_norm (q_context q0).
Proof.
  intros Hq Hqs Hs q0 Hh. destruct qs as [|q1 qs]; [done|]. injection Hh as <-.
  apply Forall_cons in Hqs as [H1 _]. by apply stored_eqb in Hs.
Qed.

(** What a plan answers on a log that is listed and read without interruption. *)
Lemma plan_alone s qs q l :
  name_ok org_id → name_ok (q_token q) → q_org q = org_id → request_ok q →
  log_at s (q_token q) qs → kv_keys s = Some l →
  let n := Z.of_nat (length qs) in
  if negb (same_context qs q) then plan_of (Some l) (kv_get s) q = Err MarkerStackContextConflictError
  else match q_expected q with
  | Some e => if e =? n + 1 then True else
      plan_of (Some l) (kv_get s) q = Err (MarkerStackConcurrencyConflictError None (Some e) (Some n))
  | None => True
  end ∧ (match q_expected q with Some e => e = n + 1 | None => True end →
    ∃ blob, _decode_envelope blob = Ok (record_of (length qs) q) ∧
      plan_of (Some l) (kv_get s) q = Ok (nth_key (q_token q) (length qs), blob, n + 1)).
Proof.
  intros Ho Ht Horg (He & Hc & Ha) Hlog Hl n. unfold plan_of, put_plan, check_org.
  rewrite Horg, (name_nonempty _ Ho), (name_nonempty _ Ht), (log_read _ _ _ _ Hlog Hl).
  unfold str_eqb. rewrite bool_decide_true by done.
  assert (_IDENT_RE (q_token q) = true) as -> by done.
  cbn [negb]. rewrite raise_if_false, !bind_Ok.
  rewrite (max_sequence org_id (q_token q)) by (by apply records_numbered, (log_token _ _ _ Hlog)).
  rewrite length_records. fold n. cbv zeta. pose proof (log_heads _ _ _ Hlog) as Hh.
  assert ((match records_of qs with
    | [] => Ok ()
    | first :: _ => raise_if (negb (context_eqb (stack_context first) (q_context q)))
                      MarkerStackContextConflictError
    end) = raise_if (negb (same_context qs q)) MarkerStackContextConflictError) as ->.
  { destruct (records_of qs) as [|r rs]; [by subst|]. by destruct Hh as (q0 & qs' & -> & -> & _). }
  destruct (same_context qs q); cbn [negb]; [|done]. rewrite raise_if_false, bind_Ok. split.
  - destruct (q_expected q) as [e|]; [|done]. destruct (e =? n + 1); done.
  - intros Hexp. destruct (envelope_reads org_id (q_token q) (n + 1) (q_event q) (q_context q) (q_appended q))
      as (blob & Eb & D); [done|done|lia|done..|]. exists blob. split.
    + rewrite D. unfold record_of. do 2 f_equal. lia.
    + assert (match q_expected q with
        | Some n0 => raise_if (negb (n0 =? n + 1)) (MarkerStackConcurrencyConflictError None (Some n0) (Some n))
        | None => Ok () end = Ok ()) as ->.
      { destruct (q_expected q) as [e|]; [|done]. by rewrite (proj2 (Z.eqb_eq _ _) Hexp). }
      rewrite bind_Ok. destruct Ha as (us & Ea & _). rewrite Ea. cbn [is_naive].
      rewrite raise_if_false, bind_Ok, <- Ea.
      rewrite (proj2 (event_key_ok (q_token q) (n + 1) (nth_key (q_token q) (length qs)))), bind_Ok, Eb; [done|].
      split_and!; [done|lia|]. unfold nth_key. f_equal. lia.
Qed.

Definition put_of (s : S) (q : request) :=
  put_marker_stack org_id s (q_org q) (q_token q) (q_event q) (q_context q) (q_appended q) (q_expected q).

Lemma create_frame s k blob s' r k' :
  kv_create s k blob = Some (s', r) → is_Some (kv_get s k') → kv_get s' k' = kv_get s k'.
Proof.
  intros Hc Hk'. rewrite (kv_create_get _ _ _ _ _ _ Hc), decide_False; [done|]. intros ->.
  assert (kv_get s k = None) as E by (apply (kv_create_iff s k blob); eauto). by destruct Hk'; congruence.
Qed.

Lemma other_token token t n :
  name_ok token → name_ok t → 1 ≤ n → t ≠ token →
  startswith (event_key t n) (token_prefix token) = false.
Proof.
  intros. destruct (startswith _ _) eqn:E; [|done]. exfalso. by apply prefix_other in E.
Qed.

Lemma log_contexts s token qs : log_at s token qs → Forall (λ q, context_ok (q_context q)) qs.
Proof. intros Hlog%log_token. eapply Forall_impl; [exact Hlog|]. by intros q (_ & _ & Hc & _). Qed.

(** A put that no other writer interrupts: on a token whose log is readable, an
    event with another stack context is refused, as is one whose expected
    number is not the next; both change nothing.  Any other event is appended
    under the next number, and the logs of all other tokens stay as they are. *)
Theorem put_appends s qs q l :
  name_ok org_id → name_ok (q_token q) → q_org q = org_id → request_ok q →
  log_at s (q_token q) qs → kv_keys s = Some l →
  let n := Z.of_nat (length qs) in
  let '(s', x) := put_of s q in
  if negb (same_context qs q) then s' = s ∧ x = Err MarkerStackContextConflictError
  else if match q_expected q with Some e => negb (e =? n + 1) | None => false end
  then s' = s ∧ x = Err (MarkerStackConcurrencyConflictError None (q_expected q) (Some n))
  else x = Ok (MkVersion (q_token q) (n + 1) (q_appended q)) ∧
    log_at s' (q_token q) (qs ++ [q]) ∧
    ∀ token qs', name_ok token → token ≠ q_token q → log_at s token qs' → log_at s' token qs'.
Proof.
  intros Ho Ht Horg Hq Hlog Hl n. pose proof (plan_alone s qs q l Ho Ht Horg Hq Hlog Hl) as Hp.
  cbv zeta in Hp. fold n in Hp. unfold put_of, put_marker_stack. rewrite Hl. fold (plan_of (Some l) (kv_get s) q).
  destruct (same_context qs q) eqn:Es; cbn [negb] in *; [|by rewrite Hp]. destruct Hp as [Hc Hp].
  destruct (match q_expected q with Some e => negb (e =? n + 1) | None => false end) eqn:Ee.
  - destruct (q_expected q) as [e|]; [|done]. apply negb_true_iff in Ee. rewrite Ee in Hc. by rewrite Hc.
  - destruct Hp as (blob & D & ->).
    { destruct (q_expected q) as [e|]; [|done]. by apply negb_false_iff, Z.eqb_eq in Ee. }
    destruct (proj2 (kv_create_iff s (nth_key (q_token q) (length qs)) blob) (log_free _ _ _ Hlog))
      as [[s' r] Ec]. unfold _kv_create. rewrite Ec. split_and!; [done|..].
    + eapply log_append; [exact Hlog|done|done| |exact D|exact Ec].
      apply same_context_norm; [apply Hq|by eapply log_contexts|done].
    + intros token qs' Htok Hne Hlog'. eapply log_frame; [exact Hlog'| |exact Ec].
      apply other_token; [done|done|lia|done].
Qed.

(** ** Concurrent writers

    One step of the system is one stretch of a put between two awaits: the
    listing, one get, the decision, or the create. *)

Inductive phase : Type :=
| Reading (q : request) (listing : list str) (got : list (str * option kv_entry))
| Writing (q : request) (key : str) (blob : bytes) (n : Z).

Record sys := Sys {
  store : S;
  procs : gmap nat phase;
  accepted : list (request * Z);
}.

Definition fetch_of (got : list (str * option kv_entry)) (k : str) : option kv_entry :=
  mjoin (dict_get got k).

Inductive sys_step : sys → sys → Prop :=
| step_list σ i q l :
    request_ok q → procs σ !! i = None → kv_keys (store σ) = Some l →
    sys_step σ (Sys (store σ) (<[i := Reading q l []]> (procs σ)) (accepted σ))
| step_get σ i q l got k :
    procs σ !! i = Some (Reading q l got) → k ∈ l →
    sys_step σ (Sys (store σ) (<[i := Reading q l ((k, kv_get (store σ) k) :: got)]> (procs σ))
      (accepted σ))
| step_plan σ i q l got key blob n :
    procs σ !! i = Some (Reading q l got) →
    (∀ k, k ∈ l → startswith k (token_prefix (q_token q)) = true → k ∈ got.*1) →
    plan_of (Some l) (fetch_of got) q = Ok (key, blob, n) →
    sys_step σ (Sys (store σ) (<[i := Writing q key blob n]> (procs σ)) (accepted σ))
| step_stop σ i :
    sys_step σ (Sys (store σ) (delete i (procs σ)) (accepted σ))
| step_create σ i q key blob n s' r :
    procs σ !! i = Some (Writing q key blob n) → _kv_create (store σ) key blob = (s', Ok r) →
    sys_step σ (Sys s' (delete i (procs σ)) (accepted σ ++ [(q, n)]))
| step_conflict σ i q key blob n s' e :
    procs σ !! i = Some (Writing q key blob n) → _kv_create (store σ) key blob = (s', Err e) →
    sys_step σ (Sys s' (delete i (procs σ)) (accepted σ)).

(** The acknowledged events of a token. *)
Definition mine (token : str) (l : list (request * Z)) : list (request * Z) :=
  filter (λ x, q_token x.1 = token) l.

Definition proc_ok (s : S) (token : str) (qs : list request) (p : phase) : Prop :=
  match p with
  | Reading q l got =>
      request_ok q ∧ (q_token q = token →
        ∃ n, (n ≤ length qs)%nat ∧ lists_log token l n ∧
          ∀ k o, (k, o) ∈ got → k ∈ l → startswith k (token_prefix token) = true → o = kv_get s k)
  | Writing q key blob n =>
      request_ok q ∧ name_ok (q_token q) ∧ 1 ≤ n ∧ key = event_key (q_token q) n ∧
      (q_token q = token →
        ∃ m, (m ≤ length qs)%nat ∧ n = Z.of_nat (m + 1) ∧ _decode_envelope blob = Ok (record_of m q) ∧
          (m ≠ O → ∃ q0, head qs = Some q0 ∧ context_norm (q_context q) = context_norm (q_context q0)))
  end.

Definition sys_ok (token : str) (σ : sys) : Prop :=
  log_at (store σ) token (mine token (accepted σ)).*1 ∧
  (mine token (accepted σ)).*2 = (λ i, Z.of_nat (i + 1)) <$> seq 0 (length (mine token (accepted σ))) ∧
  map_Forall (λ _, proc_ok (store σ) token (mine token (accepted σ)).*1) (procs σ).

(** A longer log that keeps the entries it had does not disturb a process. *)
Lemma proc_ok_mono s s' token qs ext p :
  (∀ i, (i < length qs)%nat → kv_get s' (nth_key token i) = kv_get s (nth_key token i)) →
  proc_ok s token qs p → proc_ok s' token (qs ++ ext) p.
Proof.
  intros Hg. destruct p as [q l got|q key blob n].
  - intros [Hq Hp]. split; [done|]. intros Ht. destruct (Hp Ht) as (n & Hn & Hl & Hgot).
    exists n. rewrite length_app. split_and!; [lia|done|]. intros k o Ho Hk Hpre.
    rewrite (Hgot k o) by done. destruct (proj1 (proj2 Hl k Hpre) Hk) as (i & Hi & ->).
    symmetry. apply Hg. lia.
  - intros (Hq & Hname & Hn & Hk & Hp). split_and!; [done..|]. intros Ht.
    destruct (Hp Ht) as (m & Hm & E & D & Hc). exists m. rewrite length_app.
    split_and!; [lia|done|done|]. intros Hm0. destruct (Hc Hm0) as (q0 & Hh & Hctx).
    exists q0. split; [|done]. by destruct qs.
Qed.

Lemma records_take n qs : records_of (take n qs) = take n (records_of qs).
Proof.
  apply list_eq. intros i. unfold records_of. rewrite list_lookup_imap.
  destruct (decide (i < n)%nat).
  - by rewrite !lookup_take_lt, list_lookup_imap by done.
  - by rewrite !lookup_take_ge by lia.
Qed.

(** A plan made on the listing and the entries a process has gathered. *)
Lemma plan_gathered s token qs q l got key blob n :
  name_ok org_id → log_at s token qs → proc_ok s token qs (Reading q l got) →
  (∀ k, k ∈ l → startswith k (token_prefix (q_token q)) = true → k ∈ got.*1) →
  plan_of (Some l) (fetch_of got) q = Ok (key, blob, n) →
  proc_ok s token qs (Writing q key blob n).
Proof.
  intros Ho Hlog [Hq Hread] Hall Hp.
  apply plan_spec in Hp as (live & Hlive & Hname & _ & Hmax & Hctx & _ & Hn & Hk & Hb).
  split_and!; [done..|]. intros Ht. destruct (Hread Ht) as (m & Hm & Hl & Hgot). exists m.
  assert (Forall (λ q, q_token q = token ∧ request_ok q) (take m qs)) as Hqs
    by apply Forall_take, (log_token _ _ _ Hlog).
  pose proof (records_numbered _ _ Hqs) as Hnum.
  assert (length (records_of (take m qs)) = m) as Hlen by (rewrite length_records, length_take; lia).
  assert (live = records_of (take m qs)) as ->.
  { rewrite Ht in Hlive. rewrite (read_log _ token l (fetch_of got) (records_of (take m qs))) in Hlive;
      [by apply Ok_inj in Hlive|done|by rewrite Hlen|].
    intros i r Hi. pose proof (lookup_lt_Some _ _ _ Hi) as Hlt. rewrite Hlen in Hlt.
    assert (nth_key token i ∈ l) as Hin by (apply Hl; [apply nth_key_prefix|eauto]).
    pose proof (Hall _ Hin) as Hg. rewrite Ht in Hg. specialize (Hg (nth_key_prefix _ _)).
    assert (fetch_of got (nth_key token i) = kv_get s (nth_key token i)) as E.
    { unfold fetch_of. destruct (dict_get got (nth_key token i)) as [o|] eqn:Eo.
      - apply Hgot; [by apply dict_get_Some_elem|done|apply nth_key_prefix].
      - by apply dict_get_None in Eo. }
    rewrite records_take in Hi. apply lookup_take_Some in Hi as [Hi _].
    destruct (log_reads _ _ _ Hlog _ _ Hi) as (b & rev & Eb & D). exists b, rev. by rewrite E. }
  rewrite (max_sequence _ _ _ Hnum), Hlen in Hmax.
  assert (n = Z.of_nat (m + 1)) as -> by lia. split_and!; [done|done| |].
  - by eapply stored_blob.
  - intros Hm0. destruct qs as [|q0 qs]; [simpl in Hm; lia|]. exists q0. split; [done|].
    destruct m as [|m]; [done|]. cbn [take] in *.
    destruct (records_cons q0 (take m qs)) as (rest & Er & _). rewrite Er in Hctx.
    symmetry. apply Forall_cons in Hqs as [[_ Hq0] _].
    pose proof (Hctx _ eq_refl) as Hc. by apply stored_eqb in Hc; [|apply Hq0|apply Hq].
Qed.

Lemma mine_snoc token l q n :
  mine token (l ++ [(q, n)]) = mine token l ++ (if decide (q_token q = token) then [(q, n)] else []).
Proof. unfold mine. rewrite filter_app, filter_cons, filter_nil. cbn. by case_decide. Qed.

Lemma create_ok s key blob s' r : _kv_create s key blob = (s', Ok r) ↔ kv_create s key blob = Some (s', r).
Proof. unfold _kv_create. destruct (kv_create s key blob) as [[]|]; naive_solver. Qed.

Lemma stack_step_ok token σ σ' :
  name_ok org_id → name_ok token → sys_step σ σ' → sys_ok token σ → sys_ok token σ'.
Proof.
  intros Ho Htok Hstep (Hlog & Hnum & Hproc).
  destruct Hstep as [σ i q l Hq Hi Hl|σ i q l got k Hi Hk|σ i q l got key blob n Hi Hall Hp|σ i
                    |σ i q key blob n s' r Hi Hc%create_ok|σ i q key blob n s' e Hi Hc].
  - split_and!; [done..|]. apply map_Forall_insert_2; [|done]. split; [done|]. intros _.
    exists (length (mine token (accepted σ)).*1). split_and!; [done|by eapply log_lists|].
    by intros ? ? ?%elem_of_nil.
  - split_and!; [done..|]. apply map_Forall_insert_2; [|done].
    destruct (Hproc _ _ Hi) as [Hq Hread]. split; [done|]. intros Ht.
    destruct (Hread Ht) as (n & Hn & Hl & Hgot). exists n. split_and!; [done..|].
    intros k' o [[= -> ->]|Hin]%elem_of_cons; [done|by apply Hgot].
  - split_and!; [done..|]. apply map_Forall_insert_2; [|done]. by eapply plan_gathered; [..|apply (Hproc _ _ Hi)| |].
  - split_and!; [done..|]. by apply map_Forall_delete.
  - destruct (Hproc _ _ Hi) as (Hq & Hname & Hn & -> & Hw). cbn [store accepted procs] in *.
    assert (∀ ext, map_Forall (λ _, proc_ok s' token ((mine token (accepted σ)).*1 ++ ext))
      (delete i (procs σ))) as Hmono.
    { intros ext. apply map_Forall_delete. eapply map_Forall_impl; [exact Hproc|].
      intros j p Hp. eapply proc_ok_mono; [|exact Hp]. intros m Hm. eapply create_frame; [exact Hc|].
      apply (log_keys _ _ _ Hlog); [apply nth_key_prefix|eauto]. }
    unfold sys_ok. cbn [store accepted procs]. rewrite mine_snoc. case_decide as Ht.
    + destruct (Hw Ht) as (m & Hm & -> & D & Hctx).
      set (qs := (mine token (accepted σ)).*1) in *.
      assert (m = length qs) as ->.
      { destruct (decide (m = length qs)); [done|]. exfalso.
        assert (kv_get (store σ) (event_key (q_token q) (Z.of_nat (m + 1))) = None) as E
          by (eapply (kv_create_iff (store σ)); eauto).
        assert (is_Some (kv_get (store σ) (nth_key token m))) as [x Ex].
        { apply (log_keys _ _ _ Hlog); [apply nth_key_prefix|]. exists m. split; [lia|done]. }
        unfold nth_key in Ex. rewrite Ht in E. replace (Z.of_nat (Datatypes.S m)) with (Z.of_nat (m + 1)) in Ex by lia.
        congruence. }
      rewrite !fmap_app. fold qs. split_and!; [|..|apply Hmono].
      * eapply log_append; [exact Hlog|done|done| |exact D|].
        -- intros q0 Hh. destruct Hctx as (q1 & Hh1 & E).
           { intros E%nil_length_inv. by rewrite E in Hh. }
           rewrite Hh in Hh1. by injection Hh1 as ->.
        -- rewrite <- Ht. unfold nth_key. replace (Z.of_nat (Datatypes.S (length qs))) with (Z.of_nat (length qs + 1)) by lia. exact Hc.
      * rewrite Hnum, length_app. cbn [length fmap list_fmap snd]. rewrite seq_app, fmap_app. cbn.
        unfold qs. by rewrite length_fmap.
    + rewrite app_nil_r. split_and!; [|done|].
      * eapply log_frame; [exact Hlog| |exact Hc]. by apply other_token.
      * specialize (Hmono []). by rewrite app_nil_r in Hmono.
  - assert (s' = store σ) as ->.
    { unfold _kv_create in Hc. by destruct (kv_create _ _ _) as [[]|]; simplify_eq. }
    split_and!; [done..|]. by apply map_Forall_delete.
Qed.

(** C20: Under every interleaving of writers, on a bucket without events of the
    token: the acknowledged events of the token carry the numbers 1, 2, 3, ...
    in the order of their writes, and whenever the bucket lists its keys the
    stack that is read back consists of exactly these events, in that order,
    under the context they all share.  No acknowledged event is lost or
    overwritten and none is read that was not acknowledged. *)
Theorem events_append_only token s σ :
  name_ok org_id → name_ok token →
  (∀ k, startswith k (token_prefix token) = true → kv_get s k = None) →
  rtc sys_step (Sys s ∅ []) σ →
  (mine token (accepted σ)).*2 = (λ i, Z.of_nat (i + 1)) <$> seq 0 (length (mine token (accepted σ))) ∧
  ∀ l, kv_keys (store σ) = Some l →
    get_marker_stack org_id (Some l) (kv_get (store σ)) org_id token =
    Ok (stack_of token (mine token (accepted σ)).*1).
Proof.
  intros Ho Ht Hfree Hrun. assert (sys_ok token σ) as (Hlog & Hnum & _).
  { eapply (rtc_invariant sys_step (sys_ok token)); [|exact Hrun|].
    - intros σ1 σ2 Hstep. by apply stack_step_ok.
    - split_and!; [|done|apply map_Forall_empty]. split; cbn.
      + intros k Hk. rewrite Hfree by done. split; [by intros []|]. intros (i & Hi & _). lia.
      + by intros i r.
      + constructor.
      + done. }
  split; [done|]. intros l Hl. by apply log_get.
Qed.
End log.
End MarkerKv.

(** ** Concrete buckets *)

#[export] Instance mem_keys : KvKeys mem_kv := λ s, Some (map_to_list s).*1.

#[export] Instance mem_keys_laws : KvKeysLaws mem_kv.
Proof.
  split.
  - intros s l [= <-]. apply NoDup_fst_map_to_list.
  - intros s l k [= <-]. rewrite list_elem_of_fmap. cbn. rewrite fmap_is_Some. split.
    + intros ([k' x] & -> & Hin%elem_of_map_to_list). eauto.
    + intros [x Hx]. exists (k, x). split; [done|]. by apply elem_of_map_to_list.
Qed.

Module MarkerKvExample.
Import MarkerStack.MarkerStack MarkerKv.

Definition org : str := u "acme".
Definition tok : str := u "tok-1".
Definition ctx : StackContext :=
  MkContext (Aware 100) (Some [(u "max", [JInt 3; JObj [(u "b", JNull); (u "a", JBool true)]])]).
Definition revoke (t : Z) : request :=
  MkRequest org tok (RevokeEvent (Aware t) (Some (u "lost")) 0 (JStr (u "m1"))) ctx (Aware t) None.

Lemma aware_iso t : bool_decide (0 <= t < 1000000) = true → Ledger.iso_ok (Aware t).
Proof.
  intros Ht%bool_decide_eq_true. exists t. split; [done|]. unfold in_rfc3339_range. split.
  - eapply Z.le_trans; [|apply Ht]. by vm_compute.
  - eapply Z.lt_trans; [apply Ht|]. by vm_compute.
Qed.

Lemma revoke_ok t : bool_decide (0 <= t < 1000000) = true → request_ok (revoke t).
Proof.
  intros Ht%aware_iso.
  split; [|split; [split; [by apply aware_iso|]|exact Ht]].
  - split; [exact Ht|]. by split; vm_compute.
  - cbn. apply Forall_singleton. split; [by vm_compute|]. repeat (apply List.Forall_cons; [|]).
    + done.
    + apply json_wf_obj. split; [apply (bool_decide_unpack _); by vm_compute|].
      repeat (apply List.Forall_cons; [by split; vm_compute|]). constructor.
    + constructor.
Qed.

Example revoke_twice :
  let '(s1, _) := put_of org (∅ : mem_kv) (revoke 200) in
  let '(s2, _) := put_of org s1 (revoke 300) in
  get_marker_stack org (kv_keys s2) (kv_get s2) org tok =
    Ok (stack_of tok [revoke 200; revoke 300]) ∧
  list_marker_stacks org (kv_keys s2) org (Some (u "tok")) = Ok [tok].
Proof. vm_compute. done. Qed.

Lemma put_appends_witness :
  let '(s', x) := put_of org (∅ : mem_kv) (revoke 200) in
  x = Ok (MkVersion tok (0 + 1) (Aware 200)) ∧ log_at org s' tok ([] ++ [revoke 200]) ∧
  ∀ token qs', Ledger.name_ok token → token ≠ tok → log_at org ∅ token qs' → log_at org s' token qs'.
Proof.
  apply (put_appends org (∅ : mem_kv) [] (revoke 200) []).
  - by vm_compute.
  - by vm_compute.
  - done.
  - apply revoke_ok. by vm_compute.
  - split; cbn.
    + intros k _. rewrite lookup_empty. split; [by intros []|intros (i & Hi & _); lia].
    + by intros i r.
    + constructor.
    + done.
  - done.
Defined.

(** One writer, from the listing to the acknowledgement. *)
Definition done_sys : sys (S:=mem_kv) :=
  match put_plan org (Some []) (fetch_of []) org tok (q_event (revoke 200)) ctx (Aware 200) None with
  | Ok (key, blob, n) => Sys (_kv_create (∅ : mem_kv) key blob).1 ∅ [(revoke 200, n)]
  | Err _ => Sys ∅ ∅ []
  end.

Lemma done_reached : rtc (sys_step org) (Sys (∅ : mem_kv) ∅ []) done_sys.
Proof.
  eapply rtc_l; [apply (step_list org _ 0%nat (revoke 200) []); [apply revoke_ok; by vm_compute|done|done]|].
  unfold done_sys.
  destruct (put_plan org (Some []) (fetch_of []) org tok (q_event (revoke 200)) ctx (Aware 200) None)
    as [[[key blob] n]|e] eqn:Ep; [|by vm_compute in Ep].
  eapply rtc_l; [eapply (step_plan org _ 0%nat (revoke 200) [] [] key blob n)|].
  - by apply lookup_insert_eq.
  - by intros k ?%elem_of_nil.
  - exact Ep.
  - eapply rtc_l; [eapply (step_create org _ 0%nat (revoke 200) key blob n); [by apply lookup_insert_eq|]|].
    + unfold _kv_create. cbn [kv_create mem_bucket store]. by rewrite lookup_empty.
    + cbn [store procs accepted]. rewrite !delete_insert_eq, delete_empty. unfold _kv_create.
      cbn [kv_create mem_bucket]. rewrite lookup_empty. apply rtc_refl.
Qed.

Lemma events_append_only_witness :
  (mine tok (accepted done_sys)).*2 =
    (λ i, Z.of_nat (i + 1)) <$> seq 0 (length (mine tok (accepted done_sys))) ∧
  ∀ l, kv_keys (store done_sys) = Some l →
    get_marker_stack org (Some l) (kv_get (store done_sys)) org tok =
    Ok (stack_of tok (mine tok (accepted done_sys)).*1).
Proof.
  apply (events_append_only org tok (∅ : mem_kv) done_sys).
  - by vm_compute.
  - by vm_compute.
  - intros k _. cbn. by rewrite lookup_empty.
  - apply done_reached.
Defined.

(** A client whose [keys] raises on an empty bucket never gets a first event. *)
Example empty_bucket_raises :
  plan_of org None (λ _, None) (revoke 200) = Err KvClientError.
Proof. vm_compute. done. Qed.

(** The path for clients without create is not atomic: two writers that tested
    before either wrote both succeed, and the first event is gone. *)
Example fallback_overwrites :
  let kv_put (s : mem_kv) (k : str) (v : bytes) := (<[k := (v, 1)]> s, 1) in
  match plan_of org (Some []) (λ _, None) (revoke 200), plan_of org (Some []) (λ _, None) (revoke 300) with
  | Ok (key, blob1, _), Ok (_, blob2, _) =>
      let s := (∅ : mem_kv) in
      fallback_test s key = Ok () ∧
      let s1 := (fallback_create kv_put s key blob1).1 in
      let s2 := (kv_put s1 key blob2).1 in
      get_marker_stack org (kv_keys s2) (kv_get s2) org tok = Ok (stack_of tok [revoke 300])
  | _, _ => False
  end.
Proof. vm_compute. done. Qed.

(** An envelope of a revocation with another payload. *)
Definition with_payload (payload : list (str * json)) : result marker_kv_error MarkerEventRecord :=
  _decode_envelope (default [] (utf8_encode (json_dumps true true (
    envelope_json org tok 1 (q_event (revoke 200)) (JObj payload)
      (JStr (u "2026-01-01T00:00:00Z")) JNull (JStr (u "2026-01-01T00:00:00Z")))))).

(** Malformed envelopes that do not end in the envelope error: a time without
    an offset, a reason that is not a text, an infinite tie-break. *)
Example escaping_errors :
  with_payload [(u "event_at", JStr (u "2026-01-01T00:00:00"))] =
    Err (EventError MarkerCompositionArgumentError) ∧
  with_payload [(u "event_at", JStr (u "2026-01-01T00:00:00Z")); (u "revocation_reason", JInt 5)] =
    Err (EventError MarkerCompositionArgumentError) ∧
  with_payload [(u "event_at", JStr (u "2026-01-01T00:00:00Z"));
                (u "tie_break", JFloat (S754_infinity false))] = Err TieBreakOverflowError ∧
  with_payload [(u "event_at", JInt 5)] = Err MarkerStackEnvelopeError.
Proof. vm_compute. done. Qed.
End MarkerKvExample.
