(* ===== verification/SequenceLedger.v ===== *)
(** * The ledger interface of the exports ([wirelang/federation/caveat_override_export.py])

    [SequenceNumberLedger] is a protocol of the source: the class states its
    three operations, and [SequenceLedgerLaws] what an exporter relies on.  The
    in-memory ledger of the same file and the ledger on the key-value bucket
    ([Ledger]) are the instances; each discharges the laws. *)

From S2P Require Import Prelude PyStr PyTime PyIso Ledger.
From Stdlib Require Import ZArith Lia.

Open Scope Z_scope.

Class SequenceLedger (L E : Type) := {
  next_sequence : L → str → str → result E Z;
  record_export : L → str → str → Z → L * result E ();
  last_seen : L → str → str → result E Z;
}.

(** On a readable ledger and for the pairs it can hold, the last number is known
    and its successor is next; a number is recorded exactly when it is positive
    and above the last one, and recording it touches no other pair. *)
Class SequenceLedgerLaws (L E : Type) `{SequenceLedger L E}
    (ledger_ok : L → Prop) (pair_ok : str → str → Prop) : Prop := {
  last_seen_ok l r c : ledger_ok l → pair_ok r c → ∃ n, last_seen l r c = Ok n ∧ 0 ≤ n;
  next_sequence_ok l r c n :
    ledger_ok l → pair_ok r c → last_seen l r c = Ok n → next_sequence l r c = Ok (n + 1);
  record_accepted l r c n k :
    ledger_ok l → pair_ok r c → last_seen l r c = Ok n → 1 ≤ k → n < k →
    ∃ l', record_export l r c k = (l', Ok ()) ∧ ledger_ok l' ∧ last_seen l' r c = Ok k ∧
      ∀ r' c', pair_ok r' c' → (r', c') ≠ (r, c) → last_seen l' r' c' = last_seen l r' c';
  record_refused l r c n k :
    ledger_ok l → pair_ok r c → last_seen l r c = Ok n → k < 1 ∨ k ≤ n →
    ∃ e, record_export l r c k = (l, Err e);
}.

Module MemoryLedger.

Inductive memory_error : Type :=
| CaveatOverrideExportShapeError
| CaveatOverrideExportReplayError (route_id chain_hash : str) (last_seen attempted : Z).

(** [_state] *)
Record InMemorySequenceNumberLedger := MkMemory { _state : gmap (str * str) Z }.

Definition empty : InMemorySequenceNumberLedger := MkMemory ∅.

Definition memory_last (l : InMemorySequenceNumberLedger) (r c : str) : Z :=
  default 0 (_state l !! (r, c)).

Definition memory_record (l : InMemorySequenceNumberLedger) (r c : str) (sequence : Z)
    : InMemorySequenceNumberLedger * result memory_error () :=
  if sequence <? 1 then (l, Err CaveatOverrideExportShapeError)
  else
    let last := memory_last l r c in
    if sequence <=? last then (l, Err (CaveatOverrideExportReplayError r c last sequence))
    else (MkMemory (<[(r, c) := sequence]> (_state l)), Ok ()).

#[export] Instance memory_ledger : SequenceLedger InMemorySequenceNumberLedger memory_error := {
  next_sequence l r c := Ok (memory_last l r c + 1);
  record_export := memory_record;
  last_seen l r c := Ok (memory_last l r c);
}.

(** Its numbers are never negative. *)
Definition memory_ok (l : InMemorySequenceNumberLedger) : Prop := ∀ r c, 0 ≤ memory_last l r c.

#[export] Instance memory_laws :
  SequenceLedgerLaws InMemorySequenceNumberLedger memory_error memory_ok (λ _ _, True).
Proof.
  split.
  - intros l r c Hl _. by exists (memory_last l r c).
  - intros l r c n _ _ [= <-]. done.
  - intros l r c n k Hl _ [= <-] Hk Hn. cbn [record_export memory_ledger last_seen] in *.
    unfold memory_record. rewrite (proj2 (Z.ltb_ge k 1)), (proj2 (Z.leb_gt _ _)) by lia.
    eexists. split; [reflexivity|]. unfold memory_ok, memory_last in *. cbn. split_and!.
    + intros r' c'. destruct (decide ((r', c') = (r, c))) as [->|Hne].
      * rewrite lookup_insert_eq. cbn. lia.
      * rewrite lookup_insert_ne by done. apply Hl.
    + by rewrite lookup_insert_eq.
    + intros r' c' _ Hne. by rewrite lookup_insert_ne by done.
  - intros l r c n k _ _ [= <-] Hk. cbn. unfold memory_record.
    destruct (Z.ltb_spec k 1); [eauto|]. rewrite (proj2 (Z.leb_le _ _)) by lia. eauto.
Qed.
End MemoryLedger.

(** ** The key-value ledger *)

Section kv_ledger.
Context {S : Type} `{KvLaws S} (org_id : str) (org_ok : Ledger.name_ok org_id).

(** The clock is read once per record. *)
Context (clock : nat → datetime) (clock_ok : ∀ i, Ledger.iso_ok (clock i)).

Definition kv_record (l : S * nat) (r c : str) (n : Z) : (S * nat) * result ledger_error () :=
  let '(s', x) := Ledger.record_export org_id l.1 r c n (clock l.2) in
  ((s', if is_ok x then Datatypes.S l.2 else l.2), x).

#[local] Instance kv_sequence_ledger : SequenceLedger (S * nat) ledger_error := {
  next_sequence l := Ledger.next_sequence org_id l.1;
  record_export := kv_record;
  last_seen l := Ledger.last_seen org_id l.1;
}.

(** Every cell the organisation could name is free or readable. *)
Definition cells_readable (s : S) : Prop :=
  ∀ r c, Ledger.name_ok r → Ledger.name_ok c → ∃ cell, Ledger._read_cell org_id s r c = Ok cell.

Lemma readable_last s r c :
  Ledger.name_ok r → Ledger.name_ok c →
  (∃ cell, Ledger._read_cell org_id s r c = Ok cell) ↔ ∃ n, Ledger.a_last_seen org_id s r c None = Ok n.
Proof.
  intros Hr Hc. unfold Ledger.a_last_seen. cbn [Ledger._validate_org_id]. rewrite bind_Ok. split.
  - intros [cell ->]. eauto.
  - intros [n Hn]. apply bind_ok_iff in Hn as (cell & -> & _). eauto.
Qed.

Definition kv_ok (l : S * nat) : Prop := cells_readable l.1.
Definition kv_pair_ok (r c : str) : Prop := Ledger.name_ok r ∧ Ledger.name_ok c.

Lemma last_seen_seen s r c n :
  Ledger.a_last_seen org_id s r c None = Ok n →
  ∃ cell, Ledger._read_cell org_id s r c = Ok cell ∧ Ledger.seen cell = n.
Proof.
  unfold Ledger.a_last_seen. cbn [Ledger._validate_org_id]. rewrite bind_Ok.
  intros Hn. apply bind_ok_iff in Hn as (cell & E & [= <-]). eauto.
Qed.

Lemma seen_positive s r c cell :
  Ledger._read_cell org_id s r c = Ok cell → 0 ≤ Ledger.seen cell.
Proof.
  destruct cell as [x|]; [|done]. intros (_ & _ & _ & _ & b & _ & D)%Ledger.read_cell_some. cbn.
  unfold Ledger._decode_envelope in D. run_ok. case_match; try done. run_ok. case_match; try done.
  apply bind_ok_iff in D as (? & Hz%raise_if_ok%Z.ltb_ge & D).
  apply bind_ok_iff in D as (dt & _ & D%Ok_inj%(f_equal Ledger.last_seen_sequence)). cbn in D. lia.
Qed.

#[export] Instance kv_laws : SequenceLedgerLaws (S * nat) ledger_error kv_ok kv_pair_ok.
Proof.
  split.
  - intros [s i] r c Hl [Hr Hc]. destruct (Hl r c Hr Hc) as [cell E]. cbn in E. exists (Ledger.seen cell).
    split; [|by eapply seen_positive]. cbn. unfold Ledger.last_seen, Ledger.a_last_seen. by rewrite E.
  - intros [s i] r c n _ _ E. cbn in *. unfold Ledger.last_seen in E.
    unfold Ledger.next_sequence, Ledger.a_next_sequence. by rewrite E.
  - intros [s i] r c n k Hl [Hr Hc] E Hk Hn. cbn in *. unfold Ledger.last_seen in *.
    destruct (last_seen_seen _ _ _ _ E) as (cell & Ecell & Es).
    destruct (clock_ok i) as (us & Et & Hus).
    pose proof (Ledger.record_export_spec org_id org_ok s r c k us cell Ecell (ex_intro _ us (conj eq_refl Hus))) as Hspec.
    unfold kv_record, Ledger.record_export. cbn [fst snd]. rewrite Et.
    destruct (Ledger.a_record_export org_id s r c k (Aware us) None) as [s1 x].
    rewrite (proj2 (Z.ltb_ge k 1)), Es, (proj2 (Z.leb_gt k n)) in Hspec by lia.
    destruct Hspec as (Hx & Hlast & _ & Hother). destruct x as [y|]; [|done]. cbn.
    eexists. split; [reflexivity|]. split_and!; [|done|].
    + intros r' c' Hr' Hc'. apply readable_last; [done..|].
      destruct (decide ((r', c') = (r, c))) as [[= -> ->]|Hne]; [eauto|].
      rewrite Hother by done. apply readable_last; [done..|]. by apply Hl.
    + intros r' c' [Hr' Hc'] Hne. by apply Hother.
  - intros [s i] r c n k Hl [Hr Hc] E Hk. cbn in *. unfold Ledger.last_seen in *.
    destruct (last_seen_seen _ _ _ _ E) as (cell & Ecell & Es).
    destruct (clock_ok i) as (us & Et & Hus).
    pose proof (Ledger.record_export_spec org_id org_ok s r c k us cell Ecell (ex_intro _ us (conj eq_refl Hus))) as Hspec.
    unfold kv_record, Ledger.record_export. cbn [fst snd]. rewrite Et.
    destruct (Ledger.a_record_export org_id s r c k (Aware us) None) as [s1 x].
    destruct (Z.ltb_spec k 1); [destruct Hspec as [-> ->]; cbn; eauto|].
    rewrite Es, (proj2 (Z.leb_le k n)) in Hspec by lia. destruct Hspec as [-> ->]. cbn. eauto.
Qed.
End kv_ledger.
