(* ===== verification/CaveatExport.v ===== *)
(** * Export of caveat overrides ([wirelang/federation/caveat_override_export.py])

    An override leaves its organisation without its reason and its caveats: the
    frame carries classes, hashes under a key made of the route, witnesses, an
    audit trace and a sequence number from a ledger ([SequenceLedger]).

    The theorems: the frames an exporter returns pass the checks of their
    constructor; their numbers increase, and a receiver with a ledger of its own
    takes each of them once; the event identifier does not depend on the order
    of the witnesses and determines the content of the frame; the class of the
    narrowing is the relation between the two sets of caveats. *)

From S2P Require Import Prelude PyStr PyFloat PyJson PyDyn PyEqual PyTime Blake2b FederationEval MultiOrg CrossOrg MarkerStack SequenceLedger.
From Stdlib Require Import ZArith Lia Sorted SpecFloat.

Open Scope Z_scope.

(** Objects of other types: their [repr], [==] among each other, and whether
    they can be members of a set. *)
Class PyObject (O : Type) := {
  obj_repr : O → str;
  obj_equal : O → O → bool;
  obj_hashable : O → bool;
}.

(** No such objects. *)
#[export] Instance no_objects : PyObject Empty_set := {
  obj_repr o := match o with end;
  obj_equal o _ := match o with end;
  obj_hashable o := match o with end;
}.

Inductive CaveatOverrideReasonClass : Type :=
| UNSPECIFIED | KEY_COMPROMISE_RESPONSE | POLICY_AMENDMENT | SCOPE_TIGHTENING | OTHER.

Inductive CaveatNarrowingClass : Type :=
| SUBSET_PROPER | SUBSET_EQUAL | SUPERSET | INTERSECT_PARTIAL | DISJOINT.

#[export] Instance reason_class_eq_dec : EqDecision CaveatOverrideReasonClass.
Proof. solve_decision. Defined.
#[export] Instance narrowing_class_eq_dec : EqDecision CaveatNarrowingClass.
Proof. solve_decision. Defined.

(** [E]: the exceptions of the ledger. *)
Inductive export_error (E : Type) : Type :=
| CaveatOverrideExportShapeError
| LedgerRaised (e : E)
| ClockValueError                (* ValueError: the clock's time is naive *)
| ExportUnicodeError             (* UnicodeEncodeError *)
| UnhashableTypeError.           (* TypeError of frozenset() *)
Arguments CaveatOverrideExportShapeError {E}.
Arguments LedgerRaised {E} _.
Arguments ClockValueError {E}.
Arguments ExportUnicodeError {E}.
Arguments UnhashableTypeError {E}.

Module CaveatExport.

Definition EXPORT_SCHEMA : str := u "wakir.federation.caveat-override-event-export/1".
Definition _CHAIN_HASH_PERSONALISATION : bytes :=
  byte_of_Z <$> u "wakir-coee1" ++ replicate 5 0.
Definition _REASON_HASH_PERSONALISATION : bytes :=
  byte_of_Z <$> u "wakir-coer1" ++ replicate 5 0.

(** ** Caveat arguments *)

Section arguments.
Context {O : Type} `{PyObject O}.

Inductive arg : Type :=
| ANone
| ABool (b : bool)
| AInt (z : Z)
| AFloat (f : float)
| AStr (s : str)
| ATuple (l : list arg)
| ABytes (b : bytes)
| ADatetime (d : datetime)
| AObject (o : O).

(** [==]: numbers of all kinds compare by value; a NaN is taken for one object,
    which a tuple finds equal to itself. *)
Definition number_json (a : arg) : option json :=
  match a with
  | ABool b => Some (JBool b)
  | AInt z => Some (JInt z)
  | AFloat f => Some (JFloat f)
  | _ => None
  end.

Fixpoint arg_eqb (a b : arg) : bool :=
  match a, b with
  | ANone, ANone => true
  | AStr s, AStr t => str_eqb s t
  | ATuple l, ATuple k =>
      (fix go l k :=
         match l, k with
         | [], [] => true
         | x :: l, y :: k => arg_eqb x y && go l k
         | _, _ => false
         end) l k
  | ABytes b, ABytes c => bool_decide (b = c)
  | ADatetime d, ADatetime e => dt_eqb d e
  | AObject o, AObject p => obj_equal o p
  | _, _ => match number_json a, number_json b with
            | Some x, Some y => item_eq x y
            | _, _ => false
            end
  end.

Fixpoint hashable (a : arg) : bool :=
  match a with
  | ATuple l => forallb hashable l
  | AObject o => obj_hashable o
  | _ => true
  end.

(** [isoformat()] without and with an offset *)
Definition iso_arg (d : datetime) : str :=
  match d with
  | Aware us => isoformat_utc us
  | Naive us => let t := isoformat_utc us in take (length t - 6) t
  end.

(** [_stringify_args] *)
Fixpoint arg_json (a : arg) : json :=
  match a with
  | ANone => JNull
  | ABool b => JBool b
  | AInt z => JInt z
  | AFloat f => JFloat f
  | AStr s => JStr s
  | ATuple l => JList (List.map arg_json l)
  | ABytes b => JStr (u "<bytes:" ++ hex b ++ u ">")
  | ADatetime d => JStr (iso_arg d)
  | AObject o => JStr (obj_repr o)
  end.

Definition caveat : Type := str * list arg.

Definition caveat_eqb (x y : caveat) : bool :=
  str_eqb x.1 y.1 && seq_eqb arg_eqb x.2 y.2.

(** ** Classes *)

Definition caveat_in (x : caveat) (s : list caveat) : bool := existsb (caveat_eqb x) s.
Definition caveats_sub (s t : list caveat) : bool := forallb (λ x, caveat_in x t) s.

Definition classify_sets (o_set n_set : list caveat) : CaveatNarrowingClass :=
  if caveats_sub o_set n_set && caveats_sub n_set o_set then SUBSET_EQUAL
  else if caveats_sub n_set o_set then SUBSET_PROPER
  else if caveats_sub o_set n_set then SUPERSET
  else if existsb (λ x, caveat_in x n_set) o_set then INTERSECT_PARTIAL
  else DISJOINT.

Definition all_hashable (s : list caveat) : bool := forallb (λ x, forallb hashable x.2) s.

Definition _classify_narrowing {E} (original narrowed : list caveat)
    : result (export_error E) CaveatNarrowingClass :=
  raise_if (negb (all_hashable original)) UnhashableTypeError;;
  raise_if (negb (all_hashable narrowed)) UnhashableTypeError;;
  Ok (classify_sets original narrowed).

(** ** Canonical caveat sets *)

Definition caveat_json (c : caveat) : json := JList [JStr c.1; JList (List.map arg_json c.2)].

Definition _canonicalise_caveat_set (s : list caveat) : str :=
  let pairs := List.map caveat_json s in
  let pairs := py_sorted (λ p q, str_leb (json_dumps true true p) (json_dumps true true q)) pairs in
  json_dumps true true (JList pairs).
End arguments.
Arguments arg O : clear implicits.
Arguments caveat O : clear implicits.

(** ** Hashes under the route *)

Section hashes.
Context `{KeyedBlake2b} {E : Type}.

Definition encode (s : str) : result (export_error E) bytes :=
  of_option ExportUnicodeError (utf8_encode s).

Definition route_key (route_id : str) : result (export_error E) bytes :=
  key ← encode route_id; Ok (take 64 key).

Definition _route_scoped_chain_hash {O} `{PyObject O} (route_id : str) (s : list (caveat O))
    : result (export_error E) str :=
  key ← route_key route_id;
  m ← encode (_canonicalise_caveat_set s);
  Ok (hex (keyed_blake2b key _CHAIN_HASH_PERSONALISATION m)).

Definition _route_scoped_reason_hash (route_id raw : str) : result (export_error E) str :=
  key ← route_key route_id;
  m ← encode raw;
  Ok (hex (keyed_blake2b key _REASON_HASH_PERSONALISATION m)).
End hashes.

(** ** Frames *)

Record TraceEntry := MkTraceEntry {
  entry_event_at : datetime;
  event_kind : str;
  outcome : str;
  wat_anchor_manifest_id : option str;
}.

Definition new_trace_entry {E} (e : TraceEntry) : result (export_error E) TraceEntry :=
  raise_if (is_naive (entry_event_at e)) CaveatOverrideExportShapeError;;
  raise_if (str_empty (event_kind e)) CaveatOverrideExportShapeError;;
  raise_if (str_empty (outcome e)) CaveatOverrideExportShapeError;;
  Ok e.

Record CrossOrgWitness := MkWitness {
  witness_route_id : str;
  peer_trust_domain : str;
  observed_at : datetime;
}.

Definition new_witness {E} (w : CrossOrgWitness) : result (export_error E) CrossOrgWitness :=
  raise_if (str_empty (witness_route_id w)) CaveatOverrideExportShapeError;;
  raise_if (str_empty (peer_trust_domain w)) CaveatOverrideExportShapeError;;
  raise_if (is_naive (observed_at w)) CaveatOverrideExportShapeError;;
  Ok w.

Record ExportedCaveatOverrideEvent := MkExported {
  export_schema : str;
  route_id : str;
  sequence_number : Z;
  override_event_id : bytes;
  event_at : datetime;
  original_caveat_chain_hash : str;
  narrowed_caveat_chain_hash : str;
  caveat_narrowing_class : CaveatNarrowingClass;
  override_reason_class : CaveatOverrideReasonClass;
  override_reason_hash : option str;
  audit_trace : list TraceEntry;
  cross_org_witnesses : list CrossOrgWitness;
  exported_at : datetime;
}.

(** [int(h, 16)] succeeds: white space around it, a sign, a prefix, digits with
    single underscores between them. *)
Definition strip_0x (s : str) : str :=
  match s with
  | c :: x :: r =>
      if (c =? 48) && one_of (u "xX") x
      then match r with d :: r' => if d =? 95 then r' else r | [] => r end
      else s
  | _ => s
  end.
Definition int16_ok (s : str) : bool :=
  let t := PyRepr.ascii_strip (PyRepr.ascii_form <$> s) in
  let t := match t with c :: r => if one_of (u "+-") c then r else t | [] => t end in
  forallb (λ p, negb (str_empty p) && forallb (λ c, bool_decide (is_Some (hex_val c))) p)
    (split_on 95 (strip_0x t)).

Definition check_hash {E} (h : str) : result (export_error E) () :=
  raise_if (negb (length h =? 64)%nat) CaveatOverrideExportShapeError;;
  raise_if (negb (int16_ok h)) CaveatOverrideExportShapeError.

(** The checks of [__post_init__] that the types leave open. *)
Definition new_exported {E} (x : ExportedCaveatOverrideEvent)
    : result (export_error E) ExportedCaveatOverrideEvent :=
  raise_if (negb (str_eqb (export_schema x) EXPORT_SCHEMA)) CaveatOverrideExportShapeError;;
  raise_if (str_empty (route_id x)) CaveatOverrideExportShapeError;;
  raise_if (sequence_number x <? 1) CaveatOverrideExportShapeError;;
  raise_if (negb (length (override_event_id x) =? 32)%nat) CaveatOverrideExportShapeError;;
  raise_if (is_naive (event_at x)) CaveatOverrideExportShapeError;;
  raise_if (is_naive (exported_at x)) CaveatOverrideExportShapeError;;
  check_hash (original_caveat_chain_hash x);;
  check_hash (narrowed_caveat_chain_hash x);;
  match override_reason_hash x with Some h => check_hash h | None => Ok () end;;
  Ok x.

(** ** The event identifier *)

(** [astimezone(timezone.utc).isoformat()]; the constructors admit aware times
    only. *)
Definition utc_text (d : datetime) : str :=
  match d with Aware us | Naive us => isoformat_utc us end.

Definition option_json (s : option str) : json :=
  match s with Some s => JStr s | None => JNull end.

Definition trace_json (e : TraceEntry) : json :=
  JObj [(u "event_at", JStr (utc_text (entry_event_at e))); (u "event_kind", JStr (event_kind e));
        (u "outcome", JStr (outcome e));
        (u "wat_anchor_manifest_id", option_json (wat_anchor_manifest_id e))].

Definition witness_json (w : CrossOrgWitness) : json :=
  JObj [(u "route_id", JStr (witness_route_id w));
        (u "peer_trust_domain", JStr (peer_trust_domain w));
        (u "observed_at", JStr (utc_text (observed_at w)))].

Definition narrowing_value (c : CaveatNarrowingClass) : str :=
  match c with
  | SUBSET_PROPER => u "SUBSET_PROPER" | SUBSET_EQUAL => u "SUBSET_EQUAL" | SUPERSET => u "SUPERSET"
  | INTERSECT_PARTIAL => u "INTERSECT_PARTIAL" | DISJOINT => u "DISJOINT"
  end.
Definition reason_value (c : CaveatOverrideReasonClass) : str :=
  match c with
  | UNSPECIFIED => u "UNSPECIFIED" | KEY_COMPROMISE_RESPONSE => u "KEY_COMPROMISE_RESPONSE"
  | POLICY_AMENDMENT => u "POLICY_AMENDMENT" | SCOPE_TIGHTENING => u "SCOPE_TIGHTENING"
  | OTHER => u "OTHER"
  end.

Definition event_payload (route_id : str) (sequence : Z) (event_at : datetime)
    (original_hash narrowed_hash : str) (narrowing : CaveatNarrowingClass)
    (reason : CaveatOverrideReasonClass) (reason_hash : option str)
    (trace : list TraceEntry) (witnesses : list CrossOrgWitness) : json :=
  JObj [(u "schema", JStr EXPORT_SCHEMA); (u "route_id", JStr route_id);
        (u "sequence_number", JInt sequence); (u "event_at", JStr (utc_text event_at));
        (u "original_caveat_chain_hash", JStr original_hash);
        (u "narrowed_caveat_chain_hash", JStr narrowed_hash);
        (u "caveat_narrowing_class", JStr (narrowing_value narrowing));
        (u "override_reason_class", JStr (reason_value reason));
        (u "override_reason_hash", option_json reason_hash);
        (u "audit_trace", JList (trace_json <$> trace));
        (u "cross_org_witnesses", JList (witness_json <$> witnesses))].

Definition witness_key (w : CrossOrgWitness) : str * (str * str) :=
  (witness_route_id w, (peer_trust_domain w, utc_text (observed_at w))).
Definition witness_leb (v w : CrossOrgWitness) : bool :=
  pair_leb str_leb (pair_leb str_leb str_leb) (witness_key v) (witness_key w).

Section exporter.
Context `{Blake2b} `{KeyedBlake2b} {O : Type} `{PyObject O} {L E : Type} `{SequenceLedger L E}.

Definition _compute_override_event_id (route_id : str) (sequence : Z) (event_at : datetime)
    (original_hash narrowed_hash : str) (narrowing : CaveatNarrowingClass)
    (reason : CaveatOverrideReasonClass) (reason_hash : option str)
    (trace : list TraceEntry) (witnesses : list CrossOrgWitness) : result (export_error E) bytes :=
  m ← encode (json_dumps true true (event_payload route_id sequence event_at original_hash
        narrowed_hash narrowing reason reason_hash trace witnesses));
  Ok (blake2b m).

(** The classifier; [None] when it raises or answers something else. *)
Variable classify : option str → option CaveatOverrideReasonClass.

(** The fields of a [CaveatOverrideEvent], which admits aware times only. *)
Record override := MkOverride {
  ov_event_at : datetime;
  ov_original : list (caveat O);
  ov_narrowed : list (caveat O);
  ov_reason : option str;
}.

Record content := MkContent {
  c_reason_class : CaveatOverrideReasonClass;
  c_narrowing : CaveatNarrowingClass;
  c_original_hash : str;
  c_narrowed_hash : str;
  c_reason_hash : option str;
}.

(** Everything before the ledger is asked. *)
Definition export_content (e : override) (route : str) : result (export_error E) content :=
  reason_class ← of_option CaveatOverrideExportShapeError (classify (ov_reason e));
  raise_if (match ov_reason e with
            | None => negb (bool_decide (reason_class = UNSPECIFIED))
            | Some _ => false
            end) CaveatOverrideExportShapeError;;
  narrowing ← _classify_narrowing (ov_original e) (ov_narrowed e);
  original_hash ← _route_scoped_chain_hash route (ov_original e);
  narrowed_hash ← _route_scoped_chain_hash route (ov_narrowed e);
  reason_hash ← match ov_reason e with
                | None => Ok None
                | Some raw => h ← _route_scoped_reason_hash route raw; Ok (Some h)
                end;
  Ok (MkContent reason_class narrowing original_hash narrowed_hash reason_hash).

Definition pick_sequence (l : L) (route chain : str) (requested : option Z)
    : result (export_error E) Z :=
  match requested with
  | None => map_err LedgerRaised (next_sequence l route chain)
  | Some n => raise_if (n <? 1) CaveatOverrideExportShapeError;; Ok n
  end.

(** What is left once the number is recorded; [now] is the clock's answer. *)
Definition build_frame (e : override) (route : str) (trace : list TraceEntry)
    (witnesses : list CrossOrgWitness) (c : content) (seq : Z) (now : datetime)
    : result (export_error E) ExportedCaveatOverrideEvent :=
  raise_if (is_naive now) ClockValueError;;
  id ← _compute_override_event_id route seq (ov_event_at e) (c_original_hash c) (c_narrowed_hash c)
         (c_narrowing c) (c_reason_class c) (c_reason_hash c) trace witnesses;
  new_exported (MkExported EXPORT_SCHEMA route seq id (ov_event_at e) (c_original_hash c)
    (c_narrowed_hash c) (c_narrowing c) (c_reason_class c) (c_reason_hash c) trace witnesses now).

Definition export (l : L) (e : override) (attestation : MultiOrgRouteAttestation)
    (trace : list TraceEntry) (witnesses : list CrossOrgWitness) (requested : option Z)
    (now : datetime) : L * result (export_error E) ExportedCaveatOverrideEvent :=
  let route := att_route_id attestation in
  match c ← export_content e route;
        let sorted_witnesses := py_sorted witness_leb witnesses in
        seq ← pick_sequence l route (c_original_hash c) requested;
        Ok (c, sorted_witnesses, seq)
  with
  | Err err => (l, Err err)
  | Ok (c, sorted_witnesses, seq) =>
      match record_export l route (c_original_hash c) seq with
      | (l', Err err) => (l', Err (LedgerRaised err))
      | (l', Ok _) => (l', build_frame e route trace sorted_witnesses c seq now)
      end
  end.

(** The receiver's check. *)
Definition detect_replay (x : ExportedCaveatOverrideEvent) (l : L)
    : L * result (export_error E) () :=
  let '(l', r) := record_export l (route_id x) (original_caveat_chain_hash x) (sequence_number x) in
  (l', map_err LedgerRaised r).
End exporter.

Definition _default_classifier_classify (raw : option str) : option CaveatOverrideReasonClass :=
  Some (match raw with None => UNSPECIFIED | Some _ => OTHER end).
End CaveatExport.

Import CaveatExport.

(** ** Frames pass their own checks *)

Section frames.
Context `{Blake2b} `{KeyedBlake2b} {O : Type} `{PyObject O} {E : Type}.

Lemma lower_hex_range c : is_lower_hex c = true → 48 ≤ c ≤ 57 ∨ 97 ≤ c ≤ 102.
Proof.
  intros (n & Hn & ->)%lower_hex_digit. unfold hex_digit. destruct (Z.ltb_spec n 10); lia.
Qed.

(** The text of a digest is a hexadecimal number. *)
Lemma hex_int16 d : d ≠ [] → int16_ok (hex d) = true.
Proof.
  intros Hd. pose proof (hex_lower d) as Hl. rewrite forallb_forall in Hl.
  assert (Forall (λ c, 48 ≤ c ≤ 57 ∨ 97 ≤ c ≤ 102) (hex d)) as Hr.
  { apply Forall_forall. intros c Hc%list_elem_of_In. by apply lower_hex_range, Hl. }
  assert (hex d ≠ []) as Hne by (intros E'%(f_equal length); rewrite length_hex in E'; by destruct d).
  assert (∀ c, c ∈ hex d → bool_decide (is_Some (hex_val c)) = true) as Hv.
  { intros c Hc%list_elem_of_In. apply Hl, lower_hex_digit in Hc as (n & Hn & ->).
    rewrite hex_val_digit by done. by apply bool_decide_true. }
  revert Hr Hne Hv. generalize (hex d). clear. intros s Hr Hne Hv.
  unfold int16_ok. rewrite PyRepr.ascii_plain by (eapply Forall_impl; [exact Hr|]; cbn; lia).
  assert (∀ (x : Z) (l : str), Forall (λ c, x ≠ c) l → x ∉ l) as Hnot.
  { intros x l Hl Hin. rewrite Forall_forall in Hl. by apply (Hl x Hin). }
  assert ((match s with c :: r => if one_of (u "+-") c then r else s | [] => s end) = s) as ->.
  { destruct s as [|c r]; [done|]. apply Forall_cons in Hr as [Hc _].
    assert (one_of (u "+-") c = false) as ->; [|done].
    unfold one_of. apply bool_decide_eq_false. ulit. rewrite !elem_of_cons, elem_of_nil. lia. }
  assert (strip_0x s = s) as ->.
  { destruct s as [|c [|x r]]; [done..|]. apply Forall_cons in Hr as [_ [Hx _]%Forall_cons].
    unfold strip_0x. assert (one_of (u "xX") x = false) as ->; [|by rewrite andb_false_r].
    unfold one_of. apply bool_decide_eq_false. ulit. rewrite !elem_of_cons, elem_of_nil. lia. }
  rewrite split_on_nil by (apply Hnot; eapply Forall_impl; [exact Hr|]; cbn; lia).
  cbn [forallb]. rewrite andb_true_r. destruct s as [|c r]; [done|]. cbn [str_empty negb andb].
  apply forallb_forall. intros x Hx%list_elem_of_In. by apply Hv.
Qed.

Lemma check_digest d : length d = 32%nat → check_hash (E:=E) (hex d) = Ok ().
Proof.
  intros Hd. unfold check_hash. rewrite length_hex, Hd. cbn [Nat.mul Nat.add Nat.eqb negb].
  rewrite raise_if_false, bind_Ok, hex_int16 by (by destruct d). done.
Qed.

Lemma chain_hash_ok (route : str) (s : list (caveat O)) h :
  _route_scoped_chain_hash (E:=E) route s = Ok h → check_hash (E:=E) h = Ok ().
Proof.
  unfold _route_scoped_chain_hash. intros Hh. apply bind_ok_iff in Hh as (k & _ & Hh).
  apply bind_ok_iff in Hh as (m & _ & <-%Ok_inj). apply check_digest, keyed_blake2b_length.
Qed.

Lemma reason_hash_ok (route raw : str) h :
  _route_scoped_reason_hash (E:=E) route raw = Ok h → check_hash (E:=E) h = Ok ().
Proof.
  unfold _route_scoped_reason_hash. intros Hh. apply bind_ok_iff in Hh as (k & _ & Hh).
  apply bind_ok_iff in Hh as (m & _ & <-%Ok_inj). apply check_digest, keyed_blake2b_length.
Qed.

Lemma payload_encodes route seq at_ oh nh nc rc rh trace ws :
  ∃ m, utf8_encode (json_dumps true true (event_payload route seq at_ oh nh nc rc rh trace ws)) = Some m.
Proof.
  assert (ok_strings (λ _, True) (json_sort (event_payload route seq at_ oh nh nc rc rh trace ws)))
    as Hp; [|by apply print_ascii, ascii_encodable in Hp].
  apply ok_strings_sort, ok_strings_obj.
  assert (∀ s, ok_strings (λ _, True) (option_json s)) as Ho by by intros [].
  repeat (apply List.Forall_cons; [split; [done|]; try done; try apply Ho|]); [| |constructor].
  - apply ok_strings_list, Forall_fmap, Forall_true. intros e. apply ok_strings_obj.
    repeat (apply List.Forall_cons; [split; [done|]; try done; try apply Ho|]). constructor.
  - apply ok_strings_list, Forall_fmap, Forall_true. intros e. apply ok_strings_obj.
    repeat (apply List.Forall_cons; [split; [done|]; done|]). constructor.
Qed.

(** The frame of an export, as a function of what was decided before. *)
Definition frame_of (e : override (O:=O)) (route : str) (trace : list TraceEntry)
    (witnesses : list CrossOrgWitness) (c : content) (seq : Z) (now : datetime)
    : ExportedCaveatOverrideEvent :=
  let payload := event_payload route seq (ov_event_at e) (c_original_hash c) (c_narrowed_hash c)
    (c_narrowing c) (c_reason_class c) (c_reason_hash c) trace witnesses in
  MkExported EXPORT_SCHEMA route seq
    (blake2b (default [] (utf8_encode (json_dumps true true payload)))) (ov_event_at e)
    (c_original_hash c) (c_narrowed_hash c) (c_narrowing c) (c_reason_class c) (c_reason_hash c)
    trace witnesses now.

Variable classify : option str → option CaveatOverrideReasonClass.

Lemma content_hashes e route c :
  export_content (E:=E) classify e route = Ok c →
  check_hash (E:=E) (c_original_hash c) = Ok () ∧ check_hash (E:=E) (c_narrowed_hash c) = Ok () ∧
  match c_reason_hash c with Some h => check_hash (E:=E) h = Ok () | None => True end ∧
  _route_scoped_chain_hash (E:=E) route (ov_original e) = Ok (c_original_hash c).
Proof.
  unfold export_content. intros Hc. do 3 apply bind_ok_iff in Hc as (? & _ & Hc).
  apply bind_ok_iff in Hc as (oh & Ho & Hc). apply bind_ok_iff in Hc as (nh & Hn & Hc).
  apply bind_ok_iff in Hc as (rh & Hr & <-%Ok_inj). cbn. split_and!; [by eapply chain_hash_ok..| |done].
  destruct (ov_reason e) as [raw|]; [|by injection Hr as <-].
  apply bind_ok_iff in Hr as (h & Hh & [= <-]). by eapply reason_hash_ok.
Qed.

Lemma frame_built e route trace ws c seq now :
  export_content (E:=E) classify e route = Ok c →
  str_empty route = false → is_naive (ov_event_at e) = false → 1 ≤ seq →
  build_frame (E:=E) e route trace ws c seq now =
  if is_naive now then Err ClockValueError else Ok (frame_of e route trace ws c seq now).
Proof.
  intros (Ho & Hn & Hr & _)%content_hashes Hroute Hat Hseq. unfold build_frame.
  destruct (is_naive now) eqn:Enow; [done|]. rewrite raise_if_false, bind_Ok.
  unfold _compute_override_event_id, frame_of, encode.
  destruct (payload_encodes route seq (ov_event_at e) (c_original_hash c) (c_narrowed_hash c)
    (c_narrowing c) (c_reason_class c) (c_reason_hash c) trace ws) as [m ->].
  cbn [of_option default from_option id]. rewrite !bind_Ok. unfold new_exported. cbn [export_schema route_id
    sequence_number override_event_id event_at exported_at original_caveat_chain_hash
    narrowed_caveat_chain_hash override_reason_hash].
  unfold str_eqb. rewrite bool_decide_true, Hroute, (proj2 (Z.ltb_ge seq 1)), blake2b_length, Hat, Enow,
    Ho, Hn by (done || lia).
  cbn [negb Nat.eqb]. rewrite !raise_if_false, !bind_Ok.
  destruct (c_reason_hash c); [rewrite Hr|]; by rewrite bind_Ok.
Qed.
End frames.

(** ** Exports and their numbers *)

Section exports.
Context `{Blake2b} `{KeyedBlake2b} {O : Type} `{PyObject O}.
Context {L E : Type} `{SequenceLedgerLaws L E ledger_ok pair_ok}.
Variable classify : option str → option CaveatOverrideReasonClass.

Notation export_ := (export (L:=L) (E:=E) classify).

(** One call: an error before the ledger is asked, or about the number, leaves
    the ledger as it was; any other call records the number and returns the
    frame, except that a clock without a time zone loses both the number and
    the frame. *)
Lemma export_spec l e att trace ws requested now :
  let route := att_route_id att in
  str_empty route = false → is_naive (ov_event_at e) = false → ledger_ok l →
  (∀ h, _route_scoped_chain_hash (E:=E) route (ov_original e) = Ok h → pair_ok route h) →
  match export_content (E:=E) classify e route with
  | Err err => export_ l e att trace ws requested now = (l, Err err)
  | Ok c => ∃ n, last_seen l route (c_original_hash c) = Ok n ∧ 0 ≤ n ∧
      let k := default (n + 1) requested in
      if (k <? 1) || (k <=? n) then ∃ err, export_ l e att trace ws requested now = (l, Err err)
      else ∃ l', ledger_ok l' ∧ last_seen l' route (c_original_hash c) = Ok k ∧
        (∀ r h, pair_ok r h → (r, h) ≠ (route, c_original_hash c) → last_seen l' r h = last_seen l r h) ∧
        export_ l e att trace ws requested now =
          (l', if is_naive now then Err ClockValueError
               else Ok (frame_of e route trace (py_sorted witness_leb ws) c k now))
  end.
Proof.
  intros route Hroute Hat Hl Hpair. unfold export. fold route.
  destruct (export_content (E:=E) classify e route) as [c|err] eqn:Ec; [|done].
  pose proof (content_hashes classify e route c Ec) as (_ & _ & _ & Hh). apply Hpair in Hh.
  destruct (last_seen_ok l route (c_original_hash c) Hl Hh) as (n & Hn & Hpos).
  exists n. split_and!; [done|done|]. cbv zeta. rewrite bind_Ok.
  set (k := default (n + 1) requested).
  assert (pick_sequence (E:=E) l route (c_original_hash c) requested =
    if (k <? 1) && bool_decide (is_Some requested) then Err CaveatOverrideExportShapeError else Ok k) as ->.
  { unfold pick_sequence, k. destruct requested as [m|]; cbn [default from_option id].
    - rewrite bool_decide_true by eauto. destruct (m <? 1); done.
    - rewrite bool_decide_false by (by intros []). rewrite andb_false_r.
      by rewrite (next_sequence_ok _ _ _ _ Hl Hh Hn). }
  destruct (Z.ltb_spec k 1) as [Hk|Hk]; cbn [andb orb].
  - destruct (decide (is_Some requested)) as [Hs|Hs].
    { rewrite bool_decide_true by done. cbn. eauto. }
    rewrite bool_decide_false by done. unfold k in Hk. destruct requested; [by destruct Hs|].
    cbn in Hk. lia.
  - rewrite bind_Ok. destruct (Z.leb_spec k n) as [Hkn|Hkn].
    + destruct (record_refused l route (c_original_hash c) n k Hl Hh Hn) as [er Er]; [by right|].
      rewrite Er. eauto.
    + destruct (record_accepted l route (c_original_hash c) n k Hl Hh Hn) as (l' & Er & Hl' & Hk' & Ho);
        [lia|lia|].
      rewrite Er. exists l'. split_and!; [done..|]. f_equal. apply (frame_built classify); [done|done|done|lia].
Qed.

(** A run of calls, with what each answers. *)
Record call := MkCall {
  call_override : override (O:=O);
  call_attestation : MultiOrgRouteAttestation;
  call_trace : list TraceEntry;
  call_witnesses : list CrossOrgWitness;
  call_sequence : option Z;
  call_now : datetime;
}.

Fixpoint exports (l : L) (calls : list call) : L * list ExportedCaveatOverrideEvent :=
  match calls with
  | [] => (l, [])
  | k :: rest =>
      let '(l1, r) := export_ l (call_override k) (call_attestation k) (call_trace k)
                        (call_witnesses k) (call_sequence k) (call_now k) in
      let '(l2, frames) := exports l1 rest in
      (l2, match r with Ok x => x :: frames | Err _ => frames end)
  end.

(** What the constructors of the arguments check, and pairs the ledger holds. *)
Definition call_ok (k : call) : Prop :=
  let route := att_route_id (call_attestation k) in
  str_empty route = false ∧ is_naive (ov_event_at (call_override k)) = false ∧
  ∀ h, _route_scoped_chain_hash (E:=E) route (ov_original (call_override k)) = Ok h → pair_ok route h.

Definition pair_of (x : ExportedCaveatOverrideEvent) : str * str :=
  (route_id x, original_caveat_chain_hash x).

(** Frames in the order of their export: each number is above the ones before it
    for the same pair. *)
Inductive increasing (floor : str * str → Z) : list ExportedCaveatOverrideEvent → Prop :=
| increasing_nil : increasing floor []
| increasing_cons x xs :
    0 ≤ floor (pair_of x) → floor (pair_of x) < sequence_number x →
    increasing (λ p, if decide (p = pair_of x) then sequence_number x else floor p) xs →
    increasing floor (x :: xs).

(** The last numbers a ledger answers for the pairs it holds. *)
Definition floors (l : L) (floor : str * str → Z) : Prop :=
  ∀ r h, pair_ok r h → last_seen l r h = Ok (floor (r, h)).

Definition floor_of (l : L) (p : str * str) : Z := ok_or 0 (last_seen l p.1 p.2).

Lemma floors_of l : ledger_ok l → floors l (floor_of l).
Proof.
  intros Hl r h Hp. unfold floor_of. cbn. by destruct (last_seen_ok l r h Hl Hp) as (n & -> & _).
Qed.

Lemma floors_nonneg l : ledger_ok l → floors l (λ p, Z.max 0 (floor_of l p)).
Proof.
  intros Hl r h Hp. unfold floor_of. cbn. destruct (last_seen_ok l r h Hl Hp) as (n & -> & Hn).
  cbn. f_equal. lia.
Qed.

Lemma increasing_ext f g xs : (∀ p, f p = g p) → increasing f xs → increasing g xs.
Proof.
  intros Hfg Hx. revert g Hfg. induction Hx as [|f x xs F0 F1 Hx IH]; intros g Hfg; constructor.
  - by rewrite <- Hfg.
  - by rewrite <- Hfg.
  - apply IH. intros p. by rewrite Hfg.
Qed.

(** A floor counts only at the pairs of the frames, and may be lowered there. *)
Lemma increasing_lower_at f g xs :
  Forall (λ x, 0 ≤ f (pair_of x) ≤ g (pair_of x)) xs → increasing g xs → increasing f xs.
Proof.
  intros Hfg Hx. revert f Hfg. induction Hx as [|g x xs F0 F1 Hx IH]; intros f Hfg;
    [constructor|apply Forall_cons in Hfg as [Hfx Hfg]; constructor].
  - apply Hfx.
  - lia.
  - apply IH. eapply Forall_impl; [exact Hfg|]. intros y Hy. cbn in *. case_decide; lia.
Qed.

(** A clock that lost a number only raises the floor. *)
Lemma increasing_lower f g xs :
  (∀ p, 0 ≤ f p ≤ g p) → increasing g xs → increasing f xs.
Proof. intros Hfg. apply increasing_lower_at, Forall_forall. auto. Qed.

Lemma exports_increasing l calls l' frames :
  ledger_ok l → Forall call_ok calls → exports l calls = (l', frames) →
  ledger_ok l' ∧ Forall (λ x, pair_ok (route_id x) (original_caveat_chain_hash x)) frames ∧
  ∀ floor, floors l floor → (∀ p, 0 ≤ floor p) → increasing floor frames.
Proof.
  revert l l' frames. induction calls as [|k calls IH]; intros l l' frames Hl Hc; cbn [exports].
  { intros [= <- <-]. split_and!; [done|constructor|constructor]. }
  apply Forall_cons in Hc as [(Hroute & Hat & Hpair) Hc].
  pose proof (export_spec l (call_override k) (call_attestation k) (call_trace k) (call_witnesses k)
    (call_sequence k) (call_now k) Hroute Hat Hl Hpair) as Hspec.
  destruct (export_ l _ _ _ _ _ _) as [l1 r]. destruct (exports l1 calls) as [l2 fs] eqn:Es.
  intros [= <- <-].
  destruct (export_content classify (call_override k) (att_route_id (call_attestation k))) as [c|err] eqn:Ec.
  2:{ injection Hspec as -> ->. by eapply IH. }
  destruct Hspec as (n & Hn & Hpos & Hspec). cbv zeta in Hspec.
  destruct ((default (n + 1) (call_sequence k) <? 1) || (default (n + 1) (call_sequence k) <=? n)) eqn:Ek.
  { destruct Hspec as [err [= -> ->]]. by eapply IH. }
  apply orb_false_iff in Ek as [Ek1%Z.ltb_ge Ek2%Z.leb_gt].
  destruct Hspec as (l1' & Hl1 & Hk1 & Hother & [= -> ->]).
  set (num := default (n + 1) (call_sequence k)) in *.
  set (route := att_route_id (call_attestation k)) in *.
  destruct (IH l1' l2 fs Hl1 Hc Es) as (Hl2 & Hp2 & Hinc).
  pose proof (content_hashes classify _ _ _ Ec) as (_ & _ & _ & Hh). apply Hpair in Hh.
  set (p0 := (route, c_original_hash c)).
  assert (∀ floor, floors l floor → floors l1' (λ p, if decide (p = p0) then num else floor p)) as Hf1.
  { intros floor Hf r h Hp. case_decide as Ep; [by injection Ep as -> ->|].
    rewrite Hother by done. by apply Hf. }
  split; [done|]. destruct (is_naive (call_now k)).
  - split; [done|]. intros floor Hf Hfpos.
    apply (increasing_lower _ (λ p, if decide (p = p0) then num else floor p)); [|apply Hinc; [by apply Hf1|]].
    + intros p. case_decide as Ep; [|split; [apply Hfpos|lia]]. subst p. specialize (Hf _ _ Hh).
      fold p0 in Hf. rewrite Hn in Hf. injection Hf as Hf. specialize (Hfpos p0). lia.
    + intros p. case_decide; [lia|apply Hfpos].
  - split; [by constructor|]. intros floor Hf Hfpos. constructor.
    + apply Hfpos.
    + change (floor p0 < num). specialize (Hf _ _ Hh). fold p0 in Hf. rewrite Hn in Hf.
      injection Hf as Hf. lia.
    + apply Hinc; [by apply Hf1|]. intros p. cbn. case_decide; [lia|apply Hfpos].
Qed.
End exports.

(** ** Delivery *)

Section delivery.
Context {L E : Type} `{SequenceLedgerLaws L E ledger_ok pair_ok}.

(** A receiver that checks frames in the order of their arrival. *)
Fixpoint deliver (l : L) (frames : list ExportedCaveatOverrideEvent)
    : L * list (result (export_error E) ()) :=
  match frames with
  | [] => (l, [])
  | x :: rest =>
      let '(l1, r) := detect_replay x l in
      let '(l2, rs) := deliver l1 rest in (l2, r :: rs)
  end.

Definition raise_floor (floor : str * str → Z) (x : ExportedCaveatOverrideEvent) (p : str * str) : Z :=
  if decide (p = pair_of x) then sequence_number x else floor p.

Lemma detect_accepted l x floor :
  ledger_ok l → pair_ok (route_id x) (original_caveat_chain_hash x) →
  floors (pair_ok:=pair_ok) l floor → 0 ≤ floor (pair_of x) → floor (pair_of x) < sequence_number x →
  ∃ l', detect_replay x l = (l', Ok ()) ∧ ledger_ok l' ∧ floors (pair_ok:=pair_ok) l' (raise_floor floor x).
Proof.
  intros Hl Hp Hf H1 H2. unfold detect_replay.
  destruct (record_accepted l _ _ _ (sequence_number x) Hl Hp (Hf _ _ Hp)) as (l' & -> & Hl' & Hk & Ho).
  - unfold pair_of in *. lia.
  - exact H2.
  - exists l'. split_and!; [done|done|]. intros r h Hrh. unfold raise_floor, pair_of.
    case_decide as Ep; [by injection Ep as -> ->|]. rewrite Ho by done. by apply Hf.
Qed.

Lemma detect_refused l x floor :
  ledger_ok l → pair_ok (route_id x) (original_caveat_chain_hash x) →
  floors (pair_ok:=pair_ok) l floor → sequence_number x ≤ floor (pair_of x) →
  ∃ err, detect_replay x l = (l, Err err).
Proof.
  intros Hl Hp Hf Hle. unfold detect_replay.
  destruct (record_refused l _ _ _ (sequence_number x) Hl Hp (Hf _ _ Hp)) as [e ->]; [by right|].
  by exists (LedgerRaised e).
Qed.

Lemma raise_floor_le floor x p :
  0 ≤ floor (pair_of x) → floor (pair_of x) < sequence_number x → floor p ≤ raise_floor floor x p.
Proof. intros H1 H2. unfold raise_floor. case_decide; [subst p; lia|lia]. Qed.

Lemma deliver_all frames : ∀ l floor,
  ledger_ok l → Forall (λ x, pair_ok (route_id x) (original_caveat_chain_hash x)) frames →
  floors (pair_ok:=pair_ok) l floor → increasing floor frames →
  ∃ l' floor', deliver l frames = (l', (λ _, Ok ()) <$> frames) ∧ ledger_ok l' ∧
    floors (pair_ok:=pair_ok) l' floor' ∧ (∀ p, floor p ≤ floor' p) ∧
    Forall (λ x, sequence_number x ≤ floor' (pair_of x)) frames.
Proof.
  induction frames as [|x frames IH]; intros l floor Hl Hp Hf Hi.
  { exists l, floor. split_and!; [done..|constructor]. }
  apply Forall_cons in Hp as [Hx Hp]. inversion Hi as [|? ? F0 F1 Hi']. subst.
  destruct (detect_accepted l x floor Hl Hx Hf F0 F1) as (l1 & Ed & Hl1 & Hf1).
  destruct (IH l1 (raise_floor floor x) Hl1 Hp Hf1 Hi') as (l' & floor' & Er & Hl' & Hf' & Hle & Hall).
  exists l', floor'. cbn [deliver]. rewrite Ed, Er. split_and!; [done|done|done|..].
  - intros p. etransitivity; [by apply (raise_floor_le floor x p)|apply Hle].
  - constructor; [|done]. etransitivity; [|apply Hle]. unfold raise_floor. by rewrite decide_True.
Qed.
End delivery.

Section protocol.
Context `{Blake2b} `{KeyedBlake2b} {O : Type} `{PyObject O}.
Context {L1 E1 : Type} `{SequenceLedgerLaws L1 E1 sender_ok sender_pair}.
Context {L2 E2 : Type} `{SequenceLedgerLaws L2 E2 receiver_ok receiver_pair}.

(** C21: Whatever sequence of exports is tried, the frames that come out are
    accepted, one after the other, by a receiver whose ledger holds the sender's
    pairs and has recorded for none of them more than the sender's ledger had
    when the exports began (as when it saw earlier exports of this sender, all
    or some of them, or none), and every one of the frames is refused from then
    on: replays are detected and nothing else is taken for one. The two ledgers
    may be of different kinds; each keeps the promise of its interface. *)
Theorem delivered_once classify (l : L1) calls l' frames (r : L2) :
  sender_ok l → Forall (call_ok (E:=E1) (pair_ok:=sender_pair)) calls →
  exports (L:=L1) (E:=E1) classify l calls = (l', frames) →
  receiver_ok r → (∀ route h, sender_pair route h → receiver_pair route h) →
  (∀ route h n k, sender_pair route h →
     last_seen l route h = Ok n → last_seen r route h = Ok k → k ≤ n) →
  ∃ r', deliver (L:=L2) (E:=E2) r frames = (r', (λ _, Ok ()) <$> frames) ∧
    ∀ x, x ∈ frames → ∃ err, detect_replay x r' = (r', Err err).
Proof.
  intros Hl Hc He Hr Hpairs Hbehind.
  destruct (exports_increasing classify l calls l' frames Hl Hc He) as (_ & Hp & Hinc).
  specialize (Hinc _ (floors_nonneg l Hl) ltac:(intros; lia)).
  apply (increasing_lower_at (λ p, Z.max 0 (floor_of r p))) in Hinc.
  2:{ eapply Forall_impl; [exact Hp|]. intros x Hx. cbn. split; [lia|].
      pose proof (floors_of l Hl _ _ Hx) as Hs. pose proof (floors_of r Hr _ _ (Hpairs _ _ Hx)) as Ht.
      specialize (Hbehind _ _ _ _ Hx Hs Ht). unfold pair_of. lia. }
  assert (Forall (λ x, receiver_pair (route_id x) (original_caveat_chain_hash x)) frames) as Hp2.
  { eapply Forall_impl; [exact Hp|]. intros x. apply Hpairs. }
  destruct (deliver_all frames r _ Hr Hp2 (floors_nonneg r Hr) Hinc) as (r' & floor' & Ed & Hr' & Hf' & _ & Hall).
  exists r'. split; [done|]. intros x Hx. rewrite Forall_forall in Hall, Hp2.
  apply (detect_refused r' x floor' Hr'); [by apply Hp2|done|by apply Hall].
Qed.
End protocol.

(** ** Pseudonyms of caveat sets *)

Section pseudonyms.
Context `{KeyedBlake2b} {O : Type} `{PyObject O} {E : Type}.

Lemma arg_json_sort : ∀ a : arg O, json_sort (arg_json a) = arg_json a.
Proof.
  fix IH 1. intros a. destruct a as [|b|z|f|s|l|b|d|o].
  6: { cbn. f_equal. induction l as [|x l IHl]; [reflexivity|]. cbn. rewrite IH, IHl. reflexivity. }
  all: reflexivity.
Qed.

Lemma caveat_json_sort (c : caveat O) : json_sort (caveat_json c) = caveat_json c.
Proof.
  unfold caveat_json. cbn. rewrite List.map_map. erewrite List.map_ext; [reflexivity|]. apply arg_json_sort.
Qed.

Definition text_leb (p q : json) : bool := str_leb (json_dumps true true p) (json_dumps true true q).

#[local] Instance text_leb_order : KeyOrder text_leb.
Proof. apply (key_order_on str_leb (json_dumps true true)). Qed.

Definition caveats_json (s : list (caveat O)) : list json := List.map caveat_json s.

Lemma text_antisym (s : list (caveat O)) x y :
  json_ok (JList (caveats_json s)) → x ∈ caveats_json s → y ∈ caveats_json s →
  text_leb x y = true → text_leb y x = true → x = y.
Proof.
  intros Hs Hx Hy H1 H2. assert (json_dumps true true x = json_dumps true true y) as Ed
    by by apply (leb_antisym (leb:=str_leb)).
  apply ok_strings_list in Hs. rewrite Forall_forall in Hs.
  apply json_dumps_sorted_inj in Ed; [|by apply Hs..].
  apply list_elem_of_fmap in Hx as (c & -> & _), Hy as (d & -> & _).
  by rewrite !caveat_json_sort in Ed.
Qed.

Lemma canonical_perm (s t : list (caveat O)) :
  json_ok (JList (caveats_json s)) → json_ok (JList (caveats_json t)) →
  _canonicalise_caveat_set s = _canonicalise_caveat_set t ↔ caveats_json s ≡ₚ caveats_json t.
Proof.
  intros Hs Ht. unfold _canonicalise_caveat_set. cbv zeta. change (λ p q, str_leb _ _) with text_leb.
  fold (caveats_json s) (caveats_json t). split.
  - intros Ed. apply json_dumps_sorted_inj in Ed.
    + injection Ed as Ed. assert (∀ u : list (caveat O), List.map json_sort (py_sorted text_leb (caveats_json u)) =
        py_sorted text_leb (caveats_json u)) as Hid.
      { intros v. rewrite <- List.map_id. apply List.map_ext_in. intros x Hx%list_elem_of_In.
        rewrite elem_of_py_sorted in Hx. apply list_elem_of_fmap in Hx as (c & -> & _).
        apply caveat_json_sort. }
      rewrite !Hid in Ed. by rewrite <- (py_sorted_perm text_leb (caveats_json s)), Ed, py_sorted_perm.
    + apply ok_strings_list. rewrite py_sorted_perm. by apply ok_strings_list.
    + apply ok_strings_list. rewrite py_sorted_perm. by apply ok_strings_list.
  - intros Hp. do 2 f_equal. apply (sorted_perm_unique (λ x y, text_leb x y = true)).
    + intros x y. rewrite !elem_of_py_sorted. by apply text_antisym.
    + apply py_sorted_sorted, _.
    + apply py_sorted_sorted, _.
    + by rewrite !py_sorted_perm.
Qed.

Lemma encode_inj s t m : encode (E:=E) s = Ok m → encode (E:=E) t = Ok m → s = t.
Proof.
  intros Hs%of_option_ok%utf8_decode_encode Ht%of_option_ok%utf8_decode_encode. congruence.
Qed.

(** The text that is hashed for a set. *)
Definition caveat_messages (s : list (caveat O)) : list bytes :=
  ok_list (encode (E:=E) (_canonicalise_caveat_set s)).

(** Under one route, two caveat sets have the same pseudonym exactly when they
    list the same caveats, in any order but as often; anything else is a
    collision of their two texts under the key of the route.  So a peer can compare the sets of two frames
    without learning either. *)
Theorem chain_hash_compares route (s t : list (caveat O)) hs ht :
  json_ok (JList (caveats_json s)) → json_ok (JList (caveats_json t)) →
  _route_scoped_chain_hash (E:=E) route s = Ok hs → _route_scoped_chain_hash (E:=E) route t = Ok ht →
  (caveats_json s ≡ₚ caveats_json t → hs = ht) ∧
  (hs = ht → caveats_json s ≡ₚ caveats_json t ∨
     ∃ key, route_key (E:=E) route = Ok key ∧
       collision_in (keyed_blake2b key _CHAIN_HASH_PERSONALISATION) (caveat_messages s ++ caveat_messages t)).
Proof.
  intros Hs Ht. unfold _route_scoped_chain_hash. intros Es Et.
  apply bind_ok_iff in Es as (k & Hk & Es). apply bind_ok_iff in Es as (m & Hm & <-%Ok_inj).
  rewrite Hk, bind_Ok in Et. apply bind_ok_iff in Et as (m' & Hm' & <-%Ok_inj). split.
  - intros Hp. apply canonical_perm in Hp; [|done..]. rewrite Hp in Hm. congruence.
  - intros Eh%hex_inj.
    apply (eq_or_pair_collision (keyed_blake2b k _CHAIN_HASH_PERSONALISATION)) in Eh as [->|Hcol]; [left|right].
    + apply canonical_perm; [done..|]. by eapply encode_inj.
    + exists k. split; [done|]. unfold caveat_messages. by rewrite Hm, Hm'.
Qed.
End pseudonyms.

(** ** Event identifiers *)

Section identifiers.
Context `{Blake2b} `{KeyedBlake2b} {O : Type} `{PyObject O} {L E : Type} `{SequenceLedger L E}.
Variable classify : option str → option CaveatOverrideReasonClass.

Definition time_ok (d : datetime) : Prop := ∃ us, d = Aware us ∧ in_datetime_range us.

Lemma utc_text_of_inj d e : time_ok d → time_ok e → utc_text d = utc_text e → d = e.
Proof. intros (a & -> & Ha) (b & -> & Hb) E1. f_equal. by apply isoformat_inj. Qed.

Lemma witness_key_inj v w :
  time_ok (observed_at v) → time_ok (observed_at w) → witness_key v = witness_key w → v = w.
Proof.
  destruct v as [r d t], w as [r' d' t']. unfold witness_key. cbn.
  intros Hv Hw [= -> -> E1%utc_text_of_inj]; [by subst|done..].
Qed.

#[local] Instance witness_order : KeyOrder witness_leb.
Proof. apply (key_order_on (pair_leb str_leb (pair_leb str_leb str_leb)) witness_key). Qed.

(** The order in which the witnesses are given does not matter: the frame, its
    identifier included, and the ledger are the same. *)
Theorem witness_order_irrelevant (l : L) e att trace ws ws' requested now :
  Forall (λ w, time_ok (observed_at w)) ws → ws ≡ₚ ws' →
  export (E:=E) (O:=O) classify l e att trace ws requested now =
  export (E:=E) classify l e att trace ws' requested now.
Proof.
  intros Hw Hp. assert (py_sorted witness_leb ws = py_sorted witness_leb ws') as Es.
  { apply (sorted_perm_unique (λ x y, witness_leb x y = true)).
    - intros x y. rewrite !elem_of_py_sorted. intros Hx Hy H1' H2'. rewrite Forall_forall in Hw.
      apply witness_key_inj; [by apply Hw..|].
      by apply (leb_antisym (leb:=pair_leb str_leb (pair_leb str_leb str_leb))).
    - apply py_sorted_sorted, _.
    - apply py_sorted_sorted, _.
    - by rewrite !py_sorted_perm. }
  unfold export. by rewrite Es.
Qed.

(** What the identifier of a frame is made of. *)
Definition payload_of (x : ExportedCaveatOverrideEvent) : json :=
  event_payload (route_id x) (sequence_number x) (event_at x) (original_caveat_chain_hash x)
    (narrowed_caveat_chain_hash x) (caveat_narrowing_class x) (override_reason_class x)
    (override_reason_hash x) (audit_trace x) (cross_org_witnesses x).

(** The text that is hashed for a frame. *)
Definition content_messages (x : ExportedCaveatOverrideEvent) : list bytes :=
  option_list (utf8_encode (json_dumps true true (payload_of x))).

Lemma export_id (l : L) e att trace ws requested now l' x :
  export (E:=E) (O:=O) classify l e att trace ws requested now = (l', Ok x) →
  ∃ m, utf8_encode (json_dumps true true (payload_of x)) = Some m ∧ override_event_id x = blake2b m.
Proof.
  unfold export. destruct (c ← _; _) as [[[c ws'] seq]|]; [|done].
  destruct (record_export l _ _ seq) as [l1 [[]|]]; [|done]. intros [= _ Hx]. unfold build_frame in Hx.
  apply bind_ok_iff in Hx as (? & _ & Hx). apply bind_ok_iff in Hx as (id & Hid & Hx).
  unfold _compute_override_event_id in Hid. apply bind_ok_iff in Hid as (m & Hm%of_option_ok & <-%Ok_inj).
  unfold new_exported in Hx. do 9 apply bind_ok_iff in Hx as (? & _ & Hx).
  apply Ok_inj in Hx as <-. eauto.
Qed.

Definition texts_ok (x : ExportedCaveatOverrideEvent) : Prop :=
  json_ok (payload_of x) ∧ time_ok (event_at x) ∧
  Forall (λ t, time_ok (entry_event_at t)) (audit_trace x) ∧
  Forall (λ w, time_ok (observed_at w)) (cross_org_witnesses x).

Lemma option_json_inj s t : json_sort (option_json s) = json_sort (option_json t) → s = t.
Proof. by destruct s, t; cbn; intros E1; simplify_eq. Qed.

Lemma trace_json_inj a b :
  time_ok (entry_event_at a) → time_ok (entry_event_at b) →
  json_sort (trace_json a) = json_sort (trace_json b) → a = b.
Proof.
  intros Ha Hb E1. unfold trace_json in E1. member "event_at"%string E1 F1.
  member "event_kind"%string E1 F2. member "outcome"%string E1 F3.
  member "wat_anchor_manifest_id"%string E1 F4.
  apply JStr_inj, utc_text_of_inj in F1; [|done..]. apply JStr_inj in F2, F3. apply option_json_inj in F4.
  destruct a, b; cbn in *; congruence.
Qed.

Lemma witness_json_inj a b :
  time_ok (observed_at a) → time_ok (observed_at b) →
  json_sort (witness_json a) = json_sort (witness_json b) → a = b.
Proof.
  intros Ha Hb E1. unfold witness_json in E1. member "route_id"%string E1 F1.
  member "peer_trust_domain"%string E1 F2. member "observed_at"%string E1 F3.
  apply JStr_inj in F1, F2. apply JStr_inj, utc_text_of_inj in F3; [|done..].
  destruct a, b; cbn in *; congruence.
Qed.

Lemma list_json_inj {A} (P : A → Prop) (f : A → json) l k :
  (∀ a b, P a → P b → json_sort (f a) = json_sort (f b) → a = b) → Forall P l → Forall P k →
  json_sort (JList (f <$> l)) = json_sort (JList (f <$> k)) → l = k.
Proof.
  intros Hf Hl Hk [= E1]. revert k Hk E1. induction Hl as [|a l Ha Hl IH]; intros [|b k] Hk E1; try done.
  apply Forall_cons in Hk as [Hb Hk]. injection E1 as E1 E2.
  rewrite (Hf a b), (IH k); done.
Qed.

Lemma narrowing_value_inj c d : narrowing_value c = narrowing_value d → c = d.
Proof.
  destruct c, d; intros E1; try done;
    apply (bool_decide_eq_true_2 _) in E1; by vm_compute in E1.
Qed.

Lemma reason_value_inj c d : reason_value c = reason_value d → c = d.
Proof.
  destruct c, d; intros E1; try done;
    apply (bool_decide_eq_true_2 _) in E1; by vm_compute in E1.
Qed.

(** The identifier of a frame stands for its content: two exported frames with
    the same identifier agree in everything but the time of their export, or the
    two texts of their content collide. *)
Theorem event_id_binds (l1 l2 : L) e1 e2 att1 att2 tr1 tr2 ws1 ws2 req1 req2 now1 now2 l1' l2' x y :
  export (E:=E) (O:=O) classify l1 e1 att1 tr1 ws1 req1 now1 = (l1', Ok x) →
  export (E:=E) (O:=O) classify l2 e2 att2 tr2 ws2 req2 now2 = (l2', Ok y) →
  texts_ok x → texts_ok y → override_event_id x = override_event_id y →
  (payload_of x = payload_of y ∧
   route_id x = route_id y ∧ sequence_number x = sequence_number y ∧ event_at x = event_at y ∧
   original_caveat_chain_hash x = original_caveat_chain_hash y ∧
   narrowed_caveat_chain_hash x = narrowed_caveat_chain_hash y ∧
   caveat_narrowing_class x = caveat_narrowing_class y ∧
   override_reason_class x = override_reason_class y ∧
   override_reason_hash x = override_reason_hash y ∧
   audit_trace x = audit_trace y ∧ cross_org_witnesses x = cross_org_witnesses y) ∨
  collision_in blake2b (content_messages x ++ content_messages y).
Proof.
  intros (m1 & M1 & ->)%export_id (m2 & M2 & ->)%export_id (J1 & T1 & A1 & W1) (J2 & T2 & A2 & W2).
  unfold content_messages. rewrite M1, M2. intros [->|Hcol]%(eq_or_pair_collision blake2b); [left|by right].
  apply utf8_decode_encode in M1, M2. rewrite M1 in M2. apply (inj Some) in M2 as Ed.
  apply json_dumps_sorted_inj in Ed; [|done..]. unfold payload_of, event_payload in Ed.
  member "route_id"%string Ed F1. member "sequence_number"%string Ed F2. member "event_at"%string Ed F3.
  member "original_caveat_chain_hash"%string Ed F4. member "narrowed_caveat_chain_hash"%string Ed F5.
  member "caveat_narrowing_class"%string Ed F6. member "override_reason_class"%string Ed F7.
  member "override_reason_hash"%string Ed F8. member "audit_trace"%string Ed F9.
  member "cross_org_witnesses"%string Ed F10.
  apply JStr_inj in F1, F4, F5, F6, F7. apply JStr_inj, utc_text_of_inj in F3; [|done..].
  apply narrowing_value_inj in F6. apply reason_value_inj in F7. apply option_json_inj in F8.
  apply (list_json_inj (λ t, time_ok (entry_event_at t))) in F9; [|apply trace_json_inj|done..].
  apply (list_json_inj (λ w, time_ok (observed_at w))) in F10; [|apply witness_json_inj|done..].
  assert (sequence_number x = sequence_number y) as F2' by by injection F2.
  split_and!; try done. unfold payload_of. congruence.
Qed.
End identifiers.

(** ** Concrete exports *)

Module CaveatExportExample.
Import MemoryLedger.
#[local] Existing Instance rfc7693_blake2b.
#[local] Existing Instance rfc7693_keyed.

Definition att (route : str) : MultiOrgRouteAttestation :=
  MkAttestation route (u "peer.example") (u "did:web:peer.example") None None None false.

Definition ov (original narrowed : list (caveat Empty_set)) (reason : option str) : override :=
  MkOverride (Aware 1000) original narrowed reason.

Definition max (a : arg Empty_set) : caveat Empty_set := (u "max", [a]).
Definition aud : caveat Empty_set := (u "aud", [AStr (u "x"); ATuple [ABytes []; ANone]]).

Definition ov1 : override := ov [max (AInt 3); aud] [max (AInt 3)] (Some (u "key lost")).
Definition w1 : CrossOrgWitness := MkWitness (u "r2") (u "b.example") (Aware 5).
Definition w2 : CrossOrgWitness := MkWitness (u "r1") (u "a.example") (Aware 7).

Definition run (e : override) (now : datetime) (l : InMemorySequenceNumberLedger) :=
  export (E:=memory_error) _default_classifier_classify l e (att (u "route-1")) [] [w1; w2] None now.

Definition call1 (now : datetime) : call (O:=Empty_set) :=
  MkCall ov1 (att (u "route-1")) [] [w1; w2] None now.

Definition two_frames := exports (E:=memory_error) _default_classifier_classify empty
  [call1 (Aware 2000); call1 (Aware 3000)].

Example two_exports :
  (λ x, (sequence_number x, caveat_narrowing_class x, override_reason_class x,
         length (override_event_id x))) <$> two_frames.2 =
    [(1, SUBSET_PROPER, OTHER, 32%nat); (2, SUBSET_PROPER, OTHER, 32%nat)].
Proof. vm_compute. reflexivity. Qed.

Lemma empty_ok : memory_ok empty.
Proof. intros r c. unfold memory_last, empty. cbn. by rewrite lookup_empty. Qed.

(** The sender has exported before, and the receiver has seen what it exported. *)
Definition earlier := exports (E:=memory_error) _default_classifier_classify empty [call1 (Aware 1500)].
Definition later := exports (E:=memory_error) _default_classifier_classify earlier.1
  [call1 (Aware 2000); call1 (Aware 3000)].
Definition receiver : InMemorySequenceNumberLedger :=
  (deliver (E:=memory_error) empty earlier.2).1.

Example later_numbers : sequence_number <$> later.2 = [2; 3].
Proof. vm_compute. reflexivity. Qed.

Lemma same_history : receiver = earlier.1.
Proof. exact (eq_refl earlier.1 <: receiver = earlier.1). Qed.

Lemma earlier_ok : memory_ok earlier.1.
Proof.
  refine (proj1 (exports_increasing (E:=memory_error) (ledger_ok:=memory_ok) (pair_ok:=λ _ _, True)
    _default_classifier_classify empty [call1 (Aware 1500)] earlier.1 earlier.2 empty_ok _ _)).
  - apply List.Forall_cons; [by split_and!|constructor].
  - apply surjective_pairing.
Qed.

Lemma delivered_once_witness :
  ∃ r', deliver (E:=memory_error) receiver later.2 = (r', (λ _, Ok ()) <$> later.2) ∧
    ∀ x, x ∈ later.2 → ∃ err, detect_replay x r' = (r', Err err).
Proof.
  apply (delivered_once (E1:=memory_error) (E2:=memory_error) (sender_ok:=memory_ok)
    (receiver_ok:=memory_ok) (sender_pair:=λ _ _, True) (receiver_pair:=λ _ _, True)
    _default_classifier_classify earlier.1 [call1 (Aware 2000); call1 (Aware 3000)]
    later.1 later.2 receiver).
  - exact earlier_ok.
  - repeat (apply List.Forall_cons; [by split_and!|]). constructor.
  - apply surjective_pairing.
  - rewrite same_history. exact earlier_ok.
  - done.
  - intros route h n k _ Hn Hk. rewrite same_history in Hk. rewrite Hn in Hk. injection Hk. lia.
Defined.

Lemma witness_order_irrelevant_witness :
  export (E:=memory_error) _default_classifier_classify empty ov1 (att (u "route-1")) [] [w1; w2] None
    (Aware 2000) =
  export (E:=memory_error) _default_classifier_classify empty ov1 (att (u "route-1")) [] [w2; w1] None
    (Aware 2000).
Proof.
  apply (witness_order_irrelevant (E:=memory_error) _default_classifier_classify empty ov1 (att (u "route-1")) []
           [w1; w2] [w2; w1] None (Aware 2000)).
  - repeat constructor; (eexists; split; [reflexivity|]; split; by vm_compute).
  - apply Permutation_swap.
Defined.

Definition frame1 : option ExportedCaveatOverrideEvent := head two_frames.2.
Definition hash_of (s : list (caveat Empty_set)) : str :=
  ok_or [] (_route_scoped_chain_hash (E:=memory_error) (u "route-1") s).

Lemma chain_hash_compares_witness :
  (caveats_json [max (AInt 3); aud] ≡ₚ caveats_json [aud; max (AInt 3)] →
     hash_of [max (AInt 3); aud] = hash_of [aud; max (AInt 3)]) ∧
  (hash_of [max (AInt 3); aud] = hash_of [aud; max (AInt 3)] →
     caveats_json [max (AInt 3); aud] ≡ₚ caveats_json [aud; max (AInt 3)] ∨
     ∃ key, route_key (E:=memory_error) (u "route-1") = Ok key ∧
       collision_in (keyed_blake2b key _CHAIN_HASH_PERSONALISATION)
         (caveat_messages (E:=memory_error) [max (AInt 3); aud] ++
          caveat_messages (E:=memory_error) [aud; max (AInt 3)])).
Proof.
  apply (chain_hash_compares (E:=memory_error) (u "route-1") [max (AInt 3); aud] [aud; max (AInt 3)]).
  - vm_compute. tauto.
  - vm_compute. tauto.
  - by vm_compute.
  - by vm_compute.
Defined.

(** The same override exported by two ledgers at different times, evaluated. *)
Definition no_frame : ExportedCaveatOverrideEvent :=
  MkExported [] [] 0 [] (Aware 0) [] [] DISJOINT OTHER None [] [] (Aware 0).
Definition ledger_at (us : Z) : InMemorySequenceNumberLedger := (run ov1 (Aware us) empty).1.
Definition frame_at_2000 : ExportedCaveatOverrideEvent :=
  Eval vm_compute in ok_or no_frame (run ov1 (Aware 2000) empty).2.
Definition frame_at_3000 : ExportedCaveatOverrideEvent :=
  Eval vm_compute in ok_or no_frame (run ov1 (Aware 3000) empty).2.

Lemma aware_ok us : bool_decide (0 <= us < 10000) = true → time_ok (Aware us).
Proof.
  intros Hu%bool_decide_eq_true. exists us. split; [done|]. unfold in_datetime_range.
  split; [eapply Z.le_trans; [|apply Hu]; by vm_compute|].
  eapply Z.lt_le_trans; [apply Hu|]; by vm_compute.
Qed.

Ltac texts := split; [by vm_compute; tauto|]; split; [by apply aware_ok|]; split; [constructor|];
  repeat (apply List.Forall_cons; [by apply aware_ok|]); constructor.

Lemma run_2000 : run ov1 (Aware 2000) empty = (ledger_at 2000, Ok frame_at_2000).
Proof. rewrite (surjective_pairing (run _ _ _)). apply pair_eq. split; [reflexivity|]. by vm_compute. Qed.
Lemma run_3000 : run ov1 (Aware 3000) empty = (ledger_at 3000, Ok frame_at_3000).
Proof. rewrite (surjective_pairing (run _ _ _)). apply pair_eq. split; [reflexivity|]. by vm_compute. Qed.

Lemma texts_2000 : texts_ok frame_at_2000.
Proof. texts. Qed.
Lemma texts_3000 : texts_ok frame_at_3000.
Proof. texts. Qed.

Lemma event_id_binds_witness :
  let x := frame_at_2000 in
  let y := frame_at_3000 in
  (payload_of x = payload_of y ∧
   route_id x = route_id y ∧ sequence_number x = sequence_number y ∧ event_at x = event_at y ∧
   original_caveat_chain_hash x = original_caveat_chain_hash y ∧
   narrowed_caveat_chain_hash x = narrowed_caveat_chain_hash y ∧
   caveat_narrowing_class x = caveat_narrowing_class y ∧
   override_reason_class x = override_reason_class y ∧
   override_reason_hash x = override_reason_hash y ∧
   audit_trace x = audit_trace y ∧ cross_org_witnesses x = cross_org_witnesses y) ∨
  collision_in blake2b (content_messages x ++ content_messages y).
Proof.
  intros x y.
  apply (event_id_binds (E:=memory_error) _default_classifier_classify empty empty ov1 ov1
    (att (u "route-1")) (att (u "route-1")) [] [] [w1; w2] [w1; w2] None None (Aware 2000) (Aware 3000)
    (ledger_at 2000) (ledger_at 3000) frame_at_2000 frame_at_3000).
  - exact run_2000.
  - exact run_3000.
  - exact texts_2000.
  - exact texts_3000.
  - reflexivity.
Defined.

(** The number is recorded before the clock is read: a clock without a time zone
    loses it. *)
Example naive_clock_loses_number :
  (run ov1 (Naive 0) empty).2 = Err ClockValueError ∧
  memory_last (run ov1 (Naive 0) empty).1 (u "route-1") (hash_of (ov_original ov1)) = 1.
Proof. by split; vm_compute. Qed.

(** Sets that compare equal but have different pseudonyms: 1 and True, and a
    caveat that is listed twice. *)
Example equal_sets_different_hashes :
  classify_sets [max (AInt 1)] [max (ABool true)] = SUBSET_EQUAL ∧
  str_eqb (hash_of [max (AInt 1)]) (hash_of [max (ABool true)]) = false ∧
  classify_sets [aud] [aud; aud] = SUBSET_EQUAL ∧
  str_eqb (hash_of [aud]) (hash_of [aud; aud]) = false.
Proof. split_and!; by vm_compute. Qed.

(** Routes that agree in their first 64 bytes share the key, and so the
    pseudonyms. *)
Example long_routes_linkable :
  let route c := u "a-route-identifier-of-an-organisation-that-is-sixty-four-bytes-lo" ++ u c in
  ok_or [] (_route_scoped_chain_hash (E:=memory_error) (route "1"%string) [aud]) =
  ok_or [] (_route_scoped_chain_hash (E:=memory_error) (route "2"%string) [aud]).
Proof. vm_compute. reflexivity. Qed.

(** Caveats whose arguments cannot be members of a set raise TypeError. *)
#[local] Instance list_object : PyObject str := {
  obj_repr s := s; obj_equal := str_eqb; obj_hashable _ := false
}.
Example unhashable_argument :
  _classify_narrowing (E:=memory_error) [(u "in", [AObject (u "[1, 2]")])] [] =
  Err UnhashableTypeError.
Proof. reflexivity. Qed.
End CaveatExportExample.
