(* ===== verification/FederationFrame.v ===== *)
(** * Frames between runtimes ([wirelang/federation/federation_frame.py])

    The envelope of messages between runtimes of different organisations: its
    checks, its canonical text and the bytes a signer signs.  [json.loads] is
    [PyJsonLoads]'s reader and the canonicaliser is [Jcs].

    The theorems: a frame that is written is read back, with its data in
    canonical order, and neither its bytes nor the bytes to sign change on the
    way; what the reader accepts passes the writer's checks; the bytes to sign
    determine header and payload. *)

From S2P Require Import Prelude PyStr PyFloat PyJson PyJsonLoads PyDyn PyEqual Sha256 Jcs.
From Stdlib Require Import ZArith Lia.

Open Scope Z_scope.

(** [kind] of a [ParseError], with the field it names.  The last two are not
    [ParseError]s: a kind that is a list or an object cannot be looked up
    (TypeError), and the schema of an unknown kind (KeyError). *)
Inductive parse_error : Type :=
| BadUtf8 | BadJson
| MissingField (field : str)
| UnknownSchema (field : str)
| UnsupportedVersion
| BadTimestampShape | BadFrameIdShape | BadAnchorRefShape | BadSignatureShape
| BadRuntimeId (field : str)
| JcsFailure | FrameTooLarge | UnknownPayloadKind | PayloadDataNotObject
| UnhashableKind
| KindKeyError.

#[export] Instance parse_error_eq_dec : EqDecision parse_error.
Proof. solve_decision. Defined.

Module Frame.

Definition FRAME_ENVELOPE_SCHEMA : str := u "wakir.federation.frame/1".
Definition FRAME_ENVELOPE_VERSION : Z := 1.
Definition PAYLOAD_SCHEMA_TASK_ASSIGNED : str := u "wakir.agent.task-assigned/1".
Definition PAYLOAD_SCHEMA_TASK_OUTPUT : str := u "wakir.agent.task-output/1".
Definition PAYLOAD_SCHEMA_MULTI_ORG_ATTESTATION : str := u "wakir.federation.multi-org-attestation/1".
Definition PAYLOAD_SCHEMA_SPIFFE_BUNDLE_SYNC : str := u "wakir.federation.spiffe-bundle-sync/1".
Definition FRAME_ID_PREFIX : str := u "frame-sha256:".
Definition ANCHOR_REF_PREFIX : str := u "wat:".
Definition MAX_FRAME_JCS_BYTES : Z := 320 * 1024.
Definition SHA256_HEX_LEN : nat := 64.

Definition _PAYLOAD_KIND_TASK_ASSIGNED : str := u "task-assigned".
Definition _PAYLOAD_KIND_TASK_OUTPUT : str := u "task-output".
Definition _PAYLOAD_KIND_MULTI_ORG_ATTESTATION : str := u "multi-org-attestation".
Definition _PAYLOAD_KIND_SPIFFE_BUNDLE_SYNC : str := u "spiffe-bundle-sync".

Definition _KIND_TO_SCHEMA : list (str * str) :=
  [(_PAYLOAD_KIND_TASK_ASSIGNED, PAYLOAD_SCHEMA_TASK_ASSIGNED);
   (_PAYLOAD_KIND_TASK_OUTPUT, PAYLOAD_SCHEMA_TASK_OUTPUT);
   (_PAYLOAD_KIND_MULTI_ORG_ATTESTATION, PAYLOAD_SCHEMA_MULTI_ORG_ATTESTATION);
   (_PAYLOAD_KIND_SPIFFE_BUNDLE_SYNC, PAYLOAD_SCHEMA_SPIFFE_BUNDLE_SYNC)].

Record FrameHeader := MkHeader {
  frame_id : str;
  schema : str;
  source_runtime : str;
  target_runtime : str;
  ts_utc : str;
  version : Z;
}.

Record FederationPayload := MkPayload { kind : str; data : dict }.

Definition new_payload (k : str) (d : dict) : result parse_error FederationPayload :=
  match dict_get _KIND_TO_SCHEMA k with
  | None => Err UnknownPayloadKind
  | Some _ => Ok (MkPayload k d)
  end.

Definition payload_schema (p : FederationPayload) : result parse_error str :=
  of_option KindKeyError (dict_get _KIND_TO_SCHEMA (kind p)).

Definition task_assigned (d : dict) := new_payload _PAYLOAD_KIND_TASK_ASSIGNED d.
Definition task_output (d : dict) := new_payload _PAYLOAD_KIND_TASK_OUTPUT d.
Definition multi_org_attestation (d : dict) := new_payload _PAYLOAD_KIND_MULTI_ORG_ATTESTATION d.
Definition spiffe_bundle_sync (d : dict) := new_payload _PAYLOAD_KIND_SPIFFE_BUNDLE_SYNC d.

Record FederationFrame := MkFrame {
  header : FrameHeader;
  payload : FederationPayload;
  anchor_ref : option str;
  signature : option str;
}.

(** ** Checks of shape *)

(** [isinstance(s, str)]; the checks return the text they accept. *)
Definition as_text (e : parse_error) (j : json) : result parse_error str :=
  match j with JStr s => Ok s | _ => Err e end.

(** [s[i]]; the length is checked before. *)
Definition char_at (s : str) (i : nat) : Z := default 0 (s !! i).
Definition is_char (s : str) (i : nat) (c : Z) : bool := char_at s i =? c.
Definition _digit (s : str) (i : nat) : bool := is_digit (char_at s i).

Definition _validate_timestamp_shape (j : json) : result parse_error str :=
  s ← as_text BadTimestampShape j;
  raise_if (negb (length s =? 20)%nat) BadTimestampShape;;
  raise_if (negb (is_char s 10 84) || negb (is_char s 19 90)) BadTimestampShape;;
  raise_if (negb (forallb (_digit s) [0; 1; 2; 3]%nat)) BadTimestampShape;;
  raise_if (negb (is_char s 4 45) || negb (_digit s 5) || negb (_digit s 6) || negb (is_char s 7 45))
    BadTimestampShape;;
  raise_if (negb (_digit s 8) || negb (_digit s 9)) BadTimestampShape;;
  raise_if (negb (_digit s 11) || negb (_digit s 12) || negb (is_char s 13 58)) BadTimestampShape;;
  raise_if (negb (_digit s 14) || negb (_digit s 15) || negb (is_char s 16 58)) BadTimestampShape;;
  raise_if (negb (_digit s 17) || negb (_digit s 18)) BadTimestampShape;;
  Ok s.

(** A prefix and the 64 hexadecimal digits of a digest. *)
Definition check_digest_text (prefix : str) (e : parse_error) (s : str) : result parse_error () :=
  raise_if (negb (startswith s prefix)) e;;
  let tail := drop (length prefix) s in
  raise_if (negb (length tail =? SHA256_HEX_LEN)%nat) e;;
  raise_if (negb (forallb is_lower_hex tail)) e.

Definition _validate_frame_id_shape (j : json) : result parse_error str :=
  s ← as_text BadFrameIdShape j;
  check_digest_text FRAME_ID_PREFIX BadFrameIdShape s;;
  Ok s.

Definition _validate_anchor_ref_shape (s : str) : result parse_error () :=
  check_digest_text ANCHOR_REF_PREFIX BadAnchorRefShape s.

Definition _validate_signature_shape (s : str) : result parse_error () :=
  raise_if (str_empty s) BadSignatureShape;;
  raise_if (negb (forallb is_lower_hex s)) BadSignatureShape;;
  raise_if (negb (Nat.even (length s))) BadSignatureShape.

Definition _validate_runtime_id (field : str) (j : json) : result parse_error str :=
  s ← as_text (BadRuntimeId field) j;
  raise_if (str_empty s) (BadRuntimeId field);;
  raise_if (existsb (λ c, (c <? 0x21) || (0x7E <? c)) s) (BadRuntimeId field);;
  Ok s.

(** ** Reading *)

(** [wire.get(k)], which must be there and an object. *)
Definition get_object (wire : dict) (k : str) : result parse_error dict :=
  match dict_get wire k with Some (JObj d) => Ok d | _ => Err BadJson end.

(** The fields of the loop, in order, and then their values by subscript. *)
Fixpoint require_fields (d : dict) (fields : list str) : result parse_error (list json) :=
  match fields with
  | [] => Ok []
  | f :: rest =>
      v ← of_option (MissingField f) (dict_get d f);
      vs ← require_fields d rest;
      Ok (v :: vs)
  end.

Definition check_version (j : json) : result parse_error Z :=
  match j with
  | JInt z => raise_if (negb (z =? FRAME_ENVELOPE_VERSION)) UnsupportedVersion;; Ok z
  | _ => Err UnsupportedVersion
  end.

Definition header_fields : list str :=
  [u "frame_id"; u "schema"; u "source_runtime"; u "target_runtime"; u "ts_utc"; u "version"].

Definition check_schema (field want : str) (j : json) : result parse_error () :=
  raise_if (negb (py_eq j (JStr want))) (UnknownSchema field).

Definition parse_header (wire : dict) : result parse_error FrameHeader :=
  header_obj ← get_object wire (u "header");
  fields ← require_fields header_obj header_fields;
  match fields with
  | [frame_id_val; schema_val; source_val; target_val; ts_val; version_val] =>
      check_schema (u "header.schema") FRAME_ENVELOPE_SCHEMA schema_val;;
      v ← check_version version_val;
      ts ← _validate_timestamp_shape ts_val;
      fid ← _validate_frame_id_shape frame_id_val;
      source ← _validate_runtime_id (u "source_runtime") source_val;
      target ← _validate_runtime_id (u "target_runtime") target_val;
      Ok (MkHeader fid FRAME_ENVELOPE_SCHEMA source target ts v)
  | _ => Err BadJson
  end.

(** [anchor_ref] and [signature]: absent, null, or a text of the right shape. *)
Definition parse_optional (wire : dict) (k : str) (e : parse_error)
    (check : str → result parse_error ()) : result parse_error (option str) :=
  match dict_get wire k with
  | None | Some JNull => Ok None
  | Some v => s ← as_text e v; check s;; Ok (Some s)
  end.

Definition parse_payload (wire : dict) : result parse_error FederationPayload :=
  payload_obj ← get_object wire (u "payload");
  fields ← require_fields payload_obj [u "kind"; u "data"; u "schema"];
  match fields with
  | [kind_val; data_val; schema_val] =>
      match data_val with
      | JObj d =>
          raise_if (negb (hashable kind_val)) UnhashableKind;;
          k ← as_text UnknownPayloadKind kind_val;
          expected ← of_option UnknownPayloadKind (dict_get _KIND_TO_SCHEMA k);
          check_schema (u "payload.schema") expected schema_val;;
          new_payload k d
      | _ => Err PayloadDataNotObject
      end
  | _ => Err BadJson
  end.

Definition parse_frame (b : bytes) : result parse_error FederationFrame :=
  raise_if (MAX_FRAME_JCS_BYTES <? Z.of_nat (length b)) FrameTooLarge;;
  text ← of_option BadUtf8 (utf8_decode b);
  j ← of_option BadJson (json_loads text);
  wire ← match j with JObj d => Ok d | _ => Err BadJson end;
  h ← parse_header wire;
  anchor ← parse_optional wire (u "anchor_ref") BadAnchorRefShape _validate_anchor_ref_shape;
  sig ← parse_optional wire (u "signature") BadSignatureShape _validate_signature_shape;
  p ← parse_payload wire;
  Ok (MkFrame h p anchor sig).

(** ** Writing *)

Definition header_json (h : FrameHeader) : json :=
  JObj [(u "frame_id", JStr (frame_id h)); (u "schema", JStr (schema h));
        (u "source_runtime", JStr (source_runtime h)); (u "target_runtime", JStr (target_runtime h));
        (u "ts_utc", JStr (ts_utc h)); (u "version", JInt (version h))].

Definition payload_json (p : FederationPayload) (s : str) : json :=
  JObj [(u "data", JObj (data p)); (u "kind", JStr (kind p)); (u "schema", JStr s)].

Definition optional_member (k : str) (v : option str) : dict :=
  match v with Some s => [(k, JStr s)] | None => [] end.

Definition signing_members (f : FederationFrame) (s : str) : dict :=
  [(u "header", header_json (header f)); (u "payload", payload_json (payload f) s)].

Definition jcs (j : json) : result parse_error bytes :=
  map_err (λ _, JcsFailure) (Jcs.canonicalize j).

Definition check_optional (check : str → result parse_error ()) (v : option str) : result parse_error () :=
  match v with Some s => check s | None => Ok () end.

Definition check_frame (f : FederationFrame) : result parse_error () :=
  let h := header f in
  raise_if (negb (str_eqb (schema h) FRAME_ENVELOPE_SCHEMA)) (UnknownSchema (u "header.schema"));;
  raise_if (negb (version h =? FRAME_ENVELOPE_VERSION)) UnsupportedVersion;;
  _validate_timestamp_shape (JStr (ts_utc h));;
  _validate_frame_id_shape (JStr (frame_id h));;
  _validate_runtime_id (u "source_runtime") (JStr (source_runtime h));;
  _validate_runtime_id (u "target_runtime") (JStr (target_runtime h));;
  check_optional _validate_anchor_ref_shape (anchor_ref f);;
  check_optional _validate_signature_shape (signature f).

Definition frame_json (f : FederationFrame) (s : str) : json :=
  JObj (signing_members f s ++ optional_member (u "anchor_ref") (anchor_ref f) ++
        optional_member (u "signature") (signature f)).

Definition serialize_frame (f : FederationFrame) : result parse_error bytes :=
  check_frame f;;
  s ← payload_schema (payload f);
  canonical ← jcs (frame_json f s);
  raise_if (MAX_FRAME_JCS_BYTES <? Z.of_nat (length canonical)) FrameTooLarge;;
  Ok canonical.

Definition signing_payload_bytes (f : FederationFrame) : result parse_error bytes :=
  s ← payload_schema (payload f);
  jcs (JObj (signing_members f s)).

Definition compute_frame_id `{Sha256} (seed : bytes) : str := FRAME_ID_PREFIX ++ hex (sha256 seed).
End Frame.

Import Jcs.Jcs Frame.

(** ** Checked texts *)

Section checked.

Lemma timestamp_same s t : _validate_timestamp_shape (JStr s) = Ok t → t = s.
Proof. unfold _validate_timestamp_shape. cbn [as_text]. rewrite bind_Ok. intros Hs. by run_ok. Qed.

Lemma frame_id_same s t : _validate_frame_id_shape (JStr s) = Ok t → t = s.
Proof. unfold _validate_frame_id_shape. cbn [as_text]. rewrite bind_Ok. intros Hs. by run_ok. Qed.

Lemma runtime_same k s t : _validate_runtime_id k (JStr s) = Ok t → t = s.
Proof. unfold _validate_runtime_id. cbn [as_text]. rewrite bind_Ok. intros Hs. by run_ok. Qed.

Lemma as_text_ok e j s : as_text e j = Ok s ↔ j = JStr s.
Proof. destruct j; naive_solver. Qed.

(** A check accepts texts only, and returns them. *)
Lemma timestamp_text j s :
  _validate_timestamp_shape j = Ok s → _validate_timestamp_shape (JStr s) = Ok s.
Proof.
  intros Hs. pose proof Hs as Ht. unfold _validate_timestamp_shape in Ht.
  apply bind_ok_iff in Ht as (t & ->%as_text_ok & _). assert (s = t) as -> by by eapply timestamp_same. done.
Qed.

Lemma frame_id_text j s : _validate_frame_id_shape j = Ok s → _validate_frame_id_shape (JStr s) = Ok s.
Proof.
  intros Hs. pose proof Hs as Ht. unfold _validate_frame_id_shape in Ht.
  apply bind_ok_iff in Ht as (t & ->%as_text_ok & _). assert (s = t) as -> by by eapply frame_id_same. done.
Qed.

Lemma runtime_text k j s : _validate_runtime_id k j = Ok s → _validate_runtime_id k (JStr s) = Ok s.
Proof.
  intros Hs. pose proof Hs as Ht. unfold _validate_runtime_id in Ht.
  apply bind_ok_iff in Ht as (t & ->%as_text_ok & _). assert (s = t) as -> by by eapply runtime_same. done.
Qed.

(** Checked texts are plain. *)
Lemma okstr_range s : (∀ c, c ∈ s → 0 ≤ c < 128) → okstr s.
Proof.
  intros Hs. apply okstr_Forall, Forall_forall. intros c Hc%Hs. apply okchar_range. lia.
Qed.

Lemma lower_hex_ascii c : is_lower_hex c = true → 0 ≤ c < 128.
Proof. unfold is_lower_hex, is_digit, in_range. intros Hc. propify. lia. Qed.

Lemma hex_text_ok s : forallb is_lower_hex s = true → okstr s.
Proof.
  intros Hs. rewrite forallb_forall in Hs. apply okstr_range.
  intros c Hc%list_elem_of_In. by apply lower_hex_ascii, Hs.
Qed.

Lemma digest_text_ok prefix e s :
  (∀ c, c ∈ prefix → 0 ≤ c < 128) → check_digest_text prefix e s = Ok () → okstr s.
Proof.
  unfold check_digest_text. cbv zeta. intros Hp Hs. run_ok. propify.
  apply okstr_range. match goal with H : startswith s prefix = true |- _ => apply startswith_spec in H as [r ->] end.
  intros c [Hc|Hc]%elem_of_app; [by apply Hp|].
  match goal with H : ∀ x, In x _ → _ |- _ => rewrite drop_app_length in H; apply list_elem_of_In, H in Hc end.
  by apply lower_hex_ascii.
Qed.
End checked.

(** ** Frames and their JSON *)

Section frames.
Implicit Types (f : FederationFrame) (h : FrameHeader) (p : FederationPayload).

(** A header that passes the checks of the writer. *)
Lemma check_frame_header f :
  check_frame f = Ok () →
  let h := header f in
  schema h = FRAME_ENVELOPE_SCHEMA ∧ version h = FRAME_ENVELOPE_VERSION ∧
  _validate_timestamp_shape (JStr (ts_utc h)) = Ok (ts_utc h) ∧
  _validate_frame_id_shape (JStr (frame_id h)) = Ok (frame_id h) ∧
  _validate_runtime_id (u "source_runtime") (JStr (source_runtime h)) = Ok (source_runtime h) ∧
  _validate_runtime_id (u "target_runtime") (JStr (target_runtime h)) = Ok (target_runtime h) ∧
  check_optional _validate_anchor_ref_shape (anchor_ref f) = Ok () ∧
  check_optional _validate_signature_shape (signature f) = Ok ().
Proof.
  unfold check_frame. cbv zeta. intros Hc.
  apply bind_ok_iff in Hc as (? & H1%raise_if_ok & Hc). apply bind_ok_iff in Hc as (? & H2%raise_if_ok & Hc).
  apply bind_ok_iff in Hc as (t & Ht & Hc). apply bind_ok_iff in Hc as (i & Hi & Hc).
  apply bind_ok_iff in Hc as (s & Hs & Hc). apply bind_ok_iff in Hc as (g & Hg & Hc).
  apply bind_ok_iff in Hc as ([] & Ha & Hc).
  pose proof (timestamp_same _ _ Ht) as ->. pose proof (frame_id_same _ _ Hi) as ->.
  pose proof (runtime_same _ _ _ Hs) as ->. pose proof (runtime_same _ _ _ Hg) as ->.
  unfold str_eqb in H1. propify. by split_and!.
Qed.

Lemma char_at_ok s : (∀ i, (i < length s)%nat → okchar (char_at s i)) → okstr s.
Proof.
  intros Hs. apply okstr_Forall, Forall_lookup. intros i c Hi.
  replace c with (char_at s i); [apply Hs; by eapply lookup_lt_Some|].
  unfold char_at. by rewrite Hi.
Qed.

Lemma timestamp_okstr s t : _validate_timestamp_shape (JStr s) = Ok t → okstr s.
Proof.
  unfold _validate_timestamp_shape. cbn [as_text]. rewrite bind_Ok. intros Hs. run_ok.
  cbn [forallb] in *. propify. unfold is_char, _digit, is_digit, in_range in *. propify.
  apply char_at_ok. intros i Hi. apply okchar_range.
  match goal with H : length t = 20%nat |- _ => rewrite H in Hi end.
  do 20 (destruct i as [|i]; [lia|]). lia.
Qed.

Lemma runtime_okstr k s t : _validate_runtime_id k (JStr s) = Ok t → okstr s.
Proof.
  unfold _validate_runtime_id. cbn [as_text]. rewrite bind_Ok. intros Hs. run_ok.
  apply okstr_range. intros c Hc.
  match goal with H : existsb _ _ = false |- _ => rename H into Hx end.
  destruct (decide (0x21 <= c <= 0x7E)) as [?|Hn]; [lia|]. exfalso.
  assert (existsb (λ c, (c <? 0x21) || (0x7E <? c)) t = true) as Hy; [|congruence].
  apply existsb_exists. exists c. split; [by apply list_elem_of_In|].
  destruct (Z.ltb_spec c 0x21), (Z.ltb_spec 0x7E c); try done. lia.
Qed.

Lemma literal_range (k : str) : forallb (in_range 0 127) k = true → ∀ c, c ∈ k → 0 ≤ c < 128.
Proof.
  intros Hk c Hc. rewrite forallb_forall in Hk. apply list_elem_of_In, Hk in Hc.
  unfold in_range in Hc. propify. lia.
Qed.

Lemma anchor_okstr s : _validate_anchor_ref_shape s = Ok () → okstr s.
Proof. by apply digest_text_ok, literal_range. Qed.

Lemma frame_id_okstr s t : _validate_frame_id_shape (JStr s) = Ok t → okstr s.
Proof.
  unfold _validate_frame_id_shape. cbn [as_text]. rewrite bind_Ok. intros Hs.
  apply bind_ok_iff in Hs as ([] & Hs & _). revert Hs. by apply digest_text_ok, literal_range.
Qed.

Lemma signature_okstr s : _validate_signature_shape s = Ok () → okstr s.
Proof.
  unfold _validate_signature_shape. intros Hs. apply bind_ok_iff in Hs as (? & _ & Hs).
  apply bind_ok_iff in Hs as (? & Hh%raise_if_ok%negb_false_iff & _). by apply hex_text_ok.
Qed.

(** The frame as JSON is something the reader can read. *)
Lemma strings_wf (d : dict) :
  NoDup d.*1 → Forall (λ kv : str * json, okstr kv.1 ∧ json_wf kv.2) d → json_wf (JObj d).
Proof. intros. by apply json_wf_obj. Qed.

Lemma header_wf f : check_frame f = Ok () → json_wf (header_json (header f)).
Proof.
  intros (Hs & _ & Ht%timestamp_okstr & Hi%frame_id_okstr & Hr%runtime_okstr & Hg%runtime_okstr & _)%check_frame_header.
  apply strings_wf; [apply (bool_decide_unpack _); by vm_compute|]. rewrite Hs.
  repeat (apply List.Forall_cons; [by split|]). constructor.
Qed.

Lemma schema_okstr k s : dict_get _KIND_TO_SCHEMA k = Some s → okstr k ∧ okstr s.
Proof.
  intros Hs%dict_get_Some_elem. unfold _KIND_TO_SCHEMA in Hs.
  repeat (apply elem_of_cons in Hs as [[= -> ->]|Hs]; [by split|]). by apply elem_of_nil in Hs.
Qed.

Lemma frame_payload_wf p s :
  json_wf (JObj (data p)) → payload_schema p = Ok s → json_wf (payload_json p s).
Proof.
  intros Hd [Hk Hs]%of_option_ok%schema_okstr.
  apply strings_wf; [apply (bool_decide_unpack _); by vm_compute|].
  repeat (apply List.Forall_cons; [by split|]). constructor.
Qed.

Lemma optional_wf k (check : str → result parse_error ()) v :
  okstr k → (∀ s, check s = Ok () → okstr s) → check_optional check v = Ok () →
  Forall (λ kv : str * json, okstr kv.1 ∧ json_wf kv.2) (optional_member k v).
Proof.
  intros Hk Hc Hv. destruct v as [s|]; [|constructor]. repeat constructor; [done|]. by apply Hc.
Qed.

Lemma frame_wf f s :
  check_frame f = Ok () → json_wf (JObj (data (payload f))) → payload_schema (payload f) = Ok s →
  json_wf (frame_json f s).
Proof.
  intros Hc Hd Hs. pose proof (header_wf f Hc) as Hh. pose proof (frame_payload_wf _ s Hd Hs) as Hp.
  apply check_frame_header in Hc as (_ & _ & _ & _ & _ & _ & Ha & Hg). apply strings_wf.
  - destruct (anchor_ref f), (signature f); apply (bool_decide_unpack _); by vm_compute.
  - apply Forall_app. split; [by repeat (apply List.Forall_cons; [by split|])|].
    apply Forall_app. split.
    + eapply optional_wf; [done|apply anchor_okstr|done].
    + eapply optional_wf; [done|apply signature_okstr|done].
Qed.
End frames.

(** ** Reading what was written *)

(** The members of an object in canonical order. *)
Definition canonical_data (d : dict) : dict :=
  py_sorted member_leb (List.map (λ kv, (kv.1, jcs_sort kv.2)) d).

Definition canonical_frame (f : FederationFrame) : FederationFrame :=
  MkFrame (header f) (MkPayload (kind (payload f)) (canonical_data (data (payload f))))
    (anchor_ref f) (signature f).

Section reading.
Implicit Types (f : FederationFrame) (h : FrameHeader) (p : FederationPayload).

Lemma canonical_lookup d k :
  NoDup d.*1 → dict_get (canonical_data d) k = jcs_sort <$> dict_get d k.
Proof. apply dict_get_sorted_by. Qed.

Lemma canonical_object wire k d :
  dict_get wire k = Some (jcs_sort (JObj d)) → get_object wire k = Ok (canonical_data d).
Proof. unfold get_object. by intros ->. Qed.

(** The fields of a canonical object. *)
Lemma canonical_fields d fields vs :
  NoDup d.*1 → Forall2 (λ k v, dict_get d k = Some v) fields vs →
  require_fields (canonical_data d) fields = Ok (jcs_sort <$> vs).
Proof.
  intros Hd. induction 1 as [|k v fields vs Hk _ IH]; [done|]. cbn [require_fields].
  rewrite canonical_lookup, Hk by done. cbn [fmap option_fmap option_map of_option].
  by rewrite bind_Ok, IH.
Qed.

Lemma read_header f wire :
  check_frame f = Ok () → dict_get wire (u "header") = Some (jcs_sort (header_json (header f))) →
  parse_header wire = Ok (header f).
Proof.
  intros (Hs & Hv & Ht & Hi & Hr & Hg & _)%check_frame_header Hw. unfold parse_header.
  rewrite (canonical_object _ _ _ Hw), bind_Ok.
  rewrite (canonical_fields _ header_fields
    [JStr (frame_id (header f)); JStr (schema (header f)); JStr (source_runtime (header f));
     JStr (target_runtime (header f)); JStr (ts_utc (header f)); JInt (version (header f))]).
  - cbn [fmap list_fmap jcs_sort]. rewrite bind_Ok, Hs, Hv. unfold check_schema.
    rewrite (proj2 (py_eq_str FRAME_ENVELOPE_SCHEMA _) eq_refl). cbn [negb]. rewrite raise_if_false, bind_Ok.
    cbn [check_version]. rewrite Z.eqb_refl. cbn [negb]. rewrite raise_if_false, !bind_Ok, Ht, bind_Ok, Hi, bind_Ok.
    rewrite Hr, bind_Ok, Hg, bind_Ok. rewrite <- Hs, <- Hv. by destruct (header f).
  - apply (bool_decide_unpack _); by vm_compute.
  - repeat (apply Forall2_cons; split; [reflexivity|]). constructor.
Qed.

Lemma read_optional wire k e check v :
  dict_get wire k = JStr <$> v → check_optional check v = Ok () →
  parse_optional wire k e check = Ok v.
Proof.
  unfold parse_optional. intros -> Hv. destruct v as [s|]; [|done]. cbn in *. by rewrite Hv.
Qed.

Lemma read_payload p s wire :
  payload_schema p = Ok s → dict_get wire (u "payload") = Some (jcs_sort (payload_json p s)) →
  parse_payload wire = Ok (MkPayload (kind p) (canonical_data (data p))).
Proof.
  intros Hs%of_option_ok Hw. unfold parse_payload. rewrite (canonical_object _ _ _ Hw), bind_Ok.
  rewrite (canonical_fields _ _ [JStr (kind p); JObj (data p); JStr s]).
  - cbn [fmap list_fmap]. rewrite bind_Ok. change (jcs_sort (JObj (data p))) with (JObj (canonical_data (data p))).
    cbn [jcs_sort hashable negb as_text]. rewrite raise_if_false, !bind_Ok, Hs. cbn [of_option]. rewrite bind_Ok.
    unfold check_schema. rewrite (proj2 (py_eq_str s _) eq_refl). cbn [negb]. rewrite raise_if_false, bind_Ok.
    unfold new_payload. by rewrite Hs.
  - apply (bool_decide_unpack _); by vm_compute.
  - repeat (apply Forall2_cons; split; [reflexivity|]). constructor.
Qed.

Lemma frame_members_nodup f s :
  NoDup (signing_members f s ++ optional_member (u "anchor_ref") (anchor_ref f) ++
         optional_member (u "signature") (signature f)).*1.
Proof. destruct (anchor_ref f), (signature f); apply (bool_decide_unpack _); by vm_compute. Qed.

Lemma frame_read_back f b :
  json_wf (JObj (data (payload f))) → serialize_frame f = Ok b →
  parse_frame b = Ok (canonical_frame f).
Proof.
  intros Hd Hb. unfold serialize_frame in Hb.
  apply bind_ok_iff in Hb as ([] & Hc & Hb). apply bind_ok_iff in Hb as (s & Hs & Hb).
  apply bind_ok_iff in Hb as (c & Hj%map_err_ok & Hb). apply bind_ok_iff in Hb as (? & Hlen & <-%Ok_inj).
  pose proof (frame_wf f s Hc Hd Hs) as Hwf.
  destruct (canonicalize_wf _ Hwf) as (c' & Hc' & He). rewrite Hj in Hc'. apply Ok_inj in Hc' as <-.
  unfold parse_frame. apply raise_if_ok in Hlen. rewrite Hlen, raise_if_false, bind_Ok.
  rewrite (utf8_decode_encode _ _ He). cbn [of_option]. rewrite bind_Ok.
  rewrite json_loads_print by by apply jcs_sort_wf. cbn [of_option]. rewrite bind_Ok.
  unfold frame_json. pose proof (frame_members_nodup f s) as Hnd.
  set (members := signing_members f s ++ _) in *.
  change (jcs_sort (JObj members)) with (JObj (canonical_data members)). cbv beta iota. rewrite bind_Ok.
  pose proof Hc as (_ & _ & _ & _ & _ & _ & Ha & Hg)%check_frame_header.
  rewrite (read_header f), bind_Ok by (done || by rewrite canonical_lookup).
  rewrite (read_optional _ (u "anchor_ref") _ _ (anchor_ref f)); [rewrite bind_Ok|rewrite canonical_lookup by done|done].
  - rewrite (read_optional _ (u "signature") _ _ (signature f)); [rewrite bind_Ok|rewrite canonical_lookup by done|done].
    + by rewrite (read_payload (payload f) s), bind_Ok by (done || by rewrite canonical_lookup).
    + unfold members. destruct (anchor_ref f), (signature f); reflexivity.
  - unfold members. destruct (anchor_ref f), (signature f); reflexivity.
Qed.
End reading.

(** ** What a frame and its signing bytes stand for *)

Section transport.
Implicit Types (f g : FederationFrame).

Definition payload_data f : json := JObj (data (payload f)).

(** Objects are sorted member by member. *)
Lemma sort_member_values d e :
  Forall2 (λ x y : str * json, x.1 = y.1 ∧ json_sort x.2 = json_sort y.2) d e →
  json_sort (JObj d) = json_sort (JObj e).
Proof.
  intros Hde. cbn [json_sort]. do 2 f_equal.
  induction Hde as [|[k v] [k' w] d e [E1 E2] _ IH]; [done|]. cbn in *. congruence.
Qed.

Lemma canonical_payload_same f s :
  json_wf (payload_data f) →
  json_sort (payload_json (payload (canonical_frame f)) s) = json_sort (payload_json (payload f) s).
Proof.
  intros Hd. apply sort_member_values.
  repeat (apply Forall2_cons; split; [split; [reflexivity|]|]); [|reflexivity..|constructor].
  exact (json_sort_jcs_sort (payload_data f) Hd).
Qed.

Lemma canonical_data_wf f : json_wf (payload_data f) → json_wf (payload_data (canonical_frame f)).
Proof. apply jcs_sort_wf. Qed.

Lemma canonical_signing_same f s :
  json_wf (payload_data f) →
  json_sort (JObj (signing_members (canonical_frame f) s)) = json_sort (JObj (signing_members f s)).
Proof.
  intros Hd. apply sort_member_values.
  repeat (apply Forall2_cons; split; [split; [reflexivity|]|]); [reflexivity| |constructor].
  by apply canonical_payload_same.
Qed.

Lemma canonical_frame_same f s :
  json_wf (payload_data f) →
  json_sort (frame_json (canonical_frame f) s) = json_sort (frame_json f s).
Proof.
  intros Hd. apply sort_member_values. apply Forall2_app.
  - repeat (apply Forall2_cons; split; [split; [reflexivity|]|]); [reflexivity| |constructor].
    by apply canonical_payload_same.
  - cbn [canonical_frame anchor_ref signature]. apply Forall_Forall2_diag, Forall_true. done.
Qed.

Lemma signing_wf f s :
  check_frame f = Ok () → json_wf (payload_data f) → payload_schema (payload f) = Ok s →
  json_wf (JObj (signing_members f s)).
Proof.
  intros Hc Hd Hs. apply strings_wf; [apply (bool_decide_unpack _); by vm_compute|].
  pose proof (header_wf f Hc). pose proof (frame_payload_wf _ s Hd Hs).
  repeat (apply List.Forall_cons; [by split|]). constructor.
Qed.

(** A frame that is written arrives: the reader returns it with the members of
    its data in canonical order; writing it again gives the same bytes, and the
    bytes its signature is about have not changed. *)
Theorem frame_transport f b :
  json_wf (payload_data f) → serialize_frame f = Ok b →
  parse_frame b = Ok (canonical_frame f) ∧
  serialize_frame (canonical_frame f) = Ok b ∧
  signing_payload_bytes (canonical_frame f) = signing_payload_bytes f.
Proof.
  intros Hd Hb. split; [by apply frame_read_back|].
  pose proof Hb as Hb'. unfold serialize_frame in Hb'.
  apply bind_ok_iff in Hb' as ([] & Hc & Hb'). apply bind_ok_iff in Hb' as (s & Hs & _).
  assert (check_frame (canonical_frame f) = Ok ()) as Hc' by done.
  assert (payload_schema (payload (canonical_frame f)) = Ok s) as Hs' by done.
  pose proof (canonical_data_wf f Hd) as Hd'. split.
  - rewrite <- Hb. unfold serialize_frame. rewrite Hc, Hc', Hs, Hs', !bind_Ok. unfold jcs.
    by rewrite (proj2 (canonical_bytes_same _ _ (frame_wf _ s Hc' Hd' Hs') (frame_wf _ s Hc Hd Hs))
                  (canonical_frame_same f s Hd)).
  - unfold signing_payload_bytes. rewrite Hs, Hs', !bind_Ok. unfold jcs.
    by rewrite (proj2 (canonical_bytes_same _ _ (signing_wf _ s Hc' Hd' Hs') (signing_wf _ s Hc Hd Hs))
                  (canonical_signing_same f s Hd)).
Qed.


End transport.

(** ** What the reader accepts *)

Section accepted.
Context `{Sha256}.
Implicit Types (f : FederationFrame).

Lemma check_version_ok j v : check_version j = Ok v → v = FRAME_ENVELOPE_VERSION.
Proof.
  destruct j; try done. cbn. intros Hv. apply bind_ok_iff in Hv as (? & E%raise_if_ok & <-%Ok_inj).
  by propify.
Qed.

Lemma parse_optional_ok wire k e check v :
  parse_optional wire k e check = Ok v → check_optional check v = Ok ().
Proof.
  unfold parse_optional. intros Hv.
  destruct (dict_get wire k) as [[]|]; try (by injection Hv as <-);
    apply bind_ok_iff in Hv as (? & _ & Hv); by apply bind_ok_iff in Hv as ([] & Hs & <-%Ok_inj).
Qed.

Lemma parse_payload_ok wire p : parse_payload wire = Ok p → ∃ s, payload_schema p = Ok s.
Proof.
  unfold parse_payload. intros Hp. apply bind_ok_iff in Hp as (obj & _ & Hp).
  apply bind_ok_iff in Hp as (fields & _ & Hp). destruct fields as [|? [|[] [|? []]]]; try done.
  do 4 apply bind_ok_iff in Hp as (? & _ & Hp). unfold new_payload in Hp. unfold payload_schema.
  destruct (dict_get _KIND_TO_SCHEMA _) as [t|] eqn:E; [|done]. apply Ok_inj in Hp as <-. exists t. cbn [kind]. by rewrite E.
Qed.

Lemma parse_header_ok wire h :
  parse_header wire = Ok h →
  schema h = FRAME_ENVELOPE_SCHEMA ∧ version h = FRAME_ENVELOPE_VERSION ∧
  _validate_timestamp_shape (JStr (ts_utc h)) = Ok (ts_utc h) ∧
  _validate_frame_id_shape (JStr (frame_id h)) = Ok (frame_id h) ∧
  _validate_runtime_id (u "source_runtime") (JStr (source_runtime h)) = Ok (source_runtime h) ∧
  _validate_runtime_id (u "target_runtime") (JStr (target_runtime h)) = Ok (target_runtime h).
Proof.
  unfold parse_header. intros Hh. apply bind_ok_iff in Hh as (obj & _ & Hh).
  apply bind_ok_iff in Hh as (fields & _ & Hh).
  destruct fields as [|f1 [|f2 [|f3 [|f4 [|f5 [|f6 [|]]]]]]]; try done.
  apply bind_ok_iff in Hh as (? & _ & Hh). apply bind_ok_iff in Hh as (v & Hv%check_version_ok & Hh).
  apply bind_ok_iff in Hh as (ts & Ht%timestamp_text & Hh). apply bind_ok_iff in Hh as (i & Hi%frame_id_text & Hh).
  apply bind_ok_iff in Hh as (sr & Hs%runtime_text & Hh). apply bind_ok_iff in Hh as (tr & Hr%runtime_text & Hh).
  apply Ok_inj in Hh as <-. by split_and!.
Qed.

(** The checks of the reader are those of the writer: an accepted frame is
    written again unless its canonical text does not exist or is too long. *)
Theorem accepted_is_writable b f :
  parse_frame b = Ok f →
  check_frame f = Ok () ∧ ∃ s, payload_schema (payload f) = Ok s ∧
    serialize_frame f =
      (canonical ← jcs (frame_json f s);
       raise_if (MAX_FRAME_JCS_BYTES <? Z.of_nat (length canonical)) FrameTooLarge;;
       Ok canonical).
Proof.
  unfold parse_frame. intros Hf. do 4 apply bind_ok_iff in Hf as (? & _ & Hf).
  apply bind_ok_iff in Hf as (h & (Hs & Hv & Ht & Hi & Hr & Hg)%parse_header_ok & Hf).
  apply bind_ok_iff in Hf as (a & Ha%parse_optional_ok & Hf).
  apply bind_ok_iff in Hf as (sig & Hsig%parse_optional_ok & Hf).
  apply bind_ok_iff in Hf as (p & [t Hp]%parse_payload_ok & <-%Ok_inj).
  assert (check_frame (MkFrame h p a sig) = Ok ()) as Hc.
  { unfold check_frame. cbn [header payload anchor_ref signature]. unfold str_eqb.
    rewrite bool_decide_true, Hv, Ht, Hi, Hr, Hg, Ha, Hsig by done. done. }
  split; [done|]. exists t. split; [done|]. unfold serialize_frame. rewrite Hc, bind_Ok. cbn [payload].
  by rewrite Hp, bind_Ok.
Qed.

(** A derived identifier has the shape the checks ask for. *)
Lemma frame_id_ok seed : _validate_frame_id_shape (JStr (compute_frame_id seed)) = Ok (compute_frame_id seed).
Proof.
  unfold _validate_frame_id_shape, check_digest_text, compute_frame_id. cbv zeta. cbn [as_text]. rewrite bind_Ok.
  rewrite startswith_app, drop_app_length, length_hex, sha256_length, hex_lower. done.
Qed.
End accepted.

(** ** Concrete frames *)

Module FrameExample.

Definition digest : str := replicate 64 97.
Definition hd : FrameHeader :=
  MkHeader (FRAME_ID_PREFIX ++ digest) FRAME_ENVELOPE_SCHEMA (u "org/a") (u "wakir-runtime")
    (u "2026-01-02T03:04:05Z") 1.
Definition frame : FederationFrame :=
  MkFrame hd (MkPayload _PAYLOAD_KIND_TASK_OUTPUT [(u "b", JInt 1); (u "a", JList [JNull])])
    None (Some (u "0a")).
Definition frame_bytes : bytes := Eval vm_compute in ok_or [] (serialize_frame frame).
Definition signing_bytes : bytes := Eval vm_compute in ok_or [] (signing_payload_bytes frame).

Lemma frame_data_wf : json_wf (payload_data frame).
Proof. split; [apply (bool_decide_unpack _); by vm_compute|]. cbn. repeat split; by vm_compute. Qed.

Lemma frame_transport_witness :
  parse_frame frame_bytes = Ok (canonical_frame frame) ∧
  serialize_frame (canonical_frame frame) = Ok frame_bytes ∧
  signing_payload_bytes (canonical_frame frame) = signing_payload_bytes frame.
Proof. apply (frame_transport frame frame_bytes); [exact frame_data_wf|by vm_compute]. Defined.

(** The same frame with its members in canonical order and an anchor. *)
Definition anchored : FederationFrame :=
  MkFrame hd (payload (canonical_frame frame)) (Some (ANCHOR_REF_PREFIX ++ digest)) None.
Definition anchored_signing : bytes := Eval vm_compute in ok_or [] (signing_payload_bytes anchored).

(** Another frame: one member of its data differs. *)
Definition other : FederationFrame :=
  MkFrame hd (MkPayload _PAYLOAD_KIND_TASK_OUTPUT [(u "b", JInt 2); (u "a", JList [JNull])])
    None (Some (u "0a")).
Definition other_signing : bytes := Eval vm_compute in ok_or [] (signing_payload_bytes other).

Example anchored_same : signing_bytes = anchored_signing ∧ signing_bytes ≠ other_signing.
Proof. by vm_compute. Qed.



Lemma accepted_is_writable_witness :
  check_frame (canonical_frame frame) = Ok () ∧
  ∃ s, payload_schema (payload (canonical_frame frame)) = Ok s ∧
    serialize_frame (canonical_frame frame) =
      (canonical ← jcs (frame_json (canonical_frame frame) s);
       raise_if (MAX_FRAME_JCS_BYTES <? Z.of_nat (length canonical)) FrameTooLarge;;
       Ok canonical).
Proof. apply (accepted_is_writable frame_bytes). by vm_compute. Defined.

Definition text_of_frame (kind_text extra : str) : bytes :=
  default [] (utf8_encode (u "{" ++ extra ++ uq "'header':{'frame_id':'" ++ frame_id hd ++
    uq "','schema':'wakir.federation.frame/1','source_runtime':'a','target_runtime':'b'," ++
    uq "'ts_utc':'2026-99-99T99:99:99Z','version':1},'payload':{'data':{},'kind':" ++ kind_text ++
    uq ",'schema':'wakir.agent.task-output/1'}}")).

(** The reader accepts texts that are not canonical and forgets members it does
    not know, so writing the frame again gives other bytes.  The times of a
    header are checked for their shape only. *)
Example other_bytes :
  let b := text_of_frame (uq "'task-output'") (uq "'priority':1, ") in
  ∃ f c, parse_frame b = Ok f ∧ serialize_frame f = Ok c ∧ c ≠ b.
Proof.
  eexists _, _. split; [vm_compute; reflexivity|]. split; [vm_compute; reflexivity|].
  apply (bool_decide_unpack _). by vm_compute.
Qed.

(** A kind that is a list raises TypeError instead of ParseError. *)
Example kind_is_list : parse_frame (text_of_frame (u "[]") []) = Err UnhashableKind.
Proof. vm_compute. reflexivity. Qed.
Example kind_is_number : parse_frame (text_of_frame (u "1") []) = Err UnknownPayloadKind.
Proof. vm_compute. reflexivity. Qed.
End FrameExample.
