(* ===== verification/PolicyKv.v ===== *)
(** * Capability policies on a bucket
      ([wirelang/schemas/capability_policy_nats_kv_backend.py], the backend)

    A policy of [Policy] and its bookkeeping are one entry of a key-value
    bucket, under a key made of the issuer and the policy's identifier.  The
    bucket is [Ledger]'s, with an unconditional write and a delete.  A pinned
    write is split where it awaits: the read of the live entry and the checks
    ([put_plan]), and the update.

    The theorems: keys and envelopes read back; under every interleaving of
    pinned writers a revocation is final; what an operation on the bucket leaves
    to be read. *)

From S2P Require Import Prelude PyStr PyJson PyJsonLoads PyDyn PyEqual PyTime PyIso Jcs Ledger PinnedKv MarkerKv.
From S2P Require Policy.
From Stdlib Require Import ZArith Lia.

Open Scope Z_scope.

Notation CapabilityPolicy := Policy.CapabilityPolicy.

Inductive policy_kv_error : Type :=
| PairValueError                       (* ValueError of the key helpers *)
| CapabilityPolicyEnvelopeError
| CapabilityPolicyValidationError
| CapabilityPolicyConflictError (key : str) (expected : Z)
| CapabilityPolicyRevocationConflict (key : str) (existing : datetime) (proposed : option datetime)
| RevisionValueError                   (* ValueError: a negative revision *)
| TimeValueError                       (* ValueError: a time that is naive or not a time *)
| TimeOverflowError                    (* OverflowError of astimezone() *)
| PolicyTypeError                      (* TypeError: an aware and a naive time compared *)
| EnvelopeUnicodeError                 (* UnicodeEncodeError *)
| PolicyClientError.                   (* an exception of the client *)

#[export] Instance policy_kv_error_eq_dec : EqDecision policy_kv_error.
Proof. solve_decision. Defined.

(** The time zone of the host: the instant that a time without a zone means, or
    [None] where the conversion raises. *)
Class LocalZone := local_utc : Z → option Z.

(** What the policies ask of a client besides [get] and [update]. *)
Class KvPuts (S : Type) := {
  kv_put : S → str → bytes → S * Z;
  kv_delete : S → str → S;
}.

(** Revisions grow across the whole bucket: every one that was handed out is at
    most the top, and an update takes one above it. *)
Class KvRevisionLaws (S : Type) `{KvBucket S} (kv_top : S → Z) : Prop := {
  kv_top_entry s k v r : kv_get s k = Some (KvObj v (Some r)) → r ≤ kv_top s;
  kv_top_update s k v last s' r : kv_update s k v last = Some (s', r) → kv_top s < r ∧ r ≤ kv_top s';
}.

(** An unconditional write stores the value under some revision, a delete
    removes the key, neither touches another key; revisions are not negative. *)
Class KvPutLaws (S : Type) `{KvBucket S} `{KvPuts S} : Prop := {
  kv_put_get s k v s' r k' :
    kv_put s k v = (s', r) →
    kv_get s' k' = if decide (k' = k) then Some (KvObj (Some (VBytes v)) (Some r)) else kv_get s k';
  kv_delete_get s k k' : kv_get (kv_delete s k) k' = if decide (k' = k) then None else kv_get s k';
  kv_revision_nonneg s k v r : kv_get s k = Some (KvObj v (Some r)) → 0 ≤ r;
}.

Record UnrevokeAuditMarker := MkUnrevokeMarker {
  unrevoke_reason : option str;
  previous_revoked_at : datetime;
  previous_revocation_reason : option str;
}.

Record CapabilityPolicyRecord := MkPolicyRecord {
  policy : CapabilityPolicy;
  policy_id : str;
  registered_at : datetime;
  registered_by_publisher : str;
  unrevoke_audit_marker : option UnrevokeAuditMarker;
}.

#[export] Existing Instance Policy.policy_eq_dec.
#[export] Instance unrevoke_marker_eq_dec : EqDecision UnrevokeAuditMarker.
Proof. solve_decision. Defined.
#[export] Instance policy_record_eq_dec : EqDecision CapabilityPolicyRecord.
Proof. solve_decision. Defined.

Module PolicyKv.
Import Ledger.Ledger.

Definition BUCKET_NAME : str := u "wakir-capability-policies".
Definition VALUE_SCHEMA : str := u "wakir.wirelang.capability-policy-entry/1".
Definition _KEY_PREFIX : str := u "capability-policies/".

(** [^[A-Za-z0-9][A-Za-z0-9_.-]*$] and, with a colon, [Ledger]'s names *)
Definition policy_char (c : Z) : bool := is_alnum c || one_of (u "_.-") c.
Definition policy_full (s : str) : bool :=
  match s with c :: s' => is_alnum c && forallb policy_char s' | [] => false end.
Definition _POLICY_ID_RE : str → bool := re_dollar policy_full.
Definition _REGISTERED_BY_RE : str → bool := re_dollar name_full.

(** ** Keys *)

Definition check_component (pattern : str → bool) (component : str) : result policy_kv_error () :=
  raise_if (str_empty component) PairValueError;;
  raise_if (bool_decide (47 ∈ component)) PairValueError;;
  raise_if (negb (pattern component)) PairValueError.

Definition policy_key (registered_by policy_id : str) : str :=
  _KEY_PREFIX ++ registered_by ++ u "/" ++ policy_id.

Definition key_for_policy_pair (registered_by policy_id : str) : result policy_kv_error str :=
  check_component _REGISTERED_BY_RE registered_by;;
  check_component _POLICY_ID_RE policy_id;;
  Ok (policy_key registered_by policy_id).

Definition pair_for_key (key : str) : result policy_kv_error (str * str) :=
  raise_if (negb (startswith key _KEY_PREFIX)) PairValueError;;
  match split_on 47 (drop (length _KEY_PREFIX) key) with
  | [registered_by; policy_id] =>
      raise_if (str_empty registered_by || str_empty policy_id) PairValueError;;
      Ok (registered_by, policy_id)
  | _ => Err PairValueError
  end.

(** ** Records *)

Definition new_marker (m : UnrevokeAuditMarker) : result policy_kv_error UnrevokeAuditMarker :=
  raise_if (is_naive (previous_revoked_at m)) CapabilityPolicyValidationError;;
  Ok m.

(** The checks of [__post_init__] that the types leave open. *)
Definition new_record (r : CapabilityPolicyRecord) : result policy_kv_error CapabilityPolicyRecord :=
  raise_if (str_empty (policy_id r)) CapabilityPolicyValidationError;;
  raise_if (negb (_POLICY_ID_RE (policy_id r))) CapabilityPolicyValidationError;;
  raise_if (is_naive (registered_at r)) CapabilityPolicyValidationError;;
  raise_if (str_empty (registered_by_publisher r)) CapabilityPolicyValidationError;;
  raise_if (bool_decide (is_Some (unrevoke_audit_marker r)) &&
            bool_decide (is_Some (Policy.revoked_at (policy r)))) CapabilityPolicyValidationError;;
  Ok r.

Definition record_key (r : CapabilityPolicyRecord) : result policy_kv_error str :=
  key_for_policy_pair (Policy.registered_by (policy r)) (policy_id r).

(** ** Times *)

(** [astimezone(timezone.utc)] *)
Definition to_utc `{LocalZone} (d : datetime) : result policy_kv_error Z :=
  us ← match d with Aware us => Ok us | Naive us => of_option TimeOverflowError (local_utc us) end;
  raise_if (negb (in_calendar us)) TimeOverflowError;;
  Ok us.

Definition utc_offset : str := u "+00:00".

Definition _dt_to_rfc3339 `{LocalZone} (d : datetime) : result policy_kv_error str :=
  raise_if (is_naive d) TimeValueError;;
  us ← to_utc d;
  let iso := isoformat_utc us in
  Ok (if endswith iso utc_offset then take (length iso - 6) iso ++ u "Z" else iso).

Definition _rfc3339_to_dt `{LocalZone} (value : json) : result policy_kv_error datetime :=
  match value with
  | JStr s =>
      let s := if endswith s (u "Z") then take (length s - 1) s ++ utc_offset else s in
      d ← of_option TimeValueError (fromisoformat s);
      us ← to_utc d;
      Ok (Aware us)
  | _ => Err TimeValueError
  end.

(** ** Envelopes *)

Definition text_json (s : option str) : json :=
  match s with Some s => JStr s | None => JNull end.

Section envelope.
Context `{LocalZone}.

Definition time_json (d : option datetime) : result policy_kv_error json :=
  match d with Some d => t ← _dt_to_rfc3339 d; Ok (JStr t) | None => Ok JNull end.

Definition marker_members (m : option UnrevokeAuditMarker) : result policy_kv_error dict :=
  match m with
  | None => Ok []
  | Some m =>
      t ← time_json (Some (previous_revoked_at m));
      Ok [(u "unrevoke_audit_marker",
           JObj [(u "unrevoke_reason", text_json (unrevoke_reason m));
                 (u "previous_revoked_at", t);
                 (u "previous_revocation_reason", text_json (previous_revocation_reason m))])]
  end.

Definition record_members (r : CapabilityPolicyRecord) (nb na rv at_ : json) : dict :=
  let p := policy r in
  [(u "schema", JStr VALUE_SCHEMA);
   (u "registered_by", JStr (Policy.registered_by p));
   (u "policy_id", JStr (policy_id r));
   (u "allowed_kids", JList (JStr <$> Policy.allowed_kids p));
   (u "allowed_triples", JList ((λ t : str * str, JList [JStr t.1; JStr t.2]) <$> Policy.allowed_triples p));
   (u "not_before", nb);
   (u "not_after", na);
   (u "disabled", JBool (Policy.disabled p));
   (u "note", text_json (Policy.note p));
   (u "revoked_at", rv);
   (u "revocation_reason", text_json (Policy.revocation_reason p));
   (u "registered_at", at_);
   (u "registered_by_publisher", JStr (registered_by_publisher r))].

Definition record_json (r : CapabilityPolicyRecord) : result policy_kv_error json :=
  let p := policy r in
  nb ← time_json (Policy.not_before p);
  na ← time_json (Policy.not_after p);
  rv ← time_json (Policy.revoked_at p);
  at_ ← time_json (Some (registered_at r));
  m ← marker_members (unrevoke_audit_marker r);
  Ok (JObj (record_members r nb na rv at_ ++ m)).

Definition _record_to_envelope (r : CapabilityPolicyRecord) : result policy_kv_error bytes :=
  payload ← record_json r;
  of_option EnvelopeUnicodeError (utf8_encode (json_dumps false true payload)).

(** ** Reading an envelope *)

Definition shape {A} (o : option A) : result policy_kv_error A := of_option CapabilityPolicyEnvelopeError o.

(** [except ValueError]: an OverflowError passes. *)
Definition time_of (j : json) : result policy_kv_error datetime :=
  map_err (λ e, match e with TimeValueError => CapabilityPolicyEnvelopeError | _ => e end)
    (_rfc3339_to_dt j).
Definition opt_time_of (j : json) : result policy_kv_error (option datetime) :=
  match j with JNull => Ok None | _ => t ← time_of j; Ok (Some t) end.

Definition text_of (j : json) : option str := match j with JStr s => Some s | _ => None end.
Definition opt_text_of (j : json) : option (option str) :=
  match j with JNull => Some None | JStr s => Some (Some s) | _ => None end.
Definition list_of (j : json) : option (list json) := match j with JList l => Some l | _ => None end.
Definition bool_of (j : json) : option bool := match j with JBool b => Some b | _ => None end.
Definition triple_of (j : json) : option (str * str) :=
  match j with JList [JStr a; JStr b] => Some (a, b) | _ => None end.

Definition field (d : dict) (k : str) : result policy_kv_error json := shape (dict_get d k).
Definition get_field (d : dict) (k : str) : json := default JNull (dict_get d k).

Definition decode_marker (j : json) : result policy_kv_error (option UnrevokeAuditMarker) :=
  match j with
  | JNull => Ok None
  | JObj m =>
      reason ← field m (u "unrevoke_reason");
      previous ← field m (u "previous_revoked_at");
      previous_reason ← field m (u "previous_revocation_reason");
      reason ← shape (opt_text_of reason);
      t ← (match previous with JNull => Err CapabilityPolicyEnvelopeError | _ => time_of previous end);
      previous_reason ← shape (opt_text_of previous_reason);
      marker ← map_err (λ _, CapabilityPolicyEnvelopeError)
                 (new_marker (MkUnrevokeMarker reason t previous_reason));
      Ok (Some marker)
  | _ => Err CapabilityPolicyEnvelopeError
  end.

(** [except RegisteredByCapabilityError] *)
Definition decode_policy (p : CapabilityPolicy) : result policy_kv_error CapabilityPolicy :=
  map_err (λ e, match e with
                | Policy.RegisteredByCapabilityError => CapabilityPolicyEnvelopeError
                | Policy.PolicyDatetimeTypeError => PolicyTypeError
                end) (Policy.Policy.new_policy p).

Definition _envelope_to_record (blob : bytes) : result policy_kv_error CapabilityPolicyRecord :=
  text ← shape (utf8_decode blob);
  payload ← shape (json_loads text);
  match payload with
  | JObj d =>
      raise_if (negb (py_eq (get_field d (u "schema")) (JStr VALUE_SCHEMA))) CapabilityPolicyEnvelopeError;;
      issuer ← field d (u "registered_by");
      pid ← field d (u "policy_id");
      kids ← field d (u "allowed_kids");
      triples ← field d (u "allowed_triples");
      disabled ← field d (u "disabled");
      registered ← field d (u "registered_at");
      publisher ← field d (u "registered_by_publisher");
      kids ← shape (list_of kids);
      triples ← shape (list_of triples);
      triples ← mapM (λ t, shape (triple_of t)) triples;
      not_before ← opt_time_of (get_field d (u "not_before"));
      not_after ← opt_time_of (get_field d (u "not_after"));
      registered ← time_of registered;
      disabled ← shape (bool_of disabled);
      note ← shape (opt_text_of (get_field d (u "note")));
      revoked ← opt_time_of (get_field d (u "revoked_at"));
      reason ← shape (opt_text_of (get_field d (u "revocation_reason")));
      marker ← decode_marker (get_field d (u "unrevoke_audit_marker"));
      issuer ← shape (text_of issuer);
      kids ← mapM (λ k, shape (text_of k)) kids;
      p ← decode_policy (Policy.MkPolicy issuer kids triples not_before not_after disabled note revoked reason);
      pid ← shape (text_of pid);
      publisher ← shape (text_of publisher);
      map_err (λ _, CapabilityPolicyEnvelopeError)
        (new_record (MkPolicyRecord p pid registered publisher marker))
  | _ => Err CapabilityPolicyEnvelopeError
  end.

Definition _coerce_value_bytes (kve : kv_entry) : result policy_kv_error bytes :=
  match kve with
  | KvRaw b => Ok b
  | KvObj None _ => Err CapabilityPolicyEnvelopeError
  | KvObj (Some (VBytes b)) _ => Ok b
  | KvObj (Some (VStr s)) _ => of_option EnvelopeUnicodeError (utf8_encode s)
  end.

Definition _coerce_revision_from_entry (kve : kv_entry) : Z :=
  match kve with KvObj _ (Some r) => r | _ => 0 end.

(** ** The backend *)

Section backend.
Context {S : Type} `{KvBucket S} `{KvKeys S} `{KvPuts S}.

Definition get_with_revision (s : S) (key : str)
    : result policy_kv_error (option (CapabilityPolicyRecord * Z)) :=
  if str_empty key then Ok None
  else match kv_get s key with
       | None => Ok None
       | Some kve =>
           blob ← _coerce_value_bytes kve;
           record ← _envelope_to_record blob;
           Ok (Some (record, _coerce_revision_from_entry kve))
       end.

Definition get (s : S) (key : str) : result policy_kv_error (option CapabilityPolicyRecord) :=
  if str_empty key then Ok None
  else match kv_get s key with
       | None => Ok None
       | Some kve =>
           blob ← _coerce_value_bytes kve;
           record ← _envelope_to_record blob;
           Ok (Some record)
       end.

Definition get_by_pair (s : S) (registered_by policy_id : str)
    : result policy_kv_error (option CapabilityPolicyRecord) :=
  match key_for_policy_pair registered_by policy_id with
  | Err _ => Ok None
  | Ok key => get s key
  end.

Definition get_with_revision_by_pair (s : S) (registered_by policy_id : str)
    : result policy_kv_error (option (CapabilityPolicyRecord * Z)) :=
  match key_for_policy_pair registered_by policy_id with
  | Err _ => Ok None
  | Ok key => get_with_revision s key
  end.

Definition put (s : S) (r : CapabilityPolicyRecord) : S * result policy_kv_error Z :=
  match key ← record_key r; blob ← _record_to_envelope r; Ok (key, blob) with
  | Err e => (s, Err e)
  | Ok (key, blob) => let '(s', rev) := kv_put s key blob in (s', Ok rev)
  end.

(** [!=] of two times *)
Definition revocation_guard (key : str) (existing : option CapabilityPolicyRecord)
    (r : CapabilityPolicyRecord) : result policy_kv_error () :=
  match existing with
  | Some x =>
      match Policy.revoked_at (policy x) with
      | Some live =>
          match Policy.revoked_at (policy r) with
          | None => Err (CapabilityPolicyRevocationConflict key live None)
          | Some t => raise_if (negb (dt_eqb t live)) (CapabilityPolicyRevocationConflict key live (Some t))
          end
      | None => Ok ()
      end
  | None => Ok ()
  end.

(** Everything up to the update. *)
Definition put_plan (s : S) (r : CapabilityPolicyRecord) (expected : Z)
    : result policy_kv_error (str * bytes) :=
  raise_if (expected <? 0) RevisionValueError;;
  key ← record_key r;
  existing ← get s key;
  revocation_guard key existing r;;
  blob ← _record_to_envelope r;
  Ok (key, blob).

Definition _kv_update_with_revision (s : S) (key : str) (blob : bytes) (expected : Z)
    : S * result policy_kv_error Z :=
  match kv_update s key blob expected with
  | Some (s', rev) => (s', Ok rev)
  | None => (s, Err (CapabilityPolicyConflictError key expected))
  end.

(** A call that no other write interrupts. *)
Definition put_with_revision (s : S) (r : CapabilityPolicyRecord) (expected : Z)
    : S * result policy_kv_error Z :=
  match put_plan s r expected with
  | Err e => (s, Err e)
  | Ok (key, blob) => _kv_update_with_revision s key blob expected
  end.

Definition delete (s : S) (key : str) : S * result policy_kv_error () :=
  if str_empty key then (s, Err PairValueError)
  else match kv_get s key with
       | None => (s, Ok ())
       | Some _ => (kv_delete s key, Ok ())
       end.

Definition list_keys (s : S) : result policy_kv_error (list str) := of_option PolicyClientError (kv_keys s).

(** The keys as listed and the entries as they were fetched. *)
Definition snapshot (keys : option (list str)) (fetch : str → result policy_kv_error (option CapabilityPolicyRecord))
    : result policy_kv_error (list CapabilityPolicyRecord) :=
  keys ← of_option PolicyClientError keys;
  records ← mapM fetch (py_sorted str_leb keys);
  Ok (omap id records).

Definition registry_of (records : list CapabilityPolicyRecord) : Policy.Policy.CapabilityPolicyRegistry :=
  foldl (λ reg r, Policy.Policy.add_policy reg (policy r)) [] records.

Definition snapshot_registry (keys : option (list str))
    (fetch : str → result policy_kv_error (option CapabilityPolicyRecord))
    : result policy_kv_error Policy.Policy.CapabilityPolicyRegistry :=
  records ← snapshot keys fetch;
  Ok (registry_of records).
End backend.
End envelope.

(** ** Keys read back *)

Section keys.

Lemma policy_full_name s : policy_full s = true → name_full s = true.
Proof.
  destruct s as [|c s]; [done|]. cbn. rewrite !andb_true_iff, !forallb_forall. intros [Hc Hs].
  split; [done|]. intros x Hx%Hs. revert Hx. unfold policy_char, name_char, one_of.
  rewrite !orb_true_iff, !bool_decide_eq_true. ulit. rewrite !elem_of_cons, elem_of_nil. naive_solver.
Qed.

Lemma policy_id_name s : _POLICY_ID_RE s = true → name_ok s.
Proof.
  unfold _POLICY_ID_RE, name_ok, _KEY_COMPONENT_RE. rewrite !re_dollar_spec.
  intros [Hs|(t & -> & Hs)]; [left|right; exists t]; by eauto using policy_full_name.
Qed.

Lemma component_ok pattern s :
  (pattern s = true → name_ok s) → check_component pattern s = Ok () ↔ pattern s = true.
Proof.
  intros Hn. unfold check_component. split.
  - intros Hs. run_ok. by apply negb_false_iff.
  - intros Hs. pose proof (Hn Hs) as Hname. rewrite (name_nonempty _ Hname), Hs.
    by rewrite bool_decide_false by (by apply name_no_slash).
Qed.

Lemma policy_key_ok r p k :
  key_for_policy_pair r p = Ok k ↔ name_ok r ∧ _POLICY_ID_RE p = true ∧ k = policy_key r p.
Proof.
  unfold key_for_policy_pair. split.
  - intros Hk. apply bind_ok_iff in Hk as ([] & Hr%component_ok & Hk); [|done].
    apply bind_ok_iff in Hk as ([] & Hp%component_ok & <-%Ok_inj); [done|apply policy_id_name].
  - intros (Hr & Hp & ->). rewrite (proj2 (component_ok _ _ (λ x, x))) by done.
    by rewrite bind_Ok, (proj2 (component_ok _ _ (policy_id_name p))).
Qed.

Lemma pair_read_back r p k : key_for_policy_pair r p = Ok k → pair_for_key k = Ok (r, p).
Proof.
  intros (Hr & Hp%policy_id_name & ->)%policy_key_ok. unfold pair_for_key, policy_key.
  rewrite startswith_app, drop_app_length. change (u "/") with [47]. cbn [negb raise_if mbind result_bind app].
  rewrite split_on_app by (by apply name_no_slash). rewrite split_on_nil by (by apply name_no_slash).
  by rewrite (name_nonempty _ Hr), (name_nonempty _ Hp).
Qed.

Lemma policy_key_inj r p r' p' k :
  key_for_policy_pair r p = Ok k → key_for_policy_pair r' p' = Ok k → r = r' ∧ p = p'.
Proof. intros H1%pair_read_back H2%pair_read_back. rewrite H1 in H2. by injection H2 as -> ->. Qed.
End keys.

(** ** Envelopes read back *)

Definition stamp_ok (d : datetime) : Prop := ∃ us, d = Aware us ∧ in_datetime_range us.
Definition opt_ok {A} (P : A → Prop) (o : option A) : Prop := match o with Some x => P x | None => True end.

(** What the constructors check, encodable texts, and times with a zone. *)
Record record_ok (r : CapabilityPolicyRecord) : Prop := {
  ok_policy : Policy.Policy.new_policy (policy r) = Ok (policy r);
  ok_record : new_record r = Ok r;
  ok_key : is_ok (record_key r) = true;
  ok_kids : Forall okstr (Policy.allowed_kids (policy r));
  ok_triples : Forall (λ t, okstr t.1 ∧ okstr t.2) (Policy.allowed_triples (policy r));
  ok_not_before : opt_ok stamp_ok (Policy.not_before (policy r));
  ok_not_after : opt_ok stamp_ok (Policy.not_after (policy r));
  ok_revoked : opt_ok stamp_ok (Policy.revoked_at (policy r));
  ok_note : opt_ok okstr (Policy.note (policy r));
  ok_reason : opt_ok okstr (Policy.revocation_reason (policy r));
  ok_registered : stamp_ok (registered_at r);
  ok_publisher : okstr (registered_by_publisher r);
  ok_marker : opt_ok (λ m, stamp_ok (previous_revoked_at m) ∧ opt_ok okstr (unrevoke_reason m) ∧
                           opt_ok okstr (previous_revocation_reason m)) (unrevoke_audit_marker r);
}.

Section envelopes.
Context `{LocalZone}.

Definition ends_utc (s : str) : Prop := ∃ t, s = t ++ utc_offset.
Lemma ends_app a s : ends_utc s → ends_utc (a ++ s).
Proof. intros [t ->]. exists (a ++ t). apply app_assoc. Qed.
Lemma ends_cons c s : ends_utc s → ends_utc (c :: s).
Proof. apply (ends_app [c]). Qed.

Lemma iso_ends us : ends_utc (isoformat_utc us).
Proof.
  unfold isoformat_utc, iso_text. destruct (civil_from_days _) as [[y m] d].
  repeat match goal with
         | |- ends_utc (_ ++ _) => apply ends_app
         | |- ends_utc (_ :: _) => apply ends_cons
         end.
  by exists [].
Qed.

Lemma endswith_suffix t e : endswith (t ++ e) e = true.
Proof.
  unfold endswith. apply bool_decide_eq_true. rewrite length_app.
  replace (length t + length e - length e)%nat with (length t) by lia. apply drop_app_length.
Qed.

Lemma take_before (t e : str) : take (length (t ++ e) - length e) (t ++ e) = t.
Proof.
  rewrite length_app. replace (length t + length e - length e)%nat with (length t) by lia.
  apply take_app_length.
Qed.

Lemma stamp_reads d : stamp_ok d →
  ∃ t, _dt_to_rfc3339 d = Ok t ∧ okstr t ∧ _rfc3339_to_dt (JStr t) = Ok d.
Proof.
  intros (us & -> & Hus). pose proof (proj2 (in_calendar_iff us) Hus) as Hc.
  destruct (iso_ends us) as [t Et]. exists (t ++ u "Z").
  assert (_dt_to_rfc3339 (Aware us) = Ok (t ++ u "Z")) as Ed.
  { unfold _dt_to_rfc3339, to_utc. cbn [is_naive]. rewrite raise_if_false, !bind_Ok, Hc. cbn [negb].
    rewrite raise_if_false, !bind_Ok, Et. cbv zeta. rewrite endswith_suffix.
    change 6%nat with (length utc_offset). by rewrite take_before. }
  split_and!; [done|..].
  - pose proof (ascii_isoformat us) as Ha. rewrite Et in Ha. apply Forall_app in Ha as [Ha _].
    apply okstr_Forall, Forall_app. split; [|by repeat constructor].
    eapply Forall_impl; [exact Ha|]. intros c Hx. simpl in Hx. apply okchar_range. lia.
  - unfold _rfc3339_to_dt. cbv zeta. rewrite endswith_suffix. change 1%nat with (length (u "Z")).
    rewrite take_before, <- Et.
    rewrite fromisoformat_isoformat by done. cbn [of_option]. rewrite bind_Ok. unfold to_utc.
    by rewrite bind_Ok, Hc.
Qed.

Lemma opt_stamp_reads d : opt_ok stamp_ok d →
  ∃ j, time_json d = Ok j ∧ json_sort j = j ∧ json_wf j ∧ opt_time_of j = Ok d.
Proof.
  destruct d as [d|]; [|by exists JNull]. intros (t & Et & Hok & Er)%stamp_reads.
  exists (JStr t). cbn [time_json]. rewrite Et, bind_Ok. split_and!; [done..|].
  cbn [opt_time_of]. unfold time_of. by rewrite Er.
Qed.

Lemma opt_text_reads s : opt_ok okstr s →
  json_sort (text_json s) = text_json s ∧ json_wf (text_json s) ∧ opt_text_of (text_json s) = Some s.
Proof. by destruct s. Qed.

Lemma sort_texts l : json_sort (JList (JStr <$> l)) = JList (JStr <$> l).
Proof. cbn [json_sort]. f_equal. induction l as [|s l IH]; [done|]. csimpl. by rewrite IH. Qed.

Definition triples_json (l : list (str * str)) : json :=
  JList ((λ t : str * str, JList [JStr t.1; JStr t.2]) <$> l).

Lemma sort_triples l : json_sort (triples_json l) = triples_json l.
Proof. unfold triples_json. cbn [json_sort]. f_equal. induction l as [|s l IH]; [done|]. csimpl. by rewrite IH. Qed.

Lemma texts_read l : mapM (λ k, shape (text_of k)) (JStr <$> l) = Ok l.
Proof. apply mapM_ok. apply Forall2_fmap_l, Forall_Forall2_diag, Forall_true. done. Qed.

Lemma triples_read l :
  mapM (λ t, shape (triple_of t)) ((λ t : str * str, JList [JStr t.1; JStr t.2]) <$> l) = Ok l.
Proof. apply mapM_ok. apply Forall2_fmap_l, Forall_Forall2_diag, Forall_true. by intros []. Qed.

(** The members of an object as they are written. *)
Definition written (d : dict) : dict := py_sorted key_leb (List.map (λ kv, (kv.1, json_sort kv.2)) d).

Lemma written_field d k v :
  NoDup d.*1 → dict_get d k = Some v → field (written d) k = Ok (json_sort v).
Proof. intros Hd Hv. unfold field, written. by rewrite dict_get_sorted, Hv. Qed.

Lemma written_get_field d k :
  NoDup d.*1 → get_field (written d) k = json_sort (get_field d k).
Proof. intros Hd. unfold get_field, written. rewrite dict_get_sorted by done. by destruct (dict_get d k). Qed.

Lemma marker_reads m :
  opt_ok (λ m, stamp_ok (previous_revoked_at m) ∧ opt_ok okstr (unrevoke_reason m) ∧
               opt_ok okstr (previous_revocation_reason m)) m →
  ∃ d, marker_members m = Ok d ∧
    (m = None ∧ d = [] ∨ ∃ j, d = [(u "unrevoke_audit_marker", j)]) ∧
    Forall (λ kv : str * json, okstr kv.1 ∧ json_wf kv.2) d ∧
    decode_marker (json_sort (get_field d (u "unrevoke_audit_marker"))) = Ok m.
Proof.
  destruct m as [m|]; [|intros _; exists []; split_and!; [done|by left|constructor|done]].
  intros (Ht & Hr & Hp). destruct (stamp_reads _ Ht) as (t & Et & Hok & Er).
  cbn [marker_members time_json]. rewrite Et, !bind_Ok. eexists. split; [reflexivity|].
  destruct (opt_text_reads _ Hr) as (S1 & W1 & R1), (opt_text_reads _ Hp) as (S2 & W2 & R2).
  split_and!; [right; eauto| |].
  - constructor; [|constructor]. split; [done|]. apply json_wf_obj.
    split; [apply (bool_decide_unpack _); by vm_compute|].
    repeat (apply List.Forall_cons; [by split|]). constructor.
  - match goal with |- context [get_field [(?k, ?j)] ?k] => change (get_field [(k, j)] k) with j end.
    change (json_sort (JObj ?d)) with (JObj (written d)). cbn [decode_marker].
    match goal with |- context [written ?d] => set (ds := d) end.
    assert (NoDup ds.*1) as Hnd by (apply (bool_decide_unpack _); by vm_compute).
    rewrite (written_field ds (u "unrevoke_reason") (text_json (unrevoke_reason m)) Hnd eq_refl), bind_Ok.
    rewrite (written_field ds (u "previous_revoked_at") (JStr t) Hnd eq_refl), bind_Ok.
    rewrite (written_field ds (u "previous_revocation_reason") (text_json (previous_revocation_reason m)) Hnd eq_refl), bind_Ok.
    rewrite S1, S2, R1, R2. cbn [shape of_option json_sort]. rewrite !bind_Ok. unfold time_of. rewrite Er.
    cbn [map_err]. rewrite !bind_Ok. unfold new_marker. destruct Ht as (us & Eus & _). cbn [previous_revoked_at].
    rewrite Eus. cbn [is_naive]. rewrite raise_if_false, bind_Ok. cbn [map_err]. rewrite bind_Ok.
    destruct m; cbn in *; congruence.
Qed.
Lemma envelope_written j :
  json_wf j → ∃ b t, utf8_encode (json_dumps false true j) = Some b ∧
    utf8_decode b = Some t ∧ json_loads t = Some (json_sort j).
Proof.
  intros Hj. assert (is_Some (utf8_encode (json_dumps false true j))) as [b Eb].
  { apply utf8_encode_encodable, okstr_Forall, print_okchars, json_sort_wf, Hj. }
  exists b, (json_dumps false true j). split_and!; [done|by apply utf8_decode_encode|].
  by rewrite json_loads_dumps.
Qed.

(** The members of a record, whatever the texts of its times. *)
Lemma record_members_wf r nb na rv at_ md :
  record_ok r → json_wf nb → json_wf na → json_wf rv → json_wf at_ →
  (md = [] ∨ ∃ j, md = [(u "unrevoke_audit_marker", j)]) →
  Forall (λ kv : str * json, okstr kv.1 ∧ json_wf kv.2) md →
  json_wf (JObj (record_members r nb na rv at_ ++ md)).
Proof.
  intros [Hp Hr Hk Hkids Htr _ _ _ Hnote Hreason _ Hpub _] Wnb Wna Wrv Wat Hmd Wmd.
  destruct (record_key r) as [k|] eqn:Ek; [|done]. unfold record_key in Ek.
  apply policy_key_ok in Ek as (Hi%name_okstr & Hpid%policy_id_name%name_okstr & _).
  destruct (opt_text_reads _ Hnote) as (_ & Wn & _), (opt_text_reads _ Hreason) as (_ & Ws & _).
  apply json_wf_obj. split.
  - destruct Hmd as [->|[j ->]]; apply (bool_decide_unpack _); by vm_compute.
  - apply Forall_app. split; [|done]. unfold record_members.
    repeat (apply List.Forall_cons; [split; [done|]|]); try done.
    + apply json_wf_list, Forall_fmap. exact Hkids.
    + apply json_wf_list, Forall_fmap. eapply Forall_impl; [exact Htr|]. intros [a b] [Ha Hb].
      apply json_wf_list. by repeat constructor.
Qed.

(** An envelope is read as the record it was written for. *)
Theorem record_roundtrip r :
  record_ok r → ∃ b, _record_to_envelope r = Ok b ∧ _envelope_to_record b = Ok r.
Proof.
  intros Hok. pose proof Hok as [Hp Hr Hk Hkids Htr Hnb Hna Hrv Hnote Hreason Hreg Hpub Hm].
  destruct (opt_stamp_reads _ Hnb) as (nb & Enb & Snb & Wnb & Rnb).
  destruct (opt_stamp_reads _ Hna) as (na & Ena & Sna & Wna & Rna).
  destruct (opt_stamp_reads _ Hrv) as (rv & Erv & Srv & Wrv & Rrv).
  destruct (stamp_reads _ Hreg) as (at_ & Eat & Wat & Rat).
  destruct (marker_reads _ Hm) as (md & Emd & Hmd & Wmd & Rmd).
  destruct (opt_text_reads _ Hnote) as (Sn & _ & Rn), (opt_text_reads _ Hreason) as (Ss & _ & Rs).
  assert (json_wf (JObj (record_members r nb na rv (JStr at_) ++ md))) as Hwf.
  { apply record_members_wf; try done. destruct Hmd as [[_ ->]|]; [by left|by right]. }
  pose proof (proj1 (proj1 (json_wf_obj _) Hwf)) as Hnd.
  destruct (envelope_written _ Hwf) as (b & t & Eb & Et & El). exists b. split.
  - unfold _record_to_envelope, record_json. rewrite Enb, Ena, Erv. cbn [time_json].
    by rewrite Eat, !bind_Ok, Emd, !bind_Ok, Eb.
  - unfold _envelope_to_record. rewrite Et. cbn [shape of_option]. rewrite bind_Ok, El. cbn [shape of_option].
    rewrite bind_Ok.
    change (json_sort (JObj ?d)) with (JObj (written d)). set (ms := record_members r _ _ _ _ ++ md) in *.
    cbv beta iota.
    rewrite (written_get_field ms (u "schema") Hnd). change (json_sort (get_field ms (u "schema"))) with (JStr VALUE_SCHEMA).
    rewrite (proj2 (py_eq_str VALUE_SCHEMA _) eq_refl). cbn [negb]. rewrite raise_if_false, bind_Ok.
    rewrite (written_field ms (u "registered_by") _ Hnd eq_refl), bind_Ok.
    rewrite (written_field ms (u "policy_id") _ Hnd eq_refl), bind_Ok.
    rewrite (written_field ms (u "allowed_kids") _ Hnd eq_refl), bind_Ok, sort_texts.
    rewrite (written_field ms (u "allowed_triples") _ Hnd eq_refl), bind_Ok.
    fold (triples_json (Policy.allowed_triples (policy r))). rewrite sort_triples.
    rewrite (written_field ms (u "disabled") _ Hnd eq_refl), bind_Ok.
    rewrite (written_field ms (u "registered_at") _ Hnd eq_refl), bind_Ok.
    rewrite (written_field ms (u "registered_by_publisher") _ Hnd eq_refl), bind_Ok.
    cbn [list_of shape of_option triples_json]. rewrite !bind_Ok, triples_read, bind_Ok.
    rewrite !written_get_field by done.
    change (get_field ms (u "not_before")) with nb. change (get_field ms (u "not_after")) with na.
    change (get_field ms (u "note")) with (text_json (Policy.note (policy r))).
    change (get_field ms (u "revoked_at")) with rv.
    change (get_field ms (u "revocation_reason")) with (text_json (Policy.revocation_reason (policy r))).
    change (get_field ms (u "unrevoke_audit_marker")) with (get_field md (u "unrevoke_audit_marker")).
    rewrite Snb, Sna, Srv, Sn, Ss, Rnb, Rna, Rrv, Rn, Rs, Rmd, !bind_Ok. cbn [json_sort]. unfold time_of.
    rewrite Rat. cbn [map_err bool_of shape of_option text_of]. rewrite !bind_Ok, texts_read, bind_Ok.
    destruct r as [p pid reg pub m], p. cbn [policy policy_id registered_at registered_by_publisher
      unrevoke_audit_marker Policy.registered_by Policy.allowed_kids Policy.allowed_triples Policy.not_before
      Policy.not_after Policy.disabled Policy.note Policy.revoked_at Policy.revocation_reason] in *.
    unfold decode_policy. rewrite Hp. cbn [map_err]. rewrite !bind_Ok. by rewrite Hr.
Qed.
End envelopes.

(** ** Pinned writers *)

Section writers.
Context `{LocalZone} {S : Type} `{KvLaws S} {kv_top : S → Z} `{!KvRevisionLaws S kv_top}.

Definition view (s : S) (k : str) : option (CapabilityPolicyRecord * Z) :=
  match get_with_revision s k with Ok o => o | Err _ => None end.

(** What the check of a write is for. *)
Definition keeps_revocation (x y : CapabilityPolicyRecord) : Prop :=
  ∀ t, Policy.revoked_at (policy x) = Some t → Policy.revoked_at (policy y) = Some t.

#[export] Instance keeps_revocation_preorder : PreOrder keeps_revocation.
Proof. split; [by intros x t|]. intros x y z Hxy Hyz t Ht. by apply Hyz, Hxy. Qed.

(** The store, as [PinnedKv] sees it. *)
Definition policies : PinnedStore S policy_kv_error CapabilityPolicyRecord :=
  MkPinnedStore view kv_top record_ok put_plan _kv_update_with_revision
    (λ r k b, record_ok r ∧ record_key r = Ok k ∧ _record_to_envelope r = Ok b) keeps_revocation.

Lemma record_key_nonempty r k : record_key r = Ok k → str_empty k = false.
Proof. intros (_ & _ & ->)%policy_key_ok. unfold policy_key, _KEY_PREFIX. by ulit. Qed.

Lemma get_entry s k x :
  get s k = Ok (Some x) ↔ str_empty k = false ∧ ∃ v rev,
    kv_get s k = Some (KvObj (Some (VBytes v)) (Some rev)) ∧ _envelope_to_record v = Ok x.
Proof.
  unfold get. destruct (str_empty k); [split; [done|by intros []]|].
  destruct (kv_get s k) as [e|] eqn:E; [|split; [done|by intros (_ & ? & ? & ? & _)]].
  destruct (kv_get_shape _ _ _ E) as (v & rev & ->). cbn [_coerce_value_bytes]. rewrite bind_Ok. split.
  - intros Hx. apply bind_ok_iff in Hx as (y & Hy & [= ->]). split; [done|]. eauto.
  - intros (_ & v' & rev' & [= <- <-] & Hx). by rewrite Hx, bind_Ok.
Qed.

Lemma view_entry s k x n :
  view s k = Some (x, n) ↔ str_empty k = false ∧ ∃ v,
    kv_get s k = Some (KvObj (Some (VBytes v)) (Some n)) ∧ _envelope_to_record v = Ok x.
Proof.
  unfold view, get_with_revision. destruct (str_empty k); [split; [done|by intros []]|].
  destruct (kv_get s k) as [e|] eqn:E; [|split; [done|by intros (_ & ? & ? & _)]].
  destruct (kv_get_shape _ _ _ E) as (v & r & ->). cbn [_coerce_value_bytes _coerce_revision_from_entry].
  rewrite bind_Ok. destruct (_envelope_to_record v) as [y|] eqn:Ey; [rewrite bind_Ok|].
  - split; [intros [= -> ->]; split; eauto|]. intros (_ & v' & [= -> ->] & Hx). congruence.
  - split; [done|]. intros (_ & v' & [= -> ->] & Hx). congruence.
Qed.

Lemma get_view s k x : get s k = Ok (Some x) ↔ ∃ n, view s k = Some (x, n).
Proof. rewrite get_entry. setoid_rewrite view_entry. naive_solver. Qed.

Lemma get_ext s s' k : kv_get s k = kv_get s' k → get s k = get s' k.
Proof. unfold get. by intros ->. Qed.

(** The live revocation survives the write. *)
Lemma guard_keeps key x r : revocation_guard key (Some x) r = Ok () → keeps_revocation x r.
Proof.
  unfold revocation_guard, keeps_revocation. intros Hg t Ht. rewrite Ht in Hg.
  destruct (Policy.revoked_at (policy r)) as [t'|]; [|done]. apply raise_if_ok, negb_false_iff in Hg.
  unfold dt_eqb in Hg. by apply bool_decide_eq_true in Hg as ->.
Qed.

(** The entry after a write of the envelope of [r]. *)
Lemma written_view s s' r k b n k' :
  record_ok r → record_key r = Ok k → _record_to_envelope r = Ok b →
  kv_get s' k' = (if decide (k' = k) then Some (KvObj (Some (VBytes b)) (Some n)) else kv_get s k') →
  view s' k' = if decide (k' = k) then Some (r, n) else view s k'.
Proof.
  intros Hr Hk Hb Hg. case_decide as Hkk; [|unfold view, get_with_revision; by rewrite Hg]. subst k'.
  apply view_entry. split; [by eapply record_key_nonempty|]. exists b. split; [done|].
  destruct (record_roundtrip r Hr) as (b' & Eb & Er). rewrite Hb in Eb. by apply Ok_inj in Eb as ->.
Qed.

#[export] Instance policies_laws : PinnedLaws policies.
Proof.
  split; cbn.
  - intros s r e k b Hr Hp. unfold put_plan in Hp. apply bind_ok_iff in Hp as ([] & _ & Hp).
    apply bind_ok_iff in Hp as (k1 & Hk & Hp). apply bind_ok_iff in Hp as (x & Hx & Hp).
    apply bind_ok_iff in Hp as ([] & Hg & Hp). apply bind_ok_iff in Hp as (b1 & Hb & [= -> ->]).
    split; [done|]. intros y Hy. assert (get s k = Ok (Some y)) as Hgy by (apply get_view; eauto).
    rewrite Hgy in Hx. apply Ok_inj in Hx as <-. by eapply guard_keeps.
  - intros s r k b e s' rev (Hr & Hk & Hb) Hu. unfold _kv_update_with_revision in Hu.
    destruct (kv_update s k b e) as [[s1 r1]|] eqn:E; [|done]. injection Hu as -> ->.
    split_and!; [by eapply kv_top_update..| |].
    + intros k'. eapply written_view; [done..|]. by eapply kv_update_get.
    + intros x r0 (_ & v & Hv & _)%view_entry. symmetry.
      apply (kv_update_at s k v r0 e Hv b). by rewrite E.
Qed.

(** C23: However calls of [put_with_revision] interleave, a revocation is final: a
    policy that is revoked stays revoked, at the same instant. *)
Theorem revocation_final σ σ' key x t :
  pin_writers σ = ∅ → rtc (pinned_step policies) σ σ' →
  get (pin_bucket σ) key = Ok (Some x) → Policy.revoked_at (policy x) = Some t →
  ∃ y, get (pin_bucket σ') key = Ok (Some y) ∧ Policy.revoked_at (policy y) = Some t.
Proof.
  intros Hnone Hrun (n & Hx)%get_view Ht.
  destruct (pinned_keeps policies σ σ' key x n Hnone Hrun Hx) as (y & n' & Hy & Hxy).
  exists y. split; [apply get_view; eauto|by apply Hxy].
Qed.
End writers.
Arguments policies {_ S _} kv_top.
End PolicyKv.

(** ** A concrete bucket whose revisions grow as a whole *)

Record seq_kv := SeqKv { seq_cells : gmap str (bytes * N) }.

Definition seq_top (s : seq_kv) : Z := foldr Z.max 0 ((λ kv, Z.of_N kv.2.2) <$> map_to_list (seq_cells s)).
Definition seq_write (s : seq_kv) (k : str) (v : bytes) : seq_kv * Z :=
  (SeqKv (<[k := (v, Z.to_N (seq_top s + 1))]> (seq_cells s)), seq_top s + 1).

#[export] Instance seq_bucket : KvBucket seq_kv := {
  kv_get s k := (λ vr, KvObj (Some (VBytes vr.1)) (Some (Z.of_N vr.2))) <$> seq_cells s !! k;
  kv_create s k v := match seq_cells s !! k with None => Some (seq_write s k v) | Some _ => None end;
  kv_update s k v last := match seq_cells s !! k with
                          | Some (_, r) => if Z.of_N r =? last then Some (seq_write s k v) else None
                          | None => if last =? 0 then Some (seq_write s k v) else None
                          end;
}.
#[export] Instance seq_puts : KvPuts seq_kv := {
  kv_put := seq_write;
  kv_delete s k := SeqKv (base.delete k (seq_cells s));
}.
#[export] Instance seq_keys : KvKeys seq_kv := λ s, Some (map_to_list (seq_cells s)).*1.

Lemma le_max l r : r ∈ l → r ≤ foldr Z.max 0 l.
Proof. induction l as [|x l IH]; [by intros ?%elem_of_nil|]. intros [->|Hr%IH]%elem_of_cons; cbn; lia. Qed.

Lemma seq_top_cell s k v r : seq_cells s !! k = Some (v, r) → Z.of_N r ≤ seq_top s.
Proof.
  intros Hk. apply le_max, list_elem_of_fmap. exists (k, (v, r)). split; [done|].
  by apply elem_of_map_to_list.
Qed.

Lemma seq_top_pos s : 0 ≤ seq_top s.
Proof.
  unfold seq_top. generalize ((λ kv : str * (bytes * N), Z.of_N kv.2.2) <$> map_to_list (seq_cells s)).
  intros l. induction l; cbn; lia.
Qed.

Lemma seq_write_get s k v s' r k' :
  seq_write s k v = (s', r) →
  r = seq_top s + 1 ∧
  kv_get s' k' = if decide (k' = k) then Some (KvObj (Some (VBytes v)) (Some r)) else kv_get s k'.
Proof.
  intros [= <- <-]. split; [done|]. cbn. rewrite lookup_insert. pose proof (seq_top_pos s).
  destruct (decide (k = k')) as [->|Hne]; [rewrite decide_True by done|by rewrite decide_False].
  cbn. do 3 f_equal. lia.
Qed.

Lemma seq_update_inv s k v last s' r :
  kv_update s k v last = Some (s', r) → seq_write s k v = (s', r) ∧ last ≤ seq_top s.
Proof.
  cbn. destruct (seq_cells s !! k) as [[v' r']|] eqn:E; case_match; try done; intros [= Hw];
    propify; subst; (split; [by unfold seq_write; f_equal|]); [by eapply seq_top_cell|apply seq_top_pos].
Qed.

#[export] Instance seq_laws : KvLaws seq_kv.
Proof.
  split.
  - intros s k e. cbn. intros ([v r] & _ & ->)%fmap_Some. eauto.
  - intros s k v. cbn. rewrite fmap_None.
    by destruct (seq_cells s !! k); split; intros Hx; try done; destruct Hx.
  - intros s k v s' r k'. cbn [kv_create seq_bucket]. destruct (seq_cells s !! k); [done|]. intros [= Hw Hr].
    by destruct (seq_write_get s k v s' r k') as [_ ->]; [unfold seq_write; f_equal|].
  - intros s k v r0 last. cbn. intros ([v' r] & -> & [= -> ->])%fmap_Some v2.
    destruct (Z.eqb_spec (Z.of_N r) last); split; intros Hx; [done|by eexists|by destruct Hx|congruence].
  - intros s k v last s' r k' [Hw Hl]%seq_update_inv.
    destruct (seq_write_get s k v s' r k' Hw) as [Hr Hc]. split; [lia|done].
Qed.

#[export] Instance seq_keys_laws : KvKeysLaws seq_kv.
Proof.
  split.
  - intros s l [= <-]. apply NoDup_fst_map_to_list.
  - intros s l k [= <-]. rewrite list_elem_of_fmap. cbn. rewrite fmap_is_Some. split.
    + intros ([k' x] & -> & Hin%elem_of_map_to_list). eauto.
    + intros [x Hx]. exists (k, x). split; [done|]. by apply elem_of_map_to_list.
Qed.

#[export] Instance seq_revisions : KvRevisionLaws seq_kv seq_top.
Proof.
  split.
  - intros s k v r. cbn. intros ([v' r'] & Hk & Hr)%fmap_Some. injection Hr as _ ->. by eapply seq_top_cell.
  - intros s k v last s' r [Hw _]%seq_update_inv.
    destruct (seq_write_get s k v s' r k Hw) as [Hr Hc]. rewrite decide_True in Hc by done.
    cbn in Hc. apply fmap_Some in Hc as ([v' r'] & Hk & Hc). injection Hc as _ ->.
    apply seq_top_cell in Hk. cbn in *. lia.
Qed.

#[export] Instance seq_put_laws : KvPutLaws seq_kv.
Proof.
  split.
  - intros s k v s' r k' Hw. by destruct (seq_write_get s k v s' r k' Hw) as [_ ->].
  - intros s k k'. cbn. rewrite lookup_delete. destruct (decide (k = k')) as [->|Hne].
    + by rewrite decide_True.
    + by rewrite decide_False.
  - intros s k v r. cbn. intros ([v' r'] & _ & Hr)%fmap_Some. injection Hr as _ ->. lia.
Qed.

Module PolicyKvExample.
Import PolicyKv.

(** A host in UTC. *)
#[local] Instance utc_host : LocalZone := λ us, Some us.

Definition pol (revoked : option datetime) : CapabilityPolicy :=
  Policy.MkPolicy (u "did:web:a") [u "kid-1"] [(u "core", u "*")] (Some (Aware 0)) None false
    (Some [233]) revoked None.
Definition rec (revoked : option datetime) : CapabilityPolicyRecord :=
  MkPolicyRecord (pol revoked) (u "p1") (Aware 1000000) (u "ops") None.
Definition key1 : str := policy_key (u "did:web:a") (u "p1").

Lemma stamp_small us : bool_decide (0 <= us < 10000000) = true → stamp_ok (Aware us).
Proof.
  intros Hu%bool_decide_eq_true. exists us. split; [done|]. unfold in_datetime_range. lia.
Qed.

Lemma rec_ok r : opt_ok stamp_ok r → match r with Some d => is_naive d | None => false end = false →
  record_ok (rec r).
Proof.
  intros Hr Hn. split; try done.
  - destruct r as [[us|us]|]; [by vm_compute|done|by vm_compute].
  - by repeat constructor.
  - by repeat constructor.
  - by apply stamp_small.
  - by apply stamp_small.
Qed.

Definition revoked : option datetime := Some (Aware 5000000).

Lemma record_roundtrip_witness :
  ∃ b, _record_to_envelope (rec revoked) = Ok b ∧ _envelope_to_record b = Ok (rec revoked).
Proof. apply record_roundtrip, rec_ok; [by apply stamp_small|done]. Defined.

Definition bucket0 : seq_kv := (put (SeqKv ∅) (rec revoked)).1.
Definition waiting : pinned CapabilityPolicyRecord :=
  MkPinned (rec revoked) key1 (ok_or [] (_record_to_envelope (rec revoked))) 1.
Definition bucket1 : seq_kv := (_kv_update_with_revision bucket0 key1 (pin_blob waiting) 1).1.

Lemma revocation_final_witness :
  ∃ y, get bucket1 key1 = Ok (Some y) ∧ Policy.revoked_at (policy y) = revoked.
Proof.
  apply (revocation_final (kv_top:=seq_top) (PinnedSys bucket0 ∅ []) (PinnedSys bucket1 ∅ [(waiting, 2)]) key1
           (rec revoked) (Aware 5000000)).
  - done.
  - eapply rtc_l; [apply (pin_plan _ _ 0%nat (rec revoked) 1 key1 (pin_blob waiting))|].
    + apply rec_ok; [by apply stamp_small|done].
    + by vm_compute.
    + by vm_compute.
    + done.
    + eapply rtc_l; [apply (pin_update _ _ 0%nat waiting bucket1 2)|].
      * done.
      * apply injective_projections; [reflexivity|by vm_compute].
      * apply rtc_refl.
  - by vm_compute.
  - done.
Defined.

(** The pinned write refuses to withdraw a revocation or to move it; the
    unconditional write does not. *)
Example unrevoke_refused :
  (put_with_revision bucket0 (rec None) 1).2 =
    Err (CapabilityPolicyRevocationConflict key1 (Aware 5000000) None) ∧
  (put_with_revision bucket0 (rec (Some (Aware 6000000))) 1).2 =
    Err (CapabilityPolicyRevocationConflict key1 (Aware 5000000) (Some (Aware 6000000))) ∧
  get (put bucket0 (rec None)).1 key1 = Ok (Some (rec None)).
Proof. split_and!; by vm_compute. Qed.

(** [pair_for_key] accepts keys that [key_for_policy_pair] never builds. *)
Example pair_of_other_key :
  pair_for_key (u "capability-policies/ /x y") = Ok (u " ", u "x y") ∧
  key_for_policy_pair (u " ") (u "x y") = Err PairValueError.
Proof. split; by vm_compute. Qed.

(** A time without a zone is read in the zone of the host: two hosts read one
    envelope differently. *)
Definition naive_time : json := JStr (u "2026-01-01T00:00:00").
Example zone_of_host :
  @_rfc3339_to_dt (λ us, Some us) naive_time ≠ @_rfc3339_to_dt (λ us, Some (us - 3600000000)) naive_time.
Proof. apply (bool_decide_unpack _). by vm_compute. Qed.

(** A policy may have a naive start, which cannot be written; and a record is
    read whatever key it is stored under. *)
Example naive_start :
  let p := Policy.MkPolicy (u "a") [u "k"] [(u "l", u "*")] (Some (Naive 0)) None false None None None in
  Policy.Policy.new_policy p = Ok p ∧
  _record_to_envelope (MkPolicyRecord p (u "p") (Aware 0) (u "ops") None) = Err TimeValueError.
Proof. by split. Qed.
Example other_key :
  get (seq_write (SeqKv ∅) (u "elsewhere") (pin_blob waiting)).1 (u "elsewhere") = Ok (Some (rec revoked)).
Proof. by vm_compute. Qed.
End PolicyKvExample.
