(* ===== verification/PolicyWatch.v ===== *)
(** * Watching the policies
      ([wirelang/schemas/capability_policy_nats_kv_backend.py], the watch stream)

    A consumer of the bucket's updates: their decoding, the live snapshot that
    follows them, and the classifier that says of each what it does to the
    revocation of its key.

    The theorems: a consumer that starts from a snapshot and applies the updates
    of pinned writers has the registry of the bucket and sees no breach; updates
    that are delivered again change nothing; a revocation that is gone was
    reported; the classifier's decision table. *)

From S2P Require Import Prelude PyStr PyJson PyJsonLoads PyDyn PyTime Ledger PinnedKv MarkerKv PolicyKv.
From S2P Require Policy.
From Stdlib Require Import ZArith Lia Sorted.

Open Scope Z_scope.

Inductive CapabilityPolicyWatchOp : Type := PUT | DELETE | PURGE.

Inductive RevocationEventKind : Type :=
| NOT_REVOCATION_RELATED | REVOCATION_TRANSITION | REVOCATION_REFRESH
| REVOCATION_MONOTONIC_BREACH | KEY_REMOVED | EXPLICIT_UNREVOKE.

#[export] Instance watch_op_eq_dec : EqDecision CapabilityPolicyWatchOp.
Proof. solve_decision. Defined.
#[export] Instance event_kind_eq_dec : EqDecision RevocationEventKind.
Proof. solve_decision. Defined.

Module PolicyWatch.
Import PolicyKv.PolicyKv.

Record CapabilityPolicyWatchEvent := MkEvent {
  op : CapabilityPolicyWatchOp;
  key : str;
  record : option CapabilityPolicyRecord;
  revision : Z;
}.

(** ** Updates of the client *)

Definition op_value (o : CapabilityPolicyWatchOp) : str :=
  match o with PUT => u "PUT" | DELETE => u "DELETE" | PURGE => u "PURGE" end.

(** [upper()], as far as the comparison can tell. *)
Definition op_of_name (name : str) : option CapabilityPolicyWatchOp :=
  let name := (λ c, if is_lower c then c - 32 else c) <$> name in
  List.find (λ o, str_eqb name (op_value o)) [PUT; DELETE; PURGE].

Section stream.
Context `{LocalZone}.

Definition _decode_capability_policy_watch_update (update : MarkerKv.MarkerKv.kv_update_msg)
    : result policy_kv_error CapabilityPolicyWatchEvent :=
  name ← shape (MarkerKv.MarkerKv.upd_operation update);
  o ← shape (op_of_name name);
  k ← shape (MarkerKv.MarkerKv.upd_key update ≫= text_of);
  raise_if (str_empty k) CapabilityPolicyEnvelopeError;;
  let rev := default 0 (MarkerKv.MarkerKv.upd_revision update) in
  match o with
  | PUT =>
      blob ← _coerce_value_bytes (MarkerKv.MarkerKv.upd_entry update);
      r ← _envelope_to_record blob;
      Ok (MkEvent o k (Some r) rev)
  | _ => Ok (MkEvent o k None rev)
  end.

(** One [__anext__] on the updates to come: the event, or the error, and the
    updates left.  A missing update is skipped by an iterator and ends a
    watcher with [updates()]. *)
Fixpoint anext (iterator : bool) (updates : list (option MarkerKv.MarkerKv.kv_update_msg))
    : option (result policy_kv_error CapabilityPolicyWatchEvent *
              list (option MarkerKv.MarkerKv.kv_update_msg)) :=
  match updates with
  | [] => None
  | None :: rest => if iterator then anext iterator rest else None
  | Some upd :: rest => Some (_decode_capability_policy_watch_update upd, rest)
  end.
End stream.

(** ** The live snapshot *)

Record LiveCapabilityPolicySnapshot := MkLive {
  last_revision : Z;
  _live : gmap str CapabilityPolicyRecord;
}.

(** [self._live[record.key] = record], record by record *)
Definition add_record (m : result policy_kv_error (gmap str CapabilityPolicyRecord))
    (r : CapabilityPolicyRecord) : result policy_kv_error (gmap str CapabilityPolicyRecord) :=
  m ← m; k ← record_key r; Ok (<[k := r]> m).

Definition new_live (initial : list CapabilityPolicyRecord) (last : Z)
    : result policy_kv_error LiveCapabilityPolicySnapshot :=
  m ← foldl add_record (Ok ∅) initial;
  Ok (MkLive last m).

Definition apply (l : LiveCapabilityPolicySnapshot) (e : CapabilityPolicyWatchEvent)
    : result policy_kv_error LiveCapabilityPolicySnapshot :=
  m ← match op e with
      | PUT => match record e with
               | Some r => Ok (<[key e := r]> (_live l))
               | None => Err CapabilityPolicyEnvelopeError
               end
      | _ => Ok (base.delete (key e) (_live l))
      end;
  Ok (MkLive (if last_revision l <? revision e then revision e else last_revision l) m).

Definition sorted_keys {A} (m : gmap str A) : list str := py_sorted str_leb (map_to_list m).*1.

Definition records (l : LiveCapabilityPolicySnapshot) : list CapabilityPolicyRecord :=
  omap (λ k, _live l !! k) (sorted_keys (_live l)).

Definition as_registry (l : LiveCapabilityPolicySnapshot) : Policy.Policy.CapabilityPolicyRegistry :=
  registry_of (records l).

Definition from_backend (keys : option (list str))
    (fetch : str → result policy_kv_error (option CapabilityPolicyRecord))
    : result policy_kv_error LiveCapabilityPolicySnapshot :=
  initial ← snapshot keys fetch; new_live initial 0.

(** ** The classifier *)

Record ClassifiedRevocationEvent := MkClassified {
  event : CapabilityPolicyWatchEvent;
  kind : RevocationEventKind;
  prior_revoked_at : option datetime;
  current_revoked_at : option datetime;
  current_revocation_reason : option str;
}.

(** [_revoked_at_by_key] *)
Definition RevocationEventClassifier : Type := gmap str (option datetime).

Definition seed_record (c : result policy_kv_error RevocationEventClassifier)
    (r : CapabilityPolicyRecord) : result policy_kv_error RevocationEventClassifier :=
  c ← c; k ← record_key r; Ok (<[k := Policy.revoked_at (policy r)]> c).

Definition seed_from_records (c : RevocationEventClassifier) (rs : list CapabilityPolicyRecord)
    : result policy_kv_error RevocationEventClassifier := foldl seed_record (Ok c) rs.

Definition put_kind (prior incoming : option datetime) (marker : option UnrevokeAuditMarker)
    : RevocationEventKind :=
  match prior, incoming with
  | None, None => NOT_REVOCATION_RELATED
  | None, Some _ => REVOCATION_TRANSITION
  | Some p, None =>
      match marker with
      | Some m => if dt_eqb (previous_revoked_at m) p then EXPLICIT_UNREVOKE
                  else REVOCATION_MONOTONIC_BREACH
      | None => REVOCATION_MONOTONIC_BREACH
      end
  | Some p, Some i => if dt_eqb i p then REVOCATION_REFRESH else REVOCATION_MONOTONIC_BREACH
  end.

Definition classify (c : RevocationEventClassifier) (e : CapabilityPolicyWatchEvent)
    : RevocationEventClassifier * result policy_kv_error ClassifiedRevocationEvent :=
  let prior := default None (c !! key e) in
  match op e with
  | PUT =>
      match record e with
      | None => (c, Err CapabilityPolicyEnvelopeError)
      | Some r =>
          let incoming := Policy.revoked_at (policy r) in
          (<[key e := incoming]> c,
           Ok (MkClassified e (put_kind prior incoming (unrevoke_audit_marker r)) prior incoming
                 (Policy.revocation_reason (policy r))))
      end
  | _ => (base.delete (key e) c, Ok (MkClassified e KEY_REMOVED prior None None))
  end.

Definition known_keys (c : RevocationEventClassifier) : list str := sorted_keys c.
Definition last_revoked_at (c : RevocationEventClassifier) (k : str) : option datetime :=
  default None (c !! k).

Definition default_kinds : list RevocationEventKind :=
  [REVOCATION_TRANSITION; REVOCATION_REFRESH; REVOCATION_MONOTONIC_BREACH; EXPLICIT_UNREVOKE].

(** What the generator yields on a stream, and the error that ended it. *)
Fixpoint filter_revocation_events (c : RevocationEventClassifier) (kinds : list RevocationEventKind)
    (stream : list CapabilityPolicyWatchEvent)
    : RevocationEventClassifier * list ClassifiedRevocationEvent * result policy_kv_error () :=
  match stream with
  | [] => (c, [], Ok ())
  | e :: rest =>
      match classify c e with
      | (c', Err err) => (c', [], Err err)
      | (c', Ok x) =>
          let '(c'', ys, r) := filter_revocation_events c' kinds rest in
          (c'', if bool_decide (kind x ∈ kinds) then x :: ys else ys, r)
      end
  end.
End PolicyWatch.

Import PolicyKv.PolicyKv PolicyWatch.

(** ** Folding a stream *)

Section folds.

(** A stream as the decoder hands it over: a PUT has a record. *)
Definition event_ok (e : CapabilityPolicyWatchEvent) : Prop := op e = PUT → is_Some (record e).

(** The stores after an event. *)
Definition live_after (m : gmap str CapabilityPolicyRecord) (e : CapabilityPolicyWatchEvent)
    : gmap str CapabilityPolicyRecord :=
  match op e, record e with
  | PUT, Some r => <[key e := r]> m
  | PUT, None => m
  | _, _ => base.delete (key e) m
  end.

Fixpoint apply_all (l : LiveCapabilityPolicySnapshot) (es : list CapabilityPolicyWatchEvent)
    : result policy_kv_error LiveCapabilityPolicySnapshot :=
  match es with [] => Ok l | e :: es => l ← apply l e; apply_all l es end.

Lemma apply_ok l e :
  event_ok e →
  apply l e = Ok (MkLive (Z.max (last_revision l) (revision e)) (live_after (_live l) e)).
Proof.
  unfold event_ok, apply, live_after. intros He.
  assert ((if last_revision l <? revision e then revision e else last_revision l) =
          Z.max (last_revision l) (revision e)) as -> by (case_match; propify; lia).
  destruct (op e); try done. destruct (He eq_refl) as [r ->]. done.
Qed.

Definition final_live (m : gmap str CapabilityPolicyRecord) (es : list CapabilityPolicyWatchEvent) :=
  foldl live_after m es.
Definition final_revision (n : Z) (es : list CapabilityPolicyWatchEvent) : Z :=
  foldl (λ n e, Z.max n (revision e)) n es.

Lemma apply_all_ok l es :
  Forall event_ok es →
  apply_all l es = Ok (MkLive (final_revision (last_revision l) es) (final_live (_live l) es)).
Proof.
  intros Hes. revert l. induction Hes as [|e es He _ IH]; intros l; [by destruct l|].
  cbn [apply_all]. rewrite (apply_ok l e He), bind_Ok, IH. done.
Qed.

(** The last event of a key decides. *)
Definition verdict (k : str) (x : option CapabilityPolicyRecord) (e : CapabilityPolicyWatchEvent)
    : option CapabilityPolicyRecord :=
  if decide (key e = k) then match op e with PUT => record e | _ => None end else x.

Lemma final_live_lookup m es k :
  Forall event_ok es → final_live m es !! k = foldl (verdict k) (m !! k) es.
Proof.
  intros Hes. revert m. induction Hes as [|e es He _ IH]; intros m; [done|].
  unfold final_live in *. cbn [foldl]. rewrite IH. f_equal. unfold live_after, verdict.
  destruct (op e) eqn:Eo.
  - destruct (He Eo) as [r ->]. rewrite lookup_insert. repeat case_decide; congruence.
  - rewrite lookup_delete. repeat case_decide; congruence.
  - rewrite lookup_delete. repeat case_decide; congruence.
Qed.

(** Either no event concerns the key, or the start does not matter. *)
Lemma verdict_start k es :
  (∀ x, foldl (verdict k) x es = x) ∨ (∀ x y, foldl (verdict k) x es = foldl (verdict k) y es).
Proof.
  induction es as [|e es IH]; [by left|]. cbn [foldl].
  destruct (decide (key e = k)) as [Hk|Hk].
  - right. intros x y. unfold verdict at 2 4. by rewrite !decide_True by done.
  - destruct IH as [IH|IH]; [left|right]; intros *; unfold verdict at 2; rewrite ?decide_False by done;
      [apply IH|]. unfold verdict at 3. rewrite decide_False by done. apply IH.
Qed.

Lemma final_revision_max n es : n ≤ final_revision n es ∧ Forall (λ e, revision e ≤ final_revision n es) es.
Proof.
  revert n. induction es as [|e es IH]; intros n; [by split|]. unfold final_revision in *. cbn [foldl].
  destruct (IH (Z.max n (revision e))) as [H1 H2]. split; [lia|]. constructor; [lia|done].
Qed.

Lemma final_revision_known n es : Forall (λ e, revision e ≤ n) es → final_revision n es = n.
Proof.
  unfold final_revision. induction 1 as [|e es He _ IH]; [done|]. cbn [foldl].
  by replace (Z.max n (revision e)) with n by lia.
Qed.

(** Updates that are delivered again, from any point of the past on, leave the
    live snapshot where it was. *)
Theorem redelivery_harmless l es again later :
  Forall event_ok (es ++ again ++ later) →
  (l1 ← apply_all l (es ++ again); apply_all l1 (again ++ later)) = apply_all l (es ++ again ++ later).
Proof.
  intros [Hes [Hag Hla]%Forall_app]%Forall_app.
  rewrite apply_all_ok, bind_Ok, !apply_all_ok by (repeat (apply Forall_app; split); done).
  cbn [last_revision _live]. f_equal. f_equal.
  - unfold final_revision. rewrite !foldl_app. f_equal.
    fold (final_revision (last_revision l) es).
    fold (final_revision (final_revision (last_revision l) es) again).
    apply (final_revision_known _ again). apply final_revision_max.
  - apply map_eq. intros k. rewrite !final_live_lookup by (repeat (apply Forall_app; split); done).
    rewrite !foldl_app. f_equal.
    destruct (verdict_start k again) as [Hs|Hs]; [by rewrite !Hs|apply Hs].
Qed.
End folds.

(** ** What the classifier reports *)

Section classifier.

Definition loss_kinds : list RevocationEventKind :=
  [REVOCATION_MONOTONIC_BREACH; EXPLICIT_UNREVOKE; KEY_REMOVED].

(** One event: the revocation of another key is not touched, and that of its own
    key is kept or the event is of a kind that tells of its loss. *)
Lemma classify_keeps c e c' x k t :
  classify c e = (c', Ok x) → last_revoked_at c k = Some t →
  last_revoked_at c' k = Some t ∨
  (event x = e ∧ key e = k ∧ prior_revoked_at x = Some t ∧ kind x ∈ loss_kinds).
Proof.
  unfold classify, last_revoked_at, RevocationEventClassifier in *. intros Hc Ht.
  destruct (decide (key e = k)) as [<-|Hk].
  - destruct (op e); [destruct (record e) as [r|]; [|done]|..];
      injection Hc as <- <-; cbn [event prior_revoked_at kind]; rewrite Ht.
    + rewrite lookup_insert_eq. unfold put_kind.
      destruct (Policy.revoked_at (policy r)) as [i|].
      * destruct (dt_eqb i t) eqn:Ei; [left|right].
        -- unfold dt_eqb in Ei. by apply bool_decide_eq_true in Ei as ->.
        -- split_and!; [done..|]. unfold loss_kinds. set_solver.
      * right. split_and!; [done..|]. unfold loss_kinds. repeat case_match; set_solver.
    + right. split_and!; [done..|]. unfold loss_kinds. set_solver.
    + right. split_and!; [done..|]. unfold loss_kinds. set_solver.
  - left. destruct (op e); [destruct (record e) as [r|]; [|done]|..]; injection Hc as <- <-.
    + by rewrite lookup_insert_ne.
    + by rewrite lookup_delete_ne.
    + by rewrite lookup_delete_ne.
Qed.

Lemma filter_cons_ok c kinds e es c' ys :
  filter_revocation_events c kinds (e :: es) = (c', ys, Ok ()) →
  ∃ c1 x zs, classify c e = (c1, Ok x) ∧ filter_revocation_events c1 kinds es = (c', zs, Ok ()) ∧
    ys = if bool_decide (kind x ∈ kinds) then x :: zs else zs.
Proof.
  cbn [filter_revocation_events]. destruct (classify c e) as [c1 [x|]]; [|done].
  destruct (filter_revocation_events c1 kinds es) as [[c2 zs] r] eqn:E. intros [= -> <- ->].
  by exists c1, x, zs.
Qed.

(** C24: With a filter that selects the kinds that tell of a loss (a breach, an
    unrevocation, the removal of the key), a revocation does not vanish without a report: if a key was revoked
    before a stream and is not revoked at the same instant after it, the consumer
    was handed an event of the key that tells so, with the instant that was lost.
    The kinds the filter selects by default leave the removal out, see
    [default_silent]. *)
Theorem revocation_loss_reported c kinds es c' ys k t :
  loss_kinds ⊆ kinds → filter_revocation_events c kinds es = (c', ys, Ok ()) →
  last_revoked_at c k = Some t → last_revoked_at c' k ≠ Some t →
  ∃ x, x ∈ ys ∧ key (event x) = k ∧ prior_revoked_at x = Some t ∧ kind x ∈ loss_kinds.
Proof.
  intros Hkinds. revert c ys. induction es as [|e es IH]; intros c ys Hf Ht Hc'.
  { by injection Hf as -> <-. }
  apply filter_cons_ok in Hf as (c1 & x & zs & Hx & Hf & ->).
  destruct (classify_keeps c e c1 x k t Hx Ht) as [Ht1|(He & Hk & Hp & Hloss)].
  - destruct (IH c1 zs Hf Ht1 Hc') as (y & Hy & Hrest). exists y. split; [|done].
    case_bool_decide; [by right|done].
  - exists x. rewrite bool_decide_true by (by apply Hkinds). subst e. split; [left|done].
Qed.

(** An unrevocation counts as deliberate only if its marker names the instant
    that the consumer knew. *)
Lemma deliberate_names_instant c e c' x :
  classify c e = (c', Ok x) → kind x = EXPLICIT_UNREVOKE →
  ∃ r m t, op e = PUT ∧ record e = Some r ∧ unrevoke_audit_marker r = Some m ∧
    Policy.revoked_at (policy r) = None ∧ last_revoked_at c (key e) = Some t ∧ previous_revoked_at m = t.
Proof.
  unfold classify, last_revoked_at, RevocationEventClassifier in *. intros Hc Hk.
  destruct (op e); [destruct (record e) as [r|]; [|done]|..]; injection Hc as <- <-; [|done..].
  cbn [kind] in Hk. unfold put_kind in Hk.
  destruct (default None (c !! key e)) as [t|]; [|by destruct (Policy.revoked_at _)].
  destruct (Policy.revoked_at (policy r)) as [i|] eqn:Er; [by destruct (dt_eqb i t)|].
  destruct (unrevoke_audit_marker r) as [m|] eqn:Em; [|done].
  destruct (dt_eqb (previous_revoked_at m) t) eqn:Et; [|done].
  unfold dt_eqb in Et. apply bool_decide_eq_true in Et. by exists r, m, t.
Qed.
End classifier.

(** ** A consumer of pinned writers *)

Section consumer.
Context `{LocalZone} {S : Type} `{KvLaws S} `{!KvKeys S} `{!KvKeysLaws S}.
Context {kv_top : S → Z} `{!KvRevisionLaws S kv_top}.

(** The update that a watcher sees of an acknowledged write. *)
Definition event_of (w : pinned CapabilityPolicyRecord * Z) : CapabilityPolicyWatchEvent :=
  MkEvent PUT (pin_key w.1) (Some (pin_record w.1)) w.2.

(** Every entry can be read and lies under its own key. *)
Definition well_keyed (s : S) : Prop :=
  ∀ k, is_Some (kv_get s k) → ∃ x, get s k = Ok (Some x) ∧ record_key x = Ok k.

#[local] Instance str_order : KeyOrder str_leb := _.

Lemma sorted_same (l k : list str) :
  NoDup l → NoDup k → (∀ x, x ∈ l ↔ x ∈ k) → py_sorted str_leb l = py_sorted str_leb k.
Proof.
  intros Hl Hk Hlk. apply (sorted_perm_unique (λ x y, str_leb x y = true)).
  - intros x y _ _. apply (leb_antisym (leb:=str_leb)).
  - apply py_sorted_sorted, _.
  - apply py_sorted_sorted, _.
  - rewrite !py_sorted_perm. by apply NoDup_Permutation.
Qed.

(** *** The start: a snapshot *)

(** [add_record] and [seed_record] are one loop. *)
Definition add_with {A} (g : CapabilityPolicyRecord → A) (m : result policy_kv_error (gmap str A))
    (r : CapabilityPolicyRecord) : result policy_kv_error (gmap str A) :=
  m ← m; k ← record_key r; Ok (<[k := g r]> m).

Lemma add_with_all {A} (g : CapabilityPolicyRecord → A) (f : str → option CapabilityPolicyRecord) ks m :
  (∀ k x, f k = Some x → record_key x = Ok k) →
  ∃ m', foldl (add_with g) (Ok m) (omap f ks) = Ok m' ∧
    ∀ k, m' !! k = if decide (k ∈ ks ∧ is_Some (f k)) then g <$> f k else m !! k.
Proof.
  intros Hf. revert m. induction ks as [|k0 ks IH]; intros m.
  { exists m. split; [done|]. intros k. rewrite decide_False; [done|]. by intros [?%elem_of_nil _]. }
  csimpl. destruct (f k0) as [x0|] eqn:E0.
  - destruct (IH (<[k0 := g x0]> m)) as (m' & Hm' & Hk). exists m'. split.
    + cbn [foldl]. unfold add_with at 2. by rewrite bind_Ok, (Hf _ _ E0), bind_Ok.
    + intros k. rewrite Hk, lookup_insert. repeat case_decide; subst; rewrite ?E0; try done;
        exfalso; rewrite elem_of_cons in *; rewrite ?E0 in *; naive_solver.
  - destruct (IH m) as (m' & Hm' & Hk). exists m'. split; [done|]. intros k. rewrite Hk.
    repeat case_decide; rewrite elem_of_cons in *; try done; exfalso; [naive_solver|].
    match goal with Hin : _ ∧ is_Some _ |- _ => destruct Hin as [[->|Hin] [y Hy]]; [congruence|eauto] end.
Qed.

(** What the bucket gives under a key. *)
Definition entry (s : S) (k : str) : option CapabilityPolicyRecord :=
  match get s k with Ok (Some x) => Some x | _ => None end.

Lemma entry_some s k x : entry s k = Some x ↔ get s k = Ok (Some x).
Proof. unfold entry. destruct (get s k) as [[y|]|]; naive_solver. Qed.

Lemma entry_key s k x : well_keyed s → entry s k = Some x → record_key x = Ok k.
Proof.
  intros Hs Hx%entry_some. pose proof Hx as (_ & v & r & Hv & _)%get_entry.
  destruct (Hs k) as (y & Hy & Hk); [by rewrite Hv|]. rewrite Hx in Hy. by injection Hy as ->.
Qed.

Lemma snapshot_entries s ks :
  well_keyed s → kv_keys s = Some ks →
  snapshot (Some ks) (get s) = Ok (omap (entry s) (py_sorted str_leb ks)).
Proof.
  intros Hs Hks. unfold snapshot. cbn [of_option]. rewrite bind_Ok.
  assert (mapM (get s) (py_sorted str_leb ks) = Ok (entry s <$> py_sorted str_leb ks)) as ->.
  { apply mapM_ok. apply Forall2_fmap_r, Forall_Forall2_diag, Forall_forall. intros k.
    rewrite elem_of_py_sorted, (kv_keys_in s ks k Hks). intros (x & Hx & _)%Hs. cbn. unfold entry. by rewrite Hx. }
  rewrite bind_Ok. f_equal. generalize (py_sorted str_leb ks). intros l.
  induction l as [|k l IH]; [done|]. csimpl. destruct (entry s k); cbn; by rewrite IH.
Qed.

(** What a consumer keeps while it follows the bucket. *)
Record follows (l : LiveCapabilityPolicySnapshot) (c : RevocationEventClassifier) (s : S) : Prop := {
  follows_live k : _live l !! k = entry s k;
  follows_revoked k : last_revoked_at c k = entry s k ≫= λ x, Policy.revoked_at (policy x);
}.

Lemma consumer_starts s ks :
  well_keyed s → kv_keys s = Some ks →
  ∃ rs l c, snapshot (Some ks) (get s) = Ok rs ∧ from_backend (Some ks) (get s) = Ok l ∧
    seed_from_records ∅ rs = Ok c ∧ follows l c s.
Proof.
  intros Hs Hks. exists (omap (entry s) (py_sorted str_leb ks)).
  destruct (add_with_all id (entry s) (py_sorted str_leb ks) ∅) as (m & Em & Hm); [by intros; eapply entry_key|].
  destruct (add_with_all (λ r, Policy.revoked_at (policy r)) (entry s) (py_sorted str_leb ks) ∅)
    as (c & Ec & Hc); [by intros; eapply entry_key|].
  exists (MkLive 0 m), c. split; [by apply snapshot_entries|].
  assert (∀ k x, entry s k = Some x → k ∈ py_sorted str_leb ks) as Hin.
  { intros k x (_ & v & r & Hv & _)%entry_some%get_entry. apply elem_of_py_sorted.
    apply (kv_keys_in s ks k Hks). eauto. }
  split_and!.
  - unfold from_backend. rewrite snapshot_entries, bind_Ok by done. unfold new_live. 
    change add_record with (add_with id). by rewrite Em.
  - exact Ec.
  - split; intros k.
    + cbn. rewrite Hm. case_decide as Hk; [by destruct (entry s k)|].
      destruct (entry s k) eqn:E; [|done]. exfalso. apply Hk. eauto.
    + unfold last_revoked_at. etrans; [apply f_equal, Hc|]. case_decide as Hk.
      * by destruct (entry s k).
      * destruct (entry s k) eqn:E; [|done]. exfalso. apply Hk. eauto.
Qed.

(** The registry of the consumer is the registry of the bucket. *)
Lemma registry_agrees l c s ks :
  follows l c s → well_keyed s → kv_keys s = Some ks →
  snapshot_registry (Some ks) (get s) = Ok (as_registry l).
Proof.
  intros [Hl _] Hs Hks. unfold snapshot_registry, as_registry, records, sorted_keys.
  rewrite snapshot_entries, bind_Ok by done. do 2 f_equal.
  rewrite (sorted_same ks (map_to_list (_live l)).*1).
  - generalize (py_sorted str_leb (map_to_list (_live l)).*1). intros ks'.
    induction ks' as [|k ks' IH]; [done|]. csimpl. by rewrite Hl, IH.
  - by eapply kv_keys_nodup.
  - apply NoDup_fst_map_to_list.
  - intros k. rewrite (kv_keys_in s ks k Hks), list_elem_of_fmap. split.
    + intros (x & Hx & _)%Hs. exists (k, x). split; [done|]. apply elem_of_map_to_list.
      by rewrite Hl, entry_some.
    + intros ([k' x] & -> & Hin%elem_of_map_to_list). cbn.
      rewrite Hl, entry_some in Hin. apply get_entry in Hin as (_ & v & r & Hv & _). eauto.
Qed.

(** *** The updates *)

(** What an acknowledged write makes of the entries, and what it keeps. *)
Lemma update_entries s p s' rev :
  pinned_ok (policies kv_top) s p → update_of (policies kv_top) s p = (s', Ok rev) →
  (∀ k, entry s' k = if decide (k = pin_key p) then Some (pin_record p) else entry s k) ∧
  (∀ x, entry s (pin_key p) = Some x → keeps_revocation x (pin_record p)) ∧
  (well_keyed s → well_keyed s').
Proof.
  intros Hp Hu. destruct (pinned_effect (policies kv_top) s p s' rev Hp Hu) as (Hv & Hkeep & _). cbn in Hv, Hkeep.
  assert (∀ k x, entry s k = Some x ↔ ∃ n, view s k = Some (x, n)) as Hs by (intros; by rewrite entry_some, get_view).
  assert (∀ k, entry s' k = if decide (k = pin_key p) then Some (pin_record p) else entry s k) as He.
  { intros k. apply option_eq. intros x. rewrite entry_some, get_view. setoid_rewrite Hv.
    case_decide; [naive_solver|by rewrite Hs]. }
  split_and!; [done| |].
  - intros x (n & Hx)%Hs. by eapply Hkeep.
  - intros Hw k Hk. destruct Hp as ((_ & Hkey & _) & _). specialize (He k). case_decide as Hkk.
    + exists (pin_record p). split; [by apply entry_some|by subst k].
    + unfold update_of in Hu. cbn in Hu. unfold _kv_update_with_revision in Hu.
      destruct (kv_update s (pin_key p) (pin_blob p) (pin_expected p)) as [[s1 r1]|] eqn:E; [|done].
      injection Hu as -> ->. destruct (kv_update_get _ _ _ _ _ _ k E) as [_ Hg].
      rewrite Hg, decide_False in Hk by done. destruct (Hw k Hk) as (x & Hx%entry_some & Hkx).
      exists x. split; [|done]. apply entry_some. congruence.
Qed.

(** One acknowledged write and its update. *)
Lemma follows_update l c s p s' rev :
  pinned_ok (policies kv_top) s p → update_of (policies kv_top) s p = (s', Ok rev) →
  well_keyed s → follows l c s →
  ∃ l' c' x, apply l (event_of (p, rev)) = Ok l' ∧ classify c (event_of (p, rev)) = (c', Ok x) ∧
    kind x ∉ loss_kinds ∧ follows l' c' s' ∧ well_keyed s'.
Proof.
  intros Hp Hu Hs [Hl Hc].
  destruct (update_entries s p s' rev Hp Hu) as (He & Hkeep & Hkeyed).
  eexists (MkLive _ _), _, _. split; [apply apply_ok; by intros _; eexists|]. split; [reflexivity|]. cbn [kind].
  split_and!.
  - specialize (Hc (pin_key p)). unfold last_revoked_at in Hc. cbn [event_of key pin_key fst]. rewrite Hc.
    cbn [fst]. unfold put_kind. destruct (entry s (pin_key p)) as [x|] eqn:Ex.
    + specialize (Hkeep x eq_refl). unfold keeps_revocation in Hkeep. cbn.
      destruct (Policy.revoked_at (policy x)) as [t|].
      * rewrite (Hkeep t) by done. unfold dt_eqb. rewrite bool_decide_true by done. set_solver.
      * destruct (Policy.revoked_at _); set_solver.
    + cbn. destruct (Policy.revoked_at _); set_solver.
  - split; intros k; rewrite He; cbn [event_of key pin_key fst _live live_after op record].
    + rewrite lookup_insert, Hl. repeat case_decide; congruence.
    + unfold last_revoked_at, RevocationEventClassifier in *. rewrite lookup_insert.
      repeat case_decide; subst; try done; try congruence; apply Hc.
  - by apply Hkeyed.
Qed.

Lemma apply_all_app l es es' l' : apply_all l es = Ok l' → apply_all l (es ++ es') = apply_all l' es'.
Proof.
  revert l. induction es as [|e es IH]; intros l; cbn [apply_all app]; [by intros [= ->]|].
  destruct (apply l e); [|done]. rewrite !bind_Ok. apply IH.
Qed.

Lemma filter_silent c kinds es c' e c'' x :
  filter_revocation_events c kinds es = (c', [], Ok ()) → classify c' e = (c'', Ok x) → kind x ∉ kinds →
  filter_revocation_events c kinds (es ++ [e]) = (c'', [], Ok ()).
Proof.
  intros Hf Hx Hk. revert c Hf. induction es as [|e0 es IH]; intros c Hf.
  - injection Hf as ->. cbn [app filter_revocation_events]. rewrite Hx. by rewrite bool_decide_false.
  - apply filter_cons_ok in Hf as (c1 & y & zs & Hy & Hf & Hzs).
    case_bool_decide as Hin; [done|]. subst zs. cbn [app filter_revocation_events].
    rewrite Hy, (IH c1 Hf). by rewrite bool_decide_false.
Qed.

(** A consumer that starts from a snapshot of the bucket and applies the updates
    of pinned writers, however these interleave, has the registry of the bucket,
    and the classifier it seeded from the snapshot reports no lost revocation. *)
Theorem live_follows_bucket σ σ' ks ks' :
  pin_writers σ = ∅ → pin_log σ = [] → well_keyed (pin_bucket σ) → rtc (pinned_step (policies kv_top)) σ σ' →
  kv_keys (pin_bucket σ) = Some ks → kv_keys (pin_bucket σ') = Some ks' →
  ∃ rs l c l' c',
    snapshot (Some ks) (get (pin_bucket σ)) = Ok rs ∧
    from_backend (Some ks) (get (pin_bucket σ)) = Ok l ∧ seed_from_records ∅ rs = Ok c ∧
    apply_all l (event_of <$> pin_log σ') = Ok l' ∧
    snapshot_registry (Some ks') (get (pin_bucket σ')) = Ok (as_registry l') ∧
    filter_revocation_events c loss_kinds (event_of <$> pin_log σ') = (c', [], Ok ()).
Proof.
  intros Hw Hlog Hs Hrun Hks Hks'.
  destruct (consumer_starts (pin_bucket σ) ks Hs Hks) as (rs & l & c & Ers & El & Ec & Hf).
  exists rs, l, c.
  enough (∃ l' c', apply_all l (event_of <$> pin_log σ') = Ok l' ∧
    filter_revocation_events c loss_kinds (event_of <$> pin_log σ') = (c', [], Ok ()) ∧
    follows l' c' (pin_bucket σ') ∧ well_keyed (pin_bucket σ')) as (l' & c' & Hl' & Hc' & Hf' & Hs').
  { exists l', c'. split_and!; try done. by eapply registry_agrees. }
  apply (pinned_ind (policies kv_top) (λ s log, ∃ l' c', apply_all l (event_of <$> log) = Ok l' ∧
    filter_revocation_events c loss_kinds (event_of <$> log) = (c', [], Ok ()) ∧
    follows l' c' s ∧ well_keyed s) σ σ'); [|done| |done].
  - intros s log p s' rev (l1 & c1 & Hl1 & Hc1 & Hf1 & Hs1) Hp Hu.
    destruct (follows_update l1 c1 s p s' rev Hp Hu Hs1 Hf1) as (l2 & c2 & x & Hl2 & Hc2 & Hx & Hf2 & Hs2).
    exists l2, c2. rewrite fmap_app. split_and!; [|by eapply filter_silent|done..].
    rewrite (apply_all_app _ _ _ _ Hl1). cbn [fmap list_fmap apply_all]. by rewrite Hl2.
  - exists l, c. by rewrite Hlog.
Qed.
End consumer.

Module PolicyWatchExample.
Import PolicyKvExample.

#[local] Existing Instance PolicyKvExample.utc_host.

Definition put_event (r : CapabilityPolicyRecord) (rev : Z) : CapabilityPolicyWatchEvent :=
  MkEvent PUT key1 (Some r) rev.
Definition delete_event (rev : Z) : CapabilityPolicyWatchEvent := MkEvent DELETE key1 None rev.

Lemma put_event_ok r rev : event_ok (put_event r rev).
Proof. by intros _; eexists. Qed.

Lemma redelivery_harmless_witness :
  let es := [put_event (rec None) 1] in
  let again := [put_event (rec revoked) 2; delete_event 3] in
  let later := [put_event (rec None) 4] in
  (l1 ← apply_all (MkLive 0 ∅) (es ++ again); apply_all l1 (again ++ later)) =
    apply_all (MkLive 0 ∅) (es ++ again ++ later).
Proof.
  apply redelivery_harmless.
  repeat (apply List.Forall_cons; [by first [intros [=]|intros _; eexists]|]). constructor.
Defined.

(** A policy that was revoked is removed and registered anew. *)
Definition removed : list CapabilityPolicyWatchEvent := [delete_event 2; put_event (rec None) 3].
Definition knows_revoked : RevocationEventClassifier := <[key1 := revoked]> ∅.

Lemma revocation_loss_reported_witness :
  ∃ x, x ∈ (filter_revocation_events knows_revoked loss_kinds removed).1.2 ∧
    key (event x) = key1 ∧ prior_revoked_at x = revoked ∧ kind x ∈ loss_kinds.
Proof.
  eapply (revocation_loss_reported knows_revoked loss_kinds removed).
  - done.
  - rewrite surjective_pairing. apply pair_eq. split; [apply surjective_pairing|by vm_compute].
  - by vm_compute.
  - by vm_compute.
Defined.

(** With the kinds it selects by default the filter is silent about it. *)
Example default_silent :
  (filter_revocation_events knows_revoked default_kinds removed).1.2 = [] ∧
  last_revoked_at (filter_revocation_events knows_revoked default_kinds removed).1.1 key1 = None.
Proof. split; by vm_compute. Qed.

(** The live snapshot takes updates that come late or twice; the classifier
    reports a breach that the bucket did not have. *)
Example replay_breach :
  kind <$> (filter_revocation_events ∅ default_kinds
              [put_event (rec None) 1; put_event (rec revoked) 2; put_event (rec None) 1]).1.2 =
    [REVOCATION_TRANSITION; REVOCATION_MONOTONIC_BREACH].
Proof. by vm_compute. Qed.

(** An unrevocation is explicit if its marker names the instant that was lost. *)
Definition unrevoked (t : Z) : CapabilityPolicyRecord :=
  MkPolicyRecord (pol None) (u "p1") (Aware 1000000) (u "ops")
    (Some (MkUnrevokeMarker None (Aware t) None)).
Example explicit_unrevoke :
  kind <$> (filter_revocation_events knows_revoked default_kinds [put_event (unrevoked 5000000) 3]).1.2 =
    [EXPLICIT_UNREVOKE] ∧
  kind <$> (filter_revocation_events knows_revoked default_kinds [put_event (unrevoked 5000001) 3]).1.2 =
    [REVOCATION_MONOTONIC_BREACH].
Proof. split; by vm_compute. Qed.

Lemma bucket0_keyed : well_keyed bucket0.
Proof.
  intros k Hk. destruct (decide (k = key1)) as [->|Hne].
  - exists (rec revoked). split; by vm_compute.
  - exfalso. destruct Hk as [e He]. cbn in He. apply fmap_Some in He as ([v r] & He & _).
    unfold bucket0, put in He. destruct (record_key (rec revoked)) as [k'|] eqn:Ek; [|done].
    rewrite bind_Ok in He. destruct (_record_to_envelope (rec revoked)); [|done]. cbn in He.
    assert (k' = key1) as ->. { apply (Ok_inj (E:=policy_kv_error)). rewrite <- Ek. by vm_compute. }
    by rewrite lookup_insert_ne in He.
Qed.

Lemma live_follows_bucket_witness :
  ∃ rs l c l' c',
    snapshot (Some [key1]) (get bucket0) = Ok rs ∧
    from_backend (Some [key1]) (get bucket0) = Ok l ∧ seed_from_records ∅ rs = Ok c ∧
    apply_all l [event_of (waiting, 2)] = Ok l' ∧
    snapshot_registry (Some [key1]) (get bucket1) = Ok (as_registry l') ∧
    filter_revocation_events c loss_kinds [event_of (waiting, 2)] = (c', [], Ok ()).
Proof.
  apply (live_follows_bucket (kv_top:=seq_top) (PinnedSys bucket0 ∅ []) (PinnedSys bucket1 ∅ [(waiting, 2)])).
  - done.
  - done.
  - exact bucket0_keyed.
  - eapply rtc_l; [apply (pin_plan _ _ 0%nat (rec revoked) 1 key1 (pin_blob waiting))|].
    + apply rec_ok; [by apply stamp_small|done].
    + by vm_compute.
    + by vm_compute.
    + done.
    + eapply rtc_l; [apply (pin_update _ _ 0%nat waiting bucket1 2)|].
      * done.
      * apply injective_projections; [reflexivity|by vm_compute].
      * apply rtc_refl.
  - by vm_compute.
  - by vm_compute.
Defined.

(** Updates of a client: a name in any case, a missing value. *)
Example decoding :
  _decode_capability_policy_watch_update
    (MarkerKv.MarkerKv.MkUpdate (Some (u "delete")) (Some (JStr key1)) (Some 7) (KvObj None None)) = Ok (delete_event 7) ∧
  _decode_capability_policy_watch_update
    (MarkerKv.MarkerKv.MkUpdate (Some (u "PUT")) (Some (JStr key1)) (Some 7) (KvObj None None)) =
      Err CapabilityPolicyEnvelopeError ∧
  _decode_capability_policy_watch_update
    (MarkerKv.MarkerKv.MkUpdate (Some (u "PUT")) (Some (JStr key1)) None (KvRaw (pin_blob waiting))) =
      Ok (put_event (rec revoked) 0).
Proof. split_and!; by vm_compute. Qed.
End PolicyWatchExample.
