(* ===== verification/PolicyReplication.v ===== *)
(** * Replication of the policies ([wirelang/schemas/capability_policy_replication.py])

    A replicator copies one policy bucket onto another: a bootstrap from a
    snapshot, then the updates of the source one by one, under one of two
    policies for conflicts.  The target is the bucket of [PolicyKv], the events
    are those of [PolicyWatch].

    The theorems: a target that lags behind the source, however far, has the
    policies of the source once the bootstrap and the updates of the pinned
    writers have been applied, and nothing is counted as a breach; a revocation
    on the target outlives everything a source sends except a removal. *)

From S2P Require Import Prelude PyStr PyJson PyJsonLoads PyDyn PyTime Ledger PinnedKv MarkerKv PolicyKv PolicyWatch.
From S2P Require Policy.
From Stdlib Require Import ZArith Lia.

Open Scope Z_scope.

Inductive CapabilityPolicyReplicationConflictPolicy : Type := SOURCE_WINS | CAS_PIN.
Inductive CapabilityPolicyReplicationDecision : Type := APPLY | SKIP.

Record CapabilityPolicyReplicationMetrics := MkMetrics {
  bootstrap_applied : Z;
  bootstrap_skipped_by_filter : Z;
  bootstrap_skipped_idempotent : Z;
  bootstrap_revocation_breaches : Z;
  events_applied_put : Z;
  events_applied_delete : Z;
  events_skipped_by_filter : Z;
  cas_conflicts : Z;
  revocation_breaches : Z;
  envelope_errors : Z;
}.

#[export] Instance replication_metrics_eq_dec : EqDecision CapabilityPolicyReplicationMetrics.
Proof. solve_decision. Defined.

Module PolicyReplication.
Import PolicyKv.PolicyKv PolicyWatch.PolicyWatch.

Definition no_metrics : CapabilityPolicyReplicationMetrics := MkMetrics 0 0 0 0 0 0 0 0 0 0.

(** The counters; each field of [inc] is what is added. *)
Definition count (inc m : CapabilityPolicyReplicationMetrics) : CapabilityPolicyReplicationMetrics :=
  MkMetrics (bootstrap_applied m + bootstrap_applied inc)
    (bootstrap_skipped_by_filter m + bootstrap_skipped_by_filter inc)
    (bootstrap_skipped_idempotent m + bootstrap_skipped_idempotent inc)
    (bootstrap_revocation_breaches m + bootstrap_revocation_breaches inc)
    (events_applied_put m + events_applied_put inc)
    (events_applied_delete m + events_applied_delete inc)
    (events_skipped_by_filter m + events_skipped_by_filter inc)
    (cas_conflicts m + cas_conflicts inc)
    (revocation_breaches m + revocation_breaches inc)
    (envelope_errors m + envelope_errors inc).

Definition one_boot_applied := MkMetrics 1 0 0 0 0 0 0 0 0 0.
Definition one_boot_filtered := MkMetrics 0 1 0 0 0 0 0 0 0 0.
Definition one_boot_idempotent := MkMetrics 0 0 1 0 0 0 0 0 0 0.
Definition one_boot_breach := MkMetrics 0 0 0 1 0 0 0 0 0 0.
Definition one_put := MkMetrics 0 0 0 0 1 0 0 0 0 0.
Definition one_delete := MkMetrics 0 0 0 0 0 1 0 0 0 0.
Definition one_filtered := MkMetrics 0 0 0 0 0 0 1 0 0 0.
Definition one_conflict := MkMetrics 0 0 0 0 0 0 0 1 0 0.
Definition one_breach := MkMetrics 0 0 0 0 0 0 0 0 1 0.
Definition one_envelope_error := MkMetrics 0 0 0 0 0 0 0 0 0 1.

(** The settings of a replicator.  [None] of the filter is an answer that is no
    decision, which raises TypeError. *)
Record config := MkConfig {
  conflict_policy : CapabilityPolicyReplicationConflictPolicy;
  filter_fn : CapabilityPolicyWatchEvent → option CapabilityPolicyReplicationDecision;
  halt_on_envelope_error : bool;
  halt_on_conflict : bool;
  halt_on_revocation_breach : bool;
}.

Definition _accept_all (_ : CapabilityPolicyWatchEvent) : option CapabilityPolicyReplicationDecision :=
  Some APPLY.
Definition default_config : config := MkConfig SOURCE_WINS _accept_all true false false.

Definition _is_revocation_breach (live : option CapabilityPolicyRecord) (incoming : CapabilityPolicyRecord)
    : bool :=
  match live with
  | None => false
  | Some x =>
      match Policy.revoked_at (policy x) with
      | None => false
      | Some t => match Policy.revoked_at (policy incoming) with
                  | None => true
                  | Some i => negb (dt_eqb i t)
                  end
      end
  end.

Section replicator.
Context `{LocalZone} {T : Type} `{KvBucket T} `{KvPuts T}.

Definition _records_byte_equal (a : CapabilityPolicyRecord) (b : option CapabilityPolicyRecord) : bool :=
  match b with
  | None => false
  | Some b => match _record_to_envelope a, _record_to_envelope b with
              | Ok x, Ok y => bool_decide (x = y)
              | _, _ => false
              end
  end.

(** The target and the counters. *)
Record replica := Replica { target : T; metrics : CapabilityPolicyReplicationMetrics }.

Definition tick (inc : CapabilityPolicyReplicationMetrics) (rp : replica) : replica :=
  Replica (target rp) (count inc (metrics rp)).

(** [put], and the counter if it succeeds. *)
Definition put_and_count (rp : replica) (r : CapabilityPolicyRecord)
    (inc : CapabilityPolicyReplicationMetrics) : replica * result policy_kv_error () :=
  match put (target rp) r with
  | (t', Ok _) => (tick inc (Replica t' (metrics rp)), Ok ())
  | (t', Err e) => (Replica t' (metrics rp), Err e)
  end.

(** ** Bootstrap *)

Definition bootstrap_record (filter_fn : CapabilityPolicyWatchEvent → option CapabilityPolicyReplicationDecision)
    (rp : replica) (r : CapabilityPolicyRecord) : replica * result policy_kv_error () :=
  match record_key r with
  | Err e => (rp, Err e)
  | Ok key =>
      match filter_fn (MkEvent PUT key (Some r) 0) with
      | None => (rp, Err PolicyTypeError)
      | Some SKIP => (tick one_boot_filtered rp, Ok ())
      | Some APPLY =>
          match get (target rp) key with
          | Err e => (rp, Err e)
          | Ok target_record =>
              if _records_byte_equal r target_record then (tick one_boot_idempotent rp, Ok ())
              else if _is_revocation_breach target_record r then (tick one_boot_breach rp, Ok ())
              else put_and_count rp r one_boot_applied
          end
      end
  end.

Fixpoint bootstrap_records (filter_fn : CapabilityPolicyWatchEvent → option CapabilityPolicyReplicationDecision)
    (rp : replica) (rs : list CapabilityPolicyRecord) : replica * result policy_kv_error () :=
  match rs with
  | [] => (rp, Ok ())
  | r :: rs =>
      match bootstrap_record filter_fn rp r with
      | (rp', Ok _) => bootstrap_records filter_fn rp' rs
      | (rp', Err e) => (rp', Err e)
      end
  end.

(** The keys of the source as listed and its entries as they were fetched. *)
Definition bootstrap_capability_policy_target_from_source
    (filter_fn : CapabilityPolicyWatchEvent → option CapabilityPolicyReplicationDecision)
    (rp : replica) (keys : option (list str))
    (fetch : str → result policy_kv_error (option CapabilityPolicyRecord))
    : replica * result policy_kv_error () :=
  match rs ← snapshot keys fetch;
        mapM (λ r, k ← record_key r; Ok (k, r)) rs with
  | Err e => (rp, Err e)
  | Ok keyed => bootstrap_records filter_fn rp (py_sorted (λ a b, str_leb a.1 b.1) keyed).*2
  end.

(** ** Events *)

Section events.
Variable cfg : config.

Definition _apply_put (rp : replica) (e : CapabilityPolicyWatchEvent) : replica * result policy_kv_error () :=
  match record e with
  | None => (rp, Err CapabilityPolicyEnvelopeError)
  | Some r =>
      match conflict_policy cfg with
      | SOURCE_WINS =>
          match get (target rp) (key e) with
          | Err err => (rp, Err err)
          | Ok live =>
              if _is_revocation_breach live r then
                (tick one_breach rp,
                 match live ≫= λ x, Policy.revoked_at (policy x) with
                 | Some t => raise_if (halt_on_revocation_breach cfg)
                               (CapabilityPolicyRevocationConflict (key e) t (Policy.revoked_at (policy r)))
                 | None => Ok ()
                 end)
              else put_and_count rp r one_put
          end
      | CAS_PIN =>
          match get_with_revision (target rp) (key e) with
          | Err err => (rp, Err err)
          | Ok None => put_and_count rp r one_put
          | Ok (Some (_, observed_revision)) =>
              match put_with_revision (target rp) r observed_revision with
              | (t', Ok _) => (tick one_put (Replica t' (metrics rp)), Ok ())
              | (t', Err (CapabilityPolicyRevocationConflict _ _ _ as err)) =>
                  (tick one_breach (Replica t' (metrics rp)), raise_if (halt_on_revocation_breach cfg) err)
              | (t', Err (CapabilityPolicyConflictError _ _ as err)) =>
                  (tick one_conflict (Replica t' (metrics rp)), raise_if (halt_on_conflict cfg) err)
              | (t', Err err) => (Replica t' (metrics rp), Err err)
              end
          end
      end
  end.

Definition _apply_delete (rp : replica) (e : CapabilityPolicyWatchEvent) : replica * result policy_kv_error () :=
  match delete (target rp) (key e) with
  | (t', Ok _) => (tick one_delete (Replica t' (metrics rp)), Ok ())
  | (t', Err err) => (Replica t' (metrics rp), Err err)
  end.

Definition _consume_event (rp : replica) (e : CapabilityPolicyWatchEvent)
    : replica * result policy_kv_error () :=
  match filter_fn cfg e with
  | None => (rp, Err PolicyTypeError)
  | Some SKIP => (tick one_filtered rp, Ok ())
  | Some APPLY => match op e with PUT => _apply_put rp e | _ => _apply_delete rp e end
  end.

Definition is_envelope_error (e : policy_kv_error) : bool := bool_decide (e = CapabilityPolicyEnvelopeError).

(** The handler around the loop. *)
Definition stream_raised (rp : replica) (e : policy_kv_error) : replica * result policy_kv_error () :=
  if is_envelope_error e
  then (tick one_envelope_error rp, raise_if (halt_on_envelope_error cfg) e)
  else (rp, Err e).

(** The loop over what the stream gives: an event, or the error of its decoder.
    An error that the inner handler raises again passes the outer one. *)
Fixpoint tail (rp : replica) (items : list (result policy_kv_error CapabilityPolicyWatchEvent))
    : replica * result policy_kv_error () :=
  match items with
  | [] => (rp, Ok ())
  | Err e :: _ => stream_raised rp e
  | Ok ev :: items =>
      match _consume_event rp ev with
      | (rp', Ok _) => tail rp' items
      | (rp', Err e) =>
          if is_envelope_error e then
            let rp' := tick one_envelope_error rp' in
            if halt_on_envelope_error cfg then stream_raised rp' e else tail rp' items
          else stream_raised rp' e
      end
  end.

Definition run (bootstrap : bool) (rp : replica) (keys : option (list str))
    (fetch : str → result policy_kv_error (option CapabilityPolicyRecord))
    (items : list (result policy_kv_error CapabilityPolicyWatchEvent)) : replica * result policy_kv_error () :=
  match (if bootstrap
         then bootstrap_capability_policy_target_from_source (filter_fn cfg) rp keys fetch
         else (rp, Ok ())) with
  | (rp', Err e) => (rp', Err e)
  | (rp', Ok _) => tail rp' items
  end.
End events.
End replicator.
Arguments replica T : clear implicits.
End PolicyReplication.

Import PolicyKv.PolicyKv PolicyWatch.PolicyWatch PolicyReplication.

(** ** Writes on the target *)

Section writes.
Context `{LocalZone} {T : Type} `{KvLaws T} `{!KvPuts T} `{!KvPutLaws T}.

(** Every entry was written by a well-formed writer, under its own key. *)
Definition good (t : T) : Prop :=
  ∀ k, is_Some (kv_get t k) → ∃ x, get t k = Ok (Some x) ∧ record_key x = Ok k ∧ record_ok x.

(** The target after a record went in. *)
Definition stored (t : T) (k : str) (r : CapabilityPolicyRecord) (t' : T) : Prop :=
  ∀ k', get t' k' = (if decide (k' = k) then Ok (Some r) else get t k') ∧
        (k' ≠ k → kv_get t' k' = kv_get t k').

Lemma good_get t k : good t → get t k = Ok (entry t k).
Proof.
  intros Ht. unfold entry. destruct (kv_get t k) as [e|] eqn:E.
  - destruct (Ht k) as (x & -> & _); [by rewrite E|]. done.
  - unfold get. rewrite E. by destruct (str_empty k).
Qed.

Lemma good_entry t k x : good t → entry t k = Some x → record_key x = Ok k ∧ record_ok x.
Proof.
  intros Ht Hx%entry_some. pose proof Hx as (_ & v & r & Hv & _)%get_entry.
  destruct (Ht k) as (y & Hy & Hr); [by rewrite Hv|]. rewrite Hx in Hy. by injection Hy as ->.
Qed.

Lemma stored_good t k r t' : good t → record_key r = Ok k → record_ok r → stored t k r t' → good t'.
Proof.
  intros Ht Hk Hr Hs k' Hk'. destruct (Hs k') as [Hg Hkv]. rewrite Hg.
  case_decide as Hkk; [subst k'; eauto|]. apply Ht. by rewrite <- Hkv.
Qed.

Lemma stored_entry t k r t' k' :
  stored t k r t' → entry t' k' = if decide (k' = k) then Some r else entry t k'.
Proof. intros Hs. destruct (Hs k') as [Hg _]. unfold entry. rewrite Hg. by case_decide. Qed.

Lemma written_stored t k r b rev t' :
  record_ok r → record_key r = Ok k → _record_to_envelope r = Ok b →
  (∀ k', kv_get t' k' = if decide (k' = k) then Some (KvObj (Some (VBytes b)) (Some rev)) else kv_get t k') →
  stored t k r t'.
Proof.
  intros Hr Hk Hb Hget k'. specialize (Hget k'). case_decide as Hkk.
  - subst k'. split; [|done]. apply get_entry. split; [by eapply record_key_nonempty|].
    exists b, rev. split; [done|]. destruct (record_roundtrip r Hr) as (b' & Hb' & Hread).
    rewrite Hb in Hb'. by apply Ok_inj in Hb' as <-.
  - split; [by apply get_ext|done].
Qed.

Lemma put_stored t r k :
  record_ok r → record_key r = Ok k → ∃ t' rev, put t r = (t', Ok rev) ∧ stored t k r t'.
Proof.
  intros Hr Hk. destruct (record_roundtrip r Hr) as (b & Hb & _).
  unfold put. rewrite Hk, bind_Ok, Hb, bind_Ok. destruct (kv_put t k b) as [t' rev] eqn:E.
  exists t', rev. split; [done|]. eapply written_stored; [done..|]. intros k'. by eapply kv_put_get.
Qed.

Lemma breach_guard k x r : _is_revocation_breach x r = false ↔ revocation_guard k x r = Ok ().
Proof.
  unfold _is_revocation_breach, revocation_guard. destruct x as [x|]; [|done].
  destruct (Policy.revoked_at (policy x)) as [t|]; [|done].
  destruct (Policy.revoked_at (policy r)) as [i|]; [|done]. rewrite raise_if_ok. done.
Qed.

(** The pinned write at the revision that was just read. *)
Lemma pinned_stored t k r x rev :
  record_ok r → record_key r = Ok k → get_with_revision t k = Ok (Some (x, rev)) →
  _is_revocation_breach (Some x) r = false →
  ∃ t' rev', put_with_revision t r rev = (t', Ok rev') ∧ stored t k r t'.
Proof.
  intros Hr Hk Hx Hbreach. unfold get_with_revision in Hx. rewrite (record_key_nonempty r k Hk) in Hx.
  destruct (kv_get t k) as [e|] eqn:E; [|done]. destruct (kv_get_shape _ _ _ E) as (v & rev0 & ->).
  cbn [_coerce_value_bytes _coerce_revision_from_entry] in Hx. rewrite bind_Ok in Hx.
  apply bind_ok_iff in Hx as (x' & Hx & [= -> ->]).
  destruct (record_roundtrip r Hr) as (b & Hb & _).
  unfold put_with_revision, put_plan. rewrite (proj2 (Z.ltb_ge rev 0)) by (by eapply kv_revision_nonneg).
  rewrite raise_if_false, bind_Ok, Hk, bind_Ok.
  assert (get t k = Ok (Some x)) as ->.
  { apply get_entry. split; [by eapply record_key_nonempty|]. eauto. }
  rewrite bind_Ok, (proj1 (breach_guard k _ _) Hbreach), bind_Ok, Hb, bind_Ok.
  unfold _kv_update_with_revision.
  destruct (proj2 (kv_update_at t k v rev rev E b) eq_refl) as [[t' rev'] Eu]. rewrite Eu.
  exists t', rev'. split; [done|]. eapply written_stored; [done..|]. intros k'. by eapply kv_update_get.
Qed.
End writes.

(** ** A replica of pinned writers *)

Section mirror.
Context `{LocalZone}.
Context {S : Type} `{KvLaws S} `{!KvKeys S} `{!KvKeysLaws S} {kv_top : S → Z} `{!KvRevisionLaws S kv_top}.
Context {T : Type} `{KvLaws T} `{!KvPuts T} `{!KvPutLaws T}.

(** The target lags behind: it has no policy that the source does not have, and
    knows of no revocation that the source does not know. *)
Definition behind (t : T) (s : S) : Prop :=
  ∀ k x, entry t k = Some x → ∃ y, entry s k = Some y ∧
    ∀ i, Policy.revoked_at (policy x) = Some i → Policy.revoked_at (policy y) = Some i.

Definition mirrors (t : T) (s : S) : Prop := ∀ k, entry t k = entry s k.

(** The counters of what went wrong. *)
Definition troubles (m : CapabilityPolicyReplicationMetrics) : Z * Z * Z * Z :=
  (bootstrap_revocation_breaches m, revocation_breaches m, cas_conflicts m, envelope_errors m).

Lemma troubles_tick inc (rp : replica T) :
  troubles inc = (0, 0, 0, 0) → troubles (metrics (tick inc rp)) = troubles (metrics rp).
Proof. destruct inc, rp as [t []]. unfold troubles. cbn. intros [= -> -> -> ->]. by rewrite !Z.add_0_r. Qed.

(** No breach if the target knows no revocation that the record does not know. *)
Lemma no_breach (x : option CapabilityPolicyRecord) r :
  (∀ y i, x = Some y → Policy.revoked_at (policy y) = Some i → Policy.revoked_at (policy r) = Some i) →
  _is_revocation_breach x r = false.
Proof.
  unfold _is_revocation_breach. intros Hx. destruct x as [x|]; [|done].
  destruct (Policy.revoked_at (policy x)) as [i|] eqn:Ei; [|done].
  rewrite (Hx x i) by done. unfold dt_eqb. by rewrite bool_decide_true.
Qed.

Lemma put_counted (rp : replica T) r k inc :
  record_ok r → record_key r = Ok k → troubles inc = (0, 0, 0, 0) →
  ∃ rp', put_and_count rp r inc = (rp', Ok ()) ∧ stored (target rp) k r (target rp') ∧
    troubles (metrics rp') = troubles (metrics rp).
Proof.
  intros Hr Hk Hinc. destruct (put_stored (target rp) r k Hr Hk) as (t' & rev & Hput & Hs).
  unfold put_and_count. rewrite Hput. eexists. split; [done|]. split; [done|]. by rewrite troubles_tick.
Qed.

(** *** Bootstrap *)

Lemma bootstrap_one (rp : replica T) s r k :
  good (target rp) → behind (target rp) s → entry s k = Some r → record_key r = Ok k → record_ok r →
  ∃ rp', bootstrap_record _accept_all rp r = (rp', Ok ()) ∧ good (target rp') ∧
    (∀ k', entry (target rp') k' = if decide (k' = k) then Some r else entry (target rp) k') ∧
    troubles (metrics rp') = troubles (metrics rp).
Proof.
  intros Hg Hb Hs Hk Hr. unfold bootstrap_record. rewrite Hk. cbn [_accept_all].
  rewrite (good_get (target rp) k Hg).
  destruct (_records_byte_equal r (entry (target rp) k)) eqn:Eq.
  - exists (tick one_boot_idempotent rp). split; [done|]. split; [done|]. split; [|by apply troubles_tick].
    intros k'. cbn [target tick]. case_decide as Hkk; [|done]. subst k'.
    unfold _records_byte_equal in Eq. destruct (entry (target rp) k) as [b|] eqn:Eb; [|done].
    destruct (good_entry _ _ _ Hg Eb) as [_ Hbok].
    destruct (record_roundtrip r Hr) as (x & Ex & Rx), (record_roundtrip b Hbok) as (y & Ey & Ry).
    rewrite Ex, Ey in Eq. apply bool_decide_eq_true in Eq as ->. rewrite Rx in Ry. by apply Ok_inj in Ry as ->.
  - rewrite no_breach.
    + destruct (put_counted rp r k one_boot_applied Hr Hk eq_refl) as (rp' & Hput & Hst & Hm).
      exists rp'. split; [done|]. split; [by eapply stored_good|]. split; [|done].
      intros k'. by apply stored_entry.
    + intros y i Hy Hi. destruct (Hb k y Hy) as (z & Hz & Hkeep). rewrite Hs in Hz. injection Hz as <-. eauto.
Qed.

Lemma bootstrap_all s rs : ∀ rp : replica T,
  good (target rp) → behind (target rp) s →
  Forall (λ r, ∃ k, entry s k = Some r ∧ record_key r = Ok k ∧ record_ok r) rs →
  ∃ rp', bootstrap_records _accept_all rp rs = (rp', Ok ()) ∧ good (target rp') ∧
    (∀ k, entry (target rp') k = entry (target rp) k ∨ entry (target rp') k = entry s k) ∧
    (∀ k r, r ∈ rs → entry s k = Some r → record_key r = Ok k → entry (target rp') k = Some r) ∧
    troubles (metrics rp') = troubles (metrics rp).
Proof.
  induction rs as [|r rs IH]; intros rp Hg Hb Hrs.
  { exists rp. split_and!; [done..|by left|by intros k r ?%elem_of_nil|done]. }
  apply Forall_cons in Hrs as [(k & Hs & Hk & Hr) Hrs].
  destruct (bootstrap_one rp s r k Hg Hb Hs Hk Hr) as (rp1 & E1 & Hg1 & He1 & Hm1).
  assert (behind (target rp1) s) as Hb1.
  { intros k' x. rewrite He1. case_decide; [intros [= <-]; subst k'; eauto|apply Hb]. }
  destruct (IH rp1 Hg1 Hb1 Hrs) as (rp' & E' & Hg' & Hor & Hin & Hm').
  exists rp'. cbn [bootstrap_records]. rewrite E1. split_and!; [done|done| | |congruence].
  - intros k'. destruct (Hor k') as [->| ->]; [|by right]. rewrite He1.
    case_decide; [right; by subst k'|by left].
  - intros k' x [->|Hx]%elem_of_cons Hx1 Hx2; [|by apply Hin].
    rewrite Hk in Hx2. apply Ok_inj in Hx2 as ->.
    destruct (Hor k') as [->| ->]; [|done]. by rewrite He1, decide_True.
Qed.

Lemma bootstrap_mirrors (rp : replica T) s ks :
  good (target rp) → good s → behind (target rp) s → kv_keys s = Some ks →
  ∃ rp', bootstrap_capability_policy_target_from_source _accept_all rp (Some ks) (get s) = (rp', Ok ()) ∧
    good (target rp') ∧ mirrors (target rp') s ∧ troubles (metrics rp') = troubles (metrics rp).
Proof.
  intros Hg Hs Hb Hks.
  assert (well_keyed s) as Hw by (intros k (x & Hx & Hk & _)%Hs; eauto).
  unfold bootstrap_capability_policy_target_from_source. rewrite snapshot_entries, bind_Ok by done.
  set (rs := omap (entry s) (py_sorted str_leb ks)).
  assert (∀ r, r ∈ rs → ∃ k, entry s k = Some r ∧ record_key r = Ok k ∧ record_ok r) as Hrs.
  { intros r (k & _ & Hr)%list_elem_of_omap. exists k. destruct (good_entry s k r Hs Hr). done. }
  set (key_of := λ r, ok_or [] (record_key r)).
  assert (mapM (λ r, k ← record_key r; Ok (k, r)) rs = Ok ((λ r, (key_of r, r)) <$> rs)) as ->.
  { apply mapM_ok, Forall2_fmap_r, Forall_Forall2_diag, Forall_forall. intros r (k & _ & Hk & _)%Hrs.
    cbn. unfold key_of. by rewrite Hk. }
  cbv beta iota. set (l := (py_sorted _ _).*2).
  assert (l ≡ₚ rs) as Hl.
  { unfold l. rewrite py_sorted_perm, <- list_fmap_compose. by rewrite list_fmap_id. }
  destruct (bootstrap_all s l rp Hg Hb) as (rp' & E & Hg' & Hor & Hin & Hm).
  { apply Forall_forall. intros r. rewrite Hl. apply Hrs. }
  exists rp'. split_and!; [done..| |done]. intros k. destruct (entry s k) as [r|] eqn:Er.
  - apply Hin; [|done|by apply (good_entry s)]. rewrite Hl. apply list_elem_of_omap. exists k.
    split; [|done]. apply elem_of_py_sorted, (kv_keys_in s ks k Hks).
    apply entry_some, get_entry in Er as (_ & v & rev & Hv & _). eauto.
  - destruct (Hor k) as [->| ->]; [|done]. destruct (entry (target rp) k) as [x|] eqn:Ex; [|done].
    destruct (Hb k x Ex) as (y & Hy & _). congruence.
Qed.

(** *** Events *)

Variable cfg : config.

(** A put of a record that loses no revocation, under either policy. *)
Lemma apply_put_stored (rp : replica T) e r :
  record e = Some r → record_ok r → record_key r = Ok (key e) → good (target rp) →
  _is_revocation_breach (entry (target rp) (key e)) r = false →
  ∃ rp', _apply_put cfg rp e = (rp', Ok ()) ∧ stored (target rp) (key e) r (target rp') ∧
    troubles (metrics rp') = troubles (metrics rp).
Proof.
  intros He Hr Hk Hg Hb. unfold _apply_put. rewrite He. destruct (conflict_policy cfg).
  - rewrite (good_get _ (key e) Hg), Hb. by apply put_counted.
  - destruct (get_with_revision (target rp) (key e)) as [[[x rev]|]|err] eqn:Ex.
    + assert (entry (target rp) (key e) = Some x) as Hx.
      { apply entry_some. unfold get_with_revision in Ex. unfold get. destruct (str_empty (key e)); [done|].
        destruct (kv_get (target rp) (key e)) as [kve|]; [|done].
        apply bind_ok_iff in Ex as (b & Eb & Ex). apply bind_ok_iff in Ex as (y & Ey & [= -> _]).
        by rewrite Eb, bind_Ok, Ey. }
      rewrite Hx in Hb. destruct (pinned_stored _ _ _ _ _ Hr Hk Ex Hb) as (t' & rev' & -> & Hst).
      eexists. split; [done|]. split; [done|]. by rewrite troubles_tick.
    + by apply put_counted.
    + exfalso. pose proof (good_get _ (key e) Hg) as Hx. unfold get_with_revision in Ex. unfold get in Hx.
      destruct (str_empty (key e)); [done|]. destruct (kv_get (target rp) (key e)) as [kve|]; [|done].
      destruct (_coerce_value_bytes kve) as [b|]; [|done]. rewrite bind_Ok in Ex; rewrite bind_Ok in Hx.
      by destruct (_envelope_to_record b).
Qed.

Lemma consume_update (rp : replica T) s p s' rev :
  filter_fn cfg = _accept_all → pinned_ok (policies kv_top) s p →
  update_of (policies kv_top) s p = (s', Ok rev) → good (target rp) → mirrors (target rp) s →
  ∃ rp', _consume_event cfg rp (event_of (p, rev)) = (rp', Ok ()) ∧ good (target rp') ∧
    mirrors (target rp') s' ∧ troubles (metrics rp') = troubles (metrics rp).
Proof.
  intros Hf Hp Hu Hg Hm. destruct (update_entries s p s' rev Hp Hu) as (He & Hkeep & _).
  destruct Hp as ((Hr & Hk & _) & _).
  destruct (apply_put_stored rp (event_of (p, rev)) (pin_record p) eq_refl Hr Hk Hg) as (rp' & Ha & Hst & Ht).
  { apply no_breach. intros y i Hy. change (key (event_of (p, rev))) with (pin_key p) in Hy.
    rewrite (Hm (pin_key p)) in Hy. by apply Hkeep. }
  exists rp'. unfold _consume_event. rewrite Hf. cbn [_accept_all op event_of]. split; [done|].
  split; [by eapply stored_good|]. split; [|done]. intros k.
  rewrite (stored_entry _ _ _ _ k Hst), He, (Hm k). done.
Qed.

Lemma tail_app (rp rp' : replica T) es items :
  tail cfg rp (Ok <$> es) = (rp', Ok ()) → tail cfg rp ((Ok <$> es) ++ items) = tail cfg rp' items.
Proof.
  revert rp. induction es as [|e es IH]; intros rp; [by intros [= ->]|].
  rewrite fmap_cons. cbn [tail app]. destruct (_consume_event cfg rp e) as [rp1 [[]|err]]; [apply IH|].
  unfold stream_raised. destruct (is_envelope_error err); [|done].
  destruct (halt_on_envelope_error cfg); [done|apply IH].
Qed.

(** However far a target lags behind its source: after the bootstrap and the
    updates of pinned writers, however these interleave, it has the policies of
    the source under every key.  No write was refused, and nothing was counted as
    a breach, a conflict or an error, under either policy and with any flags. *)
Theorem replica_mirrors (rp : replica T) σ σ' ks :
  filter_fn cfg = _accept_all → good (target rp) → good (pin_bucket σ) → behind (target rp) (pin_bucket σ) →
  pin_writers σ = ∅ → pin_log σ = [] → rtc (pinned_step (policies kv_top)) σ σ' →
  kv_keys (pin_bucket σ) = Some ks →
  ∃ rp', run cfg true rp (Some ks) (get (pin_bucket σ)) ((λ w, Ok (event_of w)) <$> pin_log σ') = (rp', Ok ()) ∧
    (∀ k, get (target rp') k = Ok (entry (pin_bucket σ') k)) ∧
    troubles (metrics rp') = troubles (metrics rp).
Proof.
  intros Hf Hg Hs Hb Hw Hlog Hrun Hks.
  destruct (bootstrap_mirrors rp (pin_bucket σ) ks Hg Hs Hb Hks) as (rp0 & E0 & Hg0 & Hm0 & Ht0).
  unfold run. rewrite Hf, E0.
  enough (∃ rp', tail cfg rp0 (Ok <$> (event_of <$> pin_log σ')) = (rp', Ok ()) ∧ good (target rp') ∧
    mirrors (target rp') (pin_bucket σ') ∧ troubles (metrics rp') = troubles (metrics rp0))
    as (rp' & E & Hg' & Hm & Ht).
  { exists rp'. rewrite <- list_fmap_compose in E. split_and!; [exact E| |congruence].
    intros k. by rewrite (good_get _ k Hg'), (Hm k). }
  apply (pinned_ind (policies kv_top) (λ s log, ∃ rp', tail cfg rp0 (Ok <$> (event_of <$> log)) = (rp', Ok ()) ∧
    good (target rp') ∧ mirrors (target rp') s ∧ troubles (metrics rp') = troubles (metrics rp0)) σ σ');
    [|done| |done].
  - intros s log p s' rev (rp1 & E1 & Hg1 & Hm1 & Ht1) Hp Hu.
    destruct (consume_update rp1 s p s' rev Hf Hp Hu Hg1 Hm1) as (rp2 & E2 & Hg2 & Hm2 & Ht2).
    exists rp2. rewrite !fmap_app, (tail_app _ _ _ _ E1).
    cbn [fmap list_fmap tail]. rewrite E2. split_and!; [done..|congruence].
  - exists rp0. by rewrite Hlog.
Qed.
End mirror.

(** ** Revocations on the target *)

Section safety.
Context `{LocalZone} {T : Type} `{KvLaws T} `{!KvPuts T} `{!KvPutLaws T}.

Definition revoked_in (t : T) (k : str) (i : datetime) : Prop :=
  ∃ y, get t k = Ok (Some y) ∧ Policy.revoked_at (policy y) = Some i.

(** An update as a well-formed writer makes it: the record is stored under its
    own key.  It does not remove [k]. *)
Definition item_ok (k : str) (item : result policy_kv_error CapabilityPolicyWatchEvent) : Prop :=
  match item with
  | Err _ => True
  | Ok e => match op e with
            | PUT => match record e with
                     | Some r => record_ok r ∧ record_key r = Ok (key e)
                     | None => True
                     end
            | _ => key e ≠ k
            end
  end.

Variables (k : str) (i : datetime).

Lemma stored_revoked t k' r t' :
  stored t k' r t' → _is_revocation_breach (entry t k') r = false → revoked_in t k i → revoked_in t' k i.
Proof.
  intros Hst Hb (y & Hy & Hi). destruct (Hst k) as [Hg _].
  destruct (decide (k = k')) as [->|Hne]; unfold revoked_in; rewrite Hg; [|by eauto].
  exists r. split; [done|]. rewrite (proj2 (entry_some t k' y) Hy) in Hb. unfold _is_revocation_breach in Hb.
  rewrite Hi in Hb. destruct (Policy.revoked_at (policy r)) as [j|]; [|done].
  apply negb_false_iff in Hb. unfold dt_eqb in Hb. by apply bool_decide_eq_true in Hb as ->.
Qed.

Lemma put_keeps (rp : replica T) r k' inc :
  record_ok r → record_key r = Ok k' → _is_revocation_breach (entry (target rp) k') r = false →
  revoked_in (target rp) k i → revoked_in (target (put_and_count rp r inc).1) k i.
Proof.
  intros Hr Hk Hb Hin. destruct (put_stored (target rp) r k' Hr Hk) as (t' & rev & Hput & Hst).
  unfold put_and_count. rewrite Hput. by eapply stored_revoked.
Qed.

Lemma ok_entry (t : T) k' x : get t k' = Ok x → entry t k' = x.
Proof. unfold entry. intros ->. by destruct x. Qed.

Lemma pinned_write_keeps (t : T) r rev :
  record_ok r → revoked_in t k i → revoked_in (put_with_revision t r rev).1 k i.
Proof.
  intros Hr Hin. unfold put_with_revision. destruct (put_plan t r rev) as [[k' b]|err] eqn:Hp; [|done].
  unfold put_plan in Hp. apply bind_ok_iff in Hp as ([] & _ & Hp).
  apply bind_ok_iff in Hp as (k1 & Hk & Hp). apply bind_ok_iff in Hp as (x & Hx & Hp).
  apply bind_ok_iff in Hp as ([] & Hg & Hp). apply bind_ok_iff in Hp as (b1 & Hb & [= -> ->]).
  unfold _kv_update_with_revision. destruct (kv_update t k' b rev) as [[t' rev']|] eqn:Eu; [|done].
  apply (stored_revoked t k' r); [|by rewrite (ok_entry _ _ _ Hx); eapply breach_guard|done].
  eapply written_stored; [done..|]. intros k2. by eapply kv_update_get.
Qed.

Lemma bootstrap_keeps f rs : ∀ rp : replica T,
  Forall record_ok rs → revoked_in (target rp) k i →
  revoked_in (target (bootstrap_records f rp rs).1) k i.
Proof.
  induction rs as [|r rs IH]; intros rp Hrs Hin; [done|]. apply Forall_cons in Hrs as [Hr Hrs].
  cbn [bootstrap_records].
  enough (revoked_in (target (bootstrap_record f rp r).1) k i).
  { destruct (bootstrap_record f rp r) as [rp' [[]|]]; [by apply IH|done]. }
  unfold bootstrap_record. destruct (record_key r) as [k'|] eqn:Hk; [|done].
  destruct (f _) as [[]|]; [|done..]. destruct (get (target rp) k') as [x|] eqn:Hx; [|done].
  destruct (_records_byte_equal r x); [done|]. destruct (_is_revocation_breach x r) eqn:Hb; [done|].
  apply (put_keeps rp r k'); [done|done| |done]. by rewrite (ok_entry _ _ _ Hx).
Qed.

Lemma consume_keeps cfg (rp : replica T) e :
  item_ok k (Ok e) → revoked_in (target rp) k i → revoked_in (target (_consume_event cfg rp e).1) k i.
Proof.
  unfold item_ok, _consume_event. intros He Hin. destruct (filter_fn cfg e) as [[]|]; [|done..].
  assert (key e ≠ k → revoked_in (target (_apply_delete rp e).1) k i) as Hdel.
  { intros Hne. unfold _apply_delete, delete. destruct (str_empty (key e)); [done|].
    destruct (kv_get (target rp) (key e)); [|done]. cbn. destruct Hin as (y & Hy & Hi). exists y.
    split; [|done]. rewrite <- Hy. apply get_ext. by rewrite kv_delete_get, decide_False. }
  destruct (op e); [|by apply Hdel..]. unfold _apply_put. destruct (record e) as [r|]; [|done].
  destruct He as [Hr Hk]. destruct (conflict_policy cfg).
  - destruct (get (target rp) (key e)) as [x|] eqn:Hx; [|done].
    destruct (_is_revocation_breach x r) eqn:Hb; [done|].
    apply (put_keeps rp r (key e)); [done|done| |done]. by rewrite (ok_entry _ _ _ Hx).
  - destruct (get_with_revision (target rp) (key e)) as [[[x rev]|]|] eqn:Hx; [| |done].
    + pose proof (pinned_write_keeps (target rp) r rev Hr Hin) as Hpin.
      destruct (put_with_revision (target rp) r rev) as [t' [?|[]]]; done.
    + apply (put_keeps rp r (key e)); [done|done| |done].
      unfold get_with_revision in Hx. unfold entry, get.
      destruct (str_empty (key e)); [done|]. destruct (kv_get (target rp) (key e)); [|done].
      destruct (_coerce_value_bytes _); [|done]. rewrite bind_Ok in Hx. rewrite bind_Ok.
      by destruct (_envelope_to_record _).
Qed.

Lemma tail_keeps cfg items : ∀ rp : replica T,
  Forall (item_ok k) items → revoked_in (target rp) k i → revoked_in (target (tail cfg rp items).1) k i.
Proof.
  induction items as [|[e|err] items IH]; intros rp Hit Hin; [done|..].
  - apply Forall_cons in Hit as [He Hit]. cbn [tail]. pose proof (consume_keeps cfg rp e He Hin) as Hc.
    destruct (_consume_event cfg rp e) as [rp' [[]|err]]; [by apply IH|]. unfold stream_raised.
    destruct (is_envelope_error err); [|done]. destruct (halt_on_envelope_error cfg); [done|by apply IH].
  - cbn [tail]. unfold stream_raised. by destruct (is_envelope_error err).
Qed.

(** A revocation on the target is not overwritten: whatever the settings, the
    state of the source, the filter and the way the run ends, the policy stays
    revoked at the same instant unless the source removes it. *)
Theorem replica_keeps_revocation cfg boot (rp : replica T) keys fetch items :
  (∀ k' r, fetch k' = Ok (Some r) → record_ok r) → Forall (item_ok k) items →
  revoked_in (target rp) k i → revoked_in (target (run cfg boot rp keys fetch items).1) k i.
Proof.
  intros Hf Hit Hin. unfold run.
  enough (∀ rp' res, (if boot then bootstrap_capability_policy_target_from_source (filter_fn cfg) rp keys fetch
    else (rp, Ok ())) = (rp', res) → revoked_in (target rp') k i) as Hboot.
  { destruct (if boot then _ else _) as [rp' [[]|]] eqn:E; [|by eapply Hboot].
    apply tail_keeps; [done|by eapply Hboot]. }
  intros rp' res. destruct boot; [|by intros [= <- _]].
  unfold bootstrap_capability_policy_target_from_source.
  destruct (rs ← snapshot keys fetch; _) as [keyed|err] eqn:E; [|by intros [= <- _]].
  intros Hb. replace rp' with (rp', res).1 by done. rewrite <- Hb. apply bootstrap_keeps; [|done].
  apply bind_ok_iff in E as (rs & Hrs & E%mapM_ok).
  apply bind_ok_iff in Hrs as (ks & _ & Hrs). apply bind_ok_iff in Hrs as (xs & Hxs%mapM_ok & <-%Ok_inj).
  apply Forall_fmap, Forall_forall. intros [k' r]. rewrite py_sorted_perm. cbn.
  intros (r0 & Hr0 & Hin0)%(Forall2_right_elem _ _ _ _ E). apply bind_ok_iff in Hr0 as (k0 & _ & [= -> ->]).
  apply list_elem_of_omap in Hin0 as (x & Hx & Hr). unfold id in Hr. subst x.
  destruct (Forall2_right_elem _ _ _ _ Hxs Hx) as (k1 & Hk1 & _). by eapply Hf.
Qed.
End safety.

Module PolicyReplicationExample.
Import PolicyKvExample PolicyWatchExample.

#[local] Existing Instance PolicyKvExample.utc_host.

Definition nothing : seq_kv := SeqKv ∅.
Definition on (t : seq_kv) : replica seq_kv := Replica t no_metrics.
Definition pinned : config := MkConfig CAS_PIN _accept_all true false false.
Definition result_of (cfg : config) (t : seq_kv)
    (items : list (result policy_kv_error CapabilityPolicyWatchEvent)) : replica seq_kv * result policy_kv_error () :=
  run cfg false (on t) None (λ _, Ok None) items.

Lemma revoked_ok : record_ok (rec revoked).
Proof. apply rec_ok; [by apply stamp_small|done]. Qed.
Lemma unrevoked_ok : record_ok (rec None).
Proof. by apply rec_ok. Qed.
Lemma key_of_rec r : record_key (rec r) = Ok key1.
Proof. by vm_compute. Qed.

Lemma nothing_good : good nothing.
Proof. intros k [e He]. done. Qed.

Lemma bucket0_good : good bucket0.
Proof.
  destruct (put_stored nothing (rec revoked) key1 revoked_ok (key_of_rec _)) as (t' & rev & E & Hst).
  unfold bucket0. fold nothing. rewrite E. by eapply stored_good, Hst; [apply nothing_good|apply key_of_rec|apply revoked_ok].
Qed.

Lemma replica_mirrors_witness :
  ∃ rp', run pinned true (on nothing) (Some [key1]) (get bucket0) [Ok (event_of (waiting, 2))] = (rp', Ok ()) ∧
    (∀ k, get (target rp') k = Ok (entry bucket1 k)) ∧ troubles (metrics rp') = troubles no_metrics.
Proof.
  apply (replica_mirrors (kv_top:=seq_top) pinned (on nothing) (PinnedSys bucket0 ∅ []) (PinnedSys bucket1 ∅ [(waiting, 2)])).
  - done.
  - exact nothing_good.
  - exact bucket0_good.
  - intros k x (_ & v & r & Hv & _)%entry_some%get_entry. done.
  - done.
  - done.
  - eapply rtc_l; [apply (pin_plan _ _ 0%nat (rec revoked) 1 key1 (pin_blob waiting))|].
    + exact revoked_ok.
    + by vm_compute.
    + by vm_compute.
    + done.
    + eapply rtc_l; [apply (pin_update _ _ 0%nat waiting bucket1 2)|].
      * done.
      * apply injective_projections; [reflexivity|by vm_compute].
      * apply rtc_refl.
  - by vm_compute.
Defined.

Lemma replica_keeps_revocation_witness :
  revoked_in (target (result_of default_config bucket0 [Ok (put_event (rec None) 1)]).1) key1 (Aware 5000000).
Proof.
  apply (replica_keeps_revocation key1 (Aware 5000000) default_config false (on bucket0) None (λ _, Ok None)).
  - done.
  - constructor; [|constructor]. split; [apply unrevoked_ok|apply key_of_rec].
  - exists (rec revoked). split; [by vm_compute|done].
Defined.

Definition counters (x : replica seq_kv * result policy_kv_error ()) := troubles (metrics x.1).

(** A refused write is one breach, under either policy, and no conflict. *)
Example breach_counted :
  counters (result_of default_config bucket0 [Ok (put_event (rec None) 1)]) = (0, 1, 0, 0) ∧
  counters (result_of pinned bucket0 [Ok (put_event (rec None) 1)]) = (0, 1, 0, 0).
Proof. split; by vm_compute. Qed.

(** A removal carries the revocation away, and nothing is counted. *)
Example removed_silently :
  let x := result_of default_config bucket0 [Ok (delete_event 2); Ok (put_event (rec None) 3)] in
  get (target x.1) key1 = Ok (Some (rec None)) ∧ counters x = (0, 0, 0, 0).
Proof. split; by vm_compute. Qed.

(** A record that lies under another key of the source overwrites a revocation
    of the target: the check reads the key of the event, the write goes to the
    key of the record. *)
Example other_key_overwrites :
  let x := result_of default_config bucket0 [Ok (MkEvent PUT (u "elsewhere") (Some (rec None)) 1)] in
  get (target x.1) key1 = Ok (Some (rec None)) ∧ counters x = (0, 0, 0, 0).
Proof. split; by vm_compute. Qed.

(** An unreadable entry of the target is counted twice. *)
Example counted_twice :
  let x := result_of default_config (seq_write nothing key1 []).1 [Ok (put_event (rec None) 1)] in
  counters x = (0, 0, 0, 2) ∧ x.2 = Err CapabilityPolicyEnvelopeError.
Proof. split; by vm_compute. Qed.

(** The check and the write are two steps: a revocation that another writer of
    the target makes between them is overwritten. *)
Example revoked_in_between :
  let t0 := (put nothing (rec None)).1 in
  let t1 := (put_with_revision t0 (rec revoked) 1).1 in
  _is_revocation_breach (entry t0 key1) (rec None) = false ∧
  get t1 key1 = Ok (Some (rec revoked)) ∧
  get (target (put_and_count (on t1) (rec None) one_put).1) key1 = Ok (Some (rec None)).
Proof. split_and!; by vm_compute. Qed.

(** A bootstrap does not remove what the source does not have. *)
Example extra_key_stays :
  get (target (run default_config true (on bucket0) (Some []) (get nothing) []).1) key1 = Ok (Some (rec revoked)).
Proof. by vm_compute. Qed.
End PolicyReplicationExample.
