(* ===== verification/AttestationKv.v ===== *)
(** * Attestations on a bucket
      ([wirelang/federation/multi_org_attestation_nats_kv_backend.py])

    An attestation of [MultiOrg] is one entry of a key-value bucket, under its
    route id.  A write is checked against the live entry: what an attestation
    states stays, optional fields may be added.  The bucket is [Ledger]'s; a
    pinned write is split where it awaits, so that [PinnedKv] applies.

    The theorems: envelopes read back; the check accepts exactly the extensions
    of the live attestation; under every interleaving of pinned writers an
    attestation is only extended; a consumer that starts from a snapshot and
    applies the updates of pinned writers has the registry of the bucket. *)

From S2P Require Import Prelude PyStr PyJson PyJsonLoads PyDyn PyEqual Ledger PinnedKv MarkerKv PolicyKv MultiOrg.
From Stdlib Require Import ZArith Lia.

Open Scope Z_scope.

Inductive attestation_kv_error : Type :=
| MultiOrgAttestationEnvelopeError
| MultiOrgAttestationCasConflict (route_id : str) (expected_revision : Z)
| MultiOrgAttestationMonotonicConflict (route_id breach_kind : str)
    (existing incoming : MultiOrgRouteAttestation)
| RegistryError (e : multi_org_error)      (* of the in-memory registry *)
| RevisionError                            (* ValueError: a negative revision *)
| RouteIdError                             (* ValueError: an empty route id *)
| AttestationUnicodeError                  (* UnicodeEncodeError of a text value *)
| AttestationTypeError                     (* TypeError: an answer that is no decision *)
| AttestationClientError.                  (* an exception of the client *)

#[export] Instance attestation_kv_error_eq_dec : EqDecision attestation_kv_error.
Proof. solve_decision. Defined.

Inductive MultiOrgAttestationWatchOp : Type := PUT | DELETE | PURGE.

#[export] Instance attestation_watch_op_eq_dec : EqDecision MultiOrgAttestationWatchOp.
Proof. solve_decision. Defined.

Record MultiOrgAttestationWatchEvent := MkEvent {
  op : MultiOrgAttestationWatchOp;
  route_id : str;
  attested : option MultiOrgRouteAttestation;
  revision : Z;
}.

Record LiveMultiOrgAttestationSnapshot := MkLive {
  last_revision : Z;
  _live : MultiOrg.registry;
}.

Module AttestationKv.
Import PolicyKv.PolicyKv(text_json, text_of, opt_text_of, bool_of, get_field).

Definition BUCKET_NAME : str := u "wakir-multi-org-attestations".
Definition VALUE_SCHEMA : str := u "wakir.federation.multi-org-attestation/1".

(** ** Envelopes *)

Definition envelope_members (a : MultiOrgRouteAttestation) : list (str * json) :=
  [(u "schema", JStr VALUE_SCHEMA);
   (u "route_id", JStr (att_route_id a));
   (u "peer_trust_domain", JStr (peer_trust_domain a));
   (u "peer_audit_anchor_did", JStr (peer_audit_anchor_did a));
   (u "peer_wat_anchor_manifest_id", text_json (peer_wat_anchor_manifest_id a));
   (u "peer_trust_bundle_url", text_json (peer_trust_bundle_url a));
   (u "peer_capability_policy_pointer", text_json (peer_capability_policy_pointer a));
   (u "is_mock", JBool (is_mock a))].

Definition _attestation_to_envelope (a : MultiOrgRouteAttestation) : result attestation_kv_error bytes :=
  of_option AttestationUnicodeError (utf8_encode (json_dumps true true (JObj (envelope_members a)))).

Definition bad {A} (o : option A) : result attestation_kv_error A :=
  of_option MultiOrgAttestationEnvelopeError o.

Definition _envelope_to_attestation (blob : bytes) : result attestation_kv_error MultiOrgRouteAttestation :=
  text ← bad (utf8_decode blob);
  payload ← bad (json_loads text);
  match payload with
  | JObj d =>
      raise_if (negb (py_eq (get_field d (u "schema")) (JStr VALUE_SCHEMA))) MultiOrgAttestationEnvelopeError;;
      rid ← bad (dict_get d (u "route_id"));
      domain ← bad (dict_get d (u "peer_trust_domain"));
      did ← bad (dict_get d (u "peer_audit_anchor_did"));
      mock ← bad (dict_get d (u "is_mock"));
      rid ← bad (text_of rid);
      domain ← bad (text_of domain);
      did ← bad (text_of did);
      manifest ← bad (opt_text_of (get_field d (u "peer_wat_anchor_manifest_id")));
      bundle ← bad (opt_text_of (get_field d (u "peer_trust_bundle_url")));
      pointer ← bad (opt_text_of (get_field d (u "peer_capability_policy_pointer")));
      mock ← bad (bool_of mock);
      map_err (λ _, MultiOrgAttestationEnvelopeError)
        (MultiOrg.new_attestation (MkAttestation rid domain did manifest bundle pointer mock))
  | _ => Err MultiOrgAttestationEnvelopeError
  end.

Definition _coerce_value_bytes (kve : kv_entry) : result attestation_kv_error bytes :=
  match kve with
  | KvRaw b => Ok b
  | KvObj None _ => Err MultiOrgAttestationEnvelopeError
  | KvObj (Some (VBytes b)) _ => Ok b
  | KvObj (Some (VStr s)) _ => of_option AttestationUnicodeError (utf8_encode s)
  end.

Definition _coerce_revision_from_entry (kve : kv_entry) : Z :=
  match kve with KvObj _ (Some r) => r | _ => 0 end.

(** ** The check of a write *)

(** The loop over the optional fields. *)
Definition optional_fields : list (str * (MultiOrgRouteAttestation → option str)) :=
  [(u "peer_wat_anchor_manifest_id", peer_wat_anchor_manifest_id);
   (u "peer_trust_bundle_url", peer_trust_bundle_url);
   (u "peer_capability_policy_pointer", peer_capability_policy_pointer)].

Fixpoint check_optional (fields : list (str * (MultiOrgRouteAttestation → option str)))
    (route_id : str) (existing incoming : MultiOrgRouteAttestation) : result attestation_kv_error () :=
  match fields with
  | [] => Ok ()
  | (name, field) :: fields =>
      if bool_decide (field existing = None) || bool_decide (field existing = field incoming)
      then check_optional fields route_id existing incoming
      else Err (MultiOrgAttestationMonotonicConflict route_id (u "optional-mutation:" ++ name) existing incoming)
  end.

Definition _check_monotonic_invariant (route_id : str) (existing : option MultiOrgRouteAttestation)
    (incoming : MultiOrgRouteAttestation) : result attestation_kv_error () :=
  match existing with
  | None => Ok ()
  | Some x =>
      if bool_decide (x = incoming) then Ok ()
      else
        raise_if (bool_decide (peer_trust_domain x ≠ peer_trust_domain incoming))
          (MultiOrgAttestationMonotonicConflict route_id (u "trust-domain-mutation") x incoming);;
        raise_if (bool_decide (peer_audit_anchor_did x ≠ peer_audit_anchor_did incoming))
          (MultiOrgAttestationMonotonicConflict route_id (u "audit-anchor-did-mutation") x incoming);;
        raise_if (bool_decide (is_mock x ≠ is_mock incoming))
          (MultiOrgAttestationMonotonicConflict route_id (u "mock-flag-mutation") x incoming);;
        check_optional optional_fields route_id x incoming
  end.

(** ** The backend *)

Section backend.
Context {S : Type} `{KvBucket S} `{KvKeys S} `{KvPuts S}.

Definition get (s : S) (rid : str) : result attestation_kv_error (option MultiOrgRouteAttestation) :=
  if str_empty rid then Ok None
  else match kv_get s rid with
       | None => Ok None
       | Some kve =>
           blob ← _coerce_value_bytes kve;
           a ← _envelope_to_attestation blob;
           Ok (Some a)
       end.

Definition get_with_revision (s : S) (rid : str)
    : result attestation_kv_error (option (MultiOrgRouteAttestation * Z)) :=
  if str_empty rid then Ok None
  else match kv_get s rid with
       | None => Ok None
       | Some kve =>
           blob ← _coerce_value_bytes kve;
           a ← _envelope_to_attestation blob;
           Ok (Some (a, _coerce_revision_from_entry kve))
       end.

(** The read, the check and the envelope of a write. *)
Definition write_plan (s : S) (a : MultiOrgRouteAttestation) : result attestation_kv_error (str * bytes) :=
  existing ← get s (att_route_id a);
  _check_monotonic_invariant (att_route_id a) existing a;;
  blob ← _attestation_to_envelope a;
  Ok (att_route_id a, blob).

Definition put (s : S) (a : MultiOrgRouteAttestation) : S * result attestation_kv_error Z :=
  match write_plan s a with
  | Err e => (s, Err e)
  | Ok (key, blob) => let '(s', rev) := kv_put s key blob in (s', Ok rev)
  end.

(** Everything of [put_with_revision] up to the update. *)
Definition put_plan (s : S) (a : MultiOrgRouteAttestation) (expected : Z)
    : result attestation_kv_error (str * bytes) :=
  raise_if (expected <? 0) RevisionError;; write_plan s a.

Definition _kv_update_with_revision (s : S) (key : str) (blob : bytes) (expected : Z)
    : S * result attestation_kv_error Z :=
  match kv_update s key blob expected with
  | Some (s', rev) => (s', Ok rev)
  | None => (s, Err (MultiOrgAttestationCasConflict key expected))
  end.

(** A call that no other write interrupts. *)
Definition put_with_revision (s : S) (a : MultiOrgRouteAttestation) (expected : Z)
    : S * result attestation_kv_error Z :=
  match put_plan s a expected with
  | Err e => (s, Err e)
  | Ok (key, blob) => _kv_update_with_revision s key blob expected
  end.

Definition delete (s : S) (rid : str) : S * result attestation_kv_error () :=
  if str_empty rid then (s, Err RouteIdError)
  else match kv_get s rid with
       | None => (s, Ok ())
       | Some _ => (kv_delete s rid, Ok ())
       end.

Definition list_keys (s : S) : result attestation_kv_error (list str) :=
  of_option AttestationClientError (kv_keys s).
End backend.

(** ** Snapshots *)

Definition add_fetched (reg : MultiOrg.registry) (a : option MultiOrgRouteAttestation)
    : result attestation_kv_error MultiOrg.registry :=
  match a with
  | None => Ok reg
  | Some a => map_err RegistryError (MultiOrg.add reg a)
  end.

(** The keys as listed and the entries as they were fetched. *)
Fixpoint snapshot_from (reg : MultiOrg.registry) (keys : list str)
    (fetch : str → result attestation_kv_error (option MultiOrgRouteAttestation))
    : result attestation_kv_error MultiOrg.registry :=
  match keys with
  | [] => Ok reg
  | key :: keys =>
      a ← fetch key;
      reg' ← add_fetched reg a;
      snapshot_from reg' keys fetch
  end.

Definition snapshot (keys : option (list str))
    (fetch : str → result attestation_kv_error (option MultiOrgRouteAttestation))
    : result attestation_kv_error MultiOrg.registry :=
  keys ← of_option AttestationClientError keys;
  snapshot_from ∅ keys fetch.

(** ** The watch stream *)

Definition op_value (o : MultiOrgAttestationWatchOp) : str :=
  match o with PUT => u "PUT" | DELETE => u "DELETE" | PURGE => u "PURGE" end.

(** [upper()], as far as the comparison can tell. *)
Definition op_of_name (name : str) : option MultiOrgAttestationWatchOp :=
  let name := (λ c, if is_lower c then c - 32 else c) <$> name in
  List.find (λ o, str_eqb name (op_value o)) [PUT; DELETE; PURGE].

Definition _decode_watch_update (update : MarkerKv.kv_update_msg)
    : result attestation_kv_error MultiOrgAttestationWatchEvent :=
  name ← bad (MarkerKv.upd_operation update);
  o ← bad (op_of_name name);
  k ← bad (MarkerKv.upd_key update ≫= text_of);
  raise_if (str_empty k) MultiOrgAttestationEnvelopeError;;
  let rev := default 0 (MarkerKv.upd_revision update) in
  match o with
  | PUT =>
      blob ← _coerce_value_bytes (MarkerKv.upd_entry update);
      a ← _envelope_to_attestation blob;
      Ok (MkEvent o k (Some a) rev)
  | _ => Ok (MkEvent o k None rev)
  end.

(** One [__anext__] on the updates to come: the event, or the error, and the
    updates left.  A missing update is skipped by an iterator and ends a
    watcher with [updates()]. *)
Fixpoint anext (iterator : bool) (updates : list (option MarkerKv.kv_update_msg))
    : option (result attestation_kv_error MultiOrgAttestationWatchEvent *
              list (option MarkerKv.kv_update_msg)) :=
  match updates with
  | [] => None
  | None :: rest => if iterator then anext iterator rest else None
  | Some upd :: rest => Some (_decode_watch_update upd, rest)
  end.

(** ** The live snapshot *)

(** [add] of every attestation of a registry into an empty one.  The order is
    not that of the dictionary; it decides neither the outcome nor the result. *)
Definition readd (reg : MultiOrg.registry) : result attestation_kv_error MultiOrg.registry :=
  map_err RegistryError (MultiOrg.add_all ∅ (map_to_list reg).*2).

Definition new_live (initial : MultiOrg.registry) (last : Z)
    : result attestation_kv_error LiveMultiOrgAttestationSnapshot :=
  m ← readd initial; Ok (MkLive last m).

Definition apply (l : LiveMultiOrgAttestationSnapshot) (e : MultiOrgAttestationWatchEvent)
    : result attestation_kv_error LiveMultiOrgAttestationSnapshot :=
  m ← match op e with
      | PUT => match attested e with
               | Some a => Ok (<[route_id e := a]> (_live l))
               | None => Err MultiOrgAttestationEnvelopeError
               end
      | _ => Ok (base.delete (route_id e) (_live l))
      end;
  Ok (MkLive (if last_revision l <? revision e then revision e else last_revision l) m).

Definition as_registry (l : LiveMultiOrgAttestationSnapshot) : result attestation_kv_error MultiOrg.registry :=
  readd (_live l).

Definition from_backend (keys : option (list str))
    (fetch : str → result attestation_kv_error (option MultiOrgRouteAttestation))
    : result attestation_kv_error LiveMultiOrgAttestationSnapshot :=
  initial ← snapshot keys fetch; new_live initial 0.
End AttestationKv.

Import AttestationKv.

(** ** What the check accepts *)

(** A field that is set stays what it is. *)
Definition additive {A} (x y : option A) : Prop := ∀ v, x = Some v → y = Some v.

#[export] Instance additive_preorder {A} : PreOrder (@additive A).
Proof. split; [by intros x v|]. intros x y z Hxy Hyz v Hv. by apply Hyz, Hxy. Qed.

Record extends (x y : MultiOrgRouteAttestation) : Prop := {
  same_domain : peer_trust_domain y = peer_trust_domain x;
  same_anchor : peer_audit_anchor_did y = peer_audit_anchor_did x;
  same_mock : is_mock y = is_mock x;
  more_manifest : additive (peer_wat_anchor_manifest_id x) (peer_wat_anchor_manifest_id y);
  more_bundle : additive (peer_trust_bundle_url x) (peer_trust_bundle_url y);
  more_pointer : additive (peer_capability_policy_pointer x) (peer_capability_policy_pointer y);
}.

#[export] Instance extends_preorder : PreOrder extends.
Proof.
  split; [by split|]. intros x y z [] []. split; try congruence; by etrans.
Qed.

Section check.

Lemma additive_iff {A} `{EqDecision A} (x y : option A) :
  bool_decide (x = None) || bool_decide (x = y) = true ↔ additive x y.
Proof.
  rewrite orb_true_iff, !bool_decide_eq_true. unfold additive.
  destruct x as [v|]; [|naive_solver]. split; [intros [?|<-]; naive_solver|].
  intros Hx. right. by rewrite (Hx v).
Qed.

Lemma check_optional_ok fields rid x y :
  check_optional fields rid x y = Ok () ↔ Forall (λ f, additive (f.2 x) (f.2 y)) fields.
Proof.
  induction fields as [|[n f] fields IH]; cbn [check_optional]; [by rewrite Forall_nil|].
  rewrite Forall_cons, <- additive_iff. cbn [snd].
  destruct (bool_decide (f x = None) || bool_decide (f x = f y)); [by rewrite IH; naive_solver|naive_solver].
Qed.

(** The check passes exactly the extensions of the live attestation. *)
Lemma monotonic_ok rid existing y :
  _check_monotonic_invariant rid existing y = Ok () ↔ ∀ x, existing = Some x → extends x y.
Proof.
  unfold _check_monotonic_invariant. destruct existing as [x|]; [|naive_solver].
  case_bool_decide as Exy.
  { split; [|done]. intros _ x' [= <-]. by subst. }
  split.
  - intros Hc x' [= <-]. run_ok.
    repeat match goal with E : bool_decide _ = false |- _ => apply bool_decide_eq_false, dec_stable in E end.
    apply check_optional_ok in Hc. repeat (apply Forall_cons in Hc as [? Hc]). by split.
  - intros He. destruct (He x eq_refl) as [E1 E2 E3 E4 E5 E6].
    rewrite E1, E2, E3. rewrite !bool_decide_false by (intros Hn; by apply Hn). rewrite raise_if_false, !bind_Ok.
    apply check_optional_ok. by repeat constructor.
Qed.

(** Every other call raises, and names the route, the first breach and both
    attestations. *)
Lemma monotonic_refused rid existing y e :
  _check_monotonic_invariant rid existing y = Err e →
  ∃ x kind, existing = Some x ∧ ¬ extends x y ∧ e = MultiOrgAttestationMonotonicConflict rid kind x y.
Proof.
  intros He. assert (¬ ∀ x, existing = Some x → extends x y) as Hn by (rewrite <- (monotonic_ok rid), He; done).
  destruct existing as [x|]; [|by destruct Hn]. exists x.
  assert (¬ extends x y) as Hx by (intros Hx; apply Hn; by intros ? [= <-]).
  enough (∃ kind, e = MultiOrgAttestationMonotonicConflict rid kind x y) as [kind ->] by eauto.
  assert (∀ fields e, check_optional fields rid x y = Err e →
    ∃ kind, e = MultiOrgAttestationMonotonicConflict rid kind x y) as Hopt.
  { clear. induction fields as [|[n f] fields IH]; intros e; cbn [check_optional]; [done|].
    destruct (_ || _); [apply IH|]. intros [= <-]. eauto. }
  unfold _check_monotonic_invariant in He. case_bool_decide; [done|].
  repeat (apply bind_err_iff in He as [[_ <-]%raise_if_err|([] & _ & He)]; [by eauto|]). by eapply Hopt.
Qed.
End check.

(** ** Envelopes read back *)

(** What the constructor accepts, with texts that UTF-8 can encode. *)
Record attestation_ok (a : MultiOrgRouteAttestation) : Prop := {
  ok_valid : MultiOrg.new_attestation a = Ok a;
  ok_texts : okstr (att_route_id a) ∧ okstr (peer_trust_domain a) ∧ okstr (peer_audit_anchor_did a);
  ok_optional : Forall (λ f, PolicyKv.opt_ok okstr (f.2 a)) optional_fields;
}.

Section envelopes.

Lemma ok_route a : attestation_ok a → str_empty (att_route_id a) = false.
Proof. intros [Hv _ _]. unfold MultiOrg.new_attestation in Hv. by destruct (att_route_id a). Qed.

Lemma members_wf a : attestation_ok a → json_wf (JObj (envelope_members a)).
Proof.
  intros [_ (Hr & Hd & Hi) Ho]. repeat (apply Forall_cons in Ho as [? Ho]). apply json_wf_obj. split.
  - apply (bool_decide_unpack _). by vm_compute.
  - unfold envelope_members. repeat (apply List.Forall_cons; [split; [done|]|]); try done;
      by apply PolicyKv.opt_text_reads.
Qed.

(** An envelope can always be written. *)
Lemma envelope_exists a : ∃ b, _attestation_to_envelope a = Ok b.
Proof.
  unfold _attestation_to_envelope.
  destruct (ascii_encodable (json_dumps true true (JObj (envelope_members a)))) as [b ->]; [|by exists b].
  apply (print_ascii (λ _, True)), ok_strings_sort.
  destruct a as [r d i [m|] [b|] [p|] k]; cbn; by split_and!.
Qed.

Lemma written_member a k v :
  dict_get (envelope_members a) k = Some v →
  dict_get (PolicyKv.written (envelope_members a)) k = Some (json_sort v).
Proof.
  intros Hv. unfold PolicyKv.written. rewrite dict_get_sorted; [by rewrite Hv|].
  apply (bool_decide_unpack _). by vm_compute.
Qed.

(** An envelope is read as the attestation it was written for. *)
Theorem attestation_roundtrip a :
  attestation_ok a → ∃ b, _attestation_to_envelope a = Ok b ∧ _envelope_to_attestation b = Ok a.
Proof.
  intros Ha. destruct (envelope_exists a) as [b Hb]. exists b. split; [done|].
  unfold _attestation_to_envelope in Hb.
  destruct (utf8_encode _) as [b'|] eqn:Eb; [|done]. apply Ok_inj in Hb as ->.
  unfold _envelope_to_attestation. rewrite (utf8_decode_encode _ _ Eb). cbn [bad of_option]. rewrite bind_Ok.
  rewrite json_loads_dumps by (by apply members_wf). cbn [bad of_option]. rewrite bind_Ok.
  change (json_sort (JObj ?d)) with (JObj (PolicyKv.written d)). cbv beta iota.
  unfold PolicyKv.get_field.
  rewrite (written_member a (u "schema") _ eq_refl), (written_member a (u "route_id") _ eq_refl),
    (written_member a (u "peer_trust_domain") _ eq_refl), (written_member a (u "peer_audit_anchor_did") _ eq_refl),
    (written_member a (u "is_mock") _ eq_refl), (written_member a (u "peer_wat_anchor_manifest_id") _ eq_refl),
    (written_member a (u "peer_trust_bundle_url") _ eq_refl),
    (written_member a (u "peer_capability_policy_pointer") _ eq_refl).
  destruct Ha as [Hv _ Ho]. repeat (apply Forall_cons in Ho as [? Ho]). cbn [snd] in *.
  assert (∀ o, PolicyKv.opt_ok okstr o → PolicyKv.opt_text_of (json_sort (PolicyKv.text_json o)) = Some o) as Hopt
    by (by intros []).
  cbn [default id]. rewrite !Hopt by done. cbn [json_sort bad of_option PolicyKv.text_of PolicyKv.bool_of].
  rewrite (proj2 (py_eq_str VALUE_SCHEMA _) eq_refl). cbn [negb]. rewrite raise_if_false, !bind_Ok.
  destruct a. cbn in *. by rewrite Hv.
Qed.
End envelopes.

(** ** Pinned writers *)

Section writers.
Context {S : Type} `{KvLaws S} {kv_top : S → Z} `{!KvRevisionLaws S kv_top}.

Definition view (s : S) (rid : str) : option (MultiOrgRouteAttestation * Z) :=
  match get_with_revision s rid with Ok o => o | Err _ => None end.

(** The store, as [PinnedKv] sees it. *)
Definition attestations : PinnedStore S attestation_kv_error MultiOrgRouteAttestation :=
  MkPinnedStore view kv_top attestation_ok put_plan _kv_update_with_revision
    (λ a k b, attestation_ok a ∧ k = att_route_id a ∧ _attestation_to_envelope a = Ok b) extends.

Lemma view_some s rid a n :
  view s rid = Some (a, n) ↔ str_empty rid = false ∧ ∃ v,
    kv_get s rid = Some (KvObj (Some (VBytes v)) (Some n)) ∧ _envelope_to_attestation v = Ok a.
Proof.
  unfold view, get_with_revision. destruct (str_empty rid); [split; [done|by intros []]|].
  destruct (kv_get s rid) as [e|] eqn:E; [|split; [done|by intros (_ & ? & ? & _)]].
  destruct (kv_get_shape _ _ _ E) as (v & r & ->). cbn [_coerce_value_bytes _coerce_revision_from_entry].
  rewrite bind_Ok. destruct (_envelope_to_attestation v) as [b|] eqn:Eb; [rewrite bind_Ok|].
  - split; [intros [= -> ->]; split; eauto|]. intros (_ & v' & [= -> ->] & Ha). congruence.
  - split; [done|]. intros (_ & v' & [= -> ->] & Ha). congruence.
Qed.

Lemma get_is_view s rid x : get s rid = Ok x → x = (view s rid ≫= λ p, Some p.1).
Proof.
  unfold get, view, get_with_revision. destruct (str_empty rid); [by intros [= <-]|].
  destruct (kv_get s rid) as [e|]; [|by intros [= <-]].
  destruct (_coerce_value_bytes e) as [b|]; [|done]. rewrite !bind_Ok.
  destruct (_envelope_to_attestation b); [|done]. rewrite !bind_Ok. by intros [= <-].
Qed.

Lemma get_some s rid a : get s rid = Ok (Some a) ↔ ∃ n, view s rid = Some (a, n).
Proof.
  split.
  - intros Ha%get_is_view. destruct (view s rid) as [[b n]|]; [|done]. injection Ha as ->. eauto.
  - intros (n & (Hrid & v & Hv & Ha)%view_some). unfold get. rewrite Hrid, Hv. cbn [_coerce_value_bytes].
    by rewrite bind_Ok, Ha.
Qed.

Lemma view_ext s s' rid : kv_get s rid = kv_get s' rid → view s rid = view s' rid.
Proof. unfold view, get_with_revision. by intros ->. Qed.

(** What a checked write knows of the live entry. *)
Lemma write_plan_ok s a k b :
  write_plan s a = Ok (k, b) →
  k = att_route_id a ∧ _attestation_to_envelope a = Ok b ∧ ∀ x n, view s k = Some (x, n) → extends x a.
Proof.
  intros Hp. unfold write_plan in Hp. apply bind_ok_iff in Hp as (x & Hx & Hp).
  apply bind_ok_iff in Hp as ([] & Hc & Hp). apply bind_ok_iff in Hp as (b' & Hb & [= <- <-]).
  split_and!; [done..|]. intros y n Hy. apply get_is_view in Hx. rewrite Hy in Hx. subst x.
  by apply (proj1 (monotonic_ok _ _ _) Hc).
Qed.

(** The entry after a write of the envelope of [a]. *)
Lemma view_written s s' a b n rid :
  attestation_ok a → _attestation_to_envelope a = Ok b →
  kv_get s' rid = (if decide (rid = att_route_id a) then Some (KvObj (Some (VBytes b)) (Some n))
                   else kv_get s rid) →
  view s' rid = if decide (rid = att_route_id a) then Some (a, n) else view s rid.
Proof.
  intros Ha Hb Hg. case_decide as Hk; [|by apply view_ext]. subst rid. apply view_some.
  split; [by apply ok_route|]. exists b. split; [done|].
  destruct (attestation_roundtrip a Ha) as (b' & Eb & Er). rewrite Hb in Eb. by apply Ok_inj in Eb as ->.
Qed.

#[export] Instance attestations_laws : PinnedLaws attestations.
Proof.
  split; cbn.
  - intros s a e b_key b Ha Hp. unfold put_plan in Hp. apply bind_ok_iff in Hp as ([] & _ & Hp).
    apply write_plan_ok in Hp as (-> & Hb & Hk). split; [done|]. intros x. apply Hk.
  - intros s a k b e s' rev (Ha & -> & Hb) Hu. unfold _kv_update_with_revision in Hu.
    destruct (kv_update s (att_route_id a) b e) as [[s1 r1]|] eqn:E; [|done]. injection Hu as -> ->.
    split_and!; [by eapply kv_top_update..| |].
    + intros k'. eapply view_written; [done..|]. by eapply kv_update_get.
    + intros x r0 (_ & v & Hv & _)%view_some. symmetry.
      apply (kv_update_at s _ v r0 e Hv b). by rewrite E.
Qed.

(** However pinned writers interleave, what an attestation states is final:
    its trust domain, its audit identifier and its mock flag never change, and an
    optional field that is set keeps its value. *)
Theorem attestation_final σ σ' rid x :
  pin_writers σ = ∅ → rtc (pinned_step attestations) σ σ' → get (pin_bucket σ) rid = Ok (Some x) →
  ∃ y, get (pin_bucket σ') rid = Ok (Some y) ∧ extends x y.
Proof.
  intros Hw Hrun (n & Hx)%get_some.
  destruct (pinned_keeps attestations σ σ' rid x n Hw Hrun Hx) as (y & n' & Hy & Hxy).
  exists y. split; [apply get_some; eauto|done].
Qed.
End writers.
Arguments attestations {S _} kv_top.

(** ** Registries of well-keyed attestations *)

Section registries.

Definition keyed (reg : MultiOrg.registry) : Prop := ∀ k x, reg !! k = Some x → att_route_id x = k.

(** Additions succeed unless two attestations of a route differ. *)
Lemma add_all_succeeds l : ∀ reg : MultiOrg.registry,
  (∀ a b, a ∈ l → b ∈ l → att_route_id a = att_route_id b → a = b) →
  (∀ a b, a ∈ l → reg !! att_route_id a = Some b → b = a) →
  ∃ reg', MultiOrg.add_all reg l = Ok reg'.
Proof.
  induction l as [|a l IH]; intros reg Hl Hreg; [by exists reg|]. cbn [MultiOrg.add_all].
  rewrite (proj2 (MultiOrg.add_ok reg a _)) by (split; [done|]; intros b; apply Hreg; left). rewrite bind_Ok.
  apply IH; [intros; apply Hl; try done; by right|]. intros x b Hx. unfold MultiOrg.registry in *.
  rewrite lookup_insert. case_decide as Hk; [|apply Hreg; by right].
  intros [= <-]. apply Hl; [left|by right|done].
Qed.

(** A registry that is keyed by its route ids is its own copy. *)
Lemma readd_keyed reg : keyed reg → readd reg = Ok reg.
Proof.
  intros Hk. unfold readd.
  assert (∀ a, a ∈ (map_to_list reg).*2 ↔ reg !! att_route_id a = Some a) as Hin.
  { intros a. rewrite list_elem_of_fmap. split.
    - intros ([k x] & -> & Hx%elem_of_map_to_list). cbn. by rewrite (Hk k x Hx).
    - intros Ha. exists (att_route_id a, a). split; [done|]. by apply elem_of_map_to_list. }
  destruct (add_all_succeeds (map_to_list reg).*2 ∅) as [reg' E]; [|done|].
  { intros a b Ha%Hin Hb%Hin Eab. rewrite Eab in Ha. congruence. }
  rewrite E. cbn [map_err]. f_equal. unfold MultiOrg.registry in *. apply map_eq. intros k. apply option_eq. intros x.
  rewrite (MultiOrg.add_all_ok _ _ _ k x E), Hin. split.
  - by intros [?|[Hx <-]].
  - intros Hx. right. by rewrite (Hk k x Hx).
Qed.

(** A snapshot holds what was fetched, under the listed keys. *)
Lemma snapshot_from_keyed fetch (f : str → option MultiOrgRouteAttestation) keys : ∀ reg : MultiOrg.registry,
  (∀ k, k ∈ keys → fetch k = Ok (f k)) → (∀ k x, f k = Some x → att_route_id x = k) →
  (∀ k x, reg !! k = Some x → f k = Some x) →
  ∃ reg', snapshot_from reg keys fetch = Ok reg' ∧
    ∀ k, reg' !! k = if decide (k ∈ keys) then f k else reg !! k.
Proof.
  induction keys as [|k keys IH]; intros reg Hfetch Hf Hreg.
  { exists reg. split; [done|]. intros k. by rewrite decide_False by (by intros ?%elem_of_nil). }
  cbn [snapshot_from]. rewrite (Hfetch k) by left. rewrite bind_Ok. unfold MultiOrg.registry in *.
  assert (∃ reg1, add_fetched reg (f k) = Ok reg1 ∧ ∀ k', reg1 !! k' = if decide (k' = k) then f k else reg !! k')
    as (reg1 & E1 & H1).
  { destruct (f k) as [x|] eqn:Ex; cbn [add_fetched].
    - exists (<[att_route_id x := x]> reg). rewrite (proj2 (MultiOrg.add_ok reg x (<[att_route_id x := x]> reg))); [split; [done|]|split; [done|]].
      + intros k'. unfold MultiOrg.registry in *. rewrite lookup_insert, (Hf k x Ex). repeat case_decide; congruence.
      + intros b. rewrite (Hf k x Ex). intros Hb%Hreg. congruence.
    - exists reg. split; [done|]. intros k'. case_decide as Hk; [|done]. subst k'.
      destruct (reg !! k) as [y|] eqn:Ey; [|done]. apply Hreg in Ey. congruence. }
  rewrite E1, bind_Ok. destruct (IH reg1) as (reg' & E' & H'); [|done| |].
  - intros k' Hk'. apply Hfetch. by right.
  - intros k' x. rewrite H1. case_decide; [by subst|apply Hreg].
  - exists reg'. split; [done|]. intros k'. rewrite H', H1.
    destruct (decide (k' ∈ keys)); [by rewrite decide_True by (by right)|].
    destruct (decide (k' = k)) as [->|Hne]; [by rewrite decide_True by left|].
    rewrite decide_False; [done|]. by intros [?|?]%elem_of_cons.
Qed.
End registries.

(** ** A consumer of pinned writers *)

Section consumer.
Context {S : Type} `{KvLaws S} `{!KvKeys S} `{!KvKeysLaws S}.
Context {kv_top : S → Z} `{!KvRevisionLaws S kv_top}.

(** The update that a watcher sees of an acknowledged write. *)
Definition event_of (w : pinned MultiOrgRouteAttestation * Z) : MultiOrgAttestationWatchEvent :=
  MkEvent PUT (pin_key w.1) (Some (pin_record w.1)) w.2.

Fixpoint apply_all (l : LiveMultiOrgAttestationSnapshot) (es : list MultiOrgAttestationWatchEvent)
    : result attestation_kv_error LiveMultiOrgAttestationSnapshot :=
  match es with [] => Ok l | e :: es => l ← apply l e; apply_all l es end.

Lemma live_all_app l es es' : apply_all l (es ++ es') = (l' ← apply_all l es; apply_all l' es').
Proof.
  revert l. induction es as [|e es IH]; intros l; [done|]. cbn [apply_all app].
  destruct (apply l e); [|done]. rewrite !bind_Ok. apply IH.
Qed.

Definition live_entry (s : S) (rid : str) : option MultiOrgRouteAttestation := view s rid ≫= λ p, Some p.1.

(** Every entry can be read and lies under its own route id. *)
Definition well_keyed (s : S) : Prop :=
  ∀ rid, is_Some (kv_get s rid) → ∃ x, get s rid = Ok (Some x) ∧ att_route_id x = rid.

Lemma live_some s rid x : live_entry s rid = Some x ↔ get s rid = Ok (Some x).
Proof.
  rewrite get_some. unfold live_entry. destruct (view s rid) as [[y n]|]; cbn; [naive_solver|].
  split; [done|by intros []].
Qed.

Lemma well_keyed_get s rid : well_keyed s → get s rid = Ok (live_entry s rid).
Proof.
  intros Hs. destruct (kv_get s rid) as [e|] eqn:E.
  - destruct (Hs rid) as (x & Hx & _); [by rewrite E|]. rewrite Hx. f_equal. symmetry. by apply live_some.
  - unfold live_entry, view, get, get_with_revision. rewrite E. by destruct (str_empty rid).
Qed.

Lemma live_keyed s rid x : well_keyed s → live_entry s rid = Some x → att_route_id x = rid.
Proof.
  intros Hs Hx%live_some. pose proof Hx as (n & (_ & v & Hv & _)%view_some)%get_some.
  destruct (Hs rid) as (y & Hy & Hk); [by rewrite Hv|]. congruence.
Qed.

Lemma snapshot_reads s ks :
  well_keyed s → kv_keys s = Some ks →
  ∃ reg, snapshot (Some ks) (get s) = Ok reg ∧ ∀ rid, reg !! rid = live_entry s rid.
Proof.
  intros Hs Hks. destruct (snapshot_from_keyed (get s) (live_entry s) ks ∅) as (reg & E & Hreg).
  - intros k _. by apply well_keyed_get.
  - intros k x. by apply live_keyed.
  - done.
  - exists reg. split; [done|]. intros rid. rewrite Hreg. case_decide as Hin; [done|].
    unfold MultiOrg.registry. rewrite lookup_empty. destruct (live_entry s rid) as [x|] eqn:Ex; [|done].
    exfalso. apply Hin, (kv_keys_in s ks rid Hks).
    apply live_some, get_some in Ex as (n & (_ & v & Hv & _)%view_some). eauto.
Qed.

(** What an acknowledged write makes of the entries. *)
Lemma write_entries s p s' rev :
  pinned_ok (attestations kv_top) s p → update_of (attestations kv_top) s p = (s', Ok rev) →
  (∀ rid, live_entry s' rid = if decide (rid = pin_key p) then Some (pin_record p) else live_entry s rid) ∧
  (well_keyed s → well_keyed s').
Proof.
  intros Hp Hu. destruct (pinned_effect (attestations kv_top) s p s' rev Hp Hu) as (Hv & _ & _).
  assert (∀ rid, live_entry s' rid = if decide (rid = pin_key p) then Some (pin_record p) else live_entry s rid) as He.
  { intros rid. unfold live_entry. cbn in Hv. rewrite Hv. by case_decide. }
  split; [done|]. intros Hs rid Hrid. destruct Hp as ((_ & Hk & _) & _). specialize (He rid).
  case_decide as Hr.
  - exists (pin_record p). split; [by apply live_some|congruence].
  - unfold update_of in Hu. cbn in Hu. unfold _kv_update_with_revision in Hu.
    destruct (kv_update s (pin_key p) (pin_blob p) (pin_expected p)) as [[s1 r1]|] eqn:E; [|done].
    injection Hu as -> ->. destruct (kv_update_get _ _ _ _ _ _ rid E) as [_ Hg].
    rewrite Hg, decide_False in Hrid by done. destruct (Hs rid Hrid) as (x & Hx%live_some & Hkx).
    exists x. split; [|done]. apply live_some. congruence.
Qed.

(** A consumer that starts from a snapshot of the bucket and applies the updates
    of pinned writers, however these interleave, has the registry of the bucket. *)
Theorem attestations_follow σ σ' ks ks' :
  pin_writers σ = ∅ → pin_log σ = [] → well_keyed (pin_bucket σ) →
  rtc (pinned_step (attestations kv_top)) σ σ' →
  kv_keys (pin_bucket σ) = Some ks → kv_keys (pin_bucket σ') = Some ks' →
  ∃ l l' reg,
    from_backend (Some ks) (get (pin_bucket σ)) = Ok l ∧
    apply_all l (event_of <$> pin_log σ') = Ok l' ∧ as_registry l' = Ok reg ∧
    snapshot (Some ks') (get (pin_bucket σ')) = Ok reg ∧
    ∀ rid x, MultiOrg.lookup_attestation reg rid = Some x ↔ get (pin_bucket σ') rid = Ok (Some x).
Proof.
  intros Hw Hlog Hs Hrun Hks Hks'.
  destruct (snapshot_reads _ _ Hs Hks) as (reg0 & E0 & Hr0).
  assert (keyed reg0) as Hk0 by (intros k x; rewrite Hr0; by apply live_keyed).
  exists (MkLive 0 reg0).
  enough (well_keyed (pin_bucket σ') ∧ ∃ l', apply_all (MkLive 0 reg0) (event_of <$> pin_log σ') = Ok l' ∧
    ∀ k, _live l' !! k = live_entry (pin_bucket σ') k) as (Hs' & l' & El & Hl').
  { destruct (snapshot_reads _ _ Hs' Hks') as (reg & E & Hreg). exists l', reg.
    assert (_live l' = reg) as Eq by (unfold MultiOrg.registry in *; apply map_eq; intros k; by rewrite Hl', Hreg).
    split_and!; [|done| |done|].
    - unfold from_backend. rewrite E0, bind_Ok. unfold new_live. by rewrite readd_keyed.
    - unfold as_registry. rewrite Eq. apply readd_keyed. intros k x. rewrite Hreg. by apply live_keyed.
    - intros rid x. unfold MultiOrg.lookup_attestation. rewrite Hreg. apply live_some. }
  apply (pinned_ind (attestations kv_top) (λ s log, well_keyed s ∧ ∃ l',
    apply_all (MkLive 0 reg0) (event_of <$> log) = Ok l' ∧ ∀ k, _live l' !! k = live_entry s k) σ σ'); [|done| |done].
  - intros s log p s' rev (Hs1 & l1 & E1 & Hl1) Hp Hu.
    destruct (write_entries s p s' rev Hp Hu) as (He & Hkeep). split; [by apply Hkeep|].
    eexists. rewrite fmap_app, live_all_app, E1, bind_Ok. split; [reflexivity|]. intros k.
    cbn [_live event_of route_id pin_key fst]. rewrite He. unfold MultiOrg.registry in *.
    rewrite lookup_insert, Hl1. repeat case_decide; congruence.
  - split; [done|]. rewrite Hlog. by exists (MkLive 0 reg0).
Qed.
End consumer.

Module AttestationKvExample.

Definition peer (domain : str) (pointer : option str) : MultiOrgRouteAttestation :=
  MkAttestation (u "route-1") domain (u "did:web:peer.example") None None pointer false.
Definition plain : MultiOrgRouteAttestation := peer (u "peer.example") None.
Definition pointed : MultiOrgRouteAttestation := peer (u "peer.example") (Some (u "peer::p1")).
Definition moved : MultiOrgRouteAttestation := peer (u "other.example") None.
Definition rid : str := u "route-1".

Lemma okstr_lit s : forallb (in_range 0 127) s = true → okstr s.
Proof.
  intros Hs. apply okstr_Forall, Forall_forall. intros c Hc. rewrite forallb_forall in Hs.
  specialize (Hs c (proj1 (list_elem_of_In _ _) Hc)). unfold in_range in Hs. propify. apply okchar_range. lia.
Qed.

Lemma peer_ok domain pointer :
  MultiOrg.new_attestation (peer domain pointer) = Ok (peer domain pointer) → okstr domain →
  PolicyKv.opt_ok okstr pointer → attestation_ok (peer domain pointer).
Proof. intros Hv Hd Hp. split; [done|split_and!; [by apply okstr_lit|done|by apply okstr_lit]|by repeat constructor]. Qed.

Lemma plain_ok : attestation_ok plain.
Proof. apply peer_ok; [by vm_compute|by apply okstr_lit|done]. Qed.
Lemma pointed_ok : attestation_ok pointed.
Proof. apply peer_ok; [by vm_compute|by apply okstr_lit|by apply okstr_lit]. Qed.
Lemma moved_ok : attestation_ok moved.
Proof. apply peer_ok; [by vm_compute|by apply okstr_lit|done]. Qed.

Lemma attestation_roundtrip_witness :
  ∃ b, _attestation_to_envelope pointed = Ok b ∧ _envelope_to_attestation b = Ok pointed.
Proof. apply (attestation_roundtrip pointed). exact pointed_ok. Defined.

Definition empty : seq_kv := SeqKv ∅.
Definition bucket0 : seq_kv := (put empty plain).1.
Definition waiting : pinned MultiOrgRouteAttestation :=
  MkPinned pointed rid (ok_or [] (_attestation_to_envelope pointed)) 1.
Definition bucket1 : seq_kv := (update_of (attestations seq_top) bucket0 waiting).1.

(** A pointer is added to a live attestation. *)
Lemma pinned_run :
  rtc (pinned_step (attestations seq_top)) (PinnedSys bucket0 ∅ []) (PinnedSys bucket1 ∅ [(waiting, 2)]).
Proof.
  eapply rtc_l; [apply (pin_plan _ _ 0%nat pointed 1 rid (pin_blob waiting))|].
  - exact pointed_ok.
  - by vm_compute.
  - by vm_compute.
  - done.
  - eapply rtc_l; [apply (pin_update _ _ 0%nat waiting bucket1 2)|].
    + done.
    + apply injective_projections; [reflexivity|by vm_compute].
    + apply rtc_refl.
Qed.

Lemma attestation_final_witness :
  ∃ y, get bucket1 rid = Ok (Some y) ∧ extends plain y.
Proof.
  apply (attestation_final (kv_top:=seq_top) (PinnedSys bucket0 ∅ []) (PinnedSys bucket1 ∅ [(waiting, 2)])).
  - done.
  - exact pinned_run.
  - by vm_compute.
Defined.

Lemma bucket0_well_keyed : well_keyed bucket0.
Proof.
  intros k Hk. destruct (decide (k = rid)) as [->|Hne].
  - exists plain. split; by vm_compute.
  - exfalso. destruct Hk as [e He]. cbn in He. apply fmap_Some in He as ([v r] & He & _).
    unfold bucket0, put in He. destruct (write_plan empty plain) as [[k' b]|] eqn:Ek; [|done].
    apply write_plan_ok in Ek as (-> & _). cbn in He. by rewrite lookup_insert_ne in He.
Qed.

Lemma attestations_follow_witness :
  ∃ l l' reg,
    from_backend (Some [rid]) (get bucket0) = Ok l ∧
    apply_all l [event_of (waiting, 2)] = Ok l' ∧ as_registry l' = Ok reg ∧
    snapshot (Some [rid]) (get bucket1) = Ok reg ∧
    ∀ k x, MultiOrg.lookup_attestation reg k = Some x ↔ get bucket1 k = Ok (Some x).
Proof.
  apply (attestations_follow (kv_top:=seq_top) (PinnedSys bucket0 ∅ []) (PinnedSys bucket1 ∅ [(waiting, 2)])).
  - done.
  - done.
  - exact bucket0_well_keyed.
  - exact pinned_run.
  - by vm_compute.
  - by vm_compute.
Defined.

(** What is refused, with the first breach. *)
Definition refusal (x : result attestation_kv_error ()) : option str :=
  match x with Err (MultiOrgAttestationMonotonicConflict _ kind _ _) => Some kind | _ => None end.
Example refusals :
  refusal (_check_monotonic_invariant rid (Some plain) moved) = Some (u "trust-domain-mutation") ∧
  refusal (_check_monotonic_invariant rid (Some pointed) plain) =
    Some (u "optional-mutation:peer_capability_policy_pointer") ∧
  _check_monotonic_invariant rid (Some plain) pointed = Ok ().
Proof. split_and!; by vm_compute. Qed.

(** The check and the write of [put] are two steps.  Two writers that both find
    no entry pass the check; the trust domain of the first is replaced, and both
    calls return a revision. *)
Example unpinned_replaces_domain :
  let plan1 := write_plan empty plain in
  let plan2 := write_plan empty moved in
  match plan1, plan2 with
  | Ok (k1, b1), Ok (k2, b2) =>
      let s1 := (kv_put empty k1 b1).1 in
      let s2 := (kv_put s1 k2 b2).1 in
      get s1 rid = Ok (Some plain) ∧ get s2 rid = Ok (Some moved)
  | _, _ => False
  end.
Proof. vm_compute. split; reflexivity. Qed.

(** An attestation that lies under another key is returned under that key; the
    live snapshot takes it, and then has no registry any more once the attestation
    of the right key differs. *)
Definition foreign : seq_kv := (seq_write empty (u "other-key") (pin_blob waiting)).1.
Example other_key_served : get foreign (u "other-key") = Ok (Some pointed).
Proof. by vm_compute. Qed.
Example other_key_blocks :
  match apply_all (MkLive 0 ∅) [MkEvent PUT rid (Some plain) 1; MkEvent PUT (u "other-key") (Some pointed) 2] with
  | Ok l => as_registry l = Err (RegistryError MultiOrgAttestationConflictError)
  | Err _ => False
  end.
Proof. vm_compute. reflexivity. Qed.

(** Updates of a client: a name in any case, a missing value, no revision. *)
Example watch_decoding :
  _decode_watch_update (MarkerKv.MkUpdate (Some (u "delete")) (Some (JStr rid)) (Some 7) (KvObj None None)) =
    Ok (MkEvent DELETE rid None 7) ∧
  _decode_watch_update (MarkerKv.MkUpdate (Some (u "PUT")) (Some (JStr rid)) (Some 7) (KvObj None None)) =
    Err MultiOrgAttestationEnvelopeError ∧
  _decode_watch_update (MarkerKv.MkUpdate (Some (u "PUT")) (Some (JStr rid)) None (KvRaw (pin_blob waiting))) =
    Ok (MkEvent PUT rid (Some pointed) 0).
Proof. split_and!; by vm_compute. Qed.
End AttestationKvExample.
