(* ===== verification/AttestationReplication.v ===== *)
(** * Replication of the attestations
      ([wirelang/federation/multi_org_attestation_nats_kv_backend.py], the bootstrap, and
      [wirelang/federation/multi_org_attestation_live_tail_replicator.py])

    A replicator copies one bucket of attestations onto another: a bootstrap from
    the entries of the source, then its updates one by one.  An update passes a
    filter and a detector of replays before it reaches the target, and every
    write on the target passes the check of [AttestationKv].

    The theorems: whatever the source sends, an attestation of the target is only
    extended unless it is removed; a target that lags behind the source has its
    attestations after the bootstrap and the updates of pinned writers; a second
    bootstrap writes nothing; dropped replays reach no target and are all counted. *)

From S2P Require Import Prelude PyStr PyJson PyJsonLoads PyDyn Ledger PinnedKv MarkerKv PolicyKv MultiOrg AttestationKv.
From Stdlib Require Import ZArith Lia.

Open Scope Z_scope.

(** An update at revision 0 creates a key that has no entry. *)
Class KvFreshLaws (S : Type) `{KvBucket S} : Prop :=
  kv_update_fresh s k v : kv_get s k = None → is_Some (kv_update s k v 0).

Inductive MultiOrgAttestationReplicationConflictPolicy : Type := SOURCE_WINS | CAS_PIN.
Inductive MultiOrgAttestationReplicationDecision : Type := APPLY | SKIP.
Inductive ReplayDetectorDecision : Type := PASS_THROUGH | REPLAY.

Record MultiOrgAttestationReplicationMetrics := MkMetrics {
  bootstrap_applied : Z;
  bootstrap_skipped_by_filter : Z;
  bootstrap_skipped_idempotent : Z;
  bootstrap_monotonic_breaches : Z;
  events_applied_put : Z;
  events_applied_delete : Z;
  events_skipped_by_filter : Z;
  cas_conflicts : Z;
  monotonic_breaches : Z;
  envelope_errors : Z;
}.

Module AttestationReplication.
Import AttestationKv.

Definition no_metrics : MultiOrgAttestationReplicationMetrics := MkMetrics 0 0 0 0 0 0 0 0 0 0.

(** The counters; each field of [inc] is what is added. *)
Definition count (inc m : MultiOrgAttestationReplicationMetrics) : MultiOrgAttestationReplicationMetrics :=
  MkMetrics (bootstrap_applied m + bootstrap_applied inc)
    (bootstrap_skipped_by_filter m + bootstrap_skipped_by_filter inc)
    (bootstrap_skipped_idempotent m + bootstrap_skipped_idempotent inc)
    (bootstrap_monotonic_breaches m + bootstrap_monotonic_breaches inc)
    (events_applied_put m + events_applied_put inc)
    (events_applied_delete m + events_applied_delete inc)
    (events_skipped_by_filter m + events_skipped_by_filter inc)
    (cas_conflicts m + cas_conflicts inc)
    (monotonic_breaches m + monotonic_breaches inc)
    (envelope_errors m + envelope_errors inc).

Definition one_boot_applied := MkMetrics 1 0 0 0 0 0 0 0 0 0.
Definition one_boot_filtered := MkMetrics 0 1 0 0 0 0 0 0 0 0.
Definition one_boot_idempotent := MkMetrics 0 0 1 0 0 0 0 0 0 0.
Definition one_boot_breach := MkMetrics 0 0 0 1 0 0 0 0 0 0.
Definition one_put := MkMetrics 0 0 0 0 1 0 0 0 0 0.
Definition one_delete := MkMetrics 0 0 0 0 0 1 0 0 0 0.
Definition one_filtered := MkMetrics 0 0 0 0 0 0 1 0 0 0.
Definition one_conflict := MkMetrics 0 0 0 0 0 0 0 1 0 0.
Definition one_breach := MkMetrics 0 0 0 0 0 0 0 0 1 0.
Definition one_envelope_error := MkMetrics 0 0 0 0 0 0 0 0 0 1.

(** The settings.  A callable that raises, or whose answer is no decision, gives
    an error. *)
Record config := MkConfig {
  conflict_policy : MultiOrgAttestationReplicationConflictPolicy;
  filter_fn : MultiOrgAttestationWatchEvent → result attestation_kv_error MultiOrgAttestationReplicationDecision;
  replay_detector_fn : MultiOrgAttestationWatchEvent → result attestation_kv_error ReplayDetectorDecision;
  halt_on_envelope_error : bool;
  halt_on_cas_conflict : bool;
  halt_on_monotonic_breach : bool;
}.

Definition _accept_all_attestation (_ : MultiOrgAttestationWatchEvent)
    : result attestation_kv_error MultiOrgAttestationReplicationDecision := Ok APPLY.
Definition _default_pass_through (_ : MultiOrgAttestationWatchEvent)
    : result attestation_kv_error ReplayDetectorDecision := Ok PASS_THROUGH.
Definition default_config : config :=
  MkConfig SOURCE_WINS _accept_all_attestation _default_pass_through true false false.

Definition _attestations_byte_equal (a b : option MultiOrgRouteAttestation) : bool :=
  match a, b with
  | Some a, Some b =>
      match _attestation_to_envelope a, _attestation_to_envelope b with
      | Ok x, Ok y => bool_decide (x = y)
      | _, _ => false
      end
  | _, _ => false
  end.

(** The key of the drop counter. *)
Definition unknown_org : str := u "<unknown>".
Definition drop_key (e : MultiOrgAttestationWatchEvent) : str :=
  match attested e with
  | Some a => if str_empty (peer_trust_domain a) then unknown_org else peer_trust_domain a
  | None => unknown_org
  end.

Record MultiOrgAttestationReplicator (T : Type) := MkReplicator {
  target : T;
  metrics : MultiOrgAttestationReplicationMetrics;
  high_water : Z;                          (* [last_revision] *)
  replay_drops_per_org : gmap str Z;
}.
Arguments MkReplicator {T}.
Arguments target {T}.
Arguments metrics {T}.
Arguments high_water {T}.
Arguments replay_drops_per_org {T}.

Definition total_replay_drops {T} (rp : MultiOrgAttestationReplicator T) : Z :=
  foldr Z.add 0 (map_to_list (replay_drops_per_org rp)).*2.

Section replicator.
Context {T : Type} `{KvBucket T} `{KvPuts T}.

Notation replicator := (MultiOrgAttestationReplicator T).
Notation action A := (stm replicator attestation_kv_error A).

Definition tick (inc : MultiOrgAttestationReplicationMetrics) : action () :=
  modify (λ rp, MkReplicator (target rp) (count inc (metrics rp)) (high_water rp) (replay_drops_per_org rp)).

(** A call on the target. *)
Definition on_target {A} (call : T → T * result attestation_kv_error A) : action A :=
  λ rp, let '(t', r) := call (target rp) in
        (MkReplicator t' (metrics rp) (high_water rp) (replay_drops_per_org rp), r).
Definition of_target {A} (read : T → result attestation_kv_error A) : action A :=
  λ rp, (rp, read (target rp)).

(** The handlers of the two conflicts. *)
Definition handle (on_breach on_conflict : action ()) (err : attestation_kv_error) : action () :=
  match err with
  | MultiOrgAttestationMonotonicConflict _ _ _ _ => on_breach
  | MultiOrgAttestationCasConflict _ _ => on_conflict
  | _ => throw err
  end.

(** ** Bootstrap *)

Section bootstrap.
Variables (cfg : config) (fetch : str → result attestation_kv_error (option MultiOrgRouteAttestation)).

Definition bootstrap_key (key : str) : action () :=
  src ← lift (fetch key);
  match src with
  | None => mret ()
  | Some a =>
      decision ← lift (filter_fn cfg (MkEvent PUT key (Some a) 0));
      match decision with
      | SKIP => tick one_boot_filtered
      | APPLY =>
          pair ← of_target (λ t, get_with_revision t key);
          if _attestations_byte_equal (fst <$> pair) (Some a) then tick one_boot_idempotent
          else
            catch (match conflict_policy cfg with
                   | CAS_PIN => on_target (λ t, put_with_revision t a (default 0 (snd <$> pair)))
                   | SOURCE_WINS => on_target (λ t, put t a)
                   end;;
                   tick one_boot_applied)
              (handle (tick one_boot_breach) (tick one_conflict))
      end
  end.

Fixpoint bootstrap_keys (keys : list str) : action () :=
  match keys with
  | [] => mret ()
  | key :: keys => bootstrap_key key;; bootstrap_keys keys
  end.

(** The keys of the source as listed and its entries as they are fetched. *)
Definition bootstrap_multi_org_attestation_target_from_source (keys : option (list str)) : action () :=
  keys ← lift (of_option AttestationClientError keys);
  bootstrap_keys (py_sorted str_leb keys).
End bootstrap.

(** ** Events *)

Section events.
Variable cfg : config.

Definition counted (halt : bool) (inc : MultiOrgAttestationReplicationMetrics) (err : attestation_kv_error)
    : action () :=
  tick inc;; lift (raise_if halt err).

Definition _apply_put (e : MultiOrgAttestationWatchEvent) : action () :=
  match attested e with
  | None => throw MultiOrgAttestationEnvelopeError
  | Some a =>
      catch (match conflict_policy cfg with
             | CAS_PIN =>
                 existing ← of_target (λ t, get_with_revision t (route_id e));
                 match existing with
                 | None => on_target (λ t, put t a)
                 | Some (_, observed_revision) => on_target (λ t, put_with_revision t a observed_revision)
                 end
             | SOURCE_WINS => on_target (λ t, put t a)
             end;;
             tick one_put)
        (λ err, handle (counted (halt_on_monotonic_breach cfg) one_breach err)
                  (counted (halt_on_cas_conflict cfg) one_conflict err) err)
  end.

Definition _apply_delete (e : MultiOrgAttestationWatchEvent) : action () :=
  on_target (λ t, delete t (route_id e));; tick one_delete.

Definition _record_replay_drop (e : MultiOrgAttestationWatchEvent) : action () :=
  modify (λ rp, MkReplicator (target rp) (metrics rp) (high_water rp)
    (<[drop_key e := default 0 (replay_drops_per_org rp !! drop_key e) + 1]> (replay_drops_per_org rp))).

Definition observe (e : MultiOrgAttestationWatchEvent) : action () :=
  modify (λ rp, MkReplicator (target rp) (metrics rp)
    (if high_water rp <? revision e then revision e else high_water rp) (replay_drops_per_org rp)).

Definition _consume_event (e : MultiOrgAttestationWatchEvent) : action () :=
  observe e;;
  decision ← lift (filter_fn cfg e);
  match decision with
  | SKIP => tick one_filtered
  | APPLY =>
      replay ← lift (replay_detector_fn cfg e);
      match replay with
      | REPLAY => _record_replay_drop e
      | PASS_THROUGH => match op e with PUT => _apply_put e | _ => _apply_delete e end
      end
  end.

(** An envelope error is counted, and raised again if the flag says so. *)
Definition count_envelope_error (err : attestation_kv_error) : action () :=
  match err with
  | MultiOrgAttestationEnvelopeError => counted (halt_on_envelope_error cfg) one_envelope_error err
  | _ => throw err
  end.

(** The loop over what the stream gives: an event, or the error of its decoder. *)
Fixpoint loop (items : list (result attestation_kv_error MultiOrgAttestationWatchEvent)) : action () :=
  match items with
  | [] => mret ()
  | item :: items =>
      e ← lift item;
      catch (_consume_event e) count_envelope_error;;
      loop items
  end.

Definition tail (items : list (result attestation_kv_error MultiOrgAttestationWatchEvent)) : action () :=
  catch (loop items) count_envelope_error.

Definition run (bootstrap : bool) (keys : option (list str))
    (fetch : str → result attestation_kv_error (option MultiOrgRouteAttestation))
    (items : list (result attestation_kv_error MultiOrgAttestationWatchEvent)) : action () :=
  (if bootstrap then bootstrap_multi_org_attestation_target_from_source cfg fetch keys else mret ());;
  tail items.
End events.
End replicator.
End AttestationReplication.

Import AttestationKv AttestationReplication.

(** ** Writes on the target *)

Section writes.
Context {T : Type} `{KvLaws T} `{!KvPuts T} `{!KvPutLaws T}.

(** The target after an attestation went in. *)
Definition holds (t : T) (a : MultiOrgRouteAttestation) (t' : T) : Prop :=
  ∀ k, (view t' k ≫= λ p, Some p.1) = (if decide (k = att_route_id a) then Some a else live_entry t k) ∧
       (k ≠ att_route_id a → kv_get t' k = kv_get t k).

Lemma envelope_held t a b n t' :
  attestation_ok a → _attestation_to_envelope a = Ok b →
  (∀ k, kv_get t' k = if decide (k = att_route_id a) then Some (KvObj (Some (VBytes b)) (Some n)) else kv_get t k) →
  holds t a t'.
Proof.
  intros Ha Hb Hg k. specialize (Hg k). split; [|intros Hne; by rewrite decide_False in Hg].
  rewrite (view_written t t' a b n k Ha Hb Hg). unfold live_entry. by case_decide.
Qed.

(** A write of the target either fails and leaves it alone, or what it replaced
    is extended by what it wrote. *)
Lemma put_effect t a t' r :
  attestation_ok a → put t a = (t', r) →
  (∃ e, r = Err e ∧ t' = t) ∨
  (is_ok r = true ∧ holds t a t' ∧ ∀ x, live_entry t (att_route_id a) = Some x → extends x a).
Proof.
  intros Ha Hp. unfold put in Hp. destruct (write_plan t a) as [[k b]|e] eqn:E; [right|left; injection Hp; eauto].
  apply write_plan_ok in E as (-> & Hb & Hx). destruct (kv_put t (att_route_id a) b) as [t1 n] eqn:Ep.
  injection Hp as <- <-. split_and!; [done| |].
  - eapply envelope_held; [done..|]. intros k. by eapply kv_put_get.
  - intros x Hl. unfold live_entry in Hl. destruct (view t _) as [[y m]|] eqn:Ev; [|done].
    injection Hl as ->. by eapply Hx.
Qed.

Lemma put_with_revision_effect t a n t' r :
  attestation_ok a → put_with_revision t a n = (t', r) →
  (∃ e, r = Err e ∧ t' = t) ∨
  (is_ok r = true ∧ holds t a t' ∧ ∀ x, live_entry t (att_route_id a) = Some x → extends x a).
Proof.
  intros Ha Hp. unfold put_with_revision in Hp.
  destruct (put_plan t a n) as [[k b]|e] eqn:E; [|left; injection Hp; eauto].
  unfold put_plan in E. apply bind_ok_iff in E as ([] & _ & (-> & Hb & Hx)%write_plan_ok).
  unfold _kv_update_with_revision in Hp.
  destruct (kv_update t (att_route_id a) b n) as [[t1 m]|] eqn:Eu; [right|left; injection Hp; eauto].
  injection Hp as <- <-. split_and!; [done| |].
  - eapply envelope_held; [done..|]. intros k. by eapply kv_update_get.
  - intros x Hl. unfold live_entry in Hl. destruct (view t _) as [[y m']|] eqn:Ev; [|done].
    injection Hl as ->. by eapply Hx.
Qed.
End writes.

(** ** Attestations of the target *)

Section safety.
Context {T : Type} `{KvLaws T} `{!KvPuts T} `{!KvPutLaws T}.
Variables (k : str) (x : MultiOrgRouteAttestation).

(** The target has an attestation under [k] that states what [x] states. *)
Definition attests (rp : MultiOrgAttestationReplicator T) : Prop :=
  ∃ y, get (target rp) k = Ok (Some y) ∧ extends x y.

Lemma attests_entry rp : attests rp ↔ ∃ y, live_entry (target rp) k = Some y ∧ extends x y.
Proof. unfold attests. by setoid_rewrite <- live_some. Qed.

Lemma held_attests rp a t' m h d :
  holds (target rp) a t' → (∀ y, live_entry (target rp) (att_route_id a) = Some y → extends y a) →
  attests rp → attests (MkReplicator t' m h d).
Proof.
  rewrite !attests_entry. cbn [target]. intros Hh Ha (y & Hy & Hxy). unfold live_entry at 1.
  destruct (Hh k) as [-> _]. case_decide as Hk; [|by exists y]. subst k.
  exists a. split; [done|]. etrans; [exact Hxy|by apply Ha].
Qed.

Lemma keeps_write {A} (call : T → T * result attestation_kv_error A) a :
  (∀ t t' r, call t = (t', r) → (∃ e, r = Err e ∧ t' = t) ∨ (is_ok r = true ∧ holds t a t' ∧
     ∀ y, live_entry t (att_route_id a) = Some y → extends y a)) →
  preserves attests (on_target call).
Proof.
  intros Hc rp Hrp. unfold on_target. destruct (call (target rp)) as [t' r] eqn:E.
  destruct (Hc _ _ _ E) as [(e & -> & ->)|(_ & Hh & Ha)]; [exact Hrp|]. by eapply held_attests.
Qed.

Lemma keeps_put a : attestation_ok a → preserves attests (on_target (λ t, put t a)).
Proof. intros Ha. apply (keeps_write _ a). intros t t' r. by apply put_effect. Qed.

Lemma keeps_pinned a n : attestation_ok a → preserves attests (on_target (λ t, put_with_revision t a n)).
Proof. intros Ha. apply (keeps_write _ a). intros t t' r. by apply put_with_revision_effect. Qed.

Lemma keeps_delete r : r ≠ k → preserves attests (on_target (λ t, delete t r)).
Proof.
  intros Hr rp Hrp. unfold on_target, delete. destruct (str_empty r); [exact Hrp|].
  destruct (kv_get (target rp) r); [|exact Hrp]. apply attests_entry. apply attests_entry in Hrp as (y & Hy & Hxy).
  exists y. split; [|done]. rewrite <- Hy. unfold live_entry. f_equal. apply view_ext. cbn.
  by rewrite kv_delete_get, decide_False.
Qed.

Lemma keeps_tick inc : preserves attests (tick inc).
Proof. by intros rp. Qed.

Lemma attests_read {A} (read : T → result attestation_kv_error A) : preserves attests (of_target read).
Proof. by intros rp. Qed.

#[local] Hint Resolve keeps_put keeps_pinned keeps_tick attests_read : preserves.

Lemma keeps_handle (p q : stm (MultiOrgAttestationReplicator T) attestation_kv_error ()) err :
  preserves attests p → preserves attests q → preserves attests (handle p q err).
Proof. unfold handle. destruct err; eauto with preserves. Qed.

Lemma keeps_counted halt inc err : preserves attests (counted halt inc err).
Proof. unfold counted. eauto with preserves. Qed.

Lemma keeps_envelope_error cfg err : preserves attests (count_envelope_error cfg err).
Proof. unfold count_envelope_error. destruct err; eauto using keeps_counted with preserves. Qed.

#[local] Hint Resolve keeps_handle keeps_counted keeps_envelope_error : preserves.

Lemma keeps_bootstrap_key cfg fetch key :
  (∀ a, fetch key = Ok (Some a) → attestation_ok a) → preserves attests (bootstrap_key cfg fetch key).
Proof.
  intros Hf. unfold bootstrap_key. apply preserves_lift_bind. intros [a|] Ha; [|apply preserves_ret].
  specialize (Hf a Ha). apply preserves_bind; [apply preserves_lift|]. intros []; [|apply keeps_tick].
  apply preserves_bind; [apply attests_read|]. intros pair. destruct (_attestations_byte_equal _ _); [apply keeps_tick|].
  apply preserves_catch; [|eauto with preserves]. apply preserves_bind; [|eauto with preserves].
  destruct (conflict_policy cfg); [by apply keeps_put|by apply keeps_pinned].
Qed.

Lemma keeps_bootstrap cfg fetch keys :
  (∀ key a, fetch key = Ok (Some a) → attestation_ok a) →
  preserves attests (bootstrap_multi_org_attestation_target_from_source cfg fetch keys).
Proof.
  intros Hf. apply preserves_bind; [apply preserves_lift|]. intros ks.
  induction (py_sorted str_leb ks) as [|key ks' IH]; [apply preserves_ret|].
  apply preserves_bind; [by apply keeps_bootstrap_key; eauto|done].
Qed.

(** An update as a source sends it: what it puts was constructed, and it does
    not remove [k]. *)
Definition item_ok (item : result attestation_kv_error MultiOrgAttestationWatchEvent) : Prop :=
  ∀ e, item = Ok e → match op e with PUT => ∀ a, attested e = Some a → attestation_ok a | _ => route_id e ≠ k end.

Lemma keeps_consume cfg e : item_ok (Ok e) → preserves attests (_consume_event cfg e).
Proof.
  intros He. specialize (He e eq_refl). unfold _consume_event.
  apply preserves_bind; [by intros rp|]. intros []. apply preserves_bind; [apply preserves_lift|].
  intros []; [|apply keeps_tick]. apply preserves_bind; [apply preserves_lift|].
  assert (route_id e ≠ k → preserves attests (_apply_delete e)) as Hdel.
  { intros Hne. apply preserves_bind; [by apply keeps_delete|eauto with preserves]. }
  intros []; [|by intros rp]. destruct (op e); [|by apply Hdel..].
  unfold _apply_put. destruct (attested e) as [a|]; [|apply preserves_throw]. specialize (He a eq_refl).
  apply preserves_catch; [|eauto with preserves]. apply preserves_bind; [|eauto with preserves].
  destruct (conflict_policy cfg); [by apply keeps_put|].
  apply preserves_bind; [apply attests_read|]. intros [[y n]|]; [by apply keeps_pinned|by apply keeps_put].
Qed.

Lemma keeps_tail cfg items : Forall item_ok items → preserves attests (tail cfg items).
Proof.
  intros Hit. apply preserves_catch; [|eauto with preserves].
  induction Hit as [|item items Hi Hit IH]; [apply preserves_ret|]. cbn [loop].
  apply preserves_lift_bind. intros e ->. apply preserves_bind; [|done].
  apply preserves_catch; [by apply keeps_consume|eauto with preserves].
Qed.

(** C25: Whatever the settings, the state of the source, the filter, the detector and
    the way the run ends: what an attestation of the target states stays, unless
    the source removes the attestation. *)
Theorem replica_only_extends cfg boot rp keys fetch items :
  (∀ key a, fetch key = Ok (Some a) → attestation_ok a) → Forall item_ok items →
  attests rp → attests (run cfg boot keys fetch items rp).1.
Proof.
  intros Hf Hit. apply preserves_bind; [|intros _; by apply keeps_tail].
  destruct boot; [by apply keeps_bootstrap|apply preserves_ret].
Qed.
End safety.

(** ** Every event is counted once *)

Section accounting.
Context {T : Type} `{KvBucket T} `{KvPuts T}.
Notation action := (stm (MultiOrgAttestationReplicator T) attestation_kv_error).

(** The events that the counters tell of. *)
Definition counted_events (m : MultiOrgAttestationReplicationMetrics) : Z :=
  events_applied_put m + events_applied_delete m + events_skipped_by_filter m + cas_conflicts m +
  monotonic_breaches m + envelope_errors m.
Definition processed (rp : MultiOrgAttestationReplicator T) : Z :=
  counted_events (metrics rp) + total_replay_drops rp.

(** A computation that counts [ok] if it succeeds and, if it raises an error that
    [caught] selects, nothing. *)
Definition spends {A} (ok : Z) (caught : attestation_kv_error → Prop) (m : action A) : Prop :=
  ∀ rp, match m rp with
        | (rp', Ok _) => processed rp' = processed rp + ok
        | (rp', Err e) => caught e → processed rp' = processed rp
        end.

Lemma spends_bind {A B} b caught (m : action A) (f : A → action B) :
  spends 0 caught m → (∀ x, spends b caught (f x)) → spends b caught (m ≫= f).
Proof.
  intros Hm Hf rp. specialize (Hm rp). unfold mbind, stm_bind. destruct (m rp) as [rp1 [x|e]]; [|done].
  specialize (Hf x rp1). destruct (f x rp1) as [rp2 [y|e]]; [lia|]. intros He. specialize (Hf He). lia.
Qed.

(** A handler of what is selected. *)
Lemma spends_catch {A} ok inner caught (m : action A) (h : attestation_kv_error → action A) :
  spends ok inner m → (∀ e, inner e → spends ok caught (h e)) →
  (∀ e rp, ¬ inner e → ∃ e', h e rp = (rp, Err e') ∧ ¬ caught e') → (∀ e, inner e ∨ ¬ inner e) →
  spends ok caught (catch m h).
Proof.
  intros Hm Hh Hn Hdec rp. specialize (Hm rp). unfold catch. destruct (m rp) as [rp1 [x|e]]; [exact Hm|].
  destruct (Hdec e) as [He|He].
  - specialize (Hm He). specialize (Hh e He rp1). destruct (h e rp1) as [rp2 [y|e']]; [lia|].
    intros Hc. specialize (Hh Hc). lia.
  - destruct (Hn e rp1 He) as (e' & -> & Hc). done.
Qed.

Lemma spends_tick inc caught : spends (counted_events inc) caught (tick inc).
Proof.
  intros rp. cbn. unfold processed, total_replay_drops. cbn. destruct (metrics rp), inc. unfold counted_events.
  cbn. lia.
Qed.

(** Reads, writes of the target and raised errors count nothing. *)
Lemma spends_silent {A} caught (m : action A) :
  (∀ rp, metrics (m rp).1 = metrics rp ∧ replay_drops_per_org (m rp).1 = replay_drops_per_org rp) →
  spends 0 caught m.
Proof.
  intros Hm rp. destruct (Hm rp) as [E1 E2]. destruct (m rp) as [rp' r]. cbn in E1, E2.
  unfold processed, total_replay_drops. rewrite E1, E2. destruct r; lia.
Qed.

Lemma spends_lift {A} caught (x : result attestation_kv_error A) : spends 0 caught (lift x).
Proof. by apply spends_silent. Qed.
Lemma spends_throw {A} ok caught e : spends ok caught (throw (A:=A) e : action A).
Proof. intros rp. cbn. done. Qed.
Lemma spends_call {A} caught (call : T → T * result attestation_kv_error A) : spends 0 caught (on_target call).
Proof. apply spends_silent. intros rp. unfold on_target. by destruct (call (target rp)). Qed.
Lemma spends_read {A} caught (read : T → result attestation_kv_error A) : spends 0 caught (of_target read).
Proof. by apply spends_silent. Qed.

Lemma spends_counted halt inc (caught : attestation_kv_error → Prop) e :
  counted_events inc = 1 → (halt = true → ¬ caught e) → spends 1 caught (counted halt inc e : action ()).
Proof.
  intros Hi He rp. pose proof (spends_tick inc caught rp) as Ht. cbn in Ht. rewrite Hi in Ht. unfold counted.
  unfold mbind, stm_bind. cbn. destruct halt; cbn; [|done]. intros Hc. by destruct (He eq_refl).
Qed.

Definition sum_values (m : gmap str Z) : Z := foldr Z.add 0 (map_to_list m).*2.

Lemma sum_insert m k v : m !! k = None → sum_values (<[k := v]> m) = v + sum_values m.
Proof.
  intros Hk. unfold sum_values. pose proof (map_to_list_insert m k v Hk) as Hp.
  apply (fmap_Permutation snd) in Hp. cbn in Hp. revert Hp.
  generalize (map_to_list m).*2 (map_to_list (<[k := v]> m)).*2. intros l l' Hp.
  change (v + foldr Z.add 0 l) with (foldr Z.add 0 (v :: l)).
  induction Hp; cbn in *; lia.
Qed.

Lemma sum_value m k : sum_values m = default 0 (m !! k) + sum_values (base.delete k m).
Proof.
  destruct (m !! k) as [v|] eqn:Ek.
  - rewrite <- (insert_delete_id m k v) at 1 by done. by rewrite sum_insert by (apply lookup_delete_eq).
  - by rewrite delete_id.
Qed.

Lemma spends_drop caught e : spends 1 caught (_record_replay_drop e : action ()).
Proof.
  intros rp. unfold processed. cbn [_record_replay_drop modify fst snd metrics]. unfold total_replay_drops.
  cbn [replay_drops_per_org]. fold (sum_values (replay_drops_per_org rp)).
  set (m := replay_drops_per_org rp). set (k := drop_key e).
  match goal with |- context [map_to_list ?m'] => fold (sum_values m') end.
  rewrite <- insert_delete_eq, sum_insert by (apply lookup_delete_eq). rewrite (sum_value m k). lia.
Qed.

Definition is_envelope (e : attestation_kv_error) : Prop := e = MultiOrgAttestationEnvelopeError.
Definition is_conflict (e : attestation_kv_error) : Prop :=
  match e with
  | MultiOrgAttestationMonotonicConflict _ _ _ _ | MultiOrgAttestationCasConflict _ _ => True
  | _ => False
  end.

Lemma spends_apply_put cfg e : spends 1 is_envelope (_apply_put cfg e : action ()).
Proof.
  unfold _apply_put. destruct (attested e) as [a|]; [|apply spends_throw].
  assert (∀ m : action Z, spends 0 (λ _, True) m → spends 1 (λ _, True) (m;; tick one_put)) as Hbody.
  { intros m Hm. apply spends_bind; [done|]. intros _. apply (spends_tick one_put). }
  apply (spends_catch 1 (λ _, True)).
  - apply Hbody. destruct (conflict_policy cfg); [apply spends_call|].
    apply spends_bind; [apply spends_read|]. intros [[y n]|]; apply spends_call.
  - intros err _. destruct err; cbn [handle]; first [apply spends_throw|apply spends_counted; done].
  - intros err rp Hn. by destruct Hn.
  - by left.
Qed.

Lemma spends_consume cfg e : spends 1 is_envelope (_consume_event cfg e : action ()).
Proof.
  unfold _consume_event. apply spends_bind; [by apply spends_silent|]. intros _.
  apply spends_bind; [apply spends_lift|]. intros []; [|apply (spends_tick one_filtered)].
  apply spends_bind; [apply spends_lift|]. intros []; [|apply spends_drop].
  destruct (op e); [apply spends_apply_put|..]; apply spends_bind, (λ _, spends_tick one_delete _); apply spends_call.
Qed.

(** A computation that counts [n] events if it succeeds, and raises an envelope
    error only with the flag. *)
Definition counts cfg (n : Z) (m : action ()) : Prop :=
  ∀ rp, match m rp with
        | (rp', Ok _) => processed rp' = processed rp + n
        | (_, Err e) => is_envelope e → halt_on_envelope_error cfg = true
        end.

Lemma counts_round cfg e : counts cfg 1 (catch (_consume_event cfg e) (count_envelope_error cfg)).
Proof.
  intros rp. pose proof (spends_consume cfg e rp) as Hc. unfold catch.
  destruct (_consume_event cfg e rp) as [rp1 [[]|err]]; [done|]. destruct err; try (by intros [=]).
  specialize (Hc eq_refl). cbn [count_envelope_error]. unfold counted.
  pose proof (spends_tick one_envelope_error (λ _, True) rp1) as Ht. unfold mbind, stm_bind. cbn in *.
  change (counted_events one_envelope_error) with 1 in Ht. destruct (halt_on_envelope_error cfg); cbn; [done|]. lia.
Qed.

Lemma counts_loop cfg es : counts cfg (Z.of_nat (length es)) (loop cfg (Ok <$> es)).
Proof.
  induction es as [|e es IH]; intros rp; [cbn; lia|].
  change (loop cfg (Ok <$> e :: es) rp) with
    ((catch (_consume_event cfg e) (count_envelope_error cfg);; loop cfg (Ok <$> es)) rp).
  pose proof (counts_round cfg e rp) as Hr. unfold mbind, stm_bind.
  destruct (catch _ _ rp) as [rp1 [[]|err]]; [|done]. specialize (IH rp1).
  destruct (loop cfg (Ok <$> es) rp1) as [rp2 [[]|err]]; [|done]. rewrite length_cons. lia.
Qed.

(** C26: A run over the events of a stream that ends without an error counted each of
    them exactly once: as applied, removed, filtered, dropped as a replay, refused
    as a conflict or a breach, or as an envelope error. *)
Theorem events_accounted cfg es rp rp' :
  tail cfg (Ok <$> es) rp = (rp', Ok ()) → processed rp' = processed rp + Z.of_nat (length es).
Proof.
  intros Ht. pose proof (counts_loop cfg es rp) as Hl. unfold tail, catch in Ht.
  destruct (loop cfg (Ok <$> es) rp) as [rp1 [[]|err]]; [by injection Ht as ->|].
  destruct err; try done. specialize (Hl eq_refl). cbn [count_envelope_error] in Ht. unfold counted in Ht.
  rewrite Hl in Ht. by unfold mbind, stm_bind in Ht.
Qed.
End accounting.

(** ** A replica of pinned writers *)

Section target.
Context {T : Type} `{KvLaws T} `{!KvPuts T} `{!KvPutLaws T} `{!KvFreshLaws T}.

(** Every entry was written by a well-formed writer, under its own key. *)
Definition good (t : T) : Prop :=
  ∀ k, is_Some (kv_get t k) → ∃ x, live_entry t k = Some x ∧ att_route_id x = k ∧ attestation_ok x.

Lemma good_view t k : good t → get_with_revision t k = Ok (view t k).
Proof.
  intros Ht. unfold view. destruct (get_with_revision t k) as [o|e] eqn:E; [done|]. exfalso.
  destruct (kv_get t k) as [kve|] eqn:Ek.
  - destruct (Ht k) as (x & Hx & _); [by rewrite Ek|]. unfold live_entry, view in Hx. by rewrite E in Hx.
  - unfold get_with_revision in E. rewrite Ek in E. by destruct (str_empty k).
Qed.

Lemma good_keyed t : good t → well_keyed t.
Proof. intros Ht k (x & Hx & Hk & _)%Ht. exists x. by rewrite <- live_some. Qed.

Lemma good_at t k x : good t → live_entry t k = Some x → att_route_id x = k ∧ attestation_ok x.
Proof.
  intros Ht Hx. pose proof Hx as (n & (_ & v & Hv & _)%view_some)%live_some%get_some.
  destruct (Ht k) as (y & Hy & Hr); [by rewrite Hv|]. congruence.
Qed.

Lemma holds_good t a t' :
  good t → attestation_ok a → holds t a t' →
  good t' ∧ ∀ k, live_entry t' k = if decide (k = att_route_id a) then Some a else live_entry t k.
Proof.
  intros Ht Ha Hh. split; [|intros k; apply Hh]. intros k Hk. destruct (Hh k) as [He Hg].
  unfold live_entry. rewrite He. case_decide as Hr; [by exists a|]. apply Ht. by rewrite <- Hg.
Qed.

(** The check passes for an extension of the live attestation. *)
Lemma plan_extension t a :
  good t → (∀ x, live_entry t (att_route_id a) = Some x → extends x a) →
  ∃ b, write_plan t a = Ok (att_route_id a, b).
Proof.
  intros Ht Ha. unfold write_plan. rewrite well_keyed_get, bind_Ok by (by apply good_keyed).
  rewrite (proj2 (monotonic_ok _ _ _) Ha), bind_Ok. destruct (envelope_exists a) as [b ->]. by exists b.
Qed.

Lemma put_extension t a :
  good t → attestation_ok a → (∀ x, live_entry t (att_route_id a) = Some x → extends x a) →
  ∃ t' n, put t a = (t', Ok n) ∧ holds t a t'.
Proof.
  intros Ht Ha Hx. destruct (plan_extension t a Ht Hx) as [b Hp]. unfold put. rewrite Hp.
  apply write_plan_ok in Hp as (_ & Hb & _). destruct (kv_put t (att_route_id a) b) as [t' n] eqn:E.
  exists t', n. split; [done|]. eapply envelope_held; [done..|]. intros k. by eapply kv_put_get.
Qed.

(** A pinned write at the revision that was just read, 0 if there is no entry. *)
Lemma pinned_extension t a :
  good t → attestation_ok a → (∀ x, live_entry t (att_route_id a) = Some x → extends x a) →
  ∃ t' n, put_with_revision t a (default 0 (snd <$> view t (att_route_id a))) = (t', Ok n) ∧ holds t a t'.
Proof.
  intros Ht Ha Hx. destruct (plan_extension t a Ht Hx) as [b Hp]. unfold put_with_revision, put_plan.
  set (rev := default 0 _).
  assert (0 <= rev ∧ is_Some (kv_update t (att_route_id a) b rev)) as [Hrev [[t' n] Hu]].
  { unfold rev. destruct (view t (att_route_id a)) as [[x n]|] eqn:Ev; cbn.
    - apply view_some in Ev as (_ & v & Hv & _). split; [by eapply kv_revision_nonneg|].
      by apply (kv_update_at t _ v n n Hv b).
    - split; [done|]. apply kv_update_fresh. destruct (kv_get t (att_route_id a)) as [e|] eqn:E; [|done].
      destruct (Ht (att_route_id a)) as (y & Hy & _); [by rewrite E|]. unfold live_entry in Hy. by rewrite Ev in Hy. }
  rewrite (proj2 (Z.ltb_ge rev 0)) by lia. rewrite raise_if_false, bind_Ok, Hp.
  apply write_plan_ok in Hp as (_ & Hb & _). unfold _kv_update_with_revision. rewrite Hu.
  exists t', n. split; [done|]. eapply envelope_held; [done..|]. intros k. by eapply kv_update_get.
Qed.

(** Equal envelopes are of equal attestations. *)
Lemma byte_equal a b :
  attestation_ok a → attestation_ok b → _attestations_byte_equal (Some a) (Some b) = true → a = b.
Proof.
  intros Ha Hb He. destruct (attestation_roundtrip a Ha) as (x & Ex & Rx), (attestation_roundtrip b Hb) as (y & Ey & Ry).
  cbn in He. rewrite Ex, Ey in He. apply bool_decide_eq_true in He as ->. rewrite Rx in Ry. by apply Ok_inj in Ry.
Qed.

Lemma byte_equal_refl a : _attestations_byte_equal (Some a) (Some a) = true.
Proof. cbn. destruct (envelope_exists a) as [b ->]. by apply bool_decide_eq_true. Qed.
End target.

Section mirror.
Context {S : Type} `{KvLaws S} `{!KvKeys S} `{!KvKeysLaws S} {kv_top : S → Z} `{!KvRevisionLaws S kv_top}.
Context {T : Type} `{KvLaws T} `{!KvPuts T} `{!KvPutLaws T} `{!KvFreshLaws T}.
Variable cfg : config.
Notation action := (stm (MultiOrgAttestationReplicator T) attestation_kv_error).

(** Nothing is filtered out and nothing is taken for a replay. *)
Definition accepting : Prop :=
  (∀ e, filter_fn cfg e = Ok APPLY) ∧ (∀ e, replay_detector_fn cfg e = Ok PASS_THROUGH).

(** What the source has extends what the target has. *)
Definition behind (t : T) (f : str → option MultiOrgRouteAttestation) : Prop :=
  ∀ k x, live_entry t k = Some x → ∃ y, f k = Some y ∧ extends x y.

(** The counters of what went wrong, and of the dropped replays. *)
Definition troubles (rp : MultiOrgAttestationReplicator T) : Z * Z * Z * Z * gmap str Z :=
  (bootstrap_monotonic_breaches (metrics rp), monotonic_breaches (metrics rp), cas_conflicts (metrics rp),
   envelope_errors (metrics rp), replay_drops_per_org rp).

(** A computation that stores [a] and counts no trouble. *)
Definition stores (a : MultiOrgRouteAttestation) (m : action ()) : Prop :=
  ∀ rp, good (target rp) → (∀ x, live_entry (target rp) (att_route_id a) = Some x → extends x a) →
  ∃ rp', m rp = (rp', Ok ()) ∧ good (target rp') ∧
    (∀ k, live_entry (target rp') k = if decide (k = att_route_id a) then Some a else live_entry (target rp) k) ∧
    troubles rp' = troubles rp.

Definition untroubled (inc : MultiOrgAttestationReplicationMetrics) : Prop :=
  (bootstrap_monotonic_breaches inc, monotonic_breaches inc, cas_conflicts inc, envelope_errors inc) = (0, 0, 0, 0).

Lemma troubles_count inc t t' m h d :
  untroubled inc → troubles (MkReplicator t' (count inc m) h d) = troubles (MkReplicator t m h d).
Proof. destruct inc, m. unfold untroubled, troubles. cbn. intros [= -> -> -> ->]. by rewrite !Z.add_0_r. Qed.

Lemma stores_call a inc (call : T → T * result attestation_kv_error Z) (hd : attestation_kv_error → action ()) :
  attestation_ok a → untroubled inc →
  (∀ t, good t → (∀ x, live_entry t (att_route_id a) = Some x → extends x a) →
     ∃ t' n, call t = (t', Ok n) ∧ holds t a t') →
  stores a (catch (on_target call;; tick inc) hd).
Proof.
  intros Ha Hi Hc rp Hg Hx. destruct (Hc _ Hg Hx) as (t' & n & E & Hh).
  destruct (holds_good _ _ _ Hg Ha Hh) as [Hg' He].
  unfold catch, mbind, stm_bind, on_target. rewrite E. cbn. eexists. split; [done|]. split_and!; [done..|].
  destruct rp. by apply troubles_count.
Qed.

(** *** Bootstrap *)

Lemma bootstrap_key_stores fetch key a :
  accepting → attestation_ok a → fetch key = Ok (Some a) → att_route_id a = key →
  stores a (bootstrap_key cfg fetch key).
Proof.
  intros [Hf _] Ha Ea Hk rp Hg Hx. subst key. unfold bootstrap_key.
  rewrite (stm_bind_eq _ _ rp rp (Some a)) by (unfold lift; by rewrite Ea). rewrite Hf.
  rewrite (stm_bind_eq _ _ rp rp APPLY) by done.
  rewrite (stm_bind_eq _ _ rp rp (view (target rp) (att_route_id a))) by (unfold of_target; by rewrite good_view).
  destruct (_attestations_byte_equal _ _) eqn:Eq.
  - eexists. split; [done|]. split; [done|]. split; [|destruct rp; by apply troubles_count].
    intros k. cbn [target]. case_decide as Hk; [|done]. subst k.
    unfold live_entry. destruct (view (target rp) (att_route_id a)) as [[y n]|] eqn:Ey; [|done]. cbn in *. f_equal.
    destruct (good_at (target rp) (att_route_id a) y Hg) as [_ Hy].
    { unfold live_entry. by rewrite Ey. }
    by apply byte_equal.
  - destruct (conflict_policy cfg); [apply stores_call; try done; intros t Ht Htx; by apply put_extension|].
    destruct (pinned_extension (target rp) a Hg Ha Hx) as (t' & n & E & Hh).
    destruct (holds_good _ _ _ Hg Ha Hh) as [Hg' He].
    unfold catch, mbind, stm_bind, on_target. rewrite E. cbn. eexists. split; [done|]. split_and!; [done..|].
    destruct rp. by apply troubles_count.
Qed.

Lemma bootstrap_keys_mirror fetch f keys : ∀ rp,
  accepting → good (target rp) → behind (target rp) f →
  (∀ k, k ∈ keys → fetch k = Ok (f k)) → (∀ k a, f k = Some a → att_route_id a = k ∧ attestation_ok a) →
  ∃ rp', bootstrap_keys cfg fetch keys rp = (rp', Ok ()) ∧ good (target rp') ∧
    (∀ k, live_entry (target rp') k = if decide (k ∈ keys) then f k else live_entry (target rp) k) ∧
    troubles rp' = troubles rp.
Proof.
  induction keys as [|key keys IH]; intros rp Hc Hg Hb Hfetch Hf.
  { exists rp. by split_and!. }
  assert (∃ rp1, bootstrap_key cfg fetch key rp = (rp1, Ok ()) ∧ good (target rp1) ∧
    (∀ k, live_entry (target rp1) k = if decide (k = key) then f key else live_entry (target rp) k) ∧
    troubles rp1 = troubles rp) as (rp1 & E1 & Hg1 & He1 & Ht1).
  { specialize (Hfetch key ltac:(left)). destruct (f key) as [a|] eqn:Ea.
    - destruct (Hf key a Ea) as [<- Ha]. apply bootstrap_key_stores; [done..|].
      intros x Hx. destruct (Hb _ x Hx) as (y & Hy & Hxy). congruence.
    - exists rp. split_and!; try done.
      + unfold bootstrap_key. by rewrite Hfetch.
      + intros k. case_decide as Hk; [|done]. subst k. destruct (live_entry (target rp) key) as [x|] eqn:Ex; [|done].
        destruct (Hb _ x Ex) as (y & Hy & _). congruence. }
  destruct (IH rp1) as (rp' & E' & Hg' & He' & Ht'); try done.
  - intros k x. rewrite He1. case_decide as Hk; [|apply Hb]. subst k. intros Hx. by exists x.
  - intros k Hk. apply Hfetch. by right.
  - exists rp'. cbn [bootstrap_keys]. unfold mbind, stm_bind. rewrite E1. split_and!; [done|done| |congruence].
    intros k. rewrite He', He1.
    destruct (decide (k ∈ keys)); [by rewrite decide_True by (by right)|].
    destruct (decide (k = key)) as [->|Hne]; [by rewrite decide_True by left|].
    rewrite decide_False; [done|]. by intros [?|?]%elem_of_cons.
Qed.

Lemma bootstrap_mirror rp s ks :
  accepting → good (target rp) → good s → behind (target rp) (live_entry s) → kv_keys s = Some ks →
  ∃ rp', bootstrap_multi_org_attestation_target_from_source cfg (get s) (Some ks) rp = (rp', Ok ()) ∧
    good (target rp') ∧ (∀ k, live_entry (target rp') k = live_entry s k) ∧ troubles rp' = troubles rp.
Proof.
  intros Hc Hg Hs Hb Hks. unfold bootstrap_multi_org_attestation_target_from_source.
  rewrite (stm_bind_eq _ _ rp rp ks) by done.
  destruct (bootstrap_keys_mirror (get s) (live_entry s) (py_sorted str_leb ks) rp) as (rp' & E & Hg' & He & Ht);
    try done.
  - intros k _. by apply well_keyed_get, good_keyed.
  - intros k a Ha. by apply (good_at s).
  - exists rp'. split_and!; [done..| |done]. intros k. rewrite He. case_decide as Hk; [done|].
    assert (live_entry s k = None) as Hn.
    { destruct (live_entry s k) as [x|] eqn:Ex; [|done]. exfalso. apply Hk, elem_of_py_sorted, (kv_keys_in s ks k Hks).
      apply live_some, get_some in Ex as (n & (_ & v & Hv & _)%view_some). eauto. }
    rewrite Hn. destruct (live_entry (target rp) k) as [x|] eqn:Ex; [|done].
    destruct (Hb k x Ex) as (y & Hy & _). congruence.
Qed.

(** *** Events *)

Lemma apply_put_stores e a :
  attested e = Some a → attestation_ok a → att_route_id a = route_id e → stores a (_apply_put cfg e).
Proof.
  intros Ea Ha Hk rp Hg Hx. unfold _apply_put. rewrite Ea.
  destruct (conflict_policy cfg); [apply stores_call; try done; intros t Ht Htx; by apply put_extension|].
  destruct (view (target rp) (route_id e)) as [[y n]|] eqn:Ey.
  - destruct (pinned_extension (target rp) a Hg Ha Hx) as (t' & n' & E & Hh).
    rewrite Hk, Ey in E. cbn in E. destruct (holds_good _ _ _ Hg Ha Hh) as [Hg' He].
    unfold catch, mbind, stm_bind, of_target. rewrite good_view, Ey by done. unfold on_target. rewrite E. cbn.
    eexists. split; [done|]. split_and!; [done..|]. destruct rp. by apply (troubles_count one_put).
  - destruct (put_extension (target rp) a Hg Ha Hx) as (t' & n' & E & Hh).
    destruct (holds_good _ _ _ Hg Ha Hh) as [Hg' He].
    unfold catch, mbind, stm_bind, of_target. rewrite good_view, Ey by done. unfold on_target. rewrite E. cbn.
    eexists. split; [done|]. split_and!; [done..|]. destruct rp. by apply (troubles_count one_put).
Qed.

Lemma consume_stores e a :
  accepting → op e = PUT → attested e = Some a → attestation_ok a → att_route_id a = route_id e →
  stores a (_consume_event cfg e).
Proof.
  intros [Hf Hd] Ho Ea Ha Hk rp Hg Hx. unfold _consume_event.
  match goal with |- context [observe e ≫= _] => idtac end.
  erewrite stm_bind_eq by reflexivity. rewrite Hf. erewrite stm_bind_eq by reflexivity.
  rewrite Hd. erewrite stm_bind_eq by reflexivity. rewrite Ho.
  edestruct (apply_put_stores e a Ea Ha Hk) as (rp' & E & Hrest); [| |exists rp'; split; [exact E|exact Hrest]]; done.
Qed.

Lemma loop_app es es' rp rp' :
  loop cfg (Ok <$> es) rp = (rp', Ok ()) → loop cfg (Ok <$> (es ++ es')) rp = loop cfg (Ok <$> es') rp'.
Proof.
  revert rp. induction es as [|e es IH]; intros rp; [by intros [= ->]|]. cbn [fmap list_fmap app loop].
  rewrite !(stm_bind_eq (lift (Ok e)) _ rp rp e) by done. unfold mbind, stm_bind.
  destruct (catch _ _ rp) as [rp1 [[]|err]]; [apply IH|done].
Qed.

(** However far a target lags behind its source: after the bootstrap and the
    updates of pinned writers, however these interleave, it has the attestations
    of the source under every key.  Nothing is counted as a breach, a conflict, an
    error or a replay, under either policy and with any flags. *)
Theorem attestation_replica_mirrors rp σ σ' ks :
  accepting → good (target rp) → good (pin_bucket σ) → behind (target rp) (live_entry (pin_bucket σ)) →
  pin_writers σ = ∅ → pin_log σ = [] → rtc (pinned_step (attestations kv_top)) σ σ' →
  kv_keys (pin_bucket σ) = Some ks →
  ∃ rp', run cfg true (Some ks) (get (pin_bucket σ)) (Ok <$> (event_of <$> pin_log σ')) rp = (rp', Ok ()) ∧
    (∀ k, get (target rp') k = Ok (live_entry (pin_bucket σ') k)) ∧ troubles rp' = troubles rp.
Proof.
  intros Hc Hg Hs Hb Hw Hlog Hrun Hks.
  destruct (bootstrap_mirror rp (pin_bucket σ) ks Hc Hg Hs Hb Hks) as (rp0 & E0 & Hg0 & Hm0 & Ht0).
  unfold run. rewrite (stm_bind_eq _ _ rp rp0 ()) by exact E0.
  enough (∃ rp', loop cfg (Ok <$> (event_of <$> pin_log σ')) rp0 = (rp', Ok ()) ∧ good (target rp') ∧
    (∀ k, live_entry (target rp') k = live_entry (pin_bucket σ') k) ∧ troubles rp' = troubles rp0)
    as (rp' & E & Hg' & Hm & Ht).
  { exists rp'. unfold tail, catch. rewrite E. split_and!; [done| |congruence].
    intros k. by rewrite (well_keyed_get _ k (good_keyed _ Hg')), Hm. }
  apply (pinned_ind (attestations kv_top) (λ s log, ∃ rp', loop cfg (Ok <$> (event_of <$> log)) rp0 = (rp', Ok ()) ∧
    good (target rp') ∧ (∀ k, live_entry (target rp') k = live_entry s k) ∧ troubles rp' = troubles rp0) σ σ');
    [|done| |done].
  - intros s log p s' rev (rp1 & E1 & Hg1 & Hm1 & Ht1) Hp Hu.
    destruct (write_entries s p s' rev Hp Hu) as (He & _).
    destruct (pinned_effect (attestations kv_top) s p s' rev Hp Hu) as (_ & Hkeep & _).
    destruct Hp as ((Ha & Hk & _) & _).
    destruct (consume_stores (event_of (p, rev)) (pin_record p) Hc eq_refl eq_refl Ha (eq_sym Hk) rp1 Hg1)
      as (rp2 & E2 & Hg2 & Hm2 & Ht2).
    { intros x. rewrite Hm1, <- Hk. unfold live_entry. destruct (view s (pin_key p)) as [[y n]|] eqn:Ey; [|done].
      intros [= ->]. by eapply Hkeep. }
    exists rp2. rewrite fmap_app, (loop_app _ _ _ _ E1). split_and!; [|done| |congruence].
    + cbn [fmap list_fmap loop]. rewrite (stm_bind_eq _ _ rp1 rp1 (event_of (p, rev))) by done.
      unfold mbind, stm_bind, catch. by rewrite E2.
    + intros k. rewrite Hm2, He, Hk. by rewrite Hm1.
  - exists rp0. rewrite Hlog. by split_and!.
Qed.
End mirror.

(** A bootstrap of a target that has the attestations of the source writes
    nothing: every attestation is skipped as equal. *)
Section again.
Context {T : Type} `{KvLaws T} `{!KvPuts T}.
Variables (cfg : config) (fetch : str → result attestation_kv_error (option MultiOrgRouteAttestation)).

Definition unchanged (rp rp' : MultiOrgAttestationReplicator T) (skipped : Z) : Prop :=
  target rp' = target rp ∧ bootstrap_applied (metrics rp') = bootstrap_applied (metrics rp) ∧
  bootstrap_skipped_idempotent (metrics rp') = bootstrap_skipped_idempotent (metrics rp) + skipped.

Lemma skip_key rp key :
  accepting cfg → good (target rp) → fetch key = Ok (live_entry (target rp) key) →
  ∃ rp', bootstrap_key cfg fetch key rp = (rp', Ok ()) ∧
    unchanged rp rp' (if bool_decide (is_Some (live_entry (target rp) key)) then 1 else 0).
Proof.
  intros [Hf _] Hg Hk. unfold bootstrap_key.
  rewrite (stm_bind_eq _ _ rp rp (live_entry (target rp) key)) by (unfold lift; by rewrite Hk).
  destruct (live_entry (target rp) key) as [a|] eqn:Ea.
  - rewrite Hf, (stm_bind_eq _ _ rp rp APPLY) by done.
    rewrite (stm_bind_eq _ _ rp rp (view (target rp) key)) by (unfold of_target; by rewrite good_view).
    unfold live_entry in Ea. destruct (view (target rp) key) as [[y n]|]; [|done]. injection Ea as ->.
    cbn [fmap option_fmap option_map fst]. rewrite byte_equal_refl. eexists. split; [done|].
    unfold unchanged. cbn. split_and!; lia || done.
  - exists rp. split; [done|]. unfold unchanged. cbn. split_and!; lia || done.
Qed.

Theorem bootstrap_again rp keys :
  accepting cfg → good (target rp) →
  (∀ k, k ∈ keys → fetch k = Ok (live_entry (target rp) k)) →
  ∃ rp', bootstrap_multi_org_attestation_target_from_source cfg fetch (Some keys) rp = (rp', Ok ()) ∧
    unchanged rp rp' (Z.of_nat (length (omap (live_entry (target rp)) keys))).
Proof.
  intros Hc Hg Hf. unfold bootstrap_multi_org_attestation_target_from_source.
  rewrite (stm_bind_eq _ _ rp rp keys) by done.
  replace (length (omap (live_entry (target rp)) keys))
    with (length (omap (live_entry (target rp)) (py_sorted str_leb keys))) by (by rewrite py_sorted_perm).
  assert (∀ k, k ∈ py_sorted str_leb keys → fetch k = Ok (live_entry (target rp) k)) as Hs
    by (intros k Hk%elem_of_py_sorted; by apply Hf).
  clear Hf. revert rp Hg Hs. induction (py_sorted str_leb keys) as [|k ks IH]; intros rp Hg Hs.
  { exists rp. split; [done|]. unfold unchanged. cbn. split_and!; lia || done. }
  destruct (skip_key rp k Hc Hg (Hs k ltac:(left))) as (rp1 & E1 & Ht1 & Ha1 & Hi1).
  destruct (IH rp1) as (rp' & E' & Ht' & Ha' & Hi'); [by rewrite Ht1| |].
  { intros k' Hk'. rewrite Ht1. apply Hs. by right. }
  exists rp'. cbn [bootstrap_keys]. unfold mbind, stm_bind. rewrite E1. split; [done|]. rewrite Ht1 in *.
  split_and!; [done|lia|]. rewrite Hi', Hi1. csimpl. destruct (live_entry (target rp) k) eqn:Ek.
  - rewrite bool_decide_true by done. rewrite length_cons. lia.
  - rewrite bool_decide_false by (by intros []). lia.
Qed.
End again.

#[export] Instance seq_fresh : KvFreshLaws seq_kv.
Proof. intros s k v. cbn. intros Hk%fmap_None. rewrite Hk. by eexists. Qed.

Module AttestationReplicationExample.
Import AttestationKvExample.

Definition on (t : seq_kv) : MultiOrgAttestationReplicator seq_kv := MkReplicator t no_metrics 0 ∅.
Definition pinning : config := MkConfig CAS_PIN _accept_all_attestation _default_pass_through true false false.
Definition events (cfg : config) (t : seq_kv) (items : list (result attestation_kv_error MultiOrgAttestationWatchEvent)) :=
  run cfg false None (λ _, Ok None) items (on t).
Definition put_event (a : MultiOrgRouteAttestation) (n : Z) : MultiOrgAttestationWatchEvent :=
  MkEvent PUT rid (Some a) n.

Lemma attested_bucket_good : good bucket0.
Proof.
  intros k (x & Hx & Hk)%bucket0_well_keyed. exists x. split; [by apply live_some|]. split; [done|].
  destruct (decide (k = rid)) as [->|Hne].
  - assert (Ok (E:=attestation_kv_error) (Some x) = Ok (Some plain)) as [= ->]
      by (rewrite <- Hx; by vm_compute). exact plain_ok.
  - exfalso. unfold bucket0, put in Hx. destruct (write_plan empty plain) as [[k' b]|] eqn:Ek; [|done].
    apply write_plan_ok in Ek as (-> & _). cbn [fst kv_put seq_puts] in Hx. unfold get in Hx.
    destruct (str_empty k); [done|]. cbn in Hx. by rewrite lookup_insert_ne in Hx by done.
Qed.

Lemma replica_only_extends_witness :
  attests rid plain (events default_config bucket0 [Ok (put_event moved 1); Ok (put_event pointed 2)]).1.
Proof.
  apply (replica_only_extends rid plain default_config false (on bucket0) None (λ _, Ok None)).
  - done.
  - repeat constructor.
    + intros e [= <-] a [= <-]. exact moved_ok.
    + intros e [= <-] a [= <-]. exact pointed_ok.
  - exists plain. split; [by vm_compute|done].
Defined.

Lemma attestation_replica_mirrors_witness :
  ∃ rp', run pinning true (Some [rid]) (get bucket0) [Ok (event_of (waiting, 2))] (on empty) = (rp', Ok ()) ∧
    (∀ k, get (target rp') k = Ok (live_entry bucket1 k)) ∧ troubles rp' = troubles (on empty).
Proof.
  apply (attestation_replica_mirrors (kv_top:=seq_top) pinning (on empty)
    (PinnedSys bucket0 ∅ []) (PinnedSys bucket1 ∅ [(waiting, 2)])).
  - done.
  - by intros k [e He].
  - exact attested_bucket_good.
  - intros k x (n & (_ & v & Hv & _)%view_some)%live_some%get_some. done.
  - done.
  - done.
  - exact pinned_run.
  - by vm_compute.
Defined.

Lemma bootstrap_again_witness :
  ∃ rp', bootstrap_multi_org_attestation_target_from_source default_config (get bucket0) (Some [rid]) (on bucket0) =
      (rp', Ok ()) ∧
    unchanged (on bucket0) rp' (Z.of_nat (length (omap (live_entry bucket0) [rid]))).
Proof.
  apply (bootstrap_again default_config (get bucket0) (on bucket0) [rid]).
  - done.
  - exact attested_bucket_good.
  - intros k _. apply well_keyed_get. exact bucket0_well_keyed.
Defined.

(** A detector that takes every second revision for a replay. *)
Definition odd_replays : config :=
  MkConfig SOURCE_WINS _accept_all_attestation
    (λ e, Ok (if Z.odd (revision e) then REPLAY else PASS_THROUGH)) true false false.
Definition stream : list MultiOrgAttestationWatchEvent :=
  [put_event plain 1; put_event plain 2; put_event moved 4; MkEvent DELETE rid None 5; MkEvent DELETE rid None 6].

Lemma events_accounted_witness :
  processed (tail odd_replays (Ok <$> stream) (on empty)).1 = processed (on empty) + Z.of_nat (length stream).
Proof.
  assert ((tail odd_replays (Ok <$> stream) (on empty)).2 = Ok ()) as E by (by vm_compute).
  apply (events_accounted odd_replays stream). revert E.
  destruct (tail odd_replays (Ok <$> stream) (on empty)) as [rp r]. cbn [fst snd]. by intros ->.
Defined.

Example stream_counters :
  let rp := (tail odd_replays (Ok <$> stream) (on empty)).1 in
  (events_applied_put (metrics rp), monotonic_breaches (metrics rp), events_applied_delete (metrics rp),
   map_to_list (replay_drops_per_org rp), high_water rp) =
  (1, 1, 1, [(u "<unknown>", 1); (u "peer.example", 1)], 6).
Proof. by vm_compute. Qed.

Definition errors_of (x : MultiOrgAttestationReplicator seq_kv * result attestation_kv_error ()) : Z :=
  envelope_errors (metrics x.1).

(** An unreadable entry of the target is counted twice before the run halts. *)
Example poison_counted_twice :
  let x := events default_config (seq_write empty rid []).1 [Ok (put_event plain 1)] in
  errors_of x = 2 ∧ x.2 = Err MultiOrgAttestationEnvelopeError.
Proof. split; by vm_compute. Qed.

(** Without the flag, an update that cannot be decoded ends the run quietly: the
    updates after it are not applied. *)
Example poison_ends_stream :
  let quiet := MkConfig SOURCE_WINS _accept_all_attestation _default_pass_through false false false in
  let x := events quiet empty [Err MultiOrgAttestationEnvelopeError; Ok (put_event plain 2)] in
  errors_of x = 1 ∧ x.2 = Ok () ∧ get (target x.1) rid = Ok None.
Proof. split_and!; by vm_compute. Qed.

(** A removal and a new attestation change the trust domain of the target. *)
Example removal_moves_domain :
  let x := events default_config bucket0 [Ok (MkEvent DELETE rid None 2); Ok (put_event moved 3)] in
  get (target x.1) rid = Ok (Some moved) ∧ x.2 = Ok () ∧ monotonic_breaches (metrics x.1) = 0.
Proof. split_and!; by vm_compute. Qed.

(** A bootstrap does not remove what the source does not have. *)
Example extra_attestation_stays :
  let x := run default_config true (Some []) (get empty) [] (on bucket0) in
  get (target x.1) rid = Ok (Some plain) ∧ x.2 = Ok ().
Proof. split; by vm_compute. Qed.

(** An unreadable entry of the source ends a bootstrap without being counted. *)
Example poisoned_source :
  let x := run default_config true (Some [rid]) (get (seq_write empty rid []).1) [] (on empty) in
  errors_of x = 0 ∧ x.2 = Err MultiOrgAttestationEnvelopeError.
Proof. split; by vm_compute. Qed.
End AttestationReplicationExample.
