(* ===== verification/RouteKv.v ===== *)
(** * Routes on a bucket
      ([wirelang/federation/route_registry_nats_kv_backend.py])

    A route of [FederationEval] is one entry of a key-value bucket, under its
    route id, without a check of what it replaces.  A reader checks the times of
    an entry and nothing else, so the identifiers it gets are any JSON values and
    the registry it builds is a dictionary over them.

    The theorems: entries read back; a consumer that starts from a snapshot and
    applies the updates of any puts and removals has the routes of the bucket, and
    the evaluator decides on its registry as the bucket says. *)

From S2P Require Import Prelude PyStr PyJson PyJsonLoads PyDyn PyEqual PyTime PyIso FederationEval Ledger MarkerKv PolicyKv.
From Stdlib Require Import ZArith Lia.

Open Scope Z_scope.

Inductive route_kv_error : Type :=
| RouteRegistryEnvelopeError
| RouteValueError                      (* ValueError: a naive time, an empty route id *)
| RouteOverflowError                   (* OverflowError of astimezone() *)
| RouteTypeError                       (* TypeError: a route id that cannot be hashed *)
| RouteUnicodeError                    (* UnicodeEncodeError of a text value *)
| RouteClientError.                    (* an exception of the client *)

(** An entry as it is read: the identifiers are not checked. *)
Record stored_route := MkStored {
  stored_id : json;
  stored_source : json;
  stored_from : datetime;
  stored_until : option datetime;
  stored_anchor : json;
}.

Inductive WatchOp : Type := PUT | DELETE | PURGE.

Record WatchEvent := MkWatch {
  op : WatchOp;
  event_key : str;
  entry : option stored_route;
  revision : Z;
}.

Module RouteKv.
Import PolicyKv.PolicyKv(text_json, text_of, get_field).

Definition BUCKET_NAME : str := u "wakir-federation-routes".
Definition VALUE_SCHEMA : str := u "wakir.federation.route-registry-entry/1".

(** ** Envelopes *)

Definition time_error (e : policy_kv_error) : route_kv_error :=
  match e with TimeValueError => RouteValueError | _ => RouteOverflowError end.

Section times.
Context `{LocalZone}.

Definition _dt_to_rfc3339 (d : datetime) : result route_kv_error str :=
  map_err time_error (PolicyKv.PolicyKv._dt_to_rfc3339 d).
Definition _rfc3339_to_dt (value : json) : result route_kv_error datetime :=
  map_err time_error (PolicyKv.PolicyKv._rfc3339_to_dt value).

Definition until_json (d : option datetime) : result route_kv_error json :=
  match d with Some d => t ← _dt_to_rfc3339 d; Ok (JStr t) | None => Ok JNull end.

Definition envelope_members (e : RouteRegistryEntry) (from : str) (until : json) : list (str * json) :=
  [(u "schema", JStr VALUE_SCHEMA);
   (u "route_id", JStr (route_id e));
   (u "source_ftd_id", JStr (source_ftd_id e));
   (u "active_from", JStr from);
   (u "active_until", until);
   (u "wat_anchor_manifest_id", text_json (wat_anchor_manifest_id e))].

Definition _entry_to_envelope (e : RouteRegistryEntry) : result route_kv_error bytes :=
  from ← _dt_to_rfc3339 (active_from e);
  until ← until_json (active_until e);
  of_option RouteUnicodeError (utf8_encode (json_dumps true true (JObj (envelope_members e from until)))).

Definition bad {A} (o : option A) : result route_kv_error A := of_option RouteRegistryEnvelopeError o.

(** [except ValueError]: an OverflowError passes. *)
Definition caught {A} (x : result route_kv_error A) : result route_kv_error A :=
  map_err (λ e, match e with RouteValueError => RouteRegistryEnvelopeError | _ => e end) x.

Definition until_of (j : json) : result route_kv_error (option datetime) :=
  match j with JNull => Ok None | _ => t ← _rfc3339_to_dt j; Ok (Some t) end.

Definition _envelope_to_entry (blob : bytes) : result route_kv_error stored_route :=
  text ← bad (utf8_decode blob);
  payload ← bad (json_loads text);
  match payload with
  | JObj d =>
      raise_if (negb (py_eq (get_field d (u "schema")) (JStr VALUE_SCHEMA))) RouteRegistryEnvelopeError;;
      rid ← bad (dict_get d (u "route_id"));
      source ← bad (dict_get d (u "source_ftd_id"));
      from ← bad (dict_get d (u "active_from"));
      window ← caught (from ← _rfc3339_to_dt from;
                       until ← until_of (get_field d (u "active_until"));
                       Ok (from, until));
      Ok (MkStored rid source window.1 window.2 (get_field d (u "wat_anchor_manifest_id")))
  | _ => Err RouteRegistryEnvelopeError
  end.

Definition _coerce_value_bytes (kve : kv_entry) : result route_kv_error bytes :=
  match kve with
  | KvRaw b => Ok b
  | KvObj None _ => Err RouteRegistryEnvelopeError
  | KvObj (Some (VBytes b)) _ => Ok b
  | KvObj (Some (VStr s)) _ => of_option RouteUnicodeError (utf8_encode s)
  end.

(** ** The backend *)

Section backend.
Context {S : Type} `{KvBucket S} `{KvKeys S} `{KvPuts S}.

Definition get (s : S) (rid : str) : result route_kv_error (option stored_route) :=
  if str_empty rid then Ok None
  else match kv_get s rid with
       | None => Ok None
       | Some kve =>
           blob ← _coerce_value_bytes kve;
           e ← _envelope_to_entry blob;
           Ok (Some e)
       end.

Definition put (s : S) (e : RouteRegistryEntry) : S * result route_kv_error Z :=
  match _entry_to_envelope e with
  | Err err => (s, Err err)
  | Ok blob => let '(s', rev) := kv_put s (route_id e) blob in (s', Ok rev)
  end.

Definition delete (s : S) (rid : str) : S * result route_kv_error () :=
  if str_empty rid then (s, Err RouteValueError)
  else match kv_get s rid with
       | None => (s, Ok ())
       | Some _ => (kv_delete s rid, Ok ())
       end.
End backend.

(** ** Registries: dictionaries over the route ids as they were read *)

Definition registry : Type := list (json * stored_route).

Definition hashable (j : json) : bool := match j with JList _ | JObj _ => false | _ => true end.

(** [d[k] = v] *)
Fixpoint set_key (d : registry) (k : json) (v : stored_route) : registry :=
  match d with
  | [] => [(k, v)]
  | (k', v') :: d => if item_eq k' k then (k', v) :: d else (k', v') :: set_key d k v
  end.

Definition add (reg : registry) (e : stored_route) : result route_kv_error registry :=
  raise_if (negb (hashable (stored_id e))) RouteTypeError;;
  Ok (set_key reg (stored_id e) e).

Definition lookup_route (reg : registry) (rid : str) : option stored_route :=
  snd <$> List.find (λ kv, item_eq kv.1 (JStr rid)) reg.

(** [d.pop(k, None)] *)
Definition pop (reg : registry) (rid : str) : registry :=
  List.filter (λ kv, negb (item_eq kv.1 (JStr rid))) reg.

Fixpoint add_all (reg : registry) (es : list stored_route) : result route_kv_error registry :=
  match es with
  | [] => Ok reg
  | e :: es => reg' ← add reg e; add_all reg' es
  end.

(** The keys as listed and the entries as they were fetched. *)
Fixpoint snapshot_from (reg : registry) (keys : list str)
    (fetch : str → result route_kv_error (option stored_route)) : result route_kv_error registry :=
  match keys with
  | [] => Ok reg
  | key :: keys =>
      e ← fetch key;
      reg' ← match e with Some e => add reg e | None => Ok reg end;
      snapshot_from reg' keys fetch
  end.

Definition snapshot (keys : option (list str))
    (fetch : str → result route_kv_error (option stored_route)) : result route_kv_error registry :=
  keys ← of_option RouteClientError keys;
  snapshot_from [] keys fetch.

(** ** The watch stream *)

Definition op_value (o : WatchOp) : str :=
  match o with PUT => u "PUT" | DELETE => u "DELETE" | PURGE => u "PURGE" end.

(** [upper()], as far as the comparison can tell. *)
Definition op_of_name (name : str) : option WatchOp :=
  let name := (λ c, if is_lower c then c - 32 else c) <$> name in
  List.find (λ o, str_eqb name (op_value o)) [PUT; DELETE; PURGE].

Definition _decode_watch_update (update : MarkerKv.MarkerKv.kv_update_msg) : result route_kv_error WatchEvent :=
  name ← bad (MarkerKv.MarkerKv.upd_operation update);
  o ← bad (op_of_name name);
  k ← bad (MarkerKv.MarkerKv.upd_key update ≫= text_of);
  raise_if (str_empty k) RouteRegistryEnvelopeError;;
  let rev := default 0 (MarkerKv.MarkerKv.upd_revision update) in
  match o with
  | PUT =>
      blob ← _coerce_value_bytes (MarkerKv.MarkerKv.upd_entry update);
      e ← _envelope_to_entry blob;
      Ok (MkWatch o k (Some e) rev)
  | _ => Ok (MkWatch o k None rev)
  end.

(** One [__anext__] on the updates to come: the event, or the error, and the
    updates left.  A missing update is skipped by an iterator and ends a
    watcher with [updates()]. *)
Fixpoint anext (iterator : bool) (updates : list (option MarkerKv.MarkerKv.kv_update_msg))
    : option (result route_kv_error WatchEvent * list (option MarkerKv.MarkerKv.kv_update_msg)) :=
  match updates with
  | [] => None
  | None :: rest => if iterator then anext iterator rest else None
  | Some upd :: rest => Some (_decode_watch_update upd, rest)
  end.
End times.

(** ** The live snapshot *)

Record LiveSnapshot := MkLive {
  last_revision : Z;
  _live : registry;
}.

Definition readd (reg : registry) : result route_kv_error registry := add_all [] reg.*2.

Definition new_live (initial : registry) (last : Z) : result route_kv_error LiveSnapshot :=
  m ← readd initial; Ok (MkLive last m).

(** The entry goes under its own route id, a removal takes the key of the event. *)
Definition apply (l : LiveSnapshot) (e : WatchEvent) : result route_kv_error LiveSnapshot :=
  m ← match op e with
      | PUT => match entry e with
               | Some r => add (_live l) r
               | None => Err RouteRegistryEnvelopeError
               end
      | _ => Ok (pop (_live l) (event_key e))
      end;
  Ok (MkLive (if last_revision l <? revision e then revision e else last_revision l) m).

Definition as_registry (l : LiveSnapshot) : result route_kv_error registry := readd (_live l).

Definition from_backend (keys : option (list str))
    (fetch : str → result route_kv_error (option stored_route)) : result route_kv_error LiveSnapshot :=
  initial ← snapshot keys fetch; new_live initial 0.
End RouteKv.

Import RouteKv.

(** ** Entries read back *)

Definition stored (e : RouteRegistryEntry) : stored_route :=
  MkStored (JStr (route_id e)) (JStr (source_ftd_id e)) (active_from e) (active_until e)
    (PolicyKv.PolicyKv.text_json (wat_anchor_manifest_id e)).

(** Encodable texts, a route id, and times with a zone. *)
Record route_wf (e : RouteRegistryEntry) : Prop := {
  wf_id : str_empty (route_id e) = false;
  wf_texts : okstr (route_id e) ∧ okstr (source_ftd_id e) ∧ PolicyKv.PolicyKv.opt_ok okstr (wat_anchor_manifest_id e);
  wf_from : PolicyKv.PolicyKv.stamp_ok (active_from e);
  wf_until : PolicyKv.PolicyKv.opt_ok PolicyKv.PolicyKv.stamp_ok (active_until e);
}.

Section envelopes.
Context `{LocalZone}.

Lemma route_time_reads d :
  PolicyKv.PolicyKv.stamp_ok d → ∃ t, _dt_to_rfc3339 d = Ok t ∧ okstr t ∧ _rfc3339_to_dt (JStr t) = Ok d.
Proof.
  intros (t & Et & Ht & Er)%PolicyKv.PolicyKv.stamp_reads. exists t. unfold _dt_to_rfc3339, _rfc3339_to_dt.
  by rewrite Et, Er.
Qed.

Lemma until_reads d :
  PolicyKv.PolicyKv.opt_ok PolicyKv.PolicyKv.stamp_ok d →
  ∃ j, until_json d = Ok j ∧ json_sort j = j ∧ json_wf j ∧ until_of j = Ok d.
Proof.
  destruct d as [d|]; [|by exists JNull]. intros (t & Et & Ht & Er)%route_time_reads.
  exists (JStr t). cbn [until_json]. rewrite Et, bind_Ok. split_and!; [done..|]. cbn [until_of]. by rewrite Er.
Qed.

(** A stored entry is read as the route it was written for. *)
Theorem route_roundtrip e :
  route_wf e → ∃ b, _entry_to_envelope e = Ok b ∧ _envelope_to_entry b = Ok (stored e).
Proof.
  intros [_ (Hid & Hsrc & Hw) Hf Hu]. destruct (route_time_reads _ Hf) as (t & Et & Ht & Er).
  destruct (until_reads _ Hu) as (j & Ej & Sj & Wj & Rj).
  destruct (PolicyKv.PolicyKv.opt_text_reads _ Hw) as (Sw & Ww & _).
  set (ms := envelope_members e t j).
  assert (NoDup ms.*1) as Hnd by (apply (bool_decide_unpack _); by vm_compute).
  assert (json_wf (JObj ms)) as Hwf.
  { apply json_wf_obj. split; [done|]. unfold ms, envelope_members.
    repeat (apply List.Forall_cons; [by split|]). constructor. }
  assert (∀ k v, dict_get ms k = Some v → dict_get (PolicyKv.PolicyKv.written ms) k = Some (json_sort v)) as Hget.
  { intros k v Hv. unfold PolicyKv.PolicyKv.written. by rewrite dict_get_sorted, Hv. }
  destruct (MarkerKv.MarkerKv.dumps_encodable _ Hwf) as [b Eb]. exists b. split.
  { unfold _entry_to_envelope. rewrite Et, bind_Ok, Ej, bind_Ok. fold ms. by rewrite Eb. }
  unfold _envelope_to_entry. rewrite (utf8_decode_encode _ _ Eb). cbn [bad of_option]. rewrite bind_Ok.
  rewrite json_loads_dumps by done. cbn [bad of_option]. rewrite bind_Ok.
  change (json_sort (JObj ?d)) with (JObj (PolicyKv.PolicyKv.written d)). cbv beta iota.
  unfold PolicyKv.PolicyKv.get_field.
  rewrite (Hget (u "schema") _ eq_refl), (Hget (u "route_id") _ eq_refl), (Hget (u "source_ftd_id") _ eq_refl),
    (Hget (u "active_from") _ eq_refl), (Hget (u "active_until") _ eq_refl),
    (Hget (u "wat_anchor_manifest_id") _ eq_refl).
  cbn [default id]. rewrite Sj, Sw. cbn [json_sort bad of_option].
  rewrite (proj2 (py_eq_str VALUE_SCHEMA _) eq_refl). cbn [negb]. rewrite raise_if_false, !bind_Ok.
  rewrite Er, bind_Ok, Rj, bind_Ok. done.
Qed.
End envelopes.

(** ** Registries of routes *)

Section registries.

(** Every key is the route id of its entry, as a text, and no two are equal. *)
Record typed (reg : registry) : Prop := {
  typed_keys : Forall (λ kv, ∃ k, kv.1 = JStr k ∧ stored_id kv.2 = JStr k) reg;
  typed_nodup : NoDup reg.*1;
}.

Lemma item_eq_text k rid : item_eq (JStr k) (JStr rid) = bool_decide (k = rid).
Proof. apply eq_true_iff_eq. rewrite item_eq_str, bool_decide_eq_true. naive_solver. Qed.

Lemma lookup_cons k v reg rid :
  lookup_route ((JStr k, v) :: reg) rid = if decide (k = rid) then Some v else lookup_route reg rid.
Proof.
  unfold lookup_route. cbn [List.find fst]. rewrite item_eq_text. case_bool_decide; by repeat case_decide.
Qed.

Lemma set_key_lookup reg k v rid :
  Forall (λ kv, ∃ k, kv.1 = JStr k ∧ stored_id kv.2 = JStr k) reg →
  lookup_route (set_key reg (JStr k) v) rid = if decide (k = rid) then Some v else lookup_route reg rid.
Proof.
  induction 1 as [|[k0 v0] reg (k' & Ek & _) _ IH]; cbn [fst] in *; cbn [set_key]; [by rewrite lookup_cons|].
  subst k0. rewrite item_eq_text. case_bool_decide as Hk.
  - subst k'. rewrite !lookup_cons. by case_decide.
  - rewrite !lookup_cons, IH. repeat case_decide; congruence.
Qed.

Lemma set_key_keys reg k v : ∀ x, x ∈ (set_key reg k v).*1 → x ∈ reg.*1 ∨ x = k.
Proof.
  induction reg as [|[k0 v0] reg IH]; intros x; cbn [set_key]; [set_solver|].
  destruct (item_eq k0 k); csimpl; [set_solver|]. rewrite !elem_of_cons. intros [->|Hx%IH]; tauto.
Qed.

Lemma set_key_typed reg k v :
  typed reg → stored_id v = JStr k → typed (set_key reg (JStr k) v).
Proof.
  intros [Hk Hn] Hv. split.
  - clear Hn. induction Hk as [|[k0 v0] reg (k' & Ek & Es) Hk IH]; cbn [fst snd] in *; cbn [set_key].
    { repeat constructor. by exists k. }
    subst k0. rewrite item_eq_text. case_bool_decide as Hkk; constructor; try done.
    + subst k'. by exists k.
    + by exists k'.
  - induction Hk as [|[k0 v0] reg (k' & Ek & _) Hk IH]; cbn [fst] in *; cbn [set_key].
    { repeat constructor. by intros ?%elem_of_nil. }
    subst k0. rewrite item_eq_text. csimpl in Hn. apply NoDup_cons in Hn as [Hnin Hn].
    case_bool_decide as Hkk; csimpl; [by constructor|]. constructor; [|by apply IH].
    intros [?|[= ->]]%set_key_keys; done.
Qed.

Lemma pop_typed reg rid :
  typed reg → typed (pop reg rid) ∧
  ∀ k, lookup_route (pop reg rid) k = if decide (k = rid) then None else lookup_route reg k.
Proof.
  intros [Hk Hn]. induction Hk as [|[k0 v0] reg (k' & Ek & Es) Hk IH]; cbn [fst snd] in *.
  { split; [by split|]. intros k. by case_decide. }
  subst k0. csimpl in Hn. apply NoDup_cons in Hn as [Hnin Hn]. destruct (IH Hn) as [[Hk' Hn'] Hl].
  unfold pop in *. cbn [List.filter fst]. rewrite item_eq_text. case_bool_decide as Hkk; cbn [negb].
  - subst k'. split; [by split|]. intros k. rewrite Hl, lookup_cons. repeat case_decide; congruence.
  - split.
    + split; [constructor; [by exists k'|done]|]. csimpl. constructor; [|done].
      intros (kv & Ekv & Hin)%list_elem_of_fmap. apply Hnin. apply list_elem_of_fmap. exists kv. split; [done|].
      apply list_elem_of_In, filter_In in Hin as [Hin _]. by apply list_elem_of_In.
    + intros k. rewrite !lookup_cons, Hl. repeat case_decide; congruence.
Qed.

(** A registry of routes is its own copy. *)
Lemma readd_typed reg : typed reg → readd reg = Ok reg.
Proof.
  intros Ht. unfold readd. change reg with ([] ++ reg) in Ht. change reg with ([] ++ reg) at 2.
  revert Ht. generalize (@nil (json * stored_route)). induction reg as [|[k v] reg IH]; intros acc Ht.
  { by rewrite app_nil_r. }
  csimpl. cbn [add_all]. destruct Ht as [Hk Hn].
  pose proof Hk as [_ [(k' & Ek & Es) _]%Forall_cons]%Forall_app. cbn [fst snd] in *. subst k.
  unfold add. rewrite Es. cbn [hashable negb]. rewrite raise_if_false, !bind_Ok.
  assert (set_key acc (JStr k') v = acc ++ [(JStr k', v)]) as ->.
  { rewrite fmap_app in Hn. apply NoDup_app in Hn as (_ & Hd & _). csimpl in Hd.
    assert (∀ x, x ∈ acc.*1 → x ≠ JStr k') as Hne by (intros x Hx ->; apply (Hd _ Hx); left).
    clear -Hne Hk. apply Forall_app in Hk as [Hk _]. induction Hk as [|[k0 v0] acc (k1 & E1 & _) Hk IH]; [done|].
    cbn [fst] in *. subst k0. cbn [set_key app]. rewrite item_eq_text, bool_decide_false.
    - f_equal. apply IH. intros x Hx. apply Hne. csimpl. by right.
    - intros ->. apply (Hne (JStr k')); [left|done]. }
  specialize (IH (acc ++ [(JStr k', v)])). rewrite <- !app_assoc in IH. apply IH. by split.
Qed.
End registries.

(** ** A consumer of the bucket *)

Section consumer.
Context `{LocalZone} {S : Type} `{KvLaws S} `{!KvKeys S} `{!KvKeysLaws S} `{!KvPuts S} `{!KvPutLaws S}.
Notation kv_msg := MarkerKv.MarkerKv.kv_update_msg.

(** Every entry is a route, stored under its own id. *)
Definition routes_in (s : S) : Prop :=
  ∀ k, is_Some (kv_get s k) → ∃ e, get s k = Ok (Some (stored e)) ∧ route_id e = k.

(** The updates that a watcher sees of a put and of a removal. *)
Definition put_update (e : RouteRegistryEntry) (blob : bytes) (rev : Z) : kv_msg :=
  MarkerKv.MarkerKv.MkUpdate (Some (u "PUT")) (Some (JStr (route_id e))) (Some rev)
    (KvObj (Some (VBytes blob)) (Some rev)).
Definition removal_update (o : WatchOp) (rid : str) (rev : Z) : kv_msg :=
  MarkerKv.MarkerKv.MkUpdate (Some (op_value o)) (Some (JStr rid)) (Some rev) (KvObj None (Some rev)).

(** What happens to a bucket, with the updates of it. *)
Inductive history (s : S) : list kv_msg → S → Prop :=
| no_change : history s [] s
| a_put us s1 e blob s2 rev :
    history s us s1 → route_wf e → _entry_to_envelope e = Ok blob → put s1 e = (s2, Ok rev) →
    history s (us ++ [put_update e blob rev]) s2
| a_removal us s1 o rid s2 rev :
    history s us s1 → o ≠ PUT → delete s1 rid = (s2, Ok ()) →
    history s (us ++ [removal_update o rid rev]) s2.

Definition consume (l : LiveSnapshot) (upd : kv_msg) : result route_kv_error LiveSnapshot :=
  e ← _decode_watch_update upd; apply l e.
Fixpoint consume_all (l : LiveSnapshot) (us : list kv_msg) : result route_kv_error LiveSnapshot :=
  match us with [] => Ok l | upd :: us => l ← consume l upd; consume_all l us end.

Lemma consume_all_app l us us' : consume_all l (us ++ us') = (l' ← consume_all l us; consume_all l' us').
Proof.
  revert l. induction us as [|x us IH]; intros l; [done|]. cbn [consume_all app].
  destruct (consume l x); [|done]. rewrite !bind_Ok. apply IH.
Qed.

Lemma routes_get s k : routes_in s → ∃ o, get s k = Ok o ∧ ∀ r, o = Some r → ∃ e, r = stored e ∧ route_id e = k.
Proof.
  intros Hs. destruct (kv_get s k) as [kve|] eqn:E.
  - destruct (Hs k) as (e & He & Hk); [by rewrite E|]. exists (Some (stored e)). split; [done|].
    intros r [= <-]. by exists e.
  - exists None. split; [|done]. unfold get. rewrite E. by destruct (str_empty k).
Qed.

Lemma get_kv s k r : get s k = Ok (Some r) → is_Some (kv_get s k).
Proof. unfold get. destruct (str_empty k); [done|]. by destruct (kv_get s k). Qed.

(** The bucket after a put and after a removal. *)
Lemma put_routes s e s' rev :
  route_wf e → put s e = (s', Ok rev) →
  (∀ k, get s' k = if decide (k = route_id e) then Ok (Some (stored e)) else get s k) ∧
  (routes_in s → routes_in s').
Proof.
  intros He Hp. destruct (route_roundtrip e He) as (b & Eb & Er). unfold put in Hp. rewrite Eb in Hp.
  destruct (kv_put s (route_id e) b) as [s1 n] eqn:Ek. injection Hp as -> ->.
  assert (∀ k, kv_get s' k = if decide (k = route_id e) then Some (KvObj (Some (VBytes b)) (Some rev)) else kv_get s k)
    as Hkv by (intros k; by eapply kv_put_get).
  assert (∀ k, get s' k = if decide (k = route_id e) then Ok (Some (stored e)) else get s k) as Hg.
  { intros k. unfold get. rewrite Hkv. case_decide as Hk; [|done]. subst k. rewrite (wf_id e He).
    cbn [_coerce_value_bytes]. by rewrite bind_Ok, Er. }
  split; [done|]. intros Hs k Hk. rewrite Hg. rewrite Hkv in Hk. case_decide as Hkk; [by exists e|by apply Hs].
Qed.

Lemma removal_routes s rid s' :
  delete s rid = (s', Ok ()) →
  str_empty rid = false ∧ (∀ k, get s' k = if decide (k = rid) then Ok None else get s k) ∧
  (routes_in s → routes_in s').
Proof.
  unfold delete. destruct (str_empty rid) eqn:Er; [done|].
  assert (∀ k, kv_get s' k = (if decide (k = rid) then None else kv_get s k) →
    get s' k = if decide (k = rid) then Ok None else get s k) as Hg.
  { intros k Hk. unfold get. rewrite Hk. case_decide as Hkk; [subst k; by rewrite Er|done]. }
  intros Hd. assert (∀ k, kv_get s' k = if decide (k = rid) then None else kv_get s k) as Hkv.
  { intros k. destruct (kv_get s rid) eqn:E; injection Hd as <-; [apply kv_delete_get|]. by case_decide; subst. }
  split_and!; [done|eauto|]. intros Hs k Hk. rewrite Hg by done. rewrite Hkv in Hk.
  case_decide; [by destruct Hk|by apply Hs].
Qed.

(** A registry with the routes of the bucket. *)
Definition mirrors_routes (reg : registry) (s : S) : Prop := typed reg ∧ ∀ k, get s k = Ok (lookup_route reg k).

Lemma snapshot_routes s keys : ∀ reg,
  routes_in s → typed reg → (∀ k, is_Some (lookup_route reg k) → get s k = Ok (lookup_route reg k)) →
  ∃ reg', snapshot_from reg keys (get s) = Ok reg' ∧ typed reg' ∧
    ∀ k, lookup_route reg' k = if decide (k ∈ keys) then match get s k with Ok o => o | Err _ => None end
                               else lookup_route reg k.
Proof.
  induction keys as [|key keys IH]; intros reg Hs Ht Hreg.
  { exists reg. split_and!; [done..|]. intros k. by rewrite decide_False by (by intros ?%elem_of_nil). }
  cbn [snapshot_from]. destruct (routes_get s key Hs) as (o & Eo & Ho). rewrite Eo, bind_Ok.
  assert (∃ reg1, match o with Some e => add reg e | None => Ok reg end = Ok reg1 ∧ typed reg1 ∧
    ∀ k, lookup_route reg1 k = if decide (k = key) then o else lookup_route reg k) as (reg1 & E1 & Ht1 & H1').
  { destruct o as [r|].
    - destruct (Ho r eq_refl) as (e & -> & <-). exists (set_key reg (JStr (route_id e)) (stored e)).
      split_and!; [done|by apply set_key_typed|]. intros k. rewrite set_key_lookup by apply Ht.
      repeat case_decide; congruence.
    - exists reg. split_and!; [done..|]. intros k. case_decide as Hk; [|done]. subst k.
      destruct (lookup_route reg key) as [r|] eqn:Er; [|done].
      specialize (Hreg key). rewrite Er in Hreg. rewrite Eo in Hreg. by specialize (Hreg (ex_intro _ r eq_refl)). }
  rewrite E1, bind_Ok. destruct (IH reg1 Hs Ht1) as (reg' & E' & Ht' & H').
  { intros k. rewrite H1'. case_decide as Hk; [by subst k|apply Hreg]. }
  exists reg'. split_and!; [done..|]. intros k. rewrite H', H1'.
  destruct (decide (k ∈ keys)); [by rewrite decide_True by (by right)|].
  destruct (decide (k = key)) as [->|Hne]; [by rewrite decide_True, Eo by left|].
  rewrite decide_False; [done|]. by intros [?|?]%elem_of_cons.
Qed.

Lemma snapshot_mirrors s ks :
  routes_in s → kv_keys s = Some ks → ∃ reg, snapshot (Some ks) (get s) = Ok reg ∧ mirrors_routes reg s.
Proof.
  intros Hs Hks. destruct (snapshot_routes s ks [] Hs) as (reg & E & Ht & Hreg).
  { split; [constructor|by apply NoDup_nil]. }
  { by intros k [r Hr]. }
  exists reg. split; [done|]. split; [done|]. intros k. rewrite Hreg.
  destruct (routes_get s k Hs) as (o & Eo & _). rewrite Eo. case_decide as Hk; [done|].
  destruct o as [r|]; [|done]. exfalso. apply Hk, (kv_keys_in s ks k Hks). by eapply get_kv.
Qed.

(** The consumer takes one update. *)
Lemma consume_put l s e blob s' rev :
  mirrors_routes (_live l) s → route_wf e → _entry_to_envelope e = Ok blob → put s e = (s', Ok rev) →
  ∃ l', consume l (put_update e blob rev) = Ok l' ∧ mirrors_routes (_live l') s'.
Proof.
  intros [Ht Hl] He Eb Hp. destruct (put_routes s e s' rev He Hp) as [Hg _].
  destruct (route_roundtrip e He) as (b & Eb' & Er). rewrite Eb in Eb'. apply Ok_inj in Eb' as <-.
  assert (consume l (put_update e blob rev) = Ok (MkLive (if last_revision l <? rev then rev else last_revision l)
    (set_key (_live l) (JStr (route_id e)) (stored e)))) as ->.
  { unfold consume. assert (_decode_watch_update (put_update e blob rev) = Ok (MkWatch PUT (route_id e) (Some (stored e)) rev)) as ->; [|done].
    unfold _decode_watch_update, put_update. cbn [MarkerKv.MarkerKv.upd_operation MarkerKv.MarkerKv.upd_key
      MarkerKv.MarkerKv.upd_revision MarkerKv.MarkerKv.upd_entry].
    change (Some (JStr (route_id e)) ≫= PolicyKv.PolicyKv.text_of) with (Some (route_id e)).
    cbn [bad of_option]. rewrite bind_Ok. assert (op_of_name (u "PUT") = Some PUT) as -> by (by vm_compute).
    cbn [bad of_option]. rewrite !bind_Ok, (wf_id e He), raise_if_false, bind_Ok.
    cbn [_coerce_value_bytes]. by rewrite bind_Ok, Er. }
  eexists. split; [done|]. cbn [_live]. split; [by apply set_key_typed|]. intros k.
  rewrite Hg, set_key_lookup by apply Ht. rewrite Hl. repeat case_decide; congruence.
Qed.

Lemma consume_removal l s o rid s' rev :
  mirrors_routes (_live l) s → o ≠ PUT → delete s rid = (s', Ok ()) →
  ∃ l', consume l (removal_update o rid rev) = Ok l' ∧ mirrors_routes (_live l') s'.
Proof.
  intros [Ht Hl] Ho Hd. destruct (removal_routes s rid s' Hd) as (Hr & Hg & _).
  destruct (pop_typed (_live l) rid Ht) as [Ht' Hp].
  exists (MkLive (if last_revision l <? rev then rev else last_revision l) (pop (_live l) rid)). split.
  - unfold consume. assert (_decode_watch_update (removal_update o rid rev) = Ok (MkWatch o rid None rev)) as ->;
      [|by destruct o].
    unfold _decode_watch_update, removal_update. cbn [MarkerKv.MarkerKv.upd_operation MarkerKv.MarkerKv.upd_key
      MarkerKv.MarkerKv.upd_revision MarkerKv.MarkerKv.upd_entry].
    change (Some (JStr rid) ≫= PolicyKv.PolicyKv.text_of) with (Some rid).
    cbn [bad of_option]. rewrite bind_Ok. assert (op_of_name (op_value o) = Some o) as -> by (by destruct o; vm_compute).
    cbn [bad of_option]. rewrite !bind_Ok, Hr, raise_if_false, bind_Ok. by destruct o.
  - split; [done|]. intros k. cbn [_live]. rewrite Hg, Hp, Hl. by case_decide.
Qed.

(** A consumer that starts from a snapshot of the bucket and decodes and applies
    the updates of whatever happens to it has its routes. *)
Lemma consumer_mirrors s us s' ks :
  routes_in s → kv_keys s = Some ks → history s us s' →
  ∃ l l' reg, from_backend (Some ks) (get s) = Ok l ∧ consume_all l us = Ok l' ∧
    as_registry l' = Ok reg ∧ mirrors_routes reg s'.
Proof.
  intros Hs Hks Hh. destruct (snapshot_mirrors s ks Hs Hks) as (reg0 & E0 & Hm0).
  exists (MkLive 0 reg0).
  enough (∃ l', consume_all (MkLive 0 reg0) us = Ok l' ∧ mirrors_routes (_live l') s') as (l' & E' & Hm').
  { exists l', (_live l'). split_and!; [|done| |done].
    - unfold from_backend. rewrite E0, bind_Ok. unfold new_live. by rewrite (readd_typed reg0 (proj1 Hm0)).
    - apply readd_typed, Hm'. }
  induction Hh as [|us s1 e blob s2 rev Hh (l1 & E1 & Hm1) He Eb Hp|us s1 o rid s2 rev Hh (l1 & E1 & Hm1) Ho Hd].
  - by exists (MkLive 0 reg0).
  - destruct (consume_put l1 s1 e blob s2 rev Hm1 He Eb Hp) as (l2 & E2 & Hm2). exists l2.
    rewrite consume_all_app, E1, bind_Ok. cbn [consume_all]. by rewrite E2.
  - destruct (consume_removal l1 s1 o rid s2 rev Hm1 Ho Hd) as (l2 & E2 & Hm2). exists l2.
    rewrite consume_all_app, E1, bind_Ok. cbn [consume_all]. by rewrite E2.
Qed.
End consumer.

(** ** The evaluator on a registry of the bucket *)

Section evaluation.

(** The entry, if its identifiers are texts. *)
Definition to_entry (r : stored_route) : option RouteRegistryEntry :=
  match stored_id r, stored_source r, PolicyKv.PolicyKv.opt_text_of (stored_anchor r) with
  | JStr rid, JStr source, Some anchor => Some (MkEntry rid source (stored_from r) (stored_until r) anchor)
  | _, _, _ => None
  end.

(** The registry as [FederationEval] takes it. *)
Fixpoint as_routes (reg : registry) : option InMemoryRouteRegistry :=
  match reg with
  | [] => Some ∅
  | (JStr k, r) :: reg => e ← to_entry r; m ← as_routes reg; Some (<[k := e]> m)
  | _ :: _ => None
  end.

Lemma to_entry_stored e : to_entry (stored e) = Some e.
Proof. by destruct e as [rid src f un [w|]]. Qed.

Lemma as_routes_lookup reg :
  typed reg → (∀ k r, lookup_route reg k = Some r → ∃ e, r = stored e) →
  ∃ m : InMemoryRouteRegistry, as_routes reg = Some m ∧ ∀ k : str, stored <$> m !! k = lookup_route reg k.
Proof.
  intros [Hk Hn]. induction Hk as [|[k0 r] reg (k' & Ek & _) Hk IH]; intros Hr; cbn [fst] in *.
  { exists ∅. split; [done|]. intros k. unfold InMemoryRouteRegistry. by rewrite lookup_empty. }
  subst k0. csimpl in Hn. apply NoDup_cons in Hn as [Hnin Hn].
  assert (lookup_route reg k' = None) as Hk'.
  { unfold lookup_route. destruct (List.find _ reg) as [[k0 r0]|] eqn:Ef; [|done]. exfalso. apply Hnin.
    apply find_some in Ef as [Hin He]. cbn [fst] in He. apply list_elem_of_fmap. exists (k0, r0).
    rewrite list_elem_of_In. split; [|done]. rewrite Forall_forall in Hk.
    destruct (Hk (k0, r0) (proj2 (list_elem_of_In _ _) Hin)) as (k1 & E1 & _). cbn in E1. subst k0.
    rewrite item_eq_text in He. apply bool_decide_eq_true in He as ->. done. }
  destruct (IH Hn) as (m & Em & Hm).
  { intros k r0 Hl. apply (Hr k r0). rewrite lookup_cons. case_decide; [congruence|done]. }
  destruct (Hr k' r) as [e ->]; [by rewrite lookup_cons, decide_True|].
  exists (<[k' := e]> m). split; [cbn [as_routes]; by rewrite to_entry_stored; cbn; rewrite Em|].
  intros k. rewrite lookup_cons. unfold InMemoryRouteRegistry in *. rewrite lookup_insert. by case_decide.
Qed.

Context `{LocalZone} {S : Type} `{KvLaws S} `{!KvKeys S} `{!KvKeysLaws S} `{!KvPuts S} `{!KvPutLaws S}.

(** C27: A consumer that starts from a snapshot of the bucket and decodes and applies
    the updates of any puts and removals ends with a registry on which the
    evaluator accepts exactly the routes that the bucket then has, bound to the
    trust document of the token and open at the instant of the evaluation. *)
Theorem routes_decide s us s' ks res now :
  routes_in s → kv_keys s = Some ks → history s us s' →
  ∃ l l' reg m, from_backend (Some ks) (get s) = Ok l ∧ consume_all l us = Ok l' ∧
    as_registry l' = Ok reg ∧ as_routes reg = Some m ∧
    ∀ rid v, N2.evaluate_federation_route (MkContext res m now) rid = Ok v ↔
      v = true ∧ ∃ e, get s' rid = Ok (Some (stored e)) ∧ source_ftd_id e = ftd_id res ∧ N2.in_window e now.
Proof.
  intros Hs Hks Hh. destruct (consumer_mirrors s us s' ks Hs Hks Hh) as (l & l' & reg & El & El' & Er & Ht & Hl).
  assert (routes_in s') as Hs'.
  { clear -Hs Hh H1 KvPutLaws0. induction Hh as [|us s1 e blob s2 rev Hh IH He Eb Hp|us s1 o rid s2 rev Hh IH Ho Hd]; [done|..].
    - by eapply put_routes; eauto.
    - by apply (removal_routes s1 rid s2 Hd). }
  destruct (as_routes_lookup reg Ht) as (m & Em & Hm).
  { intros k r Hr. destruct (routes_get s' k Hs') as (o & Eo & Ho). rewrite Hl in Eo. apply Ok_inj in Eo as <-.
    destruct (Ho r Hr) as (e & -> & _). by exists e. }
  exists l, l', reg, m. split_and!; [done..|]. intros rid v. rewrite N2.evaluate_route_ok. unfold N2.route_ok. cbn.
  split.
  - intros (-> & _ & e & He & Hsrc & Hw). split; [done|]. exists e. split_and!; [|done..].
    rewrite Hl, <- Hm. unfold FederationEval.lookup, in_memory_lookup in He. apply fmap_Some in He as (e' & -> & [= ->]).
    done.
  - intros (-> & e & He & Hsrc & Hw). rewrite Hl in He. apply Ok_inj in He. split; [done|]. split.
    { intros ->. specialize (Hl []). rewrite He in Hl. by unfold get in Hl. }
    exists e. split_and!; [|done..]. rewrite <- Hm in He. apply fmap_Some in He as (e' & Em' & Es).
    unfold FederationEval.lookup, in_memory_lookup. rewrite Em'. cbn. do 2 f_equal.
    apply (f_equal to_entry) in Es. rewrite !to_entry_stored in Es. by injection Es.
Qed.
End evaluation.

Module RouteKvExample.
#[local] Existing Instance PolicyKvExample.utc_host.

Definition route (until : option datetime) : RouteRegistryEntry :=
  FederationEval.MkEntry (u "route-1") (u "did:web:peer.example") (Aware 0) until None.
Definition rid : str := u "route-1".
Definition no_routes : seq_kv := SeqKv ∅.
Definition opened : RouteRegistryEntry := route None.
Definition closed : RouteRegistryEntry := route (Some (Aware 1000000)).
Definition blob_of (e : RouteRegistryEntry) : bytes := ok_or [] (_entry_to_envelope e).
Definition with_opened : seq_kv := (put no_routes opened).1.

Lemma lit_okstr s : forallb (in_range 0 127) s = true → okstr s.
Proof.
  intros Hs. apply okstr_Forall, Forall_forall. intros c Hc. rewrite forallb_forall in Hs.
  specialize (Hs c (proj1 (list_elem_of_In _ _) Hc)). unfold in_range in Hs. propify. apply okchar_range. lia.
Qed.

Lemma route_wf_of until :
  PolicyKv.PolicyKv.opt_ok PolicyKv.PolicyKv.stamp_ok until → route_wf (route until).
Proof.
  intros Hu. split; [done|split_and!; [by apply lit_okstr|by apply lit_okstr|done]| |done].
  by apply PolicyKvExample.stamp_small.
Qed.
Lemma opened_wf : route_wf opened.
Proof. by apply route_wf_of. Qed.
Lemma closed_wf : route_wf closed.
Proof. apply route_wf_of. by apply PolicyKvExample.stamp_small. Qed.

Lemma route_roundtrip_witness :
  ∃ b, _entry_to_envelope closed = Ok b ∧ _envelope_to_entry b = Ok (stored closed).
Proof. apply (route_roundtrip closed). exact closed_wf. Defined.

Definition res : resolve_result := MkResolve (u "did:web:peer.example") (Aware 0).
Definition two_puts : list MarkerKv.MarkerKv.kv_update_msg :=
  [put_update opened (blob_of opened) 1; put_update closed (blob_of closed) 2].
Definition with_closed : seq_kv := (put with_opened closed).1.

Lemma put_steps : history no_routes two_puts with_closed.
Proof.
  apply (a_put _ [put_update opened (blob_of opened) 1] with_opened closed).
  - apply (a_put _ [] no_routes opened).
    + apply no_change.
    + exact opened_wf.
    + by vm_compute.
    + apply injective_projections; [reflexivity|by vm_compute].
  - exact closed_wf.
  - by vm_compute.
  - apply injective_projections; [reflexivity|by vm_compute].
Qed.

(** A route is put and put again with an end; a token is evaluated before it. *)
Lemma routes_decide_witness :
  ∃ l l' reg m, from_backend (Some []) (get no_routes) = Ok l ∧ consume_all l two_puts = Ok l' ∧
    as_registry l' = Ok reg ∧ as_routes reg = Some m ∧
    ∀ k v, N2.evaluate_federation_route (MkContext res m (Aware 999999)) k = Ok v ↔
      v = true ∧ ∃ e, get with_closed k = Ok (Some (stored e)) ∧ source_ftd_id e = ftd_id res ∧
        N2.in_window e (Aware 999999).
Proof.
  apply (routes_decide no_routes two_puts with_closed []).
  - by intros k [e He].
  - by vm_compute.
  - exact put_steps.
Defined.

(** An update whose key is not the route id in it: the route goes under its own
    id, and the removal of the key leaves it there.  A fresh snapshot has nothing. *)
Example removed_route_stays :
  let upd := MarkerKv.MarkerKv.MkUpdate (Some (u "PUT")) (Some (JStr (u "other-key"))) (Some 1)
               (KvObj (Some (VBytes (blob_of opened))) (Some 1)) in
  match consume_all (MkLive 0 []) [upd; removal_update DELETE (u "other-key") 2] with
  | Ok l => lookup_route (_live l) rid = Some (stored opened)
  | Err _ => False
  end.
Proof. vm_compute. reflexivity. Qed.

(** Identifiers are not checked: an envelope whose route id is a list is read, and
    the snapshot of the bucket raises TypeError. *)
Definition odd_blob : bytes := default [] (utf8_encode (json_dumps true true (JObj
  [(u "schema", JStr VALUE_SCHEMA); (u "route_id", JList []); (u "source_ftd_id", JInt 7);
   (u "active_from", JStr (u "1970-01-01T00:00:00Z"))]))).
Definition odd_bucket : seq_kv := (seq_write no_routes rid odd_blob).1.
Example unchecked_identifiers :
  get odd_bucket rid = Ok (Some (MkStored (JList []) (JInt 7) (Aware 0) None JNull)) ∧
  snapshot (Some [rid]) (get odd_bucket) = Err RouteTypeError.
Proof. split; by vm_compute. Qed.

(** A naive start is a bare ValueError of the write. *)
Example naive_route :
  _entry_to_envelope (FederationEval.MkEntry rid (u "did:web:peer.example") (Naive 0) None None) = Err RouteValueError.
Proof. by vm_compute. Qed.
End RouteKvExample.
