(* ===== verification/UnrevokeExport.v ===== *)
(** * Export of unrevoke markers
      ([wirelang/federation/unrevoke_audit_marker_cross_org_export.py])

    The marker of a deliberate unrevocation ([PolicyKv]) leaves its organisation
    without its texts: the frame carries a class, the instant of the revocation
    that was withdrawn, a hash of its reason under a key made of the route, and
    an identifier.

    The theorems: the operator's text enters the frame through its class alone;
    two frames have the same identifier exactly when they agree in everything but
    the time of their export; the hashes of two reasons under one route are equal
    exactly when the reasons are; an unrevocation that a consumer of the bucket
    takes for deliberate is exported with the instant that the consumer knew. *)

From S2P Require Import Prelude PyStr PyFloat PyJson PyDyn PyEqual PyTime Blake2b Ledger MarkerKv PolicyKv PolicyWatch SequenceLedger CaveatExport.
From S2P Require Policy.
From Stdlib Require Import ZArith Lia.

Open Scope Z_scope.

Inductive UnrevokeReasonClass : Type :=
| Unspecified | OperatorRecovery | PolicyAmendment | InvestigationCleared | OtherReason.

#[export] Instance unrevoke_class_eq_dec : EqDecision UnrevokeReasonClass.
Proof. solve_decision. Defined.

Inductive unrevoke_error : Type :=
| UnrevokeAuditMarkerShapeError
| UnrevokeClockValueError          (* ValueError: the clock's time is naive *)
| UnrevokeUnicodeError             (* UnicodeEncodeError *)
| UnrevokeOverflowError.           (* OverflowError of astimezone() *)

#[export] Instance unrevoke_error_eq_dec : EqDecision unrevoke_error.
Proof. solve_decision. Defined.

Module UnrevokeExport.

Definition EXPORT_SCHEMA : str := u "wakir.federation.unrevoke-audit-marker-export/1".
Definition _REASON_HASH_PERSONALISATION : bytes := byte_of_Z <$> u "wakir-ump-1" ++ replicate 5 0.

Definition class_value (c : UnrevokeReasonClass) : str :=
  match c with
  | Unspecified => u "UNSPECIFIED" | OperatorRecovery => u "OPERATOR_RECOVERY"
  | PolicyAmendment => u "POLICY_AMENDMENT" | InvestigationCleared => u "INVESTIGATION_CLEARED"
  | OtherReason => u "OTHER"
  end.

(** The answer of a classifier; [None] when it raises or answers something else. *)
Definition _default_classifier_classify (raw : option str) : option UnrevokeReasonClass :=
  Some (match raw with None => Unspecified | Some _ => OtherReason end).

Record ExportedUnrevokeAuditMarker := MkExportedMarker {
  export_schema : str;
  route_id : str;
  marker_id : bytes;
  exported_previous_revoked_at : datetime;
  unrevoke_reason_class : UnrevokeReasonClass;
  previous_revocation_reason_hash : option str;
  exported_at : datetime;
}.

(** The checks of [__post_init__] that the types leave open. *)
Definition new_exported (x : ExportedUnrevokeAuditMarker)
    : result unrevoke_error ExportedUnrevokeAuditMarker :=
  raise_if (negb (str_eqb (export_schema x) EXPORT_SCHEMA)) UnrevokeAuditMarkerShapeError;;
  raise_if (str_empty (route_id x)) UnrevokeAuditMarkerShapeError;;
  raise_if (negb (length (marker_id x) =? 32)%nat) UnrevokeAuditMarkerShapeError;;
  raise_if (is_naive (exported_previous_revoked_at x)) UnrevokeAuditMarkerShapeError;;
  match previous_revocation_reason_hash x with
  | Some h =>
      raise_if (negb (length h =? 64)%nat) UnrevokeAuditMarkerShapeError;;
      raise_if (negb (CaveatExport.int16_ok h)) UnrevokeAuditMarkerShapeError
  | None => Ok ()
  end;;
  raise_if (is_naive (exported_at x)) UnrevokeAuditMarkerShapeError;;
  Ok x.

Section exporter.
Context `{Blake2b} `{KeyedBlake2b}.

Definition encode (s : str) : result unrevoke_error bytes :=
  of_option UnrevokeUnicodeError (utf8_encode s).

Definition _route_scoped_reason_hash (route_id raw : str) : result unrevoke_error str :=
  key ← encode route_id;
  let key := take 64 key in
  m ← encode raw;
  Ok (hex (keyed_blake2b key _REASON_HASH_PERSONALISATION m)).

Definition marker_payload (route_id : str) (previous : datetime) (c : UnrevokeReasonClass)
    (reason_hash : option str) : json :=
  JObj [(u "schema", JStr EXPORT_SCHEMA); (u "route_id", JStr route_id);
        (u "previous_revoked_at", JStr (CaveatExport.utc_text previous));
        (u "unrevoke_reason_class", JStr (class_value c));
        (u "previous_revocation_reason_hash", CaveatExport.option_json reason_hash)].

Definition in_years (d : datetime) : bool := match d with Aware us | Naive us => in_calendar us end.

Definition _compute_marker_id (route_id : str) (previous : datetime) (c : UnrevokeReasonClass)
    (reason_hash : option str) : result unrevoke_error bytes :=
  raise_if (negb (in_years previous)) UnrevokeOverflowError;;
  m ← encode (json_dumps true true (marker_payload route_id previous c reason_hash));
  Ok (blake2b m).

Variable classify : option str → option UnrevokeReasonClass.

(** [now] is the answer of the clock. *)
Definition export (marker : UnrevokeAuditMarker) (route : str) (now : datetime)
    : result unrevoke_error ExportedUnrevokeAuditMarker :=
  reason_class ← of_option UnrevokeAuditMarkerShapeError (classify (unrevoke_reason marker));
  raise_if (match unrevoke_reason marker with
            | None => negb (bool_decide (reason_class = Unspecified))
            | Some _ => false
            end) UnrevokeAuditMarkerShapeError;;
  reason_hash ← match previous_revocation_reason marker with
                | None => Ok None
                | Some raw => h ← _route_scoped_reason_hash route raw; Ok (Some h)
                end;
  raise_if (is_naive now) UnrevokeClockValueError;;
  id ← _compute_marker_id route (previous_revoked_at marker) reason_class reason_hash;
  new_exported (MkExportedMarker EXPORT_SCHEMA route id (previous_revoked_at marker) reason_class
    reason_hash now).
End exporter.
End UnrevokeExport.

Import UnrevokeExport.

(** ** Frames *)

Section frames.
Context `{Blake2b} `{KeyedBlake2b}.
Variable classify : option str → option UnrevokeReasonClass.

(** What the identifier of a frame is made of. *)
Definition payload_of (x : ExportedUnrevokeAuditMarker) : json :=
  marker_payload (route_id x) (exported_previous_revoked_at x) (unrevoke_reason_class x)
    (previous_revocation_reason_hash x).

Lemma exported_fields marker route now x :
  export classify marker route now = Ok x →
  route_id x = route ∧ exported_previous_revoked_at x = previous_revoked_at marker ∧
  classify (unrevoke_reason marker) = Some (unrevoke_reason_class x) ∧ exported_at x = now ∧
  match previous_revocation_reason marker with
  | None => previous_revocation_reason_hash x = None
  | Some raw => ∃ h, _route_scoped_reason_hash route raw = Ok h ∧ previous_revocation_reason_hash x = Some h
  end ∧ is_naive (exported_previous_revoked_at x) = false ∧
  in_years (exported_previous_revoked_at x) = true ∧
  ∃ m, utf8_encode (json_dumps true true (payload_of x)) = Some m ∧ marker_id x = blake2b m.
Proof.
  unfold export. intros Hx. apply bind_ok_iff in Hx as (c & Hc%of_option_ok & Hx).
  apply bind_ok_iff in Hx as ([] & _ & Hx). apply bind_ok_iff in Hx as (rh & Hrh & Hx).
  apply bind_ok_iff in Hx as ([] & _ & Hx). apply bind_ok_iff in Hx as (id & Hid & Hx).
  unfold new_exported in Hx. do 3 apply bind_ok_iff in Hx as ([] & _ & Hx).
  apply bind_ok_iff in Hx as ([] & Hnaive%raise_if_ok & Hx). do 2 apply bind_ok_iff in Hx as ([] & _ & Hx).
  apply Ok_inj in Hx as <-. cbn in *. unfold _compute_marker_id in Hid.
  apply bind_ok_iff in Hid as ([] & Hy%raise_if_ok%negb_false_iff & Hid).
  apply bind_ok_iff in Hid as (m & Hm%of_option_ok & <-%Ok_inj).
  split_and!; try done; [|by exists m]. destruct (previous_revocation_reason marker) as [raw|].
  - apply bind_ok_iff in Hrh as (h & Hh & [= <-]). by exists h.
  - by injection Hrh.
Qed.

(** The text of the operator enters a frame through its class alone: markers
    that differ in that text only, in one class, are exported as one frame, or
    fail alike. *)
Theorem narrative_not_exported m1 m2 route now :
  classify (unrevoke_reason m1) = classify (unrevoke_reason m2) →
  classify None = Some Unspecified →
  previous_revoked_at m1 = previous_revoked_at m2 →
  previous_revocation_reason m1 = previous_revocation_reason m2 →
  export classify m1 route now = export classify m2 route now.
Proof.
  intros Hc Hnone Ht Hr. unfold export. rewrite <- Hc, <- Ht, <- Hr.
  destruct (classify (unrevoke_reason m1)) as [c|] eqn:E1; [|done]. cbn [of_option]. rewrite !bind_Ok.
  assert (∀ m, classify (unrevoke_reason m) = Some c →
    (match unrevoke_reason m with None => negb (bool_decide (c = Unspecified)) | Some _ => false end) = false)
    as Hcheck.
  { intros m Em. destruct (unrevoke_reason m); [done|]. rewrite Hnone in Em. by injection Em as <-. }
  by rewrite !Hcheck.
Qed.

Lemma class_value_inj c d : class_value c = class_value d → c = d.
Proof.
  destruct c, d; intros E1; try done;
    apply (bool_decide_eq_true_2 _) in E1; by vm_compute in E1.
Qed.

Lemma payload_inj x y :
  json_ok (payload_of x) → json_ok (payload_of y) →
  time_ok (exported_previous_revoked_at x) → time_ok (exported_previous_revoked_at y) →
  json_dumps true true (payload_of x) = json_dumps true true (payload_of y) →
  route_id x = route_id y ∧ exported_previous_revoked_at x = exported_previous_revoked_at y ∧
  unrevoke_reason_class x = unrevoke_reason_class y ∧
  previous_revocation_reason_hash x = previous_revocation_reason_hash y.
Proof.
  intros J1 J2 T1 T2 Ed. apply json_dumps_sorted_inj in Ed; [|done..].
  unfold payload_of, marker_payload in Ed.
  member "route_id"%string Ed F1. member "previous_revoked_at"%string Ed F2.
  member "unrevoke_reason_class"%string Ed F3. member "previous_revocation_reason_hash"%string Ed F4.
  apply JStr_inj in F1, F3. apply JStr_inj, utc_text_of_inj in F2; [|done..].
  apply class_value_inj in F3. by apply option_json_inj in F4.
Qed.

Lemma exported_time marker route now x :
  export classify marker route now = Ok x → time_ok (exported_previous_revoked_at x).
Proof.
  intros (_ & _ & _ & _ & _ & Hn & Hy & _)%exported_fields.
  destruct (exported_previous_revoked_at x) as [us|us]; try done. exists us. split; [done|].
  by apply in_calendar_iff.
Qed.

(** The text that is hashed for a frame. *)
Definition marker_messages (x : ExportedUnrevokeAuditMarker) : list bytes :=
  option_list (utf8_encode (json_dumps true true (payload_of x))).

(** Two frames have the same identifier exactly when they agree in the route, the
    instant, the class and the hash; anything else is a collision of their texts.
    The time of the export does not matter. *)
Theorem marker_id_binds m1 m2 route1 route2 now1 now2 x y :
  export classify m1 route1 now1 = Ok x → export classify m2 route2 now2 = Ok y →
  json_ok (payload_of x) → json_ok (payload_of y) →
  (payload_of x = payload_of y → marker_id x = marker_id y) ∧
  (marker_id x = marker_id y →
   route1 = route2 ∧ previous_revoked_at m1 = previous_revoked_at m2 ∧
   unrevoke_reason_class x = unrevoke_reason_class y ∧
   previous_revocation_reason_hash x = previous_revocation_reason_hash y ∨
   collision_in blake2b (marker_messages x ++ marker_messages y)).
Proof.
  intros Hx Hy J1 J2. pose proof (exported_time _ _ _ _ Hx) as T1. pose proof (exported_time _ _ _ _ Hy) as T2.
  apply exported_fields in Hx as (R1 & P1 & _ & _ & _ & _ & _ & a & Ea & ->).
  apply exported_fields in Hy as (R2 & P2 & _ & _ & _ & _ & _ & b & Eb & ->). split.
  - intros Hp. rewrite Hp in Ea. congruence.
  - unfold marker_messages. rewrite Ea, Eb. intros [->|Hcol]%(eq_or_pair_collision blake2b); [left|by right].
    apply utf8_decode_encode in Ea, Eb. rewrite Ea in Eb. apply (inj Some) in Eb as Ed.
    apply payload_inj in Ed as (H1 & H2 & H3 & H4); [|done..]. subst. by rewrite <- P1, <- P2.
Qed.

(** Under one route the hashes of two revocation reasons are equal exactly when
    the reasons are, or their two texts collide under the key of the route. *)
Theorem reason_hash_compares route r1 r2 h1 h2 :
  _route_scoped_reason_hash route r1 = Ok h1 → _route_scoped_reason_hash route r2 = Ok h2 →
  (r1 = r2 → h1 = h2) ∧
  (h1 = h2 → r1 = r2 ∨ ∃ key, encode route = Ok key ∧
     collision_in (keyed_blake2b (take 64 key) _REASON_HASH_PERSONALISATION)
       (ok_list (encode r1) ++ ok_list (encode r2))).
Proof.
  unfold _route_scoped_reason_hash. intros E1 E2.
  apply bind_ok_iff in E1 as (k & Hk & E1). apply bind_ok_iff in E1 as (a & Ha & <-%Ok_inj).
  rewrite Hk, bind_Ok in E2. apply bind_ok_iff in E2 as (b & Hb & <-%Ok_inj). split.
  - intros ->. congruence.
  - intros Eh%hex_inj.
    apply (eq_or_pair_collision (keyed_blake2b (take 64 k) _REASON_HASH_PERSONALISATION)) in Eh as [->|Hcol].
    + left. apply of_option_ok, utf8_decode_encode in Ha, Hb. congruence.
    + right. exists k. by rewrite Ha, Hb.
Qed.

(** An unrevocation that the classifier of a consumer calls deliberate is
    exported with the instant at which that consumer knew the policy to be
    revoked. *)
Theorem deliberate_exported_instant c e c' ev r m route now x :
  PolicyWatch.classify c e = (c', Ok ev) → PolicyWatch.kind ev = EXPLICIT_UNREVOKE →
  PolicyWatch.record e = Some r → unrevoke_audit_marker r = Some m →
  export classify m route now = Ok x →
  PolicyWatch.last_revoked_at c (PolicyWatch.key e) = Some (exported_previous_revoked_at x).
Proof.
  intros Hc Hk Hr Hm Hx.
  destruct (deliberate_names_instant c e c' ev Hc Hk) as (r' & m' & t & _ & Hr' & Hm' & _ & Ht & Hp).
  apply exported_fields in Hx as (_ & -> & _). congruence.
Qed.
End frames.

Module UnrevokeExportExample.

(** A short hash that keeps the examples small. *)
#[local] Existing Instance checksum_blake2b.
#[local] Instance checksum_keyed : KeyedBlake2b :=
  {| keyed_blake2b key person m := checksum (key ++ person ++ m); keyed_blake2b_length _ _ _ := eq_refl |}.

Definition marker (reason : option str) (previous : option str) : UnrevokeAuditMarker :=
  MkUnrevokeMarker reason (Aware 5000000) previous.
Definition m1 : UnrevokeAuditMarker := marker (Some (u "key found")) (Some (u "key lost")).
Definition m2 : UnrevokeAuditMarker := marker (Some (u "typo")) (Some (u "key lost")).

Definition run (m : UnrevokeAuditMarker) (route : str) (now : Z) :=
  export _default_classifier_classify m route (Aware now).

Definition no_frame : ExportedUnrevokeAuditMarker := MkExportedMarker [] [] [] (Aware 0) OtherReason None (Aware 0).
Definition frame1 : ExportedUnrevokeAuditMarker := Eval vm_compute in ok_or no_frame (run m1 (u "route-1") 6000000).
Definition frame2 : ExportedUnrevokeAuditMarker := Eval vm_compute in ok_or no_frame (run m2 (u "route-1") 7000000).

Lemma narrative_not_exported_witness :
  export _default_classifier_classify m1 (u "route-1") (Aware 0) =
  export _default_classifier_classify m2 (u "route-1") (Aware 0).
Proof. by apply narrative_not_exported. Defined.

Lemma marker_id_binds_witness :
  (payload_of frame1 = payload_of frame2 → marker_id frame1 = marker_id frame2) ∧
  (marker_id frame1 = marker_id frame2 →
   u "route-1" = u "route-1" ∧ previous_revoked_at m1 = previous_revoked_at m2 ∧
   unrevoke_reason_class frame1 = unrevoke_reason_class frame2 ∧
   previous_revocation_reason_hash frame1 = previous_revocation_reason_hash frame2 ∨
   collision_in blake2b (marker_messages frame1 ++ marker_messages frame2)).
Proof.
  apply (marker_id_binds _default_classifier_classify m1 m2 (u "route-1") (u "route-1")
           (Aware 6000000) (Aware 7000000) frame1 frame2).
  - by vm_compute.
  - by vm_compute.
  - vm_compute. tauto.
  - vm_compute. tauto.
Defined.

Lemma reason_hash_compares_witness :
  let h := ok_or [] (_route_scoped_reason_hash (u "r") (u "key lost")) in
  (u "key lost" = u "key lost" → h = h) ∧
  (h = h → u "key lost" = u "key lost" ∨ ∃ key, encode (u "r") = Ok key ∧
     collision_in (keyed_blake2b (take 64 key) _REASON_HASH_PERSONALISATION)
       (ok_list (encode (u "key lost")) ++ ok_list (encode (u "key lost")))).
Proof. apply (reason_hash_compares (u "r")); by vm_compute. Defined.

Lemma deliberate_exported_instant_witness :
  PolicyWatch.last_revoked_at PolicyWatchExample.knows_revoked PolicyKvExample.key1 =
    Some (exported_previous_revoked_at (ok_or no_frame (run (marker None None) (u "route-1") 6000000))).
Proof.
  eapply (deliberate_exported_instant _default_classifier_classify PolicyWatchExample.knows_revoked
    (PolicyWatchExample.put_event (PolicyWatchExample.unrevoked 5000000) 3) _ _
    (PolicyWatchExample.unrevoked 5000000) (marker None None) (u "route-1") (Aware 6000000)).
  - reflexivity.
  - by vm_compute.
  - done.
  - done.
  - by vm_compute.
Defined.

(** Routes that agree in their first 64 bytes have the same hashes. *)
Example long_routes_share :
  let long (c : Z) := replicate 64 97 ++ [c] in
  _route_scoped_reason_hash (long 98) (u "key lost") = _route_scoped_reason_hash (long 99) (u "key lost").
Proof. by vm_compute. Qed.

(** A classifier that has a class for a missing text is refused. *)
Example class_without_text :
  export (λ _, Some OtherReason) (marker None None) (u "r") (Aware 0) = Err UnrevokeAuditMarkerShapeError.
Proof. by vm_compute. Qed.
End UnrevokeExportExample.
