(* ===== verification/DnsAnchor.v ===== *)
(** * Anchors in the domain name system ([wirelang/identity/dns_anchor.py])

    The parser of anchor records and the resolver over HTTPS: the answers of a
    provider, the texts of its records, the failover between providers.  A
    request is a parameter; its reply is a failure of the transport, a status, or
    a parsed body.  The resolver on the [dnspython] package is not modelled, any
    resolver is a function from names to texts or an error.

    The theorems: what [parse_anchor] accepts; a record that is served in
    pieces, behind providers that fail, gives the anchor it spells. *)

From S2P Require Import Prelude PyStr PyJson PyJsonLoads PyDyn.
From Stdlib Require Import ZArith Lia.

Open Scope Z_scope.

Inductive dns_error : Type :=
| DnsAnchorError
| DnsUncaught.   (* AttributeError or TypeError of a reply of another shape *)

#[export] Instance dns_error_eq_dec : EqDecision dns_error.
Proof. solve_decision. Defined.

Module DnsAnchor.

Definition MIN_TTL_FLOOR_S : Z := 60.

Record DnsAnchor := MkAnchor { host : str; fingerprint : str }.

(** [resolver.resolve_txt] *)
Notation TxtResolver := (str → result dns_error (list str)).

(** ** Records *)

Definition is_hex64 (s : str) : bool := (length s =? 64)%nat && forallb is_lower_hex s.

(** [_TXT_RE.match(s)], the group of the digits. *)
Definition _TXT_RE (s : str) : option str :=
  r ← strip_prefix (u "v=1;") s;
  r ← strip_prefix (u "sha256=") (span is_space r).2;
  let digits := take 64 r in
  let rest := drop 64 r in
  if is_hex64 digits && bool_decide (rest = [] ∨ rest = [10]) then Some digits else None.

Definition parse_anchor (host : str) (txt_records : list str) : result dns_error DnsAnchor :=
  match omap (λ s, _TXT_RE (strip s)) txt_records with
  | [] => Err DnsAnchorError
  | fp :: more =>
      raise_if (1 <? length (remove_dups (fp :: more)))%nat DnsAnchorError;;
      Ok (MkAnchor host fp)
  end.

Definition fetch_anchor (resolver : TxtResolver) (host : str) : result dns_error DnsAnchor :=
  txt ← resolver host;
  parse_anchor host txt.

(** ** The resolver over HTTPS *)

(** The segments between quotes; [None] if a quote stays open.  [seg] is the
    segment that is being read, backwards. *)
Fixpoint segments (seg : option str) (raw : str) : option (list str) :=
  match raw, seg with
  | [], None => Some []
  | [], Some _ => None
  | c :: raw, None => if c =? 34 then segments (Some []) raw else segments None raw
  | c :: raw, Some seg =>
      if c =? 34 then segs ← segments None raw; Some (reverse seg :: segs)
      else segments (Some (c :: seg)) raw
  end.

(** [raw.strip] of the quotes. *)
Fixpoint lstrip_quotes (s : str) : str :=
  match s with c :: s' => if c =? 34 then lstrip_quotes s' else s | [] => [] end.
Definition strip_quotes (s : str) : str := reverse (lstrip_quotes (reverse (lstrip_quotes s))).

Definition _concat_multi_string_txt (raw : str) : str :=
  if str_empty raw then []
  else if negb (startswith raw [34]) then raw
  else match segments None raw with
       | Some out => concat out
       | None => strip_quotes raw
       end.

Definition _TXT_RR_TYPE : Z := 16.

(** A failure that drives the failover, or any other exception. *)
Inductive doh_error : Type := DohSoftFailure | DohUncaught.

Definition uncaught {A} (x : result exn A) : result doh_error A := map_err (λ _, DohUncaught) x.

(** One turn of the loop over the answers. *)
Definition txt_of_entry (entry : json) : result doh_error (option str) :=
  t ← uncaught (get entry (u "type"));
  if negb (py_eq t (JInt _TXT_RR_TYPE)) then Ok None
  else
    raw ← uncaught (get_or entry (u "data") (JStr []));
    match raw with
    | JStr s => Ok (Some (_concat_multi_string_txt s))
    | _ => if truthy raw then Err DohUncaught else Ok (Some [])
    end.

Definition _extract_txt_strings (answers : json) : result doh_error (list str) :=
  entries ← uncaught (py_iter answers);
  texts ← mapM txt_of_entry entries;
  Ok (omap id texts).

(** The reply to a request: [URLError] or [TimeoutError]; a status that is not
    200; or the value of the body, [None] if it is no JSON. *)
Inductive http_reply : Type :=
| TransportError
| HttpStatus
| HttpBody (payload : option json).

Section resolver.
Variable http : str → str → http_reply.

Definition _query_one (url name : str) : result doh_error (list str) :=
  match http url name with
  | TransportError | HttpStatus | HttpBody None => Err DohSoftFailure
  | HttpBody (Some payload) =>
      status ← uncaught (get payload (u "Status"));
      if py_eq status (JInt 3) then Ok []
      else
        raise_if (negb (py_eq status (JInt 0))) DohSoftFailure;;
        answers ← uncaught (get payload (u "Answer"));
        _extract_txt_strings (if truthy answers then answers else JList [])
  end.

(** The loop over the providers. *)
Fixpoint ask (providers : list str) (name : str) : result dns_error (list str) :=
  match providers with
  | [] => Err DnsAnchorError
  | url :: providers =>
      match _query_one url name with
      | Ok txt => Ok txt
      | Err DohSoftFailure => ask providers name
      | Err DohUncaught => Err DnsUncaught
      end
  end.

Definition resolve_txt (providers : list str) (name : str) : result dns_error (list str) :=
  raise_if (str_empty name) DnsAnchorError;;
  ask providers name.
End resolver.

Definition DEFAULT_PROVIDERS : list str :=
  [u "https://dns.google/resolve"; u "https://cloudflare-dns.com/dns-query"].

(** The constructor; [None] is ValueError. *)
Definition new_resolver (providers : option (list str)) : option (list str) :=
  match default DEFAULT_PROVIDERS providers with
  | [] => None
  | providers => Some providers
  end.
End DnsAnchor.

Import DnsAnchor.

(** ** Parsing *)

Section parsing.

Lemma remove_dups_two {A} `{EqDecision A} (x : A) l :
  (length (remove_dups (x :: l)) ≤ 1)%nat ↔ ∀ y, y ∈ l → y = x.
Proof.
  pose proof (NoDup_remove_dups (x :: l)) as Hnd.
  assert (∀ y, y ∈ remove_dups (x :: l) ↔ y ∈ x :: l) as Hin by apply elem_of_remove_dups.
  destruct (remove_dups (x :: l)) as [|a [|b k]]; cbn [length].
  - exfalso. apply (not_elem_of_nil x), Hin. by left.
  - split; [|lia]. intros _ y Hy. assert (∀ z, z ∈ x :: l → z = a) as Ha.
    { intros z Hz%Hin. by apply list_elem_of_singleton in Hz. }
    rewrite (Ha x) by by left. apply Ha. by right.
  - split; [lia|]. intros Hall. exfalso. apply NoDup_cons in Hnd as [Hab _].
    assert (∀ z, z ∈ x :: l → z = x) as Hx by (intros z [->|Hz]%elem_of_cons; auto).
    assert (a = b) as ->; [|by apply Hab; left]. transitivity x; [|symmetry]; apply Hx, Hin; [by left|by right; left].
Qed.

(** Of the texts under a name exactly the anchor records count; they must all
    carry one fingerprint. *)
Theorem parse_anchor_iff h records a :
  parse_anchor h records = Ok a ↔
  host a = h ∧ (∃ t, t ∈ records ∧ _TXT_RE (strip t) = Some (fingerprint a)) ∧
  ∀ t fp, t ∈ records → _TXT_RE (strip t) = Some fp → fp = fingerprint a.
Proof.
  unfold parse_anchor. assert (∀ fp, fp ∈ omap (λ s, _TXT_RE (strip s)) records ↔
    ∃ t, t ∈ records ∧ _TXT_RE (strip t) = Some fp) as Hin by (intros fp; apply list_elem_of_omap).
  destruct (omap _ records) as [|fp matches].
  - split; [done|]. intros (_ & Ht%Hin & _). by apply not_elem_of_nil in Ht.
  - split.
    + intros Ha. apply bind_ok_iff in Ha as ([] & Hd%raise_if_ok & <-%Ok_inj). apply Nat.ltb_ge in Hd.
      rewrite remove_dups_two in Hd. cbn [host fingerprint]. split_and!; [done|apply Hin; by left|].
      intros t fp' Ht Hfp. assert (fp' ∈ fp :: matches) as [->|Hm]%elem_of_cons by (apply Hin; by exists t); auto.
    + intros (<- & Hex%Hin & Hall).
      assert (∀ y, y ∈ fp :: matches → y = fingerprint a) as Hy by (intros y (t & Ht & Hfp)%Hin; eauto).
      assert ((1 <? length (remove_dups (fp :: matches)))%nat = false) as ->.
      { apply Nat.ltb_ge, remove_dups_two. intros y Hm. rewrite (Hy y), (Hy fp); [done|by left|by right]. }
      rewrite raise_if_false, bind_Ok. rewrite (Hy fp) by by left. by destruct a.
Qed.
End parsing.

(** ** Records in pieces *)

Section pieces.

(** A record of several strings as a provider shows it. *)
Definition quoted (s : str) : str := 34 :: s ++ [34].
Definition shown (segs : list str) : str := join [32] (quoted <$> segs).

Lemma segments_open s : ∀ seg r,
  34 ∉ s → segments (Some seg) (s ++ 34 :: r) =
  (segs ← segments None r; Some ((reverse seg ++ s) :: segs)).
Proof.
  induction s as [|c s IH]; intros seg r Hs; cbn [app segments].
  - rewrite Z.eqb_refl, app_nil_r. done.
  - apply not_elem_of_cons in Hs as [Hc Hs]. rewrite (proj2 (Z.eqb_neq c 34)) by done.
    rewrite IH by done. rewrite reverse_cons, <- app_assoc. done.
Qed.

Lemma segments_shown segs :
  Forall (λ s, 34 ∉ s) segs → segments None (shown segs) = Some segs.
Proof.
  unfold shown. induction 1 as [|s segs Hs Hsegs IH]; [done|].
  assert (∀ r, segments None (quoted s ++ r) = (segs ← segments None r; Some (s :: segs))) as Hq.
  { intros r. unfold quoted. cbn [app segments]. rewrite Z.eqb_refl, <- app_assoc. cbn [app].
    by rewrite segments_open. }
  destruct segs as [|s' segs].
  - cbn [fmap list_fmap join]. rewrite <- (app_nil_r (quoted s)), Hq. done.
  - change (join [32] (quoted <$> s :: s' :: segs)) with
      (quoted s ++ [32] ++ join [32] (quoted <$> s' :: segs)).
    rewrite Hq. cbn [app segments]. by rewrite IH.
Qed.

Lemma concat_shown segs :
  segs ≠ [] → Forall (λ s, 34 ∉ s) segs → _concat_multi_string_txt (shown segs) = concat segs.
Proof.
  intros Hne Hsegs. unfold _concat_multi_string_txt. rewrite segments_shown by done.
  destruct segs as [|s segs]; [done|]. assert (∃ r, shown (s :: segs) = 34 :: r) as [r ->]; [|done].
  unfold shown. destruct segs; by eexists.
Qed.

Lemma lower_hex_not_space c : is_lower_hex c = true → is_space c = false.
Proof.
  intros (n & Hn & ->)%lower_hex_digit. rewrite <- (Z2Nat.id n) by lia.
  assert (Z.to_nat n < 16)%nat as Hm by lia. revert Hm. generalize (Z.to_nat n). intros m Hm.
  do 16 (destruct m as [|m]; [by vm_compute|]). lia.
Qed.

Lemma strip_id c s d : is_space c = false → is_space d = false → strip (c :: s ++ [d]) = c :: s ++ [d].
Proof.
  intros Hc Hd. unfold strip. cbn [lstrip]. rewrite Hc, reverse_cons, reverse_snoc. cbn [app lstrip].
  rewrite Hd. change (d :: reverse s ++ [c]) with ((d :: reverse s) ++ [c]).
  by rewrite reverse_snoc, reverse_cons, reverse_involutive.
Qed.

(** The text of an anchor record is read as its fingerprint. *)
Lemma anchor_text_read fp :
  is_hex64 fp = true → _TXT_RE (strip (u "v=1; sha256=" ++ fp)) = Some fp.
Proof.
  unfold is_hex64. rewrite andb_true_iff, Nat.eqb_eq. intros [Hl Hh].
  destruct (exists_last (l := fp)) as (i & d & ->); [by destruct fp|].
  change (u "v=1; sha256=" ++ i ++ [d]) with (118 :: (drop 1 (u "v=1; sha256=") ++ i) ++ [d]) at 1.
  rewrite strip_id; [|done|].
  - unfold _TXT_RE. change (118 :: (drop 1 (u "v=1; sha256=") ++ i) ++ [d])
      with (u "v=1;" ++ [32] ++ u "sha256=" ++ (i ++ [d])).
    unfold strip_prefix. rewrite startswith_app. cbn [mbind option_bind].
    rewrite drop_app_length. rewrite (span_app is_space [32]); [|done|by intros c t [= <- _]].
    cbn [snd]. rewrite startswith_app. cbn [mbind option_bind]. rewrite drop_app_length.
    rewrite take_ge, drop_ge by lia. unfold is_hex64. rewrite Hl, Hh. done.
  - apply lower_hex_not_space. rewrite forallb_app in Hh. cbn in Hh. propify. tauto.
Qed.

(** An entry that is no text record. *)
Definition other_type (entry : json) : Prop :=
  ∃ e, entry = JObj e ∧ py_eq (default JNull (dict_get e (u "type"))) (JInt _TXT_RR_TYPE) = false.

Lemma other_skipped entries texts :
  Forall other_type entries → mapM txt_of_entry entries = Ok texts → omap id texts = [].
Proof.
  intros Hall Hm%mapM_ok. induction Hm as [|x t entries texts Hx _ IH]; [done|].
  apply Forall_cons in Hall as [(e & -> & He) Hall]. unfold txt_of_entry, get, get_or in Hx. cbn [map_err uncaught] in Hx.
  rewrite bind_Ok, He in Hx. apply Ok_inj in Hx as <-. cbn. by apply IH.
Qed.

Lemma other_ok entries : Forall other_type entries → ∃ texts, mapM txt_of_entry entries = Ok texts.
Proof.
  intros Hall. exists (replicate (length entries) None). apply mapM_ok.
  induction Hall as [|x entries (e & -> & He) _ IH]; [by constructor|]. cbn. constructor; [|done].
  unfold txt_of_entry, get, get_or. cbn [map_err uncaught]. by rewrite bind_Ok, He.
Qed.

(** A record that a provider serves in pieces, among records of other types and
    after providers that fail, is the anchor that the pieces spell. *)
Theorem anchor_in_pieces http pre url post name d before e after segs fp :
  str_empty name = false →
  Forall (λ p, _query_one http p name = Err DohSoftFailure) pre →
  http url name = HttpBody (Some (JObj d)) →
  dict_get d (u "Status") = Some (JInt 0) →
  dict_get d (u "Answer") = Some (JList (before ++ JObj e :: after)) →
  Forall other_type before → Forall other_type after →
  dict_get e (u "type") = Some (JInt _TXT_RR_TYPE) →
  dict_get e (u "data") = Some (JStr (shown segs)) →
  Forall (λ s, 34 ∉ s) segs → concat segs = u "v=1; sha256=" ++ fp → is_hex64 fp = true →
  fetch_anchor (resolve_txt http (pre ++ url :: post)) name = Ok (MkAnchor name fp).
Proof.
  intros Hn Hpre Hhttp Hst Hans Hbefore Hafter Htype Hdata Hsegs Htext Hfp.
  assert (_query_one http url name = Ok [u "v=1; sha256=" ++ fp]) as Hq.
  { unfold _query_one. rewrite Hhttp. cbn [get get_or uncaught map_err]. rewrite bind_Ok, Hst.
    change (py_eq _ (JInt 3)) with false. change (negb _) with false. cbv iota.
    rewrite raise_if_false, !bind_Ok, Hans. cbn [default id].
    assert (truthy (JList (before ++ JObj e :: after)) = true) as -> by by destruct before.
    unfold _extract_txt_strings. cbn [py_iter uncaught map_err]. rewrite bind_Ok.
    destruct (other_ok _ Hbefore) as (t1 & E1), (other_ok _ Hafter) as (t2 & E2).
    assert (txt_of_entry (JObj e) = Ok (Some (u "v=1; sha256=" ++ fp))) as Et.
    { unfold txt_of_entry, get, get_or. cbn [map_err uncaught]. rewrite bind_Ok, Htype, Hdata.
      change (negb _) with false. cbv iota. rewrite bind_Ok. cbn [default id]. by rewrite concat_shown, Htext; [|intros ->|]. }
    assert (mapM txt_of_entry (before ++ JObj e :: after) = Ok (t1 ++ Some (u "v=1; sha256=" ++ fp) :: t2)) as ->.
    { apply mapM_ok. apply mapM_ok in E1, E2. apply Forall2_app; [done|]. by constructor. }
    rewrite bind_Ok, omap_app. cbn [omap list_omap id].
    by rewrite (other_skipped _ _ Hbefore E1), (other_skipped _ _ Hafter E2). }
  unfold fetch_anchor, resolve_txt. rewrite Hn, raise_if_false, bind_Ok.
  assert (ask http (pre ++ url :: post) name = Ok [u "v=1; sha256=" ++ fp]) as ->.
  { induction Hpre as [|p pre Hp _ IH]; cbn [app ask]; [by rewrite Hq|by rewrite Hp]. }
  rewrite bind_Ok. apply parse_anchor_iff. cbn [host fingerprint]. split_and!; [done|..].
  - eexists. split; [by left|]. by apply anchor_text_read.
  - intros t fp' ->%list_elem_of_singleton. rewrite anchor_text_read by done. by intros [= <-].
Qed.
End pieces.

Module DnsAnchorExample.

Definition fp : str := replicate 64 97.
Definition name : str := u "_wakir-ftd.example.org".
Definition segs : list str := [u "v=1; sha2"; u "56=" ++ replicate 60 97; replicate 4 97].
Definition record (t : Z) (data : str) : dict := [(u "type", JInt t); (u "data", JStr data)].
Definition body : dict :=
  [(u "Status", JInt 0);
   (u "Answer", JList [JObj (record 5 (u "alias.example.org.")); JObj (record 16 (shown segs))])].

(** The first provider cannot be reached. *)
Definition http (url _ : str) : http_reply :=
  if str_eqb url (u "b") then HttpBody (Some (JObj body)) else TransportError.

Lemma anchor_in_pieces_witness :
  fetch_anchor (resolve_txt http [u "a"; u "b"; u "c"]) name = Ok (MkAnchor name fp).
Proof.
  apply (anchor_in_pieces http [u "a"] (u "b") [u "c"] name body
           [JObj (record 5 (u "alias.example.org."))] (record 16 (shown segs)) [] segs fp).
  - done.
  - by repeat constructor.
  - done.
  - done.
  - done.
  - constructor; [by eexists|constructor].
  - constructor.
  - done.
  - done.
  - apply (bool_decide_unpack _). by vm_compute.
  - by vm_compute.
  - done.
Defined.

(** Two anchors under a name are no anchor; other texts do not count. *)
Example ambiguous :
  let text := u "v=1; sha256=" in
  parse_anchor name [text ++ fp; text ++ replicate 64 98] = Err DnsAnchorError ∧
  parse_anchor name [u "spf"; [32] ++ text ++ fp ++ [10]; text ++ replicate 63 98] = Ok (MkAnchor name fp).
Proof. by vm_compute. Qed.

(** A body that is JSON but no object ends the query with AttributeError, and
    the next provider is not asked. *)
Example body_no_object :
  let http url _ := if str_eqb url (u "a") then HttpBody (Some (JList [])) else HttpBody (Some (JObj body)) in
  resolve_txt http [u "a"; u "b"] name = Err DnsUncaught.
Proof. by vm_compute. Qed.
End DnsAnchorExample.
