(* ===== verification/FtdVerify.v ===== *)
(** * Federation trust documents ([wirelang/identity/ftd_verifier.py])

    The structural check, the fallback canonicaliser, the selection of the
    issuer keys, the verification and its cache.  The anchor comes from
    [DnsAnchor]; the resolver is an argument of each call, since zones change
    between calls.  [rfc8785] and [cryptography] are the third-party interfaces
    of [Signing]; the signature check in pure Python that replaces the latter
    is not modelled.

    The theorems: when a document is accepted, and what the answer holds; the
    documents accepted under one name are one document; which exceptions can
    leave the verifier; every answer of the cache is an earlier verification of
    that identifier, not withdrawn since, and is given before the document
    expires. *)

From S2P Require Import Prelude PyStr PyFloat Sha256 PyJson PyJsonLoads PyDyn PyEqual PyTime PyTimestamp PyIso Merkle Signing Jcs DnsAnchor.
From Stdlib Require Import ZArith Lia.
Import DnsAnchor.DnsAnchor.

Open Scope Z_scope.

(** The errors of [FTDVerifyError], then exceptions that pass through. *)
Inductive ftd_error : Type :=
| FTDSchemaError
| FTDSignatureError
| FTDAnchorError
| FTDExpiredError
| FTDIssuerKeyError
| FTDIDMismatchError
| FtdKeyError                (* a member that the structural check lets miss *)
| FtdValueError              (* of a time *)
| FtdOverflowError           (* of astimezone() *)
| FtdTypeError               (* a float in the fallback; a naive clock *)
| FtdUnicodeError            (* of the fallback's encode *)
| FtdCanonicalisation        (* raised by rfc8785.dumps *)
| FtdResolver.               (* raised by the resolver, no DnsAnchorError *)

#[export] Instance ftd_error_eq_dec : EqDecision ftd_error.
Proof. solve_decision. Defined.

(** What [_parse_rfc3339] raises. *)
Inductive time_error : Type := TimeValueError | TimeOverflowError.

Module FtdVerify.

Definition _FTD_SCHEMA_VERSION : str := u "0.1.0".

(** ** Patterns *)

Definition hex_digits (n : nat) (s : str) : bool := (length s =? n)%nat && forallb is_lower_hex s.
Definition _HEX64_RE (s : str) : bool := re_dollar (hex_digits 64) s.
Definition _HEX128_RE (s : str) : bool := re_dollar (hex_digits 128) s.

Definition host_char (c : Z) : bool := is_alnum c || one_of (u ".-") c.
Definition path_char (c : Z) : bool := host_char c || (c =? 95).
Definition word (p : Z → bool) (s : str) : bool := negb (str_empty s) && forallb p s.

(** The parts between colons, behind the method. *)
Fixpoint id_path (parts : list str) : bool :=
  match parts with
  | [name; v] => str_eqb name (u "ftd") &&
                 match v with c :: n => (c =? 118) && word is_digit n | [] => false end
  | part :: parts => word path_char part && id_path parts
  | [] => false
  end.

Definition id_full (s : str) : bool :=
  match strip_prefix (u "did:web:") s with
  | Some r => match split_on 58 r with
              | host :: path => word host_char host && id_path path
              | [] => false
              end
  | None => false
  end.
Definition _FTD_ID_RE (s : str) : bool := re_dollar id_full s.

Definition anchor_host_full (s : str) : bool :=
  match strip_prefix (u "_wakir-ftd.") s with Some r => word host_char r | None => false end.
Definition _FTD_ANCHOR_HOST_RE (s : str) : bool := re_dollar anchor_host_full s.

(** ** Times *)

Definition _parse_rfc3339 (value : json) : result time_error datetime :=
  match value with
  | JStr s =>
      let s := if endswith s (u "Z") then take (length s - 1) s ++ u "+00:00" else s in
      match fromisoformat s with
      | None | Some (Naive _) => Err TimeValueError
      | Some (Aware us) => if in_calendar us then Ok (Aware us) else Err TimeOverflowError
      end
  | _ => Err TimeValueError
  end.

(** Inside [try ... except ValueError] of the structural check, and outside. *)
Definition schema_time (value : json) : result ftd_error datetime :=
  map_err (λ e, match e with TimeValueError => FTDSchemaError | TimeOverflowError => FtdOverflowError end)
    (_parse_rfc3339 value).
Definition plain_time (value : json) : result ftd_error datetime :=
  map_err (λ e, match e with TimeValueError => FtdValueError | TimeOverflowError => FtdOverflowError end)
    (_parse_rfc3339 value).

(** [a < b] *)
Definition before (a b : datetime) : result ftd_error bool := of_option FtdTypeError (dt_lt a b).

(** ** The structural check *)

Definition required_fields (d : dict) (names : list str) : result ftd_error () :=
  raise_if (negb (forallb (λ k, bool_decide (is_Some (dict_get d k))) names)) FTDSchemaError.

(** A text that satisfies a test; [!=] against a text is such a test. *)
Definition text_field (d : dict) (k : str) (ok : str → bool) : result ftd_error () :=
  raise_if (match dict_get d k with Some (JStr s) => negb (ok s) | _ => true end) FTDSchemaError.

Definition nonempty (s : str) : bool := negb (str_empty s).

Definition _validate_issuer_key (entry : json) : result ftd_error () :=
  match entry with
  | JObj entry =>
      required_fields entry [u "kid"; u "alg"; u "public_key"; u "purpose"; u "valid_from"];;
      text_field entry (u "kid") nonempty;;
      text_field entry (u "alg") (str_eqb (u "Ed25519"));;
      text_field entry (u "public_key") _HEX64_RE;;
      text_field entry (u "purpose") (str_eqb (u "biscuit-root"));;
      schema_time (default JNull (dict_get entry (u "valid_from")));;
      match dict_get entry (u "valid_until") with
      | None | Some JNull => Ok ()
      | Some t => schema_time t;; Ok ()
      end
  | _ => Err FTDSchemaError
  end.

Definition check_endpoint (ep : json) : result ftd_error () :=
  match ep with
  | JObj ep => text_field ep (u "rel") nonempty;; text_field ep (u "url") nonempty
  | _ => Err FTDSchemaError
  end.

Definition check_stamp (doc : dict) (k : str) : result ftd_error () :=
  text_field doc k (λ _, true);;
  schema_time (default JNull (dict_get doc k));; Ok ().

Definition check_issuer_keys (doc : dict) : result ftd_error () :=
  match dict_get doc (u "issuer_keys") with
  | Some (JList ((_ :: _) as entries)) => mapM _validate_issuer_key entries;; Ok ()
  | _ => Err FTDSchemaError
  end.

Definition check_anchor (doc : dict) : result ftd_error () :=
  match dict_get doc (u "anchor") with
  | Some (JObj anchor) =>
      required_fields anchor [u "kind"; u "host"; u "fingerprint_sha256"];;
      text_field anchor (u "kind") (str_eqb (u "dns-txt"));;
      text_field anchor (u "host") _FTD_ANCHOR_HOST_RE;;
      text_field anchor (u "fingerprint_sha256") _HEX64_RE
  | _ => Err FTDSchemaError
  end.

Definition check_document_signature (doc : dict) : result ftd_error () :=
  match dict_get doc (u "document_signature") with
  | Some (JObj sig) =>
      required_fields sig [u "alg"; u "kid"; u "signature"];;
      text_field sig (u "alg") (str_eqb (u "Ed25519"));;
      text_field sig (u "kid") nonempty;;
      text_field sig (u "signature") _HEX128_RE
  | _ => Err FTDSchemaError
  end.

Definition check_endpoints (doc : dict) : result ftd_error () :=
  match dict_get doc (u "endpoints") with
  | None => Ok ()
  | Some (JList endpoints) => mapM check_endpoint endpoints;; Ok ()
  | Some _ => Err FTDSchemaError
  end.

Definition _structural_validate (doc : json) : result ftd_error dict :=
  match doc with
  | JObj doc =>
      required_fields doc
        [u "wakir_ftd"; u "id"; u "domain"; u "issued_at"; u "expires"; u "ftd_root_pubkey";
         u "issuer_keys"; u "anchor"; u "document_signature"];;
      text_field doc (u "wakir_ftd") (str_eqb _FTD_SCHEMA_VERSION);;
      text_field doc (u "id") _FTD_ID_RE;;
      check_stamp doc (u "issued_at");;
      check_stamp doc (u "expires");;
      text_field doc (u "domain") nonempty;;
      text_field doc (u "ftd_root_pubkey") _HEX64_RE;;
      check_issuer_keys doc;;
      check_anchor doc;;
      check_document_signature doc;;
      check_endpoints doc;;
      Ok doc
  | _ => Err FTDSchemaError
  end.

(** ** Canonical bytes *)

(** One turn of the loop over the characters. *)
Definition json_char (ch : Z) : str :=
  if ch =? 34 then [backslash; 34]
  else if ch =? 92 then [backslash; 92]
  else if ch =? 8 then [backslash; 98]
  else if ch =? 12 then [backslash; 102]
  else if ch =? 10 then [backslash; 110]
  else if ch =? 13 then [backslash; 114]
  else if ch =? 9 then [backslash; 116]
  else if in_range 0 0x1f ch then u_escape ch
  else [ch].

Definition _json_string (s : str) : str := dquote :: (s ≫= json_char) ++ [dquote].

Definition item_leb (x y : str * str) : bool := str_leb x.1 y.1.

(** The members are serialised and then sorted; there is one error. *)
Fixpoint _local_jcs_impl (obj : json) : result ftd_error str :=
  match obj with
  | JNull => Ok (u "null")
  | JBool true => Ok (u "true")
  | JBool false => Ok (u "false")
  | JStr s => Ok (_json_string s)
  | JInt z => Ok (int_repr z)
  | JFloat _ => Err FtdTypeError
  | JList l =>
      texts ← mapM _local_jcs_impl l;
      Ok (u "[" ++ join (u ",") texts ++ u "]")
  | JObj d =>
      items ← mapM (λ kv : str * json, t ← _local_jcs_impl kv.2; Ok (kv.1, t)) d;
      Ok (u "{" ++
          join (u ",") ((λ kt : str * str, _json_string kt.1 ++ u ":" ++ kt.2) <$> py_sorted item_leb items)
          ++ u "}")
  end.

Definition _local_jcs (obj : json) : result ftd_error bytes :=
  s ← _local_jcs_impl obj; of_option FtdUnicodeError (utf8_encode s).

Section verifier.
Context `{Sha256, Rfc8785, Ed25519}.

Definition _jcs_canonicalise (obj : json) : result ftd_error bytes :=
  match rfc8785_dumps with
  | None => _local_jcs obj
  | Some dumps => of_option FtdCanonicalisation (dumps obj)
  end.

Definition compute_ftd_fingerprint (ftd_doc_jcs_bytes : bytes) : str := hex (sha256 ftd_doc_jcs_bytes).

Definition body_of (doc : dict) : json := JObj (dict_pop doc (u "document_signature")).

Definition compute_ftd_fingerprint_from_body (ftd_doc : dict) : result ftd_error str :=
  b ← _jcs_canonicalise (body_of ftd_doc);
  Ok (hex (sha256 b)).

Definition _verify_ed25519 (public_key_bytes message signature : bytes) : result ftd_error bool :=
  raise_if (negb (length public_key_bytes =? 32)%nat) FTDSignatureError;;
  raise_if (negb (length signature =? 64)%nat) FTDSignatureError;;
  Ok (ed_verify public_key_bytes signature message).

(** ** Access *)

Definition field (d : dict) (k : str) : result ftd_error json := of_option FtdKeyError (dict_get d k).
Definition item (j : json) (k : str) : result ftd_error json := map_err (λ _, FtdKeyError) (getitem j k).
Definition as_text (j : json) : result ftd_error str :=
  match j with JStr s => Ok s | _ => Err FtdTypeError end.

(** ** Issuer keys *)

Record ValidIssuerKey := MkIssuerKey {
  kid : json;
  public_key_hex : json;
  purpose : json;
  valid_from : datetime;
  valid_until : option datetime;
}.

(** One turn of the loop; [None] for a key outside its window. *)
Definition select_key (now : datetime) (entry : json) : result ftd_error (option ValidIssuerKey) :=
  vf ← item entry (u "valid_from");
  valid_from ← plain_time vf;
  vu ← map_err (λ _, FtdKeyError) (PyDyn.get entry (u "valid_until"));
  valid_until ← match vu with JNull => Ok None | _ => t ← plain_time vu; Ok (Some t) end;
  early ← before now valid_from;
  if (early : bool) then Ok None
  else
    inside ← match valid_until with None => Ok true | Some t => before now t end;
    if negb inside then Ok None
    else
      kid ← item entry (u "kid");
      public_key ← item entry (u "public_key");
      purpose ← item entry (u "purpose");
      Ok (Some (MkIssuerKey kid public_key purpose valid_from valid_until)).

Definition _select_valid_issuer_keys (raw_keys : json) (now : datetime)
    : result ftd_error (list ValidIssuerKey) :=
  entries ← map_err (λ _, FtdTypeError) (py_iter raw_keys);
  keys ← mapM (select_key now) entries;
  Ok (omap id keys).

(** ** Verification *)

Record VerifyResult := MkResult {
  ftd_id : str;
  ftd_doc : dict;
  fingerprint_sha256 : str;
  valid_issuer_keys : list ValidIssuerKey;
  anchor_host : str;
  verified_at : datetime;
}.

Definition anchor_error (e : dns_error) : ftd_error :=
  match e with DnsAnchorError => FTDAnchorError | DnsUncaught => FtdResolver end.

(** The steps behind the cache. *)
Definition verify_document (resolver : TxtResolver) (ftd_doc_jcs_bytes : bytes) (ftd_id : str)
    (now : datetime) : result ftd_error VerifyResult :=
  text ← of_option FTDSchemaError (utf8_decode ftd_doc_jcs_bytes);
  value ← of_option FTDSchemaError (json_loads text);
  doc ← _structural_validate value;
  id ← field doc (u "id");
  raise_if (negb (py_eq id (JStr ftd_id))) FTDIDMismatchError;;
  exp ← field doc (u "expires");
  expires ← plain_time exp;
  alive ← before now expires;
  raise_if (negb alive) FTDExpiredError;;
  fingerprint ← compute_ftd_fingerprint_from_body doc;
  anchor ← field doc (u "anchor");
  anchor_host ← item anchor (u "host") ≫= as_text;
  dns_anchor ← map_err anchor_error (fetch_anchor resolver anchor_host);
  raise_if (negb (str_eqb (DnsAnchor.fingerprint dns_anchor) fingerprint)) FTDAnchorError;;
  raw_keys ← field doc (u "issuer_keys");
  valid_keys ← _select_valid_issuer_keys raw_keys now;
  raise_if (match valid_keys with [] => true | _ => false end) FTDIssuerKeyError;;
  block ← field doc (u "document_signature");
  sig_hex ← item block (u "signature") ≫= as_text;
  signature ← of_option FTDSignatureError (bytes_fromhex sig_hex);
  root_hex ← field doc (u "ftd_root_pubkey") ≫= as_text;
  root_pub ← of_option FTDSignatureError (bytes_fromhex root_hex);
  canonical_body ← _jcs_canonicalise (body_of doc);
  valid ← _verify_ed25519 root_pub (sha256 canonical_body) signature;
  raise_if (negb valid) FTDSignatureError;;
  Ok (MkResult ftd_id doc fingerprint valid_keys anchor_host now).

(** ** The cache *)

Record _CacheEntry := MkEntry { result_of : VerifyResult; cache_until : datetime }.
Record FTDCache := MkCache { _entries : gmap str _CacheEntry; _refresh_margin_s : Z }.

Definition DEFAULT_FTD_CACHE_REFRESH_MARGIN_S : Z := 60 * 60.
Definition new_cache (refresh_margin_s : Z) : FTDCache := MkCache ∅ refresh_margin_s.

Definition drop_entry (ftd_id : str) (c : FTDCache) : FTDCache :=
  MkCache (delete ftd_id (_entries c)) (_refresh_margin_s c).

(** [now] is the answer of the clock. *)
Definition cache_get (now : datetime) (ftd_id : str) : stm FTDCache ftd_error (option VerifyResult) := λ c,
  match _entries c !! ftd_id with
  | None => (c, Ok None)
  | Some e =>
      match before now (cache_until e) with
      | Err err => (c, Err err)
      | Ok false => (drop_entry ftd_id c, Ok None)
      | Ok true => (c, Ok (Some (result_of e)))
      end
  end.

(** When an entry ends.  A margin that is no [float], and a time outside the
    calendar, raise. *)
Definition cutoff (margin : Z) (expires : datetime) : result ftd_error datetime :=
  if margin <=? 0 then Ok expires
  else
    raise_if (2 ^ 1024 - 2 ^ 970 <=? margin) FtdOverflowError;;
    match expires with
    | Aware us =>
        let t := fromtimestamp (double_sub (timestamp us) (to_double margin 1)) in
        raise_if (negb (in_calendar t)) FtdValueError;;
        Ok (Aware t)
    | Naive _ => Err FtdTypeError
    end.

Definition cache_put (now : datetime) (result : VerifyResult) : stm FTDCache ftd_error () := λ c,
  match exp ← field (ftd_doc result) (u "expires");
        expires ← plain_time exp;
        cache_until ← cutoff (_refresh_margin_s c) expires;
        later ← before now cache_until;
        Ok (cache_until, later) with
  | Err e => (c, Err e)
  | Ok (_, false) => (c, Ok ())
  | Ok (cache_until, true) =>
      (MkCache (<[ftd_id result := MkEntry result cache_until]> (_entries c)) (_refresh_margin_s c), Ok ())
  end.

Definition poison (ftd_id : str) : stm FTDCache ftd_error () := modify (drop_entry ftd_id).

(** The call with a cache; [at_get] and [at_put] are the answers of its clock. *)
Definition verify_cached (resolver : TxtResolver) (ftd_doc_jcs_bytes : bytes) (ftd_id : str)
    (now at_get at_put : datetime) : stm FTDCache ftd_error VerifyResult :=
  cached ← cache_get at_get ftd_id;
  match cached with
  | Some result => mret result
  | None =>
      result ← lift (verify_document resolver ftd_doc_jcs_bytes ftd_id now);
      cache_put at_put result;;
      mret result
  end.

Definition verify_ftd_document (resolver : TxtResolver) (ftd_doc_jcs_bytes : bytes) (ftd_id : str)
    (now at_get at_put : datetime) (cache : option FTDCache)
    : option FTDCache * result ftd_error VerifyResult :=
  match cache with
  | None => (None, verify_document resolver ftd_doc_jcs_bytes ftd_id now)
  | Some c =>
      let '(c', r) := verify_cached resolver ftd_doc_jcs_bytes ftd_id now at_get at_put c in
      (Some c', r)
  end.
End verifier.
End FtdVerify.

Import FtdVerify.

(** ** Documents that pass the structural check *)

Lemma text_field_ok d k ok :
  text_field d k ok = Ok () ↔ ∃ s, dict_get d k = Some (JStr s) ∧ ok s = true.
Proof.
  unfold text_field. rewrite raise_if_ok. split.
  - destruct (dict_get d k) as [[]|]; try done. intros Hn%negb_false_iff. eauto.
  - intros (s & -> & ->). done.
Qed.

(** Only a schema error or an overflow leaves the check. *)
Definition schema_errors (e : ftd_error) : Prop := e = FTDSchemaError ∨ e = FtdOverflowError.

Lemma raise_schema b e : raise_if b FTDSchemaError = Err e → schema_errors e.
Proof. intros [_ <-]%raise_if_err. by left. Qed.
Lemma schema_time_err j e : schema_time j = Err e → schema_errors e.
Proof. unfold schema_time. destruct (_parse_rfc3339 j) as [|[]]; intros [= <-]; first [by left|by right]. Qed.
Lemma schema_time_ok j t : schema_time j = Ok t → plain_time j = Ok t.
Proof. unfold schema_time, plain_time. rewrite !map_err_ok. done. Qed.
Lemma mapM_schema {A B} (f : A → result ftd_error B) l e :
  (∀ x err, f x = Err err → schema_errors err) → mapM f l = Err e → schema_errors e.
Proof. intros Hf (pre & x & post & _ & Hx & _)%mapM_err. by eapply Hf. Qed.

Ltac schema_err :=
  repeat match goal with
  | E1 : (_ ≫= _) = Err _ |- _ => apply bind_err_iff in E1 as [E1|(? & _ & E1)]
  | E1 : Ok _ = Err _ |- _ => discriminate E1
  | E1 : Err FTDSchemaError = Err _ |- _ => injection E1 as <-; by left
  | E1 : raise_if _ FTDSchemaError = Err _ |- _ => by apply raise_schema in E1
  | E1 : text_field _ _ _ = Err _ |- _ => by apply raise_schema in E1
  | E1 : required_fields _ _ = Err _ |- _ => by apply raise_schema in E1
  | E1 : schema_time _ = Err _ |- _ => by apply schema_time_err in E1
  end.

Lemma issuer_key_err x e : _validate_issuer_key x = Err e → schema_errors e.
Proof.
  unfold _validate_issuer_key. intros E. destruct x; try (injection E as <-; by left). schema_err.
  destruct (dict_get d (u "valid_until")) as [[]|]; schema_err.
Qed.

Lemma check_stamp_err d k e : check_stamp d k = Err e → schema_errors e.
Proof. unfold check_stamp. intros E. schema_err. Qed.

Lemma structural_err j e : _structural_validate j = Err e → schema_errors e.
Proof.
  unfold _structural_validate. intros E. destruct j; try (injection E as <-; by left).
  do 3 (apply bind_err_iff in E as [E|(? & _ & E)]; [by apply raise_schema in E|]).
  do 2 (apply bind_err_iff in E as [E|(? & _ & E)]; [by apply check_stamp_err in E|]).
  do 2 (apply bind_err_iff in E as [E|(? & _ & E)]; [by apply raise_schema in E|]).
  apply bind_err_iff in E as [E|(? & _ & E)].
  { unfold check_issuer_keys in E. destruct (dict_get d _) as [[| | | | |[|k l]|]|]; schema_err.
    revert E. apply mapM_schema, issuer_key_err. }
  apply bind_err_iff in E as [E|(? & _ & E)].
  { unfold check_anchor in E. destruct (dict_get d _) as [[]|]; schema_err. }
  apply bind_err_iff in E as [E|(? & _ & E)].
  { unfold check_document_signature in E. destruct (dict_get d _) as [[]|]; schema_err. }
  apply bind_err_iff in E as [E|(? & _ & E)]; [|done].
  unfold check_endpoints in E. destruct (dict_get d _) as [[]|]; schema_err.
  revert E. apply mapM_schema. intros ep err E1. unfold check_endpoint in E1. destruct ep; schema_err.
Qed.

(** What the later steps find in a document. *)
Record key_shape (entry : json) : Prop := {
  key_members : ∃ d vf, entry = JObj d ∧
    (∃ a b c, dict_get d (u "kid") = Some a ∧ dict_get d (u "public_key") = Some b ∧ dict_get d (u "purpose") = Some c) ∧
    dict_get d (u "valid_from") = Some vf ∧ is_ok (plain_time vf) = true ∧
    match dict_get d (u "valid_until") with
    | None | Some JNull => True
    | Some t => is_ok (plain_time t) = true
    end;
}.

Record shape (d : dict) : Prop := {
  shape_id : ∃ s, dict_get d (u "id") = Some (JStr s);
  shape_expires : ∃ j t, dict_get d (u "expires") = Some j ∧ plain_time j = Ok t;
  shape_root : ∃ s, dict_get d (u "ftd_root_pubkey") = Some (JStr s) ∧ _HEX64_RE s = true;
  shape_keys : ∃ l, dict_get d (u "issuer_keys") = Some (JList l) ∧ Forall key_shape l;
  shape_anchor : ∃ a h, dict_get d (u "anchor") = Some (JObj a) ∧ dict_get a (u "host") = Some (JStr h);
  shape_signature : ∃ b s, dict_get d (u "document_signature") = Some (JObj b) ∧
    dict_get b (u "signature") = Some (JStr s) ∧ _HEX128_RE s = true;
}.

Lemma required_ok d ks k : required_fields d ks = Ok () → k ∈ ks → is_Some (dict_get d k).
Proof.
  unfold required_fields. rewrite raise_if_ok, negb_false_iff, forallb_forall. intros Hall Hk%list_elem_of_In.
  specialize (Hall _ Hk). by apply bool_decide_eq_true in Hall.
Qed.

Lemma issuer_key_shape x : _validate_issuer_key x = Ok () → key_shape x.
Proof.
  unfold _validate_issuer_key. destruct x as [| | | | | |d]; try done. intros E. split.
  apply bind_ok_iff in E as ([] & Hreq & E).
  apply bind_ok_iff in E as ([] & (a & Ha & _)%text_field_ok & E). apply bind_ok_iff in E as ([] & _ & E).
  apply bind_ok_iff in E as ([] & (b & Hb & _)%text_field_ok & E).
  apply bind_ok_iff in E as ([] & (c & Hc & _)%text_field_ok & E).
  apply bind_ok_iff in E as (t & Ht & E).
  destruct (required_ok _ _ (u "valid_from") Hreq) as [vf Hvf]; [apply (bool_decide_unpack _); by vm_compute|].
  rewrite Hvf in Ht. apply schema_time_ok in Ht. change (plain_time vf = Ok t) in Ht. exists d, vf. split_and!; [done|eauto 10|done|by rewrite Ht|].
  destruct (dict_get d (u "valid_until")) as [t'|]; [|done].
  assert (∀ j, (_ ← schema_time j; Ok ()) = Ok () → is_ok (plain_time j) = true) as Hj.
  { intros j (t0 & H0 & _)%bind_ok_iff. apply schema_time_ok in H0. by rewrite H0. }
  destruct t'; try done; by apply Hj.
Qed.

Lemma structural_shape j d : _structural_validate j = Ok d → j = JObj d ∧ shape d.
Proof.
  unfold _structural_validate. destruct j as [| | | | | |d0]; try done. intros E.
  do 2 apply bind_ok_iff in E as ([] & _ & E). apply bind_ok_iff in E as ([] & (i & Hi & _)%text_field_ok & E).
  apply bind_ok_iff in E as ([] & _ & E). apply bind_ok_iff in E as ([] & Hexp & E).
  apply bind_ok_iff in E as ([] & _ & E). apply bind_ok_iff in E as ([] & Hroot%text_field_ok & E).
  apply bind_ok_iff in E as ([] & Hkeys & E). apply bind_ok_iff in E as ([] & Hanchor & E).
  apply bind_ok_iff in E as ([] & Hsig & E). apply bind_ok_iff in E as ([] & _ & <-%Ok_inj).
  split; [done|]. split.
  - by exists i.
  - apply bind_ok_iff in Hexp as ([] & (s & Hs & _)%text_field_ok & Ht).
    apply bind_ok_iff in Ht as (t & Ht & _). rewrite Hs in Ht. apply schema_time_ok in Ht. eauto.
  - done.
  - unfold check_issuer_keys in Hkeys. destruct (dict_get d0 (u "issuer_keys")) as [[| | | | |[|x l]|]|]; try done.
    exists (x :: l). split; [done|]. apply bind_ok_iff in Hkeys as (us & Hus%mapM_ok & _).
    clear -Hus. induction Hus as [|y v ys vs Hy _ IH]; [done|]. constructor; [|done]. destruct v. by apply issuer_key_shape.
  - unfold check_anchor in Hanchor. destruct (dict_get d0 (u "anchor")) as [[]|]; try done.
    do 2 apply bind_ok_iff in Hanchor as ([] & _ & Hanchor).
    apply bind_ok_iff in Hanchor as ([] & (h & Hh & _)%text_field_ok & _). eauto.
  - unfold check_document_signature in Hsig. destruct (dict_get d0 (u "document_signature")) as [[]|]; try done.
    do 3 apply bind_ok_iff in Hsig as ([] & _ & Hsig). apply text_field_ok in Hsig as (s & Hs & Hx). eauto 10.
Qed.

(** A text of lower-case digits, with or without the final newline that [$]
    lets pass, is read as bytes. *)
Lemma hex_pattern n s :
  re_dollar (hex_digits (2 * n)) s = true → ∃ b, bytes_fromhex s = Some b ∧ length b = n.
Proof.
  assert (∀ s, hex_digits (2 * n) s = true → ∃ b, s = hex b ∧ length b = n) as Hh.
  { intros t. unfold hex_digits. rewrite andb_true_iff, Nat.eqb_eq. intros [Hl Ht]. by apply lower_hex_bytes. }
  intros [(b & -> & Hb)%Hh|(t & -> & (b & -> & Hb)%Hh)]%re_dollar_spec; exists b;
    
    [by rewrite bytes_fromhex_hex|rewrite bytes_fromhex_app; change (bytes_fromhex [10]) with (Some ([]:bytes)); cbn; by rewrite app_nil_r].
Qed.

(** ** The issuer keys of an answer *)

(** A key of the list whose window contains [now]. *)
Definition offers (now : datetime) (l : list json) (k : ValidIssuerKey) : Prop :=
  ∃ e vf vu, JObj e ∈ l ∧ dict_get e (u "kid") = Some (kid k) ∧ dict_get e (u "public_key") = Some (public_key_hex k) ∧
    dict_get e (u "purpose") = Some (purpose k) ∧
    dict_get e (u "valid_from") = Some vf ∧ _parse_rfc3339 vf = Ok (valid_from k) ∧
    dt_lt now (valid_from k) = Some false ∧ default JNull (dict_get e (u "valid_until")) = vu ∧
    match valid_until k with
    | None => vu = JNull
    | Some t => _parse_rfc3339 vu = Ok t ∧ dt_lt now t = Some true
    end.

Lemma plain_time_ok j t : plain_time j = Ok t ↔ _parse_rfc3339 j = Ok t.
Proof. apply map_err_ok. Qed.

Lemma select_key_some now entry k :
  select_key now entry = Ok (Some k) ↔ ∃ e, entry = JObj e ∧ offers now [JObj e] k.
Proof.
  unfold select_key, item, field. split.
  - intros E. destruct entry as [| | | | | |e]; try done. cbn [getitem map_err] in E.
    apply bind_ok_iff in E as (vf & Hvf & E). apply map_err_ok, of_option_ok in Hvf.
    apply bind_ok_iff in E as (t & Ht%plain_time_ok & E).
    apply bind_ok_iff in E as (vu & Hvu & E). apply map_err_ok in Hvu.
    unfold PyDyn.get, get_or in Hvu. apply Ok_inj in Hvu.
    apply bind_ok_iff in E as (until & Huntil & E). apply bind_ok_iff in E as (early & Hearly%of_option_ok & E).
    destruct early; [done|]. apply bind_ok_iff in E as (inside & Hin & E). destruct inside; [|done]. cbn [negb] in E.
    apply bind_ok_iff in E as (a & Ha%map_err_ok%of_option_ok & E).
    apply bind_ok_iff in E as (b & Hb%map_err_ok%of_option_ok & E).
    apply bind_ok_iff in E as (c & Hc%map_err_ok%of_option_ok & E). apply Ok_inj in E as [= <-].
    exists e. split; [done|]. exists e, vf, vu. cbn [kid public_key_hex purpose valid_from valid_until].
    split_and!; try done; [by left|]. destruct until as [t'|].
    + apply of_option_ok in Hin. split; [|done].
      destruct vu; try done; apply bind_ok_iff in Huntil as (? & ?%plain_time_ok & [= ->]); done.
    + destruct vu; try done; by apply bind_ok_iff in Huntil as (? & _ & [=]).
  - intros (e & -> & e' & vf & vu & He%list_elem_of_singleton & Ha & Hb & Hc & Hvf & Ht & Hearly & Hvu & Huntil).
    injection He as ->. cbn [getitem map_err]. rewrite Hvf. cbn [of_option map_err]. rewrite bind_Ok.
    rewrite (proj2 (plain_time_ok _ _) Ht), bind_Ok. unfold PyDyn.get, get_or. cbn [map_err].
    rewrite Hvu, bind_Ok, Ha, Hb, Hc. cbn [of_option map_err]. unfold before. rewrite Hearly.
    destruct k as [a b c t [t'|]]; cbn [valid_until kid public_key_hex purpose valid_from] in *.
    + destruct Huntil as [Ht' Hl].
      assert (match vu with JNull => Ok None | _ => t ← plain_time vu; Ok (Some t) end = Ok (E:=ftd_error) (Some t')) as ->.
      { apply plain_time_ok in Ht'. destruct vu; try done; by rewrite Ht'. }
      cbn [of_option]. rewrite !bind_Ok, Hl. done.
    + rewrite Huntil. cbn [of_option]. rewrite !bind_Ok. done.
Qed.

Lemma offers_elem now l k : offers now l k ↔ ∃ e, JObj e ∈ l ∧ offers now [JObj e] k.
Proof.
  unfold offers. split.
  - intros (e & vf & vu & He & Hrest). exists e. split; [done|]. exists e, vf, vu. split; [by left|done].
  - intros (e & He & e' & vf & vu & [= ->]%list_elem_of_singleton & Hrest). by exists e, vf, vu.
Qed.

Lemma select_offers now l ks k :
  _select_valid_issuer_keys (JList l) now = Ok ks → k ∈ ks ↔ offers now l k.
Proof.
  unfold _select_valid_issuer_keys. cbn [py_iter map_err]. rewrite bind_Ok. intros E.
  apply bind_ok_iff in E as (xs & Hxs%mapM_ok & <-%Ok_inj). rewrite list_elem_of_omap, offers_elem. split.
  - intros (x & Hx & Hk). unfold id in Hk. subst x.
    destruct (Forall2_right_elem _ _ _ _ Hxs Hx) as (entry & (e & -> & He)%select_key_some & Hin). by exists e.
  - intros (e & He & Ho). apply list_elem_of_lookup in He as [i Hi].
    destruct (Forall2_lookup_l _ _ _ _ _ Hxs Hi) as (x & Hx & Hsel). exists x.
    split; [by eapply list_elem_of_lookup_2|]. assert (select_key now (JObj e) = Ok (Some k)) as E.
    { apply select_key_some. eauto. }
    rewrite E in Hsel. by injection Hsel as <-.
Qed.

(** ** Acceptance *)

Section accepted.
Context `{Sha256, Rfc8785, Ed25519}.

(** What makes a document trusted at an instant, given the zone. *)
Record trusted (resolver : TxtResolver) (now : datetime) (d : dict) (r : VerifyResult) : Prop := {
  tr_doc : ftd_doc r = d;
  tr_at : verified_at r = now;
  tr_id : dict_get d (u "id") = Some (JStr (ftd_id r));
  tr_alive : ∃ j t, dict_get d (u "expires") = Some j ∧ _parse_rfc3339 j = Ok t ∧ dt_lt now t = Some true;
  tr_host : ∃ a, dict_get d (u "anchor") = Some (JObj a) ∧ dict_get a (u "host") = Some (JStr (anchor_host r));
  tr_anchor : fetch_anchor resolver (anchor_host r) = Ok (MkAnchor (anchor_host r) (fingerprint_sha256 r));
  tr_body : ∃ m root_hex root block sig_hex sig,
    _jcs_canonicalise (body_of d) = Ok m ∧ fingerprint_sha256 r = hex (sha256 m) ∧
    dict_get d (u "ftd_root_pubkey") = Some (JStr root_hex) ∧ bytes_fromhex root_hex = Some root ∧
    dict_get d (u "document_signature") = Some (JObj block) ∧ dict_get block (u "signature") = Some (JStr sig_hex) ∧
    bytes_fromhex sig_hex = Some sig ∧ ed_verify root sig (sha256 m) = true;
  tr_keys : ∃ l, dict_get d (u "issuer_keys") = Some (JList l) ∧
    _select_valid_issuer_keys (JList l) now = Ok (valid_issuer_keys r) ∧ valid_issuer_keys r ≠ [];
}.

Lemma fetch_anchor_host resolver h a : fetch_anchor resolver h = Ok a → DnsAnchor.host a = h.
Proof.
  unfold fetch_anchor, parse_anchor. intros E. apply bind_ok_iff in E as (txt & _ & E).
  destruct (omap _ txt); [done|]. by apply bind_ok_iff in E as ([] & _ & <-%Ok_inj).
Qed.

Lemma item_found j k v : item j k = Ok v ↔ ∃ d, j = JObj d ∧ dict_get d k = Some v.
Proof.
  unfold item. rewrite map_err_ok. destruct j; cbn [getitem]; rewrite ?of_option_ok; naive_solver.
Qed.

Lemma item_text_ok j k s : (item j k ≫= as_text) = Ok s ↔ ∃ d, j = JObj d ∧ dict_get d k = Some (JStr s).
Proof.
  rewrite bind_ok_iff. setoid_rewrite item_found. split.
  - intros (v & (d & -> & Hd) & Hv). destruct v; try done. apply Ok_inj in Hv as ->. eauto.
  - intros (d & -> & Hd). exists (JStr s). eauto.
Qed.

Lemma field_ok d k v : field d k = Ok v ↔ dict_get d k = Some v.
Proof. apply of_option_ok. Qed.

Lemma field_text_ok d k s : (field d k ≫= as_text) = Ok s ↔ dict_get d k = Some (JStr s).
Proof.
  rewrite bind_ok_iff. setoid_rewrite field_ok. split; [|by exists (JStr s)].
  intros (v & Hd & Hv). destruct v; try done. by apply Ok_inj in Hv as ->.
Qed.

Lemma pattern_lengths d :
  shape d →
  ∀ rh root blk sh sig,
    dict_get d (u "ftd_root_pubkey") = Some (JStr rh) → bytes_fromhex rh = Some root →
    dict_get d (u "document_signature") = Some (JObj blk) → dict_get blk (u "signature") = Some (JStr sh) →
    bytes_fromhex sh = Some sig → length root = 32%nat ∧ length sig = 64%nat.
Proof.
  intros Hs rh root blk sh sig Hrh Hroot Hblk Hsh Hsig.
  destruct (shape_root d Hs) as (x & Hx & Px), (shape_signature d Hs) as (b & y & Hb & Hy & Py).
  rewrite Hrh in Hx. injection Hx as <-. rewrite Hblk in Hb. injection Hb as <-. rewrite Hsh in Hy. injection Hy as <-.
  apply (hex_pattern 32) in Px as (b1 & E1 & L1). apply (hex_pattern 64) in Py as (b2 & E2 & L2). split; congruence.
Qed.

(** C31: A document is accepted exactly when it parses, has the structure, names the
    identifier that was asked for, has not expired, its digest is the one anchor
    under its host, some issuer key is in its window, and its signature is valid
    under its root key. *)
Theorem document_accepted_iff resolver b id now r :
  verify_document resolver b id now = Ok r ↔
  ftd_id r = id ∧ ∃ text d, utf8_decode b = Some text ∧ json_loads text = Some (JObj d) ∧
    _structural_validate (JObj d) = Ok d ∧ trusted resolver now d r.
Proof.
  unfold verify_document. split.
  - intros E. apply bind_ok_iff in E as (text & Htext%of_option_ok & E).
    apply bind_ok_iff in E as (j & Hj%of_option_ok & E). apply bind_ok_iff in E as (d & Hd & E).
    pose proof (structural_shape _ _ Hd) as [-> Hs].
    apply bind_ok_iff in E as (i & Hi%field_ok & E). apply bind_ok_iff in E as ([] & Hid%raise_if_ok%negb_false_iff & E).
    apply py_eq_str_r in Hid as ->. apply bind_ok_iff in E as (ej & Hej%field_ok & E).
    apply bind_ok_iff in E as (t & Ht%plain_time_ok & E). apply bind_ok_iff in E as (alive & Halive%of_option_ok & E).
    apply bind_ok_iff in E as ([] & Hal%raise_if_ok%negb_false_iff & E). subst alive.
    apply bind_ok_iff in E as (fp & Hfp & E). apply bind_ok_iff in Hfp as (m & Hm & <-%Ok_inj).
    apply bind_ok_iff in E as (a & Ha%field_ok & E). apply bind_ok_iff in E as (h & (da & -> & Hh)%item_text_ok & E).
    apply bind_ok_iff in E as (dns & Hdns%map_err_ok & E).
    apply bind_ok_iff in E as ([] & Heq%raise_if_ok%negb_false_iff & E). apply bool_decide_eq_true in Heq.
    apply bind_ok_iff in E as (raw & Hraw%field_ok & E). apply bind_ok_iff in E as (ks & Hks & E).
    apply bind_ok_iff in E as ([] & Hne%raise_if_ok & E). apply bind_ok_iff in E as (bl & Hbl%field_ok & E).
    apply bind_ok_iff in E as (sh & (blk & -> & Hsh)%item_text_ok & E). apply bind_ok_iff in E as (sig & Hsig%of_option_ok & E).
    apply bind_ok_iff in E as (rh & Hrh%field_text_ok & E). apply bind_ok_iff in E as (root & Hroot%of_option_ok & E).
    apply bind_ok_iff in E as (m' & Hm' & E). rewrite Hm in Hm'. apply Ok_inj in Hm' as <-.
    apply bind_ok_iff in E as (valid & Hv & E). apply bind_ok_iff in E as ([] & Hvalid%raise_if_ok%negb_false_iff & <-%Ok_inj).
    unfold _verify_ed25519 in Hv. do 2 apply bind_ok_iff in Hv as ([] & _ & Hv). apply Ok_inj in Hv. subst valid.
    destruct (shape_keys d Hs) as (l & Hl & _). rewrite Hraw in Hl. injection Hl as ->.
    split; [done|]. exists text, d. split_and!; [done..|]. split; cbn; try done; eauto 20.
    + pose proof (fetch_anchor_host _ _ _ Hdns) as Hhost. destruct dns. cbn in *. by subst.
    + exists l. split_and!; [done..|]. by destruct ks.
  - intros (<- & text & d & Htext & Hj & Hd & [Hdoc Hat Hi (ej & t & Hej & Ht & Halive) (a & Ha & Hh) Hdns
      (m & rh & root & blk & sh & sig & Hm & Hfp & Hrh & Hroot & Hblk & Hsh & Hsig & Hv) (l & Hl & Hks & Hne)]).
    pose proof (structural_shape _ _ Hd) as [_ Hs].
    destruct (pattern_lengths d Hs _ _ _ _ _ Hrh Hroot Hblk Hsh Hsig) as [L1 L2].
    rewrite Htext. cbn [of_option]. rewrite bind_Ok, Hj. cbn [of_option]. rewrite bind_Ok, Hd, bind_Ok.
    rewrite (proj2 (field_ok _ _ _) Hi), bind_Ok, (proj2 (py_eq_str_r _ _) eq_refl), raise_if_false, bind_Ok.
    rewrite (proj2 (field_ok _ _ _) Hej), bind_Ok, (proj2 (plain_time_ok _ _) Ht), bind_Ok.
    unfold before at 1. rewrite Halive. cbn [of_option negb]. rewrite bind_Ok, raise_if_false, bind_Ok.
    unfold compute_ftd_fingerprint_from_body. rewrite Hm, !bind_Ok, (proj2 (field_ok _ _ _) Ha), bind_Ok.
    rewrite (proj2 (item_text_ok (JObj a) _ _) (ex_intro _ a (conj eq_refl Hh))), bind_Ok, Hdns. cbn [map_err].
    rewrite bind_Ok. cbn [DnsAnchor.fingerprint]. rewrite Hfp. unfold str_eqb. rewrite bool_decide_eq_true_2 by done.
    cbn [negb]. rewrite raise_if_false, bind_Ok, (proj2 (field_ok _ _ _) Hl), bind_Ok, Hks, bind_Ok.
    assert (match valid_issuer_keys r with [] => true | _ => false end = false) as -> by by destruct (valid_issuer_keys r).
    rewrite raise_if_false, bind_Ok, (proj2 (field_ok _ _ _) Hblk), bind_Ok.
    rewrite (proj2 (item_text_ok (JObj blk) _ _) (ex_intro _ blk (conj eq_refl Hsh))), bind_Ok, Hsig. cbn [of_option].
    rewrite bind_Ok, (proj2 (field_text_ok _ _ _) Hrh), bind_Ok, Hroot. cbn [of_option].
    rewrite !bind_Ok. unfold _verify_ed25519. rewrite L1, L2, Hv. cbn [Nat.eqb negb].
    rewrite !raise_if_false, !bind_Ok, raise_if_false, bind_Ok. rewrite <- Hfp, <- Hdoc, <- Hat. by destruct r.
Qed.

(** ** Errors *)

Lemma parse_aware j t : _parse_rfc3339 j = Ok t → ∃ us, t = Aware us ∧ in_calendar us = true.
Proof.
  unfold _parse_rfc3339. destruct j; try done. destruct (fromisoformat _) as [[us|us]|]; try done.
  destruct (in_calendar us) eqn:E1; [|done]. intros [= <-]. eauto.
Qed.

Lemma before_aware us j t : plain_time j = Ok t → ∃ x, before (Aware us) t = Ok x.
Proof. intros (v & -> & _)%plain_time_ok%parse_aware. cbn. by eexists. Qed.

Lemma is_ok_iff {E A} (x : result E A) : is_ok x = true ↔ ∃ a, x = Ok a.
Proof. destruct x; cbn; naive_solver. Qed.

Lemma select_key_total us entry : key_shape entry → ∃ k, select_key (Aware us) entry = Ok k.
Proof.
  intros [(d & vf & -> & (a & b & c & Ha & Hb & Hc) & Hvf & (t & Ht)%is_ok_iff & Hvu)].
  unfold select_key, item, PyDyn.get, get_or. cbn [getitem map_err]. rewrite Hvf, Ha, Hb, Hc. cbn [of_option map_err].
  rewrite bind_Ok, Ht, !bind_Ok.
  assert (∃ until, match default JNull (dict_get d (u "valid_until")) with
                   | JNull => Ok None | _ => t ← plain_time (default JNull (dict_get d (u "valid_until"))); Ok (Some t)
                   end = Ok (E:=ftd_error) until ∧ ∀ t', until = Some t' → ∃ j, plain_time j = Ok t') as (until & -> & Hu).
  { destruct (dict_get d (u "valid_until")) as [j|]; [|by exists None]. cbn [default id].
    destruct j; try (by exists None); apply is_ok_iff in Hvu as (t' & Ht'); rewrite Ht'; cbn;
      exists (Some t'); (split; [done|]); intros ? [= <-]; eauto. }
  rewrite bind_Ok. destruct (before_aware us vf t Ht) as [early ->]. rewrite bind_Ok. destruct early; [by eexists|].
  destruct until as [t'|]; [|by eexists]. destruct (Hu t' eq_refl) as [j Hj].
  destruct (before_aware us j t' Hj) as [inside ->]. rewrite bind_Ok. destruct inside; by eexists.
Qed.

Lemma select_total us l :
  Forall key_shape l → ∃ ks, _select_valid_issuer_keys (JList l) (Aware us) = Ok ks.
Proof.
  intros Hl. unfold _select_valid_issuer_keys. cbn [py_iter map_err]. rewrite bind_Ok.
  assert (∃ xs, mapM (select_key (Aware us)) l = Ok xs) as [xs ->]; [|by eexists].
  induction Hl as [|x l Hx _ [xs IH]]; [by eexists|]. destruct (select_key_total us x Hx) as [k Hk].
  exists (k :: xs). by rewrite mapM_cons, Hk, bind_Ok, IH.
Qed.

Definition documented (e : ftd_error) : Prop :=
  e ∈ [FTDSchemaError; FTDSignatureError; FTDAnchorError; FTDExpiredError; FTDIssuerKeyError; FTDIDMismatchError].

(** At an aware instant, a document that is not accepted gets one of the six
    documented errors, unless a time overflows, its body has no canonical form,
    or the resolver raises something else than DnsAnchorError.  In particular
    the steps behind the structural check never miss a member. *)
Theorem errors_documented resolver b id us e :
  verify_document resolver b id (Aware us) = Err e →
  documented e ∨ e = FtdOverflowError ∨
  (∃ d, shape d ∧ _jcs_canonicalise (body_of d) = Err e) ∨
  (e = FtdResolver ∧ ∃ h, fetch_anchor resolver h = Err DnsUncaught).
Proof.
  unfold verify_document. intros E.
  assert (∀ (b : bool) e', documented e' → raise_if b e' = Err e → documented e) as Hr by by intros ? ? ? [_ <-]%raise_if_err.
  assert (∀ A (o : option A) e', documented e' → of_option e' o = Err e → documented e) as Ho
    by (intros A [] e' ? [=]; by subst).
  assert (∀ x, x ∈ [FTDSchemaError; FTDSignatureError; FTDAnchorError; FTDExpiredError; FTDIssuerKeyError; FTDIDMismatchError]
    → documented x) as D by done.
  assert (documented FTDSchemaError ∧ documented FTDSignatureError ∧ documented FTDAnchorError ∧ documented FTDExpiredError
    ∧ documented FTDIssuerKeyError ∧ documented FTDIDMismatchError) as (D1 & D2 & D3 & D4 & D5 & D6)
    by (unfold documented; split_and!; set_solver). clear D.
  apply bind_err_iff in E as [E|(text & _ & E)]; [left; by eapply Ho, E|].
  apply bind_err_iff in E as [E|(j & _ & E)]; [left; by eapply Ho, E|].
  apply bind_err_iff in E as [[->| ->]%structural_err|(d & Hd & E)]; [by left|by right; left|].
  apply structural_shape in Hd as [-> Hs].
  destruct (shape_id d Hs) as (i & Hi), (shape_expires d Hs) as (ej & t & Hej & Ht), (shape_keys d Hs) as (l & Hl & Hls),
    (shape_anchor d Hs) as (a & h & Ha & Hh), (shape_root d Hs) as (rh & Hrh & Pr),
    (shape_signature d Hs) as (blk & sh & Hblk & Hsh & Psh).
  rewrite (proj2 (field_ok _ _ _) Hi), bind_Ok in E. apply bind_err_iff in E as [E|([] & _ & E)]; [left; by eapply Hr, E|].
  rewrite (proj2 (field_ok _ _ _) Hej), bind_Ok, Ht, bind_Ok in E.
  destruct (before_aware us ej t Ht) as [alive Hal]. rewrite Hal, bind_Ok in E.
  apply bind_err_iff in E as [E|([] & _ & E)]; [left; by eapply Hr, E|].
  apply bind_err_iff in E as [E|(fp & Hfp & E)].
  { unfold compute_ftd_fingerprint_from_body in E. apply bind_err_iff in E as [E|(m & _ & E)]; [|done].
    right; right; left. by exists d. }
  apply bind_ok_iff in Hfp as (m & Hm & _).
  rewrite (proj2 (field_ok _ _ _) Ha), bind_Ok, (proj2 (item_text_ok (JObj a) _ _) (ex_intro _ a (conj eq_refl Hh))), bind_Ok in E.
  apply bind_err_iff in E as [E|(dns & _ & E)].
  { destruct (fetch_anchor resolver h) as [|[]] eqn:Ef; [done|..]; injection E as <-; [by left|].
    right; right; right. eauto. }
  apply bind_err_iff in E as [E|([] & _ & E)]; [left; by eapply Hr, E|].
  destruct (select_total us l Hls) as [ks Hks]. rewrite (proj2 (field_ok _ _ _) Hl), bind_Ok, Hks, bind_Ok in E.
  apply bind_err_iff in E as [E|([] & _ & E)]; [left; by eapply Hr, E|].
  rewrite (proj2 (field_ok _ _ _) Hblk), bind_Ok, (proj2 (item_text_ok (JObj blk) _ _) (ex_intro _ blk (conj eq_refl Hsh))), bind_Ok in E.
  apply bind_err_iff in E as [E|(sig & _ & E)]; [left; by eapply Ho, E|].
  rewrite (proj2 (field_text_ok _ _ _) Hrh), bind_Ok in E.
  apply bind_err_iff in E as [E|(root & _ & E)]; [left; by eapply Ho, E|].
  rewrite Hm, bind_Ok in E. apply bind_err_iff in E as [E|(valid & _ & E)].
  { left. unfold _verify_ed25519 in E. do 2 (apply bind_err_iff in E as [E|([] & _ & E)]; [by eapply Hr, E|]). done. }
  apply bind_err_iff in E as [E|([] & _ & E)]; [left; by eapply Hr, E|done].
Qed.

(** ** Binding *)

(** Two values without floats that the package writes alike differ at most in
    the order of members. *)
Class Rfc8785Binds : Prop :=
  rfc8785_binds f j1 j2 b :
    rfc8785_dumps = Some f → json_wf j1 → json_wf j2 → f j1 = Some b → f j2 = Some b → json_sort j1 = json_sort j2.
End accepted.
Arguments Rfc8785Binds {_}.

(** The fallback of the signing module is such a package. *)
Lemma jcs_binds : @Rfc8785Binds Jcs.jcs_rfc8785.
Proof.
  intros f j1 j2 b [= <-] H1 H2 E1 E2.
  apply canonical_bytes_same; [done..|]. destruct (Jcs.canonicalize j1), (Jcs.canonicalize j2); congruence.
Qed.

Section binding.
Context `{Sha256, Rfc8785, Ed25519}.

(** The local text is that of the standard library. *)
Lemma local_jcs_text j : json_wf j → _local_jcs_impl j = Ok (json_dumps false true j).
Proof.
  unfold json_dumps. induction j as [|[]|z|f|s|l IH|d IH] using json_ind'; intros Hj; try done; cbn [_local_jcs_impl json_sort json_print].
  - apply json_wf_list in Hj.
    assert (mapM _local_jcs_impl l = Ok (json_print (quote false) <$> (json_sort <$> l))) as ->; [|by rewrite bind_Ok].
    apply mapM_ok. rewrite <- list_fmap_compose. apply Forall2_fmap_r, Forall_Forall2_diag.
    apply (Forall_mp _ _ _ _ IH Hj). auto.
  - apply json_wf_obj in Hj as [_ Hj].
    assert (mapM (λ kv : str * json, t ← _local_jcs_impl kv.2; Ok (kv.1, t)) d =
      Ok ((λ kv, (kv.1, json_print (quote false) kv.2)) <$> ((λ kv, (kv.1, json_sort kv.2)) <$> d))) as ->.
    { apply mapM_ok. rewrite <- list_fmap_compose. apply Forall2_fmap_r, Forall_Forall2_diag.
      apply (Forall_mp _ _ _ _ IH Hj). intros [k v] Hv [_ Hw]. cbn in *. by rewrite Hv. }
    rewrite bind_Ok. do 3 f_equal. rewrite <- (py_sorted_fmap key_leb item_leb) by done.
    rewrite <- list_fmap_compose. done.
Qed.

Context `{!Rfc8785Binds}.

Lemma canonicalise_binds j1 j2 b :
  json_wf j1 → json_wf j2 → _jcs_canonicalise j1 = Ok b → _jcs_canonicalise j2 = Ok b → json_sort j1 = json_sort j2.
Proof.
  unfold _jcs_canonicalise. intros W1 W2. destruct rfc8785_dumps as [f|] eqn:Ef.
  - rewrite !of_option_ok. by apply rfc8785_binds.
  - unfold _local_jcs. rewrite !local_jcs_text by done. rewrite !bind_Ok, !of_option_ok. intros E1 E2.
    apply (json_dumps_sorted_inj false); [by apply json_wf_ok..|]. by eapply utf8_encode_inj.
Qed.

Lemma body_wf d : json_wf (JObj d) → json_wf (body_of d).
Proof.
  rewrite json_wf_obj. intros [Hnd Hall]. unfold body_of. apply json_wf_obj.
  assert (sublist (dict_pop d (u "document_signature")) d) as Hsub by apply sublist_filter. split.
  - eapply sublist_NoDup; [exact Hnd|]. by apply (fmap_sublist fst).
  - rewrite Forall_forall in *. intros kv Hkv. apply Hall. by apply list_elem_of_filter in Hkv as [_ ?].
Qed.

(** What is accepted under one name is one document: its bodies are equal up to
    the order of members, so it has one identifier, whatever else was asked
    for; otherwise the canonical texts of the two bodies collide. *)
Theorem one_document_per_name resolver b1 b2 id1 id2 now1 now2 r1 r2 :
  verify_document resolver b1 id1 now1 = Ok r1 → verify_document resolver b2 id2 now2 = Ok r2 →
  anchor_host r1 = anchor_host r2 → json_wf (JObj (ftd_doc r1)) → json_wf (JObj (ftd_doc r2)) →
  json_sort (body_of (ftd_doc r1)) = json_sort (body_of (ftd_doc r2)) ∧ id1 = id2 ∨
  collision_in sha256 (ok_list (_jcs_canonicalise (body_of (ftd_doc r1))) ++
    ok_list (_jcs_canonicalise (body_of (ftd_doc r2)))).
Proof.
  intros (<- & t1 & d1 & _ & _ & _ & T1)%document_accepted_iff (<- & t2 & d2 & _ & _ & _ & T2)%document_accepted_iff Hh W1 W2.
  pose proof (tr_anchor _ _ _ _ T1) as A1. pose proof (tr_anchor _ _ _ _ T2) as A2. rewrite Hh, A2 in A1.
  injection A1 as Hfp. destruct (tr_body _ _ _ _ T1) as (m1 & _ & _ & _ & _ & _ & C1 & F1 & _).
  destruct (tr_body _ _ _ _ T2) as (m2 & _ & _ & _ & _ & _ & C2 & F2 & _).
  rewrite (tr_doc _ _ _ _ T1), (tr_doc _ _ _ _ T2) in *. rewrite C1, C2.
  rewrite F1, F2 in Hfp. apply hex_inj, (eq_or_pair_collision sha256) in Hfp as [->|Hc];
    [left|right; revert Hc; apply collision_in_mono; set_solver].
  pose proof (canonicalise_binds _ _ _ (body_wf _ W1) (body_wf _ W2) C1 C2) as E. split; [done|].
  apply body_wf in W1, W2. unfold body_of in E, W1, W2. apply json_wf_obj in W1 as [N1 _], W2 as [N2 _].
  apply JStr_inj. eapply (sorted_objects_field _ _ (u "id")); [exact N1|exact N2| | |exact E];
    rewrite dict_get_pop, decide_False by (apply (bool_decide_unpack _); by vm_compute).
  - by apply (tr_id _ _ _ _ T1).
  - by apply (tr_id _ _ _ _ T2).
Qed.
End binding.

(** ** The cache *)

Section cached.
Context `{Sha256, Rfc8785, Ed25519}.

(** A call of the verifier: the zones as they were, and the clocks. *)
Record call := MkCall {
  c_resolver : TxtResolver; c_bytes : bytes; c_id : str; c_now : datetime; c_get : datetime; c_put : datetime }.
Inductive request : Type := Verify (c : call) | Poison (ftd_id : str).

Definition fresh (c : call) : result ftd_error VerifyResult :=
  verify_document (c_resolver c) (c_bytes c) (c_id c) (c_now c).

Definition answer (cache : FTDCache) (q : request) : FTDCache * option (result ftd_error VerifyResult) :=
  match q with
  | Verify c => let '(cache', r) := verify_cached (c_resolver c) (c_bytes c) (c_id c) (c_now c) (c_get c) (c_put c) cache in
                (cache', Some r)
  | Poison i => ((poison i cache).1, None)
  end.

Fixpoint serve (cache : FTDCache) (qs : list request) : FTDCache * list (option (result ftd_error VerifyResult)) :=
  match qs with
  | [] => (cache, [])
  | q :: qs => let '(cache', a) := answer cache q in
               let '(cache'', answers) := serve cache' qs in (cache'', a :: answers)
  end.

(** When an answer may be served last. *)
Definition served_until (margin : Z) (r : VerifyResult) (t : datetime) : Prop :=
  ∃ j x, dict_get (ftd_doc r) (u "expires") = Some j ∧ _parse_rfc3339 j = Ok x ∧ cutoff margin x = Ok t.

(** [r] was verified for [i] by one of the requests, and not withdrawn since. *)
Definition verified_in (qs : list request) (i : str) (r : VerifyResult) : Prop :=
  ∃ pre c post, qs = pre ++ Verify c :: post ∧ c_id c = i ∧ fresh c = Ok r ∧ Poison i ∉ post.

Definition cache_ok (margin : Z) (qs : list request) (cache : FTDCache) : Prop :=
  _refresh_margin_s cache = margin ∧
  ∀ i e, _entries cache !! i = Some e → verified_in qs i (result_of e) ∧ served_until margin (result_of e) (cache_until e).

Lemma verified_later qs i r q : q ≠ Poison i → verified_in qs i r → verified_in (qs ++ [q]) i r.
Proof.
  intros Hq (pre & c & post & -> & Hi & Hr & Hp). exists pre, c, (post ++ [q]). split_and!; [|done..|].
  - by rewrite <- app_assoc.
  - rewrite elem_of_app, list_elem_of_singleton. naive_solver.
Qed.

Lemma cache_ok_verify margin qs cache c : cache_ok margin qs cache → cache_ok margin (qs ++ [Verify c]) cache.
Proof.
  intros [Hm Hok]. split; [done|]. intros i e Hi. destruct (Hok _ _ Hi) as [Hv Hs]. split; [|done].
  by apply verified_later.
Qed.

Lemma cache_ok_drop margin qs cache i :
  cache_ok margin qs cache → cache_ok margin (qs ++ [Poison i]) (drop_entry i cache) ∧ cache_ok margin qs (drop_entry i cache).
Proof.
  intros [Hm Hok]. split; (split; [done|]); intros i' e; cbn [drop_entry _entries];
    rewrite lookup_delete_Some; intros [Hne Hi]; destruct (Hok _ _ Hi) as [Hv Hs]; (split; [|done]); [|done].
  apply verified_later; [congruence|done].
Qed.

Lemma cache_get_ok margin qs cache now i cache' res :
  cache_ok margin qs cache → cache_get now i cache = (cache', res) →
  cache_ok margin qs cache' ∧
  ∀ r, res = Ok (Some r) → verified_in qs i r ∧ ∃ t, served_until margin r t ∧ dt_lt now t = Some true.
Proof.
  intros Hc. unfold cache_get. destruct (_entries cache !! i) as [e|] eqn:Ei; [|intros [= <- <-]; by split].
  destruct (proj2 Hc _ _ Ei) as [Hv Hs].
  destruct (before now (cache_until e)) as [[]|err] eqn:Eb; intros [= <- <-].
  - split; [done|]. intros r [= <-]. split; [done|]. exists (cache_until e). split; [done|]. by apply of_option_ok in Eb.
  - split; [by apply cache_ok_drop|done].
  - by split.
Qed.

Lemma fresh_ok margin qs cache c cache' res :
  cache_ok margin qs cache →
  (result ← lift (fresh c); cache_put (c_put c) result;; mret result) cache = (cache', res) →
  cache_ok margin (qs ++ [Verify c]) cache' ∧ ∀ r, res = Ok r → fresh c = Ok r.
Proof.
  intros Hc. unfold mbind at 1, stm_bind at 1, lift. destruct (fresh c) as [r|err] eqn:Er;
    [|intros [= <- <-]; split; [by apply cache_ok_verify|done]].
  unfold mbind, stm_bind, cache_put.
  destruct (exp ← field (ftd_doc r) (u "expires"); _) as [[t []]|err] eqn:Et; intros [= <- <-];
    (split; [|by intros ? [= <-]]); try by apply cache_ok_verify.
  apply bind_ok_iff in Et as (j & Hj%field_ok & Et). apply bind_ok_iff in Et as (x & Hx%plain_time_ok & Et).
  apply bind_ok_iff in Et as (t' & Ht & Et). apply bind_ok_iff in Et as (later & _ & [= -> _]).
  destruct Hc as [Hm Hok]. split; [done|]. intros i e. cbn [_entries]. rewrite lookup_insert_Some.
  pose proof Er as (Hid & _)%document_accepted_iff.
  intros [[<- <-]|[Hne Hi]].
  - cbn [result_of cache_until]. split.
    + exists qs, c, []. split_and!; [done|by rewrite Hid|done|apply not_elem_of_nil].
    + exists j, x. split_and!; [done..|congruence].
  - destruct (Hok _ _ Hi) as [Hv Hs]. split; [|done]. by apply verified_later.
Qed.

(** The state of the cache is invariant, and an answer is new or was served in
    time. *)
Lemma answer_ok margin qs cache q cache' a :
  cache_ok margin qs cache → answer cache q = (cache', a) →
  cache_ok margin (qs ++ [q]) cache' ∧
  ∀ c r, q = Verify c → a = Some (Ok r) →
    fresh c = Ok r ∨ (verified_in qs (c_id c) r ∧ ∃ t, served_until margin r t ∧ dt_lt (c_get c) t = Some true).
Proof.
  intros Hc. destruct q as [c|i]; cbn [answer].
  - destruct (verify_cached _ _ _ _ _ _ cache) as [cache1 res] eqn:Ev. intros [= <- <-].
    unfold verify_cached in Ev. unfold mbind at 1, stm_bind at 1 in Ev.
    destruct (cache_get (c_get c) (c_id c) cache) as [cache0 got] eqn:Eg.
    destruct (cache_get_ok _ _ _ _ _ _ _ Hc Eg) as [Hc0 Hgot].
    destruct got as [[r|]|err].
    + injection Ev as <- <-. split; [by apply cache_ok_verify|]. intros c' r' [= <-] [= <-]. right. by apply Hgot.
    + destruct (fresh_ok _ _ _ _ _ _ Hc0 Ev) as [Hc1 Hr]. split; [done|]. intros c' r' [= <-] [= ->]. left. by apply Hr.
    + injection Ev as <- <-. split; [by apply cache_ok_verify|done].
  - intros [= <- <-]. split; [exact (proj1 (cache_ok_drop _ _ _ i Hc))|done].
Qed.

Lemma serve_ok margin qs0 cache qs : 
  cache_ok margin qs0 cache →
  ∀ i c r, qs !! i = Some (Verify c) → (serve cache qs).2 !! i = Some (Some (Ok r)) →
    fresh c = Ok r ∨
    (verified_in (qs0 ++ take i qs) (c_id c) r ∧ ∃ t, served_until margin r t ∧ dt_lt (c_get c) t = Some true).
Proof.
  revert qs0 cache. induction qs as [|q qs IH]; intros qs0 cache Hc i c r Hi Hr; [done|].
  cbn [serve] in Hr. destruct (answer cache q) as [cache' a] eqn:Ea. destruct (answer_ok _ _ _ _ _ _ Hc Ea) as [Hc' Hans].
  destruct (serve cache' qs) as [cache'' answers] eqn:Es. cbn [snd] in Hr. destruct i as [|i].
  - injection Hi as ->. injection Hr as ->. rewrite take_0, app_nil_r. by apply Hans.
  - cbn [take]. change (q :: take i qs) with ([q] ++ take i qs). rewrite app_assoc. apply (IH _ _ Hc'); [done|]. by rewrite Es.
Qed.

(** C32: Every answer of a verifier with a cache is one of the call itself, or was
    verified by an earlier call for the same identifier that was not withdrawn
    since; then it is served before it expires, less the margin, as exactly as
    floats count. *)
Theorem cached_answers margin qs i c r :
  qs !! i = Some (Verify c) → (serve (new_cache margin) qs).2 !! i = Some (Some (Ok r)) →
  fresh c = Ok r ∨
  (verified_in (take i qs) (c_id c) r ∧ ∃ g x j, c_get c = Aware g ∧
     dict_get (ftd_doc r) (u "expires") = Some j ∧ _parse_rfc3339 j = Ok (Aware x) ∧
     (margin ≤ 0 → g < x) ∧ (0 < margin ≤ 1000000000 → g < x - margin * 1000000 + 60)).
Proof.
  intros Hi Hr. destruct (serve_ok margin [] (new_cache margin) qs) with (i := i) (c := c) (r := r)
    as [?|[Hv (t & (j & x & Hj & Hx & Ht) & Hlt)]]; [|done|done|by left|].
  { split; [done|]. intros i' e. cbn. by rewrite lookup_empty. }
  right. split; [done|]. destruct (parse_aware _ _ Hx) as (xs & -> & Hcal).
  unfold cutoff in Ht. destruct (Z.leb_spec margin 0) as [Hm|Hm].
  - injection Ht as <-. destruct (c_get c) as [g|g]; [|done]. injection Hlt as Hlt%Z.ltb_lt.
    exists g, xs, j. split_and!; [done..|lia].
  - apply bind_ok_iff in Ht as ([] & _ & Ht). apply bind_ok_iff in Ht as ([] & _ & <-%Ok_inj).
    destruct (c_get c) as [g|g]; [|done]. injection Hlt as Hlt%Z.ltb_lt.
    exists g, xs, j. split_and!; [done..|lia|]. intros Hm2. pose proof (minus_seconds_near xs margin Hcal Hm2). lia.
Qed.
End cached.

Module FtdExample.

(** A short hash and plain signatures keep the examples small; the [rfc8785]
    package is missing. *)
#[local] Existing Instance checksum_sha256.
#[local] Existing Instance plain_ed25519.
#[local] Instance no_package : Rfc8785 := {| rfc8785_dumps := None |}.

#[local] Instance no_package_binds : Rfc8785Binds.
Proof. intros f j1 j2 b [=]. Qed.

Definition T0 : Z := 1767225600000000.   (* 2026-01-01T00:00:00Z *)
Definition hour : Z := 3600000000.
Definition root : bytes := replicate 32 Byte.x6b.
Definition host : str := u "_wakir-ftd.a.net".
Definition the_id : str := u "did:web:b.org:ftd:v1".

Definition issuer_key : dict :=
  [(u "kid", JStr (u "k1")); (u "alg", JStr (u "Ed25519")); (u "public_key", JStr (replicate 64 97));
   (u "purpose", JStr (u "biscuit-root")); (u "valid_from", JStr (u "2026-01-01T00:00:00Z"));
   (u "valid_until", JStr (u "2026-01-01T02:00:00Z"))].

(** The members but the signature; the host is in another zone than the
    identifier. *)
Definition body_with (root_hex : str) (issued : str) (extra : dict) : dict :=
  [(u "wakir_ftd", JStr (u "0.1.0")); (u "id", JStr the_id); (u "domain", JStr (u "b.org"));
   (u "issued_at", JStr issued); (u "expires", JStr (u "2026-01-02T00:00:00Z"));
   (u "ftd_root_pubkey", JStr root_hex); (u "issuer_keys", JList [JObj issuer_key]);
   (u "anchor", JObj [(u "kind", JStr (u "dns-txt")); (u "host", JStr host);
                      (u "fingerprint_sha256", JStr (replicate 64 48))])] ++ extra.
Definition body : dict := body_with (hex root) (u "2026-01-01T00:00:00Z") [].
Definition digest : bytes := Eval vm_compute in
  match _jcs_canonicalise (JObj body) with Ok m => sha256 m | Err _ => [] end.
Definition signed (b : dict) : dict :=
  b ++ [(u "document_signature",
         JObj [(u "alg", JStr (u "Ed25519")); (u "kid", JStr (u "root")); (u "signature", JStr (hex (ed_sign root digest)))])].

(** One document in two texts. *)
Definition text_of (d : dict) : bytes := default [] (utf8_encode (json_dumps false false (JObj d))).
Definition bytes1 : bytes := Eval vm_compute in text_of (signed body).
Definition bytes2 : bytes := Eval vm_compute in text_of (reverse (signed body)).
Definition zone : TxtResolver := λ h,
  if str_eqb h host then Ok [u "v=1; sha256=" ++ hex digest] else Err DnsAnchorError.

Definition issued_key : ValidIssuerKey :=
  MkIssuerKey (JStr (u "k1")) (JStr (replicate 64 97)) (JStr (u "biscuit-root")) (Aware T0) (Some (Aware (T0 + 2 * hour))).
Definition answer_of (d : dict) (now : Z) : VerifyResult :=
  MkResult the_id d (hex digest) [issued_key] host (Aware now).

Lemma accepted1 : verify_document zone bytes1 the_id (Aware T0) = Ok (answer_of (signed body) T0).
Proof. by vm_compute. Qed.
Lemma accepted2 :
  verify_document zone bytes2 the_id (Aware (T0 + hour)) = Ok (answer_of (reverse (signed body)) (T0 + hour)).
Proof. by vm_compute. Qed.

Lemma signed_wf : json_wf (JObj (signed body)).
Proof. split; [apply (bool_decide_unpack _); by vm_compute|]. cbn. repeat split; apply (bool_decide_unpack _); by vm_compute. Qed.

Lemma one_document_per_name_witness :
  json_sort (body_of (signed body)) = json_sort (body_of (reverse (signed body))) ∧ the_id = the_id ∨
  collision_in sha256 (ok_list (_jcs_canonicalise (body_of (signed body))) ++
    ok_list (_jcs_canonicalise (body_of (reverse (signed body))))).
Proof.
  apply (one_document_per_name zone bytes1 bytes2 the_id the_id (Aware T0)
           (Aware (T0 + hour)) (answer_of (signed body) T0) (answer_of (reverse (signed body)) (T0 + hour))).
  - exact accepted1.
  - exact accepted2.
  - done.
  - exact signed_wf.
  - split; [apply (bool_decide_unpack _); by vm_compute|]. cbn. repeat split; apply (bool_decide_unpack _); by vm_compute.
Defined.

(** A day later the document has expired. *)
Lemma errors_documented_witness :
  documented FTDExpiredError ∨ FTDExpiredError = FtdOverflowError ∨
  (∃ d, shape d ∧ _jcs_canonicalise (body_of d) = Err FTDExpiredError) ∨
  (FTDExpiredError = FtdResolver ∧ ∃ h, fetch_anchor zone h = Err DnsUncaught).
Proof. apply (errors_documented zone bytes1 the_id (T0 + 24 * hour)). by vm_compute. Defined.

Definition ask (now : Z) : call := MkCall zone bytes1 the_id (Aware now) (Aware now) (Aware now).
Definition requests : list request := [Verify (ask T0); Verify (ask (T0 + 3 * hour))].

(** The second answer is the first. *)
Lemma answers_eq :
  (serve (new_cache DEFAULT_FTD_CACHE_REFRESH_MARGIN_S) requests).2 =
  [Some (Ok (answer_of (signed body) T0)); Some (Ok (answer_of (signed body) T0))].
Proof. by vm_compute. Qed.

Lemma cached_answers_witness :
  let r := answer_of (signed body) T0 in
  fresh (ask (T0 + 3 * hour)) = Ok r ∨
  (verified_in [Verify (ask T0)] the_id r ∧ ∃ g x j, Aware (T0 + 3 * hour) = Aware g ∧
     dict_get (signed body) (u "expires") = Some j ∧ _parse_rfc3339 j = Ok (Aware x) ∧
     (DEFAULT_FTD_CACHE_REFRESH_MARGIN_S ≤ 0 → g < x) ∧
     (0 < DEFAULT_FTD_CACHE_REFRESH_MARGIN_S ≤ 1000000000 → g < x - DEFAULT_FTD_CACHE_REFRESH_MARGIN_S * 1000000 + 60)).
Proof.
  apply (cached_answers DEFAULT_FTD_CACHE_REFRESH_MARGIN_S requests 1%nat (ask (T0 + 3 * hour))); [done|].
  by rewrite answers_eq.
Defined.

(** The cache still hands out a key whose window has closed; a verification at
    that time refuses the document. *)
Example expired_key_served :
  (serve (new_cache DEFAULT_FTD_CACHE_REFRESH_MARGIN_S) requests).2 !! 1%nat = Some (Some (Ok (answer_of (signed body) T0))) ∧
  dt_lt (Aware (T0 + 3 * hour)) (Aware (T0 + 2 * hour)) = Some false ∧
  fresh (ask (T0 + 3 * hour)) = Err FTDIssuerKeyError.
Proof. split_and!; [by rewrite answers_eq|done|by vm_compute]. Qed.

(** Nothing ties the host of the anchor to the identifier or the domain: who
    holds [a.net] is accepted for [b.org]. *)
Example foreign_zone :
  host = u "_wakir-ftd.a.net" ∧ the_id = u "did:web:b.org:ftd:v1" ∧
  is_ok (verify_document zone bytes1 the_id (Aware T0)) = true.
Proof. split_and!; [done..|]. by rewrite accepted1. Qed.

(** The patterns let a final newline pass. *)
Example newline_passes :
  is_ok (_structural_validate (JObj (signed (body_with (hex root ++ [10]) (u "2026-01-01T00:00:00Z") [])))) = true.
Proof. by vm_compute. Qed.

(** A time whose conversion to UTC leaves the calendar is no schema error. *)
Example overflow_escapes :
  _structural_validate (JObj (signed (body_with (hex root) (u "0001-01-01T00:00:00+01:00") []))) = Err FtdOverflowError.
Proof. by vm_compute. Qed.

(** A float in a further member has no canonical form without the package. *)
Example float_escapes :
  let d := signed (body_with (hex root) (u "2026-01-01T00:00:00Z") [(u "note", JFloat (float_of_decimal false 15 (-1)))]) in
  is_ok (_structural_validate (JObj d)) = true ∧ compute_ftd_fingerprint_from_body d = Err FtdTypeError.
Proof. split; by vm_compute. Qed.
End FtdExample.
