(* ===== verification/FederatedResolve.v ===== *)
(** * Federated resolution of agent documents
      ([wirelang/identity/federation_resolver.py])

    A trust document is verified or taken from the cache ([FtdVerify]), the host
    of the agent's identifier is compared with its domain, the agent's document
    is fetched by a resolver of the caller, and its key is looked up among the
    issuer keys.  [str.lower], the NFKC form and the addresses that may stand
    between brackets are a class; the rest of [urlsplit] is modelled for the
    addresses that reach it.

    The theorem: what is resolved rests on a trust document that was verified,
    now or by an earlier call that was not withdrawn since, names the host as
    its domain and lists the agent's key. *)

From S2P Require Import Prelude PyStr PyJson PyJsonLoads PyDyn PyTime Sha256 Merkle Signing DnsAnchor FtdVerify.
From Stdlib Require Import ZArith Lia.
Import DnsAnchor.DnsAnchor FtdVerify.FtdVerify.

Open Scope Z_scope.

(** The tables of the Unicode database, and the hosts that the standard library
    accepts between brackets: addresses of IP version 6 or of a later one. *)
Class Unicode := { lower : str → str; nfkc : str → str; bracketed_host : str → bool }.

(** [AIPDocumentLike] *)
Record AIPDocumentLike := MkAip {
  aip_doc_id : str; aip_doc_body : dict; jcs_sha256 : str; biscuit_root_pubkey_hex : str }.

(** [E] are the exceptions of the caller's resolver. *)
Inductive federated_error (E : Type) : Type :=
| FtdLayer (e : ftd_error)
| FTDDomainMismatchError
| FederatedIssuerKeyError
| AipLayer (e : E)
| KeyAttributeError.   (* a key that is no text *)
Arguments FtdLayer {E} e.
Arguments FTDDomainMismatchError {E}.
Arguments FederatedIssuerKeyError {E}.
Arguments AipLayer {E} e.
Arguments KeyAttributeError {E}.

Module FederatedResolve.

Record FederatedResolveResult := MkFederated {
  aip_id : str;
  federated_ftd_id : str;
  aip_body : dict;
  aip_jcs_sha256 : str;
  ftd_fingerprint_sha256 : str;
  federated_root_pubkey_hex : str;
  matched_issuer_kid : json;
  federated_verified_at : datetime;
}.

Section resolver.
Context `{Unicode}.

(** ** Hosts *)

(** [s.partition(c)]: the text before the first [c], whether there is one, and
    the text behind it. *)
Definition partition (c : Z) (s : str) : str * bool * str :=
  match span (λ x, negb (x =? c)) s with
  | (a, _ :: r) => (a, true, r)
  | (a, []) => (a, false, [])
  end.

(** [s.rpartition(c)[2]] *)
Definition after_last (c : Z) (s : str) : str :=
  reverse (span (λ x, negb (x =? c)) (reverse s)).1.

(** [_checknetloc]: a text that is normalised to one with separators. *)
Definition netloc_ok (netloc : str) : bool :=
  str_empty netloc || forallb (in_range 0 127) netloc ||
  let n := filter (λ c, c ∉ u "@:#?") netloc in
  str_eqb n (nfkc n) || negb (existsb (λ c, bool_decide (c ∈ u "/?#@:")) (nfkc n)).

(** [_check_bracketed_netloc] *)
Definition brackets_ok (netloc : str) : bool :=
  let host_and_port := after_last 64 netloc in
  let '(before_bracket, have_open_br, bracketed) := partition 91 host_and_port in
  if have_open_br then
    let '(hostname, _, port) := partition 93 bracketed in
    str_empty before_bracket && (str_empty port || startswith port [58]) && bracketed_host hostname
  else
    let '(hostname, _, _) := partition 58 host_and_port in bracketed_host hostname.

(** [urlsplit(url)] of an address with one of the two schemes: its [netloc];
    [None] is ValueError. *)
Definition url_netloc (url : str) : option str :=
  let url := filter (λ c, c ∉ [9; 10; 13]) url in
  let '(_, _, rest) := partition 58 url in
  let netloc := (span (λ c, negb (bool_decide (c ∈ u "/?#"))) (drop 2 rest)).1 in
  if xorb (bool_decide (91 ∈ netloc)) (bool_decide (93 ∈ netloc)) then None
  else if bool_decide (91 ∈ netloc) && negb (brackets_ok netloc) then None
  else if netloc_ok netloc then Some netloc else None.

(** [_hostinfo]; an empty port is none. *)
Definition host_info (netloc : str) : str * str :=
  let hostinfo := after_last 64 netloc in
  let '(_, have_open_br, bracketed) := partition 91 hostinfo in
  if have_open_br then
    let '(hostname, _, port) := partition 93 bracketed in
    let '(_, _, port) := partition 58 port in (hostname, port)
  else
    let '(hostname, _, port) := partition 58 hostinfo in (hostname, port).

(** [parts.hostname or ''] *)
Definition url_hostname (netloc : str) : str :=
  let '(hostname, percent, zone) := partition 37 (host_info netloc).1 in
  lower hostname ++ (if percent then [37] else []) ++ zone.

(** [parts.port]: none is 0, the caller tests its truth. *)
Definition url_port (netloc : str) : option Z :=
  let port := (host_info netloc).2 in
  if str_empty port then Some 0
  else if forallb is_digit port then
    let p := digits_val port in if p <=? 65535 then Some p else None
  else None.

(** [None] is ValueError. *)
Definition _aip_url_host (aip_id : str) : option str :=
  if str_empty aip_id then None
  else if startswith aip_id (u "https://") || startswith aip_id (u "http://") then
    netloc ← url_netloc aip_id;
    let host := url_hostname netloc in
    port ← url_port netloc;
    let host := if port =? 0 then host else host ++ [58] ++ int_repr port in
    if str_empty host then None else Some host
  else if startswith aip_id (u "aip:web:") then
    let rest := drop (length (u "aip:web:")) aip_id in
    let host := (span (λ c, negb (c =? 47)) rest).1 in
    if str_empty host then None else Some (lower host)
  else None.

(** ** Keys *)

Section pipeline.
Context `{Sha256, Rfc8785, Ed25519} {E : Type}.

Fixpoint _match_issuer_key (target : str) (valid_issuer_keys : list ValidIssuerKey)
    : result (federated_error E) (option ValidIssuerKey) :=
  match valid_issuer_keys with
  | [] => Ok None
  | entry :: keys =>
      if negb (py_eq (purpose entry) (JStr (u "biscuit-root"))) then _match_issuer_key target keys
      else
        match public_key_hex entry with
        | JStr s => if str_eqb (lower s) target then Ok (Some entry) else _match_issuer_key target keys
        | _ => Err KeyAttributeError
        end
  end.

(** ** The pipeline *)

(** The steps behind the trust document. *)
Definition resolve_under (aip_resolver : str → result E AIPDocumentLike) (uri : str) (now : datetime)
    (ftd_result : VerifyResult) : result (federated_error E) FederatedResolveResult :=
  aip_host ← of_option FTDDomainMismatchError (_aip_url_host uri);
  match default (JStr []) (dict_get (ftd_doc ftd_result) (u "domain")) with
  | JStr ftd_domain =>
      raise_if (str_empty ftd_domain) FTDDomainMismatchError;;
      raise_if (negb (str_eqb (lower aip_host) (lower ftd_domain))) FTDDomainMismatchError;;
      aip_doc ← map_err AipLayer (aip_resolver uri);
      matched ← _match_issuer_key (lower (biscuit_root_pubkey_hex aip_doc)) (valid_issuer_keys ftd_result);
      matched ← of_option FederatedIssuerKeyError matched;
      Ok (MkFederated (aip_doc_id aip_doc) (ftd_id ftd_result) (aip_doc_body aip_doc) (jcs_sha256 aip_doc)
            (fingerprint_sha256 ftd_result) (biscuit_root_pubkey_hex aip_doc) (kid matched) now)
  | _ => Err FTDDomainMismatchError
  end.

Definition ftd_layer {A} (m : stm FTDCache ftd_error A) : stm FTDCache (federated_error E) A :=
  catch m (λ e, throw (FtdLayer e)).

(** With a cache; the cache is asked here and, on a miss, once more by the
    verifier.  The clocks of the cache: [at_ask], then those of the call. *)
Definition resolve_cached (resolver : TxtResolver) (ftd_doc_jcs_bytes : bytes) (id : str)
    (aip_resolver : str → result E AIPDocumentLike) (uri : str) (now at_ask at_get at_put : datetime)
    : stm FTDCache (federated_error E) FederatedResolveResult :=
  cached ← ftd_layer (cache_get at_ask id);
  ftd_result ← match cached with
               | Some r => mret r
               | None => ftd_layer (verify_cached resolver ftd_doc_jcs_bytes id now at_get at_put)
               end;
  lift (resolve_under aip_resolver uri now ftd_result).

Definition resolve_federated_aip (resolver : TxtResolver) (ftd_doc_jcs_bytes : bytes) (id : str)
    (aip_resolver : str → result E AIPDocumentLike) (uri : str) (now at_ask at_get at_put : datetime)
    (ftd_cache : option FTDCache) : option FTDCache * result (federated_error E) FederatedResolveResult :=
  match ftd_cache with
  | None => (None, r ← map_err FtdLayer (verify_document resolver ftd_doc_jcs_bytes id now);
                   resolve_under aip_resolver uri now r)
  | Some c =>
      let '(c', r) := resolve_cached resolver ftd_doc_jcs_bytes id aip_resolver uri now at_ask at_get at_put c in
      (Some c', r)
  end.
End pipeline.
End resolver.
End FederatedResolve.

Import FederatedResolve.

Section soundness.
Context `{Unicode, Sha256, Rfc8785, Ed25519} {E : Type}.

(** What a result says: the host is the domain of a trust document, and the
    key of the agent's document is among its issuer keys. *)
Record vouched (aip_resolver : str → result E AIPDocumentLike) (uri : str) (r : VerifyResult)
    (x : FederatedResolveResult) : Prop := {
  v_domain : ∃ host domain, _aip_url_host uri = Some host ∧ dict_get (ftd_doc r) (u "domain") = Some (JStr domain) ∧
    domain ≠ [] ∧ lower host = lower domain;
  v_document : aip_resolver uri =
    Ok (MkAip (aip_id x) (aip_body x) (aip_jcs_sha256 x) (federated_root_pubkey_hex x));
  v_key : ∃ k s, k ∈ valid_issuer_keys r ∧ purpose k = JStr (u "biscuit-root") ∧ kid k = matched_issuer_kid x ∧
    public_key_hex k = JStr s ∧ lower s = lower (federated_root_pubkey_hex x);
  v_trust : federated_ftd_id x = ftd_id r ∧ ftd_fingerprint_sha256 x = fingerprint_sha256 r;
}.

Lemma match_key_some target ks k :
  _match_issuer_key (E:=E) target ks = Ok (Some k) →
  k ∈ ks ∧ purpose k = JStr (u "biscuit-root") ∧ ∃ s, public_key_hex k = JStr s ∧ lower s = target.
Proof.
  induction ks as [|k' ks IH]; [done|]. cbn [_match_issuer_key].
  destruct (py_eq (purpose k') _) eqn:Ep; cbn [negb].
  - apply py_eq_str_r in Ep. destruct (public_key_hex k') as [| | | |s| |] eqn:Ek; try done.
    destruct (str_eqb (lower s) target) eqn:Es.
    + intros [= ->]. apply bool_decide_eq_true in Es. split_and!; [by left|done|by exists s].
    + intros (Hin & Hrest)%IH. split; [by right|done].
  - intros (Hin & Hrest)%IH. split; [by right|done].
Qed.

Lemma resolve_under_vouched aip_resolver uri now r x :
  resolve_under (E:=E) aip_resolver uri now r = Ok x → vouched aip_resolver uri r x ∧ federated_verified_at x = now.
Proof.
  unfold resolve_under. intros Hx. apply bind_ok_iff in Hx as (host & Hhost%of_option_ok & Hx).
  destruct (dict_get (ftd_doc r) (u "domain")) as [j|] eqn:Ed; cbn [default] in Hx; [|done].
  destruct j as [| | | |domain| |]; try done. cbn [id] in Hx.
  apply bind_ok_iff in Hx as ([] & Hne%raise_if_ok & Hx).
  apply bind_ok_iff in Hx as ([] & Heq%raise_if_ok%negb_false_iff & Hx). apply bool_decide_eq_true in Heq.
  apply bind_ok_iff in Hx as (d & Hd%map_err_ok & Hx). apply bind_ok_iff in Hx as (m & Hm & Hx).
  apply bind_ok_iff in Hx as (k & ->%of_option_ok & <-%Ok_inj).
  apply match_key_some in Hm as (Hin & Hp & s & Hs & Hl). split; [|done]. split; cbn.
  - exists host, domain. split_and!; [done..| |done]. by destruct domain.
  - by destruct d.
  - exists k, s. done.
  - done.
Qed.

(** C33: With a cache that has the history of its requests, a result is vouched for
    by a trust document that was verified by this call, or by an earlier one for
    the same identifier that was not withdrawn since and is served in time; and
    the cache stays as it should be. *)
Theorem federated_sound margin qs cache resolver b id aip_resolver uri now at_ask at_get at_put cache' x :
  cache_ok margin qs cache →
  resolve_cached (E:=E) resolver b id aip_resolver uri now at_ask at_get at_put cache = (cache', Ok x) →
  ∃ r, vouched aip_resolver uri r x ∧ ftd_id r = id ∧
    (verify_document resolver b id now = Ok r ∨
     verified_in qs id r ∧ ∃ t, served_until margin r t ∧ (dt_lt at_ask t = Some true ∨ dt_lt at_get t = Some true)).
Proof.
  intros Hc Hx. unfold resolve_cached in Hx.
  apply stm_bind_ok in Hx as (c1 & cached & Hask & Hx). apply stm_bind_ok in Hx as (c2 & r & Hr & Hx).
  unfold lift in Hx. injection Hx as -> Hx. apply resolve_under_vouched in Hx as [Hv _].
  unfold ftd_layer, catch in Hask. destruct (cache_get at_ask id cache) as [c0 got] eqn:Eg.
  destruct (cache_get_ok _ _ _ _ _ _ _ Hc Eg) as [Hc0 Hgot].
  destruct got as [got|err]; [|done]. injection Hask as -> ->.
  assert (∀ r0, verified_in qs id r0 → ftd_id r0 = id) as Hid.
  { intros r0 (pre & q & post & _ & Hq & Hf & _). unfold fresh in Hf. apply document_accepted_iff in Hf as [-> _]. done. }
  exists r. destruct cached as [r0|].
  - injection Hr as -> ->. destruct (Hgot _ eq_refl) as [Hin (t & Ht & Hlt)]. split_and!; [done|by apply Hid|].
    right. split; [done|]. exists t. auto.
  - unfold ftd_layer, catch in Hr. destruct (verify_cached resolver b id now at_get at_put c1) as [c3 res] eqn:Ev.
    destruct res as [r0|err]; [|done]. injection Hr as -> ->.
    destruct (answer_ok margin qs c1 (Verify (MkCall resolver b id now at_get at_put)) cache' (Some (Ok r)) Hc0) as [_ Hans].
    { cbn [answer c_resolver c_bytes c_id c_now c_get c_put]. by rewrite Ev. }
    destruct (Hans _ r eq_refl eq_refl) as [Hf|[Hin (t & Ht & Hlt)]].
    + split_and!; [done| |by left]. unfold fresh in Hf. cbn in Hf. by apply document_accepted_iff in Hf as [-> _].
    + cbn in Hin, Hlt. split_and!; [done|by apply Hid|]. right. split; [done|]. exists t. auto.
Qed.
End soundness.

Module FederatedExample.
Import FtdExample.
#[local] Existing Instance checksum_sha256.
#[local] Existing Instance plain_ed25519.
#[local] Existing Instance no_package.

(** Texts of ASCII characters. *)
#[local] Instance ascii_tables : Unicode :=
  {| lower s := (λ c, if is_upper c then c + 32 else c) <$> s; nfkc s := s;
     bracketed_host s := str_eqb s (u "::1") |}.

(** The agent's resolver serves whatever it is asked for, signed with a key. *)
Definition agent (key : str) (uri : str) : result () AIPDocumentLike :=
  Ok (MkAip uri [(u "id", JStr uri)] [] key).

Definition uri : str := u "aip:web:B.org/agents/a".
Definition cache1 : FTDCache := (verify_cached zone bytes1 the_id (Aware T0) (Aware T0) (Aware T0) (new_cache 3600)).1.
Definition the_result : FederatedResolveResult :=
  MkFederated uri the_id [(u "id", JStr uri)] [] (hex digest) (replicate 64 65) (JStr (u "k1")) (Aware (T0 + 3 * hour)).

Lemma cache1_ok : cache_ok 3600 [Verify (ask T0)] cache1.
Proof.
  assert (cache_ok 3600 [] (new_cache 3600)) as H0 by (split; [done|]; intros i e; cbn; by rewrite lookup_empty).
  destruct (answer (new_cache 3600) (Verify (ask T0))) as [c a] eqn:Ea.
  replace cache1 with c; [by apply (answer_ok _ _ _ _ _ _ H0 Ea)|].
  cbn [answer ask c_resolver c_bytes c_id c_now c_get c_put] in Ea. unfold cache1.
  destruct (verify_cached _ _ _ _ _ _ _) as [c1 res]. by injection Ea.
Qed.

(** A key that was valid when the document was verified vouches for an agent
    three hours later, when its window has closed; its case does not matter. *)
Lemma served_key :
  (resolve_cached (E:=()) zone [] the_id (agent (replicate 64 65)) uri (Aware (T0 + 3 * hour)) (Aware (T0 + 3 * hour))
     (Aware (T0 + 3 * hour)) (Aware (T0 + 3 * hour)) cache1).2 = Ok the_result.
Proof. by vm_compute. Qed.

Lemma federated_sound_witness :
  ∃ r, vouched (agent (replicate 64 65)) uri r the_result ∧ ftd_id r = the_id ∧
    (verify_document zone [] the_id (Aware (T0 + 3 * hour)) = Ok r ∨
     verified_in [Verify (ask T0)] the_id r ∧ ∃ t, served_until 3600 r t ∧
       (dt_lt (Aware (T0 + 3 * hour)) t = Some true ∨ dt_lt (Aware (T0 + 3 * hour)) t = Some true)).
Proof.
  destruct (resolve_cached (E:=()) zone [] the_id (agent (replicate 64 65)) uri (Aware (T0 + 3 * hour)) (Aware (T0 + 3 * hour))
     (Aware (T0 + 3 * hour)) (Aware (T0 + 3 * hour)) cache1) as [c' res] eqn:Er.
  pose proof served_key as Hk. rewrite Er in Hk. cbn [snd] in Hk. subst res.
  exact (federated_sound 3600 [Verify (ask T0)] cache1 zone [] the_id (agent (replicate 64 65)) uri (Aware (T0 + 3 * hour))
    (Aware (T0 + 3 * hour)) (Aware (T0 + 3 * hour)) (Aware (T0 + 3 * hour)) c' the_result cache1_ok Er).
Defined.

(** The hosts of addresses. *)
Example hosts :
  _aip_url_host (u "https://u:p@B.org:8443/x") = Some (u "b.org:8443") ∧
  _aip_url_host (u "https://b.org:/x") = Some (u "b.org") ∧
  _aip_url_host (u "http://[::1]:80") = Some (u "::1:80") ∧
  _aip_url_host (u "https://b.org:x/") = None ∧
  _aip_url_host (u "https://[::1]y:80") = None ∧
  _aip_url_host (u "aip:web:B.org:8443/agents/a") = Some (u "b.org:8443") ∧
  _aip_url_host (u "did:web:b.org") = None.
Proof. by vm_compute. Qed.
End FederatedExample.
