(* ===== verification/OrgKeys.v ===== *)
(** * Keys of the operator organisations
      ([wirelang/identity/federation_resolver_canonical.py])

    The registry that maps an organisation and a cluster to the key that signs
    its frames, with rotation by overlapping windows.  The protocol is a class
    with its contract, the reference implementation in memory an instance; the
    snapshot is the sorted list of the entries in canonical bytes.

    The theorems: any two implementations with the same entries give the same
    answers and the same snapshot, in particular whatever the order of the
    registrations; the hash of a snapshot binds its entries. *)

From S2P Require Import Prelude PyStr Sha256 PyJson PyJsonLoads PyEqual.
From Stdlib Require Import ZArith Lia.

Open Scope Z_scope.

(** [FederationResolverError], and the error of the final encode. *)
Inductive resolver_error : Type :=
| BadAlg | BadClusterId | BadOrgId | BadPublicKey | BadValidFrom | BadValidUntil | EmptyWindow
| DuplicateTriple
| ResolverEncodeError.

Module OrgKeys.

Definition FEDERATION_RESOLVER_SCHEMA : str := u "wakir.federation.resolver-snapshot/1".
Definition HASH_PREFIX : str := u "sha256:".
Definition SHA256_HEX_LEN : nat := 64.
Definition PUBLIC_KEY_HEX_LEN : nat := 64.
Definition DEFAULT_ALG : str := u "Ed25519".

Record OperatorOrgKeyEntry := MkEntry {
  alg : str;
  cluster_id : str;
  org_id : str;
  public_key_hex : str;
  valid_from : str;
  valid_until : str;
}.

#[export] Instance entry_eq_dec : EqDecision OperatorOrgKeyEntry.
Proof. solve_decision. Defined.

Record FederationResolverSnapshot := MkSnapshot { entries : list OperatorOrgKeyEntry; schema : str }.

Definition _is_lower_hex (s : str) (expected_len : nat) : bool :=
  (length s =? expected_len)%nat && forallb is_lower_hex s.

Definition _validate_entry (entry : OperatorOrgKeyEntry) : result resolver_error () :=
  raise_if (str_empty (alg entry)) BadAlg;;
  raise_if (negb (str_eqb (alg entry) DEFAULT_ALG)) BadAlg;;
  raise_if (str_empty (cluster_id entry)) BadClusterId;;
  raise_if (str_empty (org_id entry)) BadOrgId;;
  raise_if (negb (_is_lower_hex (public_key_hex entry) PUBLIC_KEY_HEX_LEN)) BadPublicKey;;
  raise_if (str_empty (valid_from entry)) BadValidFrom;;
  raise_if (str_empty (valid_until entry)) BadValidUntil;;
  raise_if (negb (str_ltb (valid_from entry) (valid_until entry))) EmptyWindow.

(** The key of the sort, and of a registration. *)
Definition triple (e : OperatorOrgKeyEntry) : str * (str * str) := (org_id e, (cluster_id e, valid_from e)).
Definition triple_leb : str * (str * str) → str * (str * str) → bool := pair_leb str_leb (pair_leb str_leb str_leb).
Definition sort_entries (l : list OperatorOrgKeyEntry) : list OperatorOrgKeyEntry :=
  py_sorted (λ a b, triple_leb (triple a) (triple b)) l.

(** ** The protocol *)

Class FederationResolver (R : Type) := {
  resolve : R → str → str → str → option OperatorOrgKeyEntry;
  list_entries : R → list OperatorOrgKeyEntry;
  snapshot : R → FederationResolverSnapshot;
}.

(** The entry is for this pair and in its window. *)
Definition in_window (org cluster now : str) (e : OperatorOrgKeyEntry) : bool :=
  str_eqb (org_id e) org && str_eqb (cluster_id e) cluster &&
  (str_leb (valid_from e) now && str_ltb now (valid_until e)).

(** The contract: the newest of the entries in their window; the entries in the
    order of their triples; the snapshot of this list. *)
Class ResolverContract (R : Type) `{FederationResolver R} (registered : R → list OperatorOrgKeyEntry) : Prop := {
  resolve_none r org cluster now :
    resolve r org cluster now = None → ∀ e, e ∈ registered r → in_window org cluster now e = false;
  resolve_some r org cluster now e :
    resolve r org cluster now = Some e →
    e ∈ registered r ∧ in_window org cluster now e = true ∧
    ∀ e', e' ∈ registered r → in_window org cluster now e' = true → str_leb (valid_from e') (valid_from e) = true;
  list_registered r : list_entries r ≡ₚ registered r;
  list_sorted r : StronglySorted (λ a b, triple_leb (triple a) (triple b) = true) (list_entries r);
  snapshot_list r : snapshot r = MkSnapshot (list_entries r) FEDERATION_RESOLVER_SCHEMA;
}.

(** ** In memory *)

Record InMemoryFederationResolver := MkResolver {
  _entries : list OperatorOrgKeyEntry;
  _seen : gset (str * (str * str));
}.

Definition register (r : InMemoryFederationResolver) (entry : OperatorOrgKeyEntry)
    : result resolver_error InMemoryFederationResolver :=
  _validate_entry entry;;
  raise_if (bool_decide (triple entry ∈ _seen r)) DuplicateTriple;;
  Ok (MkResolver (_entries r ++ [entry]) ({[triple entry]} ∪ _seen r)).

(** The loop of the constructor. *)
Fixpoint register_all (r : InMemoryFederationResolver) (l : list OperatorOrgKeyEntry)
    : result resolver_error InMemoryFederationResolver :=
  match l with
  | [] => Ok r
  | e :: l => r ← register r e; register_all r l
  end.

Definition new_resolver (l : list OperatorOrgKeyEntry) : result resolver_error InMemoryFederationResolver :=
  register_all (MkResolver [] ∅) l.

(** The loop over the entries. *)
Fixpoint best_of (org cluster now : str) (best : option OperatorOrgKeyEntry) (l : list OperatorOrgKeyEntry)
    : option OperatorOrgKeyEntry :=
  match l with
  | [] => best
  | e :: l =>
      best_of org cluster now
        (if negb (str_eqb (org_id e) org) || negb (str_eqb (cluster_id e) cluster) then best
         else if str_leb (valid_from e) now && str_ltb now (valid_until e) then
           match best with
           | None => Some e
           | Some b => if str_ltb (valid_from b) (valid_from e) then Some e else best
           end
         else best) l
  end.

#[export] Instance in_memory : FederationResolver InMemoryFederationResolver := {|
  resolve r org_id cluster_id now := best_of org_id cluster_id now None (_entries r);
  list_entries r := sort_entries (_entries r);
  snapshot r := MkSnapshot (sort_entries (_entries r)) FEDERATION_RESOLVER_SCHEMA;
|}.

(** ** Snapshots *)

Definition _entry_to_wire_dict (e : OperatorOrgKeyEntry) : json :=
  JObj [(u "alg", JStr (alg e)); (u "cluster_id", JStr (cluster_id e)); (u "org_id", JStr (org_id e));
        (u "public_key_hex", JStr (public_key_hex e)); (u "valid_from", JStr (valid_from e));
        (u "valid_until", JStr (valid_until e))].

Definition resolver_snapshot_to_wire_dict (snap : FederationResolverSnapshot) : json :=
  JObj [(u "entries", JList (_entry_to_wire_dict <$> entries snap)); (u "schema", JStr (schema snap))].

Definition serialize_resolver_snapshot (snap : FederationResolverSnapshot) : result resolver_error bytes :=
  of_option ResolverEncodeError (utf8_encode (json_dumps false true (resolver_snapshot_to_wire_dict snap))).

Section hashes.
Context `{Sha256}.

Definition sha256_hex (payload : bytes) : str := hex (sha256 payload).

Definition resolver_snapshot_sha256_hex (snap : FederationResolverSnapshot) : result resolver_error str :=
  b ← serialize_resolver_snapshot snap; Ok (sha256_hex b).

Definition resolver_snapshot_hash_prefixed (snap : FederationResolverSnapshot) : result resolver_error str :=
  h ← resolver_snapshot_sha256_hex snap; Ok (HASH_PREFIX ++ h).

Definition serialize_and_hash (snap : FederationResolverSnapshot) : result resolver_error (bytes * str) :=
  payload ← serialize_resolver_snapshot snap; Ok (payload, HASH_PREFIX ++ sha256_hex payload).
End hashes.

Definition build_entry (org_id cluster_id public_key_hex valid_from valid_until alg : str) : OperatorOrgKeyEntry :=
  MkEntry alg cluster_id org_id public_key_hex valid_from valid_until.

Definition build_snapshot_from_entries (l : list OperatorOrgKeyEntry) : FederationResolverSnapshot :=
  MkSnapshot (sort_entries l) FEDERATION_RESOLVER_SCHEMA.
End OrgKeys.

Import OrgKeys.

(** ** Clients of the protocol *)

#[export] Instance triple_order : AntisymKeyOrder triple_leb.
Proof. unfold triple_leb. apply _. Qed.

#[export] Instance entry_order : KeyOrder (λ a b, triple_leb (triple a) (triple b)).
Proof. exact (key_order_on triple_leb triple). Qed.

Section clients.

Lemma triple_inj_in l e e' : NoDup (triple <$> l) → e ∈ l → e' ∈ l → triple e = triple e' → e = e'.
Proof.
  intros Hnd [i Hi]%list_elem_of_lookup [j Hj]%list_elem_of_lookup Ht.
  assert (i = j) as ->; [|congruence].
  eapply (NoDup_lookup _ i j (triple e) Hnd); rewrite list_lookup_fmap; [by rewrite Hi|by rewrite Hj, Ht].
Qed.

(** Two sorted lists of the same entries, with distinct triples, are one. *)
Lemma sorted_entries_unique l1 l2 :
  NoDup (triple <$> l1) → l1 ≡ₚ l2 →
  StronglySorted (λ a b, triple_leb (triple a) (triple b) = true) l1 →
  StronglySorted (λ a b, triple_leb (triple a) (triple b) = true) l2 → l1 = l2.
Proof.
  intros Hnd Hp S1 S2. apply (sorted_perm_unique (λ a b, triple_leb (triple a) (triple b) = true)); [|done..].
  intros a b Ha Hb H1 H2. apply (triple_inj_in l1); [done..|]. by apply (leb_antisym (leb:=triple_leb)).
Qed.

Lemma in_window_pair org cluster now e :
  in_window org cluster now e = true → org_id e = org ∧ cluster_id e = cluster.
Proof. unfold in_window, str_eqb. rewrite !andb_true_iff, !bool_decide_eq_true. tauto. Qed.

(** Any two implementations of the contract with the same entries give the same
    answers and the same snapshot. *)
Lemma contract_determines {R1 R2} `{ResolverContract R1 (registered:=reg1)} `{ResolverContract R2 (registered:=reg2)} r1 r2 :
  NoDup (triple <$> reg1 r1) → reg1 r1 ≡ₚ reg2 r2 →
  (∀ org cluster now, resolve r1 org cluster now = resolve r2 org cluster now) ∧ snapshot r1 = snapshot r2.
Proof.
  intros Hnd Hp. split.
  - intros org cluster now. destruct (resolve r1 org cluster now) as [e1|] eqn:E1, (resolve r2 org cluster now) as [e2|] eqn:E2.
    + apply resolve_some in E1 as (In1 & W1 & M1), E2 as (In2 & W2 & M2). rewrite <- Hp in In2. f_equal.
      apply (triple_inj_in (reg1 r1)); [done..|]. pose proof (in_window_pair _ _ _ _ W1) as [O1 C1].
      pose proof (in_window_pair _ _ _ _ W2) as [O2 C2]. unfold triple. rewrite O1, O2, C1, C2. do 2 f_equal.
      apply (leb_antisym (leb:=str_leb)); [apply M2; [by rewrite <- Hp|done]|by apply M1].
    + apply resolve_some in E1 as (In1 & W1 & _). rewrite Hp in In1. by rewrite (resolve_none _ _ _ _ E2 _ In1) in W1.
    + apply resolve_some in E2 as (In2 & W2 & _). rewrite <- Hp in In2. by rewrite (resolve_none _ _ _ _ E1 _ In2) in W2.
    + done.
  - rewrite !snapshot_list. f_equal. apply sorted_entries_unique; [..|apply list_sorted|apply list_sorted].
    + by rewrite list_registered.
    + by rewrite !list_registered.
Qed.
End clients.

(** ** The implementation in memory *)

Section in_memory_laws.

(** The loop keeps the newest entry in its window. *)
Lemma best_of_spec org cluster now l : ∀ best,
  match best_of org cluster now best l with
  | None => best = None ∧ ∀ e, e ∈ l → in_window org cluster now e = false
  | Some b =>
      (best = Some b ∨ (b ∈ l ∧ in_window org cluster now b = true)) ∧
      (∀ b0, best = Some b0 → str_leb (valid_from b0) (valid_from b) = true) ∧
      ∀ e, e ∈ l → in_window org cluster now e = true → str_leb (valid_from e) (valid_from b) = true
  end.
Proof.
  induction l as [|e l IH]; intros best; cbn [best_of].
  - destruct best as [b|]; [|split; [done|by intros ? ?%elem_of_nil]].
    split_and!; [by left|intros ? [= <-]; apply (leb_refl str_leb)|by intros ? ?%elem_of_nil].
  - match goal with |- context [best_of _ _ _ ?x l] => set (step := x) end.
    assert (step = if in_window org cluster now e then
              match best with None => Some e | Some b => if str_ltb (valid_from b) (valid_from e) then Some e else best end
              else best) as ->.
    { unfold step, in_window. destruct (str_eqb (org_id e) org), (str_eqb (cluster_id e) cluster); done. }
    destruct (in_window org cluster now e) eqn:Ew.
    + set (b1 := match best with None => e | Some b => if str_ltb (valid_from b) (valid_from e) then e else b end).
      replace (match best with None => Some e | Some b => if str_ltb (valid_from b) (valid_from e) then Some e else best end)
        with (Some b1) by (unfold b1; destruct best; [case_match|]; done).
      assert (str_leb (valid_from e) (valid_from b1) = true ∧ (best = Some b1 ∨ b1 = e) ∧
              ∀ b0, best = Some b0 → str_leb (valid_from b0) (valid_from b1) = true) as (He & Hb1 & Hb0).
      { unfold b1. destruct best as [b|]; [|split_and!; [apply (leb_refl str_leb)|by right|done]].
        unfold str_ltb. destruct (str_leb (valid_from b) (valid_from e)) eqn:El; cbn [andb].
        - destruct (str_eqb (valid_from b) (valid_from e)) eqn:Eq; cbn [negb].
          + apply bool_decide_eq_true in Eq. rewrite <- Eq. split_and!; [apply (leb_refl str_leb)|by left|].
            intros ? [= <-]. apply (leb_refl str_leb).
          + split_and!; [apply (leb_refl str_leb)|by right|by intros ? [= <-]].
        - split_and!; [|by left|intros ? [= <-]; apply (leb_refl str_leb)].
          destruct (leb_total (leb:=str_leb) (valid_from b) (valid_from e)); congruence. }
      specialize (IH (Some b1)). destruct (best_of org cluster now (Some b1) l) as [b|]; [|by destruct IH].
      destruct IH as (Hin & Hle & Hall). specialize (Hle _ eq_refl). split_and!.
      * destruct Hin as [[= <-]|[Hin Hw]]; [destruct Hb1 as [Hb1| ->]; [by left|right; split; [by left|done]]|].
        right. split; [by right|done].
      * intros b0 H0. eapply (leb_trans (leb:=str_leb)); [by apply Hb0|done].
      * intros e' [->|He']%elem_of_cons Hw; [by eapply (leb_trans (leb:=str_leb))|by apply Hall].
    + specialize (IH best). destruct (best_of org cluster now best l) as [b|].
      * destruct IH as (Hin & Hle & Hall). split_and!; [|done|].
        -- destruct Hin as [|[? ?]]; [by left|right; split; [by right|done]].
        -- intros e' [->|He']%elem_of_cons Hw; [congruence|by apply Hall].
      * destruct IH as [-> Hall]. split; [done|]. intros e' [->|He']%elem_of_cons; [done|by apply Hall].
Qed.

#[export] Instance in_memory_contract : ResolverContract InMemoryFederationResolver _entries.
Proof.
  split.
  - intros r org cluster now E e He. pose proof (best_of_spec org cluster now (_entries r) None) as Hb.
    cbn [resolve in_memory] in E. rewrite E in Hb. by apply Hb.
  - intros r org cluster now e E. pose proof (best_of_spec org cluster now (_entries r) None) as Hb.
    cbn [resolve in_memory] in E. rewrite E in Hb. destruct Hb as ([[=]|[Hin Hw]] & _ & Hall). done.
  - intros r. apply py_sorted_perm.
  - intros r. apply py_sorted_sorted, _.
  - done.
Qed.

(** What a registry holds. *)
Definition registry_ok (r : InMemoryFederationResolver) : Prop :=
  Forall (λ e, _validate_entry e = Ok ()) (_entries r) ∧ NoDup (triple <$> _entries r) ∧
  ∀ t, t ∈ _seen r ↔ t ∈ triple <$> _entries r.

Lemma register_iff r e r' :
  registry_ok r →
  register r e = Ok r' ↔
  _validate_entry e = Ok () ∧ triple e ∉ triple <$> _entries r ∧
  r' = MkResolver (_entries r ++ [e]) ({[triple e]} ∪ _seen r).
Proof.
  intros (_ & _ & Hseen). unfold register. split.
  - intros E. apply bind_ok_iff in E as ([] & Hv & E). apply bind_ok_iff in E as ([] & Hd%raise_if_ok & <-%Ok_inj).
    apply bool_decide_eq_false in Hd. rewrite Hseen in Hd. done.
  - intros (-> & Hd & ->). rewrite <- Hseen in Hd. by rewrite bind_Ok, bool_decide_eq_false_2.
Qed.

Lemma register_keeps r e r' : registry_ok r → register r e = Ok r' → registry_ok r'.
Proof.
  intros Hr (Hv & Hd & ->)%register_iff; [|done]. destruct Hr as (Hall & Hnd & Hseen).
  split_and!; cbn [_entries _seen].
  - apply Forall_app. by split; [|constructor].
  - rewrite fmap_app. apply NoDup_app. split_and!; [done| |apply NoDup_singleton].
    intros x Hx ->%list_elem_of_singleton. done.
  - intros t. rewrite fmap_app; change (triple <$> [e]) with [triple e]; rewrite elem_of_union, elem_of_app, elem_of_singleton, list_elem_of_singleton, Hseen. tauto.
Qed.

(** All registrations succeed exactly when the entries are valid and no triple
    comes twice; the registry then holds them. *)
Lemma register_all_iff l : ∀ r,
  registry_ok r →
  (∃ r', register_all r l = Ok r') ↔
  Forall (λ e, _validate_entry e = Ok ()) l ∧ NoDup (triple <$> _entries r ++ l).
Proof.
  induction l as [|e l IH]; intros r Hr; cbn [register_all].
  - rewrite app_nil_r. split; [|by eexists]. split; [done|apply Hr].
  - split.
    + intros (r' & E). apply bind_ok_iff in E as (r1 & E1 & E).
      pose proof (register_keeps _ _ _ Hr E1) as Hr1. apply register_iff in E1 as (Hv & Hd & ->); [|done].
      destruct (proj1 (IH _ Hr1) (ex_intro _ _ E)) as [Hall Hnd]. cbn [_entries] in Hnd. rewrite <- app_assoc in Hnd.
      split; [by constructor|done].
    + intros [[Hv Hall]%Forall_cons Hnd].
      assert (register r e = Ok (MkResolver (_entries r ++ [e]) ({[triple e]} ∪ _seen r))) as E1.
      { apply register_iff; [done|]. split_and!; [done| |done]. rewrite fmap_app, fmap_cons in Hnd.
        apply NoDup_app in Hnd as (_ & Hdis & _). intros Hin. apply (Hdis _ Hin). by left. }
      rewrite E1, bind_Ok. apply IH; [by eapply register_keeps|]. cbn [_entries]. by rewrite <- app_assoc.
Qed.

Lemma register_all_entries l : ∀ r r',
  registry_ok r → register_all r l = Ok r' → registry_ok r' ∧ _entries r' = _entries r ++ l.
Proof.
  induction l as [|e l IH]; intros r r' Hr; cbn [register_all].
  - intros <-%Ok_inj. by rewrite app_nil_r.
  - intros E. apply bind_ok_iff in E as (r1 & E1 & E). pose proof (register_keeps _ _ _ Hr E1) as Hr1.
    apply register_iff in E1 as (_ & _ & ->); [|done]. destruct (IH _ _ Hr1 E) as [Hr' ->]. split; [done|].
    cbn [_entries]. by rewrite <- app_assoc.
Qed.

Lemma no_entries_ok : registry_ok (MkResolver [] ∅).
Proof. split_and!; [done|apply NoDup_nil_2|]. intros t. cbn [_seen _entries fmap list_fmap]. by rewrite elem_of_empty, elem_of_nil. Qed.

Lemma new_resolver_ok l r : new_resolver l = Ok r → registry_ok r ∧ _entries r = l.
Proof. intros E. by apply (register_all_entries l _ _ no_entries_ok) in E. Qed.

(** C34: The order of the registrations does not matter: they succeed in any order,
    and then every key, at any time, and the snapshot are the same. *)
Theorem registration_order l1 l2 r1 :
  new_resolver l1 = Ok r1 → l1 ≡ₚ l2 →
  ∃ r2, new_resolver l2 = Ok r2 ∧
    (∀ org cluster now, resolve r1 org cluster now = resolve r2 org cluster now) ∧
    serialize_resolver_snapshot (snapshot r1) = serialize_resolver_snapshot (snapshot r2).
Proof.
  intros E1 Hp. destruct (proj1 (register_all_iff l1 _ no_entries_ok) (ex_intro _ _ E1)) as [Hall Hnd].
  cbn [_entries app] in Hnd. destruct (proj2 (register_all_iff l2 _ no_entries_ok)) as [r2 E2].
  { cbn [_entries app]. by rewrite <- Hp. }
  exists r2. split; [done|]. destruct (new_resolver_ok _ _ E1) as [_ H1], (new_resolver_ok _ _ E2) as [_ H2].
  destruct (contract_determines r1 r2) as [Hres ->]; [by rewrite H1|by rewrite H1, H2|by split].
Qed.

(** The key of a pair at a time is the newest of the registered ones whose
    window contains the time. *)
Theorem resolve_newest l r org cluster now e :
  new_resolver l = Ok r →
  resolve r org cluster now = Some e ↔
  e ∈ l ∧ in_window org cluster now e = true ∧
  ∀ e', e' ∈ l → in_window org cluster now e' = true → e' = e ∨ str_ltb (valid_from e') (valid_from e) = true.
Proof.
  intros E. destruct (new_resolver_ok _ _ E) as [(_ & Hnd & _) Hl]. rewrite Hl in Hnd.
  assert (∀ x y, x ∈ l → y ∈ l → in_window org cluster now x = true → in_window org cluster now y = true →
    valid_from x = valid_from y → x = y) as Huniq.
  { intros x y Hx Hy [Ox Cx]%in_window_pair [Oy Cy]%in_window_pair Hv.
    apply (triple_inj_in l); [done..|]. unfold triple. by rewrite Ox, Cx, Oy, Cy, Hv. }
  split.
  - intros (Hin & Hw & Hmax)%(resolve_some (R:=InMemoryFederationResolver)). rewrite Hl in Hin, Hmax. split_and!; [done..|].
    intros e' He' Hw'. unfold str_ltb. rewrite (Hmax _ He' Hw'). cbn [andb].
    destruct (str_eqb (valid_from e') (valid_from e)) eqn:Eq; [left|by right].
    apply bool_decide_eq_true in Eq. by apply Huniq.
  - intros (Hin & Hw & Hmax). destruct (resolve r org cluster now) as [e'|] eqn:Er.
    + apply (resolve_some (R:=InMemoryFederationResolver)) in Er as (Hin' & Hw' & Hmax'). rewrite Hl in Hin', Hmax'. f_equal.
      destruct (Hmax _ Hin' Hw') as [?|Hlt]; [done|]. unfold str_ltb in Hlt. apply andb_true_iff in Hlt as [Hle _].
      apply Huniq; [done..|]. apply (leb_antisym (leb:=str_leb)); [done|by apply Hmax'].
    + pose proof (resolve_none (R:=InMemoryFederationResolver) _ _ _ _ Er e) as Hn. rewrite Hl in Hn.
      rewrite (Hn Hin) in Hw. done.
Qed.
End in_memory_laws.

(** ** Hashes *)

Section hash.
Context `{Sha256}.

Lemma wire_entry_inj e1 e2 : json_sort (_entry_to_wire_dict e1) = json_sort (_entry_to_wire_dict e2) → e1 = e2.
Proof.
  unfold _entry_to_wire_dict. intros E.
  member "alg"%string E F1. member "cluster_id"%string E F2. member "org_id"%string E F3.
  member "public_key_hex"%string E F4. member "valid_from"%string E F5. member "valid_until"%string E F6.
  apply JStr_inj in F1, F2, F3, F4, F5, F6. destruct e1, e2. cbn in *. congruence.
Qed.

Lemma wire_entries_inj l1 : ∀ l2,
  json_sort (JList (_entry_to_wire_dict <$> l1)) = json_sort (JList (_entry_to_wire_dict <$> l2)) → l1 = l2.
Proof.
  induction l1 as [|e1 l1 IH]; intros [|e2 l2] E; try done.
  assert (json_sort (_entry_to_wire_dict e1) :: List.map json_sort (_entry_to_wire_dict <$> l1) =
          json_sort (_entry_to_wire_dict e2) :: List.map json_sort (_entry_to_wire_dict <$> l2)) as E'
    by exact (f_equal (λ j, match j with JList l => l | _ => [] end) E).
  apply (f_equal (λ l, (head l, List.tl l))) in E'. cbn [head List.tl] in E'.
  apply pair_eq in E' as [Hh Ht]. apply (inj Some) in Hh. f_equal; [by apply wire_entry_inj|]. apply IH.
  cbn [json_sort]. by f_equal.
Qed.

Lemma wire_float_free s : float_free (resolver_snapshot_to_wire_dict s).
Proof.
  unfold float_free, resolver_snapshot_to_wire_dict. apply ok_strings_obj.
  constructor; [|by constructor]. split; [done|]. apply ok_strings_list, Forall_fmap, Forall_forall.
  intros e _. apply ok_strings_obj. repeat (constructor; [by split|]). constructor.
Qed.

(** Two snapshots with one hash are equal, or their two texts collide. *)
Theorem snapshot_hash_binds s1 s2 h :
  resolver_snapshot_hash_prefixed s1 = Ok h → resolver_snapshot_hash_prefixed s2 = Ok h →
  s1 = s2 ∨ collision_in sha256 (ok_list (serialize_resolver_snapshot s1) ++ ok_list (serialize_resolver_snapshot s2)).
Proof.
  unfold resolver_snapshot_hash_prefixed, resolver_snapshot_sha256_hex, serialize_resolver_snapshot, sha256_hex.
  intros E1 E2. apply bind_ok_iff in E1 as (h1 & E1 & <-%Ok_inj). apply bind_ok_iff in E2 as (h2 & E2 & Eh%Ok_inj).
  apply app_inv_head in Eh as ->.
  apply bind_ok_iff in E1 as (b1 & B1 & <-%Ok_inj). apply bind_ok_iff in E2 as (b2 & B2 & E%Ok_inj%hex_inj).
  rewrite B1, B2. symmetry in E. apply (eq_or_pair_collision sha256) in E as [Hs|Hc]; [left|right; exact Hc].
  apply of_option_ok in B1, B2.
  subst b2. pose proof (dumps_bytes_inj _ _ _ (wire_float_free s1) (wire_float_free s2) B1 B2) as E.
  unfold resolver_snapshot_to_wire_dict in E. member "entries"%string E F1. member "schema"%string E F2.
  apply JStr_inj in F2. apply wire_entries_inj in F1. destruct s1, s2. cbn in *. congruence.
Qed.
End hash.

Module OrgKeysExample.
#[local] Existing Instance checksum_sha256.

Definition entry (key : Z) (from until : string) : OperatorOrgKeyEntry :=
  MkEntry DEFAULT_ALG (u "c1") (u "acme") (replicate 64 key) (u from) (u until).
Definition old : OperatorOrgKeyEntry := entry 97 "2026-01-01T00:00:00Z" "2026-07-01T00:00:00Z".
Definition rotated : OperatorOrgKeyEntry := entry 98 "2026-06-01T00:00:00Z" "2027-01-01T00:00:00Z".
Definition registry : InMemoryFederationResolver := ok_or (MkResolver [] ∅) (new_resolver [old; rotated]).

Lemma registry_new : new_resolver [old; rotated] = Ok registry.
Proof.
  unfold registry. assert (is_ok (new_resolver [old; rotated]) = true) as Hok by by vm_compute.
  by destruct (new_resolver [old; rotated]).
Qed.

Lemma registration_order_witness :
  ∃ r2, new_resolver [rotated; old] = Ok r2 ∧
    (∀ org cluster now, resolve registry org cluster now = resolve r2 org cluster now) ∧
    serialize_resolver_snapshot (snapshot registry) = serialize_resolver_snapshot (snapshot r2).
Proof. apply (registration_order [old; rotated] [rotated; old] registry); [apply registry_new|apply Permutation_swap]. Defined.

(** In the overlap of the windows the newer key counts. *)
Lemma resolve_newest_witness :
  resolve registry (u "acme") (u "c1") (u "2026-06-15T00:00:00Z") = Some rotated ↔
  rotated ∈ [old; rotated] ∧ in_window (u "acme") (u "c1") (u "2026-06-15T00:00:00Z") rotated = true ∧
  ∀ e', e' ∈ [old; rotated] → in_window (u "acme") (u "c1") (u "2026-06-15T00:00:00Z") e' = true →
    e' = rotated ∨ str_ltb (valid_from e') (valid_from rotated) = true.
Proof. apply (resolve_newest [old; rotated] registry). apply registry_new. Defined.

Lemma snapshot_hash_binds_witness :
  let h := ok_or [] (resolver_snapshot_hash_prefixed (snapshot registry)) in
  snapshot registry = build_snapshot_from_entries [rotated; old] ∨
  collision_in sha256 (ok_list (serialize_resolver_snapshot (snapshot registry)) ++
    ok_list (serialize_resolver_snapshot (build_snapshot_from_entries [rotated; old]))).
Proof.
  apply (snapshot_hash_binds (snapshot registry) (build_snapshot_from_entries [rotated; old])
    (ok_or [] (resolver_snapshot_hash_prefixed (snapshot registry)))); by vm_compute.
Defined.

(** Times are compared as texts and their format is not checked: half a second
    after its end a key is still in its window, since a point sorts before [Z];
    with an offset a key can be dead for hours of its window. *)
Example fraction_after_end :
  resolve registry (u "acme") (u "c1") (u "2027-01-01T00:00:00.5Z") = Some rotated.
Proof. by vm_compute. Qed.
Example offset_misread :
  is_ok (_validate_entry (entry 97 "2026-01-01T09:00:00+09:00" "2026-01-01T10:00:00Z")) = true ∧
  in_window (u "acme") (u "c1") (u "2026-01-01T05:00:00Z")
    (entry 97 "2026-01-01T09:00:00+09:00" "2026-01-01T10:00:00Z") = false.
Proof. split; by vm_compute. Qed.
End OrgKeysExample.
