(* ===== verification/AuditDiff.v ===== *)
(** * The diff engine of the bridge audit
      ([wirelang/persona_engine/bridge_audit_diff_engine.py])

    Two envelopes are canonicalised, hashed and, when the hashes differ,
    compared field by field.  An envelope is a JSON value; an implementation is
    a function from the input to an envelope that may raise.  The theorems: a
    reported entry is located by its path and its values are of the kind it
    names; no path is reported twice; the report is empty exactly for envelopes
    that agree up to the order of members, which is when the bytes agree. *)

From S2P Require Import Prelude PyStr PyFloat Sha256 PyJson PyJsonLoads PyDyn PyTime Jcs.
From Stdlib Require Import ZArith Lia SpecFloat.
Import Jcs.Jcs.

Open Scope Z_scope.

Inductive audit_error : Type :=
| ImplementationRaised       (* any exception of a compared implementation *)
| JcsRaised (e : jcs_error)
| IntRaised                  (* [int(...)] of a record's step *)
| UnknownMode                (* ValueError: neither "2way" nor "3way" *)
| NoThirdImplementation.     (* ValueError: 3way without impl_c *)

Module DiffEngine.

Record DiffInput : Type := {
  org_id : str;
  persona_id : str;
  session_id : str;
  step_index : Z;
  output_kind : str;
  payload : bytes;
  ts_utc : str;
}.

(** [CloudEventEnvelope] is a parsed JSON value. *)
Definition Implementation : Type := DiffInput → result audit_error json.

Inductive DiffKind : Type := VALUE_MISMATCH | ONLY_IN_A | ONLY_IN_B | TYPE_MISMATCH.

Record FieldDiff : Type := {
  path : str;
  kind : DiffKind;
  value_a : json;
  value_b : json;
}.

Record DiffReport : Type := {
  byte_identical : bool;
  jcs_hash_a : str;
  jcs_hash_b : str;
  field_diffs : list FieldDiff;
  score : float;
  envelope_a : json;
  envelope_b : json;
}.

Definition has_drift (r : DiffReport) : bool := negb (byte_identical r).

(** [_coerce_for_jcs] rebuilds mappings as [dict] and tuples as lists; a parsed
    JSON value comes out unchanged. *)
Fixpoint _coerce_for_jcs (value : json) : json :=
  match value with
  | JObj d => JObj (List.map (λ kv, (kv.1, _coerce_for_jcs kv.2)) d)
  | JList l => JList (List.map _coerce_for_jcs l)
  | _ => value
  end.

Definition canonicalize_envelope (envelope : json) : result audit_error bytes :=
  map_err JcsRaised (canonicalize (_coerce_for_jcs envelope)).

Definition jcs_hash `{Sha256} (envelope : json) : result audit_error str :=
  b ← canonicalize_envelope envelope; Ok (u "sha256:" ++ hex (sha256 b)).

(** [token.replace("~", "~0").replace("/", "~1")] *)
Definition _escape_jp_token (token : str) : str :=
  replace1 47 (u "~1") (replace1 126 (u "~0") token).

(** [type(x)] *)
Inductive py_type : Type := TNone | TBool | TInt | TFloat | TStr | TList | TDict.
#[export] Instance py_type_eq_dec : EqDecision py_type.
Proof. solve_decision. Defined.

Definition type_of (j : json) : py_type :=
  match j with
  | JNull => TNone | JBool _ => TBool | JInt _ => TInt | JFloat _ => TFloat
  | JStr _ => TStr | JList _ => TList | JObj _ => TDict
  end.

(** The comparison of two values that are not both mappings or both lists. *)
Definition compare_leaf (path : str) (a b : json) : list FieldDiff :=
  let same_type := bool_decide (type_of a = type_of b) in
  if py_eq a b && same_type then []
  else if py_eq a b && negb same_type then
    [{| path := path; kind := TYPE_MISMATCH; value_a := a; value_b := b |}]
  else if negb same_type then
    [{| path := path; kind := TYPE_MISMATCH; value_a := a; value_b := b |}]
  else [{| path := path; kind := VALUE_MISMATCH; value_a := a; value_b := b |}].

(** [sorted(set(a.keys()) | set(b.keys()))] *)
Definition key_union (a b : list str) : list str := py_sorted str_leb (remove_dups (a ++ b)).

Definition child_key (path k : str) : str := path ++ u "/" ++ _escape_jp_token k.
Definition child_index (path : str) (i : nat) : str := path ++ u "/" ++ int_repr (Z.of_nat i).

(** [_walk] with [_SENTINEL] as [None]; [walk_in a] is the walk from a value
    that is present on the first side. *)
Definition only_in_b (path : str) (b : option json) : list FieldDiff :=
  [{| path := path; kind := ONLY_IN_B; value_a := JNull; value_b := default JNull b |}].

Fixpoint walk_in (a : json) (path : str) (b : option json) : list FieldDiff :=
  match b with
  | None => [{| path := path; kind := ONLY_IN_A; value_a := a; value_b := JNull |}]
  | Some b =>
      match a, b with
      | JObj da, JObj db =>
          let walks := List.map (λ kv, (kv.1, walk_in kv.2)) da in
          key_union da.*1 db.*1 ≫= λ k,
            match dict_get walks k with
            | Some w => w (child_key path k) (dict_get db k)
            | None => only_in_b (child_key path k) (dict_get db k)
            end
      | JList la, JList lb =>
          let walks := List.map walk_in la in
          seq 0 (length la `max` length lb) ≫= λ i,
            match walks !! i with
            | Some w => w (child_index path i) (lb !! i)
            | None => only_in_b (child_index path i) (lb !! i)
            end
      | _, _ => compare_leaf path a b
      end
  end.

Definition _walk (path : str) (a b : option json) : list FieldDiff :=
  match a with
  | None => only_in_b path b
  | Some a => walk_in a path b
  end.

Definition path_leb (x y : FieldDiff) : bool := str_leb (path x) (path y).

Definition diff_envelopes (envelope_a envelope_b : json) : list FieldDiff :=
  py_sorted path_leb (_walk [] (Some envelope_a) (Some envelope_b)).

Fixpoint _count_leaves (value : json) : nat :=
  match value with
  | JObj [] | JList [] => 1%nat
  | JObj d => sum_list (List.map (λ kv, _count_leaves kv.2) d)
  | JList l => sum_list (List.map _count_leaves l)
  | _ => 1%nat
  end.

(** [1.0 - (drifted / total)] in binary64. *)
Definition consistency_score (envelope_a envelope_b : json) (diffs : list FieldDiff) : float :=
  let one := float_of_decimal false 1 0 in
  match diffs with
  | [] => one
  | _ =>
      let total := (_count_leaves envelope_a `max` _count_leaves envelope_b)%nat in
      if (total =? 0)%nat then one
      else
        let drifted := length diffs in
        if (total <=? drifted)%nat then S754_zero false
        else SFsub prec emax one (float_of_ratio false (Z.of_nat drifted) (Z.of_nat total))
  end.

Definition compare_implementations `{Sha256} (input_ : DiffInput) (impl_a impl_b : Implementation)
    : result audit_error DiffReport :=
  envelope_a ← impl_a input_;
  envelope_b ← impl_b input_;
  hash_a ← jcs_hash envelope_a;
  hash_b ← jcs_hash envelope_b;
  if str_eqb hash_a hash_b then
    Ok {| byte_identical := true; jcs_hash_a := hash_a; jcs_hash_b := hash_b;
          field_diffs := []; score := float_of_decimal false 1 0;
          envelope_a := envelope_a; envelope_b := envelope_b |}
  else
    let diffs := diff_envelopes envelope_a envelope_b in
    Ok {| byte_identical := false; jcs_hash_a := hash_a; jcs_hash_b := hash_b;
          field_diffs := diffs; score := consistency_score envelope_a envelope_b diffs;
          envelope_a := envelope_a; envelope_b := envelope_b |}.
End DiffEngine.

Import DiffEngine.

(** ** JSON pointers, as the specification of a path *)

Section pointers.

Definition pointer (tokens : list str) : str := tokens ≫= λ t, u "/" ++ _escape_jp_token t.

(** The member or the item a reference token names. *)
Definition child (j : json) (t : str) : option json :=
  match j with
  | JObj d => dict_get d t
  | JList l => dict_get (zip ((λ i, int_repr (Z.of_nat i)) <$> seq 0 (length l)) l) t
  | _ => None
  end.

Fixpoint resolve (j : json) (tokens : list str) : option json :=
  match tokens with
  | [] => Some j
  | t :: ts => j' ← child j t; resolve j' ts
  end.

(** What an entry says about the values found at its path. *)
Definition verdict (a b : option json) (d : FieldDiff) : Prop :=
  match kind d with
  | ONLY_IN_A => a = Some (value_a d) ∧ b = None ∧ value_b d = JNull
  | ONLY_IN_B => a = None ∧ b = Some (value_b d) ∧ value_a d = JNull
  | TYPE_MISMATCH =>
      a = Some (value_a d) ∧ b = Some (value_b d) ∧ type_of (value_a d) ≠ type_of (value_b d)
  | VALUE_MISMATCH =>
      a = Some (value_a d) ∧ b = Some (value_b d) ∧
      type_of (value_a d) = type_of (value_b d) ∧
      type_of (value_a d) ∉ [TList; TDict] ∧ py_eq (value_a d) (value_b d) = false
  end.

Definition located (a b : json) (d : FieldDiff) : Prop :=
  ∃ tokens, path d = pointer tokens ∧ verdict (resolve a tokens) (resolve b tokens) d.

(** Escaping leaves no slash, and can be undone. *)
Lemma escape_cons c t :
  _escape_jp_token (c :: t) =
  (if c =? 126 then u "~0" else if c =? 47 then u "~1" else [c]) ++ _escape_jp_token t.
Proof.
  unfold _escape_jp_token, replace1. csimpl. rewrite bind_app. f_equal.
  destruct (Z.eqb_spec c 126) as [->|]; [done|]. csimpl.
  by destruct (c =? 47).
Qed.

Lemma escape_no_slash t : 47 ∉ _escape_jp_token t.
Proof.
  induction t as [|c t IH]; [by intros ?%elem_of_nil|]. rewrite escape_cons, not_elem_of_app.
  split; [|done].
  destruct (Z.eqb_spec c 126), (Z.eqb_spec c 47); ulit; rewrite ?not_elem_of_cons;
    (split_and!; [lia..|]) || (split; [lia|]); by intros ?%elem_of_nil.
Qed.

Lemma escape_inj t1 t2 : _escape_jp_token t1 = _escape_jp_token t2 → t1 = t2.
Proof.
  revert t2. induction t1 as [|c1 t1 IH]; intros [|c2 t2]; [done|..]; rewrite ?escape_cons; ulit;
    intros E; repeat case_match; simplify_eq/=; propify; subst; try done;
    f_equal; by apply IH.
Qed.

Lemma escape_int z : _escape_jp_token (int_repr z) = int_repr z.
Proof.
  generalize (int_repr_numchars z). generalize (int_repr z). intros s.
  induction 1 as [|c s Hc _ IH]; [done|]. rewrite escape_cons, IH.
  unfold is_numchar in Hc.
  by rewrite (proj2 (Z.eqb_neq c 126)), (proj2 (Z.eqb_neq c 47)) by lia.
Qed.

Lemma pointer_cons t ts : pointer (t :: ts) = 47 :: _escape_jp_token t ++ pointer ts.
Proof. done. Qed.

Lemma pointer_head ts : pointer ts = [] ∨ ∃ s, pointer ts = 47 :: s.
Proof. destruct ts; [by left|right]. rewrite pointer_cons. eauto. Qed.

(** A text without a slash in front of a pointer. *)
Lemma slash_prefix a b p q :
  47 ∉ a → 47 ∉ b → p = [] ∨ (∃ s, p = 47 :: s) → q = [] ∨ (∃ s, q = 47 :: s) →
  a ++ p = b ++ q → a = b ∧ p = q.
Proof.
  intros Ha Hb Hp Hq. revert b Ha Hb.
  induction a as [|x a IH]; intros [|y b]; simpl; [done|..].
  - intros _ [Hy _]%not_elem_of_cons ->. destruct Hp as [|[s ?]]; congruence.
  - intros [Hx _]%not_elem_of_cons _ <-. destruct Hq as [|[s ?]]; congruence.
  - intros [_ Ha]%not_elem_of_cons [_ Hb]%not_elem_of_cons [= -> E].
    by destruct (IH b Ha Hb E) as [-> ->].
Qed.

Lemma pointer_inj ts1 ts2 : pointer ts1 = pointer ts2 → ts1 = ts2.
Proof.
  revert ts2. induction ts1 as [|t1 ts1 IH]; intros [|t2 ts2]; rewrite ?pointer_cons; try done.
  intros [= E]. apply slash_prefix in E as [Et E];
    [|apply escape_no_slash|apply escape_no_slash|apply pointer_head|apply pointer_head].
  apply escape_inj in Et as ->. f_equal. by apply IH.
Qed.

Lemma child_key_pointer p k ts : child_key p k ++ pointer ts = p ++ pointer (k :: ts).
Proof. unfold child_key. rewrite pointer_cons. ulit. by rewrite <- !app_assoc. Qed.

Lemma child_index_key p i : child_index p i = child_key p (int_repr (Z.of_nat i)).
Proof. unfold child_index, child_key. by rewrite escape_int. Qed.

Lemma index_get {A} (l : list A) n i :
  dict_get (zip ((λ i, int_repr (Z.of_nat i)) <$> seq n (length l)) l)
    (int_repr (Z.of_nat (n + i))) = l !! i.
Proof.
  revert n i. induction l as [|x l IH]; intros n i; [done|]. cbn [length seq fmap list_fmap zip_with].
  cbn [dict_get]. destruct i as [|i].
  - rewrite Nat.add_0_r. by rewrite decide_True.
  - rewrite decide_False by (intros ?%int_repr_inj; lia).
    replace (n + S i)%nat with (S n + i)%nat by lia. apply IH.
Qed.

Lemma child_item l i : child (JList l) (int_repr (Z.of_nat i)) = l !! i.
Proof. exact (index_get l 0 i). Qed.
End pointers.

(** ** The walk *)

Section walk.

Lemma get_map {A B} (f : A → B) (d : list (str * A)) k :
  dict_get (List.map (λ kv, (kv.1, f kv.2)) d) k = f <$> dict_get d k.
Proof. induction d as [|[k' v] d IH]; [done|]. cbn. by case_decide. Qed.

Lemma walk_obj da db p :
  walk_in (JObj da) p (Some (JObj db)) =
  key_union da.*1 db.*1 ≫= λ k, _walk (child_key p k) (dict_get da k) (dict_get db k).
Proof.
  cbn [walk_in]. apply list_bind_ext; [|done]. intros k. rewrite get_map.
  by destruct (dict_get da k).
Qed.

Lemma walk_list la lb p :
  walk_in (JList la) p (Some (JList lb)) =
  seq 0 (length la `max` length lb) ≫= λ i, _walk (child_index p i) (la !! i) (lb !! i).
Proof.
  cbn [walk_in]. apply list_bind_ext; [|done]. intros i.
  change (List.map walk_in la) with (walk_in <$> la). rewrite list_lookup_fmap.
  by destruct (la !! i).
Qed.

Lemma walk_leaf a b p :
  (type_of a = type_of b → type_of a ∉ [TList; TDict]) →
  walk_in a p (Some b) = compare_leaf p a b.
Proof.
  intros Hne. destruct a, b; cbn; try done; exfalso; apply Hne; try done; set_solver.
Qed.

(** The three cases of a walk between present values. *)
Lemma walk_cases a b :
  (∃ da db, a = JObj da ∧ b = JObj db) ∨ (∃ la lb, a = JList la ∧ b = JList lb) ∨
  (type_of a = type_of b → type_of a ∉ [TList; TDict]).
Proof.
  destruct a, b; try (right; right; intros; cbn; set_solver); naive_solver.
Qed.

Lemma elem_of_key_union k l1 l2 : k ∈ key_union l1 l2 ↔ k ∈ l1 ∨ k ∈ l2.
Proof. unfold key_union. by rewrite elem_of_py_sorted, elem_of_remove_dups, elem_of_app. Qed.

Lemma key_union_NoDup l1 l2 : NoDup (key_union l1 l2).
Proof. unfold key_union. rewrite py_sorted_perm. apply NoDup_remove_dups. Qed.

Lemma compare_leaf_elem p a b d :
  (type_of a = type_of b → type_of a ∉ [TList; TDict]) →
  d ∈ compare_leaf p a b → path d = p ∧ verdict (Some a) (Some b) d.
Proof.
  unfold compare_leaf. intros Hne.
  destruct (py_eq a b) eqn:E, (bool_decide_reflect (type_of a = type_of b)); cbn [andb negb];
    rewrite ?list_elem_of_singleton; [by intros ?%elem_of_nil|..]; intros ->; cbn; split_and!; auto.
Qed.

Lemma walk_nil_leaf a b p :
  compare_leaf p a b = [] ↔ py_eq a b = true ∧ type_of a = type_of b.
Proof.
  unfold compare_leaf.
  destruct (py_eq a b), (bool_decide_reflect (type_of a = type_of b)); cbn; naive_solver.
Qed.

Lemma resolve_child a b t ts d :
  verdict (child a t ≫= λ x, resolve x ts) (child b t ≫= λ x, resolve x ts) d →
  verdict (resolve a (t :: ts)) (resolve b (t :: ts)) d.
Proof. done. Qed.

(** Every entry of a walk is located below the walk's path. *)
Definition locates (a : json) : Prop := ∀ p b d,
  d ∈ walk_in a p b →
  ∃ ts, path d = p ++ pointer ts ∧ verdict (resolve a ts) (b ≫= λ b, resolve b ts) d.

Lemma walk_locates oa ob p d :
  is_Some oa ∨ is_Some ob → (∀ a, oa = Some a → locates a) → d ∈ _walk p oa ob →
  ∃ ts, path d = p ++ pointer ts ∧
    verdict (oa ≫= λ a, resolve a ts) (ob ≫= λ b, resolve b ts) d.
Proof.
  intros Hs Ha Hd. destruct oa as [a|]; [by apply Ha in Hd|].
  destruct Hs as [[? [=]]|[b ->]]. apply list_elem_of_singleton in Hd as ->.
  exists []. by rewrite app_nil_r.
Qed.

Lemma Forall_get (P : json → Prop) (da : list (str * json)) k a :
  Forall (λ kv, P kv.2) da → dict_get da k = Some a → P a.
Proof.
  rewrite Forall_forall. intros Hd Hk%dict_get_Some_elem. by apply (Hd (k, a)).
Qed.

Lemma walk_in_locates a : locates a.
Proof.
  assert (∀ a : json,
    (∀ p da db d, a = JObj da → d ∈ walk_in a p (Some (JObj db)) →
       ∃ ts, path d = p ++ pointer ts ∧ verdict (resolve a ts) (resolve (JObj db) ts) d) →
    (∀ p la lb d, a = JList la → d ∈ walk_in a p (Some (JList lb)) →
       ∃ ts, path d = p ++ pointer ts ∧ verdict (resolve a ts) (resolve (JList lb) ts) d) →
    locates a) as Hcases.
  { intros a0 Ho Hl p [b|] d Hd.
    - destruct (walk_cases a0 b) as [(da & db & -> & ->)|[(la & lb & -> & ->)|Hne]]; [by eapply Ho|by eapply Hl|].
      rewrite walk_leaf in Hd by done. apply compare_leaf_elem in Hd as [-> Hv]; [|done].
      exists []. by rewrite app_nil_r.
    - destruct a0; apply list_elem_of_singleton in Hd as ->; exists []; by rewrite app_nil_r. }
  induction a as [| | | | |l IH|da IH] using json_ind'; apply Hcases; try done.
  - intros p la lb d [= <-] Hd. rewrite walk_list in Hd.
    apply list_elem_of_bind in Hd as (i & Hd & Hi%elem_of_seq).
    apply walk_locates in Hd as (ts & Hp & Hv).
    + exists (int_repr (Z.of_nat i) :: ts). split.
      * by rewrite Hp, child_index_key, child_key_pointer.
      * apply resolve_child. by rewrite !child_item.
    + rewrite !lookup_lt_is_Some. lia.
    + intros a Ha. rewrite Forall_lookup in IH. by eapply IH.
  - intros p da' db d [= <-] Hd. rewrite walk_obj in Hd.
    apply list_elem_of_bind in Hd as (k & Hd & Hk%elem_of_key_union).
    apply walk_locates in Hd as (ts & Hp & Hv).
    + exists (k :: ts). split; [by rewrite Hp, child_key_pointer|]. by apply resolve_child.
    + destruct Hk as [Hk|Hk]; [left|right];
        apply not_eq_None_Some; rewrite dict_get_None; naive_solver.
    + intros a Ha. by eapply (Forall_get locates).
Qed.
End walk.

(** ** No path twice *)

Section distinct.

Lemma fmap_bind_paths {A} (f : A → list FieldDiff) l :
  path <$> (l ≫= f) = l ≫= λ x, path <$> f x.
Proof. induction l as [|x l IH]; [done|]. csimpl. by rewrite fmap_app, IH. Qed.

Definition paths_distinct (a : json) : Prop := ∀ p b, NoDup (path <$> walk_in a p b).

Lemma walk_distinct oa ob p :
  (∀ a, oa = Some a → paths_distinct a) → NoDup (path <$> _walk p oa ob).
Proof. destruct oa as [a|]; intros Ha; [by apply Ha|apply NoDup_singleton]. Qed.

(** Every path of a walk extends the walk's own. *)
Lemma walk_extends oa ob p q :
  q ∈ path <$> _walk p oa ob → ∃ ts, q = p ++ pointer ts.
Proof.
  intros (d & -> & Hd)%list_elem_of_fmap. destruct oa as [a|].
  - apply walk_in_locates in Hd as (ts & -> & _). by exists ts.
  - apply list_elem_of_singleton in Hd as ->. exists []. by rewrite app_nil_r.
Qed.

Lemma walk_keys_distinct {A} (key : A → str) (oa ob : A → option json) ks p :
  (∀ x y, key x = key y → x = y) → NoDup ks →
  (∀ x a, oa x = Some a → paths_distinct a) →
  NoDup (path <$> (ks ≫= λ x, _walk (child_key p (key x)) (oa x) (ob x))).
Proof.
  intros Hkey Hks Ha. rewrite fmap_bind_paths. apply NoDup_bind; [|intros x _|done].
  - intros x y q _ _ (ts1 & ->)%walk_extends (ts2 & E)%walk_extends.
    rewrite !child_key_pointer in E. apply app_inv_head, pointer_inj in E. naive_solver.
  - apply walk_distinct. naive_solver.
Qed.

Lemma walk_in_distinct a : paths_distinct a.
Proof.
  induction a as [|x|x|x|x|la IH|da IH] using json_ind'; intros p [b|]; try apply NoDup_singleton.
  1-5: rewrite walk_leaf by (by cbn; set_solver); unfold compare_leaf;
    repeat case_match; (apply NoDup_nil_2 || apply NoDup_singleton).
  - destruct (walk_cases (JList la) b) as [(? & ? & ? & _)|[(? & lb & [= <-] & ->)|Hne]]; [done|..].
    + rewrite walk_list.
      rewrite (list_bind_ext _ (λ i, _walk (child_key p (int_repr (Z.of_nat i))) (la !! i) (lb !! i))
        (seq 0 _) (seq 0 (length la `max` length lb)));
        [|intros i; by rewrite child_index_key|done].
      apply (walk_keys_distinct (λ i, int_repr (Z.of_nat i))).
      * intros x y ?%int_repr_inj. lia.
      * apply NoDup_seq.
      * intros i a Hi. rewrite Forall_lookup in IH. by eapply IH.
    + rewrite walk_leaf by done. unfold compare_leaf.
      repeat case_match; (apply NoDup_nil_2 || apply NoDup_singleton).
  - destruct (walk_cases (JObj da) b) as [(? & db & [= <-] & ->)|[(? & ? & ? & _)|Hne]]; [|done|].
    + rewrite walk_obj. apply (walk_keys_distinct id).
      * done.
      * apply key_union_NoDup.
      * intros k a Hk. by eapply (Forall_get paths_distinct).
    + rewrite walk_leaf by done. unfold compare_leaf.
      repeat case_match; (apply NoDup_nil_2 || apply NoDup_singleton).
Qed.
End distinct.

(** ** The empty report *)

Section empty.

(** Objects with distinct keys and the same look-ups have the same members. *)
Lemma get_perm (d1 d2 : list (str * json)) :
  NoDup d1.*1 → NoDup d2.*1 → (∀ k, dict_get d1 k = dict_get d2 k) → d1 ≡ₚ d2.
Proof.
  intros Hn1 Hn2 Hg. apply NoDup_Permutation; [by eapply NoDup_fmap_1..|]. intros [k v]. split.
  - intros Hk%dict_get_NoDup; [|done]. rewrite Hg in Hk. by apply dict_get_Some_elem.
  - intros Hk%dict_get_NoDup; [|done]. rewrite <- Hg in Hk. by apply dict_get_Some_elem.
Qed.

Lemma json_sort_obj_eq da db :
  NoDup da.*1 → NoDup db.*1 →
  json_sort (JObj da) = json_sort (JObj db) ↔
  ∀ k, json_sort <$> dict_get da k = json_sort <$> dict_get db k.
Proof.
  intros Ha Hb. cbn [json_sort]. set (sa := List.map _ da). set (sb := List.map _ db).
  assert (sa.*1 = da.*1) as Ea by apply map_keys. assert (sb.*1 = db.*1) as Eb by apply map_keys.
  assert (∀ k, json_sort <$> dict_get da k = dict_get sa k) as Ga by (intros; by rewrite <- get_map).
  assert (∀ k, json_sort <$> dict_get db k = dict_get sb k) as Gb by (intros; by rewrite <- get_map).
  split.
  - intros [= E] k. rewrite Ga, Gb. apply dict_get_perm; [by rewrite Ea|].
    rewrite <- (py_sorted_perm key_leb sa), <- (py_sorted_perm key_leb sb). by rewrite E.
  - intros Hk. f_equal. apply (sort_members_perm str_leb).
    + intros k1 k2 _ _. apply (leb_antisym (leb:=str_leb)).
    + by rewrite Ea.
    + apply get_perm; [by rewrite Ea|by rewrite Eb|]. intros k. by rewrite <- Ga, <- Gb.
Qed.

Lemma json_sort_list_eq la lb :
  json_sort (JList la) = json_sort (JList lb) ↔
  ∀ i, json_sort <$> la !! i = json_sort <$> lb !! i.
Proof.
  cbn [json_sort]. change (List.map json_sort ?l) with (json_sort <$> l). split.
  - intros [= E] i. by rewrite <- !list_lookup_fmap, E.
  - intros Hi. f_equal. apply list_eq. intros i. by rewrite !list_lookup_fmap.
Qed.

Lemma bind_nil {A B} (f : A → list B) l : l ≫= f = [] ↔ ∀ x, x ∈ l → f x = [].
Proof.
  induction l as [|x l IH]; csimpl.
  - split; [by intros _ x ?%elem_of_nil|done].
  - split.
    + intros [Hx Hl]%app_nil y [->|Hy]%elem_of_cons; [done|]. by apply IH.
    + intros Hx. rewrite (Hx x) by left. apply IH. intros y Hy. apply Hx. by right.
Qed.

Lemma scalar_same a b :
  json_wf a → json_wf b → type_of a ∉ [TList; TDict] →
  py_eq a b = true ∧ type_of a = type_of b ↔ json_sort a = json_sort b.
Proof.
  intros Ha Hb Hs. destruct a as [|x|x|x|x|x|x], b as [|y|y|y|y|y|y]; cbn in *; try done;
    try (split; [by intros []|done]);
    try (exfalso; apply Hs; set_solver); unfold str_eqb;
    rewrite ?eqb_true_iff, ?Z.eqb_eq, ?bool_decide_eq_true; naive_solver.
Qed.

Definition empty_same (a : json) : Prop :=
  json_wf a → ∀ p b, json_wf b → walk_in a p (Some b) = [] ↔ json_sort a = json_sort b.

Lemma walk_same oa ob p :
  (∀ a, oa = Some a → json_wf a ∧ empty_same a) → (∀ b, ob = Some b → json_wf b) →
  is_Some oa ∨ is_Some ob →
  _walk p oa ob = [] ↔ json_sort <$> oa = json_sort <$> ob.
Proof.
  intros Ha Hb Hs. destruct oa as [a|], ob as [b|]; cbn.
  - destruct (Ha a eq_refl) as [Hw Hi].
    transitivity (json_sort a = json_sort b); [by apply Hi, Hb|]. split; congruence.
  - destruct a; done.
  - done.
  - by destruct Hs as [[]|[]].
Qed.

Lemma wf_member (da : list (str * json)) k a :
  json_wf (JObj da) → dict_get da k = Some a → json_wf a.
Proof.
  intros [_ Hd]%json_wf_obj Hk%dict_get_Some_elem. rewrite Forall_forall in Hd.
  by apply (Hd (k, a)).
Qed.

Lemma walk_in_same a : empty_same a.
Proof.
  assert (∀ a b p, json_wf a → json_wf b → (type_of a = type_of b → type_of a ∉ [TList; TDict]) →
    walk_in a p (Some b) = [] ↔ json_sort a = json_sort b) as Hleaf.
  { intros a0 b p Ha Hb Hne. rewrite walk_leaf, walk_nil_leaf by done.
    destruct (decide (type_of a0 ∈ [TList; TDict])) as [Hin|Hin]; [|by apply scalar_same].
    split; [naive_solver|]. intros E. exfalso. apply Hne; [|done].
    destruct a0, b; cbn in *; done. }
  induction a as [|x|x|x|x|la IH|da IH] using json_ind'; intros Ha p b Hb;
    try (apply Hleaf; [done..|cbn; set_solver]).
  - destruct (walk_cases (JList la) b) as [(? & ? & ? & _)|[(? & lb & [= <-] & ->)|Hne]];
      [done| |by apply Hleaf].
    rewrite walk_list, bind_nil, json_sort_list_eq.
    rewrite json_wf_list, Forall_lookup in Ha. rewrite json_wf_list, Forall_lookup in Hb.
    rewrite Forall_lookup in IH.
    assert (∀ i, i < length la `max` length lb →
      _walk (child_index p i) (la !! i) (lb !! i) = [] ↔ json_sort <$> la !! i = json_sort <$> lb !! i)%nat as Hi.
    { intros i Hi. apply walk_same; [by naive_solver|by eauto|]. rewrite !lookup_lt_is_Some. lia. }
    split; intros Hw i.
    + destruct (decide (i < length la `max` length lb)%nat) as [Hl|Hl].
      * apply Hi, Hw, elem_of_seq; lia.
      * rewrite (lookup_ge_None_2 la), (lookup_ge_None_2 lb) by lia. done.
    + intros Hl%elem_of_seq. apply Hi; [lia|done].
  - destruct (walk_cases (JObj da) b) as [(? & db & [= <-] & ->)|[(? & ? & ? & _)|Hne]];
      [|done|by apply Hleaf].
    rewrite walk_obj, bind_nil, json_sort_obj_eq
      by first [by apply json_wf_obj in Ha as []|by apply json_wf_obj in Hb as []].
    assert (∀ k, k ∈ key_union da.*1 db.*1 →
      _walk (child_key p k) (dict_get da k) (dict_get db k) = [] ↔
      json_sort <$> dict_get da k = json_sort <$> dict_get db k) as Hk.
    { intros k Hk%elem_of_key_union. apply walk_same.
      - intros a Hka. split; [by apply (wf_member da k)|by apply (Forall_get empty_same da k)].
      - intros b. by apply (wf_member db k).
      - destruct Hk; [left|right]; apply not_eq_None_Some; rewrite dict_get_None; auto. }
    split; intros Hw k.
    + destruct (decide (k ∈ key_union da.*1 db.*1)) as [Hin|Hin]; [by apply Hk, Hw|].
      rewrite elem_of_key_union in Hin.
      by rewrite (proj2 (dict_get_None da k)), (proj2 (dict_get_None db k)) by naive_solver.
    + intros Hin. by apply Hk.
Qed.
End empty.

(** ** The reports *)

Section reports.

#[export] Instance path_order : KeyOrder path_leb.
Proof. exact (key_order_on str_leb path). Qed.

Lemma coerce_id j : _coerce_for_jcs j = j.
Proof.
  induction j as [| | | | |l IH|d IH] using json_ind'; try done; cbn [_coerce_for_jcs]; f_equal.
  - rewrite <- (List.map_id l) at 2. by apply List.map_ext_Forall.
  - rewrite <- (List.map_id d) at 2. apply List.map_ext_Forall.
    eapply Forall_impl; [exact IH|]. intros [k v] E. cbn in *. by rewrite E.
Qed.

Lemma diff_nil_iff a b : diff_envelopes a b = [] ↔ walk_in a [] (Some b) = [].
Proof.
  unfold diff_envelopes. cbn [_walk]. split; [|by intros ->].
  intros E. apply Permutation_nil_r. rewrite <- E. symmetry. apply py_sorted_perm.
Qed.

Lemma diff_located a b d : d ∈ diff_envelopes a b → located a b d.
Proof.
  unfold diff_envelopes. rewrite elem_of_py_sorted. apply walk_in_locates.
Qed.

(** Every entry of a report is well formed: its path is a JSON pointer, the
    recorded values are the ones it leads to in the two envelopes, or are
    absent on the side the kind says, and a mismatch is between values of the
    types the kind says.  The paths are in order and no path occurs twice, and
    a path names one place. *)
Theorem diff_envelopes_located a b :
  (∀ d, d ∈ diff_envelopes a b → located a b d) ∧
  NoDup (path <$> diff_envelopes a b) ∧
  StronglySorted (λ x y, path_leb x y = true) (diff_envelopes a b) ∧
  (∀ ts1 ts2, pointer ts1 = pointer ts2 → ts1 = ts2).
Proof.
  split_and!.
  - apply diff_located.
  - unfold diff_envelopes. rewrite py_sorted_perm. apply walk_in_distinct.
  - apply py_sorted_sorted, _.
  - apply pointer_inj.
Qed.

Lemma diff_nil_same a b :
  json_wf a → json_wf b → diff_envelopes a b = [] ↔ json_sort a = json_sort b.
Proof. intros Ha Hb. rewrite diff_nil_iff. by apply walk_in_same. Qed.

Lemma canonicalize_envelope_wf j :
  json_wf j → ∃ b, canonicalize_envelope j = Ok b ∧ canonicalize j = Ok b.
Proof.
  intros Hj. destruct (canonicalize_wf j Hj) as (b & Hb & _). exists b.
  unfold canonicalize_envelope. by rewrite coerce_id, Hb.
Qed.

(** For envelopes without floats a report without entries means the same
    canonical bytes, and the other way round. *)
Theorem diff_empty_iff_bytes a b :
  json_wf a → json_wf b →
  diff_envelopes a b = [] ↔ canonicalize_envelope a = canonicalize_envelope b.
Proof.
  intros Ha Hb. rewrite diff_nil_same by done.
  rewrite <- canonical_bytes_same by done. unfold canonicalize_envelope. rewrite !coerce_id.
  destruct (canonicalize a), (canonicalize b); naive_solver.
Qed.

Context `{Sha256}.

(** The texts that are hashed for envelopes. *)
Definition envelope_messages (js : list json) : list bytes :=
  js ≫= λ j, ok_list (canonicalize_envelope j).

Lemma elem_of_envelope_messages js m :
  m ∈ envelope_messages js ↔ ∃ j, j ∈ js ∧ canonicalize_envelope j = Ok m.
Proof.
  unfold envelope_messages. rewrite list_elem_of_bind. setoid_rewrite elem_of_ok_list. naive_solver.
Qed.

Lemma envelope_messages_sub js js' : js ⊆ js' → envelope_messages js ⊆ envelope_messages js'.
Proof. intros Hs m. rewrite !elem_of_envelope_messages. naive_solver. Qed.

Lemma jcs_hash_wf j : json_wf j → ∃ b, jcs_hash j = Ok (u "sha256:" ++ hex (sha256 b)) ∧
  canonicalize j = Ok b.
Proof.
  intros (b & Hb & Hc)%canonicalize_envelope_wf. exists b. unfold jcs_hash. by rewrite Hb.
Qed.

Lemma canonical_envelope j b : json_wf j → canonicalize j = Ok b → canonicalize_envelope j = Ok b.
Proof. intros Hj Hb. unfold canonicalize_envelope. by rewrite coerce_id, Hb. Qed.

Lemma jcs_hash_eq a b h :
  json_wf a → json_wf b → jcs_hash a = Ok h → jcs_hash b = Ok h →
  json_sort a = json_sort b ∨ collision_in sha256 (envelope_messages [a; b]).
Proof.
  intros Ha Hb Ea Eb. destruct (jcs_hash_wf a Ha) as (x & Hx & Cx).
  destruct (jcs_hash_wf b Hb) as (y & Hy & Cy).
  rewrite Hx in Ea. rewrite Hy in Eb. apply Ok_inj in Ea. subst h. apply Ok_inj, app_inv_head, hex_inj in Eb as E.
  apply (eq_or_collision sha256 (envelope_messages [a; b])) in E as [->|?];
    [left|by right|apply elem_of_envelope_messages..].
  2: { exists b. split; [by right; left|by apply canonical_envelope]. }
  2: { exists a. split; [by left|by apply canonical_envelope]. }
  apply canonical_bytes_same; congruence.
Qed.

Lemma jcs_hash_same a b :
  json_wf a → json_wf b → json_sort a = json_sort b → jcs_hash a = jcs_hash b.
Proof.
  intros Ha Hb E%canonical_bytes_same; [|done..]. unfold jcs_hash, canonicalize_envelope.
  by rewrite !coerce_id, E.
Qed.

(** A comparison of two implementations that return values without floats
    always gives a report.  It is byte-identical exactly for envelopes that
    agree up to the order of members, unless the two hashed texts collide;
    otherwise it names at least one field. *)
Theorem compare_implementations_spec input_ impl_a impl_b ea eb :
  impl_a input_ = Ok ea → impl_b input_ = Ok eb → json_wf ea → json_wf eb →
  ∃ r, compare_implementations input_ impl_a impl_b = Ok r ∧
    envelope_a r = ea ∧ envelope_b r = eb ∧
    (json_sort ea = json_sort eb → byte_identical r = true) ∧
    (byte_identical r = true →
     json_sort ea = json_sort eb ∨ collision_in sha256 (envelope_messages [ea; eb])) ∧
    (field_diffs r = [] ↔ byte_identical r = true) ∧
    (∀ d, d ∈ field_diffs r → located ea eb d).
Proof.
  intros Ha Hb Wa Wb. unfold compare_implementations. rewrite Ha, Hb, !bind_Ok.
  destruct (jcs_hash_wf ea Wa) as (x & Hx & _), (jcs_hash_wf eb Wb) as (y & Hy & _).
  pose proof (jcs_hash_eq ea eb) as Heq. pose proof (jcs_hash_same ea eb Wa Wb) as Hsame.
  rewrite Hx, Hy in *. rewrite !bind_Ok. unfold str_eqb.
  destruct (bool_decide_reflect (u "sha256:" ++ hex (sha256 x) = u "sha256:" ++ hex (sha256 y)))
    as [E|E]; (eexists; split; [reflexivity|]); cbn [byte_identical field_diffs envelope_a envelope_b];
    split_and!; try done.
  - intros _. by apply (Heq _ Wa Wb eq_refl); rewrite E.
  - by intros d ?%elem_of_nil.
  - intros Hs%Hsame. congruence.
  - rewrite diff_nil_same by done. split; [|done]. intros Hs%Hsame. congruence.
  - apply diff_located.
Qed.
End reports.

(** ** Concrete envelopes *)

Module DiffExample.

#[local] Existing Instance checksum_sha256.

Definition doc_a : json :=
  JObj [(u "schema", JStr (u "v1")); (u "a/b", JList [JInt 1; JInt 2]); (u "n", JInt 1)].
Definition doc_b : json :=
  JObj [(u "n", JStr (u "1")); (u "schema", JStr (u "v2")); (u "a/b", JList [JInt 1])].
Definition doc_a' : json :=
  JObj [(u "n", JInt 1); (u "a/b", JList [JInt 1; JInt 2]); (u "schema", JStr (u "v1"))].

Lemma docs_wf : json_wf doc_a ∧ json_wf doc_b ∧ json_wf doc_a'.
Proof.
  split_and!; (split; [apply (bool_decide_unpack _); by vm_compute|]); cbn; repeat split;
    by vm_compute.
Qed.

Example diff_docs :
  diff_envelopes doc_a doc_b =
  [ {| path := u "/a~1b/1"; kind := ONLY_IN_A; value_a := JInt 2; value_b := JNull |};
    {| path := u "/n"; kind := TYPE_MISMATCH; value_a := JInt 1; value_b := JStr (u "1") |};
    {| path := u "/schema"; kind := VALUE_MISMATCH; value_a := JStr (u "v1");
       value_b := JStr (u "v2") |} ].
Proof. by vm_compute. Qed.

(** Three of four leaves drift. *)
Example score_docs :
  consistency_score doc_a doc_b (diff_envelopes doc_a doc_b) = float_of_decimal false 25 (-2).
Proof. by vm_compute. Qed.

Definition input0 : DiffInput :=
  {| org_id := []; persona_id := []; session_id := []; step_index := 0;
     output_kind := u "reply"; payload := []; ts_utc := [] |}.

Lemma diff_empty_iff_bytes_witness :
  diff_envelopes doc_a doc_a' = [] ↔ canonicalize_envelope doc_a = canonicalize_envelope doc_a'.
Proof. apply (diff_empty_iff_bytes doc_a doc_a'); apply docs_wf. Defined.

Lemma compare_implementations_spec_witness :
  ∃ r, compare_implementations input0 (λ _, Ok doc_a) (λ _, Ok doc_b) = Ok r ∧
    envelope_a r = doc_a ∧ envelope_b r = doc_b ∧
    (json_sort doc_a = json_sort doc_b → byte_identical r = true) ∧
    (byte_identical r = true →
     json_sort doc_a = json_sort doc_b ∨ collision_in sha256 (envelope_messages [doc_a; doc_b])) ∧
    (field_diffs r = [] ↔ byte_identical r = true) ∧
    (∀ d, d ∈ field_diffs r → located doc_a doc_b d).
Proof.
  apply (compare_implementations_spec input0 (λ _, Ok doc_a) (λ _, Ok doc_b) doc_a doc_b);
    [done|done|apply docs_wf..].
Defined.

(** Envelopes that share a field still score 0.0: the total is the larger leaf
    count, not the size of the union. *)
Example shared_field_scores_zero :
  let a := JObj [(u "s", JInt 1); (u "x", JInt 1)] in
  let b := JObj [(u "s", JInt 1); (u "y", JInt 1)] in
  diff_envelopes a b =
    [ {| path := u "/x"; kind := ONLY_IN_A; value_a := JInt 1; value_b := JNull |};
      {| path := u "/y"; kind := ONLY_IN_B; value_a := JNull; value_b := JInt 1 |} ] ∧
  consistency_score a b (diff_envelopes a b) = S754_zero false.
Proof. by vm_compute. Qed.

(** With floats the two notions differ: [0] and [0.0] have the same canonical
    bytes and are reported as a type mismatch. *)
Example zero_and_float_zero :
  let a := JObj [(u "n", JInt 0)] in
  let b := JObj [(u "n", JFloat (S754_zero false))] in
  canonicalize_envelope a = canonicalize_envelope b ∧
  diff_envelopes a b =
    [ {| path := u "/n"; kind := TYPE_MISMATCH; value_a := JInt 0;
         value_b := JFloat (S754_zero false) |} ].
Proof. by vm_compute. Qed.
End DiffExample.
