(* ===== verification/AuditStream.v ===== *)
(** * The bridge-audit writer, its stream format and the replay engine
      ([wirelang/persona_engine/bridge_audit_writer.py],
      [bridge_audit_stream_hash.py] and [bridge_audit_replay.py])

    Module [BridgeAudit] has the writer with its two sinks and the optional
    third one, and the JSONL form of a stream; module [Replay] compares two
    streams.  A record's fields are values of any type, as in the source; the
    writer makes texts and one integer of them.  The theorems: what the writer
    put into the structured sink reads back as the events it returned, with
    consecutive steps, whatever happened to the other sinks; the two stream
    hashes agree; a replay fails at the first step where the streams differ. *)

From S2P Require Import Prelude PyStr PyFloat Sha256 PyJson PyJsonLoads PyDyn PyTime PyRepr Jcs AuditDiff.
From Stdlib Require Import ZArith Lia SpecFloat.
Import Jcs.Jcs DiffEngine.

Open Scope Z_scope.

Inductive stream_error : Type :=
| UnicodeEncode      (* UnicodeEncodeError *)
| UnicodeDecode      (* UnicodeDecodeError *)
| JSONDecode         (* json.JSONDecodeError *)
| BadRecord          (* KeyError or TypeError of a subscript *)
| UnknownOutputKind  (* ValueError of emit *)
| BadBridgeMode.     (* ValueError of resolve_bridge_mode *)

Module BridgeAudit.

Definition ENGINEERING_OUTPUT_SCHEMA : str := u "wakir.persona.engineering-output/1".
Definition EVENT_KIND : str := u "engineering_output".

Record EngineeringOutputEvent : Type := {
  org_id : json;
  persona_id : json;
  session_id : json;
  step_index : json;
  output_kind : json;
  output_payload_sha256 : json;
  engine_version : json;
  v907_pin : json;
  ts_utc : json;
}.

(** The envelope of a record; [to_jcs_bytes] writes the same members. *)
Definition record_envelope (record : EngineeringOutputEvent) : json :=
  JObj [(u "engine_version", engine_version record);
        (u "event_kind", JStr EVENT_KIND);
        (u "org_id", org_id record);
        (u "output_kind", output_kind record);
        (u "output_payload_sha256", output_payload_sha256 record);
        (u "persona_id", persona_id record);
        (u "schema", JStr ENGINEERING_OUTPUT_SCHEMA);
        (u "session_id", session_id record);
        (u "step_index", step_index record);
        (u "ts_utc", ts_utc record);
        (u "v907_pin", v907_pin record)].

(** Sorted, compact [json.dumps(...).encode("utf-8")] *)
Definition _jcs_bytes (value : json) : result stream_error bytes :=
  of_option UnicodeEncode (utf8_encode (json_dumps false true value)).

Definition to_jcs_bytes (evt : EngineeringOutputEvent) : result stream_error bytes :=
  _jcs_bytes (record_envelope evt).

Definition sha256_hex `{Sha256} (payload : bytes) : str := u "sha256:" ++ hex (sha256 payload).

Definition payload_sha256 `{Sha256} (evt : EngineeringOutputEvent) : result stream_error str :=
  b ← to_jcs_bytes evt; Ok (sha256_hex b).

(** ** The stream *)

Definition stream_envelope (records : list EngineeringOutputEvent) : json :=
  JObj [(u "stream", JList (record_envelope <$> records));
        (u "stream_len", JInt (Z.of_nat (length records)))].

Definition stream_hash `{Sha256} (records : list EngineeringOutputEvent)
    : result stream_error str :=
  b ← _jcs_bytes (stream_envelope records); Ok (sha256_hex b).

Definition newline_byte : Byte.byte := byte_of_Z 10.

Definition records_to_jsonl_bytes (records : list EngineeringOutputEvent)
    : result stream_error bytes :=
  lines ← mapM (λ r, _jcs_bytes (record_envelope r)) records;
  Ok (concat ((λ l, l ++ [newline_byte]) <$> lines)).

(** [data.splitlines()] of bytes: a line ends at a line feed, a carriage
    return, or both. *)
Fixpoint splitlines (cur : list Z) (data : list Z) : list (list Z) :=
  match data with
  | [] => match cur with [] => [] | _ => [reverse cur] end
  | c :: data' =>
      if c =? 10 then reverse cur :: splitlines [] data'
      else if c =? 13 then
        match data' with
        | d :: data'' => if d =? 10 then reverse cur :: splitlines [] data''
                         else reverse cur :: splitlines [] data'
        | [] => [reverse cur]
        end
      else splitlines (c :: cur) data'
  end.

(** [line.strip()] of bytes leaves something. *)
Definition not_blank (line : list Z) : bool := negb (forallb is_ascii_space line).

Definition field (env : json) (k : str) : result stream_error json :=
  map_err (λ _, BadRecord) (getitem env k).

Definition read_record (line : list Z) : result stream_error EngineeringOutputEvent :=
  text ← of_option UnicodeDecode (utf8_decode (byte_of_Z <$> line));
  env ← of_option JSONDecode (json_loads text);
  o ← field env (u "org_id");
  p ← field env (u "persona_id");
  s ← field env (u "session_id");
  i ← field env (u "step_index");
  k ← field env (u "output_kind");
  h ← field env (u "output_payload_sha256");
  e ← field env (u "engine_version");
  v ← field env (u "v907_pin");
  t ← field env (u "ts_utc");
  Ok {| org_id := o; persona_id := p; session_id := s; step_index := i; output_kind := k;
        output_payload_sha256 := h; engine_version := e; v907_pin := v; ts_utc := t |}.

Definition jsonl_bytes_to_records (data : bytes) : result stream_error (list EngineeringOutputEvent) :=
  mapM read_record (filter (λ l, not_blank l = true) (splitlines [] (Z_of_byte <$> data))).

(** ** The writer *)

Definition BRIDGE_MODE_ENV : str := u "WAKIR_BRIDGE_MODE".
Definition TWO_WAY : str := u "2way".
Definition THREE_WAY : str := u "3way".
Definition mode_values : list str := [TWO_WAY; THREE_WAY].
Definition DEFAULT_BRIDGE_MODE : str := TWO_WAY.

(** [resolve_bridge_mode(env)]; [env] is the mapping it was given or the
    process environment. *)
Definition resolve_bridge_mode (env : list (str * str)) : result stream_error str :=
  let raw := default DEFAULT_BRIDGE_MODE (dict_get env BRIDGE_MODE_ENV) in
  if bool_decide (raw ∈ mode_values) then Ok raw else Err BadBridgeMode.

(** The object, with the content of its two sinks and the calls of the third
    one. *)
Record BridgeAuditWriter : Type := {
  w_org_id : str;
  w_persona_id : str;
  w_session_id : str;
  w_engine_version : str;
  w_v907_pin : str;
  preframework_sink_path : str;
  bridge_mode : str;
  rust_engine_adapter : bool;            (* is one set *)
  _step_counter : Z;
  preframework_sink : bytes;             (* the Markdown file *)
  wakir_runtime_sink : str;              (* the structured log *)
  adapter_calls : list (EngineeringOutputEvent * bytes);
}.

Definition with_sink (f : bytes → bytes) (w : BridgeAuditWriter) : BridgeAuditWriter :=
  {| w_org_id := w_org_id w; w_persona_id := w_persona_id w; w_session_id := w_session_id w;
     w_engine_version := w_engine_version w; w_v907_pin := w_v907_pin w;
     preframework_sink_path := preframework_sink_path w; bridge_mode := bridge_mode w;
     rust_engine_adapter := rust_engine_adapter w; _step_counter := _step_counter w;
     preframework_sink := f (preframework_sink w); wakir_runtime_sink := wakir_runtime_sink w;
     adapter_calls := adapter_calls w |}.

Definition with_log (f : str → str) (w : BridgeAuditWriter) : BridgeAuditWriter :=
  {| w_org_id := w_org_id w; w_persona_id := w_persona_id w; w_session_id := w_session_id w;
     w_engine_version := w_engine_version w; w_v907_pin := w_v907_pin w;
     preframework_sink_path := preframework_sink_path w; bridge_mode := bridge_mode w;
     rust_engine_adapter := rust_engine_adapter w; _step_counter := _step_counter w;
     preframework_sink := preframework_sink w; wakir_runtime_sink := f (wakir_runtime_sink w);
     adapter_calls := adapter_calls w |}.

Definition with_calls (f : list (EngineeringOutputEvent * bytes) → list (EngineeringOutputEvent * bytes))
    (w : BridgeAuditWriter) : BridgeAuditWriter :=
  {| w_org_id := w_org_id w; w_persona_id := w_persona_id w; w_session_id := w_session_id w;
     w_engine_version := w_engine_version w; w_v907_pin := w_v907_pin w;
     preframework_sink_path := preframework_sink_path w; bridge_mode := bridge_mode w;
     rust_engine_adapter := rust_engine_adapter w; _step_counter := _step_counter w;
     preframework_sink := preframework_sink w; wakir_runtime_sink := wakir_runtime_sink w;
     adapter_calls := f (adapter_calls w) |}.

Definition with_step (n : Z) (w : BridgeAuditWriter) : BridgeAuditWriter :=
  {| w_org_id := w_org_id w; w_persona_id := w_persona_id w; w_session_id := w_session_id w;
     w_engine_version := w_engine_version w; w_v907_pin := w_v907_pin w;
     preframework_sink_path := preframework_sink_path w; bridge_mode := bridge_mode w;
     rust_engine_adapter := rust_engine_adapter w; _step_counter := n;
     preframework_sink := preframework_sink w; wakir_runtime_sink := wakir_runtime_sink w;
     adapter_calls := adapter_calls w |}.

(** [__init__]: [sink] and [log] are what the two sinks already hold, [env] the
    mapping it was given or the process environment. *)
Definition init (org persona session version pin : str) (path_arg mode_arg : option str)
    (env : list (str * str)) (adapter : bool) (sink : bytes) (log : str)
    : result stream_error BridgeAuditWriter :=
  mode ← match mode_arg with Some m => Ok m | None => resolve_bridge_mode env end;
  Ok {| w_org_id := org; w_persona_id := persona; w_session_id := session;
        w_engine_version := version; w_v907_pin := pin;
        preframework_sink_path :=
          default (u "/var/lib/wakir/persona/" ++ persona ++ u "/bridge-audit.md") path_arg;
        bridge_mode := mode; rust_engine_adapter := adapter; _step_counter := 0;
        preframework_sink := sink; wakir_runtime_sink := log; adapter_calls := [] |}.

(** [strftime("%Y-%m-%dT%H:%M:%SZ", gmtime())] *)
Definition _utc_now_rfc3339 (secs : Z) : str :=
  let '(y, m, d) := civil_from_days (secs / 86400) in
  let s := secs `mod` 86400 in
  int_repr y ++ u "-" ++ PyTime.pad 2 m ++ u "-" ++ PyTime.pad 2 d ++ u "T" ++
  PyTime.pad 2 (s / 3600) ++ u ":" ++ PyTime.pad 2 ((s / 60) `mod` 60) ++ u ":" ++
  PyTime.pad 2 (s `mod` 60) ++ u "Z".

(** How the file system answers the Markdown sink: [mkdir] or [open] raises, the
    buffered text is flushed in part before an [OSError], or all of it is. *)
Inductive file_outcome : Type := NoDirectory | NoOpen | ShortWrite (n : nat) | Written.

(** The buffer reaches the file; [None] when the flush raised [OSError]. *)
Definition flush (outcome : file_outcome) (pending : bytes) : bytes * bool :=
  match outcome with
  | NoDirectory | NoOpen => ([], false)
  | ShortWrite n => (take n pending, false)
  | Written => (pending, true)
  end.

Definition sink_header (evt : EngineeringOutputEvent) : str :=
  [10] ++ u "## step " ++ py_str (step_index evt) ++ [32; 0x2014; 32] ++
  py_str (output_kind evt) ++ u " (" ++ py_str (ts_utc evt) ++ u ")" ++ [10; 10].

Definition fence_open : bytes := byte_of_Z <$> u "```json" ++ [10].
Definition fence_close : bytes := byte_of_Z <$> [10] ++ u "```" ++ [10].

(** An encoding error leaves the [with] block after what was written so far is
    flushed; an [OSError] of that flush takes its place and is swallowed. *)
Definition _write_preframework_sink (outcome : file_outcome) (evt : EngineeringOutputEvent)
    : stm BridgeAuditWriter stream_error () :=
  match outcome with
  | NoDirectory | NoOpen => mret ()
  | _ =>
      match utf8_encode (sink_header evt) with
      | None => throw UnicodeEncode
      | Some header =>
          let '(pending, err) :=
            match to_jcs_bytes evt with
            | Ok body => (header ++ fence_open ++ body ++ fence_close, None)
            | Err e => (header ++ fence_open, Some e)
            end in
          let '(written, complete) := flush outcome pending in
          modify (with_sink (λ s, s ++ written)) ;;
          match err with
          | Some e => if complete then throw e else mret ()
          | None => mret ()
          end
      end
  end.

Definition _write_wakir_runtime_sink (evt : EngineeringOutputEvent)
    : stm BridgeAuditWriter stream_error () :=
  b ← lift (to_jcs_bytes evt);
  s ← lift (of_option UnicodeDecode (utf8_decode b));
  modify (with_log (λ l, l ++ s ++ [10])).

(** Whatever the adapter does, its exceptions are swallowed. *)
Definition _invoke_rust_engine_adapter_if_3way (evt : EngineeringOutputEvent) (payload : bytes)
    : stm BridgeAuditWriter stream_error () :=
  w ← Prelude.get;
  if negb (str_eqb (bridge_mode w) THREE_WAY) then mret ()
  else if negb (rust_engine_adapter w) then mret ()
  else modify (with_calls (λ l, l ++ [(evt, payload)])).

Definition output_kinds : list str := [u "tool_call"; u "reply"; u "audit_annotation"].

Definition emit `{Sha256} (kind : str) (payload : bytes) (ts : option str)
    (now : Z) (outcome : file_outcome) : stm BridgeAuditWriter stream_error EngineeringOutputEvent :=
  if negb (bool_decide (kind ∈ output_kinds)) then throw UnknownOutputKind
  else
    w ← Prelude.get;
    let stamp := match ts with
                 | Some t => if str_empty t then _utc_now_rfc3339 now else t
                 | None => _utc_now_rfc3339 now
                 end in
    let evt :=
      {| org_id := JStr (w_org_id w); persona_id := JStr (w_persona_id w);
         session_id := JStr (w_session_id w); step_index := JInt (_step_counter w);
         output_kind := JStr kind; output_payload_sha256 := JStr (sha256_hex payload);
         engine_version := JStr (w_engine_version w); v907_pin := JStr (w_v907_pin w);
         ts_utc := JStr stamp |} in
    modify (with_step (_step_counter w + 1)) ;;
    _write_preframework_sink outcome evt ;;
    _write_wakir_runtime_sink evt ;;
    _invoke_rust_engine_adapter_if_3way evt payload ;;
    mret evt.
End BridgeAudit.

(** ** The replay engine *)

Module Replay.

(** [AuditRecord] has the fields of the writer's event. *)
Notation AuditRecord := BridgeAudit.EngineeringOutputEvent.

Definition with_index (r : AuditRecord) (z : Z) : AuditRecord :=
  {| BridgeAudit.org_id := BridgeAudit.org_id r;
     BridgeAudit.persona_id := BridgeAudit.persona_id r;
     BridgeAudit.session_id := BridgeAudit.session_id r;
     BridgeAudit.step_index := JInt z;
     BridgeAudit.output_kind := BridgeAudit.output_kind r;
     BridgeAudit.output_payload_sha256 := BridgeAudit.output_payload_sha256 r;
     BridgeAudit.engine_version := BridgeAudit.engine_version r;
     BridgeAudit.v907_pin := BridgeAudit.v907_pin r;
     BridgeAudit.ts_utc := BridgeAudit.ts_utc r |}.

Definition from_writer_event (evt : BridgeAudit.EngineeringOutputEvent)
    : result audit_error AuditRecord :=
  z ← of_option IntRaised (py_int (BridgeAudit.step_index evt));
  Ok (with_index evt z).

Definition to_envelope (r : AuditRecord) : result audit_error json :=
  z ← of_option IntRaised (py_int (BridgeAudit.step_index r));
  Ok (BridgeAudit.record_envelope (with_index r z)).

Definition record_hash `{Sha256} (r : AuditRecord) : result audit_error str :=
  e ← to_envelope r; jcs_hash e.

Inductive DivergenceKind : Type := VALUE_MISMATCH | MISSING_IN_ACTUAL | EXTRA_IN_ACTUAL.

Record Divergence : Type := {
  step_index : nat;
  kind : DivergenceKind;
  expected : option AuditRecord;
  actual : option AuditRecord;
  expected_hash : option str;
  actual_hash : option str;
  field_diffs : list FieldDiff;
}.

Record ReplayReport : Type := {
  success : bool;
  actual_record_count : nat;
  expected_record_count : nat;
  time_to_divergence_steps : option nat;
  divergences : list Divergence;
  stream_hash_actual : str;
  stream_hash_expected : str;
}.

Definition _build_stream_envelope (records : list AuditRecord) : result audit_error json :=
  arr ← mapM to_envelope records;
  Ok (JObj [(u "stream", JList arr); (u "stream_len", JInt (Z.of_nat (length arr)))]).

Definition replay_stream_hash `{Sha256} (records : list AuditRecord) : result audit_error str :=
  e ← _build_stream_envelope records; jcs_hash e.

(** One turn of the loop: the divergence it appends, if any. *)
Definition compare_step `{Sha256} (actual_ expected_ : list AuditRecord) (i : nat)
    : result audit_error (list Divergence) :=
  match actual_ !! i, expected_ !! i with
  | Some act, Some exp =>
      a_hash ← record_hash act;
      e_hash ← record_hash exp;
      if str_eqb a_hash e_hash then Ok []
      else
        a_env ← to_envelope act;
        e_env ← to_envelope exp;
        Ok [{| step_index := i; kind := VALUE_MISMATCH; expected := Some exp; actual := Some act;
               expected_hash := Some e_hash; actual_hash := Some a_hash;
               field_diffs := diff_envelopes a_env e_env |}]
  | Some act, None =>
      a_hash ← record_hash act;
      Ok [{| step_index := i; kind := EXTRA_IN_ACTUAL; expected := None; actual := Some act;
             expected_hash := None; actual_hash := Some a_hash; field_diffs := [] |}]
  | None, Some exp =>
      e_hash ← record_hash exp;
      Ok [{| step_index := i; kind := MISSING_IN_ACTUAL; expected := Some exp; actual := None;
             expected_hash := Some e_hash; actual_hash := None; field_diffs := [] |}]
  | None, None => Ok []
  end.

Definition replay_stream `{Sha256} (actual_ expected_ : list AuditRecord)
    : result audit_error ReplayReport :=
  sh_actual ← replay_stream_hash actual_;
  sh_expected ← replay_stream_hash expected_;
  if str_eqb sh_actual sh_expected then
    Ok {| success := true; actual_record_count := length actual_;
          expected_record_count := length expected_; time_to_divergence_steps := None;
          divergences := []; stream_hash_actual := sh_actual;
          stream_hash_expected := sh_expected |}
  else
    found ← mapM (compare_step actual_ expected_) (seq 0 (length actual_ `max` length expected_));
    let ds := mjoin found in
    Ok {| success := bool_decide (length ds = 0%nat); actual_record_count := length actual_;
          expected_record_count := length expected_;
          time_to_divergence_steps := step_index <$> head ds;
          divergences := ds; stream_hash_actual := sh_actual;
          stream_hash_expected := sh_expected |}.

(** [summary()] *)
Definition summary (r : ReplayReport) : str :=
  if success r then
    u "replay-ok records=" ++ int_repr (Z.of_nat (actual_record_count r)) ++
    u " stream_hash=" ++ stream_hash_actual r
  else
    u "replay-drift first_step=" ++
    match time_to_divergence_steps r with
    | None => u "-"
    | Some n => int_repr (Z.of_nat n)
    end ++
    u " divergences=" ++ int_repr (Z.of_nat (length (divergences r))) ++
    u " actual_hash=" ++ stream_hash_actual r ++
    u " expected_hash=" ++ stream_hash_expected r.
End Replay.

Import BridgeAudit.

(** ** The stream format *)

(** Destruct an event into its texts and its step. *)
Ltac event H e :=
  let e' := fresh in
  rename e into e'; destruct e'; destruct H as [((? & ? & ?) & (? & ? & ?) & (? & ? & ?) &
    (? & ? & ?) & (? & ? & ?) & (? & ? & ?) & (? & ? & ?) & (? & ? & ?)) [? ?]];
  cbn [org_id persona_id session_id step_index output_kind output_payload_sha256
    engine_version v907_pin ts_utc] in *; subst.

Section format.

(** What the writer makes: encodable texts and one integer. *)
Definition text (j : json) : Prop := ∃ s, j = JStr s ∧ okstr s.

Definition event_ok (e : EngineeringOutputEvent) : Prop :=
  (text (org_id e) ∧ text (persona_id e) ∧ text (session_id e) ∧
   text (output_kind e) ∧ text (output_payload_sha256 e) ∧ text (engine_version e) ∧
   text (v907_pin e) ∧ text (ts_utc e)) ∧ ∃ z, step_index e = JInt z.

Lemma event_wf e : event_ok e → json_wf (record_envelope e).
Proof.
  intros H. event H e. apply json_wf_obj. split; [apply (bool_decide_unpack _); by vm_compute|].
  repeat (apply Forall_cons; split; [split; [by vm_compute|by cbn]|]). constructor.
Qed.

Lemma event_sorted e : event_ok e → json_sort (record_envelope e) = record_envelope e.
Proof. intros H. event H e. vm_compute. reflexivity. Qed.

Lemma event_line e :
  event_ok e → ∃ b, to_jcs_bytes e = Ok b ∧
    utf8_encode (json_print (quote false) (record_envelope e)) = Some b.
Proof.
  intros He. unfold to_jcs_bytes, _jcs_bytes, json_dumps. rewrite event_sorted by done.
  pose proof (event_wf e He) as Hw.
  assert (Forall okchar (json_print (quote false) (record_envelope e))) as Ho
    by by apply print_okchars.
  apply okstr_Forall, utf8_encode_encodable in Ho as [b Hb]. exists b. by rewrite Hb.
Qed.

(** A printed value has no control characters, so its bytes have none. *)
Lemma escape_no_control c : 0 ≤ c → Forall (λ c, 32 ≤ c) (escape_char c).
Proof.
  intros Hc. assert (∀ n, 0 ≤ n < 16 → 32 ≤ hex_digit n) as Hd.
  { intros n Hn. unfold hex_digit. destruct (Z.ltb_spec n 10); lia. }
  unfold escape_char. repeat case_match; propify; try (by repeat constructor).
  - unfold u_escape. repeat (constructor; [first [done|apply Hd; divlia]|]). constructor.
  - unfold in_range in *. propify. repeat constructor. lia.
Qed.

Lemma quote_no_control s : okstr s → Forall (λ c, 32 ≤ c) (quote false s).
Proof.
  intros Hs%okstr_Forall. unfold quote. constructor; [done|]. apply Forall_app.
  split; [|by repeat constructor]. apply Forall_bind. eapply Forall_impl; [exact Hs|].
  intros c Hc%okchar_range. apply escape_no_control. lia.
Qed.

Lemma units_no_control s l :
  utf8_units s = Some l → Forall (λ c, 32 ≤ c) s → Forall (λ c, 32 ≤ c) l.
Proof.
  intros Hl Hs. revert l Hl. induction Hs as [|c s Hc _ IH]; intros l Hl; cbn in Hl.
  - by injection Hl as <-.
  - apply bind_Some in Hl as (a & Ha & (r & Hr & [= <-])%bind_Some).
    apply Forall_app. split; [|by apply IH]. unfold utf8_char in Ha.
    repeat case_match; simplify_eq/=; propify; repeat constructor; divlia.
Qed.

Lemma line_no_control j b :
  json_wf j → utf8_encode (json_print (quote false) j) = Some b →
  Forall (λ c, 32 ≤ c) (Z_of_byte <$> b).
Proof.
  intros Hj Hb%utf8_encode_units. eapply units_no_control; [exact Hb|].
  apply print_chars; [intros; simpl; lia|apply quote_no_control|done].
Qed.

Lemma splitlines_line cur l r :
  Forall (λ c, 32 ≤ c) l →
  splitlines cur (l ++ 10 :: r) = (reverse cur ++ l) :: splitlines [] r.
Proof.
  intros Hl. revert cur. induction Hl as [|c l Hc _ IH]; intros cur; cbn.
  - by rewrite app_nil_r.
  - rewrite (proj2 (Z.eqb_neq c 10)), (proj2 (Z.eqb_neq c 13)) by lia.
    rewrite IH, reverse_cons. by rewrite <- app_assoc.
Qed.

(** A line of the stream is read back. *)
Lemma read_event_line e b :
  event_ok e → to_jcs_bytes e = Ok b → read_record (Z_of_byte <$> b) = Ok e.
Proof.
  intros He Hb. destruct (event_line e He) as (b' & Hb' & Hu). rewrite Hb in Hb'.
  injection Hb' as <-. unfold read_record.
  assert (byte_of_Z <$> (Z_of_byte <$> b) = b) as ->.
  { rewrite <- list_fmap_compose. rewrite <- (list_fmap_id b) at 2.
    apply list_fmap_ext. intros i x _. apply byte_of_Z_of_byte. }
  rewrite (utf8_decode_encode _ _ Hu). cbn [of_option]. rewrite bind_Ok.
  rewrite json_loads_print by by apply event_wf. by destruct e.
Qed.

Lemma event_line_nonblank e b :
  event_ok e → to_jcs_bytes e = Ok b → not_blank (Z_of_byte <$> b) = true.
Proof.
  intros He Hb. destruct (event_line e He) as (b' & Hb' & Hu%utf8_encode_units). rewrite Hb in Hb'.
  injection Hb' as <-. unfold record_envelope in Hu. cbn [json_print] in Hu.
  change (u "{") with [123] in Hu. cbn [app utf8_units] in Hu.
  apply bind_Some in Hu as (a & [= <-] & (r & _ & [= <-])%bind_Some). done.
Qed.

Definition jsonl (lines : list bytes) : bytes := concat ((λ l, l ++ [newline_byte]) <$> lines).

Lemma read_jsonl es lines :
  Forall event_ok es → Forall2 (λ e b, to_jcs_bytes e = Ok b) es lines →
  jsonl_bytes_to_records (jsonl lines) = Ok es.
Proof.
  unfold jsonl_bytes_to_records, jsonl. intros He Hl. induction Hl as [|e b es lines Hb _ IH]; [done|].
  apply Forall_cons in He as [He Hes]. specialize (IH Hes).
  destruct (event_line e He) as (b' & Hb' & Hu). rewrite Hb in Hb'. injection Hb' as <-.
  csimpl. rewrite <- app_assoc, fmap_app. cbn [app]. rewrite fmap_cons.
  change (Z_of_byte newline_byte) with 10.
  rewrite splitlines_line by (eapply line_no_control; [by apply event_wf|done]).
  cbn [reverse rev_append app]. rewrite filter_cons, decide_True by by eapply event_line_nonblank.
  apply mapM_ok. constructor; [by apply read_event_line|by apply mapM_ok].
Qed.

(** The stream format keeps every record: the lines of any records whose texts
    can be encoded read back as the same records, in order. *)
Theorem jsonl_roundtrip es :
  Forall event_ok es →
  ∃ b, records_to_jsonl_bytes es = Ok b ∧ jsonl_bytes_to_records b = Ok es.
Proof.
  intros He.
  assert (∃ lines, Forall2 (λ e b, to_jcs_bytes e = Ok b) es lines) as [lines Hl].
  { induction He as [|e es He _ [lines IH]]; [by exists []|].
    destruct (event_line e He) as (b & Hb & _). exists (b :: lines). by constructor. }
  exists (jsonl lines). split; [|by apply read_jsonl].
  unfold records_to_jsonl_bytes. rewrite (proj2 (mapM_ok _ es lines)); [done|]. exact Hl.
Qed.
End format.

(** ** The writer *)

Section writer.
Context `{Sha256}.

Lemma utf8_units_app s t a b :
  utf8_units s = Some a → utf8_units t = Some b → utf8_units (s ++ t) = Some (a ++ b).
Proof.
  revert a. induction s as [|c s IH]; intros a Hs Ht; cbn in *; [by injection Hs as <-|].
  apply bind_Some in Hs as (x & Hx & (r & Hr & [= <-])%bind_Some).
  rewrite Hx. cbn. rewrite (IH r) by done. cbn. by rewrite <- app_assoc.
Qed.

Lemma utf8_encode_app s t a b :
  utf8_encode s = Some a → utf8_encode t = Some b → utf8_encode (s ++ t) = Some (a ++ b).
Proof.
  unfold utf8_encode. intros (x & Hx & ->)%fmap_Some (y & Hy & ->)%fmap_Some.
  rewrite (utf8_units_app _ _ x y) by done. cbn. by rewrite fmap_app.
Qed.

(** The texts the writer was made with can be encoded. *)
Definition writer_ok (w : BridgeAuditWriter) : Prop :=
  okstr (w_org_id w) ∧ okstr (w_persona_id w) ∧ okstr (w_session_id w) ∧
  okstr (w_engine_version w) ∧ okstr (w_v907_pin w).

(** One call of [emit]: its arguments, the clock and the file system. *)
Record emit_call : Type := {
  c_kind : str;
  c_payload : bytes;
  c_ts : option str;
  c_now : Z;
  c_outcome : file_outcome;
}.

Definition emit_of (c : emit_call) : stm BridgeAuditWriter stream_error EngineeringOutputEvent :=
  emit (c_kind c) (c_payload c) (c_ts c) (c_now c) (c_outcome c).

(** A session: the calls in order, exceptions caught by the caller. *)
Fixpoint session (cs : list emit_call) (w : BridgeAuditWriter)
    : BridgeAuditWriter * list (result stream_error EngineeringOutputEvent) :=
  match cs with
  | [] => (w, [])
  | c :: cs' =>
      let '(w1, r) := emit_of c w in
      let '(w2, rs) := session cs' w1 in (w2, r :: rs)
  end.

Definition returned (rs : list (result stream_error EngineeringOutputEvent))
    : list EngineeringOutputEvent :=
  omap (λ r, match r with Ok e => Some e | Err _ => None end) rs.

(** The three sinks leave the fields of the object alone. *)
Definition same_config (w w' : BridgeAuditWriter) : Prop :=
  w_org_id w' = w_org_id w ∧ w_persona_id w' = w_persona_id w ∧
  w_session_id w' = w_session_id w ∧ w_engine_version w' = w_engine_version w ∧
  w_v907_pin w' = w_v907_pin w ∧ bridge_mode w' = bridge_mode w ∧
  rust_engine_adapter w' = rust_engine_adapter w.

Lemma same_config_trans w1 w2 w3 : same_config w1 w2 → same_config w2 w3 → same_config w1 w3.
Proof. unfold same_config. naive_solver congruence. Qed.

Lemma writer_ok_config w w' : same_config w w' → writer_ok w → writer_ok w'.
Proof. unfold same_config, writer_ok. intros (-> & -> & -> & -> & -> & _). done. Qed.

Lemma to_jcs_error evt e : to_jcs_bytes evt = Err e → e = UnicodeEncode.
Proof.
  unfold to_jcs_bytes, _jcs_bytes. destruct (utf8_encode _); [done|]. by intros [= <-].
Qed.

(** The Markdown sink touches its file only. *)
Lemma markdown_sink_step o evt w :
  ∃ f r, _write_preframework_sink o evt w = (with_sink f w, r) ∧
    (r = Ok () ∨ r = Err UnicodeEncode).
Proof.
  assert (w = with_sink id w) as Hid by by destruct w.
  unfold _write_preframework_sink.
  destruct o as [| |n|]; [exists id, (Ok ()); rewrite <- Hid; by auto..| |].
  all: destruct (utf8_encode (sink_header evt)) as [h|];
    [|exists id, (Err UnicodeEncode); rewrite <- Hid; by auto].
  all: destruct (to_jcs_bytes evt) as [body|e] eqn:Eb; [|apply to_jcs_error in Eb as ->].
  all: eexists _, _; split; [reflexivity|by auto].
Qed.

(** An event whose line cannot be written raises and leaves the log alone. *)
Lemma runtime_sink_ok evt w b :
  event_ok evt → to_jcs_bytes evt = Ok b →
  ∃ s, utf8_encode s = Some b ∧
    _write_wakir_runtime_sink evt w = (with_log (λ l, l ++ s ++ [10]) w, Ok ()).
Proof.
  intros He Hb. destruct (event_line evt He) as (b' & Hb' & Hu). rewrite Hb in Hb'.
  injection Hb' as <-. eexists. split; [exact Hu|].
  unfold _write_wakir_runtime_sink, lift, mbind, stm_bind. rewrite Hb.
  by rewrite (utf8_decode_encode _ _ Hu).
Qed.

Lemma runtime_sink_err evt w e :
  to_jcs_bytes evt = Err e → _write_wakir_runtime_sink evt w = (w, Err e).
Proof. unfold _write_wakir_runtime_sink, lift, mbind, stm_bind. by intros ->. Qed.

Lemma adapter_step evt p w w' r :
  _invoke_rust_engine_adapter_if_3way evt p w = (w', r) →
  same_config w w' ∧ _step_counter w' = _step_counter w ∧
  wakir_runtime_sink w' = wakir_runtime_sink w ∧ r = Ok () ∧
  adapter_calls w' = adapter_calls w ++
    (if bool_decide (bridge_mode w = THREE_WAY) && rust_engine_adapter w then [(evt, p)] else []).
Proof.
  unfold _invoke_rust_engine_adapter_if_3way, Prelude.get, modify, mret, stm_ret, str_eqb.
  unfold mbind, stm_bind.
  destruct (bool_decide (bridge_mode w = THREE_WAY)), (rust_engine_adapter w) eqn:E; cbn;
    intros [= <- <-]; unfold same_config; rewrite ?app_nil_r; split_and!; auto.
Qed.
(** The event [emit] makes. *)
Definition event_of (w : BridgeAuditWriter) (kind : str) (payload : bytes) (stamp : str)
    : EngineeringOutputEvent :=
  {| org_id := JStr (w_org_id w); persona_id := JStr (w_persona_id w);
     session_id := JStr (w_session_id w); step_index := JInt (_step_counter w);
     output_kind := JStr kind; output_payload_sha256 := JStr (sha256_hex payload);
     engine_version := JStr (w_engine_version w); v907_pin := JStr (w_v907_pin w);
     ts_utc := JStr stamp |}.

Lemma join_Forall (P : Z → Prop) sep l : Forall P (join sep l) → Forall (Forall P) l.
Proof.
  induction l as [|x l IH]; [constructor|]. destruct l as [|y l]; [by repeat constructor|].
  rewrite join_cons2, !Forall_app. intros (Hx & _ & Hl). constructor; auto.
Qed.

(** What reaches the log was encodable. *)
Lemma event_stamp w kind payload stamp b :
  to_jcs_bytes (event_of w kind payload stamp) = Ok b → okstr stamp.
Proof.
  unfold to_jcs_bytes, _jcs_bytes, json_dumps.
  assert (json_sort (record_envelope (event_of w kind payload stamp)) =
    record_envelope (event_of w kind payload stamp)) as -> by (vm_compute; reflexivity).
  intros Hb%of_option_ok%mk_is_Some%utf8_encode_encodable%okstr_Forall.
  cbn [record_envelope json_print] in Hb.
  apply Forall_app in Hb as [_ Hb]. apply Forall_app in Hb as [Hb _].
  apply join_Forall in Hb. rewrite Forall_forall in Hb.
  apply encodable_quote, okstr_Forall.
  assert (Forall okchar (quote false (u "ts_utc") ++ u ":" ++ quote false stamp)) as Hm.
  { apply Hb. cbn [List.map]. do 9 right. left. }
  apply Forall_app in Hm as [_ Hm]. by apply Forall_app in Hm as [_ Hm].
Qed.

Lemma event_of_ok w kind payload stamp :
  writer_ok w → kind ∈ output_kinds → okstr stamp → event_ok (event_of w kind payload stamp).
Proof.
  intros (? & ? & ? & ? & ?) Hk Hs. unfold event_ok, event_of, text; cbn.
  assert (okstr kind) as Hkind.
  { unfold output_kinds in Hk. rewrite !elem_of_cons in Hk.
    destruct Hk as [->|[->|[->|Hk%elem_of_nil]]]; [by vm_compute..|done]. }
  assert (okstr (sha256_hex payload)) as Hh.
  { unfold sha256_hex, okstr. rewrite encodable_app. apply andb_true_iff.
    split; [done|apply Signing.okstr_hex]. }
  split_and!; eauto.
Qed.
Definition stamp_of (ts : option str) (now : Z) : str :=
  match ts with
  | Some t => if str_empty t then _utc_now_rfc3339 now else t
  | None => _utc_now_rfc3339 now
  end.

Lemma emit_eq kind payload ts now o w :
  kind ∈ output_kinds →
  emit kind payload ts now o w =
  (_write_preframework_sink o (event_of w kind payload (stamp_of ts now)) ;;
   _write_wakir_runtime_sink (event_of w kind payload (stamp_of ts now)) ;;
   _invoke_rust_engine_adapter_if_3way (event_of w kind payload (stamp_of ts now)) payload ;;
   mret (event_of w kind payload (stamp_of ts now))) (with_step (_step_counter w + 1) w).
Proof. intros Hk. unfold emit. by rewrite bool_decide_true. Qed.

(** The outcomes of a call: an unknown kind changes nothing; an event that
    cannot be encoded takes a step and leaves the log alone; every other event
    is returned and its line ends the log, whatever the Markdown file did. *)
Inductive emitted (w w' : BridgeAuditWriter) : result stream_error EngineeringOutputEvent → Prop :=
| emitted_unknown : w' = w → emitted w w' (Err UnknownOutputKind)
| emitted_unencodable :
    _step_counter w' = _step_counter w + 1 → wakir_runtime_sink w' = wakir_runtime_sink w →
    emitted w w' (Err UnicodeEncode)
| emitted_event evt s b :
    event_ok evt → step_index evt = JInt (_step_counter w) → to_jcs_bytes evt = Ok b →
    utf8_encode s = Some b → _step_counter w' = _step_counter w + 1 →
    wakir_runtime_sink w' = wakir_runtime_sink w ++ s ++ [10] →
    emitted w w' (Ok evt).

Lemma emit_cases c w w' r :
  writer_ok w → emit_of c w = (w', r) → same_config w w' ∧ emitted w w' r.
Proof.
  intros Hw. unfold emit_of. destruct (decide (c_kind c ∈ output_kinds)) as [Hk|Hk].
  - rewrite emit_eq by done. set (evt := event_of _ _ _ _).
    destruct (markdown_sink_step (c_outcome c) evt (with_step (_step_counter w + 1) w))
      as (f & r1 & E & [->| ->]).
    + rewrite (stm_bind_eq _ _ _ _ _ E). destruct (to_jcs_bytes evt) as [b|e] eqn:Eb.
      * assert (event_ok evt) as Hevt by (apply event_of_ok; [done|done|by eapply event_stamp]).
        destruct (runtime_sink_ok evt (with_sink f (with_step (_step_counter w + 1) w)) b Hevt Eb)
          as (s & Hs & Er).
        rewrite (stm_bind_eq _ _ _ _ _ Er).
        destruct (_invoke_rust_engine_adapter_if_3way evt (c_payload c)
          (with_log (λ l, l ++ s ++ [10]) (with_sink f (with_step (_step_counter w + 1) w))))
          as [w2 r2] eqn:Ea.
        pose proof (adapter_step _ _ _ _ _ Ea) as (Hc & Hn & Hl & -> & _).
        rewrite (stm_bind_eq _ _ _ _ _ Ea). intros [= <- <-].
        split; [exact Hc|]. by eapply emitted_event.
      * unfold mbind, stm_bind. rewrite (runtime_sink_err _ _ _ Eb). intros [= <- <-].
        apply to_jcs_error in Eb as ->. split; [done|]. by constructor.
    + unfold mbind, stm_bind. rewrite E. intros [= <- <-]. split; [done|]. by constructor.
  - unfold emit. rewrite bool_decide_false by done. intros [= <- <-]. split; [done|]. by constructor.
Qed.

(** What a log of events looks like. *)
Definition log_of (es : list EngineeringOutputEvent) (log : str) : Prop :=
  ∃ lines, Forall2 (λ e b, to_jcs_bytes e = Ok b) es lines ∧ utf8_encode log = Some (jsonl lines).

Lemma log_of_snoc es log e s b :
  log_of es log → to_jcs_bytes e = Ok b → utf8_encode s = Some b → log_of (es ++ [e]) (log ++ s ++ [10]).
Proof.
  intros (lines & Hl & Hu) Hb Hs. exists (lines ++ [b]). split.
  - apply Forall2_app; [done|]. by repeat constructor.
  - unfold jsonl. rewrite fmap_app, concat_app. cbn [concat fmap list_fmap]. rewrite app_nil_r.
    apply utf8_encode_app; [done|]. by apply utf8_encode_app.
Qed.

(** The steps of returned events. *)
Definition steps_from (lo hi : Z) (es : list EngineeringOutputEvent) : Prop :=
  ∃ ns, step_index <$> es = JInt <$> ns ∧
    StronglySorted Z.lt ns ∧ Forall (λ n, lo ≤ n < hi) ns.

Lemma session_log cs w w' rs es :
  writer_ok w → log_of es (wakir_runtime_sink w) → session cs w = (w', rs) →
  Forall event_ok (returned rs) ∧ log_of (es ++ returned rs) (wakir_runtime_sink w') ∧
  _step_counter w ≤ _step_counter w' ∧
  steps_from (_step_counter w) (_step_counter w') (returned rs) ∧
  (Forall (λ r, is_ok r = true) rs →
   step_index <$> returned rs = JInt <$> seqZ (_step_counter w) (Z.of_nat (length rs))).
Proof.
  revert w es rs. induction cs as [|c cs IH]; intros w es rs Hw Hlog Hs; cbn in Hs.
  { injection Hs as <- <-. rewrite app_nil_r. split_and!; [constructor|done|lia| |done].
    exists []. split_and!; constructor. }
  destruct (emit_of c w) as [w1 r] eqn:Ec. destruct (session cs w1) as [w2 rs'] eqn:Es.
  injection Hs as <- <-.
  apply emit_cases in Ec as [Hc He]; [|done]. apply (writer_ok_config _ _ Hc) in Hw as Hw1.
  inversion He as [-> Er|Hn Hl Er|evt s b Hok Hstep Hb Hu Hn Hl Er]; subst r.
  - destruct (IH _ es _ Hw Hlog Es) as (H1 & H2 & H3 & H4 & _).
    split_and!; [done..|]. by intros [? _]%Forall_cons.
  - rewrite <- Hl in Hlog. destruct (IH _ es _ Hw1 Hlog Es) as (H1 & H2 & H3 & H4 & _).
    rewrite Hn in H3, H4. split_and!; [done|done|lia| |by intros [? _]%Forall_cons].
    destruct H4 as (ns & ? & ? & Hns). exists ns. split_and!; [done..|].
    eapply Forall_impl; [exact Hns|]. simpl. lia.
  - assert (log_of (es ++ [evt]) (wakir_runtime_sink w1)) as Hlog1.
    { rewrite Hl. by eapply log_of_snoc. }
    destruct (IH _ _ _ Hw1 Hlog1 Es) as (H1 & H2 & H3 & (ns & H4 & H5 & H6) & H7).
    change (returned (Ok evt :: rs')) with (evt :: returned rs').
    rewrite Hn in *. split_and!.
    + by constructor.
    + by rewrite <- app_assoc in H2.
    + lia.
    + exists (_step_counter w :: ns). split_and!.
      * csimpl. by rewrite Hstep, H4.
      * constructor; [done|]. eapply Forall_impl; [exact H6|]. simpl. lia.
      * constructor; [lia|]. eapply Forall_impl; [exact H6|]. simpl. lia.
    + intros [_ Hrs]%Forall_cons. cbn [length]. rewrite seqZ_cons by lia. csimpl.
      rewrite Hstep, (H7 Hrs). do 3 f_equal; lia.
Qed.
(** C14: A session of a new writer with an empty log: the log can be encoded and
    reads back as exactly the events that [emit] returned, in order, whatever
    the calls were, whatever the file system did to the Markdown sink and
    whether the third sink is on.  The events carry increasing steps below the
    counter, and the steps 0, 1, 2, ... when no call raised. *)
Theorem log_reads_back org persona session_ version pin path mode env adapter sink w cs w' rs :
  init org persona session_ version pin path mode env adapter sink [] = Ok w →
  Forall okstr [org; persona; session_; version; pin] →
  session cs w = (w', rs) →
  ∃ b, utf8_encode (wakir_runtime_sink w') = Some b ∧
    jsonl_bytes_to_records b = Ok (returned rs) ∧
    steps_from 0 (_step_counter w') (returned rs) ∧
    (Forall (λ r, is_ok r = true) rs →
     step_index <$> returned rs = JInt <$> seqZ 0 (Z.of_nat (length rs))).
Proof.
  intros Hi Ht Hs. unfold init in Hi. apply bind_ok_iff in Hi as (m & _ & [= <-]).
  rewrite !Forall_cons in Ht. destruct Ht as (? & ? & ? & ? & ? & _).
  apply (session_log _ _ _ _ []) in Hs as (Hok & (lines & Hl & Hu) & _ & Hsteps & Hall).
  - exists (jsonl lines). split_and!; [done| |done|done]. cbn [app] in Hl. by apply read_jsonl.
  - done.
  - exists []. by split; [constructor|].
Qed.
End writer.

(** ** The replay engine *)

Section replay.
Context `{Sha256}.

Lemma event_index e z : step_index e = JInt z → Replay.with_index e z = e.
Proof. destruct e; cbn. by intros ->. Qed.

Lemma event_py_int e :
  event_ok e → ∃ z, py_int (step_index e) = Some z ∧ Replay.with_index e z = e.
Proof. intros [_ [z Hz]]. exists z. rewrite Hz. split; [done|by apply event_index]. Qed.

Lemma event_envelope e : event_ok e → Replay.to_envelope e = Ok (record_envelope e).
Proof.
  intros (z & Hz & E)%event_py_int. unfold Replay.to_envelope. rewrite Hz. cbn. by rewrite E.
Qed.

Lemma event_record e : event_ok e → Replay.from_writer_event e = Ok e.
Proof.
  intros (z & Hz & E)%event_py_int. unfold Replay.from_writer_event. rewrite Hz. cbn. by rewrite E.
Qed.

Lemma mapM_events {B} (f : EngineeringOutputEvent → result audit_error B) (g : EngineeringOutputEvent → B) es :
  (∀ e, event_ok e → f e = Ok (g e)) → Forall event_ok es → mapM f es = Ok (g <$> es).
Proof.
  intros Hf Hes. apply mapM_ok, Forall2_fmap_r, Forall_Forall2_diag.
  eapply Forall_impl; [exact Hes|]. exact Hf.
Qed.

Lemma stream_wf es : Forall event_ok es → json_wf (stream_envelope es).
Proof.
  intros Hes. apply json_wf_obj. split; [apply (bool_decide_unpack _); by vm_compute|].
  repeat (apply Forall_cons; split; [split; [by vm_compute|]|]); [|done|constructor].
  apply json_wf_list, Forall_fmap. eapply Forall_impl; [exact Hes|]. apply event_wf.
Qed.

Lemma stream_sorted es :
  Forall event_ok es →
  json_sort (stream_envelope es) = stream_envelope es ∧
  jcs_sort (stream_envelope es) = stream_envelope es.
Proof.
  intros Hes. unfold stream_envelope.
  assert (∀ f : json → json, (∀ e, event_ok e → f (record_envelope e) = record_envelope e) →
    List.map f (record_envelope <$> es) = record_envelope <$> es) as Hf.
  { intros f Hf. change (List.map f ?l) with (f <$> l). rewrite <- list_fmap_compose.
    apply list_fmap_ext. intros i e He. rewrite Forall_lookup in Hes. cbn. eauto. }
  split.
  - cbn [json_sort List.map fst snd]. rewrite (Hf json_sort) by apply event_sorted. by vm_compute.
  - cbn [jcs_sort List.map fst snd]. rewrite (Hf jcs_sort).
    + by vm_compute.
    + intros e He. event He e. by vm_compute.
Qed.

Lemma build_stream es :
  Forall event_ok es → Replay._build_stream_envelope es = Ok (stream_envelope es).
Proof.
  intros Hes. unfold Replay._build_stream_envelope.
  rewrite (mapM_events _ record_envelope) by (done || apply event_envelope).
  rewrite bind_Ok. unfold stream_envelope. by rewrite length_fmap.
Qed.

(** The two stream hashes agree: the writer's, over sorted [json.dumps], and the
    replay engine's, over the canonicaliser, give one digest for the events of
    a writer. *)
Theorem stream_hash_agree es :
  Forall event_ok es →
  ∃ h, BridgeAudit.stream_hash es = Ok h ∧
    (rs ← mapM Replay.from_writer_event es; Replay.replay_stream_hash rs) = Ok h.
Proof.
  intros Hes. rewrite (mapM_events _ (λ e, e)) by (done || apply event_record).
  rewrite list_fmap_id, bind_Ok. unfold Replay.replay_stream_hash. rewrite build_stream, bind_Ok by done.
  destruct (jcs_hash_wf _ (stream_wf es Hes)) as (b & Hh & Hb). rewrite Hh.
  destruct (canonicalize_wf _ (stream_wf es Hes)) as (b' & Hb' & Hu). rewrite Hb in Hb'.
  injection Hb' as <-. eexists. split; [|reflexivity].
  unfold BridgeAudit.stream_hash, _jcs_bytes, json_dumps.
  destruct (stream_sorted es Hes) as [-> Ej]. rewrite Ej in Hu. by rewrite Hu.
Qed.

(** Envelopes of events determine the events. *)
Lemma envelope_inj e1 e2 :
  event_ok e1 → event_ok e2 →
  json_sort (record_envelope e1) = json_sort (record_envelope e2) → e1 = e2.
Proof.
  intros H1 H2. rewrite !event_sorted by done. destruct e1, e2; unfold record_envelope; cbn.
  intros E. injection E. congruence.
Qed.

Lemma record_hash_ok e :
  event_ok e → ∃ h, Replay.record_hash e = Ok h ∧ jcs_hash (record_envelope e) = Ok h.
Proof.
  intros He. unfold Replay.record_hash. rewrite event_envelope, bind_Ok by done.
  destruct (jcs_hash_wf _ (event_wf e He)) as (b & Hh & _). eauto.
Qed.

Context (act exp : list EngineeringOutputEvent).
Hypothesis Hact : Forall event_ok act.
Hypothesis Hexp : Forall event_ok exp.

(** The texts that a replay hashes: of every record and of the two streams. *)
Definition replay_messages : list bytes :=
  envelope_messages ((record_envelope <$> act ++ exp) ++ [stream_envelope act; stream_envelope exp]).

Definition step_found (i : nat) (ds : list Replay.Divergence) : Prop :=
  (ds = [] → act !! i = exp !! i ∨ collision_in sha256 replay_messages) ∧
  Forall (λ d, Replay.step_index d = i ∧ Replay.actual d = act !! i ∧
               Replay.expected d = exp !! i ∧ act !! i ≠ exp !! i) ds.

Lemma compare_step_ok i : ∃ ds, Replay.compare_step act exp i = Ok ds ∧ step_found i ds.
Proof.
  unfold Replay.compare_step, step_found.
  destruct (act !! i) as [a|] eqn:Ea, (exp !! i) as [e|] eqn:Ee.
  - pose proof (Forall_lookup_1 _ _ _ _ Hact Ea) as Ha.
    pose proof (Forall_lookup_1 _ _ _ _ Hexp Ee) as He.
    destruct (record_hash_ok a Ha) as (ha & Eha & Ja), (record_hash_ok e He) as (he & Ehe & Je).
    rewrite Eha, Ehe, !bind_Ok. unfold str_eqb. case_bool_decide as Heq.
    + subst he. eexists. split; [done|]. split; [|constructor]. intros _.
      destruct (jcs_hash_eq _ _ ha (event_wf a Ha) (event_wf e He) Ja Je) as [E|Hcol]; [left|right].
      * f_equal. by apply envelope_inj.
      * revert Hcol. apply collision_in_mono, envelope_messages_sub. intros j Hj.
        apply elem_of_app. left. apply list_elem_of_lookup_2 in Ea, Ee.
        rewrite !elem_of_cons, elem_of_nil in Hj. apply list_elem_of_fmap.
        destruct Hj as [->|[->|[]]]; eexists; (split; [done|]); apply elem_of_app; auto.
    + rewrite !event_envelope, !bind_Ok by done. eexists. split; [done|]. split; [done|].
      constructor; [|constructor]. cbn. split_and!; [done..|]. intros [= ->]. congruence.
  - destruct (record_hash_ok a (Forall_lookup_1 _ _ _ _ Hact Ea)) as (h & Eh & _).
    rewrite Eh, bind_Ok. eexists. split; [done|]. by repeat constructor.
  - destruct (record_hash_ok e (Forall_lookup_1 _ _ _ _ Hexp Ee)) as (h & Eh & _).
    rewrite Eh, bind_Ok. eexists. split; [done|]. by repeat constructor.
  - eexists. split; [done|]. split; [by left|constructor].
Qed.

Lemma compare_steps is_ :
  ∃ found, mapM (Replay.compare_step act exp) is_ = Ok found ∧ Forall2 step_found is_ found.
Proof.
  induction is_ as [|i is_ (found & E & IH)].
  - exists []. by split; [|constructor].
  - destruct (compare_step_ok i) as (ds & Ed & Hd). exists (ds :: found).
    rewrite mapM_cons, Ed, bind_Ok, E. split; [done|by constructor].
Qed.

(** The first reported step is the first that differs. *)
Lemma first_divergence n k found :
  Forall2 step_found (seq n k) found →
  match head (mjoin found) with
  | Some d => ∃ i, Replay.step_index d = i ∧ (n ≤ i < n + k)%nat ∧ act !! i ≠ exp !! i ∧
      ((∀ j, (n ≤ j < i)%nat → act !! j = exp !! j) ∨ collision_in sha256 replay_messages)
  | None => (∀ j, (n ≤ j < n + k)%nat → act !! j = exp !! j) ∨ collision_in sha256 replay_messages
  end.
Proof.
  revert n found. induction k as [|k IH]; intros n found Hf.
  { inversion Hf; subst. left. lia. }
  cbn [seq] in Hf. inversion Hf as [|? ds ? found' [Hnil Hds] Hf']; subst. cbn [mjoin list_join].
  destruct ds as [|d ds].
  - specialize (IH _ _ Hf'). cbn [app]. destruct (Hnil eq_refl) as [En|Hc].
    + assert (∀ j, (n ≤ j)%nat → j = n ∨ (S n ≤ j)%nat) as Hcase by lia.
      destruct (head (mjoin found')) as [d|].
      * destruct IH as (i & Hi & Hr & Hne & Hb). exists i. split_and!; [done|lia|lia|done|].
        destruct Hb as [Hb|?]; [left|by right].
        intros j Hj. destruct (Hcase j) as [->|?]; [lia|done|]. apply Hb. lia.
      * destruct IH as [IH|?]; [left|by right].
        intros j Hj. destruct (Hcase j) as [->|?]; [lia|done|]. apply IH. lia.
    + destruct (head (mjoin found')) as [d|]; [|by right].
      destruct IH as (i & Hi & Hr & Hne & _). exists i. split_and!; [done|lia|lia|done|by right].
  - apply Forall_cons in Hds as [(Hi & _ & _ & Hne) _]. cbn [app head]. exists n.
    split_and!; [done|lia|lia|done|]. left. lia.
Qed.

Lemma lists_agree :
  (∀ j, (0 ≤ j < 0 + length act `max` length exp)%nat → act !! j = exp !! j) → act = exp.
Proof.
  intros Hj. apply list_eq. intros j.
  destruct (decide (j < length act `max` length exp)%nat); [apply Hj; lia|].
  by rewrite (lookup_ge_None_2 act), (lookup_ge_None_2 exp) by lia.
Qed.

(** A replay of two streams of events always gives a report.  It succeeds
    exactly for equal streams, unless two of the texts that it hashes collide; when it
    fails it names the first step at which the streams differ, and every
    divergence holds the two records of its step, which differ. *)
Theorem replay_stream_spec :
  ∃ r, Replay.replay_stream act exp = Ok r ∧
    (act = exp → Replay.success r = true) ∧
    (Replay.success r = true → act = exp ∨ collision_in sha256 replay_messages) ∧
    (Replay.success r = false → ∃ i, Replay.time_to_divergence_steps r = Some i ∧
       act !! i ≠ exp !! i ∧
       ((∀ j, (j < i)%nat → act !! j = exp !! j) ∨ collision_in sha256 replay_messages)) ∧
    (∀ d, d ∈ Replay.divergences r →
       Replay.actual d = act !! Replay.step_index d ∧
       Replay.expected d = exp !! Replay.step_index d ∧ Replay.actual d ≠ Replay.expected d).
Proof using Hact Hexp.
  unfold Replay.replay_stream, Replay.replay_stream_hash. rewrite !build_stream, !bind_Ok by done.
  destruct (jcs_hash_wf _ (stream_wf act Hact)) as (ba & Ea & Ca).
  destruct (jcs_hash_wf _ (stream_wf exp Hexp)) as (be & Ee & Ce).
  pose proof (jcs_hash_eq _ _ (u "sha256:" ++ hex (sha256 be)) (stream_wf act Hact) (stream_wf exp Hexp))
    as Heq.
  rewrite Ea, Ee in *. rewrite !bind_Ok. unfold str_eqb. case_bool_decide as Hh.
  - eexists. split; [done|]. cbn. split_and!; [done| |done|by intros d ?%elem_of_nil].
    intros _. destruct (Heq ltac:(by rewrite Hh) eq_refl) as [E|Hcol]; [left|right].
    2: { revert Hcol. apply collision_in_mono, envelope_messages_sub. set_solver. }
    rewrite (proj1 (stream_sorted act Hact)), (proj1 (stream_sorted exp Hexp)) in E.
    injection E as E _. eapply (fmap_inj_on event_ok); [|done|done|exact E].
    intros x y Hx Hy Exy. apply envelope_inj; [done..|by rewrite Exy].
  - destruct (compare_steps (seq 0 (length act `max` length exp))) as (found & Ef & Hf).
    rewrite Ef, bind_Ok. pose proof (first_divergence _ _ _ Hf) as Hfirst.
    eexists. split; [done|]. cbn. split_and!.
    + intros ->. congruence.
    + rewrite bool_decide_eq_true. intros Hl%nil_length_inv. rewrite Hl in Hfirst.
      destruct Hfirst as [Hj|?]; [left|by right]. by apply lists_agree.
    + rewrite bool_decide_eq_false. intros Hl. destruct (mjoin found) as [|d ds] eqn:Ej; [done|].
      cbn [head] in *. destruct Hfirst as (i & Hi & _ & Hne & Hb). exists i. cbn. rewrite Hi.
      split_and!; [done|done|]. destruct Hb as [Hb|?]; [left|by right]. intros j Hj. apply Hb. lia.
    + intros d Hd. apply list_elem_of_join in Hd as (ds & Hd & Hds).
      apply list_elem_of_lookup in Hds as [k Hk].
      destruct (Forall2_lookup_r _ _ _ _ _ Hf Hk) as (i & _ & _ & Hall).
      rewrite Forall_forall in Hall. destruct (Hall d Hd) as (-> & -> & -> & Hne). done.
Qed.
End replay.

(** ** Concrete streams *)

Module StreamExample.

#[local] Existing Instance fips_sha256.

Definition letters (c : Z) : json := JStr (u "sha256:" ++ replicate 64 c).

(** The records of the repository's round-trip test. *)
Definition record (step : Z) (kind : str) (c : Z) : EngineeringOutputEvent :=
  {| org_id := JStr (u "wakir-labs"); persona_id := JStr (u "mira");
     session_id := JStr (u "sess-001"); step_index := JInt step; output_kind := JStr kind;
     output_payload_sha256 := letters c; engine_version := JStr (u "0.2.0-pilot");
     v907_pin := letters 98;
     ts_utc := JStr (u "2026-05-17T10:00:0" ++ int_repr step ++ u "Z") |}.

Definition f3 : list EngineeringOutputEvent :=
  [record 0 (u "tool_call") 97; record 1 (u "reply") 98; record 2 (u "tool_call") 99].

(** The digests pinned against the other implementation. *)
Example f1_pin : BridgeAudit.stream_hash [] =
  Ok (u "sha256:64d11dbb5fe0c2c5e807d22438aedf3912852d81717e532f5c9d2750afa15469").
Proof. vm_compute. reflexivity. Qed.

Example f2_pin : BridgeAudit.stream_hash (take 1 f3) =
  Ok (u "sha256:5d259cab58d5d75772f230ac86d18b6a61fd228829cea7aa1887e98cea3cc770").
Proof. vm_compute. reflexivity. Qed.

Example f3_pin : BridgeAudit.stream_hash f3 =
  Ok (u "sha256:fca1381878f461ea00520d9ee87d3e8c5b536e028e368c002f8de56d8b643bd4").
Proof. vm_compute. reflexivity. Qed.

Ltac texts := repeat split; try (eexists; split; [reflexivity|by vm_compute]); eexists; reflexivity.

Lemma record_ok step kind c :
  okstr kind → okstr (replicate 64 c) → event_ok (record step kind c).
Proof.
  intros Hk Hc. unfold record, letters.
  assert (okstr (u "sha256:" ++ replicate 64 c)) as H1 by (unfold okstr; by rewrite encodable_app, Hc).
  assert (okstr (u "2026-05-17T10:00:0" ++ int_repr step ++ u "Z")) as H2.
  { unfold okstr. rewrite !encodable_app. apply andb_true_iff; split; [by vm_compute|].
    apply andb_true_iff; split; [|by vm_compute].
    apply okstr_Forall. eapply Forall_impl; [apply int_repr_numchars|].
    unfold is_numchar. intros x Hx. apply okchar_range. simpl in Hx. lia. }
  split; cbn; [split_and!|]; try (eexists; split; [reflexivity|]); try done; by eexists.
Qed.

Lemma f3_ok : Forall event_ok f3.
Proof. repeat (apply Forall_cons; split; [by apply record_ok|]). constructor. Qed.

Lemma f3_short_ok : Forall event_ok (take 2 f3).
Proof. apply Forall_take, f3_ok. Qed.

Lemma jsonl_roundtrip_witness :
  ∃ b, records_to_jsonl_bytes f3 = Ok b ∧ jsonl_bytes_to_records b = Ok f3.
Proof. apply (jsonl_roundtrip f3). exact f3_ok. Defined.

Lemma stream_hash_agree_witness :
  ∃ h, BridgeAudit.stream_hash f3 = Ok h ∧
    (rs ← mapM Replay.from_writer_event f3; Replay.replay_stream_hash rs) = Ok h.
Proof. apply (stream_hash_agree f3). exact f3_ok. Defined.

Lemma replay_stream_spec_witness :
  ∃ r, Replay.replay_stream (take 2 f3) f3 = Ok r ∧
    (take 2 f3 = f3 → Replay.success r = true) ∧
    (Replay.success r = true → take 2 f3 = f3 ∨ collision_in sha256 (replay_messages (take 2 f3) f3)) ∧
    (Replay.success r = false → ∃ i, Replay.time_to_divergence_steps r = Some i ∧
       take 2 f3 !! i ≠ f3 !! i ∧
       ((∀ j, (j < i)%nat → take 2 f3 !! j = f3 !! j) ∨ collision_in sha256 (replay_messages (take 2 f3) f3))) ∧
    (∀ d, d ∈ Replay.divergences r →
       Replay.actual d = take 2 f3 !! Replay.step_index d ∧
       Replay.expected d = f3 !! Replay.step_index d ∧ Replay.actual d ≠ Replay.expected d).
Proof. apply (replay_stream_spec (take 2 f3) f3); [exact f3_short_ok|exact f3_ok]. Defined.

(** A stream that stops early drifts at its end. *)
Example replay_short :
  (λ r, (Replay.success r, Replay.time_to_divergence_steps r, Replay.kind <$> Replay.divergences r))
    <$> match Replay.replay_stream (take 2 f3) f3 with Ok r => Some r | Err _ => None end
  = Some (false, Some 2%nat, [Replay.MISSING_IN_ACTUAL]).
Proof. vm_compute. reflexivity. Qed.

(** A writer in three-way mode, and a session with an unknown kind, a full disk
    and a stamp that cannot be encoded. *)
Definition w0 : result stream_error BridgeAuditWriter :=
  init (u "acme") (u "mira") (u "s1") (u "1") (u "pin") None None
    [(BRIDGE_MODE_ENV, THREE_WAY)] true [] [].

Definition w1 : BridgeAuditWriter :=
  ok_or {| w_org_id := []; w_persona_id := []; w_session_id := []; w_engine_version := [];
           w_v907_pin := []; preframework_sink_path := []; bridge_mode := [];
           rust_engine_adapter := false; _step_counter := 0; preframework_sink := [];
           wakir_runtime_sink := []; adapter_calls := [] |} w0.

Definition calls : list emit_call :=
  [ {| c_kind := u "reply"; c_payload := []; c_ts := None; c_now := 1778086800; c_outcome := Written |};
    {| c_kind := u "draw"; c_payload := []; c_ts := None; c_now := 0; c_outcome := Written |};
    {| c_kind := u "reply"; c_payload := []; c_ts := Some [0xD800]; c_now := 0; c_outcome := NoOpen |};
    {| c_kind := u "tool_call"; c_payload := []; c_ts := Some []; c_now := 1778086801;
       c_outcome := ShortWrite 3 |} ].

(** The second event returned has step 2: the call that raised took step 1. *)
Example session_steps :
  let '(w', rs) := session calls w1 in
  step_index <$> returned rs = [JInt 0; JInt 2] ∧
  ts_utc <$> returned rs = [JStr (u "2026-05-06T17:00:00Z"); JStr (u "2026-05-06T17:00:01Z")] ∧
  length (adapter_calls w') = 2%nat ∧ _step_counter w' = 3.
Proof. vm_compute. done. Qed.

Lemma log_reads_back_witness :
  ∃ b, utf8_encode (wakir_runtime_sink (session calls w1).1) = Some b ∧
    jsonl_bytes_to_records b = Ok (returned (session calls w1).2) ∧
    steps_from 0 (_step_counter (session calls w1).1) (returned (session calls w1).2) ∧
    (Forall (λ r, is_ok r = true) (session calls w1).2 →
     step_index <$> returned (session calls w1).2 =
     JInt <$> seqZ 0 (Z.of_nat (length (session calls w1).2))).
Proof.
  apply (log_reads_back (u "acme") (u "mira") (u "s1") (u "1") (u "pin") None None
    [(BRIDGE_MODE_ENV, THREE_WAY)] true [] w1 calls (session calls w1).1 (session calls w1).2);
    [by vm_compute|by repeat constructor|by destruct (session calls w1)].
Defined.
End StreamExample.
