(* ===== verification/AuditTriangle.v ===== *)
(** * The three-way cross-check of the bridge audit
      ([wirelang/persona_engine/bridge_audit_triangle.py])

    Two or three implementations are compared pair by pair.  An implementation
    is given per call, since it may answer differently each time it is asked.
    The theorems: for implementations that do not, a drift never shows on one
    edge alone, and the triangle is consistent exactly when the envelopes agree;
    the default third implementation always drifts. *)

From S2P Require Import Prelude PyStr PyFloat Sha256 PyJson PyJsonLoads PyDyn PyTime Jcs AuditDiff AuditStream.
From Stdlib Require Import ZArith Lia SpecFloat.
Import Jcs.Jcs DiffEngine.

Open Scope Z_scope.

Module Triangle.

(** [_canonical_engineering_output_envelope] *)
Definition _canonical_engineering_output_envelope `{Sha256} (input_ : DiffInput)
    (engine_version v907_pin schema : str) : json :=
  JObj [(u "engine_version", JStr engine_version);
        (u "event_kind", JStr (u "engineering_output"));
        (u "org_id", JStr (org_id input_));
        (u "output_kind", JStr (output_kind input_));
        (u "output_payload_sha256", JStr (BridgeAudit.sha256_hex (payload input_)));
        (u "persona_id", JStr (persona_id input_));
        (u "schema", JStr schema);
        (u "session_id", JStr (session_id input_));
        (u "step_index", JInt (step_index input_));
        (u "ts_utc", JStr (ts_utc input_));
        (u "v907_pin", JStr v907_pin)].

Definition default_version : str := u "0.2.0-pilot".
Definition stub_version : str := u "0.2.0-pilot-rust-stub".
Definition default_pin : str := u "sha256:" ++ replicate 64 97.

Definition default_python_markdown_projection `{Sha256} (engine_version v907_pin : str)
    : Implementation :=
  λ input_, Ok (_canonical_engineering_output_envelope input_ engine_version v907_pin
                  BridgeAudit.ENGINEERING_OUTPUT_SCHEMA).

Definition default_python_structured_projection `{Sha256} (engine_version v907_pin : str)
    : Implementation :=
  λ input_, Ok (_canonical_engineering_output_envelope input_ engine_version v907_pin
                  BridgeAudit.ENGINEERING_OUTPUT_SCHEMA).

Definition default_rust_engine_stub `{Sha256} (engine_version v907_pin : str) : Implementation :=
  λ input_, Ok (_canonical_engineering_output_envelope input_ engine_version v907_pin
                  BridgeAudit.ENGINEERING_OUTPUT_SCHEMA).

Record TriangleReport : Type := {
  mode : str;
  all_consistent : bool;
  report_ab : DiffReport;
  report_bc : option DiffReport;
  report_ac : option DiffReport;
  schema_version_drift : bool;
}.

(** [pairwise_reports()]; [None] is a failed assertion. *)
Definition pairwise_reports (r : TriangleReport) : option (list DiffReport) :=
  if str_eqb (mode r) BridgeAudit.TWO_WAY then Some [report_ab r]
  else bc ← report_bc r; ac ← report_ac r; Some [report_ab r; bc; ac].

Definition _diff_has_schema_drift (report : DiffReport) : bool :=
  existsb (λ fd, str_eqb (path fd) (u "/schema")) (field_diffs report).

(** [f"{x:.4f}"]: the exact value rounded half to even. *)
Definition round_half_even (num den : Z) : Z :=
  let q := num / den in
  let r := num `mod` den in
  if (2 * r <? den) || ((2 * r =? den) && Z.even q) then q else q + 1.

Definition fixed4 (f : float) : str :=
  let show (s : bool) (q : Z) :=
    (if s then u "-" else []) ++ int_repr (q / 10000) ++ u "." ++ PyTime.pad 4 (q `mod` 10000) in
  match f with
  | S754_nan => u "nan"
  | S754_infinity s => (if s then u "-" else []) ++ u "inf"
  | S754_zero s => show s 0
  | S754_finite s m e =>
      show s (if 0 <=? e then Z.pos m * 2 ^ e * 10000
              else round_half_even (Z.pos m * 10000) (2 ^ (- e)))
  end.

(** [DiffReport.summary()] *)
Definition diff_summary (r : DiffReport) : str :=
  if byte_identical r then
    u "byte-identical jcs=" ++ jcs_hash_a r ++ u " score=" ++ fixed4 (score r)
  else
    u "drift fields=" ++ int_repr (Z.of_nat (length (field_diffs r))) ++
    u " score=" ++ fixed4 (score r) ++
    u " hash_a=" ++ jcs_hash_a r ++ u " hash_b=" ++ jcs_hash_b r.

Definition drift_edges (reports : list DiffReport) : nat :=
  length (filter (λ r, has_drift r = true) reports).

(** [TriangleReport.summary()] *)
Definition summary (r : TriangleReport) : option str :=
  if str_eqb (mode r) BridgeAudit.TWO_WAY then Some (u "2way " ++ diff_summary (report_ab r))
  else if all_consistent r then Some (u "3way all-consistent jcs=" ++ jcs_hash_a (report_ab r))
  else
    reports ← pairwise_reports r;
    Some (u "3way drift edges=" ++ int_repr (Z.of_nat (drift_edges reports)) ++ u "/3 " ++
          u "schema_drift=" ++ (if schema_version_drift r then u "True" else u "False") ++
          u " score_ab=" ++ fixed4 (score (report_ab r))).

(** [cross_check_triangle]: the argument of an implementation counts the times
    it was called before.  A bad [WAKIR_BRIDGE_MODE] and a bad [mode] raise the
    same class. *)
Definition cross_check_triangle `{Sha256} (input_ : DiffInput)
    (impl_a impl_b : nat → Implementation) (impl_c : option (nat → Implementation))
    (mode_arg : option str) (env : list (str * str)) : result audit_error TriangleReport :=
  effective_mode ← match mode_arg with
                   | Some m => Ok m
                   | None => map_err (λ _, UnknownMode) (BridgeAudit.resolve_bridge_mode env)
                   end;
  raise_if (negb (bool_decide (effective_mode ∈ BridgeAudit.mode_values))) UnknownMode ;;
  ab ← compare_implementations input_ (impl_a 0%nat) (impl_b 0%nat);
  if str_eqb effective_mode BridgeAudit.TWO_WAY then
    Ok {| mode := effective_mode; all_consistent := byte_identical ab; report_ab := ab;
          report_bc := None; report_ac := None;
          schema_version_drift := _diff_has_schema_drift ab |}
  else
    impl_c ← of_option NoThirdImplementation impl_c;
    bc ← compare_implementations input_ (impl_b 1%nat) (impl_c 0%nat);
    ac ← compare_implementations input_ (impl_a 1%nat) (impl_c 1%nat);
    Ok {| mode := effective_mode;
          all_consistent := byte_identical ab && byte_identical bc && byte_identical ac;
          report_ab := ab; report_bc := Some bc; report_ac := Some ac;
          schema_version_drift := _diff_has_schema_drift ab || _diff_has_schema_drift bc ||
                                  _diff_has_schema_drift ac |}.
End Triangle.

Import Triangle.

(** ** The edges *)

Section triangle.
Context `{Sha256}.

(** What a comparison that returned did. *)
Lemma compare_ok input_ ia ib r :
  compare_implementations input_ ia ib = Ok r →
  ∃ ea eb ha hb, ia input_ = Ok ea ∧ ib input_ = Ok eb ∧ jcs_hash ea = Ok ha ∧ jcs_hash eb = Ok hb ∧
    byte_identical r = str_eqb ha hb ∧
    field_diffs r = (if str_eqb ha hb then [] else diff_envelopes ea eb).
Proof.
  unfold compare_implementations. intros Hr.
  apply bind_ok_iff in Hr as (ea & Ha & Hr). apply bind_ok_iff in Hr as (eb & Hb & Hr).
  apply bind_ok_iff in Hr as (ha & Hha & Hr). apply bind_ok_iff in Hr as (hb & Hhb & Hr).
  exists ea, eb, ha, hb.
  destruct (str_eqb ha hb); apply Ok_inj in Hr as <-; done.
Qed.

(** The runs of the comparisons behind a three-way report. *)
Lemma triangle_ok input_ ia ib ic m env r :
  cross_check_triangle input_ ia ib (Some ic) m env = Ok r → mode r = BridgeAudit.THREE_WAY →
  ∃ bc ac, report_bc r = Some bc ∧ report_ac r = Some ac ∧
    compare_implementations input_ (ia 0%nat) (ib 0%nat) = Ok (report_ab r) ∧
    compare_implementations input_ (ib 1%nat) (ic 0%nat) = Ok bc ∧
    compare_implementations input_ (ia 1%nat) (ic 1%nat) = Ok ac ∧
    all_consistent r = byte_identical (report_ab r) && byte_identical bc && byte_identical ac ∧
    schema_version_drift r = _diff_has_schema_drift (report_ab r) ||
      _diff_has_schema_drift bc || _diff_has_schema_drift ac.
Proof.
  unfold cross_check_triangle. intros Hr Hm.
  apply bind_ok_iff in Hr as (em & _ & Hr). apply bind_ok_iff in Hr as (_ & _ & Hr).
  apply bind_ok_iff in Hr as (ab & Hab & Hr). destruct (str_eqb em BridgeAudit.TWO_WAY) eqn:E2.
  - apply Ok_inj in Hr as <-. cbn in Hm. subst em. vm_compute in E2. done.
  - cbn [of_option] in Hr. rewrite bind_Ok in Hr.
    apply bind_ok_iff in Hr as (bc & Hbc & Hr). apply bind_ok_iff in Hr as (ac & Hac & Hr).
    apply Ok_inj in Hr as <-. by exists bc, ac.
Qed.

Lemma drift_edges_three a b c :
  drift_edges [a; b; c] =
  (Nat.b2n (has_drift a) + Nat.b2n (has_drift b) + Nat.b2n (has_drift c))%nat.
Proof.
  unfold drift_edges. rewrite !filter_cons, filter_nil.
  by destruct (has_drift a), (has_drift b), (has_drift c).
Qed.

(** Three implementations that answer the same way every time: the edges of a
    three-way report are all identical, or two or three of them drift, never
    one alone; and the report is consistent exactly when none does. *)
Theorem drift_never_on_one_edge input_ ia ib ic m env r :
  cross_check_triangle input_ (λ _, ia) (λ _, ib) (Some (λ _, ic)) m env = Ok r →
  mode r = BridgeAudit.THREE_WAY →
  ∃ reports, pairwise_reports r = Some reports ∧ drift_edges reports ≠ 1%nat ∧
    (all_consistent r = true ↔ drift_edges reports = 0%nat).
Proof.
  intros Hr Hm.
  destruct (triangle_ok _ _ _ _ _ _ _ Hr Hm) as (bc & ac & Ebc & Eac & Hab & Hbc & Hac & Hall & _).
  unfold pairwise_reports. rewrite Hm, Ebc, Eac. eexists. split; [done|].
  apply compare_ok in Hab as (ea & eb & ha & hb & Ia & Ib & Ha & Hb & Iab & _).
  apply compare_ok in Hbc as (eb' & ec & hb' & hc & Ib' & Ic & Hb' & Hc & Ibc & _).
  apply compare_ok in Hac as (ea' & ec' & ha' & hc' & Ia' & Ic' & Ha' & Hc' & Iac & _).
  rewrite drift_edges_three, Hall. unfold has_drift. rewrite Iab, Ibc, Iac. unfold str_eqb.
  simplify_eq. repeat case_bool_decide; cbn; split; try done; congruence.
Qed.

(** The default projections agree on every input. *)
Lemma projection_wf input_ version pin schema :
  okstr (org_id input_) → okstr (output_kind input_) → okstr (persona_id input_) →
  okstr (session_id input_) → okstr (ts_utc input_) → okstr version → okstr pin → okstr schema →
  json_wf (_canonical_engineering_output_envelope input_ version pin schema).
Proof.
  intros. apply json_wf_obj. split; [apply (bool_decide_unpack _); by vm_compute|].
  assert (okstr (BridgeAudit.sha256_hex (payload input_))) as Hh.
  { unfold BridgeAudit.sha256_hex, okstr. rewrite encodable_app. apply andb_true_iff.
    split; [done|apply Signing.okstr_hex]. }
  repeat (apply Forall_cons; split; [split; [by vm_compute|try done; by vm_compute]|]). constructor.
Qed.
(** A comparison of envelopes without floats returns. *)
Lemma compare_wf input_ (ia ib : Implementation) ea eb :
  ia input_ = Ok ea → ib input_ = Ok eb → json_wf ea → json_wf eb →
  ∃ r, compare_implementations input_ ia ib = Ok r ∧
    (json_sort ea = json_sort eb → byte_identical r = true) ∧
    (byte_identical r = true →
     json_sort ea = json_sort eb ∨ collision_in sha256 (envelope_messages [ea; eb])) ∧
    field_diffs r = (if byte_identical r then [] else diff_envelopes ea eb).
Proof.
  intros Ia Ib Wa Wb.
  destruct (jcs_hash_wf ea Wa) as (x & Hx & _), (jcs_hash_wf eb Wb) as (y & Hy & _).
  pose proof (jcs_hash_eq ea eb) as Heq. pose proof (jcs_hash_same ea eb Wa Wb) as Hsame.
  assert (∃ r, compare_implementations input_ ia ib = Ok r) as [r Hr].
  { unfold compare_implementations. rewrite Ia, Ib, !bind_Ok, Hx, Hy, !bind_Ok.
    case_match; by eexists. }
  exists r. split; [done|].
  apply compare_ok in Hr as (ea' & eb' & ha & hb & Ia' & Ib' & Ha & Hb & Hi & Hd).
  rewrite Ia in Ia'. rewrite Ib in Ib'. apply Ok_inj in Ia' as <-. apply Ok_inj in Ib' as <-.
  rewrite <- Hi in Hd. split_and!; [| |done];
    rewrite Hi; unfold str_eqb; rewrite bool_decide_eq_true.
  - intros E%Hsame. congruence.
  - intros E. apply (Heq hb Wa Wb); congruence.
Qed.

(** A report with a difference at /schema is about different schemas. *)
Lemma schema_differs ea eb r :
  json_wf ea → json_wf eb → field_diffs r = (if byte_identical r then [] else diff_envelopes ea eb) →
  _diff_has_schema_drift r = true → resolve ea [u "schema"] ≠ resolve eb [u "schema"].
Proof.
  unfold _diff_has_schema_drift. intros Wa Wb Hd (d & Hin & Hp)%existsb_exists E.
  apply list_elem_of_In in Hin. rewrite Hd in Hin.
  destruct (byte_identical r); [by apply elem_of_nil in Hin|].
  apply diff_located in Hin as (ts & Hts & Hv). unfold str_eqb in Hp. apply bool_decide_eq_true in Hp.
  rewrite Hp in Hts. change (u "/schema") with (pointer [u "schema"]) in Hts.
  apply pointer_inj in Hts as <-. unfold verdict in Hv. rewrite E in Hv.
  destruct (kind d); try naive_solver congruence.
  - destruct Hv as (Ea & Eb & _ & Hs & Hne). rewrite Ea in Eb. injection Eb as Eb. rewrite Eb in *.
    rewrite <- E in Ea.
    assert (json_wf (value_b d)) as Hw.
    { destruct ea as [| | | | | |da]; try done; cbn in Ea.
      - apply bind_Some in Ea as (j & Hj & [= <-]). apply json_wf_list in Wa.
        apply dict_get_Some_elem, elem_of_zip_r in Hj. rewrite Forall_forall in Wa. by apply Wa.
      - apply bind_Some in Ea as (j & Hj & [= <-]). by apply (wf_member da (u "schema")). }
    destruct (proj2 (scalar_same (value_b d) (value_b d) Hw Hw Hs) eq_refl). congruence.
Qed.

(** A three-way check of implementations that return envelopes without floats
    gives a report; it is consistent for envelopes that agree up to the order
    of members, and only for those unless two of the hashed texts collide; and
    a schema drift is only reported for envelopes whose schemas differ. *)
Theorem cross_check_triangle_spec input_ ia ib ic ea eb ec env :
  ia input_ = Ok ea → ib input_ = Ok eb → ic input_ = Ok ec →
  json_wf ea → json_wf eb → json_wf ec →
  ∃ r, cross_check_triangle input_ (λ _, ia) (λ _, ib) (Some (λ _, ic))
         (Some BridgeAudit.THREE_WAY) env = Ok r ∧
    (json_sort ea = json_sort eb → json_sort eb = json_sort ec → all_consistent r = true) ∧
    (all_consistent r = true →
     (json_sort ea = json_sort eb ∧ json_sort eb = json_sort ec) ∨
     collision_in sha256 (envelope_messages [ea; eb; ec])) ∧
    (schema_version_drift r = true →
     ¬ (resolve ea [u "schema"] = resolve eb [u "schema"] ∧
        resolve eb [u "schema"] = resolve ec [u "schema"])).
Proof.
  intros Ia Ib Ic Wa Wb Wc.
  destruct (compare_wf input_ ia ib ea eb Ia Ib Wa Wb) as (ab & Eab & Sab & Cab & Dab).
  destruct (compare_wf input_ ib ic eb ec Ib Ic Wb Wc) as (bc & Ebc & Sbc & Cbc & Dbc).
  destruct (compare_wf input_ ia ic ea ec Ia Ic Wa Wc) as (ac & Eac & Sac & Cac & Dac).
  unfold cross_check_triangle. rewrite bind_Ok, bool_decide_true by (right; left).
  cbn [negb]. rewrite raise_if_false, bind_Ok, Eab, bind_Ok.
  change (str_eqb BridgeAudit.THREE_WAY BridgeAudit.TWO_WAY) with false. cbn [of_option].
  rewrite bind_Ok, Ebc, bind_Ok, Eac, bind_Ok. eexists. split; [done|].
  cbn [all_consistent schema_version_drift]. split_and!.
  - intros E1 E2. rewrite Sab, Sbc, Sac by congruence. done.
  - rewrite !andb_true_iff. intros [[Hab Hbc] _].
    destruct (Cab Hab) as [?|Hc];
      [|right; revert Hc; apply collision_in_mono, envelope_messages_sub; set_solver].
    destruct (Cbc Hbc) as [?|Hc];
      [by left|right; revert Hc; apply collision_in_mono, envelope_messages_sub; set_solver].
  - rewrite !orb_true_iff. intros [[Hs|Hs]|Hs] [E1 E2].
    + by apply (schema_differs ea eb ab) in Hs.
    + by apply (schema_differs eb ec bc) in Hs.
    + apply (schema_differs ea ec ac) in Hs; congruence.
Qed.
Definition input_ok (input_ : DiffInput) : Prop :=
  okstr (org_id input_) ∧ okstr (output_kind input_) ∧ okstr (persona_id input_) ∧
  okstr (session_id input_) ∧ okstr (ts_utc input_).

Lemma default_wf input_ version :
  input_ok input_ → okstr version →
  json_wf (_canonical_engineering_output_envelope input_ version default_pin
             BridgeAudit.ENGINEERING_OUTPUT_SCHEMA).
Proof.
  intros (? & ? & ? & ? & ?) Hv. apply projection_wf; first [assumption|by vm_compute].
Qed.

Lemma walk_text p (s t : str) :
  walk_in (JStr s) p (Some (JStr t)) =
  if decide (s = t) then []
  else [{| path := p; kind := VALUE_MISMATCH; value_a := JStr s; value_b := JStr t |}].
Proof.
  rewrite walk_leaf by (by cbn; set_solver). unfold compare_leaf.
  change (py_eq (JStr s) (JStr t)) with (bool_decide (s = t)).
  rewrite (bool_decide_true (type_of _ = _)) by done. by case_decide; case_bool_decide.
Qed.

Lemma walk_int p z : walk_in (JInt z) p (Some (JInt z)) = [].
Proof.
  rewrite walk_leaf by (by cbn; set_solver). unfold compare_leaf.
  change (py_eq (JInt z) (JInt z)) with (z =? z). by rewrite Z.eqb_refl.
Qed.

(** Projections with different versions differ in that member only. *)
Lemma projection_diff input_ v1 v2 pin schema :
  v1 ≠ v2 →
  diff_envelopes (_canonical_engineering_output_envelope input_ v1 pin schema)
                 (_canonical_engineering_output_envelope input_ v2 pin schema) =
  [{| path := u "/engine_version"; kind := VALUE_MISMATCH; value_a := JStr v1;
      value_b := JStr v2 |}].
Proof.
  intros Hv. unfold diff_envelopes, _walk, _canonical_engineering_output_envelope.
  generalize (org_id input_) (output_kind input_) (persona_id input_) (session_id input_)
    (ts_utc input_) (step_index input_) (BridgeAudit.sha256_hex (payload input_))
    (u "engineering_output").
  intros o k p s t i h e. rewrite walk_obj.
  match goal with |- context [key_union ?x ?y] =>
    let ks := eval vm_compute in (key_union x y) in change (key_union x y) with ks end.
  cbn [mbind list_bind].
  repeat match goal with |- context [_walk ?p (dict_get ?d ?k) (dict_get ?e ?k)] =>
    let x := eval lazy in (dict_get d k) in change (dict_get d k) with x;
    let y := eval lazy in (dict_get e k) in change (dict_get e k) with y
  end.
  cbn [_walk]. rewrite !walk_text, !walk_int, decide_False by done.
  repeat (rewrite decide_True by done). by vm_compute.
Qed.
(** With the three default implementations a three-way check reports two
    drifting edges on every input, each in the version alone, unless the texts
    hashed for the two versions collide; a two-way check is always consistent. *)
Theorem default_stub_drifts input_ env :
  input_ok input_ →
  let check m := cross_check_triangle input_
    (λ _, default_python_markdown_projection default_version default_pin)
    (λ _, default_python_structured_projection default_version default_pin)
    (Some (λ _, default_rust_engine_stub stub_version default_pin)) (Some m) env in
  (∃ r, check BridgeAudit.TWO_WAY = Ok r ∧ all_consistent r = true) ∧
  ∃ r ac bc, check BridgeAudit.THREE_WAY = Ok r ∧ byte_identical (report_ab r) = true ∧
    report_bc r = Some bc ∧ report_ac r = Some ac ∧
    (collision_in sha256 (envelope_messages
       [_canonical_engineering_output_envelope input_ default_version default_pin BridgeAudit.ENGINEERING_OUTPUT_SCHEMA;
        _canonical_engineering_output_envelope input_ stub_version default_pin BridgeAudit.ENGINEERING_OUTPUT_SCHEMA]) ∨
     all_consistent r = false ∧
     (path <$> field_diffs bc) = [u "/engine_version"] ∧
     (path <$> field_diffs ac) = [u "/engine_version"]).
Proof.
  intros Hi. cbv zeta.
  set (ia := default_python_markdown_projection default_version default_pin).
  set (ib := default_python_structured_projection default_version default_pin).
  set (ic := default_rust_engine_stub stub_version default_pin).
  pose proof (default_wf input_ default_version Hi eq_refl) as Wa.
  pose proof (default_wf input_ stub_version Hi eq_refl) as Wc.
  set (ea := _canonical_engineering_output_envelope _ default_version _ _) in *.
  set (ec := _canonical_engineering_output_envelope _ stub_version _ _) in *.
  assert (default_version ≠ stub_version) as Hv by done.
  pose proof (projection_diff input_ _ _ default_pin BridgeAudit.ENGINEERING_OUTPUT_SCHEMA Hv) as Hd.
  fold ea ec in Hd.
  destruct (compare_wf input_ ia ib ea ea eq_refl eq_refl Wa Wa) as (ab & Eab & Sab & _ & _).
  destruct (compare_wf input_ ib ic ea ec eq_refl eq_refl Wa Wc) as (bc & Ebc & _ & Cbc & Dbc).
  destruct (compare_wf input_ ia ic ea ec eq_refl eq_refl Wa Wc) as (ac & Eac & _ & Cac & Dac).
  assert (json_sort ea ≠ json_sort ec) as Hne.
  { intros E%(diff_nil_same ea ec Wa Wc). by rewrite Hd in E. }
  split; unfold cross_check_triangle; rewrite bind_Ok, bool_decide_true by (left || (right; left));
    cbn [negb]; rewrite raise_if_false, bind_Ok, Eab, bind_Ok.
  - eexists. split; [reflexivity|]. by apply Sab.
  - change (str_eqb BridgeAudit.THREE_WAY BridgeAudit.TWO_WAY) with false. cbn [of_option].
    rewrite bind_Ok, Ebc, bind_Ok, Eac, bind_Ok. eexists _, ac, bc. split; [reflexivity|].
    cbn [report_ab report_bc report_ac all_consistent]. split_and!; [by apply Sab|done|done|].
    destruct (byte_identical bc) eqn:Hbc; [left; by destruct (Cbc eq_refl)|].
    destruct (byte_identical ac) eqn:Hac; [left; by destruct (Cac eq_refl)|].
    right. rewrite Dbc, Dac, Hd. rewrite andb_false_r. split_and!; reflexivity.
Qed.
End triangle.

(** ** Concrete checks *)

Module TriangleExample.

#[local] Existing Instance checksum_sha256.

Definition input1 : DiffInput :=
  {| org_id := u "acme"; persona_id := u "mira"; session_id := u "s1"; step_index := 7;
     output_kind := u "reply"; payload := []; ts_utc := u "2026-05-17T10:00:00Z" |}.

Definition v1 : Implementation := λ _, Ok DiffExample.doc_a.
Definition v2 : Implementation := λ _, Ok DiffExample.doc_b.
Definition v3 : Implementation := λ _, Ok DiffExample.doc_a'.

Definition report : TriangleReport :=
  ok_or {| mode := []; all_consistent := false; schema_version_drift := false;
           report_ab := {| byte_identical := false; jcs_hash_a := []; jcs_hash_b := [];
             field_diffs := []; score := S754_nan; envelope_a := JNull; envelope_b := JNull |};
           report_bc := None; report_ac := None |}
    (cross_check_triangle input1 (λ _, v1) (λ _, v2) (Some (λ _, v3)) (Some BridgeAudit.THREE_WAY) []).

Lemma drift_never_on_one_edge_witness :
  ∃ reports, pairwise_reports report = Some reports ∧ drift_edges reports ≠ 1%nat ∧
    (all_consistent report = true ↔ drift_edges reports = 0%nat).
Proof.
  apply (drift_never_on_one_edge input1 v1 v2 v3 (Some BridgeAudit.THREE_WAY) [] report);
    by vm_compute.
Defined.

Lemma cross_check_triangle_spec_witness :
  ∃ r, cross_check_triangle input1 (λ _, v1) (λ _, v2) (Some (λ _, v3))
         (Some BridgeAudit.THREE_WAY) [] = Ok r ∧
    (json_sort DiffExample.doc_a = json_sort DiffExample.doc_b →
     json_sort DiffExample.doc_b = json_sort DiffExample.doc_a' → all_consistent r = true) ∧
    (all_consistent r = true →
     (json_sort DiffExample.doc_a = json_sort DiffExample.doc_b ∧
      json_sort DiffExample.doc_b = json_sort DiffExample.doc_a') ∨
     collision_in sha256 (envelope_messages [DiffExample.doc_a; DiffExample.doc_b; DiffExample.doc_a'])) ∧
    (schema_version_drift r = true →
     ¬ (resolve DiffExample.doc_a [u "schema"] = resolve DiffExample.doc_b [u "schema"] ∧
        resolve DiffExample.doc_b [u "schema"] = resolve DiffExample.doc_a' [u "schema"])).
Proof.
  apply (cross_check_triangle_spec input1 v1 v2 v3); [done|done|done|apply DiffExample.docs_wf..].
Defined.

Example report_summary :
  summary report = Some (u "3way drift edges=2/3 schema_drift=True score_ab=0.2500").
Proof. by vm_compute. Qed.

(** An implementation that answers differently the second time drifts on one
    edge alone. *)
Example flaky_edge :
  (λ r, drift_edges <$> pairwise_reports r) <$>
    match cross_check_triangle input1 (λ n, if (n =? 0)%nat then v1 else v2) (λ _, v1)
            (Some (λ _, v1)) (Some BridgeAudit.THREE_WAY) [] with
    | Ok r => Some r | Err _ => None end = Some (Some 1%nat).
Proof. by vm_compute. Qed.

Lemma default_stub_drifts_witness :
  let check m := cross_check_triangle input1
    (λ _, default_python_markdown_projection default_version default_pin)
    (λ _, default_python_structured_projection default_version default_pin)
    (Some (λ _, default_rust_engine_stub stub_version default_pin)) (Some m) [] in
  (∃ r, check BridgeAudit.TWO_WAY = Ok r ∧ all_consistent r = true) ∧
  ∃ r ac bc, check BridgeAudit.THREE_WAY = Ok r ∧ byte_identical (report_ab r) = true ∧
    report_bc r = Some bc ∧ report_ac r = Some ac ∧
    (collision_in sha256 (envelope_messages
       [_canonical_engineering_output_envelope input1 default_version default_pin BridgeAudit.ENGINEERING_OUTPUT_SCHEMA;
        _canonical_engineering_output_envelope input1 stub_version default_pin BridgeAudit.ENGINEERING_OUTPUT_SCHEMA]) ∨
     all_consistent r = false ∧
     (path <$> field_diffs bc) = [u "/engine_version"] ∧
     (path <$> field_diffs ac) = [u "/engine_version"]).
Proof. apply (default_stub_drifts input1 []). repeat split; by vm_compute. Defined.
End TriangleExample.
