(* ===== verification/Subjects.v ===== *)
(** * The subject grammar of the transport ([wirelang/nats/subject_mapping.py])

    Subjects are [wakir.<env>.<domain>.<event_type>[.<sub_id>]].  Building,
    parsing and the validation of wildcard patterns are the source's functions;
    a regular expression is the predicate it stands for, [re_dollar] for the
    anchor that also matches before a final line feed.

    The theorems: a subject that parses is built back from its parts; a subject
    of a reserved event type parses back into the parts it was built from; and
    a pattern that passes validation matches subjects of its own environment
    and domain only. *)

From S2P Require Import Prelude PyStr PyTime PyRepr.
From Stdlib Require Import ZArith Lia.

Open Scope Z_scope.

(** [SubjectFormatError], with the rule its text names, and the
    [UnicodeEncodeError] of [encode]. *)
Inductive subject_rule : Type := R0 | R1 | R2 | R3 | R4 | R6 | W1 | W2 | W4 | W6.
Inductive subject_error : Type :=
| SubjectFormatError (rule : subject_rule)
| SubjectEncodeError.

Module Subjects.

Definition RESERVED_ENVS : list str := [u "dev"; u "staging"; u "prod"].

Definition RESERVED_EVENT_TYPES : list (str * list str) :=
  [(u "aip", [u "aip.document.published"; u "aip.document.rotated";
              u "aip.document.revoked"; u "aip.document.fetched"]);
   (u "cap", [u "cap.token.issued"; u "cap.token.appended"; u "cap.token.sealed";
              u "cap.token.revoked"; u "cap.token.verified"]);
   (u "federation", [u "federation.ftd.published"; u "federation.ftd.rotated";
                     u "federation.peer.admitted"; u "federation.route.added";
                     u "federation.route.removed"]);
   (u "wat", [u "wat.audit.anchor.created"; u "wat.leaf.federated.attached"]);
   (u "agent", [u "agent.task.assigned"; u "agent.task.accepted"; u "agent.task.completed"]);
   (u "meta", [u "meta.schema.deprecation"; u "meta.vocabulary.bumped";
               u "meta.capability.issued"]);
   (u "treasury", []);
   (u "comms", [])].

Definition layer_2 : str := u "https://wakir.dev/wirelang/schema/layer-2-semantic/0.1.0".
Definition trust_document : str :=
  u "https://wakir.dev/wirelang/schema/federation-trust-document/0.1.0".

Definition _SCHEMA_INVENTORY : list (str * option str) :=
  [(u "aip.document", Some (u "https://wakir.dev/wirelang/schema/aip-document/0.1.0"));
   (u "cap.token", Some (u "https://wakir.dev/wirelang/schema/layer-3-capability-token/0.1.0"));
   (u "federation.ftd", Some trust_document);
   (u "federation.peer", Some trust_document);
   (u "federation.route", Some trust_document);
   (u "wat.audit", None);
   (u "wat.leaf", None);
   (u "agent.task", Some layer_2);
   (u "meta.schema", Some layer_2);
   (u "meta.vocabulary", Some layer_2);
   (u "meta.capability", Some layer_2)].

Definition MAX_SUB_ID_OCTETS : nat := 64.

(** ** The regular expressions *)

Definition domain_char (c : Z) : bool := is_lower c || is_digit c || one_of (u "_-") c.
Definition event_char (c : Z) : bool := is_lower c || is_digit c || one_of (u "_.-") c.
Definition sub_char (c : Z) : bool := is_alnum c || one_of (u "_.-") c.
Definition host_char (c : Z) : bool := is_lower c || is_digit c || (c =? 45).

Definition headed (p : Z → bool) (s : str) : bool :=
  match s with c :: r => is_lower c && forallb p r | [] => false end.
Definition plus (p : Z → bool) (s : str) : bool := negb (str_empty s) && forallb p s.

Definition _DOMAIN_RE : str → bool := re_dollar (headed domain_char).
Definition _EVENT_TYPE_RE : str → bool := re_dollar (headed event_char).
Definition _SUB_ID_RE : str → bool := re_dollar (plus sub_char).
Definition _PERSONA_SLUG_RE : str → bool :=
  re_dollar (λ s, headed domain_char s && (length s <=? 31)%nat).
Definition _FEDERATION_HOST_SLUG_RE : str → bool :=
  re_dollar (λ s, forallb (plus host_char) (split_on 46 s)).

(** The part behind the domain: an event type, and optionally a dot and a
    sub-identifier at any of its dots. *)
Definition schema_tail (s : str) : bool :=
  existsb (λ i, headed event_char (take i s) &&
                match drop i s with
                | [] => true
                | c :: r => (c =? 46) && plus sub_char r
                end) (seq 1 (length s)).

(** No token before the tail can hold a dot. *)
Definition schema_full (s : str) : bool :=
  match split_on 46 s with
  | org :: env :: domain :: rest =>
      str_eqb org (u "wakir") && bool_decide (env ∈ RESERVED_ENVS) &&
      headed domain_char domain &&
      match rest with [] => false | _ => schema_tail (join (u ".") rest) end
  | _ => false
  end.
Definition SCHEMA_SUBJECT_REGEX : str → bool := re_dollar schema_full.

(** The groups of [_TV_ANCHOR_RE]. *)
Definition at_end (s : str) : bool :=
  match s with [] => true | [c] => c =? 10 | _ => false end.

Definition _TV_ANCHOR_RE (s : str) : option (str * option str) :=
  let prefix := u "tv.w." in
  if startswith s prefix then
    let '(digits, r) := span is_decimal (drop (length prefix) s) in
    if str_empty digits then None
    else if at_end r then Some (digits, None)
    else match r with
         | c :: t =>
             let '(step, e) := span host_char t in
             if (c =? 46) && negb (str_empty step) && at_end e then Some (digits, Some step)
             else None
         | [] => None
         end
  else None.

(** ** Subjects *)

Record SubjectV1 : Type := MkSubject {
  env : str;
  domain : str;
  event_type : str;
  sub_id : option str;
}.

Definition octets (s : str) : result subject_error nat :=
  b ← of_option SubjectEncodeError (utf8_encode s); Ok (length b).

Definition dot : str := u ".".

(** The lower-case check of the environment is implied by the next one, of the
    same rule; the warning for an unreserved domain does not stop the call. *)
Definition build_subject (env domain event_type : str) (sub_id : option str)
    : result subject_error str :=
  raise_if (negb (bool_decide (env ∈ RESERVED_ENVS))) (SubjectFormatError R1);;
  raise_if (negb (_DOMAIN_RE domain)) (SubjectFormatError R2);;
  raise_if (negb (_EVENT_TYPE_RE event_type)) (SubjectFormatError R3);;
  match sub_id with
  | None => Ok ()
  | Some s =>
      raise_if (str_empty s) (SubjectFormatError R4);;
      n ← octets s;
      raise_if (MAX_SUB_ID_OCTETS <? n)%nat (SubjectFormatError R4);;
      raise_if (negb (_SUB_ID_RE s)) (SubjectFormatError R4)
  end;;
  let parts := [u "wakir"; env; domain; event_type] ++
               match sub_id with Some s => [s] | None => [] end in
  let subject := join dot parts in
  raise_if (negb (SCHEMA_SUBJECT_REGEX subject)) (SubjectFormatError R0);;
  Ok subject.

Definition to_string (v : SubjectV1) : result subject_error str :=
  build_subject (env v) (domain v) (event_type v) (sub_id v).

Definition persona_slug (sub_id : option str) : option str :=
  s ← sub_id; if _PERSONA_SLUG_RE s then Some s else None.

Definition tv_anchor (sub_id : option str) : option (Z * option str) :=
  s ← sub_id; '(digits, step) ← _TV_ANCHOR_RE s; n ← int_of_text digits; Some (n, step).

Definition _looks_like_sub_id_anchor (sub_id : str) : bool :=
  match persona_slug (Some sub_id), tv_anchor (Some sub_id) with
  | Some _, _ => true
  | None, Some _ => true
  | None, None => _FEDERATION_HOST_SLUG_RE sub_id && bool_decide (46 ∉ sub_id)
  end.

(** Both tests of a candidate split. *)
Definition splits_off (domain : str) (rest : list str) (i : nat) : bool :=
  match dict_get RESERVED_EVENT_TYPES domain with
  | Some known => bool_decide (join dot (take i rest) ∈ known) &&
                  _looks_like_sub_id_anchor (join dot (drop i rest))
  | None => false
  end.

(** The length of the event type among the tokens behind the domain: all but
    the last, or fewer for the anchors with dots. *)
Definition find_split (domain : str) (rest : list str) : option nat :=
  let n := length rest in
  if (2 <=? n)%nat && splits_off domain rest (n - 1) then Some (n - 1)%nat
  else if (4 <=? n)%nat then
    head (filter (λ i, splits_off domain rest i = true) (reverse (seq 1 (n - 1))))
  else None.

Definition parse_subject (subject : str) : result subject_error SubjectV1 :=
  raise_if (str_empty subject) (SubjectFormatError R0);;
  raise_if (negb (SCHEMA_SUBJECT_REGEX subject)) (SubjectFormatError R0);;
  match split_on 46 subject with
  | _ :: env :: domain :: rest =>
      raise_if (negb (bool_decide (env ∈ RESERVED_ENVS))) (SubjectFormatError R1);;
      raise_if (negb (_DOMAIN_RE domain)) (SubjectFormatError R2);;
      raise_if (match rest with [] => true | _ => false end) (SubjectFormatError R3);;
      let '(event_type, sub_id) :=
        match find_split domain rest with
        | Some i => (join dot (take i rest), Some (join dot (drop i rest)))
        | None => (join dot rest, None)
        end in
      raise_if (negb (_EVENT_TYPE_RE event_type)) (SubjectFormatError R3);;
      match sub_id with
      | None => Ok ()
      | Some s => n ← octets s; raise_if (MAX_SUB_ID_OCTETS <? n)%nat (SubjectFormatError R4)
      end;;
      Ok (MkSubject env domain event_type sub_id)
  | _ => Err (SubjectFormatError R0)
  end.

Definition roundtrip (subject : str) : result subject_error str :=
  parsed ← parse_subject subject;
  build_subject (env parsed) (domain parsed) (event_type parsed) (sub_id parsed).

(** [s.lower()], as far as the class below can tell: of the characters outside
    ASCII only the Kelvin sign becomes an ASCII letter. *)
Definition lower_char (c : Z) : Z :=
  if is_upper c then c + 32 else if c =? 0x212A then 107 else c.

Definition federation_host_slug (host_fqdn : str) : result subject_error str :=
  raise_if (str_empty host_fqdn) (SubjectFormatError R6);;
  let slug := replace1 46 (u "-") (lower_char <$> host_fqdn) in
  raise_if (negb (re_dollar (plus host_char) slug)) (SubjectFormatError R6);;
  n ← octets slug;
  raise_if (MAX_SUB_ID_OCTETS <? n)%nat (SubjectFormatError R4);;
  Ok slug.

(** ** Wildcard patterns *)

Definition star : str := u "*".
Definition rest_wildcard : str := u ">".
Definition is_wildcard (t : str) : bool := bool_decide (t ∈ [star; rest_wildcard]).

Definition token (tokens : list str) (i : nat) : str := default [] (tokens !! i).

Definition validate_stream_pattern (pattern : str) : result subject_error () :=
  raise_if (str_empty pattern) (SubjectFormatError W1);;
  let tokens := split_on 46 pattern in
  raise_if (negb (str_eqb (token tokens 0) (u "wakir"))) (SubjectFormatError W1);;
  raise_if ((length tokens <? 2)%nat || is_wildcard (token tokens 1)) (SubjectFormatError W2);;
  raise_if (length tokens <? 4)%nat (SubjectFormatError W1);;
  raise_if (negb (bool_decide (token tokens 1 ∈ RESERVED_ENVS))) (SubjectFormatError W2);;
  raise_if (is_wildcard (token tokens 2)) (SubjectFormatError W1).

Definition validate_consumer_filter (pattern : str) : result subject_error () :=
  raise_if (str_empty pattern) (SubjectFormatError W4);;
  let tokens := split_on 46 pattern in
  raise_if (negb (str_eqb (token tokens 0) (u "wakir"))) (SubjectFormatError W4);;
  raise_if (length tokens <? 3)%nat (SubjectFormatError W4);;
  raise_if (is_wildcard (token tokens 1)) (SubjectFormatError W2);;
  raise_if (negb (bool_decide (token tokens 1 ∈ RESERVED_ENVS))) (SubjectFormatError W4);;
  raise_if (length tokens <? 4)%nat (SubjectFormatError W4);;
  raise_if (is_wildcard (token tokens 2) && str_eqb (token tokens 2) star) (SubjectFormatError W4);;
  raise_if ((5 <=? length tokens)%nat && str_eqb (token tokens 3) star) (SubjectFormatError W6).

Definition schema_for_subject (subject : str) : result subject_error (option str) :=
  parsed ← parse_subject subject;
  let et_tokens := split_on 46 (event_type parsed) in
  if (length et_tokens <? 2)%nat then Ok None
  else Ok (mjoin (dict_get _SCHEMA_INVENTORY (join dot (take 2 et_tokens)))).
End Subjects.

Import Subjects.

(** ** Tokens *)

Section tokens.

Lemma join_app sep l k :
  l ≠ [] → k ≠ [] → join sep (l ++ k) = join sep l ++ sep ++ join sep k.
Proof.
  intros Hl Hk. induction l as [|x l IH]; [done|]. destruct l as [|y l].
  - by destruct k.
  - change (join sep ((x :: y :: l) ++ k)) with (x ++ sep ++ join sep ((y :: l) ++ k)).
    rewrite IH by done. change (join sep (x :: y :: l)) with (x ++ sep ++ join sep (y :: l)).
    by rewrite <- !app_assoc.
Qed.

Lemma split_on_join c l :
  l ≠ [] → Forall (λ t, c ∉ t) l → split_on c (join [c] l) = l.
Proof.
  intros Hne Hl. induction Hl as [|x l Hx Hl IH]; [done|]. destruct l as [|y l].
  - by apply split_on_nil.
  - change (join [c] (x :: y :: l)) with (x ++ c :: join [c] (y :: l)).
    rewrite split_on_app by done. by rewrite IH.
Qed.

Lemma split_no_sep c s : Forall (λ t, c ∉ t) (split_on c s).
Proof.
  induction s as [|x s IH]; cbn [split_on].
  - repeat constructor. apply not_elem_of_nil.
  - destruct (Z.eqb_spec x c) as [->|Hx].
    + constructor; [apply not_elem_of_nil|done].
    + destruct (split_on c s) as [|t ts]; [by repeat constructor; apply not_elem_of_cons; split; [|apply not_elem_of_nil]|].
      apply Forall_cons in IH as [Ht Hts]. constructor; [|done]. by apply not_elem_of_cons.
Qed.

(** A character behind the text belongs to its last token. *)
Lemma split_snoc c s x init l :
  x ≠ c → split_on c s = init ++ [l] → split_on c (s ++ [x]) = init ++ [l ++ [x]].
Proof.
  intros Hx. revert init l. induction s as [|y s IH]; intros init l; cbn [app split_on].
  - destruct (Z.eqb_spec x c); [done|]. intros E. by destruct init as [|? [|]]; simplify_eq/=.
  - destruct (exists_last (split_on_nonnil c s)) as (init' & l' & E). rewrite (IH _ _ E), E.
    destruct (y =? c).
    + intros Ei. destruct init as [|a init]; injection Ei as Ea Ei; [by destruct init'|].
      apply app_inj_tail in Ei as [<- <-]. by subst a.
    + destruct init' as [|a init']; cbn; intros Ei.
      * by destruct init as [|? [|]]; simplify_eq/=.
      * destruct init as [|b init]; injection Ei as Ea Ei; [by destruct init'|].
        apply app_inj_tail in Ei as [<- <-]. by subst b.
Qed.

Lemma Forall_join (P : Z → Prop) sep l :
  Forall P sep → Forall (Forall P) l → Forall P (join sep l).
Proof.
  intros Hsep. induction 1 as [|x l Hx Hl IH]; [constructor|]. destruct l as [|y l]; [done|].
  change (join sep (x :: y :: l)) with (x ++ sep ++ join sep (y :: l)).
  repeat (apply Forall_app; split); done.
Qed.

(** The tokens of a subject, and its characters. *)
Definition schema_parts (s : str) : Prop :=
  ∃ env domain rest, split_on 46 s = u "wakir" :: env :: domain :: rest ∧ rest ≠ [].

Lemma schema_full_parts s :
  schema_full s = true → schema_parts s ∧ Forall (λ c, sub_char c = true) s.
Proof.
  unfold schema_full. intros Hs.
  destruct (split_on 46 s) as [|org [|env [|domain rest]]] eqn:E; try done.
  apply andb_true_iff in Hs as [Hs Ht]. apply andb_true_iff in Hs as [Hs Hd].
  apply andb_true_iff in Hs as [Ho He].
  unfold str_eqb in Ho. apply bool_decide_eq_true in Ho as ->. apply bool_decide_eq_true in He.
  destruct rest as [|r rest]; [done|]. split; [by eexists _, _, _|].
  assert (∀ p t, (∀ c, p c = true → sub_char c = true) → headed p t = true →
    Forall (λ c, sub_char c = true) t) as Hheaded.
  { intros p [|c t] Hp; [done|]. cbn. intros [Hc Hr]%andb_true_iff. constructor.
    - unfold sub_char, is_alnum. by rewrite Hc, orb_true_r.
    - apply Forall_forall. intros x Hx. rewrite forallb_forall in Hr.
      by apply Hp, Hr, list_elem_of_In. }
  assert (∀ c, domain_char c = true → sub_char c = true) as Hdc.
  { unfold domain_char, sub_char, is_alnum, one_of. ulit. intros c.
    rewrite !orb_true_iff, !bool_decide_eq_true, !elem_of_cons. naive_solver. }
  assert (∀ c, event_char c = true → sub_char c = true) as Hec.
  { unfold event_char, sub_char, is_alnum. intros c. rewrite !orb_true_iff. naive_solver. }
  rewrite <- (join_split 46 s), E.
  change (u "wakir" :: env :: domain :: r :: rest) with ([u "wakir"; env; domain] ++ (r :: rest)).
  rewrite join_app by done. rewrite !Forall_app. split_and!.
  - apply Forall_join; [by repeat constructor|].
    constructor; [by repeat constructor|]. constructor; [|constructor; [by apply (Hheaded domain_char)|constructor]].
    unfold RESERVED_ENVS in He. rewrite !elem_of_cons in He.
    destruct He as [->|[->|[->|He%elem_of_nil]]]; [by repeat constructor..|done].
  - by repeat constructor.
  - change [46] with (u "."). unfold schema_tail in Ht. apply existsb_exists in Ht as (i & _ & Hi).
    apply andb_true_iff in Hi as [Hh Hr].
    rewrite <- (take_drop i (join (u ".") (r :: rest))). apply Forall_app. split; [by eapply Hheaded|].
    destruct (drop i _) as [|c t]; [constructor|]. apply andb_true_iff in Hr as [->%Z.eqb_eq Hr].
    constructor; [done|]. apply andb_true_iff in Hr as [_ Hr]. apply Forall_forall. intros x Hx.
    rewrite forallb_forall in Hr. by apply Hr, list_elem_of_In.
Qed.

Lemma schema_regex_parts s :
  SCHEMA_SUBJECT_REGEX s = true →
  schema_parts s ∧ ∃ s' e, s = s' ++ e ∧ Forall (λ c, sub_char c = true) s' ∧ (e = [] ∨ e = [10]).
Proof.
  unfold SCHEMA_SUBJECT_REGEX. rewrite re_dollar_spec. intros [Hs|(s' & -> & Hs)];
    apply schema_full_parts in Hs as [Hp Hc].
  - split; [done|]. exists s, []. rewrite app_nil_r. auto.
  - split; [|by exists s', [10]; auto]. destruct Hp as (env & domain & rest & E & Hr).
    destruct (exists_last Hr) as (init & l & ->).
    exists env, domain, (init ++ [l ++ [10]]). split; [|by destruct init].
    by apply (split_snoc 46 s' 10 (u "wakir" :: env :: domain :: init)).
Qed.

(** A suffix that is not empty, nor just the line feed, can be a sub-identifier. *)
Lemma suffix_sub_id s a sub :
  SCHEMA_SUBJECT_REGEX s = true → s = a ++ sub → sub ≠ [] → sub ≠ [10] → _SUB_ID_RE sub = true.
Proof.
  intros [_ (s' & e & -> & Hc & He)]%schema_regex_parts Hs Hne Hnl.
  assert (∀ t, t ≠ [] → Forall (λ c, sub_char c = true) t → plus sub_char t = true) as Hplus.
  { intros t Ht Hf. unfold plus. destruct t; [done|]. apply forallb_forall. intros x Hx.
    rewrite Forall_forall in Hf. by apply Hf, list_elem_of_In. }
  unfold _SUB_ID_RE. rewrite re_dollar_spec. destruct He as [->| ->].
  - left. rewrite app_nil_r in Hs. subst s'. apply Forall_app in Hc as [_ Hc]. auto.
  - right. destruct (exists_last Hne) as (t & x & ->). rewrite app_assoc in Hs.
    apply app_inj_tail in Hs as [-> <-]. exists t. apply Forall_app in Hc as [_ Hc].
    split; [done|]. apply Hplus; [|done]. by intros ->.
Qed.
End tokens.

(** ** Parsing and building *)

Section subjects.

Lemma anchor_nonempty s : _looks_like_sub_id_anchor s = true → s ≠ [] ∧ s ≠ [10].
Proof.
  intros H. split; intros ->; vm_compute in H; done.
Qed.

Lemma find_split_Some d rest i :
  find_split d rest = Some i →
  (1 ≤ i < length rest)%nat ∧ splits_off d rest i = true.
Proof.
  unfold find_split. destruct (2 <=? length rest)%nat eqn:E2; cbn [andb].
  - destruct (splits_off d rest (length rest - 1)) eqn:Es.
    + intros [= <-]. propify. split; [lia|done].
    + destruct (4 <=? length rest)%nat; [|done]. intros Hi%head_Some_elem_of.
      apply list_elem_of_filter in Hi as [Hs Hi%elem_of_reverse%elem_of_seq]. split; [lia|done].
  - destruct (4 <=? length rest)%nat eqn:E4; [|done]. propify. lia.
Qed.

Lemma splits_off_anchor d rest i :
  splits_off d rest i = true → _looks_like_sub_id_anchor (join dot (drop i rest)) = true.
Proof.
  unfold splits_off. destruct (dict_get _ d); [|done]. by intros [_ ?]%andb_true_iff.
Qed.

(** What the parser's answer says about the text. *)
Lemma parse_parts s v :
  parse_subject s = Ok v →
  SCHEMA_SUBJECT_REGEX s = true ∧ env v ∈ RESERVED_ENVS ∧ _DOMAIN_RE (domain v) = true ∧
  _EVENT_TYPE_RE (event_type v) = true ∧
  s = join dot ([u "wakir"; env v; domain v; event_type v] ++
                match sub_id v with Some t => [t] | None => [] end) ∧
  ∀ t, sub_id v = Some t → _SUB_ID_RE t = true ∧ t ≠ [] ∧
    ∃ n, octets t = Ok n ∧ (n ≤ MAX_SUB_ID_OCTETS)%nat.
Proof.
  unfold parse_subject. intros Hv.
  apply bind_ok_iff in Hv as (? & _ & Hv). apply bind_ok_iff in Hv as (? & Hs%raise_if_ok & Hv).
  apply negb_false_iff in Hs. pose proof (schema_regex_parts s Hs) as [(e & d & rest & E & Hne) _].
  rewrite E in Hv.
  apply bind_ok_iff in Hv as (? & He%raise_if_ok & Hv). apply bind_ok_iff in Hv as (? & Hd%raise_if_ok & Hv).
  apply bind_ok_iff in Hv as (? & _ & Hv). apply negb_false_iff, bool_decide_eq_true in He.
  apply negb_false_iff in Hd.
  assert (s = join dot ([u "wakir"; e; d] ++ rest)) as Hjoin.
  { rewrite <- (join_split 46 s) at 1. by rewrite E. }
  destruct (find_split d rest) as [i|] eqn:Ei.
  - apply find_split_Some in Ei as [Hi Hsp]. apply splits_off_anchor in Hsp as Ha.
    apply bind_ok_iff in Hv as (? & Het%raise_if_ok & Hv). apply negb_false_iff in Het.
    apply bind_ok_iff in Hv as (? & Hn & [= <-]). cbn.
    apply bind_ok_iff in Hn as (n & Hn & Hmax%raise_if_ok). apply Nat.ltb_ge in Hmax.
    assert (join dot rest = join dot (take i rest) ++ dot ++ join dot (drop i rest)) as Hr.
    { rewrite <- (take_drop i rest) at 1. apply join_app.
      - intros E0%(f_equal length). rewrite length_take in E0. simpl in E0. lia.
      - intros E0%(f_equal length). rewrite length_drop in E0. simpl in E0. lia. }
    rewrite join_app in Hjoin by done. split_and!; try done.
    + rewrite Hjoin, Hr. cbn. by rewrite <- !app_assoc.
    + intros t [= <-]. destruct (anchor_nonempty _ Ha) as [Hne1 Hne2]. split_and!; [|done|by exists n].
      eapply suffix_sub_id; [exact Hs| |done|done].
      rewrite Hjoin, Hr, !app_assoc. reflexivity.
  - apply bind_ok_iff in Hv as (? & Het%raise_if_ok & Hv). apply negb_false_iff in Het.
    rewrite bind_Ok in Hv. injection Hv as <-. cbn. split_and!; try done.
    rewrite Hjoin, join_app by done. cbn. by rewrite <- !app_assoc.
Qed.

(** A subject that parses is built back, character for character, from the
    parts it was parsed into. *)
Theorem subject_roundtrip s v : parse_subject s = Ok v → to_string v = Ok s ∧ roundtrip s = Ok s.
Proof.
  intros Hp. assert (to_string v = Ok s) as Ht.
  { apply parse_parts in Hp as (Hs & He & Hd & Het & Hj & Hsub).
    unfold to_string, build_subject. rewrite bool_decide_true, Hd, Het by done. cbn [negb].
    rewrite !raise_if_false, !bind_Ok. rewrite <- Hj, Hs.
    destruct (sub_id v) as [t|]; [|done].
    destruct (Hsub t eq_refl) as (Hre & Hne & n & Hn & Hmax).
    rewrite Hn, Hre. replace (str_empty t) with false by by destruct t.
    apply Nat.ltb_ge in Hmax. rewrite raise_if_false, !bind_Ok, Hmax. done. }
  split; [done|]. unfold roundtrip. rewrite Hp, bind_Ok. exact Ht.
Qed.

(** The reserved event types, checked one by one. *)
Definition reserved_ok (d et : str) : bool :=
  headed domain_char d && bool_decide (46 ∉ d) && headed event_char et &&
  match find_split d (split_on 46 et) with None => true | Some _ => false end.

Lemma reserved_types d known et :
  dict_get RESERVED_EVENT_TYPES d = Some known → et ∈ known → reserved_ok d et = true.
Proof.
  intros Hd%dict_get_Some_elem Het.
  assert (forallb (λ dk, forallb (reserved_ok dk.1) dk.2) RESERVED_EVENT_TYPES = true) as Hall
    by by vm_compute.
  rewrite forallb_forall in Hall. apply list_elem_of_In, Hall in Hd. cbn in Hd.
  rewrite forallb_forall in Hd. by apply Hd, list_elem_of_In.
Qed.

Lemma schema_build e d et sub :
  e ∈ RESERVED_ENVS → headed domain_char d = true → 46 ∉ d → headed event_char et = true →
  match sub with Some t => plus sub_char t = true ∧ 46 ∉ t | None => True end →
  let rest := split_on 46 et ++ match sub with Some t => [t] | None => [] end in
  let s := join dot ([u "wakir"; e; d; et] ++ match sub with Some t => [t] | None => [] end) in
  split_on 46 s = [u "wakir"; e; d] ++ rest ∧ SCHEMA_SUBJECT_REGEX s = true.
Proof.
  intros He Hd Hdot Het Hsub rest s.
  assert (rest ≠ []) as Hne.
  { unfold rest. intros [E _]%app_nil. by apply split_on_nonnil in E. }
  assert (join dot rest = et ++ match sub with Some t => dot ++ t | None => [] end) as Hrest.
  { unfold rest. destruct sub as [t|].
    - rewrite join_app by (done || apply split_on_nonnil). unfold dot. ulit. by rewrite join_split.
    - rewrite !app_nil_r. apply join_split. }
  assert (s = join dot ([u "wakir"; e; d] ++ rest)) as Hs.
  { rewrite join_app, Hrest by done. unfold s. destruct sub; cbn; rewrite ?app_nil_r;
      by rewrite <- !app_assoc. }
  assert (split_on 46 s = [u "wakir"; e; d] ++ rest) as Hsplit.
  { rewrite Hs. change dot with [46]. apply split_on_join; [done|].
    apply Forall_app. split.
    - constructor; [by apply (bool_decide_unpack _)|]. constructor; [|by constructor; [|constructor]].
      unfold RESERVED_ENVS in He. rewrite !elem_of_cons in He.
      destruct He as [->|[->|[->|He%elem_of_nil]]]; by apply (bool_decide_unpack _).
    - unfold rest. apply Forall_app. split; [apply split_no_sep|].
      destruct sub as [t|]; [|constructor]. constructor; [by destruct Hsub|constructor]. }
  split; [done|]. unfold SCHEMA_SUBJECT_REGEX. apply re_dollar_full. unfold schema_full.
  rewrite Hsplit. cbn [app]. rewrite bool_decide_true, Hd by done.
  change (str_eqb (u "wakir") (u "wakir")) with true. cbn [andb].
  destruct rest as [|r rest'] eqn:Er; [done|]. change (u ".") with dot. rewrite Hrest.
  unfold schema_tail. apply existsb_exists. exists (length et). split.
  - apply in_seq. destruct et; [done|]. rewrite length_app. simpl. lia.
  - rewrite take_app_length, drop_app_length, Het. destruct sub as [t|]; [|done].
    destruct Hsub as [Hsub _]. change (true && ((46 =? 46) && plus sub_char t) = true).
    by rewrite Hsub.
Qed.

(** A subject of a reserved event type is parsed into the parts it was built
    from, without a sub-identifier or with one that is a single token and one
    of the anchors. *)
Theorem fields_roundtrip e d known et sub :
  e ∈ RESERVED_ENVS → dict_get RESERVED_EVENT_TYPES d = Some known → et ∈ known →
  match sub with
  | Some t => plus sub_char t = true ∧ 46 ∉ t ∧ _looks_like_sub_id_anchor t = true ∧
              (∃ n, octets t = Ok n ∧ (n ≤ MAX_SUB_ID_OCTETS)%nat)
  | None => True
  end →
  ∃ s, build_subject e d et sub = Ok s ∧ parse_subject s = Ok (MkSubject e d et sub).
Proof.
  intros He Hd Het Hsub. pose proof (reserved_types d known et Hd Het) as Hok.
  unfold reserved_ok in Hok. apply andb_true_iff in Hok as [Hok Hnone].
  apply andb_true_iff in Hok as [Hok Hhet]. apply andb_true_iff in Hok as [Hhd Hdot].
  apply bool_decide_eq_true in Hdot.
  assert (find_split d (split_on 46 et) = None) as Hfind by by destruct (find_split d _).
  destruct (schema_build e d et sub He Hhd Hdot Hhet) as [Hsplit Hre].
  { destruct sub as [t|]; [|done]. by destruct Hsub as (? & ? & _). }
  assert (_DOMAIN_RE d = true) as Hdre by by apply re_dollar_full.
  assert (_EVENT_TYPE_RE et = true) as Here by by apply re_dollar_full.
  set (s := join dot _) in *. exists s. split.
  - unfold build_subject. rewrite bool_decide_true, Hdre, Here by done. cbn [negb].
    rewrite !raise_if_false, !bind_Ok. fold s. rewrite Hre. destruct sub as [t|]; [|done].
    destruct Hsub as (Hp & _ & _ & n & Hn & Hmax). apply Nat.ltb_ge in Hmax.
    assert (_SUB_ID_RE t = true) as Hsre by by apply re_dollar_full.
    rewrite Hn, Hsre. destruct t; [done|]. cbn [str_empty]. by rewrite raise_if_false, !bind_Ok, Hmax.
  - assert (str_empty s = false) as Hemp by done.
    unfold parse_subject. rewrite Hemp, Hre. cbn [negb]. rewrite raise_if_false, !bind_Ok.
    rewrite Hsplit. cbn [app]. rewrite bool_decide_true, Hdre by done. cbn [negb].
    rewrite raise_if_false, !bind_Ok. set (rest := split_on 46 et ++ _) in *.
    destruct sub as [t|].
    + destruct Hsub as (Hp & Hnd & Ha & n & Hn & Hmax). apply Nat.ltb_ge in Hmax.
      assert (rest ≠ []) as Hne by (unfold rest; intros [E _]%app_nil; by apply split_on_nonnil in E).
      assert (length rest = S (length (split_on 46 et))) as Hlen by (unfold rest; rewrite length_app; simpl; lia).
      assert (1 ≤ length (split_on 46 et))%nat as Hl1.
      { pose proof (split_on_nonnil 46 et). destruct (split_on 46 et); [done|simpl; lia]. }
      assert (take (length rest - 1) rest = split_on 46 et) as Htake.
      { rewrite Hlen. replace (S _ - 1)%nat with (length (split_on 46 et)) by lia. apply take_app_length. }
      assert (drop (length rest - 1) rest = [t]) as Hdrop.
      { rewrite Hlen. replace (S _ - 1)%nat with (length (split_on 46 et)) by lia. apply drop_app_length. }
      assert (find_split d rest = Some (length rest - 1)%nat) as ->.
      { unfold find_split. rewrite (proj2 (Nat.leb_le 2 (length rest))) by lia.
        unfold splits_off. rewrite Hd, Htake, Hdrop. change dot with [46]. rewrite join_split.
        cbn [join]. by rewrite bool_decide_true, Ha by done. }
      rewrite Htake, Hdrop. change dot with [46]. rewrite join_split. cbn [join].
      rewrite Here. cbn [negb]. destruct rest; [done|].
      by rewrite !raise_if_false, !bind_Ok, Hn, bind_Ok, Hmax.
    + assert (rest = split_on 46 et) as -> by (unfold rest; by rewrite app_nil_r).
      rewrite Hfind. change dot with [46]. rewrite join_split, Here. cbn [negb].
      pose proof (split_on_nonnil 46 et). destruct (split_on 46 et); [done|].
      by rewrite !raise_if_false, !bind_Ok.
Qed.
End subjects.

(** ** Patterns *)

Section patterns.

(** How the server matches a subject: [*] stands for one token, [>] at the end
    for one token or more. *)
Fixpoint matches (pattern subject : list str) : bool :=
  match pattern, subject with
  | [], [] => true
  | p :: pattern', t :: subject' =>
      match pattern' with
      | [] => str_eqb p rest_wildcard || ((str_eqb p star || str_eqb p t) &&
              match subject' with [] => true | _ => false end)
      | _ => (str_eqb p star || str_eqb p t) && matches pattern' subject'
      end
  | _, _ => false
  end.

Lemma matches_cons p q pattern t subject :
  matches (p :: q :: pattern) (t :: subject) =
  (str_eqb p star || str_eqb p t) && matches (q :: pattern) subject.
Proof. done. Qed.

(** What both validators check of a pattern. *)
Definition pinned (p : str) : Prop :=
  ∃ e d q rest, split_on 46 p = u "wakir" :: e :: d :: q :: rest ∧ e ∈ RESERVED_ENVS ∧ d ≠ star.

Lemma stream_pinned p : validate_stream_pattern p = Ok () → pinned p.
Proof.
  unfold validate_stream_pattern. intros Hp. run_ok. unfold pinned.
  destruct (split_on 46 p) as [|t0 [|e [|d [|q rest]]]]; try done. exists e, d, q, rest.
  unfold str_eqb, is_wildcard in *. propify.
  repeat match goal with H : _ |- _ => progress cbn in H end.
  split_and!; [by subst|done|]. intros ->. apply Hp. by left.
Qed.

Lemma filter_pinned p : validate_consumer_filter p = Ok () → pinned p.
Proof.
  unfold validate_consumer_filter. intros Hp. run_ok. unfold pinned.
  destruct (split_on 46 p) as [|t0 [|e [|d [|q rest]]]]; try done. exists e, d, q, rest.
  unfold str_eqb, is_wildcard in *. propify.
  repeat match goal with H : _ |- _ => progress cbn in H end.
  split_and!; [by subst|done|]. intros ->.
  repeat match goal with H : _ ∨ _ |- _ => destruct H as [H|H] end; try done;
    match goal with H : star ∉ _ |- _ => apply H; by left end.
Qed.

Lemma pinned_matches p s e d rest :
  pinned p → split_on 46 s = u "wakir" :: e :: d :: rest →
  matches (split_on 46 p) (split_on 46 s) = true →
  token (split_on 46 p) 1 = e ∧ token (split_on 46 p) 2 = d.
Proof.
  intros (pe & pd & q & r & Ep & He & Hd) Es. rewrite Ep, Es, !matches_cons.
  intros [_ [Hme [Hmd _]%andb_true_iff]%andb_true_iff]%andb_true_iff.
  unfold token. cbn [lookup list_lookup default]. unfold str_eqb in *. propify. split.
  - destruct Hme as [->|?]; [|done]. unfold RESERVED_ENVS in He. rewrite !elem_of_cons in He.
    by destruct He as [?|[?|[?|?%elem_of_nil]]].
  - by destruct Hmd.
Qed.

(** C15: A stream pattern or a consumer filter that passes validation matches only
    subjects of the environment and the domain it names, so it never crosses
    environments. *)
Theorem pattern_stays_in_domain p s v :
  validate_stream_pattern p = Ok () ∨ validate_consumer_filter p = Ok () →
  parse_subject s = Ok v → matches (split_on 46 p) (split_on 46 s) = true →
  token (split_on 46 p) 1 = env v ∧ token (split_on 46 p) 2 = domain v.
Proof.
  intros Hp Hv Hm. assert (pinned p) as Hpin by (destruct Hp; auto using stream_pinned, filter_pinned).
  unfold parse_subject in Hv.
  apply bind_ok_iff in Hv as (? & _ & Hv). apply bind_ok_iff in Hv as (? & Hs%raise_if_ok & Hv).
  apply negb_false_iff in Hs. apply schema_regex_parts in Hs as [(e & d & rest & E & _) _].
  destruct (pinned_matches p s e d rest Hpin E Hm) as [-> ->].
  rewrite E in Hv. do 3 apply bind_ok_iff in Hv as (? & _ & Hv).
  destruct (match find_split d rest with Some i => _ | None => _ end) as [et sub].
  do 2 apply bind_ok_iff in Hv as (? & _ & Hv). by injection Hv as <-.
Qed.
End patterns.

(** ** Concrete subjects *)

Module SubjectExample.

Definition subject1 : str := u "wakir.prod.aip.aip.document.published.reza".
Definition subject2 : str := u "wakir.dev.cap.cap.token.issued.tv.w.2.issued".

Example parse1 :
  parse_subject subject1 =
    Ok (MkSubject (u "prod") (u "aip") (u "aip.document.published") (Some (u "reza"))) ∧
  parse_subject subject2 =
    Ok (MkSubject (u "dev") (u "cap") (u "cap.token.issued") (Some (u "tv.w.2.issued"))) ∧
  parse_subject (u "wakir.dev.treasury.treasury.x.y.reza") =
    Ok (MkSubject (u "dev") (u "treasury") (u "treasury.x.y.reza") None).
Proof. vm_compute. done. Qed.

Example hint1 :
  schema_for_subject subject1 =
  Ok (Some (u "https://wakir.dev/wirelang/schema/aip-document/0.1.0")).
Proof. vm_compute. done. Qed.

Lemma subject_roundtrip_witness :
  to_string (MkSubject (u "dev") (u "cap") (u "cap.token.issued") (Some (u "tv.w.2.issued"))) =
    Ok subject2 ∧ roundtrip subject2 = Ok subject2.
Proof. apply (subject_roundtrip subject2 (MkSubject _ _ _ _)). by vm_compute. Defined.

Lemma fields_roundtrip_witness :
  ∃ s, build_subject (u "prod") (u "agent") (u "agent.task.completed") (Some (u "mira")) = Ok s ∧
    parse_subject s =
      Ok (MkSubject (u "prod") (u "agent") (u "agent.task.completed") (Some (u "mira"))).
Proof.
  apply (fields_roundtrip (u "prod") (u "agent")
    [u "agent.task.assigned"; u "agent.task.accepted"; u "agent.task.completed"]
    (u "agent.task.completed") (Some (u "mira"))).
  - apply (bool_decide_unpack _); by vm_compute.
  - by vm_compute.
  - apply (bool_decide_unpack _); by vm_compute.
  - split; [by vm_compute|]. split; [apply (bool_decide_unpack _); by vm_compute|].
    split; [by vm_compute|]. exists 4%nat. split; [by vm_compute|]. apply (bool_decide_unpack _); by vm_compute.
Defined.

Lemma pattern_stays_in_domain_witness :
  token (split_on 46 (u "wakir.prod.aip.>")) 1 = u "prod" ∧
  token (split_on 46 (u "wakir.prod.aip.>")) 2 = u "aip".
Proof.
  apply (pattern_stays_in_domain (u "wakir.prod.aip.>") subject1
    (MkSubject (u "prod") (u "aip") (u "aip.document.published") (Some (u "reza"))));
    [left|..]; by vm_compute.
Defined.

(** Parts of an event type that is not reserved are not told apart. *)
Example merged_parts :
  (s ← build_subject (u "dev") (u "comms") (u "comms.mail.sent") (Some (u "mira"));
   parse_subject s) =
  Ok (MkSubject (u "dev") (u "comms") (u "comms.mail.sent.mira") None).
Proof. vm_compute. done. Qed.

(** The filter the specification names as ambiguous passes: it has four tokens,
    and the check of the event type starts at five. *)
Example ambiguous_filter_passes : validate_consumer_filter (u "wakir.prod.cap.*") = Ok ().
Proof. vm_compute. done. Qed.

(** A final line feed is accepted, in a subject and in a host slug. *)
Example line_feed_accepted :
  parse_subject (subject1 ++ [10]) =
    Ok (MkSubject (u "prod") (u "aip") (u "aip.document.published") (Some (u "reza" ++ [10]))) ∧
  federation_host_slug (u "Example.com" ++ [10]) = Ok (u "example-com" ++ [10]).
Proof. vm_compute. done. Qed.

(** The Kelvin sign is read as a k. *)
Example kelvin_slug : federation_host_slug (0x212A :: u ".de") = Ok (u "k-de").
Proof. vm_compute. done. Qed.
End SubjectExample.
