(* ===== verification/SchemaKv.v ===== *)
(** * The schema registry on a bucket
      ([wirelang/schemas/registry_nats_kv_backend.py])

    A JSON Schema document is one entry of a key-value bucket, under a key made
    of its layer, name and version, with the digest of the document.  A write
    checks that the identifier and the digest are those of the document; a
    reader checks the shape of an entry only, so that an entry as it is read has
    any JSON values in its fields.

    The theorems: keys and envelopes read back; whatever is written through the
    backend leaves a bucket of verified entries; equal digests are of equal
    documents; no acknowledged update of a read-modify-write is lost; a consumer
    that starts from a snapshot and applies the updates has the registry of the
    bucket. *)

From S2P Require Import Prelude PyStr Sha256 PyJson PyJsonLoads PyDyn PyEqual PyTime PyIso Jcs Ledger MarkerKv PolicyKv.
From Stdlib Require Import ZArith Lia.

Open Scope Z_scope.

Inductive schema_kv_error : Type :=
| TripleValueError                     (* ValueError: a malformed triple or key *)
| SchemaRegistryEnvelopeError
| SchemaRegistryValidationError
| SchemaRegistryConflictError (key : str) (expected_revision : Z)
| SchemaRevisionError                  (* ValueError: a negative revision *)
| SchemaTimeError                      (* ValueError: a time that is naive or no time *)
| SchemaOverflowError                  (* OverflowError of astimezone() *)
| SchemaUnicodeError                   (* UnicodeEncodeError *)
| SchemaTypeError                      (* TypeError: an answer that is no decision *)
| SchemaClientError.                   (* an exception of the client *)

#[export] Instance schema_kv_error_eq_dec : EqDecision schema_kv_error.
Proof. solve_decision. Defined.

Record SchemaRegistryEntry := MkSchema {
  layer : json;
  name : json;
  version : json;
  schema_id : json;
  schema_body : dict;
  body_sha256 : json;                  (* [schema_body_sha256] *)
  schema_registered_at : datetime;
  schema_registered_by : json;
  supersedes : json;
}.

Inductive WatchOp : Type := PUT | DELETE | PURGE.

Record WatchEvent := MkWatch {
  op : WatchOp;
  event_key : str;
  entry : option SchemaRegistryEntry;
  revision : Z;
}.

Module SchemaKv.
Import PolicyKv.PolicyKv(text_of, get_field).

Definition BUCKET_NAME : str := u "wakir-schemas".
Definition VALUE_SCHEMA : str := u "wakir.wirelang.schema-registry-entry/1".
Definition RECOGNISED_LAYERS : list str := [u "identity"; u "wire"; u "federation"].
Definition _KEY_PREFIX : str := u "schemas/".

(** ** Keys *)

Definition component (j : json) : result schema_kv_error str :=
  s ← of_option TripleValueError (text_of j);
  raise_if (str_empty s) TripleValueError;;
  raise_if (bool_decide (47 ∈ s)) TripleValueError;;
  Ok s.

Definition triple_key (l n v : str) : str := _KEY_PREFIX ++ l ++ u "/" ++ n ++ u "/" ++ v.

Definition key_for_triple (l n v : json) : result schema_kv_error str :=
  l ← component l;
  n ← component n;
  v ← component v;
  raise_if (negb (bool_decide (l ∈ RECOGNISED_LAYERS))) TripleValueError;;
  Ok (triple_key l n v).

Definition triple_for_key (key : str) : result schema_kv_error (str * str * str) :=
  raise_if (negb (startswith key _KEY_PREFIX)) TripleValueError;;
  match split_on 47 (drop (length _KEY_PREFIX) key) with
  | [l; n; v] =>
      raise_if (str_empty l || str_empty n || str_empty v) TripleValueError;;
      Ok (l, n, v)
  | _ => Err TripleValueError
  end.

Definition entry_key (e : SchemaRegistryEntry) : result schema_kv_error str :=
  key_for_triple (layer e) (name e) (version e).

(** ** Digests *)

(** There is no module [wirelang.canonical.jcs]: its import raises, and the
    document is serialised with sorted keys. *)
Definition _jcs_canonicalise (obj : json) : result schema_kv_error bytes :=
  of_option SchemaUnicodeError (utf8_encode (json_dumps false true obj)).

Definition schema_body_sha256 `{Sha256} (body : dict) : result schema_kv_error str :=
  b ← _jcs_canonicalise (JObj body); Ok (hex (sha256 b)).

(** ** Envelopes *)

Definition time_error (e : policy_kv_error) : schema_kv_error :=
  match e with TimeValueError => SchemaTimeError | _ => SchemaOverflowError end.

Section times.
Context `{LocalZone}.

Definition _dt_to_rfc3339 (d : datetime) : result schema_kv_error str :=
  map_err time_error (PolicyKv.PolicyKv._dt_to_rfc3339 d).
Definition _rfc3339_to_dt (value : json) : result schema_kv_error datetime :=
  map_err time_error (PolicyKv.PolicyKv._rfc3339_to_dt value).

Definition envelope_members (e : SchemaRegistryEntry) (at_text : str) : dict :=
  [(u "schema", JStr VALUE_SCHEMA);
   (u "layer", layer e);
   (u "name", name e);
   (u "version", version e);
   (u "schema_id", schema_id e);
   (u "schema_body", JObj (schema_body e));
   (u "schema_body_sha256", body_sha256 e);
   (u "registered_at", JStr at_text);
   (u "registered_by", schema_registered_by e);
   (u "supersedes", supersedes e)].

Definition _entry_to_envelope (e : SchemaRegistryEntry) : result schema_kv_error bytes :=
  at_text ← _dt_to_rfc3339 (schema_registered_at e);
  of_option SchemaUnicodeError (utf8_encode (json_dumps false true (JObj (envelope_members e at_text)))).

Definition bad {A} (o : option A) : result schema_kv_error A := of_option SchemaRegistryEnvelopeError o.

(** [except ValueError]: an OverflowError passes. *)
Definition caught {A} (x : result schema_kv_error A) : result schema_kv_error A :=
  map_err (λ e, match e with SchemaTimeError => SchemaRegistryEnvelopeError | _ => e end) x.

Definition dict_of (j : json) : option dict := match j with JObj d => Some d | _ => None end.

Definition _envelope_to_entry (blob : bytes) : result schema_kv_error SchemaRegistryEntry :=
  text ← bad (utf8_decode blob);
  payload ← bad (json_loads text);
  d ← bad (dict_of payload);
  raise_if (negb (py_eq (get_field d (u "schema")) (JStr VALUE_SCHEMA))) SchemaRegistryEnvelopeError;;
  l ← bad (dict_get d (u "layer"));
  n ← bad (dict_get d (u "name"));
  v ← bad (dict_get d (u "version"));
  sid ← bad (dict_get d (u "schema_id"));
  body ← bad (dict_get d (u "schema_body"));
  sha ← bad (dict_get d (u "schema_body_sha256"));
  registered ← bad (dict_get d (u "registered_at"));
  by_ ← bad (dict_get d (u "registered_by"));
  body ← bad (dict_of body);
  registered ← caught (_rfc3339_to_dt registered);
  Ok (MkSchema l n v sid body sha registered by_ (get_field d (u "supersedes"))).

Definition _coerce_value_bytes (kve : kv_entry) : result schema_kv_error bytes :=
  match kve with
  | KvRaw b => Ok b
  | KvObj None _ => Err SchemaRegistryEnvelopeError
  | KvObj (Some (VBytes b)) _ => Ok b
  | KvObj (Some (VStr s)) _ => of_option SchemaUnicodeError (utf8_encode s)
  end.

Definition _coerce_revision_from_entry (kve : kv_entry) : Z :=
  match kve with KvObj _ (Some r) => r | _ => 0 end.

(** ** The backend *)

(** The gates of a write, which end with the key. *)
Definition gates `{Sha256} (e : SchemaRegistryEntry) : result schema_kv_error str :=
  raise_if (negb (py_eq (get_field (schema_body e) (u "$id")) (schema_id e))) SchemaRegistryValidationError;;
  recomputed ← schema_body_sha256 (schema_body e);
  raise_if (negb (py_eq (JStr recomputed) (body_sha256 e))) SchemaRegistryValidationError;;
  entry_key e.

Section backend.
Context `{Sha256} {S : Type} `{KvBucket S} `{KvKeys S} `{KvPuts S}.

Definition get_with_revision (s : S) (key : str)
    : result schema_kv_error (option (SchemaRegistryEntry * Z)) :=
  if str_empty key then Ok None
  else match kv_get s key with
       | None => Ok None
       | Some kve =>
           blob ← _coerce_value_bytes kve;
           e ← _envelope_to_entry blob;
           Ok (Some (e, _coerce_revision_from_entry kve))
       end.

Definition get (s : S) (key : str) : result schema_kv_error (option SchemaRegistryEntry) :=
  if str_empty key then Ok None
  else match kv_get s key with
       | None => Ok None
       | Some kve =>
           blob ← _coerce_value_bytes kve;
           e ← _envelope_to_entry blob;
           Ok (Some e)
       end.

Definition get_by_triple (s : S) (l n v : json) : result schema_kv_error (option SchemaRegistryEntry) :=
  match key_for_triple l n v with
  | Ok key => get s key
  | Err _ => Ok None
  end.

(** Everything of a write up to the call of the client. *)
Definition write_plan (e : SchemaRegistryEntry) : result schema_kv_error (str * bytes) :=
  key ← gates e;
  blob ← _entry_to_envelope e;
  Ok (key, blob).

Definition put (s : S) (e : SchemaRegistryEntry) : S * result schema_kv_error Z :=
  match write_plan e with
  | Err err => (s, Err err)
  | Ok (key, blob) => let '(s', rev) := kv_put s key blob in (s', Ok rev)
  end.

Definition _kv_update_with_revision (s : S) (key : str) (blob : bytes) (expected : Z)
    : S * result schema_kv_error Z :=
  match kv_update s key blob expected with
  | Some (s', rev) => (s', Ok rev)
  | None => (s, Err (SchemaRegistryConflictError key expected))
  end.

Definition put_with_revision (s : S) (e : SchemaRegistryEntry) (expected : Z)
    : S * result schema_kv_error Z :=
  if expected <? 0 then (s, Err SchemaRevisionError)
  else match write_plan e with
       | Err err => (s, Err err)
       | Ok (key, blob) => _kv_update_with_revision s key blob expected
       end.

Definition delete (s : S) (key : str) : S * result schema_kv_error () :=
  if str_empty key then (s, Err TripleValueError)
  else match kv_get s key with
       | None => (s, Ok ())
       | Some _ => (kv_delete s key, Ok ())
       end.

Definition list_keys (s : S) : result schema_kv_error (list str) := of_option SchemaClientError (kv_keys s).
End backend.

(** ** Registries *)

Definition InMemorySchemaRegistry : Type := gmap str SchemaRegistryEntry.

Definition add (reg : InMemorySchemaRegistry) (e : SchemaRegistryEntry)
    : result schema_kv_error InMemorySchemaRegistry :=
  key ← entry_key e; Ok (<[key := e]> reg).

Definition lookup (reg : InMemorySchemaRegistry) (key : str) : option SchemaRegistryEntry := reg !! key.

Definition lookup_by_triple (reg : InMemorySchemaRegistry) (l n v : json) : option SchemaRegistryEntry :=
  match key_for_triple l n v with Ok key => reg !! key | Err _ => None end.

Definition keys_sorted (reg : InMemorySchemaRegistry) : list str := py_sorted str_leb (map_to_list reg).*1.

Fixpoint add_all (reg : InMemorySchemaRegistry) (es : list SchemaRegistryEntry)
    : result schema_kv_error InMemorySchemaRegistry :=
  match es with
  | [] => Ok reg
  | e :: es => reg' ← add reg e; add_all reg' es
  end.

(** The keys as listed and the entries as they were fetched. *)
Fixpoint snapshot_from (reg : InMemorySchemaRegistry) (keys : list str)
    (fetch : str → result schema_kv_error (option SchemaRegistryEntry))
    : result schema_kv_error InMemorySchemaRegistry :=
  match keys with
  | [] => Ok reg
  | key :: keys =>
      e ← fetch key;
      reg' ← match e with Some e => add reg e | None => Ok reg end;
      snapshot_from reg' keys fetch
  end.

Definition snapshot (keys : option (list str))
    (fetch : str → result schema_kv_error (option SchemaRegistryEntry))
    : result schema_kv_error InMemorySchemaRegistry :=
  keys ← of_option SchemaClientError keys;
  snapshot_from ∅ keys fetch.

(** ** The watch stream *)

Definition op_value (o : WatchOp) : str :=
  match o with PUT => u "PUT" | DELETE => u "DELETE" | PURGE => u "PURGE" end.

(** [upper()], as far as the comparison can tell. *)
Definition op_of_name (name : str) : option WatchOp :=
  let name := (λ c, if is_lower c then c - 32 else c) <$> name in
  List.find (λ o, str_eqb name (op_value o)) [PUT; DELETE; PURGE].

Definition _decode_watch_update (update : MarkerKv.MarkerKv.kv_update_msg) : result schema_kv_error WatchEvent :=
  name ← bad (MarkerKv.MarkerKv.upd_operation update);
  o ← bad (op_of_name name);
  k ← bad (MarkerKv.MarkerKv.upd_key update ≫= text_of);
  raise_if (str_empty k) SchemaRegistryEnvelopeError;;
  let rev := default 0 (MarkerKv.MarkerKv.upd_revision update) in
  match o with
  | PUT =>
      blob ← _coerce_value_bytes (MarkerKv.MarkerKv.upd_entry update);
      e ← _envelope_to_entry blob;
      Ok (MkWatch o k (Some e) rev)
  | _ => Ok (MkWatch o k None rev)
  end.

(** One [__anext__] on the updates to come: the event, or the error, and the
    updates left.  A missing update is skipped by an iterator and ends a
    watcher with [updates()]. *)
Fixpoint anext (iterator : bool) (updates : list (option MarkerKv.MarkerKv.kv_update_msg))
    : option (result schema_kv_error WatchEvent * list (option MarkerKv.MarkerKv.kv_update_msg)) :=
  match updates with
  | [] => None
  | None :: rest => if iterator then anext iterator rest else None
  | Some upd :: rest => Some (_decode_watch_update upd, rest)
  end.
End times.

(** ** The live snapshot *)

Record LiveSchemaSnapshot := MkLive {
  last_revision : Z;
  _live : InMemorySchemaRegistry;
}.

(** [add] of every entry of a registry into an empty one.  The registries of the
    module hold their entries under their own keys, so that the order of the
    additions does not matter. *)
Definition readd (reg : InMemorySchemaRegistry) : result schema_kv_error InMemorySchemaRegistry :=
  add_all ∅ (map_to_list reg).*2.

Definition new_live (initial : InMemorySchemaRegistry) (last : Z) : result schema_kv_error LiveSchemaSnapshot :=
  m ← readd initial; Ok (MkLive last m).

(** The entry goes under its own key, a removal takes the key of the event. *)
Definition apply (l : LiveSchemaSnapshot) (e : WatchEvent) : result schema_kv_error LiveSchemaSnapshot :=
  m ← match op e with
      | PUT => match entry e with
               | Some x => add (_live l) x
               | None => Err SchemaRegistryEnvelopeError
               end
      | _ => Ok (base.delete (event_key e) (_live l))
      end;
  Ok (MkLive (if last_revision l <? revision e then revision e else last_revision l) m).

Definition as_registry (l : LiveSchemaSnapshot) : result schema_kv_error InMemorySchemaRegistry := readd (_live l).

Definition from_backend (keys : option (list str))
    (fetch : str → result schema_kv_error (option SchemaRegistryEntry)) : result schema_kv_error LiveSchemaSnapshot :=
  initial ← snapshot keys fetch; new_live initial 0.
End SchemaKv.

Import SchemaKv.

(** ** Keys *)

Section keys.

Definition part (s : str) : Prop := str_empty s = false ∧ 47 ∉ s.

Lemma schema_component_ok j s : component j = Ok s ↔ j = JStr s ∧ part s.
Proof.
  unfold component, part. split.
  - intros Hc. run_ok. destruct j; try done. cbn in H. simplify_eq. by rewrite <- (bool_decide_eq_false (47 ∈ s)).
  - intros (-> & He & Hs). cbn. by rewrite He, bool_decide_false.
Qed.

Lemma key_for_triple_ok l n v k :
  key_for_triple l n v = Ok k ↔
  ∃ l' n' v', l = JStr l' ∧ n = JStr n' ∧ v = JStr v' ∧ part l' ∧ part n' ∧ part v' ∧
    l' ∈ RECOGNISED_LAYERS ∧ k = triple_key l' n' v'.
Proof.
  unfold key_for_triple. split.
  - intros Hk. apply bind_ok_iff in Hk as (l' & [-> ?]%schema_component_ok & Hk).
    apply bind_ok_iff in Hk as (n' & [-> ?]%schema_component_ok & Hk).
    apply bind_ok_iff in Hk as (v' & [-> ?]%schema_component_ok & Hk). run_ok. propify.
    exists l', n', v'. by split_and!.
  - intros (l' & n' & v' & -> & -> & -> & Hl & Hn & Hv & Hr & ->).
    rewrite (proj2 (schema_component_ok _ l') (conj eq_refl Hl)), bind_Ok, (proj2 (schema_component_ok _ n') (conj eq_refl Hn)),
      bind_Ok, (proj2 (schema_component_ok _ v') (conj eq_refl Hv)), bind_Ok.
    by rewrite bool_decide_true by done.
Qed.

Lemma triple_for_key_of l n v : part l → part n → part v → triple_for_key (triple_key l n v) = Ok (l, n, v).
Proof.
  intros [Hl Sl] [Hn Sn] [Hv Sv]. unfold triple_for_key, triple_key.
  rewrite startswith_app. cbn [negb]. rewrite raise_if_false, bind_Ok.
  rewrite drop_app_length. change (u "/") with [47]. cbn [app].
  rewrite split_on_app, split_on_app, split_on_nil by done. by rewrite Hl, Hn, Hv.
Qed.

(** A key is read as the triple it was made from, so different triples have
    different keys. *)
Theorem triple_of_key l n v k :
  key_for_triple l n v = Ok k →
  ∃ l' n' v', triple_for_key k = Ok (l', n', v') ∧ l = JStr l' ∧ n = JStr n' ∧ v = JStr v'.
Proof.
  intros (l' & n' & v' & -> & -> & -> & Hl & Hn & Hv & _ & ->)%key_for_triple_ok.
  exists l', n', v'. by rewrite triple_for_key_of.
Qed.

Lemma key_nonempty l n v k : key_for_triple l n v = Ok k → str_empty k = false.
Proof. by intros (l' & n' & v' & _ & _ & _ & _ & _ & _ & _ & ->)%key_for_triple_ok. Qed.

Lemma component_sort j : component (json_sort j) = component j.
Proof. by destruct j. Qed.
End keys.

(** ** Envelopes read back *)

(** An entry as it is read: the members of every object in the order of their
    names. *)
Definition read_as (e : SchemaRegistryEntry) : SchemaRegistryEntry :=
  MkSchema (json_sort (layer e)) (json_sort (name e)) (json_sort (version e)) (json_sort (schema_id e))
    (PolicyKv.PolicyKv.written (schema_body e)) (json_sort (body_sha256 e)) (schema_registered_at e)
    (json_sort (schema_registered_by e)) (json_sort (supersedes e)).

(** Fields without floats, objects with distinct names. *)
Record entry_plain (e : SchemaRegistryEntry) : Prop := {
  plain_triple : json_plain (layer e) ∧ json_plain (name e) ∧ json_plain (version e);
  plain_id : json_plain (schema_id e) ∧ json_plain (body_sha256 e);
  plain_body : json_plain (JObj (schema_body e));
  plain_rest : json_plain (schema_registered_by e) ∧ json_plain (supersedes e);
}.

Section envelopes.
Context `{LocalZone}.

Lemma schema_time_reads d t :
  _dt_to_rfc3339 d = Ok t → okstr t ∧ _rfc3339_to_dt (JStr t) = Ok d.
Proof.
  unfold _dt_to_rfc3339, _rfc3339_to_dt. intros Ht%map_err_ok.
  assert (PolicyKv.PolicyKv.stamp_ok d) as (t' & Et & Hok & Er)%PolicyKv.PolicyKv.stamp_reads.
  { unfold PolicyKv.PolicyKv._dt_to_rfc3339, PolicyKv.PolicyKv.to_utc in Ht. destruct d as [us|us]; [|discriminate Ht].
    exists us. split; [done|]. apply in_calendar_iff. destruct (in_calendar us) eqn:Ec; [done|].
    cbn [is_naive raise_if mbind result_bind] in Ht. rewrite Ec in Ht. discriminate Ht. }
  rewrite Et in Ht. apply Ok_inj in Ht as <-. by rewrite Er.
Qed.

Lemma members_names e t : NoDup (envelope_members e t).*1.
Proof. apply (bool_decide_unpack _). by vm_compute. Qed.

Lemma members_plain e t : entry_plain e → json_plain (JObj (envelope_members e t)).
Proof.
  intros [(? & ? & ?) (? & ?) ? (? & ?)]. apply json_plain_obj. split; [apply members_names|].
  unfold envelope_members. repeat (apply List.Forall_cons; [done|]). constructor.
Qed.

Lemma envelope_wf e b :
  entry_plain e → _entry_to_envelope e = Ok b →
  ∃ t, _dt_to_rfc3339 (schema_registered_at e) = Ok t ∧ json_wf (JObj (envelope_members e t)) ∧
    utf8_encode (json_dumps false true (JObj (envelope_members e t))) = Some b.
Proof.
  intros He Hb. unfold _entry_to_envelope in Hb. apply bind_ok_iff in Hb as (t & Ht & Hb%of_option_ok).
  exists t. split_and!; [done| |done]. eapply json_plain_encodable; [by apply members_plain|done].
Qed.

(** Members that a reader does not ask for change nothing. *)
Lemma extra_members e t extra b :
  _rfc3339_to_dt (JStr t) = Ok (schema_registered_at e) → json_wf (JObj (envelope_members e t ++ extra)) →
  utf8_encode (json_dumps false true (JObj (envelope_members e t ++ extra))) = Some b →
  _envelope_to_entry b = Ok (read_as e).
Proof.
  intros Er Hwf Eb. set (d := envelope_members e t ++ extra) in *.
  unfold _envelope_to_entry. rewrite (utf8_decode_encode _ _ Eb). cbn [bad of_option]. rewrite bind_Ok.
  rewrite json_loads_dumps by done. cbn [bad of_option]. rewrite bind_Ok.
  change (json_sort (JObj ?d)) with (JObj (PolicyKv.PolicyKv.written d)). cbn [dict_of bad of_option]. rewrite bind_Ok.
  assert (∀ k v, dict_get d k = Some v → dict_get (PolicyKv.PolicyKv.written d) k = Some (json_sort v)) as Hget.
  { intros k v Hv. unfold PolicyKv.PolicyKv.written. apply json_wf_obj in Hwf as [Hnd _].
    rewrite dict_get_sorted by done. by rewrite Hv. }
  unfold PolicyKv.PolicyKv.get_field.
  rewrite (Hget (u "schema") _ eq_refl), (Hget (u "layer") _ eq_refl), (Hget (u "name") _ eq_refl),
    (Hget (u "version") _ eq_refl), (Hget (u "schema_id") _ eq_refl), (Hget (u "schema_body") _ eq_refl),
    (Hget (u "schema_body_sha256") _ eq_refl), (Hget (u "registered_at") _ eq_refl),
    (Hget (u "registered_by") _ eq_refl), (Hget (u "supersedes") _ eq_refl).
  cbn [default id json_sort]. rewrite (proj2 (py_eq_str VALUE_SCHEMA _) eq_refl). cbn [negb bad of_option].
  rewrite raise_if_false, !bind_Ok. cbn [dict_of bad of_option]. rewrite bind_Ok, Er. done.
Qed.

(** A stored entry is read as the entry that was written. *)
Theorem schema_roundtrip e b :
  entry_plain e → _entry_to_envelope e = Ok b → _envelope_to_entry b = Ok (read_as e).
Proof.
  intros He Hb. destruct (envelope_wf e b He Hb) as (t & Et & Hwf & Eb).
  destruct (schema_time_reads _ _ Et) as [_ Er]. by apply (extra_members e t [] b); rewrite ?app_nil_r.
Qed.
End envelopes.

(** ** Verified entries *)

Section verified.
Context `{Sha256}.

(** What the gates establish: the entry belongs under [k], and its identifier and
    its digest are those of its document. *)
Record verified (k : str) (e : SchemaRegistryEntry) : Prop := {
  ver_key : entry_key e = Ok k;
  ver_id : py_eq (PolicyKv.PolicyKv.get_field (schema_body e) (u "$id")) (schema_id e) = true;
  ver_digest : ∃ d, schema_body_sha256 (schema_body e) = Ok d ∧ body_sha256 e = JStr d;
}.

Lemma gates_ok e k : gates e = Ok k ↔ verified k e.
Proof.
  unfold gates. split.
  - intros Hg. apply bind_ok_iff in Hg as ([] & Hid%raise_if_ok%negb_false_iff & Hg).
    apply bind_ok_iff in Hg as (d & Hd & Hg). apply bind_ok_iff in Hg as ([] & Hs%raise_if_ok%negb_false_iff & Hk).
    apply py_eq_str in Hs. split; eauto.
  - intros [Hk Hid (d & Hd & Hs)]. rewrite Hid. cbn [negb]. rewrite raise_if_false, bind_Ok, Hd, bind_Ok.
    by rewrite (proj2 (py_eq_str d _) Hs), raise_if_false, bind_Ok.
Qed.

Lemma verified_nonempty k e : verified k e → str_empty k = false.
Proof. intros [Hk _ _]. by eapply key_nonempty. Qed.

(** Verified entries with one digest have one document, up to the order of
    members, or the texts of the two documents collide. *)
Theorem digest_binds k1 k2 e1 e2 :
  verified k1 e1 → verified k2 e2 → float_free (JObj (schema_body e1)) → float_free (JObj (schema_body e2)) →
  body_sha256 e1 = body_sha256 e2 →
  json_sort (JObj (schema_body e1)) = json_sort (JObj (schema_body e2)) ∨
  collision_in sha256 (ok_list (_jcs_canonicalise (JObj (schema_body e1))) ++
    ok_list (_jcs_canonicalise (JObj (schema_body e2)))).
Proof.
  intros [_ _ (d1 & D1 & S1)] [_ _ (d2 & D2 & S2)] F1 F2 E. rewrite S1, S2 in E. injection E as ->.
  apply bind_ok_iff in D1 as (b1 & B1 & D1), D2 as (b2 & B2 & D2). rewrite B1, B2.
  apply Ok_inj in D1, D2. rewrite <- D2 in D1. apply hex_inj in D1.
  destruct (eq_or_pair_collision sha256 _ _ D1) as [->|?]; [left|by right].
  apply of_option_ok in B1, B2. by eapply dumps_bytes_inj.
Qed.
End verified.

(** Reading an entry back changes neither what is verified nor what is stored. *)
Section reread.
Context `{LocalZone}.

Lemma plain_read e : entry_plain e → entry_plain (read_as e).
Proof.
  intros [(? & ? & ?) (? & ?) ? (? & ?)].
  split; cbn [read_as layer name version schema_id body_sha256 schema_registered_by supersedes schema_body];
    split_and?; try by apply json_plain_sort.
  by apply (json_plain_sort (JObj (schema_body e))).
Qed.

Lemma members_read e t :
  json_sort (JObj (envelope_members (read_as e) t)) = json_sort (JObj (envelope_members e t)).
Proof.
  cbn [json_sort envelope_members List.map fst snd read_as layer name version schema_id body_sha256
    schema_registered_by supersedes schema_body].
  rewrite !json_sort_idem. pose proof (json_sort_idem (JObj (schema_body e))) as E. cbn [json_sort] in E.
  unfold PolicyKv.PolicyKv.written. by rewrite E.
Qed.

Lemma envelope_read e : _entry_to_envelope (read_as e) = _entry_to_envelope e.
Proof.
  unfold _entry_to_envelope, json_dumps. cbn [schema_registered_at read_as].
  destruct (_dt_to_rfc3339 (schema_registered_at e)) as [t|]; [|done]. by rewrite !bind_Ok, members_read.
Qed.

Lemma read_twice e : read_as (read_as e) = read_as e.
Proof.
  unfold read_as. cbn [layer name version schema_id body_sha256 schema_registered_by supersedes schema_body
    schema_registered_at]. rewrite !json_sort_idem. f_equal.
  pose proof (json_sort_idem (JObj (schema_body e))) as E. cbn [json_sort] in E. by injection E.
Qed.

Lemma body_digest_read `{Sha256} e : schema_body_sha256 (schema_body (read_as e)) = schema_body_sha256 (schema_body e).
Proof.
  unfold schema_body_sha256, _jcs_canonicalise, json_dumps. cbn [schema_body read_as].
  change (JObj (PolicyKv.PolicyKv.written (schema_body e))) with (json_sort (JObj (schema_body e))).
  by rewrite json_sort_idem.
Qed.

Lemma field_wf d k : json_wf (JObj d) → json_wf (PolicyKv.PolicyKv.get_field d k).
Proof.
  intros [_ Hd]%json_wf_obj. unfold PolicyKv.PolicyKv.get_field. destruct (dict_get d k) as [v|] eqn:E; [|done].
  rewrite Forall_forall in Hd. by apply dict_get_Some_elem, Hd in E as [_ ?].
Qed.

Lemma fields_wf e b :
  entry_plain e → _entry_to_envelope e = Ok b → json_wf (JObj (schema_body e)) ∧ json_wf (schema_id e).
Proof.
  intros He Hb. destruct (envelope_wf e b He Hb) as (t & _ & [_ Hwf]%json_wf_obj & _).
  rewrite Forall_forall in Hwf. split.
  - apply (Hwf (u "schema_body", JObj (schema_body e))). unfold envelope_members. do 5 right. left.
  - apply (Hwf (u "schema_id", schema_id e)). unfold envelope_members. do 4 right. left.
Qed.

Lemma verified_read `{Sha256} k e b :
  entry_plain e → _entry_to_envelope e = Ok b → verified k e → verified k (read_as e).
Proof.
  intros He Hb [Hk Hid (d & Hd & Hs)]. destruct (fields_wf e b He Hb) as [Wb Wi]. split.
  - unfold entry_key, key_for_triple in *. cbn [layer name version read_as]. by rewrite !component_sort.
  - cbn [schema_body schema_id read_as]. pose proof (field_wf _ (u "$id") Wb) as Wf.
    apply json_wf_obj in Wb as [Hnd _]. rewrite PolicyKv.PolicyKv.written_get_field by done.
    apply py_eq_norm; [by apply json_sort_wf..|]. rewrite !py_norm_sort by done. by apply py_eq_norm.
  - exists d. rewrite body_digest_read. cbn [body_sha256 read_as]. by rewrite Hs.
Qed.
End reread.

(** ** Writes on the bucket *)

Section writes.
Context `{LocalZone, Sha256} {S : Type} `{KvLaws S} `{!KvPuts S} `{!KvPutLaws S}.

Definition unpinned (x : result schema_kv_error (option (SchemaRegistryEntry * Z)))
    : result schema_kv_error (option SchemaRegistryEntry) :=
  match x with Ok o => Ok (option_map fst o) | Err e => Err e end.

Lemma get_revision s k : get s k = unpinned (get_with_revision s k).
Proof.
  unfold get, get_with_revision. destruct (str_empty k); [done|]. destruct (kv_get s k) as [kve|]; [|done].
  destruct (_coerce_value_bytes kve) as [b|]; [|done]. rewrite !bind_Ok. by destruct (_envelope_to_entry b).
Qed.

Lemma revision_ext s s' k : kv_get s k = kv_get s' k → get_with_revision s k = get_with_revision s' k.
Proof. unfold get_with_revision. by intros ->. Qed.

Lemma get_absent s k : kv_get s k = None → get s k = Ok None.
Proof. unfold get. intros ->. by destruct (str_empty k). Qed.

Lemma schema_write_plan_ok e k b :
  write_plan e = Ok (k, b) ↔ verified k e ∧ _entry_to_envelope e = Ok b.
Proof.
  unfold write_plan. rewrite <- gates_ok. split.
  - intros Hp. apply bind_ok_iff in Hp as (k' & Hk & Hp). apply bind_ok_iff in Hp as (b' & Hb & [= -> ->]). done.
  - intros [-> Hb]. by rewrite bind_Ok, Hb.
Qed.

(** An entry that a call can write under [k]. *)
Definition writable (k : str) (e : SchemaRegistryEntry) : Prop :=
  entry_plain e ∧ ∃ b, write_plan e = Ok (k, b).

Lemma writable_verified k e : writable k e → verified k e.
Proof. intros [_ [b [Hv _]%schema_write_plan_ok]]. done. Qed.

Lemma writable_read k e : writable k e → writable k (read_as e).
Proof.
  intros [He [b [Hv Hb]%schema_write_plan_ok]]. split; [by apply plain_read|]. exists b. apply schema_write_plan_ok.
  split; [by eapply verified_read|by rewrite envelope_read].
Qed.

(** The bucket with the envelope of [e] under [k]. *)
Definition stored_in (s : S) (k : str) (e : SchemaRegistryEntry) (rev : Z) (s' : S) : Prop :=
  ∀ k', get_with_revision s' k' = (if decide (k' = k) then Ok (Some (read_as e, rev)) else get_with_revision s k') ∧
        (k' ≠ k → kv_get s' k' = kv_get s k').

Lemma envelope_stored s k e b rev s' :
  entry_plain e → verified k e → _entry_to_envelope e = Ok b →
  (∀ k', kv_get s' k' = if decide (k' = k) then Some (KvObj (Some (VBytes b)) (Some rev)) else kv_get s k') →
  stored_in s k e rev s'.
Proof.
  intros He Hv Hb Hg k'. specialize (Hg k'). case_decide as Hk; [|split; [by apply revision_ext|done]].
  subst k'. split; [|done]. unfold get_with_revision. rewrite (verified_nonempty k e Hv), Hg.
  cbn [_coerce_value_bytes]. by rewrite bind_Ok, (schema_roundtrip e b He Hb), bind_Ok.
Qed.

Lemma schema_put_effect s e s' r :
  entry_plain e → put s e = (s', r) →
  (∃ err, r = Err err ∧ s' = s) ∨ (∃ k rev, r = Ok rev ∧ writable k e ∧ stored_in s k e rev s').
Proof.
  intros He Hp. unfold put in Hp. destruct (write_plan e) as [[k b]|err] eqn:E; [right|left; injection Hp; eauto].
  assert (writable k e) as Hw by (split; eauto). apply schema_write_plan_ok in E as [Hv Hb]. destruct (kv_put s k b) as [s1 n] eqn:Ep. injection Hp as <- <-.
  exists k, n. split_and!; [done..|]. eapply envelope_stored; [done..|]. intros k'. by eapply kv_put_get.
Qed.

Lemma schema_put_with_revision_effect s e expected s' r :
  entry_plain e → put_with_revision s e expected = (s', r) →
  (∃ err, r = Err err ∧ s' = s) ∨
  (∃ k rev, r = Ok rev ∧ writable k e ∧ stored_in s k e rev s' ∧
    (∀ x n, get_with_revision s k = Ok (Some (x, n)) → n = expected) ∧
    ∃ b, kv_update s k b expected = Some (s', rev)).
Proof.
  intros He Hp. unfold put_with_revision in Hp. destruct (expected <? 0); [left; injection Hp; eauto|].
  destruct (write_plan e) as [[k b]|err] eqn:E; [|left; injection Hp; eauto].
  assert (writable k e) as Hw by (split; eauto). apply schema_write_plan_ok in E as [Hv Hb]. unfold _kv_update_with_revision in Hp.
  destruct (kv_update s k b expected) as [[s1 n]|] eqn:Eu; [right|left; injection Hp; eauto].
  injection Hp as <- <-. exists k, n. split_and!; [done..| | |by exists b].
  - eapply envelope_stored; [done..|]. intros k'. by eapply kv_update_get.
  - intros x n0 Hx. unfold get_with_revision in Hx. rewrite (verified_nonempty k e Hv) in Hx.
    destruct (kv_get s k) as [kve|] eqn:Ek; [|done]. destruct (kv_get_shape _ _ _ Ek) as (v & r & ->).
    cbn [_coerce_value_bytes _coerce_revision_from_entry] in Hx. rewrite bind_Ok in Hx.
    destruct (_envelope_to_entry v); [|done]. injection Hx as _ ->. symmetry.
    apply (kv_update_at s k v n0 expected Ek b). by rewrite Eu.
Qed.

Lemma delete_effect s k s' r :
  delete s k = (s', r) →
  (∃ err, r = Err err ∧ s' = s) ∨
  (r = Ok () ∧ str_empty k = false ∧ ∀ k', kv_get s' k' = if decide (k' = k) then None else kv_get s k').
Proof.
  unfold delete. destruct (str_empty k) eqn:Ek; [intros [= <- <-]; left; eauto|].
  intros Hd. right. destruct (kv_get s k) eqn:E; injection Hd as <- <-; (split_and!; [done|done|]); intros k'.
  - apply kv_delete_get.
  - by case_decide; subst.
Qed.

(** *** Only verified entries *)

(** Every entry can be read, and could be written again under its key. *)
Definition sound (s : S) : Prop :=
  ∀ k, is_Some (kv_get s k) → ∃ e, get s k = Ok (Some e) ∧ writable k e.

Lemma stored_sound s k e rev s' : writable k e → stored_in s k e rev s' → sound s → sound s'.
Proof.
  intros He Hst Hs k' Hk'. destruct (Hst k') as [Hg Hfr]. rewrite get_revision, Hg. case_decide as Hk.
  - subst k'. exists (read_as e). split; [done|by apply writable_read].
  - rewrite <- get_revision. apply Hs. by rewrite <- Hfr.
Qed.

Inductive call : Type :=
| Put (e : SchemaRegistryEntry)
| PutPinned (e : SchemaRegistryEntry) (expected_revision : Z)
| Delete (k : str).

Definition perform (s : S) (c : call) : S :=
  match c with
  | Put e => (put s e).1
  | PutPinned e n => (put_with_revision s e n).1
  | Delete k => (delete s k).1
  end.

Definition call_plain (c : call) : Prop :=
  match c with Put e | PutPinned e _ => entry_plain e | Delete _ => True end.

Lemma perform_sound s c : call_plain c → sound s → sound (perform s c).
Proof.
  intros Hc Hs. destruct c as [e|e n|k]; cbn [perform].
  - destruct (put s e) as [s' r] eqn:E. destruct (schema_put_effect s e s' r Hc E) as [(err & _ & ->)|(k & rev & -> & Hv & Hst)]; [done|].
    eapply stored_sound; eauto.
  - destruct (put_with_revision s e n) as [s' r] eqn:E.
    destruct (schema_put_with_revision_effect s e n s' r Hc E) as [(err & _ & ->)|(k & rev & -> & Hv & Hst & _)]; [done|].
    eapply stored_sound; eauto.
  - destruct (delete s k) as [s' r] eqn:E. destruct (delete_effect s k s' r E) as [(err & _ & ->)|(_ & _ & Hg)]; [done|].
    intros k' Hk'. cbn [fst] in *. rewrite Hg in Hk'. specialize (Hg k'). case_decide; [by destruct Hk'|].
    rewrite get_revision, (revision_ext s' s k' Hg), <- get_revision. by apply Hs.
Qed.

(** Whatever is called on the backend, in whatever order by however many writers:
    every entry of the bucket is one that the gates pass under its key. *)
Theorem registry_verified s calls k :
  sound s → Forall call_plain calls → is_Some (kv_get (foldl perform s calls) k) →
  ∃ e, get (foldl perform s calls) k = Ok (Some e) ∧ gates e = Ok k.
Proof.
  intros Hs Hc. revert s Hs. induction Hc as [|c calls Hc _ IH]; intros s Hs Hk.
  - destruct (Hs k Hk) as (e & He & Hw). exists e. rewrite gates_ok. split; [done|by apply writable_verified].
  - cbn [foldl] in *. apply IH; [by apply perform_sound|done].
Qed.
End writes.

(** ** Read, change, write

    A caller reads an entry with its revision, changes it, and writes it back at
    that revision.  Between the two other callers may act. *)

Record editor := MkEditor {
  ed_key : str;
  ed_change : SchemaRegistryEntry → SchemaRegistryEntry;
  ed_seen : SchemaRegistryEntry;
  ed_revision : Z;
}.

(** The bucket, the callers that have read, and the acknowledged changes in order. *)
Record edit_sys (S : Type) := EditSys {
  ed_bucket : S;
  ed_editors : gmap nat editor;
  ed_log : list (str * (SchemaRegistryEntry → SchemaRegistryEntry));
}.
Arguments EditSys {S}.
Arguments ed_bucket {S}.
Arguments ed_editors {S}.
Arguments ed_log {S}.

Section editors.
Context `{LocalZone, Sha256} {S : Type} `{KvLaws S} `{!KvPuts S} `{!KvPutLaws S}.
Context {kv_top : S → Z} `{!KvRevisionLaws S kv_top}.

(** A change leaves the entry under its key. *)
Definition change_ok (k : str) (f : SchemaRegistryEntry → SchemaRegistryEntry) : Prop :=
  ∀ x, entry_plain x → entry_key x = Ok k → entry_plain (f x) ∧ entry_key (f x) = Ok k.

Inductive edit_step (σ : edit_sys S) : edit_sys S → Prop :=
| ed_read i k f x n :
    change_ok k f → get_with_revision (ed_bucket σ) k = Ok (Some (x, n)) → ed_editors σ !! i = None →
    edit_step σ (EditSys (ed_bucket σ) (<[i := MkEditor k f x n]> (ed_editors σ)) (ed_log σ))
| ed_write i c s' rev :
    ed_editors σ !! i = Some c →
    put_with_revision (ed_bucket σ) (ed_change c (ed_seen c)) (ed_revision c) = (s', Ok rev) →
    edit_step σ (EditSys s' (base.delete i (ed_editors σ)) (ed_log σ ++ [(ed_key c, ed_change c)]))
| ed_refused i c s' err :
    ed_editors σ !! i = Some c →
    put_with_revision (ed_bucket σ) (ed_change c (ed_seen c)) (ed_revision c) = (s', Err err) →
    edit_step σ (EditSys s' (base.delete i (ed_editors σ)) (ed_log σ)).

(** The changes of a key. *)
Definition changes (k : str) (log : list (str * (SchemaRegistryEntry → SchemaRegistryEntry))) :=
  (filter (λ p, p.1 = k) log).*2.

Definition applied (x : SchemaRegistryEntry) (fs : list (SchemaRegistryEntry → SchemaRegistryEntry))
    : SchemaRegistryEntry :=
  foldl (λ y f, read_as (f y)) x fs.

(** What a caller knows: what it saw is still there if the revision is. *)
Record editor_ok (s : S) (c : editor) : Prop := {
  eo_change : change_ok (ed_key c) (ed_change c);
  eo_seen : entry_plain (ed_seen c) ∧ entry_key (ed_seen c) = Ok (ed_key c);
  eo_top : ed_revision c ≤ kv_top s;
  eo_live : ∃ y n, get_with_revision s (ed_key c) = Ok (Some (y, n)) ∧ (n = ed_revision c → y = ed_seen c);
}.

Lemma revision_entry s k x n :
  get_with_revision s k = Ok (Some (x, n)) → is_Some (kv_get s k) ∧ n ≤ kv_top s ∧ get s k = Ok (Some x).
Proof.
  intros Hx. rewrite get_revision, Hx. unfold get_with_revision in Hx. destruct (str_empty k); [done|].
  destruct (kv_get s k) as [kve|] eqn:Ek; [|done]. destruct (kv_get_shape _ _ _ Ek) as (v & r & ->).
  cbn [_coerce_value_bytes _coerce_revision_from_entry] in Hx. rewrite bind_Ok in Hx.
  destruct (_envelope_to_entry v); [|done]. injection Hx as _ ->. split_and!; [done| |done]. by eapply kv_top_entry.
Qed.

Lemma sound_entry s k x n :
  sound s → get_with_revision s k = Ok (Some (x, n)) → entry_plain x ∧ entry_key x = Ok k.
Proof.
  intros Hs (Hk & _ & Hx)%revision_entry. destruct (Hs k Hk) as (e & He & Hw). rewrite Hx in He.
  injection He as <-. split; [apply Hw|by apply ver_key, writable_verified].
Qed.

(** An acknowledged write of a caller applies its change to the live entry. *)
Lemma editor_writes s c s' rev :
  sound s → editor_ok s c → put_with_revision s (ed_change c (ed_seen c)) (ed_revision c) = (s', Ok rev) →
  sound s' ∧ kv_top s < rev ≤ kv_top s' ∧ get_with_revision s (ed_key c) = Ok (Some (ed_seen c, ed_revision c)) ∧
  ∀ k, get_with_revision s' k = if decide (k = ed_key c) then Ok (Some (read_as (ed_change c (ed_seen c)), rev))
                                else get_with_revision s k.
Proof.
  intros Hs [Hf [Hp Hk] _ (y & n & Hy & Hn)] Hw. destruct (Hf _ Hp Hk) as [Hp' Hk'].
  destruct (schema_put_with_revision_effect _ _ _ _ _ Hp' Hw) as [(err & [=] & _)|(k & rev' & [= <-] & Hv & Hst & Hx & b & Hu)].
  rewrite (ver_key _ _ (writable_verified _ _ Hv)) in Hk'. apply Ok_inj in Hk' as ->. split_and!.
  - eapply stored_sound; eauto.
  - by eapply kv_top_update.
  - by eapply kv_top_update.
  - rewrite Hy. pose proof (Hx y n Hy) as ->. by rewrite Hn.
  - intros k. apply (proj1 (Hst k)).
Qed.

Lemma editor_ok_after s c d s' rev :
  sound s → editor_ok s c → editor_ok s d →
  put_with_revision s (ed_change c (ed_seen c)) (ed_revision c) = (s', Ok rev) → editor_ok s' d.
Proof.
  intros Hs Hc [Hf Hp Ht (y & n & Hy & Hn)] Hw. destruct (editor_writes s c s' rev Hs Hc Hw) as (_ & Hr & _ & Hg).
  split; [done..|lia|]. rewrite Hg. case_decide as Hk; [|by eauto]. eexists _, _. split; [done|]. lia.
Qed.

(** C28: No acknowledged change is lost: however callers interleave, the entry of a
    key is what the acknowledged changes make of the first one, each applied to
    the entry that the changes before it left. *)
Theorem no_update_lost σ σ' k x n :
  ed_editors σ = ∅ → ed_log σ = [] → sound (ed_bucket σ) → rtc edit_step σ σ' →
  get_with_revision (ed_bucket σ) k = Ok (Some (x, n)) →
  ∃ n', get_with_revision (ed_bucket σ') k = Ok (Some (applied x (changes k (ed_log σ')), n')).
Proof.
  intros Hed Hlog Hs Hrun Hx.
  enough (sound (ed_bucket σ') ∧ map_Forall (λ _, editor_ok (ed_bucket σ')) (ed_editors σ') ∧
    ∃ n', get_with_revision (ed_bucket σ') k = Ok (Some (applied x (changes k (ed_log σ')), n'))) as (_ & _ & ?)
    by done.
  eapply (rtc_invariant edit_step (λ σ, sound (ed_bucket σ) ∧
    map_Forall (λ _, editor_ok (ed_bucket σ)) (ed_editors σ) ∧
    ∃ n', get_with_revision (ed_bucket σ) k = Ok (Some (applied x (changes k (ed_log σ)), n')))); [|exact Hrun|].
  - intros a b Hst (Ha & Hall & n' & Hn').
    destruct Hst as [i k0 f y m Hf Hy Hi|i c s' rev Hi Hw|i c s' err Hi Hw]; cbn [ed_bucket ed_editors ed_log].
    + split_and!; [done| |by eauto]. apply map_Forall_insert_2; [|done].
      destruct (sound_entry _ _ _ _ Ha Hy) as [Hp Hk]. split; [done..| |]; cbn; [|by eauto].
      by apply (revision_entry _ _ _ _ Hy).
    + assert (editor_ok (ed_bucket a) c) as Hc by (by eapply Hall).
      destruct (editor_writes _ _ _ _ Ha Hc Hw) as (Hs' & _ & Hlive & Hg). split_and!; [done| |].
      * intros j d [_ Hd]%lookup_delete_Some. by apply (editor_ok_after (ed_bucket a) c d s' rev Ha Hc (Hall j d Hd)).
      * rewrite Hg. unfold changes. rewrite filter_app, filter_cons, filter_nil. cbn [fst].
        destruct (decide (k = ed_key c)) as [->|Hne].
        -- rewrite decide_True by done. rewrite fmap_app. unfold applied. rewrite foldl_app. cbn. exists rev.
           rewrite Hlive in Hn'. injection Hn' as -> _. done.
        -- rewrite decide_False by congruence. rewrite app_nil_r. by exists n'.
    + assert (s' = ed_bucket a) as ->.
      { destruct (Hall _ _ Hi) as [Hf [Hp Hk] _ _]. destruct (Hf _ Hp Hk) as [Hp' _].
        by destruct (schema_put_with_revision_effect _ _ _ _ _ Hp' Hw) as [(? & _ & ->)|(? & ? & [=] & _)]. }
      split_and!; [done|by apply map_Forall_delete|by eauto].
  - split_and!; [done| |].
    + rewrite Hed. apply map_Forall_empty.
    + rewrite Hlog. by exists n.
Qed.
End editors.

(** ** Registries *)

Section registries.

(** Every entry lies under its own key. *)
Definition keyed (reg : InMemorySchemaRegistry) : Prop := ∀ k e, reg !! k = Some e → entry_key e = Ok k.

Lemma add_all_list (l : list (str * SchemaRegistryEntry)) : ∀ reg : InMemorySchemaRegistry,
  Forall (λ kv, entry_key kv.2 = Ok kv.1) l → NoDup l.*1 →
  add_all reg l.*2 = Ok (list_to_map l ∪ reg : InMemorySchemaRegistry).
Proof.
  induction l as [|[k e] l IH]; intros reg Hl Hnd; csimpl.
  { cbn [add_all]. f_equal. unfold InMemorySchemaRegistry in *. by rewrite left_id_L by apply _. }
  apply Forall_cons in Hl as [Hk Hl]. csimpl in Hnd. apply NoDup_cons in Hnd as [Hin Hnd].
  cbn [add_all fst snd] in *. unfold add. rewrite Hk, !bind_Ok, IH by done. f_equal.
  unfold InMemorySchemaRegistry in *. rewrite <- insert_union_r by (by apply not_elem_of_list_to_map_1).
  by rewrite insert_union_l.
Qed.

Lemma schema_readd_keyed reg : keyed reg → readd reg = Ok reg.
Proof.
  intros Hk. unfold readd. rewrite add_all_list.
  - f_equal. unfold InMemorySchemaRegistry in *. by rewrite list_to_map_to_list, right_id_L by apply _.
  - apply Forall_forall. intros [k e] He%elem_of_map_to_list. by apply Hk.
  - apply NoDup_fst_map_to_list.
Qed.

(** A snapshot holds what was fetched, under the listed keys. *)
Lemma schema_snapshot_from_keyed fetch (f : str → option SchemaRegistryEntry) keys : ∀ reg : InMemorySchemaRegistry,
  (∀ k, k ∈ keys → fetch k = Ok (f k)) → (∀ k e, f k = Some e → entry_key e = Ok k) →
  (∀ k e, reg !! k = Some e → f k = Some e) →
  ∃ reg' : InMemorySchemaRegistry, snapshot_from reg keys fetch = Ok reg' ∧
    ∀ k, reg' !! k = if decide (k ∈ keys) then f k else reg !! k.
Proof.
  induction keys as [|k keys IH]; intros reg Hfetch Hf Hreg.
  { exists reg. split; [done|]. intros k. by rewrite decide_False by (by intros ?%elem_of_nil). }
  cbn [snapshot_from]. rewrite (Hfetch k) by left. rewrite bind_Ok.
  assert (∃ reg1 : InMemorySchemaRegistry, match f k with Some e => add reg e | None => Ok reg end = Ok reg1 ∧
    ∀ k', reg1 !! k' = if decide (k' = k) then f k else reg !! k') as (reg1 & E1 & H1).
  { destruct (f k) as [e|] eqn:Ee.
    - unfold add. rewrite (Hf k e Ee), bind_Ok. eexists. split; [done|]. intros k'.
      unfold InMemorySchemaRegistry in *. rewrite lookup_insert. repeat case_decide; congruence.
    - exists reg. split; [done|]. intros k'. case_decide as Hk; [|done]. subst k'.
      destruct (reg !! k) as [y|] eqn:Ey; [|done]. apply Hreg in Ey. congruence. }
  rewrite E1, bind_Ok. destruct (IH reg1) as (reg' & E' & H'); [|done| |].
  - intros k' Hk'. apply Hfetch. by right.
  - intros k' e. rewrite H1. case_decide; [by subst|apply Hreg].
  - exists reg'. split; [done|]. intros k'. rewrite H', H1.
    destruct (decide (k' ∈ keys)); [by rewrite decide_True by (by right)|].
    destruct (decide (k' = k)) as [->|Hne]; [by rewrite decide_True by left|].
    rewrite decide_False; [done|]. by intros [?|?]%elem_of_cons.
Qed.
End registries.

(** ** A consumer of the bucket *)

Section consumer.
Context `{LocalZone, Sha256} {S : Type} `{KvLaws S} `{!KvKeys S} `{!KvKeysLaws S} `{!KvPuts S} `{!KvPutLaws S}.
Notation kv_msg := MarkerKv.MarkerKv.kv_update_msg.

Definition held (s : S) (k : str) : option SchemaRegistryEntry :=
  match get s k with Ok o => o | Err _ => None end.

Lemma sound_get s k : sound s → get s k = Ok (held s k).
Proof.
  intros Hs. unfold held. destruct (kv_get s k) as [kve|] eqn:E; [|by rewrite get_absent].
  destruct (Hs k) as (e & He & _); [by rewrite E|]. by rewrite He.
Qed.

Lemma sound_held s k e : sound s → held s k = Some e → writable k e.
Proof.
  intros Hs He. destruct (kv_get s k) as [kve|] eqn:E; [|unfold held in He; by rewrite get_absent in He].
  destruct (Hs k) as (e' & He' & Hv); [by rewrite E|]. unfold held in He. rewrite He' in He. by injection He as ->.
Qed.

Lemma held_present s k e : held s k = Some e → is_Some (kv_get s k).
Proof. unfold held, get. destruct (str_empty k); [done|]. by destruct (kv_get s k). Qed.

Lemma schema_snapshot_reads s ks :
  sound s → kv_keys s = Some ks →
  ∃ reg, snapshot (Some ks) (get s) = Ok reg ∧ ∀ k, lookup reg k = held s k.
Proof.
  intros Hs Hks. destruct (schema_snapshot_from_keyed (get s) (held s) ks ∅) as (reg & E & Hreg).
  - intros k _. by apply sound_get.
  - intros k e He. by apply ver_key, writable_verified, (sound_held s).
  - done.
  - exists reg. split; [done|]. intros k. unfold lookup. rewrite Hreg. case_decide as Hin; [done|].
    unfold InMemorySchemaRegistry. rewrite lookup_empty. destruct (held s k) as [e|] eqn:Ee; [|done].
    exfalso. by apply Hin, (kv_keys_in s ks k Hks), (held_present _ _ _ Ee).
Qed.

(** The updates that a watcher sees of a write and of a removal. *)
Definition put_update (k : str) (blob : bytes) (rev : Z) : kv_msg :=
  MarkerKv.MarkerKv.MkUpdate (Some (u "PUT")) (Some (JStr k)) (Some rev) (KvObj (Some (VBytes blob)) (Some rev)).
Definition removal_update (o : WatchOp) (k : str) (rev : Z) : kv_msg :=
  MarkerKv.MarkerKv.MkUpdate (Some (op_value o)) (Some (JStr k)) (Some rev) (KvObj None (Some rev)).

(** An acknowledged write, pinned or not. *)
Definition acknowledged (s : S) (e : SchemaRegistryEntry) (s' : S) (rev : Z) : Prop :=
  put s e = (s', Ok rev) ∨ ∃ n, put_with_revision s e n = (s', Ok rev).

(** What happens to a bucket, with the updates of it. *)
Inductive history (s : S) : list kv_msg → S → Prop :=
| no_change : history s [] s
| a_write us s1 e k blob s2 rev :
    history s us s1 → entry_plain e → write_plan e = Ok (k, blob) → acknowledged s1 e s2 rev →
    history s (us ++ [put_update k blob rev]) s2
| a_removal us s1 o k s2 rev :
    history s us s1 → o ≠ PUT → delete s1 k = (s2, Ok ()) →
    history s (us ++ [removal_update o k rev]) s2.

Definition consume (l : LiveSchemaSnapshot) (upd : kv_msg) : result schema_kv_error LiveSchemaSnapshot :=
  e ← _decode_watch_update upd; apply l e.
Fixpoint consume_all (l : LiveSchemaSnapshot) (us : list kv_msg) : result schema_kv_error LiveSchemaSnapshot :=
  match us with [] => Ok l | upd :: us => l ← consume l upd; consume_all l us end.

Lemma schema_consume_all_app l us us' : consume_all l (us ++ us') = (l' ← consume_all l us; consume_all l' us').
Proof.
  revert l. induction us as [|x us IH]; intros l; [done|]. cbn [consume_all app].
  destruct (consume l x); [|done]. rewrite !bind_Ok. apply IH.
Qed.

Lemma acknowledged_effect s e s' rev k b :
  entry_plain e → write_plan e = Ok (k, b) → acknowledged s e s' rev →
  stored_in s k e rev s' ∧ (sound s → sound s').
Proof.
  intros He Hw Ha. pose proof Hw as [Hv Hb]%schema_write_plan_ok. assert (stored_in s k e rev s') as Hst.
  { destruct Ha as [Hp|[n Hp]].
    - destruct (schema_put_effect _ _ _ _ He Hp) as [(? & [=] & _)|(k' & r & [= <-] & Hv' & Hst)].
      pose proof (ver_key _ _ Hv) as E. rewrite (ver_key _ _ (writable_verified _ _ Hv')) in E. by apply Ok_inj in E as <-.
    - destruct (schema_put_with_revision_effect _ _ _ _ _ He Hp) as [(? & [=] & _)|(k' & r & [= <-] & Hv' & Hst & _)].
      pose proof (ver_key _ _ Hv) as E. rewrite (ver_key _ _ (writable_verified _ _ Hv')) in E. by apply Ok_inj in E as <-. }
  split; [done|]. eapply stored_sound; [|done]. split; eauto.
Qed.

(** What a write and a removal leave to be read. *)
Lemma stored_held s k e rev s' :
  stored_in s k e rev s' → ∀ k', held s' k' = if decide (k' = k) then Some (read_as e) else held s k'.
Proof.
  intros Hst k'. destruct (Hst k') as [Hg _]. unfold held. rewrite !get_revision, Hg. by case_decide.
Qed.

Lemma removed_held s k s' :
  delete s k = (s', Ok ()) →
  str_empty k = false ∧ (∀ k', held s' k' = if decide (k' = k) then None else held s k') ∧ (sound s → sound s').
Proof.
  intros Hd. destruct (delete_effect _ _ _ _ Hd) as [(? & [=] & _)|(_ & Hk & Hg)]. split_and!; [done| |].
  - intros k'. specialize (Hg k'). unfold held. case_decide; [by rewrite get_absent|].
    by rewrite get_revision, (revision_ext s' s k' Hg), <- get_revision.
  - intros Hs. pose proof (perform_sound s (Delete k) I Hs) as Hp. cbn [perform] in Hp. by rewrite Hd in Hp.
Qed.

Lemma decode_put k e b rev :
  entry_plain e → write_plan e = Ok (k, b) →
  _decode_watch_update (put_update k b rev) = Ok (MkWatch PUT k (Some (read_as e)) rev).
Proof.
  intros He [Hv Hb]%schema_write_plan_ok. unfold _decode_watch_update, put_update.
  cbn [MarkerKv.MarkerKv.upd_operation MarkerKv.MarkerKv.upd_key MarkerKv.MarkerKv.upd_revision
    MarkerKv.MarkerKv.upd_entry].
  change (Some (JStr k) ≫= PolicyKv.PolicyKv.text_of) with (Some k).
  cbn [bad of_option]. rewrite bind_Ok. assert (op_of_name (u "PUT") = Some PUT) as -> by (by vm_compute).
  cbn [bad of_option]. rewrite !bind_Ok, (verified_nonempty k e Hv), raise_if_false, bind_Ok.
  cbn [_coerce_value_bytes]. by rewrite bind_Ok, (schema_roundtrip e b He Hb).
Qed.

Lemma decode_removal o k rev :
  o ≠ PUT → str_empty k = false → _decode_watch_update (removal_update o k rev) = Ok (MkWatch o k None rev).
Proof.
  intros Ho Hk. unfold _decode_watch_update, removal_update.
  cbn [MarkerKv.MarkerKv.upd_operation MarkerKv.MarkerKv.upd_key MarkerKv.MarkerKv.upd_revision
    MarkerKv.MarkerKv.upd_entry].
  change (Some (JStr k) ≫= PolicyKv.PolicyKv.text_of) with (Some k).
  cbn [bad of_option]. rewrite bind_Ok. assert (op_of_name (op_value o) = Some o) as -> by (by destruct o; vm_compute).
  cbn [bad of_option]. rewrite !bind_Ok, Hk, raise_if_false, bind_Ok. by destruct o.
Qed.

(** The consumer takes one update. *)
Lemma schema_consume_put l s k e b rev s' :
  (∀ k, lookup (_live l) k = held s k) → entry_plain e → write_plan e = Ok (k, b) → stored_in s k e rev s' →
  ∃ l', consume l (put_update k b rev) = Ok l' ∧ ∀ k, lookup (_live l') k = held s' k.
Proof.
  intros Hl He Hp Hst. unfold consume. rewrite (decode_put k e b rev He Hp), bind_Ok.
  apply schema_write_plan_ok in Hp as [Hv Hb]. unfold apply. cbn [op entry].
  unfold add. rewrite (ver_key k (read_as e)) by (by eapply verified_read). rewrite !bind_Ok.
  eexists. split; [done|]. intros k'. cbn [_live]. unfold lookup in *. unfold InMemorySchemaRegistry in *.
  rewrite (stored_held _ _ _ _ _ Hst), lookup_insert, Hl. repeat case_decide; congruence.
Qed.

Lemma schema_consume_removal l s o k rev s' :
  (∀ k, lookup (_live l) k = held s k) → o ≠ PUT → delete s k = (s', Ok ()) →
  ∃ l', consume l (removal_update o k rev) = Ok l' ∧ ∀ k, lookup (_live l') k = held s' k.
Proof.
  intros Hl Ho (Hk & Hh & _)%removed_held. unfold consume. rewrite (decode_removal o k rev Ho Hk), bind_Ok.
  exists (MkLive (if last_revision l <? rev then rev else last_revision l) (base.delete k (_live l))).
  split; [by destruct o|]. intros k'. cbn [_live]. unfold lookup in *. unfold InMemorySchemaRegistry in *.
  rewrite Hh, lookup_delete, Hl. repeat case_decide; congruence.
Qed.

Lemma history_sound s us s' : sound s → history s us s' → sound s'.
Proof.
  intros Hs Hh. induction Hh as [|us s1 e k b s2 rev _ IH He Hp Ha|us s1 o k s2 rev _ IH _ Hd]; [done|..].
  - by apply (acknowledged_effect s1 e s2 rev k b).
  - by apply (removed_held s1 k s2 Hd).
Qed.

(** A consumer that starts from a snapshot of the bucket and decodes and applies
    the updates of any writes and removals has the registry that a fresh snapshot
    gives, and its entries are those of the bucket. *)
Theorem registry_followed s us s' ks ks' :
  sound s → kv_keys s = Some ks → history s us s' → kv_keys s' = Some ks' →
  ∃ l l' reg, from_backend (Some ks) (get s) = Ok l ∧ consume_all l us = Ok l' ∧ as_registry l' = Ok reg ∧
    snapshot (Some ks') (get s') = Ok reg ∧ ∀ k, get s' k = Ok (lookup reg k).
Proof.
  intros Hs Hks Hh Hks'. pose proof (history_sound s us s' Hs Hh) as Hs'.
  destruct (schema_snapshot_reads s ks Hs Hks) as (reg0 & E0 & Hm0), (schema_snapshot_reads s' ks' Hs' Hks') as (reg & E & Hm).
  assert (∀ r s, sound s → (∀ k, lookup r k = held s k) → keyed r) as Hkeyed.
  { intros r s0 Hs0 Hr k e He. apply ver_key, writable_verified, (sound_held s0); [done|]. rewrite <- Hr. done. }
  exists (MkLive 0 reg0).
  enough (∃ l', consume_all (MkLive 0 reg0) us = Ok l' ∧ ∀ k, lookup (_live l') k = held s' k) as (l' & El & Hl).
  { assert (_live l' = reg) as Eq.
    { unfold lookup in *. unfold InMemorySchemaRegistry in *. apply map_eq. intros k. by rewrite Hl, Hm. }
    exists l', reg. split_and!; [|done| |done|].
    - unfold from_backend. rewrite E0, bind_Ok. unfold new_live. by rewrite schema_readd_keyed by (by apply (Hkeyed _ s)).
    - unfold as_registry. rewrite Eq. by apply schema_readd_keyed, (Hkeyed _ s').
    - intros k. by rewrite (sound_get s' k Hs'), Hm. }
  clear E Hm Hs' Hks'. induction Hh as [|us s1 e k b s2 rev Hh (l1 & E1 & Hm1) He Hp Ha|us s1 o k s2 rev Hh (l1 & E1 & Hm1) Ho Hd].
  - by exists (MkLive 0 reg0).
  - destruct (acknowledged_effect _ _ _ _ _ _ He Hp Ha) as [Hst _].
    destruct (schema_consume_put l1 s1 k e b rev s2 Hm1 He Hp Hst) as (l2 & E2 & Hm2). exists l2.
    rewrite schema_consume_all_app, E1, bind_Ok. cbn [consume_all]. by rewrite E2.
  - destruct (schema_consume_removal l1 s1 o k rev s2 Hm1 Ho Hd) as (l2 & E2 & Hm2). exists l2.
    rewrite schema_consume_all_app, E1, bind_Ok. cbn [consume_all]. by rewrite E2.
Qed.
End consumer.

Module SchemaKvExample.
#[local] Existing Instance PolicyKvExample.utc_host.
#[local] Existing Instance checksum_sha256.

Definition body (title : str) : dict := [(u "title", JStr title); (u "$id", JStr (u "wire/ping/1"))].
Definition digest_of (d : dict) : json := JStr (ok_or [] (schema_body_sha256 d)).
Definition schema (title : str) : SchemaRegistryEntry :=
  MkSchema (JStr (u "wire")) (JStr (u "ping")) (JStr (u "1")) (JStr (u "wire/ping/1")) (body title)
    (digest_of (body title)) (Aware 0) (JStr (u "ops")) JNull.
Definition key1 : str := u "schemas/wire/ping/1".
Definition first : SchemaRegistryEntry := schema (u "first").
Definition second : SchemaRegistryEntry := schema (u "second").
Definition empty : seq_kv := SeqKv ∅.
Definition bucket1 : seq_kv := (put empty first).1.
Definition blob_of (e : SchemaRegistryEntry) : bytes := ok_or [] (_entry_to_envelope e).

Lemma schema_plain title : entry_plain (schema title).
Proof. split; [done..| |done]. split; [|done]. apply (bool_decide_unpack _). by vm_compute. Qed.

Lemma empty_sound : sound empty.
Proof. by intros k [e He]. Qed.

Lemma bucket1_sound : sound bucket1.
Proof. apply (perform_sound empty (Put first)); [apply schema_plain|exact empty_sound]. Qed.

Lemma schema_roundtrip_witness : _envelope_to_entry (blob_of first) = Ok (read_as first).
Proof. apply (schema_roundtrip first (blob_of first)); [apply schema_plain|by vm_compute]. Defined.

Lemma triple_of_key_witness :
  ∃ l n v, triple_for_key key1 = Ok (l, n, v) ∧ layer first = JStr l ∧ name first = JStr n ∧ version first = JStr v.
Proof. apply (triple_of_key (layer first) (name first) (version first)). by vm_compute. Defined.

(** Two writers, one of them with a stale revision, and a removal of another key. *)
Definition calls : list call := [Put first; PutPinned second 1; PutPinned first 1; Delete (u "other")].
Lemma registry_verified_witness :
  ∃ e, get (foldl perform empty calls) key1 = Ok (Some e) ∧ gates e = Ok key1.
Proof.
  apply (registry_verified empty calls key1).
  - exact empty_sound.
  - unfold calls. rewrite !Forall_cons. split_and!; [apply schema_plain..|exact I|apply Forall_nil_2].
  - vm_compute. by eexists.
Defined.

Lemma digest_binds_witness :
  json_sort (JObj (schema_body first)) = json_sort (JObj (schema_body (read_as first))) ∨
  collision_in sha256 (ok_list (_jcs_canonicalise (JObj (schema_body first))) ++
    ok_list (_jcs_canonicalise (JObj (schema_body (read_as first))))).
Proof.
  apply (digest_binds key1 key1 first (read_as first)).
  - apply gates_ok. by vm_compute.
  - apply gates_ok. by vm_compute.
  - apply json_plain_float_free, (plain_body _ (schema_plain _)).
  - apply json_plain_float_free, (plain_body _ (plain_read _ (schema_plain _))).
  - by vm_compute.
Defined.

(** *** Two callers change one entry *)

Definition retitle (title : str) (e : SchemaRegistryEntry) : SchemaRegistryEntry :=
  MkSchema (layer e) (name e) (version e) (JStr (u "wire/ping/1")) (body title) (digest_of (body title))
    (Aware 0) (schema_registered_by e) (supersedes e).

Lemma retitle_ok k title : change_ok k (retitle title).
Proof.
  intros x [Ht _ _ Hr] Hk. destruct (schema_plain title) as [_ Hi Hb _]. split; [|exact Hk]. by split.
Qed.

Definition reader (title : str) : editor := MkEditor key1 (retitle title) (read_as first) 1.
Definition bucket2 : seq_kv := (put_with_revision bucket1 (retitle (u "a") (read_as first)) 1).1.
Definition start : edit_sys seq_kv := EditSys bucket1 ∅ [].
Definition finish : edit_sys seq_kv := EditSys bucket2 ∅ [(key1, retitle (u "a"))].

(** Both read, the first write wins and the second is refused. *)
Lemma race : rtc edit_step start finish.
Proof.
  eapply rtc_l; [apply (ed_read _ 0%nat key1 (retitle (u "a")) (read_as first) 1); [apply retitle_ok|by vm_compute|done]|].
  eapply rtc_l; [apply (ed_read _ 1%nat key1 (retitle (u "b")) (read_as first) 1); [apply retitle_ok|by vm_compute|done]|].
  eapply rtc_l; [apply (ed_write _ 0%nat (reader (u "a")) bucket2 2); [done|]|].
  { apply injective_projections; [reflexivity|by vm_compute]. }
  eapply rtc_l; [apply (ed_refused _ 1%nat (reader (u "b")) bucket2 (SchemaRegistryConflictError key1 1)); [done|]|].
  { apply injective_projections; [reflexivity|by vm_compute]. }
  apply rtc_refl.
Qed.

Lemma no_update_lost_witness :
  ∃ n, get_with_revision bucket2 key1 =
    Ok (Some (applied (read_as first) (changes key1 [(key1, retitle (u "a"))]), n)).
Proof.
  apply (no_update_lost (kv_top:=seq_top) start finish key1 (read_as first) 1).
  - done.
  - done.
  - exact bucket1_sound.
  - exact race.
  - by vm_compute.
Defined.

(** *** A consumer *)

Lemma two_changes :
  history empty [put_update key1 (blob_of first) 1; removal_update DELETE key1 2] (delete bucket1 key1).1.
Proof.
  apply (a_removal _ [put_update key1 (blob_of first) 1] bucket1 DELETE key1 _ 2); [|done|].
  - apply (a_write _ [] empty first key1 (blob_of first) bucket1 1).
    + apply no_change.
    + apply schema_plain.
    + by vm_compute.
    + left. apply injective_projections; [reflexivity|by vm_compute].
  - apply injective_projections; [reflexivity|by vm_compute].
Qed.

Lemma registry_followed_witness :
  ∃ l l' reg, from_backend (Some []) (get empty) = Ok l ∧
    consume_all l [put_update key1 (blob_of first) 1; removal_update DELETE key1 2] = Ok l' ∧
    as_registry l' = Ok reg ∧ snapshot (Some []) (get (delete bucket1 key1).1) = Ok reg ∧
    ∀ k, get (delete bucket1 key1).1 k = Ok (lookup reg k).
Proof.
  apply (registry_followed empty).
  - exact empty_sound.
  - by vm_compute.
  - exact two_changes.
  - by vm_compute.
Defined.

(** *** What the code does besides *)

(** Names are not restricted to kebab case, and a key with another layer is
    parsed that is never built. *)
Example any_name : key_for_triple (JStr (u "wire")) (JStr [233; 32; 10]) (JStr (u "1")) =
  Ok (u "schemas/wire/" ++ [233; 32; 10] ++ u "/1").
Proof. by vm_compute. Qed.
Example other_layer :
  triple_for_key (u "schemas/persona/a/1") = Ok (u "persona", u "a", u "1") ∧
  key_for_triple (JStr (u "persona")) (JStr (u "a")) (JStr (u "1")) = Err TripleValueError.
Proof. split; by vm_compute. Qed.

(** An entry with an unknown layer is read, and ends a snapshot with a ValueError
    that is no envelope error. *)
Definition with_layer (l : str) (e : SchemaRegistryEntry) : SchemaRegistryEntry :=
  MkSchema (JStr l) (name e) (version e) (schema_id e) (schema_body e) (body_sha256 e) (schema_registered_at e)
    (schema_registered_by e) (supersedes e).
Definition odd_bucket : seq_kv := (seq_write empty (u "k") (blob_of (with_layer (u "persona") first))).1.
Example unknown_layer :
  is_ok (get odd_bucket (u "k")) = true ∧ snapshot (Some [u "k"]) (get odd_bucket) = Err TripleValueError.
Proof. split; by vm_compute. Qed.

(** A reader does not check the digest. *)
Definition tampered : SchemaRegistryEntry :=
  MkSchema (layer first) (name first) (version first) (schema_id first) (body (u "other")) (body_sha256 first)
    (Aware 0) (JStr (u "ops")) JNull.
Example digest_unchecked :
  get (seq_write empty key1 (blob_of tampered)).1 key1 = Ok (Some (read_as tampered)) ∧
  gates tampered = Err SchemaRegistryValidationError.
Proof. split; by vm_compute. Qed.

(** Under another key an entry stays in a live registry after that key is removed. *)
Example removed_schema_stays :
  match consume_all (MkLive 0 ∅) [put_update (u "k") (blob_of first) 1; removal_update DELETE (u "k") 2] with
  | Ok l => lookup (_live l) key1 = Some (read_as first)
  | Err _ => False
  end.
Proof. vm_compute. reflexivity. Qed.

(** The digest is not that of RFC 8785, which orders names by UTF-16 code units. *)
Definition two_names : json := JObj [([0xE000], JNull); ([0x1F600], JNull)].
Example not_rfc8785 :
  match _jcs_canonicalise two_names, Jcs.Jcs.canonicalize two_names with
  | Ok a, Ok b => a ≠ b
  | _, _ => False
  end.
Proof. by vm_compute. Qed.
End SchemaKvExample.
