(* ===== verification/EntrySigning.v ===== *)
(** * Signatures of schema entries ([wirelang/schemas/entry_signing.py])

    An entry of [SchemaKv] is signed over the digest of its canonical envelope,
    and carries the block of its signature in a further member of the envelope.
    Ed25519 and [rfc8785] are the classes of [Signing]; the block has the checks
    of the manifests' block.

    The theorems: a signed entry verifies in both modes, and after it was written
    to its envelope and read back; in strict mode exactly the entries with a
    well-formed block and a valid signature verify; the codec of the registry
    reads a signed envelope without its signature. *)

From S2P Require Import Prelude PyStr Sha256 PyJson PyJsonLoads PyDyn PyEqual Merkle Jcs Signing AipSigning Ledger MarkerKv PolicyKv SchemaKv.
From Stdlib Require Import ZArith Lia.

Open Scope Z_scope.

Inductive entry_signing_error : Type :=
| SchemaRegistrySignatureError
| EntryEnvelopeError (e : schema_kv_error)    (* of the codec *)
| EntryCanonicalisation.                      (* raised by the canonicaliser *)

Record SignedSchemaRegistryEntry := MkSignedEntry {
  signed_entry : SchemaRegistryEntry;
  entry_signature : json;
}.

(** The argument of [verify_entry_signature], and what an envelope is read as. *)
Inductive signed_or_bare : Type :=
| SignedEntry (s : SignedSchemaRegistryEntry)
| BareEntry (e : SchemaRegistryEntry).

Module EntrySigning.
Import SchemaKv.

Definition SIGNATURE_ALG : str := u "Ed25519".

Section signing.
Context `{LocalZone, Sha256, Rfc8785, Ed25519}.

(** The checks are those of the manifests' block, in the same order; every
    failure is one exception here. *)
Definition _validate_signature_block_shape (block : json) : result entry_signing_error () :=
  map_err (λ _, SchemaRegistrySignatureError) (ManifestSigning._validate_signature_block_shape block).

Definition new_signed_entry (e : SchemaRegistryEntry) (block : json)
    : result entry_signing_error SignedSchemaRegistryEntry :=
  _validate_signature_block_shape block;;
  Ok (MkSignedEntry e block).

Definition _entry_to_signing_payload (e : SchemaRegistryEntry) : result entry_signing_error dict :=
  t ← map_err EntryEnvelopeError (_dt_to_rfc3339 (schema_registered_at e));
  Ok (envelope_members e t).

Definition _jcs_canonicalize (value : json) : result entry_signing_error bytes :=
  map_err (λ _, EntryCanonicalisation) (AipSigning._jcs_canonicalize value).

Definition _canonical_signing_payload (e : SchemaRegistryEntry) : result entry_signing_error bytes :=
  payload ← _entry_to_signing_payload e;
  canonical ← _jcs_canonicalize (JObj (dict_pop payload (u "signature")));
  Ok (sha256 canonical).

Definition block_of (kid : str) (raw_sig : bytes) : json :=
  JObj [(u "alg", JStr SIGNATURE_ALG); (u "kid", JStr kid); (u "signature", JStr (hex raw_sig))].

Definition sign_entry (e : SchemaRegistryEntry) (ed25519_priv_key : bytes) (kid : str)
    : result entry_signing_error SignedSchemaRegistryEntry :=
  raise_if (negb (Nat.eqb (length ed25519_priv_key) 32)) SchemaRegistrySignatureError;;
  raise_if (str_empty kid) SchemaRegistrySignatureError;;
  digest ← _canonical_signing_payload e;
  new_signed_entry e (block_of kid (ed_sign ed25519_priv_key digest)).

(** [bytes.fromhex(block["signature"])], of a block that passed the checks *)
Definition block_bytes (block : json) : result entry_signing_error bytes :=
  match block with
  | JObj b =>
      match dict_get b (u "signature") with
      | Some (JStr s) => of_option SchemaRegistrySignatureError (bytes_fromhex s)
      | _ => Err SchemaRegistrySignatureError
      end
  | _ => Err SchemaRegistrySignatureError
  end.

Definition verify_entry_signature (signed : signed_or_bare) (ed25519_pub_key : option bytes)
    (mode : VerifyMode) (signature_block : option json) : result entry_signing_error bool :=
  let '(e, block) := match signed with
                     | SignedEntry s => (signed_entry s, Some (entry_signature s))
                     | BareEntry e => (e, signature_block)
                     end in
  match block with
  | None => match mode with PERMISSIVE => Ok true | STRICT => Err SchemaRegistrySignatureError end
  | Some block =>
      _validate_signature_block_shape block;;
      pub ← of_option SchemaRegistrySignatureError ed25519_pub_key;
      raise_if (negb (Nat.eqb (length pub) 32)) SchemaRegistrySignatureError;;
      digest ← _canonical_signing_payload e;
      sig_bytes ← block_bytes block;
      Ok (ed_verify pub sig_bytes digest)
  end.

Definition envelope_with_signature (signed : SignedSchemaRegistryEntry) : result entry_signing_error bytes :=
  payload ← _entry_to_signing_payload (signed_entry signed);
  of_option (EntryEnvelopeError SchemaUnicodeError)
    (utf8_encode (json_dumps false true (JObj (dict_set payload (u "signature") (entry_signature signed))))).

(** The base codec, and the text parsed once more for the signature. *)
Definition envelope_to_signed_entry (blob : bytes) : result entry_signing_error signed_or_bare :=
  e ← map_err EntryEnvelopeError (_envelope_to_entry blob);
  text ← of_option (EntryEnvelopeError SchemaRegistryEnvelopeError) (utf8_decode blob);
  payload ← of_option (EntryEnvelopeError SchemaRegistryEnvelopeError) (json_loads text);
  d ← of_option (EntryEnvelopeError SchemaRegistryEnvelopeError) (dict_of payload);
  match dict_get d (u "signature") with
  | None => Ok (BareEntry e)
  | Some block =>
      _validate_signature_block_shape block;;
      s ← new_signed_entry e block;
      Ok (SignedEntry s)
  end.
End signing.
End EntrySigning.

Import SchemaKv EntrySigning.

Section properties.
Context `{LocalZone, Sha256, Rfc8785, Ed25519}.

Lemma entry_block_ok block : _validate_signature_block_shape block = Ok () ↔ ∃ kid raw, block_ok block kid raw.
Proof. unfold _validate_signature_block_shape. by rewrite map_err_ok, block_shape_ok. Qed.

Lemma block_bytes_ok block kid raw : block_ok block kid raw → block_bytes block = Ok raw.
Proof. intros (b & s & -> & _ & _ & _ & Hs & _ & Hr & _). cbn [block_bytes]. by rewrite Hs, Hr. Qed.

(** The digest that is signed. *)
Definition entry_digest (e : SchemaRegistryEntry) (d : bytes) : Prop :=
  ∃ t c, _dt_to_rfc3339 (schema_registered_at e) = Ok t ∧
    AipSigning._jcs_canonicalize (JObj (envelope_members e t)) = Ok c ∧ d = sha256 c.

Lemma entry_digest_ok e d : _canonical_signing_payload e = Ok d ↔ entry_digest e d.
Proof.
  unfold _canonical_signing_payload, _entry_to_signing_payload, _jcs_canonicalize, entry_digest. split.
  - intros Hd. apply bind_ok_iff in Hd as (p & Hp & Hd). apply bind_ok_iff in Hp as (t & Ht%map_err_ok & <-%Ok_inj).
    apply bind_ok_iff in Hd as (c & Hc%map_err_ok & <-%Ok_inj). by exists t, c.
  - intros (t & c & -> & Hc & ->). cbn [map_err]. rewrite !bind_Ok.
    change (dict_pop (envelope_members e t) (u "signature")) with (envelope_members e t).
    by rewrite Hc.
Qed.

(** A block with an Ed25519-valid signature of the entry. *)
Definition entry_signed_by (e : SchemaRegistryEntry) (block : json) (pub : bytes) : Prop :=
  ∃ kid raw d, block_ok block kid raw ∧ length pub = 32%nat ∧ entry_digest e d ∧ ed_verify pub raw d = true.

Lemma verify_block e block pub mode :
  verify_entry_signature (BareEntry e) pub mode (Some block) = Ok true ↔
  ∃ pk, pub = Some pk ∧ entry_signed_by e block pk.
Proof.
  unfold verify_entry_signature, entry_signed_by. split.
  - intros Hv. apply bind_ok_iff in Hv as ([] & (kid & raw & Hb)%entry_block_ok & Hv).
    apply bind_ok_iff in Hv as (pk & ->%of_option_ok & Hv).
    apply bind_ok_iff in Hv as ([] & Hl%raise_if_ok%negb_false_iff%Nat.eqb_eq & Hv).
    apply bind_ok_iff in Hv as (d & Hd%entry_digest_ok & Hv). rewrite (block_bytes_ok _ _ _ Hb), bind_Ok in Hv.
    apply Ok_inj in Hv. eauto 10.
  - intros (pk & -> & kid & raw & d & Hb & Hl & Hd & Hv).
    rewrite (proj2 (entry_block_ok block)) by eauto. cbn [of_option]. rewrite !bind_Ok, Hl. cbn [Nat.eqb negb].
    rewrite raise_if_false, bind_Ok, (proj2 (entry_digest_ok e d) Hd), bind_Ok, (block_bytes_ok _ _ _ Hb), bind_Ok.
    by rewrite Hv.
Qed.

(** In strict mode exactly the entries with a well-formed block, inside or beside
    them, that carries a valid signature under the given key verify. *)
Theorem strict_entry_iff signed pub block :
  verify_entry_signature signed pub STRICT block = Ok true ↔
  ∃ e b pk, (signed = SignedEntry (MkSignedEntry e b) ∨ signed = BareEntry e ∧ block = Some b) ∧
    pub = Some pk ∧ entry_signed_by e b pk.
Proof.
  split.
  - destruct signed as [[e b]|e].
    + intros (pk & -> & Hs)%(verify_block e b pub STRICT). exists e, b, pk. eauto.
    + destruct block as [b|]; [|done]. intros (pk & -> & Hs)%verify_block. exists e, b, pk. eauto.
  - intros (e & b & pk & [->|[-> ->]] & Hp & Hs); apply (verify_block e b pub STRICT); eauto.
Qed.

Context `{!Ed25519Laws}.

Lemma sign_entry_ok e seed kid s :
  sign_entry e seed kid = Ok s ↔
  length seed = 32%nat ∧ kid ≠ [] ∧ ∃ d, entry_digest e d ∧ s = MkSignedEntry e (block_of kid (ed_sign seed d)).
Proof.
  unfold sign_entry, new_signed_entry. split.
  - intros Hs. apply bind_ok_iff in Hs as ([] & Hl%raise_if_ok%negb_false_iff%Nat.eqb_eq & Hs).
    apply bind_ok_iff in Hs as ([] & Hk%raise_if_ok%str_empty_false & Hs).
    apply bind_ok_iff in Hs as (d & Hd%entry_digest_ok & Hs). apply bind_ok_iff in Hs as ([] & _ & <-%Ok_inj). eauto.
  - intros (Hl & Hk & d & Hd & ->). rewrite Hl, (proj2 (str_empty_false kid) Hk). cbn [Nat.eqb negb].
    rewrite !raise_if_false, !bind_Ok, (proj2 (entry_digest_ok e d) Hd), bind_Ok.
    rewrite (proj2 (entry_block_ok _)); [done|]. exists kid, (ed_sign seed d). apply hex_block; [done|].
    by apply ed_sign_length.
Qed.

Lemma signed_by_seed e seed kid d :
  length seed = 32%nat → kid ≠ [] → entry_digest e d →
  entry_signed_by e (block_of kid (ed_sign seed d)) (ed_public seed).
Proof.
  intros Hl Hk Hd. exists kid, (ed_sign seed d), d. split_and!; [|by apply ed_public_length|done|by apply ed_verify_sign].
  apply hex_block; [done|]. by apply ed_sign_length.
Qed.

(** A signed entry verifies under the public key of the seed, in both modes and
    with the block inside it or beside it. *)
Theorem sign_entry_verifies e seed kid s mode :
  sign_entry e seed kid = Ok s →
  verify_entry_signature (SignedEntry s) (Some (ed_public seed)) mode None = Ok true ∧
  verify_entry_signature (BareEntry e) (Some (ed_public seed)) mode (Some (entry_signature s)) = Ok true.
Proof.
  intros (Hl & Hk & d & Hd & ->)%sign_entry_ok. pose proof (signed_by_seed e seed kid d Hl Hk Hd).
  split; apply (verify_block e _ _ mode); eauto.
Qed.

(** ** Signed envelopes *)

Lemma signed_members e t block :
  dict_set (envelope_members e t) (u "signature") block = envelope_members e t ++ [(u "signature", block)].
Proof. done. Qed.

Lemma signed_plain e t kid raw :
  entry_plain e → json_plain (JObj (envelope_members e t ++ [(u "signature", block_of kid raw)])).
Proof.
  intros He. apply (members_plain e t), json_plain_obj in He as [_ He]. apply json_plain_obj. split.
  - apply (bool_decide_unpack _). by vm_compute.
  - apply Forall_app. split; [done|]. constructor; [|constructor]. cbn [snd block_of]. apply json_plain_obj.
    split; [apply (bool_decide_unpack _); by vm_compute|]. by repeat constructor.
Qed.

(** The registry's codec reads the entry and drops the signature. *)
Lemma signature_dropped e kid raw b :
  entry_plain e → envelope_with_signature (MkSignedEntry e (block_of kid raw)) = Ok b →
  _envelope_to_entry b = Ok (read_as e) ∧ ∃ text d, utf8_decode b = Some text ∧ json_loads text = Some (JObj d) ∧
    dict_get d (u "signature") = Some (block_of kid raw).
Proof.
  intros He Hb. unfold envelope_with_signature, _entry_to_signing_payload in Hb. cbn [signed_entry entry_signature] in Hb.
  apply bind_ok_iff in Hb as (p & Hp & Hb%of_option_ok). apply bind_ok_iff in Hp as (t & Ht%map_err_ok & <-%Ok_inj).
  rewrite signed_members in Hb. assert (json_wf (JObj (envelope_members e t ++ [(u "signature", block_of kid raw)]))) as Hwf
    by (eapply json_plain_encodable; [by apply signed_plain|done]).
  destruct (schema_time_reads _ _ Ht) as [_ Er]. split; [by eapply extra_members|].
  eexists _, _. split_and!; [by apply utf8_decode_encode|by rewrite json_loads_dumps|].
  apply json_wf_obj in Hwf as [Hnd _]. rewrite dict_get_sorted by done.
  by rewrite <- (json_sort_block kid raw : json_sort (block_of kid raw) = block_of kid raw) at 2.
Qed.

Context `{!Rfc8785Canonical}.

(** The canonical bytes do not depend on the order of members. *)
Lemma canonical_sorted j :
  json_wf j → AipSigning._jcs_canonicalize (json_sort j) = AipSigning._jcs_canonicalize j.
Proof.
  intros Hj. unfold AipSigning._jcs_canonicalize. destruct rfc8785_dumps as [f|] eqn:E.
  - by rewrite (rfc8785_sort f j E Hj).
  - by rewrite canonicalize_sort.
Qed.

Lemma digest_read e t d :
  json_wf (JObj (envelope_members e t)) → json_wf (JObj (envelope_members (read_as e) t)) →
  _dt_to_rfc3339 (schema_registered_at e) = Ok t → entry_digest e d → entry_digest (read_as e) d.
Proof.
  intros Hw Hw' Ht (t' & c & Ht' & Hc & ->). rewrite Ht in Ht'. apply Ok_inj in Ht' as <-.
  exists t, c. split_and!; [done| |done]. rewrite <- Hc.
  by rewrite <- (canonical_sorted (JObj (envelope_members (read_as e) t))), members_read, canonical_sorted.
Qed.

(** C29: A signed entry that is written to its envelope and read back has the same
    signature and the same members, and still verifies in strict mode. *)
Theorem signed_entry_reads e seed kid s b :
  entry_plain e → sign_entry e seed kid = Ok s → envelope_with_signature s = Ok b →
  envelope_to_signed_entry b = Ok (SignedEntry (MkSignedEntry (read_as e) (entry_signature s))) ∧
  verify_entry_signature (SignedEntry (MkSignedEntry (read_as e) (entry_signature s)))
    (Some (ed_public seed)) STRICT None = Ok true.
Proof.
  intros He (Hl & Hk & d & Hd & ->)%sign_entry_ok Hb. cbn [entry_signature].
  destruct (signature_dropped e kid _ b He Hb) as (Hr & text & m & Et & Em & Es). split.
  - unfold envelope_to_signed_entry. rewrite Hr. cbn [map_err]. rewrite bind_Ok, Et. cbn [of_option].
    rewrite bind_Ok, Em. cbn [of_option]. rewrite bind_Ok. cbn [dict_of of_option]. rewrite bind_Ok, Es.
    unfold new_signed_entry. rewrite (proj2 (entry_block_ok _)); [done|].
    exists kid, (ed_sign seed d). apply hex_block; [done|]. by apply ed_sign_length.
  - apply (verify_block (read_as e) _ _ STRICT). eexists. split; [done|]. apply signed_by_seed; [done..|].
    pose proof Hd as (t & c & Ht & _). destruct (_entry_to_envelope e) as [b'|] eqn:Eb.
    + destruct (envelope_wf e b' He Eb) as (t1 & Ht1 & Hw & _).
      destruct (envelope_wf (read_as e) b' (plain_read e He)) as (t2 & Ht2 & Hw2 & _); [by rewrite envelope_read|].
      cbn [schema_registered_at read_as] in Ht2. rewrite Ht in Ht1, Ht2. apply Ok_inj in Ht1 as <-, Ht2 as <-.
      by eapply digest_read.
    + exfalso. unfold envelope_with_signature, _entry_to_signing_payload in Hb. cbn [signed_entry entry_signature] in Hb.
      rewrite Ht in Hb. cbn [map_err] in Hb. rewrite !bind_Ok, signed_members in Hb. apply of_option_ok in Hb.
      assert (json_wf (JObj (envelope_members e t))) as Hw.
      { apply json_plain_encodable in Hb as Hw; [|by apply signed_plain]. apply json_wf_obj in Hw as [_ Hw].
        apply Forall_app in Hw as [Hw _]. apply json_wf_obj. split; [apply members_names|done]. }
      unfold _entry_to_envelope in Eb. rewrite Ht, bind_Ok in Eb.
      destruct (utf8_encode (json_dumps false true (JObj (envelope_members e t)))) as [x|] eqn:Ex; [done|].
      apply json_sort_wf, print_okchars, okstr_Forall, utf8_encode_encodable in Hw as [x Hx].
      unfold json_dumps in Ex. congruence.
Qed.
End properties.

Module EntrySigningExample.
Import SchemaKvExample.
#[local] Existing Instance PolicyKvExample.utc_host.
#[local] Existing Instance checksum_sha256.
#[local] Existing Instance plain_ed25519.
#[local] Existing Instance plain_ed25519_laws.

(** Without the package. *)
#[local] Instance own_canonicaliser : Rfc8785 := {| rfc8785_dumps := None |}.
#[local] Instance own_canonical : Rfc8785Canonical.
Proof. intros f j Hf. discriminate Hf. Qed.

Definition seed : bytes := replicate 32 Byte.x2a.
Definition signed : SignedSchemaRegistryEntry :=
  ok_or (MkSignedEntry first JNull) (sign_entry first seed (u "kid-1")).
Definition signed_blob : bytes := ok_or [] (envelope_with_signature signed).

Lemma sign_entry_verifies_witness :
  verify_entry_signature (SignedEntry signed) (Some (ed_public seed)) STRICT None = Ok true ∧
  verify_entry_signature (BareEntry first) (Some (ed_public seed)) STRICT (Some (entry_signature signed)) = Ok true.
Proof. apply (sign_entry_verifies first seed (u "kid-1") signed STRICT). by vm_compute. Defined.

Lemma signed_entry_reads_witness :
  envelope_to_signed_entry signed_blob = Ok (SignedEntry (MkSignedEntry (read_as first) (entry_signature signed))) ∧
  verify_entry_signature (SignedEntry (MkSignedEntry (read_as first) (entry_signature signed)))
    (Some (ed_public seed)) STRICT None = Ok true.
Proof.
  apply (signed_entry_reads first seed (u "kid-1") signed signed_blob).
  - apply schema_plain.
  - by vm_compute.
  - by vm_compute.
Defined.

(** Modes on an entry without a signature, and a key of the wrong length. *)
Example unsigned_modes :
  verify_entry_signature (BareEntry first) None PERMISSIVE None = Ok true ∧
  verify_entry_signature (BareEntry first) None STRICT None = Err SchemaRegistrySignatureError ∧
  verify_entry_signature (SignedEntry signed) (Some []) PERMISSIVE None = Err SchemaRegistrySignatureError ∧
  verify_entry_signature (SignedEntry signed) (Some (replicate 32 Byte.x00)) PERMISSIVE None = Ok false.
Proof. split_and!; by vm_compute. Qed.

(** The backend reads a signed envelope as a plain entry, and a caller that reads,
    changes nothing and writes leaves an envelope without a signature. *)
Definition signed_bucket : seq_kv := (seq_write empty key1 signed_blob).1.
Example backend_drops_signature :
  get signed_bucket key1 = Ok (Some (read_as first)) ∧
  match kv_get (put signed_bucket (read_as first)).1 key1 with
  | Some (KvObj (Some (VBytes b)) _) => envelope_to_signed_entry b = Ok (BareEntry (read_as first))
  | _ => False
  end.
Proof. split; by vm_compute. Qed.
End EntrySigningExample.
