(* ===== verification/SchemaReplication.v ===== *)
(** * Replication of the schema registry ([wirelang/schemas/replication.py])

    A replicator copies one schema bucket onto another: a bootstrap from a
    snapshot of the source, then its updates one by one, through a filter and
    either unconditional writes or writes pinned to the revision just read.

    The theorems: whatever the source sends, the target has verified entries
    only; after a bootstrap and the updates of any writes and removals the target
    has the documents of the source; an envelope error inside the loop is counted
    twice before the run halts. *)

From S2P Require Import Prelude PyStr Sha256 PyJson PyJsonLoads PyDyn Ledger MarkerKv PolicyKv SchemaKv EntrySigning.
From Stdlib Require Import ZArith Lia.

Open Scope Z_scope.

Inductive ReplicationConflictPolicy : Type := SOURCE_WINS | CAS_PIN.
Inductive ReplicationDecision : Type := APPLY | SKIP.

Record ReplicationMetrics := MkMetrics {
  bootstrap_applied : Z;
  bootstrap_skipped_by_filter : Z;
  bootstrap_skipped_idempotent : Z;
  events_applied_put : Z;
  events_applied_delete : Z;
  events_skipped_by_filter : Z;
  cas_conflicts : Z;
  envelope_errors : Z;
}.

Module SchemaReplication.
Import SchemaKv.

Definition no_metrics : ReplicationMetrics := MkMetrics 0 0 0 0 0 0 0 0.

(** The counters; each field of [inc] is what is added. *)
Definition count (inc m : ReplicationMetrics) : ReplicationMetrics :=
  MkMetrics (bootstrap_applied m + bootstrap_applied inc)
    (bootstrap_skipped_by_filter m + bootstrap_skipped_by_filter inc)
    (bootstrap_skipped_idempotent m + bootstrap_skipped_idempotent inc)
    (events_applied_put m + events_applied_put inc)
    (events_applied_delete m + events_applied_delete inc)
    (events_skipped_by_filter m + events_skipped_by_filter inc)
    (cas_conflicts m + cas_conflicts inc)
    (envelope_errors m + envelope_errors inc).

Definition one_boot_applied := MkMetrics 1 0 0 0 0 0 0 0.
Definition one_boot_filtered := MkMetrics 0 1 0 0 0 0 0 0.
Definition one_boot_idempotent := MkMetrics 0 0 1 0 0 0 0 0.
Definition one_put := MkMetrics 0 0 0 1 0 0 0 0.
Definition one_delete := MkMetrics 0 0 0 0 1 0 0 0.
Definition one_filtered := MkMetrics 0 0 0 0 0 1 0 0.
Definition one_conflict := MkMetrics 0 0 0 0 0 0 1 0.
Definition one_envelope_error := MkMetrics 0 0 0 0 0 0 0 1.

(** The settings.  A filter that raises, or whose answer is no decision, gives an
    error. *)
Record config := MkConfig {
  conflict_policy : ReplicationConflictPolicy;
  filter_fn : WatchEvent → result schema_kv_error ReplicationDecision;
  halt_on_envelope_error : bool;
  halt_on_conflict : bool;
}.

Definition _accept_all (_ : WatchEvent) : result schema_kv_error ReplicationDecision := Ok APPLY.
Definition default_config : config := MkConfig SOURCE_WINS _accept_all true false.

Record SchemaReplicator (T : Type) := MkReplicator {
  target : T;
  metrics : ReplicationMetrics;
}.
Arguments MkReplicator {T}.
Arguments target {T}.
Arguments metrics {T}.

Section replicator.
Context `{LocalZone, Sha256} {T : Type} `{KvBucket T} `{KvPuts T}.

Notation action A := (stm (SchemaReplicator T) schema_kv_error A).

(** [except Exception]: what cannot be serialised is not equal. *)
Definition _entries_byte_equal (a b : option SchemaRegistryEntry) : bool :=
  match a, b with
  | Some a, Some b =>
      match _entry_to_envelope a, _entry_to_envelope b with
      | Ok x, Ok y => bool_decide (x = y)
      | _, _ => false
      end
  | _, _ => false
  end.

Definition tick (inc : ReplicationMetrics) : action () :=
  modify (λ rp, MkReplicator (target rp) (count inc (metrics rp))).

(** A call on the target. *)
Definition on_target {A} (call : T → T * result schema_kv_error A) : action A :=
  λ rp, let '(t', r) := call (target rp) in (MkReplicator t' (metrics rp), r).
Definition of_target {A} (read : T → result schema_kv_error A) : action A :=
  λ rp, (rp, read (target rp)).

Variable cfg : config.

(** ** Bootstrap *)

Definition bootstrap_key (snapshot : InMemorySchemaRegistry) (key : str) : action () :=
  match lookup snapshot key with
  | None => mret ()
  | Some source_entry =>
      decision ← lift (filter_fn cfg (MkWatch PUT key (Some source_entry) 0));
      match decision with
      | SKIP => tick one_boot_filtered
      | APPLY =>
          target_entry ← of_target (λ t, get t key);
          if _entries_byte_equal (Some source_entry) target_entry then tick one_boot_idempotent
          else on_target (λ t, put t source_entry);; tick one_boot_applied
      end
  end.

Fixpoint bootstrap_keys (snapshot : InMemorySchemaRegistry) (keys : list str) : action () :=
  match keys with
  | [] => mret ()
  | key :: keys => bootstrap_key snapshot key;; bootstrap_keys snapshot keys
  end.

Definition bootstrap_target_from_source (keys : option (list str))
    (fetch : str → result schema_kv_error (option SchemaRegistryEntry)) : action () :=
  snap ← lift (snapshot keys fetch);
  bootstrap_keys snap (keys_sorted snap).

(** ** Events *)

Definition pinned_put (key : str) (e : SchemaRegistryEntry) : action () :=
  existing ← of_target (λ t, get_with_revision t key);
  match existing with
  | None => on_target (λ t, put t e);; tick one_put
  | Some (_, observed_revision) =>
      catch (on_target (λ t, put_with_revision t e observed_revision);; tick one_put)
        (λ err, match err with
                | SchemaRegistryConflictError _ _ =>
                    tick one_conflict;; lift (raise_if (halt_on_conflict cfg) err)
                | _ => throw err
                end)
  end.

Definition _apply_put (ev : WatchEvent) : action () :=
  match entry ev with
  | None => throw SchemaRegistryEnvelopeError
  | Some e =>
      match conflict_policy cfg with
      | SOURCE_WINS => on_target (λ t, put t e);; tick one_put
      | CAS_PIN => pinned_put (event_key ev) e
      end
  end.

Definition _apply_delete (ev : WatchEvent) : action () :=
  on_target (λ t, delete t (event_key ev));; tick one_delete.

Definition _consume_event (ev : WatchEvent) : action () :=
  decision ← lift (filter_fn cfg ev);
  match decision with
  | SKIP => tick one_filtered
  | APPLY => match op ev with PUT => _apply_put ev | _ => _apply_delete ev end
  end.

(** An envelope error is counted, and raised again if the flag says so. *)
Definition count_envelope_error (err : schema_kv_error) : action () :=
  match err with
  | SchemaRegistryEnvelopeError => tick one_envelope_error;; lift (raise_if (halt_on_envelope_error cfg) err)
  | _ => throw err
  end.

(** The loop over what the stream gives: an event, or the error of its decoder. *)
Fixpoint loop (items : list (result schema_kv_error WatchEvent)) : action () :=
  match items with
  | [] => mret ()
  | item :: items =>
      ev ← lift item;
      catch (_consume_event ev) count_envelope_error;;
      loop items
  end.

Definition tail (items : list (result schema_kv_error WatchEvent)) : action () :=
  catch (loop items) count_envelope_error.

Definition run (bootstrap : bool) (keys : option (list str))
    (fetch : str → result schema_kv_error (option SchemaRegistryEntry))
    (items : list (result schema_kv_error WatchEvent)) : action () :=
  (if bootstrap then bootstrap_target_from_source keys fetch else mret ());;
  tail items.
End replicator.
End SchemaReplication.

Import SchemaKv EntrySigning SchemaReplication.

(** ** Only verified entries reach the target *)

Section safety.
Context `{LocalZone, Sha256} {T : Type} `{KvLaws T} `{!KvPuts T} `{!KvPutLaws T}.

Definition target_sound (rp : SchemaReplicator T) : Prop := sound (target rp).

(** An event as a stream gives it: the entry has no floats. *)
Definition event_plain (ev : WatchEvent) : Prop := ∀ e, entry ev = Some e → entry_plain e.
Definition item_plain (item : result schema_kv_error WatchEvent) : Prop := ∀ ev, item = Ok ev → event_plain ev.

Lemma sound_tick inc : preserves target_sound (tick inc).
Proof. by intros rp. Qed.
Lemma sound_read {A} (read : T → result schema_kv_error A) : preserves target_sound (of_target read).
Proof. by intros rp. Qed.

(** Calls of the backend. *)
Lemma sound_call {A} (call : T → T * result schema_kv_error A) c :
  (∀ t, (call t).1 = perform t c) → call_plain c → preserves target_sound (on_target call).
Proof.
  intros Hc Hp rp Hrp. pose proof (perform_sound (target rp) c Hp Hrp) as Hs. rewrite <- Hc in Hs.
  unfold on_target, target_sound. by destruct (call (target rp)).
Qed.

Lemma sound_put e : entry_plain e → preserves target_sound (on_target (λ t, put t e)).
Proof. intros He. by apply (sound_call _ (Put e)). Qed.
Lemma sound_pinned e n : entry_plain e → preserves target_sound (on_target (λ t, put_with_revision t e n)).
Proof. intros He. by apply (sound_call _ (PutPinned e n)). Qed.
Lemma sound_delete k : preserves target_sound (on_target (λ t, delete t k)).
Proof. by apply (sound_call _ (Delete k)). Qed.

#[local] Hint Resolve sound_tick sound_read sound_put sound_pinned sound_delete : preserves.

Lemma sound_counted (halt : bool) inc err : preserves target_sound (tick inc;; lift (raise_if halt err)).
Proof. eauto with preserves. Qed.
#[local] Hint Resolve sound_counted : preserves.

Lemma sound_consume cfg ev : event_plain ev → preserves target_sound (_consume_event cfg ev).
Proof.
  intros He. unfold _consume_event. apply preserves_bind; [apply preserves_lift|]. intros []; [|apply sound_tick].
  assert (preserves target_sound (_apply_delete ev)) by (unfold _apply_delete; eauto with preserves).
  destruct (op ev); [|done..]. unfold _apply_put. destruct (entry ev) as [e|] eqn:E; [|apply preserves_throw].
  specialize (He e E). destruct (conflict_policy cfg); [eauto with preserves|].
  unfold pinned_put. apply preserves_bind; [apply sound_read|]. intros [[x n]|]; [|eauto with preserves].
  apply preserves_catch; [eauto with preserves|]. intros []; eauto with preserves.
Qed.

Lemma sound_envelope_error cfg err : preserves target_sound (count_envelope_error cfg err).
Proof. unfold count_envelope_error. destruct err; eauto with preserves. Qed.

Lemma sound_tail cfg items : Forall item_plain items → preserves target_sound (tail cfg items).
Proof.
  intros Hit. apply preserves_catch; [|apply sound_envelope_error].
  induction Hit as [|item items Hi Hit IH]; [apply preserves_ret|]. cbn [loop].
  apply preserves_lift_bind. intros ev ->. apply preserves_bind; [|done].
  apply preserves_catch; [by apply sound_consume, Hi|apply sound_envelope_error].
Qed.

(** What a snapshot holds was fetched. *)
Lemma snapshot_plain fetch keys : ∀ reg reg',
  (∀ k e, fetch k = Ok (Some e) → entry_plain e) → map_Forall (λ _ : str, entry_plain) reg →
  snapshot_from reg keys fetch = Ok reg' → map_Forall (λ _ : str, entry_plain) reg'.
Proof.
  induction keys as [|k keys IH]; intros reg reg' Hf Hr Hs; [by apply Ok_inj in Hs as <-|].
  cbn [snapshot_from] in Hs. apply bind_ok_iff in Hs as (o & Ho & Hs). apply bind_ok_iff in Hs as (reg1 & H1' & Hs).
  apply (IH reg1 reg' Hf); [|done]. destruct o as [e|]; [|by apply Ok_inj in H1' as <-].
  unfold add in H1'. apply bind_ok_iff in H1' as (k' & _ & <-%Ok_inj). apply map_Forall_insert_2; [by eapply Hf|done].
Qed.

Lemma sound_bootstrap cfg keys fetch :
  (∀ k e, fetch k = Ok (Some e) → entry_plain e) →
  preserves target_sound (bootstrap_target_from_source cfg keys fetch).
Proof.
  intros Hf. apply preserves_lift_bind. intros reg Hreg.
  assert (map_Forall (λ _ : str, entry_plain) reg) as Hp.
  { unfold snapshot in Hreg. apply bind_ok_iff in Hreg as (ks & _ & Hreg).
    eapply snapshot_plain; [done| |done]. apply map_Forall_empty. }
  induction (keys_sorted reg) as [|k ks IH]; [apply preserves_ret|]. cbn [bootstrap_keys].
  apply preserves_bind; [|done]. unfold bootstrap_key. destruct (lookup reg k) as [e|] eqn:E; [|apply preserves_ret].
  apply Hp in E. apply preserves_bind; [apply preserves_lift|]. intros []; [|apply sound_tick].
  apply preserves_bind; [apply sound_read|]. intros o. destruct (_entries_byte_equal _ _); eauto with preserves.
Qed.

(** Whatever the settings, the source, its updates and the way a run ends: a
    target with verified entries only still has verified entries only. *)
Theorem replica_verified cfg boot rp keys fetch items k :
  (∀ k e, fetch k = Ok (Some e) → entry_plain e) → Forall item_plain items → sound (target rp) →
  let t := target (run cfg boot keys fetch items rp).1 in
  is_Some (kv_get t k) → ∃ e, get t k = Ok (Some e) ∧ gates e = Ok k.
Proof.
  intros Hf Hit Hs t Hk. assert (sound t) as Ht.
  { unfold t. apply (preserves_bind target_sound); [|intros _; by apply sound_tail|done].
    destruct boot; [by apply sound_bootstrap|apply preserves_ret]. }
  destruct (Ht k Hk) as (e & He & Hw). exists e. rewrite gates_ok. split; [done|by apply writable_verified].
Qed.
End safety.

(** ** A replica of the source *)

Section mirror.
Context `{LocalZone, Sha256} {T : Type} `{KvLaws T} `{!KvPuts T} `{!KvPutLaws T}.
Variable cfg : config.
Variable keep : str → bool.
Hypothesis by_key : ∀ ev, filter_fn cfg ev = Ok (if keep (event_key ev) then APPLY else SKIP).
Notation replicator := (SchemaReplicator T).
Notation action := (stm replicator schema_kv_error).

(** The entry under a key, its members in order. *)
Definition document (t : T) (k : str) : option SchemaRegistryEntry := read_as <$> held t k.

Definition troubles (rp : replicator) : Z * Z := (cas_conflicts (metrics rp), envelope_errors (metrics rp)).

(** A computation that makes the document of [k] that of [o] and counts no trouble. *)
Definition makes (k : str) (o : option SchemaRegistryEntry) (m : action ()) : Prop :=
  ∀ rp, sound (target rp) →
  ∃ rp', m rp = (rp', Ok ()) ∧ sound (target rp') ∧ troubles rp' = troubles rp ∧
    ∀ k', document (target rp') k' = if decide (k' = k) then o else document (target rp) k'.

(** The same for a key the filter lets through; for another key nothing changes. *)
Definition makes_kept (k : str) (o : option SchemaRegistryEntry) (m : action ()) : Prop :=
  ∀ rp, sound (target rp) →
  ∃ rp', m rp = (rp', Ok ()) ∧ sound (target rp') ∧ troubles rp' = troubles rp ∧
    ∀ k', document (target rp') k' = if keep k && bool_decide (k' = k) then o else document (target rp) k'.

Lemma kept k o m :
  (keep k = true → makes k o m) →
  (keep k = false → ∃ inc, m = tick inc ∧ cas_conflicts inc = 0 ∧ envelope_errors inc = 0) →
  makes_kept k o m.
Proof.
  intros Hin Hout rp Hs. destruct (keep k) eqn:Ek.
  - destruct (Hin eq_refl rp Hs) as (rp' & E & Hs' & Ht & Hd). exists rp'. split_and!; [done..|].
    intros k'. rewrite Hd. cbn. by case_bool_decide; case_decide.
  - destruct (Hout eq_refl) as (inc & -> & Hc & He). eexists. split; [done|]. split_and!; [done| |done].
    unfold troubles. cbn. by rewrite Hc, He, !Z.add_0_r.
Qed.

Lemma makes_call k o inc {A} (call : T → T * result schema_kv_error A) :
  cas_conflicts inc = 0 → envelope_errors inc = 0 →
  (∀ t, sound t → ∃ t' x, call t = (t', Ok x) ∧ sound t' ∧
     ∀ k', document t' k' = if decide (k' = k) then o else document t k') →
  makes k o (on_target call;; tick inc).
Proof.
  intros Hc He Hcall rp Hs. destruct (Hcall _ Hs) as (t' & x & E & Hs' & Hd).
  unfold mbind, stm_bind, on_target. rewrite E. eexists. split; [done|]. split_and!; [done| |done].
  unfold troubles. cbn. by rewrite Hc, He, !Z.add_0_r.
Qed.

Lemma stored_document t k e rev t' :
  stored_in t k e rev t' → ∀ k', document t' k' = if decide (k' = k) then Some (read_as e) else document t k'.
Proof.
  intros Hst k'. unfold document. rewrite (stored_held _ _ _ _ _ Hst). case_decide; [|done].
  cbn. by rewrite read_twice.
Qed.

(** A verified entry can always be written. *)
Lemma put_makes k e b t :
  entry_plain e → write_plan e = Ok (k, b) → sound t →
  ∃ t' rev, put t e = (t', Ok rev) ∧ sound t' ∧
    ∀ k', document t' k' = if decide (k' = k) then Some (read_as e) else document t k'.
Proof.
  intros He Hp Hs. destruct (put t e) as [t' r] eqn:E. pose proof E as E'. unfold put in E'. rewrite Hp in E'.
  destruct (kv_put t k b) as [t1 rev] eqn:Ek. injection E' as <- <-. exists t1, rev.
  destruct (acknowledged_effect t e t1 rev k b He Hp (or_introl E)) as [Hst Hk]. split_and!; [done|by apply Hk|].
  by eapply stored_document.
Qed.

Lemma pinned_makes k e b t x n :
  entry_plain e → write_plan e = Ok (k, b) → sound t → get_with_revision t k = Ok (Some (x, n)) →
  ∃ t' rev, put_with_revision t e n = (t', Ok rev) ∧ sound t' ∧
    ∀ k', document t' k' = if decide (k' = k) then Some (read_as e) else document t k'.
Proof.
  intros He Hp Hs Hx. unfold get_with_revision in Hx. pose proof Hp as [Hv _]%schema_write_plan_ok.
  rewrite (verified_nonempty k e Hv) in Hx. destruct (kv_get t k) as [kve|] eqn:Ek; [|done].
  destruct (kv_get_shape _ _ _ Ek) as (v & r & ->). cbn [_coerce_value_bytes _coerce_revision_from_entry] in Hx.
  rewrite bind_Ok in Hx. destruct (_envelope_to_entry v); [|done]. injection Hx as _ ->.
  destruct (put_with_revision t e n) as [t' res] eqn:E. pose proof E as E'. unfold put_with_revision in E'.
  rewrite (proj2 (Z.ltb_ge n 0)), Hp in E' by (by eapply kv_revision_nonneg).
  destruct (proj2 (kv_update_at t k v n n Ek b) eq_refl) as [[t1 rev] Eu].
  unfold _kv_update_with_revision in E'. rewrite Eu in E'. injection E' as <- <-. exists t1, rev.
  destruct (acknowledged_effect t e t1 rev k b He Hp) as [Hst Hk]; [right; by exists n|].
  split_and!; [done|by apply Hk|]. by eapply stored_document.
Qed.

Lemma put_event_makes k e b rev :
  entry_plain e → write_plan e = Ok (k, b) →
  makes_kept k (Some (read_as e)) (_consume_event cfg (MkWatch PUT k (Some e) rev)).
Proof.
  intros He Hp. unfold _consume_event. rewrite by_key. cbn [event_key].
  apply kept; intros ->; [|by exists one_filtered]. intros rp Hs.
  rewrite (stm_bind_eq _ _ rp rp APPLY) by done. cbn [op]. unfold _apply_put. cbn [entry event_key].
  assert (makes k (Some (read_as e)) (on_target (λ t, put t e);; tick one_put)) as Hput.
  { apply makes_call; [done..|]. intros t Ht. by eapply put_makes. }
  destruct (conflict_policy cfg); [by apply Hput|]. unfold pinned_put.
  destruct (get_with_revision (target rp) k) as [o|err] eqn:E.
  - rewrite (stm_bind_eq _ _ rp rp o) by (unfold of_target; by rewrite E). destruct o as [[x n]|]; [|by apply Hput].
    destruct (pinned_makes k e b (target rp) x n He Hp Hs E) as (t' & r & Ew & Hs' & Hd).
    unfold catch, mbind, stm_bind, on_target. rewrite Ew. eexists. split; [done|]. split_and!; [done| |done].
    unfold troubles. cbn. by rewrite !Z.add_0_r.
  - exfalso. pose proof (sound_get (target rp) k Hs) as Hg. rewrite get_revision, E in Hg. done.
Qed.

Lemma removal_makes o k rev :
  o ≠ PUT → str_empty k = false → makes_kept k None (_consume_event cfg (MkWatch o k None rev)).
Proof.
  intros Ho Hk. unfold _consume_event. rewrite by_key. cbn [event_key].
  apply kept; intros ->; [|by exists one_filtered]. intros rp Hs.
  rewrite (stm_bind_eq _ _ rp rp APPLY) by done. cbn [op].
  assert (makes k None (on_target (λ t, delete t k);; tick one_delete)) as Hdel.
  { apply makes_call; [done..|]. intros t Ht. destruct (delete t k) as [t' r] eqn:E.
    assert (r = Ok ()) as -> by (unfold delete in E; rewrite Hk in E; destruct (kv_get t k); by injection E).
    destruct (removed_held t k t' E) as (_ & Hh & Hsound). exists t', (). split_and!; [done|by apply Hsound|].
    intros k'. unfold document. rewrite Hh. by case_decide. }
  destruct o; [done|by apply Hdel..].
Qed.

(** *** Bootstrap *)

Lemma same_envelopes a b :
  entry_plain a → entry_plain b → _entries_byte_equal (Some a) (Some b) = true → read_as a = read_as b.
Proof.
  intros Ha Hb He. cbn in He. destruct (_entry_to_envelope a) as [x|] eqn:Ea; [|done].
  destruct (_entry_to_envelope b) as [y|] eqn:Eb; [|done]. apply bool_decide_eq_true in He as ->.
  pose proof (schema_roundtrip _ _ Ha Ea) as Ra. rewrite (schema_roundtrip _ _ Hb Eb) in Ra. by apply Ok_inj in Ra.
Qed.

Lemma bootstrap_key_makes reg k e :
  lookup reg k = Some e → writable k e → makes_kept k (Some (read_as e)) (bootstrap_key cfg reg k).
Proof.
  intros Hl [He [b Hp]]. unfold bootstrap_key. rewrite Hl, by_key. cbn [event_key].
  apply kept; intros ->; [|by exists one_boot_filtered]. intros rp Hs.
  rewrite (stm_bind_eq _ _ rp rp APPLY) by done.
  rewrite (stm_bind_eq _ _ rp rp (held (target rp) k)) by (unfold of_target; by rewrite sound_get).
  destruct (held (target rp) k) as [x|] eqn:Ex; [destruct (_entries_byte_equal (Some e) (Some x)) eqn:Eq|].
  - eexists. split; [done|]. split_and!; [done| |].
    + unfold troubles. cbn. by rewrite !Z.add_0_r.
    + intros k'. cbn [target]. case_decide as Hk; [|done]. subst k'. unfold document. rewrite Ex. cbn. f_equal.
      symmetry. destruct (sound_held (target rp) k x Hs Ex) as [Hx _]. by apply same_envelopes.
  - revert rp Hs Ex. intros rp Hs _. apply (makes_call k (Some (read_as e)) one_boot_applied); [done..| |done].
    intros t Ht. by eapply put_makes.
  - apply (makes_call k (Some (read_as e)) one_boot_applied); [done..| |done]. intros t Ht. by eapply put_makes.
Qed.

Lemma schema_bootstrap_keys_mirror (reg : InMemorySchemaRegistry) keys : ∀ rp,
  (∀ k e, lookup reg k = Some e → writable k e) → (∀ k, k ∈ keys → is_Some (lookup reg k)) → sound (target rp) →
  ∃ rp', bootstrap_keys cfg reg keys rp = (rp', Ok ()) ∧ sound (target rp') ∧ troubles rp' = troubles rp ∧
    ∀ k, document (target rp') k =
      if keep k && bool_decide (k ∈ keys) then read_as <$> lookup reg k else document (target rp) k.
Proof.
  induction keys as [|key keys IH]; intros rp Hw Hin Hs.
  { exists rp. split_and!; [done..|]. intros k. by rewrite bool_decide_false, andb_false_r by (by intros ?%elem_of_nil). }
  destruct (Hin key ltac:(left)) as [e He].
  destruct (bootstrap_key_makes reg key e He (Hw _ _ He) rp Hs) as (rp1 & E1 & Hs1 & Ht1 & Hd1).
  destruct (IH rp1 Hw) as (rp' & E' & Hs' & Ht' & Hd'); [intros k Hk; apply Hin; by right|done|].
  exists rp'. cbn [bootstrap_keys]. unfold mbind, stm_bind. rewrite E1. split_and!; [done|done|congruence|].
  intros k. rewrite Hd', Hd1. destruct (decide (k = key)) as [->|Hne].
  - rewrite (bool_decide_true (key = key)) by done. rewrite (bool_decide_true (key ∈ key :: keys)) by left.
    rewrite He. destruct (keep key); [|done]. by case_bool_decide.
  - rewrite (bool_decide_false (k = key)), andb_false_r by done.
    replace (bool_decide (k ∈ key :: keys)) with (bool_decide (k ∈ keys)); [done|].
    apply bool_decide_ext. rewrite elem_of_cons. naive_solver.
Qed.

Lemma schema_loop_app items items' rp rp' :
  loop cfg items rp = (rp', Ok ()) → loop cfg (items ++ items') rp = loop cfg items' rp'.
Proof.
  revert rp. induction items as [|item items IH]; intros rp; [by intros [= ->]|]. cbn [app loop].
  unfold mbind, stm_bind. destruct (lift item rp) as [rp1 [ev|err]]; [|done].
  destruct (catch _ _ rp1) as [rp2 [[]|err]]; [apply IH|done].
Qed.

Lemma loop_one ev rp rp' : _consume_event cfg ev rp = (rp', Ok ()) → loop cfg [Ok ev] rp = (rp', Ok ()).
Proof. intros E. cbn [loop]. rewrite (stm_bind_eq _ _ rp rp ev) by done. unfold mbind, stm_bind, catch. by rewrite E. Qed.
End mirror.

Section replica.
Context `{LocalZone, Sha256} {T : Type} `{KvLaws T} `{!KvPuts T} `{!KvPutLaws T}.
Context {S : Type} `{KvLaws S} `{!KvKeys S} `{!KvKeysLaws S} `{!KvPuts S} `{!KvPutLaws S}.

(** The updates of the source carry the target along. *)
Lemma loop_mirror cfg (keep : str → bool) (s : S) us (s' : S) (rp0 rp : SchemaReplicator T) :
  (∀ ev, filter_fn cfg ev = Ok (if keep (event_key ev) then APPLY else SKIP)) →
  history s us s' → sound (target rp) →
  (∀ k, document (target rp) k = if keep k then document s k else document (target rp0) k) →
  ∃ rp', loop cfg (_decode_watch_update <$> us) rp = (rp', Ok ()) ∧ sound (target rp') ∧
    troubles rp' = troubles rp ∧
    ∀ k, document (target rp') k = if keep k then document s' k else document (target rp0) k.
Proof.
  intros Hc Hh Hs0 Hm0.
  induction Hh as [|us s1 e k b s2 rev Hh (rp1 & E1 & Hs1 & Ht1 & Hm1) He Hp Ha|us s1 o k s2 rev Hh (rp1 & E1 & Hs1 & Ht1 & Hm1) Ho Hd].
  - by exists rp.
  - rewrite fmap_app. cbn [fmap list_fmap]. rewrite (decode_put k e b rev He Hp).
    destruct (writable_read k e) as [He' [b' Hp']]; [by split; eauto|].
    destruct (put_event_makes cfg keep Hc k (read_as e) b' rev He' Hp' rp1 Hs1) as (rp2 & E2 & Hs2 & Ht2 & Hd2).
    exists rp2. rewrite (schema_loop_app _ _ _ _ _ E1), (loop_one _ _ _ _ E2). split_and!; [done|done|congruence|].
    intros k'. destruct (acknowledged_effect _ _ _ _ _ _ He Hp Ha) as [Hst _].
    rewrite Hd2, Hm1, (stored_document _ _ _ _ _ Hst), read_twice.
    case_bool_decide as Ek; [rewrite decide_True by done; subst k'|rewrite decide_False by done; by rewrite andb_false_r].
    by destruct (keep k).
  - pose proof Hd as (Hk & Hh' & _)%removed_held. rewrite fmap_app. cbn [fmap list_fmap]. rewrite (decode_removal o k rev Ho Hk).
    destruct (removal_makes cfg keep Hc o k rev Ho Hk rp1 Hs1) as (rp2 & E2 & Hs2 & Ht2 & Hd2).
    exists rp2. rewrite (schema_loop_app _ _ _ _ _ E1), (loop_one _ _ _ _ E2). split_and!; [done|done|congruence|].
    intros k'. rewrite Hd2, Hm1. replace (document s2 k') with (if decide (k' = k) then None else document s1 k')
      by (unfold document; rewrite Hh'; by case_decide).
    case_bool_decide as Ek; [rewrite decide_True by done; subst k'|rewrite decide_False by done; by rewrite andb_false_r].
    by destruct (keep k).
Qed.

(** C30: A filter that decides by the key, a source and a target that hold verified
    entries only, and a target that has no key the filter lets through without
    the source having it: after the bootstrap and the updates of any writes and
    removals on the source, the target has, under every key the filter lets
    through, the document of the source, and under every other key what it had.
    No conflict and no error is counted, under either policy. *)
Theorem replica_documents cfg (keep : str → bool) (rp : SchemaReplicator T) (s : S) us s' ks :
  (∀ ev, filter_fn cfg ev = Ok (if keep (event_key ev) then APPLY else SKIP)) →
  sound (target rp) → sound s →
  (∀ k, keep k = true → is_Some (held (target rp) k) → is_Some (held s k)) →
  kv_keys s = Some ks → history s us s' →
  ∃ rp', run cfg true (Some ks) (get s) (_decode_watch_update <$> us) rp = (rp', Ok ()) ∧
    (∀ k, document (target rp') k = if keep k then document s' k else document (target rp) k) ∧
    troubles rp' = troubles rp.
Proof.
  intros Hc Ht Hs Hin Hks Hh. destruct (schema_snapshot_reads s ks Hs Hks) as (reg & Ereg & Hreg).
  destruct (schema_bootstrap_keys_mirror cfg keep Hc reg (keys_sorted reg) rp) as (rp0 & E0 & Hs0 & Ht0 & Hd0); [| |done|].
  { intros k e. rewrite Hreg. apply (sound_held s k e Hs). }
  { intros k Hk%elem_of_py_sorted%list_elem_of_fmap. destruct Hk as ([k' e] & -> & Hk%elem_of_map_to_list). by exists e. }
  assert (∀ k, document (target rp0) k = if keep k then document s k else document (target rp) k) as Hm0.
  { intros k. rewrite Hd0. specialize (Hin k). destruct (keep k); [|done]. specialize (Hin eq_refl).
    cbn [andb]. unfold document. case_bool_decide as Hk; [by rewrite Hreg|].
    destruct (held s k) as [e|] eqn:Ee.
    - exfalso. apply Hk, elem_of_py_sorted, list_elem_of_fmap. exists (k, e). split; [done|].
      apply elem_of_map_to_list. rewrite <- Ee. apply Hreg.
    - destruct (held (target rp) k) eqn:Et; [|done]. by destruct Hin. }
  assert (bootstrap_target_from_source cfg (Some ks) (get s) rp = (rp0, Ok ())) as Eboot.
  { unfold bootstrap_target_from_source. rewrite (stm_bind_eq _ _ rp rp reg); [done|]. unfold lift. by rewrite Ereg. }
  unfold run. rewrite (stm_bind_eq _ _ rp rp0 ()) by exact Eboot.
  destruct (loop_mirror cfg keep s us s' rp rp0 Hc Hh Hs0 Hm0) as (rp' & E & _ & Htr & Hm).
  exists rp'. unfold tail, catch. rewrite E. split_and!; [done|done|congruence].
Qed.
End replica.

(** *** Counting *)

Section counting.
Context `{LocalZone, Sha256} {T : Type} `{KvBucket T} `{KvPuts T}.

Lemma counted cfg (rp : SchemaReplicator T) :
  halt_on_envelope_error cfg = true →
  count_envelope_error cfg SchemaRegistryEnvelopeError rp =
    (MkReplicator (target rp) (count one_envelope_error (metrics rp)), Err SchemaRegistryEnvelopeError).
Proof. intros Hh. unfold count_envelope_error. by rewrite Hh. Qed.

(** An envelope error of an event is counted by the inner handler and, raised
    again, by the outer one; an error of the decoder is counted once. *)
Lemma envelope_error_twice cfg ev items (rp rp1 : SchemaReplicator T) :
  halt_on_envelope_error cfg = true → _consume_event cfg ev rp = (rp1, Err SchemaRegistryEnvelopeError) →
  ∃ rp', tail cfg (Ok ev :: items) rp = (rp', Err SchemaRegistryEnvelopeError) ∧ target rp' = target rp1 ∧
    envelope_errors (metrics rp') = envelope_errors (metrics rp1) + 2.
Proof.
  intros Hh E. unfold tail, catch. cbn [loop]. unfold mbind at 1 2, stm_bind at 1 2, lift, catch.
  rewrite E, !counted by done. eexists. split; [done|]. split; [done|]. cbn. lia.
Qed.

Lemma decoder_error_once cfg items (rp : SchemaReplicator T) :
  halt_on_envelope_error cfg = true →
  ∃ rp', tail cfg (Err SchemaRegistryEnvelopeError :: items) rp = (rp', Err SchemaRegistryEnvelopeError) ∧
    target rp' = target rp ∧ envelope_errors (metrics rp') = envelope_errors (metrics rp) + 1.
Proof.
  intros Hh. unfold tail, catch. cbn [loop]. unfold mbind, stm_bind, lift. rewrite counted by done. by eexists.
Qed.
End counting.

Module SchemaReplicationExample.
Import SchemaKvExample EntrySigningExample.
#[local] Existing Instance PolicyKvExample.utc_host.
#[local] Existing Instance checksum_sha256.

Notation seq_replicator := (SchemaReplicator seq_kv).
Definition fresh (t : seq_kv) : seq_replicator := MkReplicator t no_metrics.
Definition pinning : config := MkConfig CAS_PIN _accept_all true false.

(** A source with one entry; the entry is replaced and then removed. *)
Definition source1 : seq_kv := (put_with_revision bucket1 second 1).1.
Definition source2 : seq_kv := (delete source1 key1).1.
Definition updates : list (MarkerKv.MarkerKv.kv_update_msg) :=
  [put_update key1 (blob_of second) 2; removal_update PURGE key1 3].

Lemma replaced : history bucket1 [put_update key1 (blob_of second) 2] source1.
Proof.
  apply (a_write _ [] bucket1 second key1 (blob_of second) source1 2).
  - apply no_change.
  - apply schema_plain.
  - by vm_compute.
  - right. exists 1. apply injective_projections; [reflexivity|by vm_compute].
Qed.

Lemma replaced_and_removed : history bucket1 updates source2.
Proof.
  apply (a_removal _ [put_update key1 (blob_of second) 2] source1 PURGE key1 source2 3); [exact replaced|done|].
  apply injective_projections; [reflexivity|by vm_compute].
Qed.

(** A filter that lets every key through but one, and a target that has an entry
    under that key. *)
Definition not_key1 (k : str) : bool := negb (str_eqb k key1).
Definition picky : config :=
  MkConfig CAS_PIN (λ ev, Ok (if not_key1 (event_key ev) then APPLY else SKIP)) true false.

Lemma replica_documents_witness :
  (∃ rp', run pinning true (Some [key1]) (get bucket1)
      (_decode_watch_update <$> [put_update key1 (blob_of second) 2]) (fresh empty) = (rp', Ok ()) ∧
    (∀ k, document (target rp') k = document source1 k) ∧ troubles rp' = troubles (fresh empty)) ∧
  (∃ rp', run picky true (Some []) (get empty) (_decode_watch_update <$> []) (fresh bucket1) = (rp', Ok ()) ∧
    (∀ k, document (target rp') k = if not_key1 k then document empty k else document bucket1 k) ∧
    troubles rp' = troubles (fresh bucket1)).
Proof.
  split.
  - apply (replica_documents pinning (λ _, true) (fresh empty) bucket1).
    + done.
    + exact empty_sound.
    + exact bucket1_sound.
    + intros k _ [e He]. apply held_present in He as [? He]. discriminate He.
    + by vm_compute.
    + exact replaced.
  - apply (replica_documents picky not_key1 (fresh bucket1) empty).
    + done.
    + exact bucket1_sound.
    + exact empty_sound.
    + intros k Hk. cbn [target fresh]. intros [e He]. apply held_present in He.
      apply (kv_keys_in bucket1 [key1] k ltac:(by vm_compute)), list_elem_of_singleton in He as ->.
      by vm_compute in Hk.
    + by vm_compute.
    + apply no_change.
Defined.

Lemma replica_verified_witness :
  ∃ e, get (target (run pinning true (Some [key1]) (get bucket1)
      (_decode_watch_update <$> [put_update key1 (blob_of second) 2]) (fresh empty)).1) key1 = Ok (Some e) ∧
    gates e = Ok key1.
Proof.
  apply (replica_verified pinning true (fresh empty) (Some [key1]) (get bucket1)
    (_decode_watch_update <$> [put_update key1 (blob_of second) 2]) key1).
  - intros k e He. apply (sound_held bucket1 k e bucket1_sound). unfold held. by rewrite He.
  - cbn [fmap list_fmap]. rewrite (decode_put key1 second) by (apply schema_plain || by vm_compute).
    apply Forall_singleton. intros ev [= <-] e [= <-]. apply plain_read, schema_plain.
  - exact empty_sound.
  - vm_compute. by eexists.
Defined.

(** *** What the code does besides *)

(** An unreadable entry of the target, with pinned writes: one error, counted
    twice. *)
Definition unreadable : seq_kv := (seq_write empty key1 []).1.
Example schema_counted_twice :
  let r := run pinning false None (get bucket1) (_decode_watch_update <$> updates) (fresh unreadable) in
  r.2 = Err SchemaRegistryEnvelopeError ∧ envelope_errors (metrics r.1) = 2.
Proof. split; by vm_compute. Qed.

(** An unreadable entry of the source ends a bootstrap, and is not counted. *)
Example poison_uncounted :
  let r := run default_config true (Some [key1]) (get unreadable) [] (fresh empty) in
  r.2 = Err SchemaRegistryEnvelopeError ∧ envelope_errors (metrics r.1) = 0.
Proof. split; by vm_compute. Qed.

(** A key that only the target has stays after a bootstrap. *)
Example schema_extra_key_stays :
  let r := run default_config true (Some []) (get empty) [] (fresh bucket1) in
  r.2 = Ok () ∧ kv_keys (target r.1) = Some [key1] ∧ kv_keys empty = Some [].
Proof. split_and!; by vm_compute. Qed.

(** An entry with a wrong digest on the source, which readers accept, ends a run
    with an error that is not counted, whatever the settings. *)
Example invalid_ends_run :
  let source := (seq_write empty key1 (blob_of tampered)).1 in
  let r := run (MkConfig SOURCE_WINS _accept_all false false) true (Some [key1]) (get source) [] (fresh empty) in
  r.2 = Err SchemaRegistryValidationError ∧ kv_keys (target r.1) = Some [] ∧ envelope_errors (metrics r.1) = 0.
Proof. split_and!; by vm_compute. Qed.

(** A signed entry is replicated without its signature. *)
Example replica_unsigned :
  let r := run default_config true (Some [key1]) (get signed_bucket) [] (fresh empty) in
  r.2 = Ok () ∧
  match kv_get (target r.1) key1 with
  | Some (KvObj (Some (VBytes b)) _) => envelope_to_signed_entry b = Ok (BareEntry (read_as first))
  | _ => False
  end.
Proof. split; by vm_compute. Qed.
End SchemaReplicationExample.
